(* ===== verification/_CoqProject ===== *)
-Q . S2P
Prelude.v
Base64.v
Varint.v
Json.v
IpcMessage.v
IpcConnection.v
IpcEndpoint.v
IpcServer.v
IpcClient.v
IpcNegotiation.v
CxxString.v
FloatText.v
CxxTime.v
EventBatch.v
MemoryBatch.v
FileBatch.v
MultiFileBatch.v
BufferedBatch.v
Compressor.v
Uploader.v
TelemetryConfig.v
TaskThread.v
Serializer.v
EventManager.v
GamepadMapping.v
Joystick.v
GamepadManager.v
GameWindow.v
TextInput.v
InputQueue.v
WindowCallbacks.v
PatchUtils.v
Hooks.v
ModLoader.v
Paths.v
Options.v
Launcher.v
Network.v
Pthreads.v
Assets.v
Epoll.v
GlfwWindow.v
Daemon.v
Files.v
LinkerUtils.v
LinkerImage.v
LinkerSymbols.v
LinkerGroups.v
LinkerWalk.v
LinkerUnload.v
LinkerDlopen.v
LinkerSession.v
LinkerRelocate.v
LinkerDynamic.v
LinkerAlloc.v
JniStrings.v
JniSignatures.v
JniRefs.v
JniClasses.v
