(* ===== verification/Prelude.v ===== *)
(** * Verification of mcpelauncher

    mcpelauncher runs the Android version of a game on Linux and macOS.  It loads the game's
    libraries with Android's linker, gives them a C library and the Java classes they expect,
    opens a window, and turns its events into those of Android.  Beside it run services, which
    it talks to over sockets, and a client for telemetry.  This library models these parts as
    functions on explicit states and proves what makes them correct.

    ** Conventions

    This file holds what all others use.  A C++ function that can fail returns an [outcome]:
    [Ret], [Throw] with the exception, [Undef] where the standard leaves the execution undefined
    (reads outside a buffer, a null pointer, an overflowing shift), and [Diverge] when the fuel
    of a loop is used up.  Theorems that a function returns therefore also say that it stays
    inside its buffers and ends.  Strings are [bytes]; machine integers are [Z] with [wrapu] and
    [wraps] where the width matters; [float] and [double] are [spec_float].  Objects on the heap
    are numbered and kept in maps, so that aliasing and dangling pointers are visible.  Where a
    loop is not structural its fuel is a measure of the input (the length of a text or a file,
    the number of ids in use), and the theorems show that it is enough.

    Code outside the repository is a parameter: an interface with a class of laws and an
    instance that has them where much is used of it ([Json.v] for nlohmann's json, [Zlib] in
    [Compressor.v], batches in [EventBatch.v]), otherwise a function in the context of a section
    (the host's C library, GLFW, HTTP, the clock, the linker).  What is assumed of it is written
    as named hypotheses; the witnesses show instances.  Of the standard libraries, [CxxString.v],
    [FloatText.v] and [CxxTime.v] model what the sources use.

    ** Interprocess calls (simple-ipc, daemon-utils)

    - [Varint.v], [IpcMessage.v]: the encodings of messages (src/common/encoding) and the message
      classes.
    - [IpcConnection.v]: [connection_internal], the buffer and the loop that cuts the stream into
      messages.  However the socket splits the stream, the loop delivers the messages that a
      specification on the whole stream gives, and ends.
    - [IpcEndpoint.v], [IpcServer.v], [IpcClient.v]: sending, [rpc_handler], [service] and
      [service_client].  A request is answered once; no callback is lost or run twice, where the
      callbacks return.
    - [IpcNegotiation.v]: client and service together; after the greeting both use the same
      encoding.
    - [Daemon.v]: [epoll_io_handler], [unix_service_impl], [auto_shutdown_service] and
      [daemon_launcher].  Clients are counted, and a service ends when the last one leaves.

    ** Telemetry (cll-telemetry, base64)

    - [Base64.v]: decoding inverts encoding.
    - [EventBatch.v]: the interface of batches and its specification, a queue; [MemoryBatch.v],
      [FileBatch.v], [MultiFileBatch.v], [BufferedBatch.v]: the implementations, with partial
      writes, damaged files and restarts.
    - [Compressor.v], [Uploader.v], [TelemetryConfig.v], [TaskThread.v], [Serializer.v]: the
      loops around zlib, one upload, the downloaded configuration and its cache, the thread that
      runs uploads, and the envelope of events.  Events leave a batch exactly when the server has
      answered 200.
    - [EventManager.v]: the parts together; what is added is stored once and uploaded.

    ** Input (linux-gamepad, game-window, mcpelauncher-client)

    - [GamepadMapping.v], [Joystick.v], [GamepadManager.v]: lines of the controller database, which
      are read as the mappings that they describe, evdev devices and gamepads.
    - [GameWindow.v], [GlfwWindow.v]: keys, and the windows of GLFW with their joysticks.  The
      clients of the windows know the connected gamepads, but for those a window misses because it
      was shown alone.
    - [TextInput.v]: the text field, which refines an editor of characters for characters of one
      to three bytes.
    - [InputQueue.v], [WindowCallbacks.v]: the events for the game and the callbacks of the
      window.  What the game learns of gamepads is what the window reported.

    ** The launcher (mcpelauncher-core, mcpelauncher-common, file-util, arg-parser, properties-parser)

    - [PatchUtils.v], [Hooks.v], [ModLoader.v]: patterns and instructions, chains of hooks and
      the order in which mods are loaded.
    - [Paths.v], [Options.v], [Launcher.v]: directories and files, settings and the command line,
      and the start of [main]; [FloatText.v]: [std::to_string] and [std::stof] on floats, on which
      settings of that type rely.
    - [Assets.v]: the asset functions of Android.

    ** The C library (libc-shim, epoll-shim)

    - [Network.v]: error numbers and sockets; [Files.v]: paths, flags, directories and [poll];
      [Pthreads.v]: threads and locks, with the first use of a static lock by two threads as
      interleaved steps; [Epoll.v]: epoll on top of kqueue, which refines the interest list of epoll
      where no descriptor is added twice while it is open.

    ** The linker (mcpelauncher-linker)

    - [LinkerUtils.v]: normalization of paths, search paths, tokens, and packed numbers
      (linker_utils.cpp, linker_sleb128.h).
    - [LinkerSymbols.v]: the hash tables, versions and lists of lookups of linker_soinfo.cpp.  A
      lookup finds what a search through the symbol tables would.
    - [LinkerGroups.v]: the libraries as a numbered heap with links between them, and [dlopen],
      [dlsym], [dlclose], constructors and destructors on it (linker.cpp, linker_soinfo.cpp).
      The files, the outcome of mapping and relocating, and the answers of ifunc resolvers are
      parameters.  A library that is freed is removed from the heap, so that using it later is
      [Undef].
    - [LinkerWalk.v]: walks of the dependencies, breadth first, which [dlsym] searches, and the
      order of constructors.
    - [LinkerUnload.v], [LinkerDlopen.v]: an invariant of links, groups, reference counts and
      handles, which closing and opening keep; a [dlopen] that fails changes nothing.  The
      dependencies must have no cycle, which the code relies on.
    - [LinkerSession.v]: any sequence of operations on libraries without cycles, opened by name, the
      linker itself apart; and what happens otherwise: a use after free, libraries that stay, an
      abort.
    - [LinkerImage.v]: [ElfReader] of linker_phdr.cpp: checking the headers of any file, reserving
      addresses and mapping segments.  Memory is a function from addresses to bytes, and the address
      space also knows which addresses are taken; where the kernel puts a mapping is a parameter.
    - [LinkerRelocate.v]: [soinfo::relocate] of linker_relocate.cpp with packed tables, bitmaps and
      versions, against a reference that applies relocations one by one; the tables themselves are
      taken not to be relocated.  The words of a bitmap have
      64 bits, so 64 rounds read one; a packed group takes two bytes at least, so the length of the
      table bounds the groups.
    - [LinkerDynamic.v]: [prelink_image] of linker.cpp on the memory of a loaded library.  The number
      of entries bounds the fuel of the walk over them.
    - [LinkerAlloc.v]: the allocator of blocks and the linked lists of the linker
      (linker_block_allocator.cpp, linked_list.h).  Blocks in use never overlap, and lists behave as
      sequences, whatever is done to others of the same allocator.  The number of entries in use
      bounds the walks.
    The fuel of the walks is the number of links, that of unloading the number of libraries, that
    of searching the names that the files not yet loaded need; the theorems show it is enough.

    ** The Java environment (libjnivm)

    The environment that is built with [JNI_USE_JNIVM], with its garbage collection and debugging
    switched on, as its build files set them.
    - [JniStrings.v]: modified UTF-8 and the calls for strings (stringUtil.cpp, string.cpp).  A loop
      that runs off a string reads past its end, so its length and two more steps are enough fuel.
    - [JniSignatures.v]: types, variable arguments and generated declarations (skipJNIType.cpp,
      jValuesfromValist.cpp, parseJNIType.cpp, method.cpp of codegen).  Every step moves on in the
      signature, whose length bounds the fuel.
    - [JniRefs.v]: local, global and weak references, frames, exceptions and threads (vm.cpp,
      jnitypes.h), on a heap of objects with use counts.  The counts are exact, so that nothing
      dangles or leaks; a global reference keeps its object and a weak one follows it.  Each object
      destroyed leaves the heap, whose size bounds the fuel.
    - [JniClasses.v]: the tree of classes and the lookup of methods and fields (findclass.cpp,
      method.cpp, field.cpp).  The depth of the base classes bounds the fuel.

    ** What the theorems show

    Refinements relate a component to what it promises: the connection to a function on the
    stream, the text field to an editor, the batches to queues, the mutexes and cleanup handlers
    to those of the host, epoll to its interest list.  Round trips cover the encodings, files and
    addresses.  Invariants are proved over all sequences of operations: window callbacks,
    callbacks of calls, joysticks, clients, hooks, libraries of the linker, references of Java
    objects.  Where the code does not do what it means to,
    a theorem states what happens; its comment says so.

    ** Not modelled

    The other JNI environments (baron, fake-jni), of libjnivm the calls of bound functions, the
    values of fields, arrays, buffers and monitors, and the Java classes of the client, which are
    C++ templates over the types of the game; the namespaces
    of the linker, of which the launcher has one, its configuration files, which are not read,
    its thread-local storage, which is not compiled, and the sharing of relocated pages between
    processes, which the launcher does not ask for; EGLUT, the EGLUT windows and the window
    managers, which are calls of the window system; the patches at fixed places of the game
    and the crash handler, which work on the loaded code; the parts of the C library that
    pass calls on after renaming constants or wrapping an object (stdio, stat, semaphores,
    sysconf, ctype, common) and the tables of symbols; accounts, the file picker, the error
    window and the web view, which start programs or forward requests; the logger; the
    branches for macOS except for kqueue; headers, prebuilt libraries and the build. *)

From Stdlib Require Import ZArith Ascii Lia.
From stdpp Require Import base list gmap strings numbers pretty.

#[global] Set Default Goal Selector "!".

(** ** Outcomes of C++ code

    [Ret] is a normal return, [Throw] a C++ exception, [Undef] an execution
    that the standard leaves undefined (an access out of bounds, a shift that
    overflows), [Diverge] an execution that used up the fuel of the model. *)
Inductive outcome (E A : Type) : Type :=
| Ret (a : A)
| Throw (e : E)
| Undef
| Diverge.
Arguments Ret {E A} a.
Arguments Throw {E A} e.
Arguments Undef {E A}.
Arguments Diverge {E A}.

#[global] Instance outcome_ret (E : Type) : MRet (outcome E) := fun A a => Ret a.

#[global] Instance outcome_bind (E : Type) : MBind (outcome E) := fun A B f m =>
  match m with
  | Ret a => f a
  | Throw e => Throw e
  | Undef => Undef
  | Diverge => Diverge
  end.

(** The standard exceptions the sources throw; [what] is the message. *)
Inductive exn : Type :=
| runtime_error (what : string)
| invalid_argument (what : string)
| out_of_range (what : string).

#[global] Instance exn_eq_dec : EqDecision exn.
Proof. solve_decision. Defined.

#[global] Instance outcome_eq_dec `{EqDecision E, EqDecision A} : EqDecision (outcome E A).
Proof. solve_decision. Defined.

(** [m] neither goes wrong nor runs out of fuel: it returns or throws. *)
Definition defined {E A} (m : outcome E A) : Prop :=
  match m with Ret _ | Throw _ => True | _ => False end.

(** The partial-correctness predicate of [m]: what holds of a returned value. *)
Definition returns {E A} (m : outcome E A) (P : A -> Prop) : Prop :=
  match m with Ret a => P a | _ => False end.

Lemma bind_ret_inv {E A B} (m : outcome E A) (f : A -> outcome E B) b :
  m ≫= f = Ret b -> exists a, m = Ret a /\ f a = Ret b.
Proof. destruct m; simpl; naive_solver. Qed.

Lemma returns_ret {E A} (m : outcome E A) P : returns m P <-> exists a, m = Ret a /\ P a.
Proof. split; [destruct m; simpl; try done; eauto|]. by intros (a & -> & ?). Qed.

(** ** Characters and byte strings

    A [char] is an [ascii]; a [std::string], a [char*] buffer or a
    [std::vector<char>] is a list of them. *)
Abbreviation bytes := (list ascii).

Definition NUL : ascii := Ascii.zero.

(** The bytes of a string literal. *)
Definition lit (s : string) : bytes := String.list_ascii_of_string s.

(** [(unsigned char) c] as an integer, and the conversion of an integer to a
    character type, which keeps the low eight bits. *)
Definition uchar (c : ascii) : Z := Z.of_N (N_of_ascii c).
Definition to_char (z : Z) : ascii := ascii_of_N (Z.to_N (z mod 256)).

(** [c] as a signed [char]. *)
Definition schar (c : ascii) : Z := if decide (uchar c < 128)%Z then uchar c else (uchar c - 256)%Z.

Open Scope Z_scope.

Lemma uchar_range c : 0 <= uchar c < 256.
Proof. unfold uchar. pose proof (N_ascii_bounded c). lia. Qed.

Lemma uchar_to_char z : uchar (to_char z) = z mod 256.
Proof.
  unfold uchar, to_char. pose proof (Z.mod_pos_bound z 256 ltac:(lia)).
  rewrite N_ascii_embedding by lia. lia.
Qed.

Lemma uchar_to_char_small z : 0 <= z < 256 -> uchar (to_char z) = z.
Proof. intros. rewrite uchar_to_char. by apply Z.mod_small. Qed.

Lemma to_char_uchar c : to_char (uchar c) = c.
Proof.
  unfold uchar, to_char. pose proof (N_ascii_bounded c).
  rewrite Z.mod_small by lia. rewrite N2Z.id. apply ascii_N_embedding.
Qed.

Lemma uchar_inj c d : uchar c = uchar d -> c = d.
Proof. intros H. by rewrite <- (to_char_uchar c), H, to_char_uchar. Qed.

(** ** Machine integers

    [wrapu w] and [wraps w] are the conversions of an integer to the unsigned
    and to the signed two's-complement type of [w] bits. *)
Definition wrapu (w z : Z) : Z := z mod 2 ^ w.
Definition wraps (w z : Z) : Z := (z + 2 ^ (w - 1)) mod 2 ^ w - 2 ^ (w - 1).

Lemma wrapu_range w z : 0 <= w -> 0 <= wrapu w z < 2 ^ w.
Proof. intros. apply Z.mod_pos_bound. by apply Z.pow_pos_nonneg. Qed.

Lemma wrapu_small w z : 0 <= z < 2 ^ w -> wrapu w z = z.
Proof. apply Z.mod_small. Qed.

Lemma wraps_small w z : 0 < w -> - 2 ^ (w - 1) <= z < 2 ^ (w - 1) -> wraps w z = z.
Proof.
  intros Hw Hz. unfold wraps.
  assert (2 ^ w = 2 * 2 ^ (w - 1)).
  { rewrite <- Z.pow_succ_r by lia. f_equal. lia. }
  rewrite Z.mod_small by lia. lia.
Qed.

(** Bit operations as arithmetic: a mask of low bits, and the union of a shifted
    value with one that fits below it. *)
Lemma land_low k z : 0 <= k -> Z.land z (2 ^ k - 1) = z mod 2 ^ k.
Proof. intros. rewrite <- Z.land_ones by done. f_equal. rewrite Z.ones_equiv. lia. Qed.

Lemma land_3 z : Z.land z 3 = z mod 4.
Proof. apply (land_low 2). lia. Qed.
Lemma land_15 z : Z.land z 15 = z mod 16.
Proof. apply (land_low 4). lia. Qed.
Lemma land_63 z : Z.land z 63 = z mod 64.
Proof. apply (land_low 6). lia. Qed.
Lemma land_127 z : Z.land z 127 = z mod 128.
Proof. apply (land_low 7). lia. Qed.

Lemma land_shiftl_low a b k : 0 <= k -> 0 <= b < 2 ^ k -> Z.land (Z.shiftl a k) b = 0.
Proof.
  intros Hk Hb. apply Z.bits_inj'. intros n Hn. rewrite Z.land_spec, Z.bits_0.
  destruct (Z.lt_ge_cases n k); [by rewrite Z.shiftl_spec_low|].
  destruct (Z.eq_dec b 0) as [->|]; [by rewrite Z.bits_0, andb_false_r|].
  rewrite (Z.bits_above_log2 b); [apply andb_false_r|lia|].
  apply Z.lt_le_trans with k; [apply Z.log2_lt_pow2; lia|lia].
Qed.

Lemma lor_shiftl_low a b k : 0 <= k -> 0 <= b < 2 ^ k -> Z.lor (Z.shiftl a k) b = a * 2 ^ k + b.
Proof.
  intros Hk Hb. rewrite <- Z.lxor_lor by (by apply land_shiftl_low).
  rewrite <- Z.add_nocarry_lxor by (by apply land_shiftl_low). by rewrite Z.shiftl_mul_pow2.
Qed.

Close Scope Z_scope.

(** ** Lists *)

(** [char] at an index of a [std::string]: the terminating NUL at [size()],
    undefined past it. *)
Definition char_at {E} (s : bytes) (i : nat) : outcome E ascii :=
  match s !! i with
  | Some c => Ret c
  | None => if decide (i = length s) then Ret NUL else Undef
  end.

Lemma char_at_lt {E} s i c : s !! i = Some c -> char_at (E := E) s i = Ret c.
Proof. unfold char_at. by intros ->. Qed.

Lemma char_at_app {E} (p r : bytes) c : char_at (E := E) (p ++ c :: r) (length p) = Ret c.
Proof. apply char_at_lt. by rewrite list_lookup_middle. Qed.

Lemma char_at_end {E} s : char_at (E := E) s (length s) = Ret NUL.
Proof.
  unfold char_at. rewrite lookup_ge_None_2 by lia. by rewrite decide_True.
Qed.

Lemma drop_lookup {A} (l : list A) i x : l !! i = Some x -> drop i l = x :: drop (S i) l.
Proof. intros. by rewrite (drop_S l x i). Qed.

Lemma drop_cons_lookup {A} (l : list A) i x r : drop i l = x :: r -> l !! i = Some x /\ drop (S i) l = r.
Proof.
  intros H. assert (l !! i = Some x) as Hx.
  { rewrite <- (Nat.add_0_r i), <- lookup_drop, H. done. }
  split; [done|]. rewrite (drop_lookup _ _ _ Hx) in H. by simplify_eq.
Qed.

(** ** Automation of the development *)

Create HintDb launcher.
Create Rewrite HintDb launcher.
#[export] Hint Resolve uchar_range : launcher.
#[export] Hint Rewrite uchar_to_char to_char_uchar : launcher.

(** Splits the conditionals of the goal and closes the impossible cases. *)
Ltac case_all :=
  repeat (case_decide || case_match); simplify_eq; try done; try lia.

(** Decides the arithmetic conditionals of the goal with [lia]. *)
Ltac decide_lia :=
  repeat (first [rewrite decide_True by lia | rewrite decide_False by lia]).

(** Linear arithmetic with division and remainder by constants. *)
Ltac dlia := Z.div_mod_to_equations; lia.
