(* ===== verification/Base64.v ===== *)
(** * base64/src/base64.cpp

    The encoder and the decoder of class [Base64], with its static reverse
    table.  The encoder writes its output by index, as the source does; the
    decoder runs on indices into the input with the bounds of [std::string]. *)

From S2P Require Import Prelude.
From Stdlib Require Import ZArith Ascii Lia.
From stdpp Require Import base list strings numbers pretty.

Open Scope Z_scope.

Module Base64.

(** ** Data *)

Definition table : bytes :=
  lit "ABCDEFGHIJKLMNOPQRSTUVWXYZabcdefghijklmnopqrstuvwxyz0123456789+/".

(** [table[n]]; the array has the literal's terminating NUL at index 64. *)
Definition table_at (n : Z) : ascii := default NUL (table !! Z.to_nat n).

(** The static members of the class. *)
Record Statics := mkStatics {
  reverseTable : list Z;
  reverseTableInitialized : bool
}.

(** Static storage starts zeroed. *)
Definition statics0 : Statics := mkStatics (replicate 256 0) false.

Definition initReverseTable (st : Statics) : Statics :=
  let t := replicate 256 255 in
  let t := fold_left (fun t i => <[Z.to_nat (uchar (table_at i)) := i]> t) (seqZ 0 64) t in
  mkStatics (<[Z.to_nat (uchar "="%char) := 64]> t) true.

(** ** encode *)

(** One iteration of the encoder's loop: block [i] of [input] written into [outp]. *)
Definition encode_step (input : bytes) (outp : bytes) (i : nat) : bytes :=
  let len := length input in
  let i0 := uchar (default NUL (input !! (i * 3)%nat)) in
  let i1 := if decide (i * 3 + 1 < len)%nat then uchar (default NUL (input !! (i * 3 + 1)%nat)) else 0 in
  let i2 := if decide (i * 3 + 2 < len)%nat then uchar (default NUL (input !! (i * 3 + 2)%nat)) else 0 in
  let n0 := Z.land (Z.shiftr i0 2) 63 in
  let n1 := Z.lor (Z.shiftl (Z.land i0 3) 4) (Z.land (Z.shiftr i1 4) 15) in
  let n2 := Z.lor (Z.shiftl (Z.land i1 15) 2) (Z.land (Z.shiftr i2 6) 3) in
  let n3 := Z.land i2 63 in
  let outp := <[(i * 4)%nat := table_at n0]> outp in
  let outp := <[(i * 4 + 1)%nat := table_at n1]> outp in
  let outp := <[(i * 4 + 2)%nat := if decide (i * 3 + 1 < len)%nat then table_at n2 else "="%char]> outp in
  <[(i * 4 + 3)%nat := if decide (i * 3 + 2 < len)%nat then table_at n3 else "="%char]> outp.

Definition encode (input : bytes) : bytes :=
  let block_count := ((length input + 2) / 3)%nat in
  fold_left (encode_step input) (seq 0 block_count) (replicate (block_count * 4) NUL).

(** ** decode *)

Section decode.
(** Whether plain [char] is signed on the platform, the reverse table, the input
    and the characters to skip. *)
Context (char_signed : bool) (rt : list Z) (input skip_chars : bytes).

(** [reverseTable[c]]: a negative index is out of bounds. *)
Definition reverse_at (c : ascii) : outcome exn Z :=
  let ix := if char_signed then schar c else uchar c in
  if decide (0 <= ix) then match rt !! Z.to_nat ix with Some v => Ret v | None => Undef end
  else Undef.

(** [strchr(skip_chars, c) != NULL]: the terminating NUL is found too. *)
Definition strchr_found (c : ascii) : bool := bool_decide (c = NUL \/ c ∈ skip_chars).

(** The inner [while (true)]: the next sextet [i[n]] from position [p], where
    [prev] is [i[n - 1]]; returns it with the position after it. *)
Fixpoint read_sextet (fuel : nat) (n : Z) (prev : Z) (p : nat) : outcome exn (Z * nat) :=
  match fuel with
  | O => Diverge
  | S fuel =>
      c ← char_at input p;
      v ← reverse_at c;
      if decide (v ≠ 255) then
        if decide ((v = 64 /\ n < 2) \/ (n = 3 /\ prev = 64 /\ v ≠ 64))
        then Throw (runtime_error "Invalid '=' character")
        else Ret (v, S p)
      else if strchr_found c then
        if decide (S p = length input) then Throw (runtime_error "Unexpected end of input")
        else read_sextet fuel n prev (S p)
      else Throw (runtime_error ("Invalid character at " +:+ pretty p))
  end.

(** The [for] loop over [n]: the four sextets of a group. *)
Definition read_group (p : nat) : outcome exn (Z * Z * Z * Z * nat) :=
  let fuel := (2 + length input)%nat in
  '(i0, p) ← read_sextet fuel 0 0 p;
  '(i1, p) ← read_sextet fuel 1 i0 p;
  '(i2, p) ← read_sextet fuel 2 i1 p;
  '(i3, p) ← read_sextet fuel 3 i2 p;
  Ret (i0, i1, i2, i3, p).

(** The bytes pushed for a group. *)
Definition emit (i0 i1 i2 i3 : Z) : bytes :=
  [to_char (Z.lor (Z.shiftl i0 2) (Z.land (Z.shiftr i1 4) 3))] ++
  (if decide (i2 ≠ 64)
   then [to_char (Z.lor (Z.shiftl (Z.land i1 15) 4) (Z.land (Z.shiftr i2 2) 15))] else []) ++
  (if decide (i2 ≠ 64 /\ i3 ≠ 64)
   then [to_char (Z.lor (Z.shiftl (Z.land i2 3) 6) i3)] else []).

(** The outer [while (p < input.size())]. *)
Fixpoint decode_loop (fuel : nat) (p : nat) (output : bytes) : outcome exn bytes :=
  if decide (p < length input)%nat then
    match fuel with
    | O => Diverge
    | S fuel =>
        '(i0, i1, i2, i3, p) ← read_group p;
        decode_loop fuel p (output ++ emit i0 i1 i2 i3)
    end
  else Ret output.

End decode.

(** [decode] initialises the reverse table on the first call. *)
Definition decode (char_signed : bool) (st : Statics) (input skip_chars : bytes) :
    Statics * outcome exn bytes :=
  let st := if reverseTableInitialized st then st else initReverseTable st in
  (st, decode_loop char_signed (reverseTable st) input skip_chars (length input) 0 []).

(** The states of the static members that the class can reach. *)
Definition wf (st : Statics) : Prop :=
  reverseTableInitialized st = true -> st = initReverseTable statics0.

(** The default of [skip_chars]. *)
Definition crlf : bytes := [ascii_of_nat 13; ascii_of_nat 10].

(** ** Reference encoder

    RFC 4648 on lists: three bytes to four characters, with padding. *)
Definition group (s : bytes) : bytes :=
  match s with
  | [] => []
  | [a] => [table_at (uchar a / 4); table_at (uchar a mod 4 * 16); "="; "="]%char
  | [a; b] =>
      [table_at (uchar a / 4); table_at (uchar a mod 4 * 16 + uchar b / 16);
       table_at (uchar b mod 16 * 4); "="%char]
  | a :: b :: c :: _ =>
      [table_at (uchar a / 4); table_at (uchar a mod 4 * 16 + uchar b / 16);
       table_at (uchar b mod 16 * 4 + uchar c / 64); table_at (uchar c mod 64)]
  end.

Fixpoint rfc4648 (s : bytes) : bytes :=
  match s with
  | a :: b :: c :: r => group s ++ rfc4648 r
  | _ => group s
  end.

(** ** Lemmas on the encoder *)

Lemma rfc4648_unfold s : s ≠ [] -> rfc4648 s = group s ++ rfc4648 (drop 3 s).
Proof. by destruct s as [|a [|b [|c r]]]. Qed.

(** Induction on lists three elements at a time. *)
Lemma list_ind3 (P : bytes -> Prop) :
  P [] -> (forall s, s ≠ [] -> P (drop 3 s) -> P s) -> forall s, P s.
Proof.
  intros H0 H3 s. induction s as [s IH] using (induction_ltof1 _ length). unfold ltof in IH.
  destruct s as [|a s]; [done|]. apply H3; [done|]. apply IH. rewrite length_drop. simpl. lia.
Qed.

(** Bit operations on sextets as arithmetic. *)
Ltac bits :=
  rewrite ?land_3, ?land_15, ?land_63, ?Z.shiftr_div_pow2 by lia;
  rewrite ?lor_shiftl_low by dlia;
  change (2 ^ 2) with 4 in *; change (2 ^ 4) with 16 in *; change (2 ^ 6) with 64 in *.

Lemma encode_step_spec input pre post i z0 z1 z2 z3 :
  length pre = (i * 4)%nat -> (i * 3 < length input)%nat ->
  encode_step input (pre ++ z0 :: z1 :: z2 :: z3 :: post) i
  = pre ++ group (drop (i * 3) input) ++ post.
Proof.
  intros Hpre Hi. unfold encode_step. cbv zeta.
  replace (i * 4)%nat with (length pre + 0)%nat by lia. rewrite <- !(Nat.add_assoc (length pre) 0).
  rewrite !insert_app_r. f_equal. simpl.
  replace (input !! (i * 3)%nat) with (drop (i * 3) input !! 0%nat) by (rewrite lookup_drop; f_equal; lia).
  rewrite <- !lookup_drop.
  assert (Hl : length (drop (i * 3) input) = (length input - i * 3)%nat) by apply length_drop.
  destruct (drop (i * 3) input) as [|a [|b [|c r]]]; simpl in *; [lia|..];
    decide_lia; simpl.
  all: pose proof (uchar_range a); try pose proof (uchar_range b); try pose proof (uchar_range c).
  all: repeat f_equal; bits; dlia.
Qed.

Lemma length_group s : s ≠ [] -> length (group s) = 4%nat.
Proof. by destruct s as [|a [|b [|c r]]]. Qed.

Lemma encode_loop_spec input n : forall k pre post,
  length pre = (k * 4)%nat -> length post = (n * 4)%nat ->
  (n = 0 \/ (k + n - 1) * 3 < length input)%nat -> (length input <= (k + n) * 3)%nat ->
  fold_left (encode_step input) (seq k n) (pre ++ post) = pre ++ rfc4648 (drop (k * 3) input).
Proof.
  induction n as [|n IH]; intros k pre post Hpre Hpost Hk Hlen.
  { rewrite drop_ge by lia. destruct post; [done|simpl in Hpost; lia]. }
  destruct post as [|z0 [|z1 [|z2 [|z3 post]]]]; try (simpl in Hpost; lia).
  assert (drop (k * 3) input ≠ []) as Hne.
  { intros E%(f_equal length). rewrite length_drop in E. simpl in E. lia. }
  cbn [seq fold_left]. rewrite encode_step_spec by lia. rewrite app_assoc.
  rewrite IH; [|rewrite length_app, length_group by done; lia|simpl in Hpost; lia|lia|lia].
  rewrite (rfc4648_unfold (drop (k * 3) input)) by done. rewrite drop_drop, <- app_assoc.
  do 4 f_equal. lia.
Qed.

Lemma encode_rfc input : encode input = rfc4648 input.
Proof.
  unfold encode. pose proof (Nat.div_mod_eq (length input + 2) 3).
  pose proof (Nat.mod_upper_bound (length input + 2) 3 ltac:(lia)).
  set (n := ((length input + 2) / 3)%nat) in *. clearbody n.
  apply (encode_loop_spec input n 0 []); rewrite ?length_replicate; try done; lia.
Qed.

(** ** Lemmas on the decoder *)

Definition reverse_table : list Z := reverseTable (initReverseTable statics0).

Lemma reverse_at_table sg n : 0 <= n < 64 -> reverse_at sg reverse_table (table_at n) = Ret n.
Proof.
  intros Hn. assert (Forall (fun n => reverse_at sg reverse_table (table_at n) = Ret n) (seqZ 0 64)) as H.
  { destruct sg; apply (bool_decide_unpack _); vm_compute; exact I. }
  rewrite Forall_forall in H. apply H. apply elem_of_seqZ. lia.
Qed.

Lemma reverse_at_pad sg : reverse_at sg reverse_table "="%char = Ret 64.
Proof. by destruct sg; vm_compute. Qed.

Section decode_lemmas.
Context (sg : bool) (input skip : bytes).

Lemma read_sextet_char fuel n prev p c v :
  input !! p = Some c -> reverse_at sg reverse_table c = Ret v -> v ≠ 255 ->
  ~ ((v = 64 /\ n < 2) \/ (n = 3 /\ prev = 64 /\ v ≠ 64)) ->
  read_sextet sg reverse_table input skip (S fuel) n prev p = Ret (v, S p).
Proof.
  intros Hc Hv H1 H2. simpl. rewrite (char_at_lt _ _ _ Hc). simpl. rewrite Hv. simpl.
  by rewrite decide_True, decide_False by done.
Qed.

Lemma read_group_chars p c0 c1 c2 c3 r v0 v1 v2 v3 :
  drop p input = c0 :: c1 :: c2 :: c3 :: r ->
  reverse_at sg reverse_table c0 = Ret v0 -> 0 <= v0 < 64 ->
  reverse_at sg reverse_table c1 = Ret v1 -> 0 <= v1 < 64 ->
  reverse_at sg reverse_table c2 = Ret v2 -> 0 <= v2 <= 64 ->
  reverse_at sg reverse_table c3 = Ret v3 -> 0 <= v3 <= 64 -> (v2 = 64 -> v3 = 64) ->
  read_group sg reverse_table input skip p = Ret (v0, v1, v2, v3, (p + 4)%nat)
  /\ drop (p + 4) input = r /\ (p + 4 <= length input)%nat.
Proof.
  intros E R0 H0 R1 H1 R2 H2 R3 H3 H23. split.
  - apply drop_cons_lookup in E as [L0 E]. apply drop_cons_lookup in E as [L1 E].
    apply drop_cons_lookup in E as [L2 E]. apply drop_cons_lookup in E as [L3 E].
    unfold read_group. cbv zeta. change (2 + length input)%nat with (S (S (length input))).
    rewrite (read_sextet_char _ _ _ _ _ _ L0 R0) by lia. cbn -[read_sextet].
    rewrite (read_sextet_char _ _ _ _ _ _ L1 R1) by lia. cbn -[read_sextet].
    rewrite (read_sextet_char _ _ _ _ _ _ L2 R2) by lia. cbn -[read_sextet].
    rewrite (read_sextet_char _ _ _ _ _ _ L3 R3) by lia. cbn -[read_sextet].
    do 2 f_equal. lia.
  - pose proof (f_equal length E) as L. rewrite length_drop in L. simpl in L.
    split; [|lia]. by rewrite <- drop_drop, E.
Qed.

Lemma table_sextet n : 0 <= n < 64 -> reverse_at sg reverse_table (table_at n) = Ret n.
Proof. apply reverse_at_table. Qed.

(** A group of the reference encoding decodes to the bytes it came from. *)
Lemma read_group_group p s r :
  s ≠ [] -> drop p input = group s ++ r ->
  exists v0 v1 v2 v3,
    read_group sg reverse_table input skip p = Ret (v0, v1, v2, v3, (p + 4)%nat)
    /\ drop (p + 4) input = r /\ (p + 4 <= length input)%nat /\ emit v0 v1 v2 v3 = take 3 s.
Proof.
  intros Hs E. destruct s as [|a [|b [|c s]]]; [done|..]; cbn [group app] in E.
  all: pose proof (uchar_range a); try pose proof (uchar_range b); try pose proof (uchar_range c).
  1: destruct (read_group_chars _ _ _ _ _ _ _ _ _ _ E (table_sextet (uchar a / 4) ltac:(dlia)) ltac:(dlia)
         (table_sextet (uchar a mod 4 * 16) ltac:(dlia)) ltac:(dlia)
         (reverse_at_pad sg) ltac:(lia) (reverse_at_pad sg) ltac:(lia) ltac:(lia)) as (R & D & L).
  2: destruct (read_group_chars _ _ _ _ _ _ _ _ _ _ E (table_sextet (uchar a / 4) ltac:(dlia)) ltac:(dlia)
         (table_sextet (uchar a mod 4 * 16 + uchar b / 16) ltac:(dlia)) ltac:(dlia)
         (table_sextet (uchar b mod 16 * 4) ltac:(dlia)) ltac:(dlia)
         (reverse_at_pad sg) ltac:(lia) ltac:(dlia)) as (R & D & L).
  3: destruct (read_group_chars _ _ _ _ _ _ _ _ _ _ E (table_sextet (uchar a / 4) ltac:(dlia)) ltac:(dlia)
         (table_sextet (uchar a mod 4 * 16 + uchar b / 16) ltac:(dlia)) ltac:(dlia)
         (table_sextet (uchar b mod 16 * 4 + uchar c / 64) ltac:(dlia)) ltac:(dlia)
         (table_sextet (uchar c mod 64) ltac:(dlia)) ltac:(dlia) ltac:(dlia)) as (R & D & L).
  all: do 4 eexists; split_and!; [exact R|done|done|].
  all: unfold emit; bits; cbn [take app].
  all: repeat (first [rewrite decide_True by dlia | rewrite decide_False by dlia]); cbn [app].
  all: repeat f_equal; apply uchar_inj; rewrite uchar_to_char; dlia.
Qed.

Lemma decode_loop_done fuel p out :
  (length input <= p)%nat -> decode_loop sg reverse_table input skip fuel p out = Ret out.
Proof. intros. destruct fuel; simpl; by rewrite decide_False by lia. Qed.

Lemma decode_loop_step fuel p out v0 v1 v2 v3 q :
  read_group sg reverse_table input skip p = Ret (v0, v1, v2, v3, q) -> (p < length input)%nat ->
  decode_loop sg reverse_table input skip (S fuel) p out
  = decode_loop sg reverse_table input skip fuel q (out ++ emit v0 v1 v2 v3).
Proof. intros G Hp. cbn [decode_loop]. rewrite decide_True by done. by rewrite G. Qed.

Lemma decode_loop_rfc s : forall fuel p out,
  drop p input = rfc4648 s -> (length s <= fuel)%nat -> (p <= length input)%nat ->
  decode_loop sg reverse_table input skip fuel p out = Ret (out ++ s).
Proof.
  induction s as [|s Hs IH] using list_ind3; intros fuel p out E Hf Hp.
  - apply (f_equal length) in E. rewrite length_drop in E. simpl in E.
    rewrite decode_loop_done by lia. by rewrite app_nil_r.
  - rewrite rfc4648_unfold in E by done.
    destruct (read_group_group p s _ Hs E) as (v0 & v1 & v2 & v3 & R & D & L & M).
    destruct fuel as [|fuel]; [destruct s; [done|simpl in Hf; lia]|].
    rewrite (decode_loop_step _ _ _ _ _ _ _ _ R) by lia.
    rewrite IH; [|done|rewrite length_drop; destruct s; [done|simpl in *; lia]|done].
    by rewrite M, <- app_assoc, take_drop.
Qed.

(** A character of the alphabet stands for a sextet. *)
Lemma alphabet_sextet c : c ∈ table -> exists v, reverse_at sg reverse_table c = Ret v /\ 0 <= v < 64.
Proof.
  intros (i & Hi)%list_elem_of_lookup. exists (Z.of_nat i).
  assert (i < 64)%nat by (apply lookup_lt_Some in Hi; done).
  split; [|lia]. rewrite <- (table_sextet (Z.of_nat i)) by lia.
  unfold table_at. by rewrite Nat2Z.id, Hi.
Qed.

(** Reading a sextet at the end of the input runs past it. *)
Lemma read_sextet_end fuel n prev :
  read_sextet sg reverse_table input skip (S (S fuel)) n prev (length input) = Undef.
Proof.
  cbn [read_sextet]. rewrite char_at_end. cbn [mbind outcome_bind].
  replace (reverse_at sg reverse_table NUL) with (@Ret exn Z 255) by (by destruct sg).
  cbn [mbind outcome_bind].
  unfold strchr_found. rewrite bool_decide_true by (by left). decide_lia.
  unfold char_at. rewrite lookup_ge_None_2 by lia. by decide_lia.
Qed.

Lemma read_sextet_alphabet fuel n prev p c r :
  Forall (.∈ table) (drop p input) -> drop p input = c :: r -> (n = 3 -> prev < 64) ->
  exists v, read_sextet sg reverse_table input skip (S fuel) n prev p = Ret (v, S p)
    /\ 0 <= v < 64 /\ drop (S p) input = r.
Proof.
  intros HA E Hn. rewrite E in HA. apply Forall_cons in HA as [Hc HA].
  destruct (alphabet_sextet c Hc) as (v & Hv & Hr). apply drop_cons_lookup in E as [L E].
  exists v. split_and!; [|lia|lia|done]. apply read_sextet_char with c; [done..|lia|lia].
Qed.

Lemma read_group_short p :
  Forall (.∈ table) (drop p input) -> (p < length input < p + 4)%nat ->
  read_group sg reverse_table input skip p = Undef.
Proof.
  intros HA Hp. unfold read_group. cbv zeta. change (2 + length input)%nat with (S (S (length input))).
  assert (length (drop p input) = (length input - p)%nat) as L by apply length_drop.
  destruct (drop p input) as [|c0 r0] eqn:E0; [simpl in L; lia|].
  destruct (read_sextet_alphabet (S (length input)) 0 0 p c0 r0) as (v0 & R0 & H0 & E1); [by rewrite E0|done|lia|].
  rewrite R0. cbn [mbind outcome_bind]. apply Forall_cons in HA as [_ HA]. simpl in L.
  destruct r0 as [|c1 r1].
  { replace (S p) with (length input) by (simpl in L; lia). by rewrite read_sextet_end. }
  destruct (read_sextet_alphabet (S (length input)) 1 v0 (S p) c1 r1) as (v1 & R1 & H1 & E2); [by rewrite E1|done|lia|].
  rewrite R1. cbn [mbind outcome_bind]. apply Forall_cons in HA as [_ HA]. simpl in L.
  destruct r1 as [|c2 r2].
  { replace (S (S p)) with (length input) by (simpl in L; lia). by rewrite read_sextet_end. }
  destruct (read_sextet_alphabet (S (length input)) 2 v1 (S (S p)) c2 r2) as (v2 & R2 & H2 & E3); [by rewrite E2|done|lia|].
  rewrite R2. cbn [mbind outcome_bind]. simpl in L.
  replace (S (S (S p))) with (length input) by (destruct r2; simpl in L; lia). by rewrite read_sextet_end.
Qed.

Lemma decode_loop_alphabet fuel : forall p out,
  Forall (.∈ table) (drop p input) -> (length input - p <= fuel)%nat -> (p <= length input)%nat ->
  if decide ((length input - p) mod 4 = 0)%nat
  then exists out', decode_loop sg reverse_table input skip fuel p out = Ret (out ++ out')
         /\ length out' = ((length input - p) / 4 * 3)%nat
  else decode_loop sg reverse_table input skip fuel p out = Undef.
Proof.
  induction fuel as [|fuel IH]; intros p out HA Hf Hp.
  { rewrite decode_loop_done by lia. replace (length input - p)%nat with 0%nat by lia.
    exists []. by rewrite app_nil_r. }
  assert (length (drop p input) = (length input - p)%nat) as L by apply length_drop.
  destruct (decide (length input - p < 4)%nat) as [Hs|Hl].
  - destruct (decide (p < length input)%nat).
    + rewrite decide_False by (rewrite Nat.mod_small; lia).
      cbn [decode_loop]. rewrite decide_True by lia. by rewrite read_group_short by (done || lia).
    + rewrite decode_loop_done by lia. replace (length input - p)%nat with 0%nat by lia.
      exists []. by rewrite app_nil_r.
  - destruct (drop p input) as [|c0 [|c1 [|c2 [|c3 r]]]] eqn:E; try (simpl in L; lia).
    rewrite !Forall_cons in HA. destruct HA as (A0 & A1 & A2 & A3 & HA).
    destruct (alphabet_sextet c0 A0) as (v0 & R0 & H0), (alphabet_sextet c1 A1) as (v1 & R1 & H1),
      (alphabet_sextet c2 A2) as (v2 & R2 & H2), (alphabet_sextet c3 A3) as (v3 & R3 & H3).
    destruct (read_group_chars p c0 c1 c2 c3 r v0 v1 v2 v3) as (G & D & Le); [done || lia..|].
    rewrite (decode_loop_step _ _ _ _ _ _ _ _ G) by lia.
    specialize (IH (p + 4)%nat (out ++ emit v0 v1 v2 v3)). rewrite D in IH. specialize (IH HA ltac:(lia) Le).
    replace (length input - p)%nat with ((length input - (p + 4)) + 1 * 4)%nat by lia.
    rewrite Nat.Div0.mod_add, Nat.div_add by lia. case_decide; [|done].
    destruct IH as (out' & -> & L'). exists (emit v0 v1 v2 v3 ++ out'). rewrite app_assoc. split; [done|].
    unfold emit. decide_lia. rewrite length_app, L'. simpl. lia.
Qed.
End decode_lemmas.

Lemma rfc4648_length s : length (rfc4648 s) = (4 * ((length s + 2) / 3))%nat.
Proof.
  induction s as [|s Hs IH] using list_ind3; [done|].
  rewrite rfc4648_unfold, length_app, length_group, IH, length_drop by done.
  destruct (decide (3 <= length s)%nat).
  - replace (length s + 2)%nat with ((length s - 3 + 2) + 1 * 3)%nat by lia. rewrite Nat.div_add by lia. lia.
  - destruct s as [|a [|b [|c r]]]; simpl in *; done || lia.
Qed.

(** ** Properties *)

(** [encode] is the RFC 4648 encoding: its index arithmetic and masks write, for
    every input, the characters of the reference encoder, and nothing past the end
    of the buffer it sized beforehand. *)
Theorem encode_is_rfc4648 (input : bytes) :
  encode input = rfc4648 input /\ length (encode input) = (4 * ((length input + 2) / 3))%nat.
Proof. rewrite encode_rfc. split; [done|]. apply rfc4648_length. Qed.

(** Round trip: in every reachable state of the static table, on platforms with
    signed and with unsigned [char], and whatever characters are skipped, decoding an
    encoded string returns the string, without undefined behaviour. *)
Theorem decode_encode (sg : bool) (st : Statics) (input skip : bytes) (Hst : wf st) :
  decode sg st (encode input) skip = (initReverseTable statics0, Ret input).
Proof.
  unfold decode. replace (if reverseTableInitialized st then st else initReverseTable st)
    with (initReverseTable statics0).
  - f_equal. rewrite encode_rfc. apply (decode_loop_rfc sg _ skip input _ 0 []); [done| |lia].
    rewrite rfc4648_length. pose proof (Nat.div_mod_eq (length input + 2) 3).
    pose proof (Nat.mod_upper_bound (length input + 2) 3 ltac:(lia)). lia.
  - unfold wf in Hst. destruct (reverseTableInitialized st); [by rewrite Hst|done].
Qed.

Lemma decode_encode_witness :
  wf statics0 /\ decode true statics0 (encode (lit "hello")) crlf = (initReverseTable statics0, Ret (lit "hello")).
Proof.
  assert (wf statics0) as H by (intros E; discriminate E).
  split; [exact H|]. exact (decode_encode true statics0 (lit "hello") crlf H).
Defined.

(** Decoding a string over the 64-character alphabet: when its length is a
    multiple of four the decoder returns three bytes for every four characters;
    when it is not (an encoding without its padding), the decoder takes the
    terminating NUL for a skipped character and reads past the end of the string. *)
Theorem decode_unpadded (sg : bool) (input skip : bytes) (Ha : Forall (.∈ table) input) :
  if decide (length input mod 4 = 0)%nat
  then exists out, snd (decode sg statics0 input skip) = Ret out /\ length out = (length input / 4 * 3)%nat
  else snd (decode sg statics0 input skip) = Undef.
Proof.
  pose proof (decode_loop_alphabet sg input skip (length input) 0 []) as H.
  rewrite drop_0, Nat.sub_0_r in H. specialize (H Ha ltac:(lia) ltac:(lia)).
  case_decide; [|exact H]. destruct H as (out & H & L). by exists out.
Qed.

Lemma decode_unpadded_witness :
  Forall (.∈ table) (lit "QQ") /\ snd (decode true statics0 (lit "QQ") crlf) = Undef.
Proof.
  assert (Forall (.∈ table) (lit "QQ")) as H by (apply (bool_decide_unpack _); vm_compute; exact I).
  split; [exact H|]. exact (decode_unpadded true (lit "QQ") crlf H).
Defined.

End Base64.
