(* ===== verification/Varint.v ===== *)
(** * simple-ipc/src/common/encoding/varint.cpp

    The variable-length length prefix of the binary message encoding: seven bits
    of an [unsigned long long] per byte, least significant first, the top bit set
    on every byte but the last.  The decoder's shift is of type [int], as the
    source writes it. *)

From S2P Require Import Prelude.
From Stdlib Require Import ZArith Ascii Lia.
From stdpp Require Import base list strings numbers.

Open Scope Z_scope.

Module Varint.

(** ** Operations *)

(** The [do ... while (i > 0)] of [encode_unsigned] into a buffer with [cap] bytes
    left; a write past the buffer is undefined. *)
Fixpoint encode_loop (cap : nat) (i : Z) : outcome exn bytes :=
  match cap with
  | O => Undef
  | S cap =>
      let b := to_char (Z.lor (wrapu 8 i) (Z.shiftl 1 7)) in
      let i := Z.shiftr i 7 in
      if decide (i > 0) then out ← encode_loop cap i; Ret (b :: out) else Ret [b]
  end.

(** [out[outs - 1] &= 0b01111111]. *)
Definition clear_top (c : ascii) : ascii := to_char (Z.land (uchar c) 127).

(** [encode_unsigned(i, out, outs)] with [char out[10]]: the [outs] bytes written. *)
Definition encode_unsigned (i : Z) : outcome exn bytes :=
  out ← encode_loop 10 i;
  Ret (alter clear_top (length out - 1)%nat out).

(** [a << k] for a non-negative [int] [a]: undefined when the shift count reaches
    the width or the value does not fit the unsigned type, and converted to [int]
    otherwise. *)
Definition shl_int (a k : Z) : outcome exn Z :=
  if decide (k < 32 /\ a * 2 ^ k < 2 ^ 32) then Ret (wraps 32 (a * 2 ^ k)) else Undef.

(** The [for] loop of [try_decode_unsigned], with [n] iterations left at offset [o]. *)
Fixpoint try_decode_loop (inp : bytes) (n o : nat) (tmp : Z) : outcome exn (option (Z * nat)) :=
  match n with
  | O => Ret None
  | S n =>
      match inp !! o with
      | None => Undef
      | Some c =>
          let b := uchar c in
          sh ← shl_int (Z.land b 127) (Z.of_nat o * 7);
          let tmp := Z.lor tmp (wrapu 64 sh) in
          if decide (Z.shiftr b 7 = 0) then Ret (Some (tmp, S o)) else try_decode_loop inp n (S o) tmp
      end
  end.

(** [try_decode_unsigned(in, ins, res, len)]: the value and its length when it returns
    [true], [None] when it returns [false]. *)
Definition try_decode_unsigned (inp : bytes) (ins : nat) : outcome exn (option (Z * nat)) :=
  let ins := if decide (9 < ins)%nat then 9%nat else ins in
  try_decode_loop inp ins 0 0.

Definition decode_unsigned (inp : bytes) (ins : nat) : outcome exn (Z * nat) :=
  r ← try_decode_unsigned inp ins;
  match r with
  | Some vl => Ret vl
  | None => Throw (runtime_error "Invalid varint")
  end.

(** ** Reference encoding *)

Fixpoint leb128 (fuel : nat) (i : Z) : bytes :=
  match fuel with
  | O => []
  | S fuel => if decide (i < 128) then [to_char i] else to_char (i mod 128 + 128) :: leb128 fuel (i / 128)
  end.

(** ** Lemmas *)

Lemma encode_byte i : to_char (Z.lor (wrapu 8 i) (Z.shiftl 1 7)) = to_char (i mod 128 + 128).
Proof.
  apply uchar_inj. rewrite !uchar_to_char. unfold wrapu.
  rewrite Z.lor_comm. 
  destruct (decide (i mod 2 ^ 8 < 2 ^ 7)) as [H|H]; change (2 ^ 8) with 256 in *; change (2 ^ 7) with 128 in *.
  - rewrite lor_shiftl_low by dlia. dlia.
  - replace (i mod 256) with (Z.lor (Z.shiftl 1 7) (i mod 128)).
    + rewrite Z.lor_assoc, Z.lor_diag, lor_shiftl_low by dlia. dlia.
    + rewrite lor_shiftl_low by dlia. dlia.
Qed.

Lemma leb128_S fuel i :
  leb128 (S fuel) i = if decide (i < 128) then [to_char i] else to_char (i mod 128 + 128) :: leb128 fuel (i / 128).
Proof. done. Qed.

Lemma leb128_nonempty fuel i : fuel ≠ 0%nat -> leb128 fuel i ≠ [].
Proof. destruct fuel; simpl; [done|]. intros _. by case_decide. Qed.

Lemma encode_loop_leb128 cap : forall i, (cap ≠ 0)%nat -> 0 <= i < 128 ^ Z.of_nat cap ->
  exists out, encode_loop cap i = Ret out /\ alter clear_top (length out - 1)%nat out = leb128 cap i.
Proof.
  induction cap as [|cap IH]; intros i Hc Hi; [done|]. cbn [encode_loop leb128].
  rewrite encode_byte, Z.shiftr_div_pow2 by lia. change (2 ^ 7) with 128.
  rewrite Nat2Z.inj_succ, Z.pow_succ_r in Hi by lia.
  destruct (decide (i < 128)) as [H|H].
  - rewrite decide_False by dlia. eexists. split; [done|]. simpl. f_equal. unfold clear_top.
    apply uchar_inj. rewrite land_127, !uchar_to_char. dlia.
  - rewrite decide_True by dlia.
    destruct cap as [|cap]; [simpl in Hi; change (128 ^ 0) with 1 in Hi; lia|].
    destruct (IH (i / 128)) as (out & E & A); [done|dlia|].
    rewrite E. eexists. split; [done|].
    assert (out ≠ []) as Hne.
    { intros ->. simpl in A. by apply (leb128_nonempty (S cap) (i / 128)). }
    destruct out as [|c out]; [done|]. rewrite <- A. simpl. by rewrite !Nat.sub_0_r.
Qed.

Lemma encode_unsigned_leb128 i : 0 <= i < 2 ^ 64 -> encode_unsigned i = Ret (leb128 10 i).
Proof.
  intros Hi. destruct (encode_loop_leb128 10 i) as (out & E & A); [done|simpl; lia|].
  unfold encode_unsigned. rewrite E. cbn [mbind outcome_bind]. by rewrite <- A.
Qed.

(** One byte of the decoder, for a value [v] of seven bits that fits an [int] at its place. *)
Lemma shl_int_fits v o : 0 <= v -> v * 2 ^ (Z.of_nat o * 7) < 2 ^ 31 -> (o <= 4)%nat ->
  shl_int v (Z.of_nat o * 7) = Ret (v * 2 ^ (Z.of_nat o * 7)).
Proof.
  intros Hv Hf Ho. unfold shl_int. rewrite decide_True by lia. f_equal.
  apply wraps_small; [lia|]. change (32 - 1) with 31. pose proof (Z.pow_nonneg 2 (Z.of_nat o * 7)). nia.
Qed.

Lemma lor_place tmp v k : 0 <= k -> 0 <= tmp < 2 ^ k -> Z.lor tmp (v * 2 ^ k) = tmp + v * 2 ^ k.
Proof. intros. rewrite Z.lor_comm, <- Z.shiftl_mul_pow2 by done. rewrite lor_shiftl_low, Z.shiftl_mul_pow2 by done. lia. Qed.

Lemma decode_byte inp n o tmp c b v :
  inp !! o = Some c -> uchar c = b -> v = b mod 128 -> (o <= 4)%nat ->
  v * 2 ^ (Z.of_nat o * 7) < 2 ^ 31 -> 0 <= tmp < 2 ^ (Z.of_nat o * 7) ->
  try_decode_loop inp (S n) o tmp
  = if decide (b < 128) then Ret (Some (tmp + v * 2 ^ (Z.of_nat o * 7), S o))
    else try_decode_loop inp n (S o) (tmp + v * 2 ^ (Z.of_nat o * 7)).
Proof.
  intros Hc Hb Hv Ho Hf Ht. pose proof (uchar_range c). cbn [try_decode_loop].
  rewrite Hc. cbv zeta. rewrite Hb, land_127, <- Hv.
  rewrite shl_int_fits by dlia. cbn [mbind outcome_bind].
  pose proof (Z.pow_nonneg 2 (Z.of_nat o * 7) ltac:(lia)).
  assert (0 <= v) by dlia. rewrite wrapu_small by (split; [nia|]; eapply Z.lt_trans; done).
  rewrite lor_place by lia. rewrite Z.shiftr_div_pow2 by lia. change (2 ^ 7) with 128.
  destruct (decide (b < 128)); [rewrite decide_True by dlia|rewrite decide_False by dlia]; done.
Qed.

Lemma place_succ o : 2 ^ (Z.of_nat (S o) * 7) = 128 * 2 ^ (Z.of_nat o * 7).
Proof. replace (Z.of_nat (S o) * 7) with (7 + Z.of_nat o * 7) by lia. rewrite Z.pow_add_r by lia. done. Qed.

Lemma decode_leb128 fuel : forall i inp n o tmp rest,
  drop o inp = leb128 fuel i ++ rest -> (fuel ≠ 0)%nat -> 0 <= i < 128 ^ Z.of_nat fuel ->
  (o <= 4)%nat -> i * 2 ^ (Z.of_nat o * 7) < 2 ^ 31 -> 0 <= tmp < 2 ^ (Z.of_nat o * 7) ->
  (length (leb128 fuel i) <= n)%nat ->
  try_decode_loop inp n o tmp
  = Ret (Some (tmp + i * 2 ^ (Z.of_nat o * 7), (o + length (leb128 fuel i))%nat)).
Proof.
  induction fuel as [|fuel IH]; intros i inp n o tmp rest E Hfu Hi Ho Hf Ht Hn; [done|].
  cbn [leb128] in *. rewrite Nat2Z.inj_succ, Z.pow_succ_r in Hi by lia.
  pose proof (Z.pow_pos_nonneg 2 (Z.of_nat o * 7) ltac:(lia) ltac:(lia)) as Hpos.
  destruct (decide (i < 128)) as [H|H]; cbn [app length] in *;
    (destruct n as [|n]; [lia|]); apply drop_cons_lookup in E as [L E].
  - rewrite (decode_byte _ _ _ _ _ i i L); [|by rewrite uchar_to_char_small by lia|dlia|done|done|done].
    rewrite decide_True by done. do 3 f_equal. lia.
  - rewrite (decode_byte _ _ _ _ _ (i mod 128 + 128) (i mod 128) L);
      [|by rewrite uchar_to_char_small by dlia|dlia|done|dlia|done].
    rewrite decide_False by dlia.
    assert (o < 4)%nat as Ho4.
    { destruct (decide (o = 4)%nat) as [->|]; [|lia]. change (2 ^ (Z.of_nat 4 * 7)) with (2 ^ 28) in Hf. lia. }
    destruct fuel as [|fuel]; [simpl in Hi; change (128 ^ 0) with 1 in Hi; lia|].
    pose proof (Z.div_mod i 128 ltac:(lia)) as Hdm. pose proof (Z.mod_pos_bound i 128 ltac:(lia)) as Hr.
    set (q := i / 128) in *. set (r := i mod 128) in *. clearbody q r. subst i.
    rewrite (IH q inp n (S o) _ rest E); [|done|lia|lia|rewrite place_succ; nia|rewrite place_succ; nia|lia].
    rewrite place_succ. do 3 f_equal; [nia|lia].
Qed.

Lemma leb128_length fuel : forall i k, 0 <= i < 128 ^ Z.of_nat k -> (length (leb128 fuel i) <= Nat.max 1 k)%nat.
Proof.
  induction fuel as [|fuel IH]; intros i k Hi; cbn [leb128]; [simpl; lia|].
  case_decide; [simpl; lia|]. destruct k as [|k]; [change (128 ^ Z.of_nat 0) with 1 in Hi; lia|].
  rewrite Nat2Z.inj_succ, Z.pow_succ_r in Hi by lia. cbn [length].
  destruct k as [|k]; [change (128 ^ Z.of_nat 0) with 1 in Hi; lia|].
  specialize (IH (i / 128) (S k) ltac:(dlia)). lia.
Qed.

(** A complete varint stays the same when bytes are added after it. *)
Lemma try_decode_loop_app inp more n k : forall o tmp r,
  try_decode_loop inp n o tmp = Ret (Some r) -> try_decode_loop (inp ++ more) (n + k) o tmp = Ret (Some r).
Proof.
  induction n as [|n IH]; intros o tmp r H; [done|]. cbn [try_decode_loop Nat.add] in *.
  destruct (inp !! o) as [c|] eqn:Hc; [|done]. rewrite (lookup_app_l_Some _ _ _ _ Hc).
  destruct (shl_int _ _) as [sh| | |]; [|done..]. cbn [mbind outcome_bind] in *.
  case_decide; [done|]. by apply IH.
Qed.

Lemma try_decode_unsigned_app inp more r :
  try_decode_unsigned inp (length inp) = Ret (Some r) ->
  try_decode_unsigned (inp ++ more) (length (inp ++ more)) = Ret (Some r).
Proof.
  unfold try_decode_unsigned. rewrite length_app. intros H.
  case_decide as H1; (case_decide as H2; [|try lia]).
  - by apply (try_decode_loop_app _ _ 9 0).
  - replace 9%nat with (length inp + (9 - length inp))%nat by lia. by apply try_decode_loop_app.
  - by apply try_decode_loop_app.
Qed.

(** The length reported for a varint is within the input. *)
Lemma try_decode_loop_len inp n : forall o tmp v l,
  try_decode_loop inp n o tmp = Ret (Some (v, l)) -> (o < l <= length inp)%nat.
Proof.
  induction n as [|n IH]; intros o tmp v l H; [done|]. cbn [try_decode_loop] in H.
  destruct (inp !! o) as [c|] eqn:Hc; [|done]. apply lookup_lt_Some in Hc.
  destruct (shl_int _ _) as [sh| | |]; [|done..]. cbn [mbind outcome_bind] in H.
  case_decide; [simplify_eq; lia|]. apply IH in H. lia.
Qed.

(** Decoding a prefix of a buffer either asks for more or decodes the same. *)
Lemma try_decode_loop_prefix inp more n k : forall o tmp, (o + n <= length inp)%nat ->
  try_decode_loop inp n o tmp = Ret None
  \/ try_decode_loop inp n o tmp = try_decode_loop (inp ++ more) (n + k) o tmp.
Proof.
  induction n as [|n IH]; intros o tmp Ho; [by left|]. cbn [try_decode_loop Nat.add].
  destruct (lookup_lt_is_Some_2 inp o ltac:(lia)) as [c Hc]. rewrite (lookup_app_l_Some _ _ _ _ Hc), Hc.
  destruct (shl_int _ _) as [sh| | |]; [|by right..]. cbn [mbind outcome_bind].
  case_decide; [by right|]. apply IH. lia.
Qed.

Lemma try_decode_unsigned_prefix inp more :
  try_decode_unsigned inp (length inp) = Ret None
  \/ try_decode_unsigned inp (length inp) = try_decode_unsigned (inp ++ more) (length (inp ++ more)).
Proof.
  unfold try_decode_unsigned. rewrite length_app.
  case_decide as H1; (case_decide as H2; [|try lia]).
  - apply (try_decode_loop_prefix _ _ 9 0). lia.
  - replace 9%nat with (length inp + (9 - length inp))%nat by lia. apply try_decode_loop_prefix. lia.
  - apply try_decode_loop_prefix. lia.
Qed.

(** A buffer that ends inside a varint of a value below 2^31 asks for more bytes. *)
Lemma decode_leb128_prefix fuel : forall i inp k o tmp,
  drop o inp = take k (leb128 fuel i) -> (k < length (leb128 fuel i))%nat -> 0 <= i ->
  (o <= 4)%nat -> i * 2 ^ (Z.of_nat o * 7) < 2 ^ 31 -> 0 <= tmp < 2 ^ (Z.of_nat o * 7) ->
  try_decode_loop inp k o tmp = Ret None.
Proof.
  induction fuel as [|fuel IH]; intros i inp k o tmp E Hk Hi Ho Hf Ht; [simpl in Hk; lia|].
  destruct k as [|k]; [done|]. cbn [leb128] in *.
  destruct (decide (i < 128)) as [H|H]; cbn [take length] in *; [lia|].
  apply drop_cons_lookup in E as [L E].
  pose proof (Z.pow_pos_nonneg 2 (Z.of_nat o * 7) ltac:(lia) ltac:(lia)) as Hpos.
  rewrite (decode_byte _ _ _ _ _ (i mod 128 + 128) (i mod 128) L);
    [|by rewrite uchar_to_char_small by dlia|dlia|done|dlia|done].
  rewrite decide_False by dlia.
  assert (o < 4)%nat as Ho4.
  { destruct (decide (o = 4)%nat) as [->|]; [|lia]. change (2 ^ (Z.of_nat 4 * 7)) with (2 ^ 28) in Hf. lia. }
  pose proof (Z.div_mod i 128 ltac:(lia)) as Hdm. pose proof (Z.mod_pos_bound i 128 ltac:(lia)) as Hr.
  set (q := i / 128) in *. set (r := i mod 128) in *. clearbody q r. subst i.
  apply (IH q); [done|lia|lia|lia|rewrite place_succ; nia|rewrite place_succ; nia].
Qed.

(** The decoder at the sixth byte: the shift count has reached the width of [int]. *)
Lemma decode_sixth inp n tmp c : inp !! 5%nat = Some c -> try_decode_loop inp (S n) 5 tmp = Undef.
Proof.
  intros Hc. cbn [try_decode_loop]. rewrite Hc. unfold shl_int. by rewrite decide_False by lia.
Qed.

(** The decoder at the fifth byte, where the shifted value may not fit an [int]. *)
Lemma decode_fifth inp n tmp c b :
  inp !! 4%nat = Some c -> uchar c = b -> 0 <= tmp < 2 ^ 28 ->
  try_decode_loop inp (S n) 4 tmp
  = if decide (b mod 128 < 16) then
      let tmp := tmp + wrapu 64 (wraps 32 (b mod 128 * 2 ^ 28)) in
      if decide (b < 128) then Ret (Some (tmp, 5%nat)) else try_decode_loop inp n 5 tmp
    else Undef.
Proof.
  intros Hc Hb Ht. pose proof (uchar_range c). cbn [try_decode_loop].
  rewrite Hc. cbv zeta. rewrite Hb, land_127. change (Z.of_nat 4 * 7) with 28.
  pose proof (Z.mod_pos_bound b 128 ltac:(lia)) as Hm. unfold shl_int.
  destruct (decide (b mod 128 < 16)); [rewrite decide_True by lia|by rewrite decide_False by lia].
  cbn [mbind outcome_bind]. rewrite Z.shiftr_div_pow2 by lia. change (2 ^ 7) with 128.
  set (w := wrapu 64 _). assert (Z.lor tmp w = tmp + w) as ->.
  { assert (w = (if decide (b mod 128 < 8) then b mod 128 else b mod 128 - 16 + 2 ^ 36) * 2 ^ 28) as ->.
    { unfold w, wrapu, wraps. change (2 ^ (32 - 1)) with 2147483648. change (2 ^ 32) with 4294967296.
      change (2 ^ 28) with 268435456 in *. change (2 ^ 64) with 18446744073709551616.
      change (2 ^ 36) with 68719476736. case_decide; dlia. }
    case_decide; apply lor_place; lia. }
  destruct (decide (b < 128)); [by rewrite decide_True by dlia|by rewrite decide_False by dlia].
Qed.

(** One byte of a value that needs more of them, at one of the first four places. *)
Lemma decode_more fuel i inp n o tmp rest :
  drop o inp = leb128 (S fuel) i ++ rest -> 128 <= i -> (o <= 3)%nat -> 0 <= tmp < 2 ^ (Z.of_nat o * 7) ->
  try_decode_loop inp (S n) o tmp = try_decode_loop inp n (S o) (tmp + i mod 128 * 2 ^ (Z.of_nat o * 7))
  /\ drop (S o) inp = leb128 fuel (i / 128) ++ rest
  /\ 0 <= tmp + i mod 128 * 2 ^ (Z.of_nat o * 7) < 2 ^ (Z.of_nat (S o) * 7).
Proof.
  intros E Hi Ho Ht. rewrite leb128_S, decide_False in E by lia. cbn [app] in E.
  apply drop_cons_lookup in E as [L E]. pose proof (Z.mod_pos_bound i 128 ltac:(lia)) as Hm.
  assert (2 ^ (Z.of_nat o * 7) <= 2 ^ 21) by (apply Z.pow_le_mono_r; lia).
  pose proof (Z.pow_pos_nonneg 2 (Z.of_nat o * 7) ltac:(lia) ltac:(lia)).
  rewrite (decode_byte _ _ _ _ _ (i mod 128 + 128) (i mod 128) L);
    [|by rewrite uchar_to_char_small by lia|dlia|lia|change (2 ^ 21) with 2097152 in *; change (2 ^ 31) with 2147483648; nia|done].
  rewrite decide_False by lia. split_and!; [done|done|nia|rewrite place_succ; nia].
Qed.

(** The first four bytes of a value that needs more of them. *)
Lemma decode_four i rest n :
  2 ^ 28 <= i < 2 ^ 64 ->
  try_decode_loop (leb128 10 i ++ rest) (4 + n) 0 0
  = try_decode_loop (leb128 10 i ++ rest) n 4 (i mod 2 ^ 28)
  /\ drop 4 (leb128 10 i ++ rest) = leb128 6 (i / 2 ^ 28) ++ rest.
Proof.
  intros Hi. change (2 ^ 28) with 268435456 in *. change (2 ^ 64) with 18446744073709551616 in *.
  set (inp := leb128 10 i ++ rest). cbn [Nat.add].
  destruct (decode_more 9 i inp (S (S (S n))) 0 0 rest) as (E0 & D0 & H0); [done|lia|lia|done|].
  destruct (decode_more 8 _ inp (S (S n)) 1 _ rest D0 ltac:(dlia) ltac:(lia) H0) as (E1 & D1 & H1).
  destruct (decode_more 7 _ inp (S n) 2 _ rest D1 ltac:(dlia) ltac:(lia) H1) as (E2 & D2 & H2).
  destruct (decode_more 6 _ inp n 3 _ rest D2 ltac:(dlia) ltac:(lia) H2) as (E3 & D3 & H3).
  split.
  - rewrite E0, E1, E2, E3. f_equal. change (2 ^ (Z.of_nat 0 * 7)) with 1. change (2 ^ (Z.of_nat 1 * 7)) with 128.
    change (2 ^ (Z.of_nat 2 * 7)) with 16384. change (2 ^ (Z.of_nat 3 * 7)) with 2097152. dlia.
  - rewrite D3. do 2 f_equal. by rewrite !Z.div_div by lia.
Qed.

(** ** Properties *)

(** Every 64-bit value fits the ten-byte buffer the callers pass: the encoder
    never writes outside it, and what it writes is the reference encoding. *)
Theorem encode_unsigned_fits (i : Z) (Hi : 0 <= i < 2 ^ 64) :
  returns (encode_unsigned i) (fun out => out = leb128 10 i /\ (1 <= length out <= 10)%nat).
Proof.
  rewrite encode_unsigned_leb128 by done. split; [done|].
  pose proof (leb128_length 10 i 10 ltac:(simpl; lia)). pose proof (leb128_nonempty 10 i ltac:(done)).
  destruct (leb128 10 i); [done|simpl in *; lia].
Qed.

Lemma encode_unsigned_fits_witness :
  0 <= 300 < 2 ^ 64 /\ returns (encode_unsigned 300) (fun out => out = leb128 10 300 /\ (1 <= length out <= 10)%nat).
Proof. assert (0 <= 300 < 2 ^ 64) as H by (split; lia). split; [exact H|]. exact (encode_unsigned_fits 300 H). Defined.

(** Round trip of message lengths: a value below 2^31 decodes from its encoding,
    whatever follows it in the buffer, to the value and the number of bytes the
    encoder wrote; and a buffer that ends inside the encoding is reported incomplete. *)
Lemma encode_decode (i : Z) (rest : bytes) (Hi : 0 <= i < 2 ^ 31) :
  exists enc, encode_unsigned i = Ret enc
    /\ try_decode_unsigned (enc ++ rest) (length (enc ++ rest)) = Ret (Some (i, length enc))
    /\ forall k, (k < length enc)%nat -> try_decode_unsigned (take k enc) k = Ret None.
Proof.
  assert (0 <= i < 2 ^ 64) as Hi' by (split; [lia|]; eapply Z.lt_trans; [apply Hi|done]).
  exists (leb128 10 i). rewrite encode_unsigned_leb128 by done. split_and!; [done|..].
  - apply try_decode_unsigned_app. unfold try_decode_unsigned.
    pose proof (leb128_length 10 i 5 ltac:(change (128 ^ Z.of_nat 5) with (2 ^ 35); lia)) as Hl.
    rewrite decide_False by lia.
    rewrite (decode_leb128 10 i _ _ 0 0 []); [by rewrite Z.mul_1_r|by rewrite app_nil_r|done| |lia| |done|done].
    + change (128 ^ Z.of_nat 10) with (2 ^ 70). lia.
    + change (2 ^ (Z.of_nat 0 * 7)) with 1. lia.
  - intros k Hk. unfold try_decode_unsigned.
    pose proof (leb128_length 10 i 5 ltac:(change (128 ^ Z.of_nat 5) with (2 ^ 35); lia)) as Hl.
    rewrite decide_False by lia.
    apply (decode_leb128_prefix 10 i); [done|done|lia|lia| |done]. change (2 ^ (Z.of_nat 0 * 7)) with 1. lia.
Qed.

(** From 2^31 on the decoder does not invert the encoder: below 2^32 the [int]
    shift of the fifth byte is sign-extended and the decoded value is too large by
    2^64 - 2^32, and from 2^32 on the shift is undefined. *)
Lemma encode_decode_large (i : Z) (rest : bytes) (Hi : 2 ^ 31 <= i < 2 ^ 64) :
  exists enc, encode_unsigned i = Ret enc
    /\ try_decode_unsigned (enc ++ rest) (length (enc ++ rest))
       = if decide (i < 2 ^ 32) then Ret (Some (i + (2 ^ 64 - 2 ^ 32), 5%nat)) else Undef.
Proof.
  exists (leb128 10 i). rewrite encode_unsigned_leb128 by lia. split; [done|].
  unfold try_decode_unsigned. set (inp := leb128 10 i ++ rest).
  set (n := if decide (9 < length inp)%nat then 9%nat else length inp).
  assert (drop 4 inp = leb128 6 (i / 2 ^ 28) ++ rest) as D by (by apply (decode_four i rest 0); lia).
  assert (5 <= n)%nat as Hn.
  { apply (f_equal length) in D. rewrite length_drop, length_app in D.
    pose proof (leb128_nonempty 6 (i / 2 ^ 28) ltac:(done)). destruct (leb128 6 _); [done|].
    simpl in D. unfold n. case_decide; lia. }
  replace n with (4 + (n - 4))%nat by lia. unfold inp at 1.
  rewrite (proj1 (decode_four i rest (n - 4) ltac:(lia))). fold inp.
  set (q := i / 2 ^ 28) in *. assert (8 <= q) by (apply Z.div_le_lower_bound; lia).
  assert (i = 2 ^ 28 * q + i mod 2 ^ 28) as Hq by (apply Z.div_mod; lia).
  pose proof (Z.mod_pos_bound i (2 ^ 28) ltac:(lia)) as Hr. set (r := i mod 2 ^ 28) in *.
  clearbody q r. destruct (n - 4)%nat as [|m] eqn:Em; [lia|].
  rewrite leb128_S in D. destruct (decide (q < 128)) as [Hs|Hl]; cbn [app] in D.
  - apply drop_cons_lookup in D as [L _]. rewrite (decode_fifth _ _ _ _ q L) by (rewrite ?uchar_to_char_small; lia).
    rewrite (Z.mod_small q) by lia. rewrite (decide_True (P := q < 128)) by done.
    destruct (decide (q < 16)); [rewrite decide_True by lia|by rewrite decide_False by lia].
    do 3 f_equal. unfold wrapu, wraps. change (2 ^ (32 - 1)) with 2147483648.
    change (2 ^ 32) with 4294967296 in *. change (2 ^ 28) with 268435456 in *.
    change (2 ^ 64) with 18446744073709551616 in *. dlia.
  - apply drop_cons_lookup in D as [L D]. rewrite decide_False by lia.
    rewrite (decode_fifth _ _ _ _ (q mod 128 + 128) L) by (rewrite ?uchar_to_char_small; dlia).
    replace ((q mod 128 + 128) mod 128) with (q mod 128) by dlia.
    destruct (decide (q mod 128 < 16)); [|done]. rewrite decide_False by dlia.
    pose proof (f_equal length D) as Hlen. rewrite length_drop, length_app in Hlen.
    assert (exists c, inp !! 5%nat = Some c) as [c Hc].
    { apply lookup_lt_is_Some_2. pose proof (leb128_nonempty 5 (q / 128) ltac:(done)).
      destruct (leb128 5 (q / 128)); [done|simpl in Hlen; lia]. }
    apply lookup_lt_Some in Hc as Hc'. unfold n in Em. destruct m as [|m]; [case_decide; lia|].
    by apply decode_sixth with c.
Qed.

(** What the decoder makes of a 64-bit value's encoding, whatever follows it in
    the buffer: the value itself and the number of bytes the encoder wrote below
    2^31; below 2^32 a value too large by 2^64 - 2^32, since the [int] shift of the
    fifth byte is sign-extended; undefined behaviour from 2^32 on. *)
Theorem varint_decodes (i : Z) (rest : bytes) (Hi : 0 <= i < 2 ^ 64) :
  exists enc, encode_unsigned i = Ret enc
    /\ try_decode_unsigned (enc ++ rest) (length (enc ++ rest))
       = if decide (i < 2 ^ 31) then Ret (Some (i, length enc))
         else if decide (i < 2 ^ 32) then Ret (Some (i + (2 ^ 64 - 2 ^ 32), 5%nat))
         else Undef.
Proof.
  case_decide.
  - destruct (encode_decode i rest) as (enc & ? & ? & _); eauto with lia.
  - apply encode_decode_large. lia.
Qed.

Lemma varint_decodes_witness :
  exists enc, encode_unsigned 300 = Ret enc
    /\ try_decode_unsigned (enc ++ lit "x") (length (enc ++ lit "x")) = Ret (Some (300, length enc)).
Proof. apply (varint_decodes 300 (lit "x")). lia. Defined.

End Varint.
