(* ===== verification/Json.v ===== *)
(** * The JSON library

    The sources use nlohmann's [json] class, which is not part of the repository.
    Its value type and the operations the sources call are an interface here
    ([Json]); what the sources rely on of it is a class of laws ([JsonLaws]),
    which states documented behaviour of the library.  [TreeJson] is a value type
    that satisfies the laws; the witnesses of the development run on it. *)

From S2P Require Import Prelude.
From Stdlib Require Import ZArith Ascii Lia.
From stdpp Require Import base list gmap strings numbers countable.

(** ** Exceptions of the code that handles JSON

    [json::parse_error], the other exceptions of the library, the exceptions that
    implement [rpc_call_exception_interface] and the standard ones. *)
Inductive jexn (json : Type) : Type :=
| json_parse_error
| json_exception
| rpc_call_exception (code : Z) (text : bytes) (data : json)
| std_exception (e : exn).
Arguments json_parse_error {json}.
Arguments json_exception {json}.
Arguments rpc_call_exception {json} code text data.
Arguments std_exception {json} e.

(** ** The interface *)
Class Json (json : Type) := {
  (* values *)
  json_null : json;
  json_int : Z -> json;
  json_string : bytes -> json;
  (* a double whose value is an integer *)
  json_double : Z -> json;
  json_array : list json -> json;
  json_object : json;
  json_is_object : json -> bool;
  (* [j[key] = v] on an object, or on null, which becomes one *)
  json_set : json -> string -> json -> json;
  (* [j.find(key)] and [j.count(key) > 0] *)
  json_find : json -> string -> option json;
  (* [j[key]] read on a non-const value *)
  json_key : json -> string -> outcome (jexn json) json;
  (* [j.at(key)] *)
  json_at : json -> string -> outcome (jexn json) json;
  (* [j[i]] read on a non-const value *)
  json_index : json -> nat -> outcome (jexn json) json;
  json_size : json -> nat;
  (* [for (auto const& e : j)] *)
  json_elements : json -> list json;
  json_is_number : json -> bool;
  (* the implicit conversions to an integer type and to [std::string] *)
  json_get_int : json -> outcome (jexn json) Z;
  json_get_string : json -> outcome (jexn json) bytes;
  (* the text and the binary forms *)
  json_dump : json -> outcome (jexn json) bytes;
  json_parse : bytes -> outcome (jexn json) json;
  json_to_cbor : json -> bytes;
  json_from_cbor : bytes -> outcome (jexn json) json
}.

Definition newline : ascii := ascii_of_nat 10.

Definition is_ascii (s : bytes) : bool := forallb (fun c => uchar c <? 128)%Z s.

(** ** Its laws

    [json_objlike] are the values [operator[]] accepts a key on; [json_text] the
    values with a text form of their own: UTF-8 strings, finite numbers. *)
Class JsonLaws (json : Type) `{Json json} := {
  json_objlike : json -> Prop;
  json_text : json -> Prop;
  objlike_null : json_objlike json_null;
  objlike_set o k v : json_objlike o -> json_objlike (json_set o k v);
  objlike_object : json_objlike json_object;
  is_object_set o k v : json_objlike o -> json_is_object (json_set o k v) = true;
  find_null k : json_find json_null k = None;
  find_object k : json_find json_object k = None;
  find_set o k v k' : json_objlike o ->
    json_find (json_set o k v) k' = if decide (k = k') then Some v else json_find o k';
  key_find o k : json_objlike o -> json_key o k = Ret (default json_null (json_find o k));
  at_find o k v : json_find o k = Some v -> json_at o k = Ret v;
  size_array l : json_size (json_array l) = length l;
  index_array l i v : l !! i = Some v -> json_index (json_array l) i = Ret v;
  elements_array l : json_elements (json_array l) = l;
  int_is_number z : json_is_number (json_int z) = true;
  null_not_number : json_is_number json_null = false;
  get_int z : (- 2 ^ 63 <= z < 2 ^ 63)%Z -> json_get_int (json_int z) = Ret z;
  get_string s : json_get_string (json_string s) = Ret s;
  get_string_null : json_get_string json_null = Throw json_exception;
  text_null : json_text json_null;
  text_object : json_text json_object;
  text_int z : json_text (json_int z);
  text_double z : json_text (json_double z);
  text_string s : is_ascii s = true -> json_text (json_string s);
  text_array l : (forall j, In j l -> json_text j) -> json_text (json_array l);
  text_set o k v : is_ascii (lit k) = true -> json_text o -> json_text v -> json_text (json_set o k v);
  (* the default [dump()] writes one line, and parsing skips white space after it *)
  dump_text j : json_text j -> exists s,
    json_dump j = Ret s /\ newline ∉ s /\ NUL ∉ s /\ json_parse (s ++ [newline]) = Ret j;
  parse_dump j s : json_text j -> json_dump j = Ret s -> json_parse s = Ret j;
  cbor_roundtrip j : json_from_cbor (json_to_cbor j) = Ret j
}.

(** [j.value(key, def)] for the types the sources ask for. *)
Definition json_value {json A} `{Json json} (conv : json -> outcome (jexn json) A) (j : json) (key : string) (def : A) :
    outcome (jexn json) A :=
  if json_is_object j then
    match json_find j key with Some v => conv v | None => Ret def end
  else Throw json_exception.

(** The integer a value converts to, at the width of [int]. *)
Definition json_get_int32 {json} `{Json json} (j : json) : outcome (jexn json) Z :=
  z ← json_get_int j; Ret (wraps 32 z).

(** ** A value type that satisfies the laws *)
Inductive TreeJson : Type :=
| TNull
| TInt (z : Z)
| TString (s : bytes)
| TArray (l : list TreeJson)
| TObject (l : list (string * TreeJson)).

Module TreeJson.

(** Values as trees with labelled leaves, the form [gen_tree] encodes. *)
Fixpoint to_tree (j : TreeJson) : gen_tree (Z + bytes + string) :=
  match j with
  | TNull => GenNode 0 []
  | TInt z => GenLeaf (inl (inl z))
  | TString s => GenLeaf (inl (inr s))
  | TArray l => GenNode 1 (map to_tree l)
  | TObject l => GenNode 2 (map (fun kv => GenNode 3 [GenLeaf (inr (fst kv)); to_tree (snd kv)]) l)
  end.

Fixpoint of_tree (t : gen_tree (Z + bytes + string)) : TreeJson :=
  match t with
  | GenLeaf (inl (inl z)) => TInt z
  | GenLeaf (inl (inr s)) => TString s
  | GenNode 1 l => TArray (map of_tree l)
  | GenNode 2 l => TObject (map (fun t => match t with
                                        | GenNode _ [GenLeaf (inr k); v] => (k, of_tree v)
                                        | _ => (EmptyString, TNull)
                                        end) l)
  | _ => TNull
  end.

Fixpoint of_to_tree (j : TreeJson) : of_tree (to_tree j) = j.
Proof.
  destruct j as [|z|s|l|l]; simpl; try done; f_equal; rewrite map_map.
  - induction l as [|j l IH]; simpl; f_equal; [apply of_to_tree|apply IH].
  - induction l as [|[k j] l IH]; simpl; f_equal; [f_equal; apply of_to_tree|apply IH].
Defined.

(** The bits of a positive number as characters. *)
Fixpoint bits_of (p : positive) : bytes :=
  match p with
  | xH => []
  | xO p => "0"%char :: bits_of p
  | xI p => "1"%char :: bits_of p
  end.
Fixpoint of_bits (s : bytes) : option positive :=
  match s with
  | [] => Some xH
  | c :: s => if decide (c = newline) then Some xH
              else if decide (c = "0"%char) then xO <$> of_bits s else xI <$> of_bits s
  end.

Lemma of_bits_of p r : of_bits (bits_of p ++ newline :: r) = Some p /\ of_bits (bits_of p) = Some p.
Proof. induction p as [p [IH1 IH2]|p [IH1 IH2]|]; simpl; rewrite ?IH1, ?IH2; done. Qed.

Lemma bits_of_chars p c : c ∈ bits_of p -> c = "0"%char \/ c = "1"%char.
Proof. induction p; simpl; rewrite ?elem_of_cons, ?elem_of_nil; naive_solver. Qed.

Definition write (j : TreeJson) : bytes := bits_of (encode (to_tree j)).
Definition read (s : bytes) : outcome (jexn TreeJson) TreeJson :=
  match (p ← of_bits s; decode p) with
  | Some t => Ret (of_tree t)
  | None => Throw json_parse_error
  end.

Fixpoint assoc (l : list (string * TreeJson)) (k : string) : option TreeJson :=
  match l with
  | [] => None
  | (k', v) :: l => if decide (k' = k) then Some v else assoc l k
  end.

Definition members (j : TreeJson) : list (string * TreeJson) :=
  match j with TObject l => l | _ => [] end.
Definition objlike (j : TreeJson) : bool :=
  match j with TObject _ | TNull => true | _ => false end.

#[global] Instance tree_json : Json TreeJson := {
  json_null := TNull;
  json_int := TInt;
  json_string := TString;
  json_double := TInt;
  json_array := TArray;
  json_object := TObject [];
  json_is_object j := match j with TObject _ => true | _ => false end;
  json_set j k v := TObject ((k, v) :: members j);
  json_find j k := assoc (members j) k;
  json_key j k := if objlike j then Ret (default TNull (assoc (members j) k)) else Throw json_exception;
  json_at j k := match assoc (members j) k with Some v => Ret v | None => Throw json_exception end;
  json_index j i := match j with
                    | TArray l => Ret (default TNull (l !! i))
                    | _ => Throw json_exception
                    end;
  json_size j := match j with TNull => 0 | TArray l => length l | TObject l => length l | _ => 1 end;
  json_elements j := match j with TNull => [] | TArray l => l | TObject l => snd <$> l | _ => [j] end;
  json_is_number j := match j with TInt _ => true | _ => false end;
  json_get_int j := match j with TInt z => Ret (wraps 64 z) | _ => Throw json_exception end;
  json_get_string j := match j with TString s => Ret s | _ => Throw json_exception end;
  json_dump j := Ret (write j);
  json_parse := read;
  json_to_cbor := write;
  json_from_cbor := read
}.

Lemma read_write j : read (write j) = Ret j.
Proof.
  unfold read, write. rewrite (proj2 (of_bits_of _ [])). simpl. by rewrite decode_encode, of_to_tree.
Qed.

Lemma dump_line j : newline ∉ write j /\ NUL ∉ write j /\ read (write j ++ [newline]) = Ret j.
Proof.
  split_and!; [by intros [?|?]%bits_of_chars..|].
  unfold read, write. rewrite (proj1 (of_bits_of _ [])). simpl. by rewrite decode_encode, of_to_tree.
Qed.

#[global] Instance tree_json_laws : JsonLaws TreeJson.
Proof.
  refine {| json_objlike j := objlike j = true; json_text _ := True |}; simpl; try done.
  - intros o k Ho. by rewrite Ho.
  - intros o k v E. by rewrite E.
  - intros l i v E. by rewrite E.
  - intros z Hz. f_equal. by apply wraps_small.
  - intros j _. exists (write j). split; [done|]. apply dump_line.
  - intros j s _ [= <-]. apply read_write.
  - apply read_write.
Defined.

End TreeJson.
