(* ===== verification/IpcMessage.v ===== *)
(** * simple-ipc messages and encodings

    The message classes (include/simpleipc/common/message), the container the
    reader fills (src/common/message), and the two wire encodings, JSON lines and
    length-prefixed CBOR (src/common/encoding).  Sending is modelled by the
    sequence of buffers handed to [connection_internal::send_data]. *)

From S2P Require Import Prelude Json Varint.
From Stdlib Require Import ZArith Ascii Lia.
From stdpp Require Import base list gmap strings numbers.

Open Scope Z_scope.

(** ** rpc_error_codes *)
Module rpc_error_codes.
Definition success : Z := 0.
Definition parse_error : Z := -32700.
Definition invalid_request : Z := -32600.
Definition method_not_found : Z := -32601.
Definition invalid_params : Z := -32602.
Definition internal_error : Z := -32603.
Definition connection_closed : Z := -32000.
Definition no_hello_reply : Z := -32001.

Definition to_string (code : Z) : bytes :=
  if decide (code = success) then lit ""
  else if decide (code = parse_error) then lit "Parse error"
  else if decide (code = invalid_request) then lit "Invalid request"
  else if decide (code = method_not_found) then lit "Method not found"
  else if decide (code = invalid_params) then lit "Invalid method parameters"
  else if decide (code = internal_error) then lit "Internal server error"
  else if decide (code = connection_closed) then lit "Connection was closed unexpectedly"
  else lit "Unknown error".
End rpc_error_codes.

(** The two encodings registered by [encodings::encodings()]. *)
Inductive encoding : Type := enc_json | enc_json_cbor.

#[global] Instance encoding_eq_dec : EqDecision encoding.
Proof. solve_decision. Defined.

Module Ipc.
Section Ipc.
Context {json : Type} `{Json json}.

(** ** Messages *)

(** [message_with_id]: [id] is 0 without an id. *)
Record message_with_id := mkId { has_id : bool; id : Z }.
Definition no_id : message_with_id := mkId false 0.
Definition with_id (i : Z) : message_with_id := mkId true i.

Record rpc_message := mkRpc { rpc_mid : message_with_id; rpc_method : bytes; rpc_data : json }.
Record response_message := mkResponse { resp_mid : message_with_id; resp_data : json }.
Record error_message := mkError { err_mid : message_with_id; err_code : Z; err_text : bytes; err_data : json }.

(** Default-constructed messages; a default-constructed value is null. *)
Definition rpc_message0 : rpc_message := mkRpc no_id [] json_null.
Definition response_message0 : response_message := mkResponse no_id json_null.
Definition error_message0 : error_message := mkError no_id 0 [] json_null.

Inductive message_type : Type := type_none | type_rpc | type_response | type_error.

Record message_container := mkContainer {
  mtype : message_type;
  message_rpc : rpc_message;
  message_response : response_message;
  message_error : error_message
}.
Definition container0 : message_container :=
  mkContainer type_none rpc_message0 response_message0 error_message0.

Definition set_rpc (m : rpc_message) (c : message_container) : message_container :=
  mkContainer type_rpc m (message_response c) (message_error c).
Definition set_response (m : response_message) (c : message_container) : message_container :=
  mkContainer type_response (message_rpc c) m (message_error c).
Definition set_error (m : error_message) (c : message_container) : message_container :=
  mkContainer type_error (message_rpc c) (message_response c) m.

Definition clear (c : message_container) : message_container :=
  match mtype c with
  | type_rpc => mkContainer type_none rpc_message0 (message_response c) (message_error c)
  | type_response => mkContainer type_none (message_rpc c) response_message0 (message_error c)
  | type_error => mkContainer type_none (message_rpc c) (message_response c) error_message0
  | type_none => mkContainer type_none (message_rpc c) (message_response c) (message_error c)
  end.

(** A message of one of the three classes, as the handler receives it. *)
Inductive message : Type :=
| Rpc (m : rpc_message)
| Response (m : response_message)
| Error (m : error_message).

Notation result := (outcome (jexn json)).

(** [std::runtime_error] and the like thrown by code that knows no JSON. *)
Definition lift_std {A} (o : outcome exn A) : result A :=
  match o with
  | Ret a => Ret a
  | Throw e => Throw (std_exception e)
  | Undef => Undef
  | Diverge => Diverge
  end.

(** [rpc_call_exception(code, rpc_error_codes::to_string)]. *)
Definition rpc_error (code : Z) : jexn json :=
  rpc_call_exception code (rpc_error_codes.to_string code) json_null.

(** The conversion of a value to [int]. *)
Definition get_int32 (j : json) : result Z := z ← json_get_int j; Ret (wraps 32 z).

(** ** encoding_json.cpp *)

(** [if (msg.has_id()) data["id"] = msg.id()] on a fresh value. *)
Definition json_start (m : message_with_id) : json :=
  if has_id m then json_set json_null "id" (json_int (id m)) else json_null.

(** [data[key][sub] = v]. *)
Definition json_set2 (data : json) (key sub : string) (v : json) : result json :=
  inner ← json_key data key;
  Ret (json_set data key (json_set inner sub v)).

Definition json_of_rpc (m : rpc_message) : result json :=
  let data := json_start (rpc_mid m) in
  let data := json_set data "method" (json_string (rpc_method m)) in
  Ret (json_set data "params" (rpc_data m)).
Definition json_of_response (m : response_message) : result json :=
  Ret (json_set (json_start (resp_mid m)) "result" (resp_data m)).
Definition json_of_error (m : error_message) : result json :=
  let data := json_start (err_mid m) in
  data ← json_set2 data "error" "code" (json_int (err_code m));
  data ← json_set2 data "error" "message" (json_string (err_text m));
  json_set2 data "error" "data" (err_data m).

Definition json_of_message (m : message) : result json :=
  match m with
  | Rpc m => json_of_rpc m
  | Response m => json_of_response m
  | Error m => json_of_error m
  end.

Definition send_json_line (max_out_msg_size : nat) (data : json) : result (list bytes) :=
  buf ← json_dump data;
  if decide (max_out_msg_size < length buf + 1)%nat
  then Throw (std_exception (runtime_error "Message is too big"))
  else Ret [buf; [newline]].

(** The position after the first newline or NUL at or after [off]; [None] is -1. *)
Fixpoint find_line_end (buf : bytes) (n off : nat) : option nat :=
  match n with
  | O => None
  | S n =>
      match buf !! off with
      | Some c => if decide (c = newline \/ c = NUL) then Some (S off) else find_line_end buf n (S off)
      | None => None
      end
  end.
Definition check_line (buf : bytes) (last_read_off : nat) : option nat :=
  find_line_end buf (length buf - last_read_off) last_read_off.

(** The id of a received message: the member when it is a number. *)
Definition read_id (msg_id : option json) : result message_with_id :=
  match msg_id with
  | Some i => if json_is_number i then z ← json_get_int i; Ret (with_id z) else Ret no_id
  | None => Ret no_id
  end.

Definition present (o : option json) : bool := match o with Some _ => true | None => false end.

Definition read_line (buf : bytes) (ret : message_container) : result message_container :=
  data ← json_parse buf;
  let msg_id := json_find data "id" in
  if present (json_find data "method") then
    i ← read_id msg_id;
    method ← (j ← json_key data "method"; json_get_string j);
    params ← json_key data "params";
    Ret (set_rpc (mkRpc i method params) ret)
  else if present (json_find data "error") then
    error_data ← json_key data "error";
    i ← read_id msg_id;
    code ← (j ← json_key error_data "code"; get_int32 j);
    text ← (j ← json_key error_data "message"; json_get_string j);
    d ← json_key error_data "data";
    Ret (set_error (mkError i code text d) ret)
  else if present (json_find data "result") then
    i ← read_id msg_id;
    d ← json_key data "result";
    Ret (set_response (mkResponse i d) ret)
  else Throw (rpc_error rpc_error_codes.invalid_request).

(** ** encoding_json_cbor.cpp *)

Definition get_id_json (m : message_with_id) : json :=
  if has_id m then json_int (id m) else json_null.

Definition cbor_of_message (m : message) : json :=
  match m with
  | Rpc m => json_array [get_id_json (rpc_mid m); json_string (rpc_method m); rpc_data m]
  | Response m => json_array [get_id_json (resp_mid m); resp_data m]
  | Error m => json_array [get_id_json (err_mid m); json_int (err_code m); json_string (err_text m); err_data m]
  end.

Definition send_cbor (data : json) : result (list bytes) :=
  let buf := json_to_cbor data in
  vbuf ← lift_std (Varint.encode_unsigned (Z.of_nat (length buf)));
  Ret [vbuf; buf].

(** [total_size] is a [size_t]: the sum wraps. *)
Definition check_cbor (buf : bytes) : result (option nat) :=
  r ← lift_std (Varint.try_decode_unsigned buf (length buf));
  match r with
  | None => Ret None
  | Some (size, varint_size) =>
      let total_size := wrapu 64 (size + Z.of_nat varint_size) in
      if decide (total_size <= Z.of_nat (length buf)) then Ret (Some (Z.to_nat total_size)) else Ret None
  end.

(** The id in [data[0]]. *)
Definition read_first_id (data : json) : result message_with_id :=
  i0 ← json_index data 0; read_id (Some i0).

Definition read_cbor (buf : bytes) (ret : message_container) : result message_container :=
  '(size, varint_size) ← lift_std (Varint.decode_unsigned buf (length buf));
  data ← json_from_cbor (drop varint_size buf);
  if decide (json_size data = 3%nat) then
    i ← read_first_id data;
    method ← (j ← json_index data 1; json_get_string j);
    params ← json_index data 2;
    Ret (set_rpc (mkRpc i method params) ret)
  else if decide (json_size data = 2%nat) then
    i ← read_first_id data;
    d ← json_index data 1;
    Ret (set_response (mkResponse i d) ret)
  else
    i ← read_first_id data;
    code ← (j ← json_index data 1; get_int32 j);
    text ← (j ← json_index data 2; json_get_string j);
    d ← json_index data 3;
    Ret (set_error (mkError i code text d) ret).

(** ** The encoding interface: dispatch of [encoding::encoding]'s virtual functions *)

Definition enc_name (e : encoding) : bytes :=
  match e with enc_json => lit "json" | enc_json_cbor => lit "json_cbor" end.

Definition send_message (e : encoding) (max_out_msg_size : nat) (m : message) : result (list bytes) :=
  match e with
  | enc_json => data ← json_of_message m; send_json_line max_out_msg_size data
  | enc_json_cbor => send_cbor (cbor_of_message m)
  end.

Definition check_read_message_complete (e : encoding) (buf : bytes) (last_read_off : nat) : result (option nat) :=
  match e with
  | enc_json => Ret (check_line buf last_read_off)
  | enc_json_cbor => check_cbor buf
  end.

Definition read_message (e : encoding) (buf : bytes) (ret : message_container) : result message_container :=
  match e with
  | enc_json => read_line buf ret
  | enc_json_cbor => read_cbor buf ret
  end.

(** ** encodings.cpp *)

Definition default_encoding : encoding := enc_json.

Definition get_encoding_by_name (name : bytes) : option encoding :=
  if decide (name = enc_name enc_json) then Some enc_json
  else if decide (name = enc_name enc_json_cbor) then Some enc_json_cbor
  else None.

Definition get_preferred_encodings : list bytes := [lit "json_cbor"; lit "json"].

(** ** Round trips *)

(** The container after a message was read into it. *)
Definition set_message (m : message) (c : message_container) : message_container :=
  match m with
  | Rpc m => set_rpc m c
  | Response m => set_response m c
  | Error m => set_error m c
  end.

(** What is read does not depend on the container it is read into. *)
Lemma read_message_container e buf c d :
  match read_message e buf c, read_message e buf d with
  | Ret x, Ret y => exists m, x = set_message m c /\ y = set_message m d
  | Throw x, Throw y => x = y
  | Undef, Undef | Diverge, Diverge => True
  | _, _ => False
  end.
Proof.
  assert (Hbind : forall A (o : result A) (f g : A -> result message_container),
    (forall a, match f a, g a with
      | Ret x, Ret y => exists m, x = set_message m c /\ y = set_message m d
      | Throw x, Throw y => x = y | Undef, Undef | Diverge, Diverge => True | _, _ => False end) ->
    match o ≫= f, o ≫= g with
      | Ret x, Ret y => exists m, x = set_message m c /\ y = set_message m d
      | Throw x, Throw y => x = y | Undef, Undef | Diverge, Diverge => True | _, _ => False end).
  { intros A [a| | |] f g Hf; simpl; try done. apply Hf. }
  assert (Hset : forall m, exists m', set_message m c = set_message m' c /\ set_message m d = set_message m' d) by eauto.
  destruct e; simpl; unfold read_line, read_cbor; apply Hbind.
  - intros data. destruct (present (json_find data "method")); [|destruct (present (json_find data "error"));
      [|destruct (present (json_find data "result")); [|done]]]; repeat (apply Hbind; intros ?);
      [apply (Hset (Rpc _))|apply (Hset (Error _))|apply (Hset (Response _))].
  - intros [v n]. apply Hbind. intros data. case_decide; [|case_decide];
      repeat (apply Hbind; intros ?); [apply (Hset (Rpc _))|apply (Hset (Response _))|apply (Hset (Error _))].
Qed.

(** Ids are [long long], codes [int]. *)
Definition id_ok (i : message_with_id) : Prop :=
  if has_id i then - 2 ^ 63 <= id i < 2 ^ 63 else i = no_id.
Definition message_ok (m : message) : Prop :=
  match m with
  | Rpc m => id_ok (rpc_mid m)
  | Response m => id_ok (resp_mid m)
  | Error m => id_ok (err_mid m) /\ - 2 ^ 31 <= err_code m < 2 ^ 31
  end.

(** ** Framing

    What the reader needs of an encoding's completeness check, whichever bytes it
    is given: a complete message stays complete, and a prefix of a buffer that is
    checked without a fault is either incomplete or holds the same message. *)

Definition terminator (c : ascii) : Prop := c = newline \/ c = NUL.

#[export] Instance terminator_dec c : Decision (terminator c).
Proof. unfold terminator. apply _. Defined.

(** The end of the first line, on lists. *)
Fixpoint line_end (buf : bytes) : option nat :=
  match buf with
  | [] => None
  | c :: buf => if decide (terminator c) then Some 1%nat else S <$> line_end buf
  end.

Lemma find_line_end_drop buf : forall n off, (off + n = length buf)%nat ->
  find_line_end buf n off = (fun k => off + k)%nat <$> line_end (drop off buf).
Proof.
  induction n as [|n IH]; intros off Hn; cbn [find_line_end].
  { by rewrite drop_ge by lia. }
  destruct (lookup_lt_is_Some_2 buf off ltac:(lia)) as [c Hc]. rewrite Hc, (drop_lookup _ _ _ Hc).
  cbn [line_end]. destruct (decide (terminator c)) as [T|T].
  { rewrite decide_True by exact T. simpl. by rewrite Nat.add_1_r. }
  rewrite decide_False by exact T. rewrite IH by lia. destruct (line_end (drop (S off) buf)); simpl; [f_equal; lia|done].
Qed.

Lemma line_end_app p q : line_end (p ++ q) =
  match line_end p with Some k => Some k | None => (fun k => length p + k)%nat <$> line_end q end.
Proof.
  induction p as [|c p IH]; simpl; [by destruct (line_end q)|]. case_decide; [done|]. rewrite IH.
  destruct (line_end p); [done|]. simpl. by destruct (line_end q).
Qed.

Lemma line_end_None p : line_end p = None <-> Forall (fun c => ~ terminator c) p.
Proof.
  induction p as [|c p IH]; simpl; [done|]. rewrite Forall_cons_iff, <- IH. case_decide; [naive_solver|].
  destruct (line_end p); simpl; naive_solver.
Qed.

Lemma line_end_bound p k : line_end p = Some k -> (0 < k <= length p)%nat.
Proof.
  revert k. induction p as [|c p IH]; simpl; intros k E; [done|]. case_decide; [simplify_eq; lia|].
  destruct (line_end p) as [k'|]; [|done]. simplify_eq/=. specialize (IH k' eq_refl). lia.
Qed.

Lemma check_line_0 buf : check_line buf 0 = line_end buf.
Proof.
  unfold check_line. rewrite find_line_end_drop by lia. rewrite drop_0. by destruct (line_end buf).
Qed.

(** Bytes that held no complete line need not be looked at again. *)
Lemma check_line_skip p q : line_end p = None -> check_line (p ++ q) (length p) = line_end (p ++ q).
Proof.
  intros E. unfold check_line. rewrite length_app, find_line_end_drop by (rewrite length_app; lia).
  by rewrite drop_app_length, line_end_app, E.
Qed.

Lemma check_skip e p q :
  check_read_message_complete e p 0 = Ret None ->
  check_read_message_complete e (p ++ q) (length p) = check_read_message_complete e (p ++ q) 0.
Proof.
  destruct e; simpl; [|done]. rewrite !check_line_0. intros [= E]. by rewrite check_line_skip.
Qed.

Lemma check_cbor_bound p c : check_cbor p = Ret (Some c) -> (c <= length p)%nat.
Proof.
  unfold check_cbor. destruct (Varint.try_decode_unsigned _ _) as [[[size v]|]| | |]; simpl; try done.
  pose proof (wrapu_range 64 (size + Z.of_nat v) ltac:(lia)).
  case_decide; intros [=]. lia.
Qed.

Lemma check_complete e p c :
  check_read_message_complete e p 0 = Ret (Some c) ->
  (c <= length p)%nat /\ forall q, check_read_message_complete e (p ++ q) 0 = Ret (Some c).
Proof.
  destruct e; simpl.
  - setoid_rewrite check_line_0. intros [= E]. split; [apply line_end_bound in E; lia|].
    intros q. by rewrite line_end_app, E.
  - intros E. split; [by apply check_cbor_bound|]. intros q. unfold check_cbor in *.
    destruct (Varint.try_decode_unsigned p _) as [[[size v]|]| | |] eqn:D; simpl in E; try done.
    rewrite (Varint.try_decode_unsigned_app _ q _ D). cbn [lift_std mbind outcome_bind].
    case_decide; simplify_eq. rewrite decide_True; [done|]. rewrite length_app. lia.
Qed.

Lemma check_prefix e p q r :
  check_read_message_complete e (p ++ q) 0 = Ret r ->
  check_read_message_complete e p 0 = Ret None \/ check_read_message_complete e p 0 = Ret r.
Proof.
  destruct e; simpl.
  - rewrite !check_line_0. intros [= <-]. rewrite line_end_app. destruct (line_end p); [by right|by left].
  - unfold check_cbor. destruct (Varint.try_decode_unsigned_prefix p q) as [E|E]; rewrite E; [by left|].
    destruct (Varint.try_decode_unsigned (p ++ q) _) as [[[size v]|]| | |] eqn:D; simpl; try done; [|by left].
    rewrite length_app. case_decide as Hpq; case_decide as Hp; intros [= <-]; [by right|by left|lia|by left].
Qed.

Section laws.
Context `{!JsonLaws json}.

(** The parts of a message that the JSON encoding writes as text. *)
Definition message_text (m : message) : Prop :=
  match m with
  | Rpc m => json_text (json_string (rpc_method m)) /\ json_text (rpc_data m)
  | Response m => json_text (resp_data m)
  | Error m => json_text (json_string (err_text m)) /\ json_text (err_data m)
  end.

Lemma json_start_ok m : id_ok m ->
  json_objlike (json_start m) /\ json_text (json_start m)
  /\ read_id (json_find (json_start m) "id") = Ret m
  /\ forall k, k ≠ "id" -> json_find (json_start m) k = None.
Proof.
  unfold id_ok, json_start. destruct m as [[] i]; simpl; intros Hm.
  - split_and!; [by apply objlike_set, objlike_null|apply text_set; [done|apply text_null|apply text_int]|..].
    + rewrite find_set by apply objlike_null. rewrite decide_True by done. unfold read_id.
      by rewrite int_is_number, get_int by done.
    + intros k Hk. rewrite find_set by apply objlike_null. rewrite decide_False by done. apply find_null.
  - unfold no_id in Hm. simplify_eq. split_and!; [apply objlike_null|apply text_null|by rewrite find_null|]. intros. apply find_null.
Qed.

#[local] Hint Resolve objlike_null objlike_set text_set text_int text_null : core.

(** Resolves the lookups in a value built by assignments. *)
Ltac lookups :=
  repeat first
    [ rewrite find_set by eauto | rewrite decide_True by done | rewrite decide_False by done
    | rewrite key_find by eauto | rewrite find_null | rewrite get_string
    | progress cbn [mbind outcome_bind from_option Datatypes.id present rpc_mid rpc_method rpc_data
                   resp_mid resp_data err_mid err_code err_text err_data] ].

(** The JSON value of a message reads back as the message. *)
Lemma json_of_message_read m : message_ok m -> message_text m -> exists data,
  json_of_message m = Ret data /\ json_text data
  /\ forall buf c, json_parse buf = Ret data -> read_line buf c = Ret (set_message m c).
Proof.
  destruct m as [[i method d]|[i d]|[i code text d]]; simpl; intros Hok Ht.
  - destruct (json_start_ok i Hok) as (Ho & Hx & Hi & Hn). destruct Ht as [Hm Hd].
    eexists. split_and!; [done|by eauto|]. intros buf c E. unfold read_line. rewrite E. lookups.
    rewrite Hi. lookups. done.
  - destruct (json_start_ok i Hok) as (Ho & Hx & Hi & Hn).
    eexists. split_and!; [done|by eauto|]. intros buf c E. unfold read_line. rewrite E. lookups.
    rewrite (Hn "method"), (Hn "error") by done. lookups. rewrite Hi. lookups. done.
  - destruct Hok as [Hok Hc]. destruct (json_start_ok i Hok) as (Ho & Hx & Hi & Hn). destruct Ht as [Hm Hd].
    unfold json_of_error, json_set2. lookups. rewrite (Hn "error") by done. lookups.
    eexists. split_and!; [done|by eauto 10|]. intros buf c E. unfold read_line. rewrite E. lookups.
    rewrite (Hn "method") by done. lookups. rewrite Hi. lookups. unfold get_int32. lookups. rewrite get_int by lia. lookups.
    by rewrite wraps_small.
Qed.

Lemma read_first_id_ok i l : id_ok i -> read_first_id (json_array (get_id_json i :: l)) = Ret i.
Proof.
  intros Hi. unfold read_first_id. rewrite (index_array _ _ (get_id_json i)) by done. simpl.
  unfold read_id, get_id_json, id_ok in *. destruct i as [[] i]; simpl in *.
  - by rewrite int_is_number, get_int by done.
  - by rewrite null_not_number, Hi.
Qed.

(** Reads the cells of a literal array. *)
Ltac cells :=
  repeat (cbn [mbind outcome_bind]; first
    [ erewrite (index_array _ 1) by reflexivity | erewrite (index_array _ 2) by reflexivity
    | erewrite (index_array _ 3) by reflexivity | rewrite get_string ]);
  cbn [mbind outcome_bind].

(** The CBOR value of a message reads back as the message. *)
Lemma cbor_of_message_read m vbuf v c : message_ok m ->
  Varint.decode_unsigned (vbuf ++ json_to_cbor (cbor_of_message m)) (length (vbuf ++ json_to_cbor (cbor_of_message m)))
    = Ret (v, length vbuf) ->
  read_cbor (vbuf ++ json_to_cbor (cbor_of_message m)) c = Ret (set_message m c).
Proof.
  intros Hok D. unfold read_cbor. rewrite D. cbn [lift_std mbind outcome_bind].
  rewrite drop_app_length, cbor_roundtrip. cbn [mbind outcome_bind].
  destruct m as [[i method d]|[i d]|[i code text d]]; simpl in Hok;
    cbn [cbor_of_message rpc_mid rpc_method rpc_data resp_mid resp_data err_mid err_code err_text err_data];
    rewrite !size_array; cbn [length].
  - rewrite decide_True, read_first_id_ok by done. by cells.
  - rewrite decide_False, decide_True, read_first_id_ok by done. by cells.
  - destruct Hok as [Hok Hc]. rewrite !decide_False, read_first_id_ok by done. unfold get_int32. cells.
    rewrite get_int by lia. cells. by rewrite wraps_small by done.
Qed.

(** What a peer writes for a message, and that it is received as that message. *)
Definition delivers (e : encoding) (m : message) (frame : bytes) : Prop :=
  (frame ≠ []) /\
  (forall rest, check_read_message_complete e (frame ++ rest) 0 = Ret (Some (length frame))) /\
  (forall c, read_message e frame c = Ret (set_message m c)).

Lemma send_message_delivers e max m :
  message_ok m -> (e = enc_json -> message_text m) ->
  (e = enc_json_cbor -> Z.of_nat (length (json_to_cbor (cbor_of_message m))) < 2 ^ 31) ->
  match send_message e max m with
  | Ret bufs => delivers e m (concat bufs) /\ (e = enc_json -> (length (concat bufs) <= max)%nat)
  | Throw x => e = enc_json /\ x = std_exception (runtime_error "Message is too big")
  | _ => False
  end.
Proof.
  intros Hok Ht Hlen. unfold send_message. destruct e.
  - destruct (json_of_message_read m Hok (Ht eq_refl)) as (data & -> & Hd & Hr).
    destruct (dump_text data Hd) as (s & E & Hnl & Hnul & Hp). cbn [mbind outcome_bind].
    unfold send_json_line. rewrite E. cbn [mbind outcome_bind]. case_decide; [done|].
    cbn [concat app]. split; [|intros _; rewrite length_app; simpl; lia].
    split_and!; [by destruct s|..].
    + intros rest. simpl. rewrite check_line_0, line_end_app, line_end_app.
      rewrite (proj2 (line_end_None s)); [by rewrite length_app|].
      apply Forall_forall. intros c Hc [->| ->]; by apply list_elem_of_In in Hc.
    + intros c. simpl. by apply Hr.
  - set (buf := json_to_cbor (cbor_of_message m)) in *. unfold send_cbor. cbv zeta. fold buf.
    specialize (Hlen eq_refl). destruct (Varint.encode_decode (Z.of_nat (length buf)) [] ltac:(lia)) as (v & E & _).
    assert (length v <= 10)%nat.
    { rewrite Varint.encode_unsigned_leb128 in E by lia. assert (v = Varint.leb128 10 (Z.of_nat (length buf))) as -> by congruence.
      apply (Varint.leb128_length 10 _ 10). change (128 ^ Z.of_nat 10) with (2 ^ 70). lia. }
    assert (forall rest, Varint.try_decode_unsigned (v ++ rest) (length (v ++ rest)) = Ret (Some (Z.of_nat (length buf), length v))) as D.
    { intros rest. destruct (Varint.encode_decode (Z.of_nat (length buf)) rest ltac:(lia)) as (v' & E' & D & _).
      rewrite E in E'. by simplify_eq. }
    rewrite E. cbn [lift_std mbind outcome_bind concat]. rewrite app_nil_r. split; [|done]. split_and!.
    + specialize (D []). rewrite app_nil_r in D. intros N. by destruct v; [|discriminate N].
    + intros rest. simpl. unfold check_cbor. rewrite <- app_assoc, D. cbn [lift_std mbind outcome_bind].
      rewrite wrapu_small by lia. rewrite decide_True by (rewrite !length_app; lia).
      do 2 f_equal. rewrite length_app. lia.
    + intros c. simpl. apply cbor_of_message_read with (Z.of_nat (length buf)); [done|]. fold buf.
      unfold Varint.decode_unsigned. by rewrite D.
Qed.

End laws.
End Ipc.
Arguments rpc_message json : clear implicits.
Arguments response_message json : clear implicits.
Arguments error_message json : clear implicits.
Arguments message_container json : clear implicits.
Arguments message json : clear implicits.
End Ipc.
