(* ===== verification/IpcConnection.v ===== *)
(** * The receiving side of an IPC connection (simple-ipc/src/common/connection_internal.cpp, .h)

    The buffer of a connection, the loop that reads from the socket, cuts the bytes
    into messages and hands them to the connection's handler, and the theorems that
    relate the loop, however the socket splits the stream, to a specification on the
    stream of bytes. *)

From S2P Require Import Prelude Varint Json IpcMessage.
From Stdlib Require Import ZArith Ascii Lia.
From stdpp Require Import base list gmap strings numbers.

Module Connection.
Import Ipc.
Section Connection.
Context {json : Type} `{Json json}.
Notation result := (outcome (jexn json)).
Notation check := (check_read_message_complete (json := json)).

Definition BUFFER_SIZE : nat := 1024 * 16.
Definition MAX_BUFFER_SIZE : nat := 1024 * 512.

(** ** connection_handler.h

    A handler runs on the state [W] of its owner.  It sees the connection it is
    called for through the encoding of that connection, which it may replace, and
    what it sends is part of [W]. *)
Record connection_handler (W : Type) := mkHandler {
  connection_closed : W * encoding -> result (W * encoding);
  handle_message_parse_error : W * encoding -> jexn json -> (Z * bytes * json) -> result (W * encoding);
  handle_rpc : W * encoding -> rpc_message json -> result (W * encoding);
  handle_response : W * encoding -> response_message json -> result (W * encoding);
  handle_error : W * encoding -> error_message json -> result (W * encoding)
}.
Arguments connection_closed {W}.
Arguments handle_message_parse_error {W}.
Arguments handle_rpc {W}.
Arguments handle_response {W}.
Arguments handle_error {W}.

Definition unsupported : jexn json := std_exception (runtime_error "Unsupported message").

(** The virtual functions a handler inherits. *)
Definition default_handler (W : Type) : connection_handler W := {|
  connection_closed w := Ret w;
  handle_message_parse_error _ ex_ptr _ := Throw ex_ptr;
  handle_rpc _ _ := Throw unsupported;
  handle_response _ _ := Throw unsupported;
  handle_error _ _ := Throw unsupported
|}.

(** ** connection_internal *)
Record connection := mkConnection {
  buffer : bytes;
  buffer_start_off : nat;
  buffer_off : nat;
  current_encoding : encoding;
  current_message : message_container json
}.

Definition connection0 : connection :=
  mkConnection (repeat NUL BUFFER_SIZE) 0 0 default_encoding container0.

Definition set_encoding (e : encoding) (c : connection) : connection :=
  mkConnection (buffer c) (buffer_start_off c) (buffer_off c) e (current_message c).
Definition set_current (m : message_container json) (c : connection) : connection :=
  mkConnection (buffer c) (buffer_start_off c) (buffer_off c) (current_encoding c) m.
Definition set_start (n : nat) (c : connection) : connection :=
  mkConnection (buffer c) n (buffer_off c) (current_encoding c) (current_message c).
Definition set_buffer (b : bytes) (start off : nat) (c : connection) : connection :=
  mkConnection b start off (current_encoding c) (current_message c).

(** The bytes between [buffer_start_off] and [buffer_off]. *)
Definition pending (c : connection) : bytes :=
  take (buffer_off c - buffer_start_off c) (drop (buffer_start_off c) (buffer c)).

(** What the handler is told of an exception of [read_message]. *)
Definition as_rpc (e : jexn json) : Z * bytes * json :=
  match e with
  | rpc_call_exception code text data => (code, text, data)
  | json_parse_error => (rpc_error_codes.parse_error, rpc_error_codes.to_string rpc_error_codes.parse_error, json_null)
  | json_exception => (rpc_error_codes.invalid_request, rpc_error_codes.to_string rpc_error_codes.invalid_request, json_null)
  | std_exception _ => (rpc_error_codes.internal_error, rpc_error_codes.to_string rpc_error_codes.internal_error, json_null)
  end.

(** The socket: the segments that [read] will return.  A segment that does not fit
    is returned in parts; no segment left is [EAGAIN]. *)
Definition read_data (datalen : nat) (sock : list bytes) : option bytes * list bytes :=
  match sock with
  | [] => (None, [])
  | seg :: sock =>
      if decide (length seg <= datalen) then (Some seg, sock)
      else (Some (take datalen seg), drop datalen seg :: sock)
  end.

Section handler.
Context {W : Type} (handler : connection_handler W).

(** What [memcpy] does on ranges that overlap is not defined by the standard; [true]
    is a platform on which it moves the bytes all the same. *)
Context (memcpy_moves : bool).

Definition on_message (w : W * encoding) (msg : message_container json) : result (W * encoding) :=
  match mtype msg with
  | type_rpc => handle_rpc handler w (message_rpc msg)
  | type_response => handle_response handler w (message_response msg)
  | type_error => handle_error handler w (message_error msg)
  | type_none => Throw (std_exception (runtime_error "Invalid message type"))
  end.

(** One message: [read_message] in its [try] block, the call of the handler, and
    [current_message.clear()]. *)
Definition dispatch (frame : bytes) (c : connection) (w : W) : result (connection * W) :=
  match read_message (current_encoding c) frame (current_message c) with
  | Ret msg =>
      '(w, e) ← on_message (w, current_encoding c) msg;
      Ret (set_encoding e (set_current (clear msg) c), w)
  | Throw ex =>
      '(w, e) ← handle_message_parse_error handler (w, current_encoding c) ex (as_rpc ex);
      Ret (set_encoding e (set_current (clear (current_message c)) c), w)
  | Undef => Undef
  | Diverge => Diverge
  end.

(** [while (buffer_off > buffer_start_off)]. *)
Fixpoint process_messages (fuel check_start : nat) (c : connection) (w : W) : result (connection * W) :=
  match fuel with
  | O => Diverge
  | S fuel =>
      if decide (buffer_start_off c < buffer_off c)%nat then
        r ← check_read_message_complete (current_encoding c) (pending c) (check_start - buffer_start_off c);
        match r with
        | None => Ret (c, w)
        | Some n =>
            '(c, w) ← dispatch (take n (pending c)) c w;
            let c := set_start (buffer_start_off c + n) c in
            process_messages fuel (buffer_start_off c) c w
        end
      else Ret (c, w)
  end.

(** Room for the next read: the buffer grows up to its limit, or its contents move
    to the front; [None] is a message that is too big. *)
Definition make_room (c : connection) : result (option connection) :=
  if decide (buffer_off c = length (buffer c)) then
    if decide (buffer_start_off c = 0%nat) then
      if decide (length (buffer c) < MAX_BUFFER_SIZE)%nat then
        let size := Nat.min (length (buffer c) * 2) MAX_BUFFER_SIZE in
        Ret (Some (set_buffer (buffer c ++ repeat NUL (size - length (buffer c))) 0 (buffer_off c) c))
      else Ret None
    else
      let n := (buffer_off c - buffer_start_off c)%nat in
      if memcpy_moves || bool_decide (n <= buffer_start_off c)%nat then
        Ret (Some (set_buffer (pending c ++ drop n (buffer c)) 0 n c))
      else Undef
  else Ret (Some c).

(** Stores what [read_data] returned at [buffer_off]. *)
Definition store (data : bytes) (c : connection) : connection :=
  set_buffer (take (buffer_off c) (buffer c) ++ data ++ drop (buffer_off c + length data) (buffer c))
    (buffer_start_off c) (buffer_off c + length data) c.

Fixpoint handle_data_available (fuel : nat) (c : connection) (w : W) (sock : list bytes) :
    result (connection * W * list bytes) :=
  match fuel with
  | O => Diverge
  | S fuel =>
      room ← make_room c;
      match room with
      | None => Ret (c, w, sock)
      | Some c =>
          match read_data (length (buffer c) - buffer_off c) sock with
          | ((None | Some []), sock) => Ret (c, w, sock)
          | (Some data, sock) =>
              let check_start := buffer_off c in
              '(c, w) ← process_messages (S fuel) check_start (store data c) w;
              handle_data_available fuel c w sock
          end
      end
  end.

(** ** Specification on the byte stream *)

(** One message of the stream, as the handler sees it. *)
Definition receive (frame : bytes) (w : W * encoding) : result (W * encoding) :=
  match read_message w.2 frame container0 with
  | Ret msg => on_message w msg
  | Throw ex => handle_message_parse_error handler w ex (as_rpc ex)
  | Undef => Undef
  | Diverge => Diverge
  end.

(** The size of the messages a connection accepts: the buffer's limit; where [memcpy]
    does not move overlapping ranges, half of the initial buffer. *)
Definition message_limit : nat := if memcpy_moves then MAX_BUFFER_SIZE else 1024 * 8.

(** [stream w p w' r]: a handler in state [w] that is given the bytes [p] message by
    message ends up in [w'], with the incomplete message [r] left over. *)
Inductive stream : W * encoding -> bytes -> W * encoding -> bytes -> Prop :=
| stream_end w r :
    check w.2 r 0 = Ret None -> (length r < message_limit)%nat ->
    stream w r w r
| stream_message w f w1 p w' r :
    check w.2 f 0 = Ret (Some (length f)) ->
    (0 < length f <= message_limit)%nat ->
    receive f w = Ret w1 -> stream w1 p w' r ->
    stream w (f ++ p) w' r.

(** ** Invariant *)
Definition conn_wf (c : connection) : Prop :=
  (buffer_start_off c <= buffer_off c <= length (buffer c))%nat /\
  (BUFFER_SIZE <= length (buffer c) <= MAX_BUFFER_SIZE)%nat.

Lemma buffer_sizes :
  (0 < message_limit <= MAX_BUFFER_SIZE)%nat /\ (0 < BUFFER_SIZE <= MAX_BUFFER_SIZE)%nat /\
  (memcpy_moves = false -> message_limit + message_limit <= BUFFER_SIZE)%nat.
Proof. unfold message_limit, MAX_BUFFER_SIZE, BUFFER_SIZE. destruct memcpy_moves; lia. Qed.

Lemma max_buffer_small : (Z.of_nat MAX_BUFFER_SIZE < 2 ^ 31)%Z.
Proof. unfold MAX_BUFFER_SIZE. lia. Qed.

#[local] Opaque message_limit BUFFER_SIZE MAX_BUFFER_SIZE.

Lemma connection0_wf : conn_wf connection0 /\ pending connection0 = [].
Proof.
  split; [|done]. pose proof buffer_sizes. unfold conn_wf. simpl. rewrite repeat_length. lia.
Qed.

Lemma pending_length c : conn_wf c -> length (pending c) = (buffer_off c - buffer_start_off c)%nat.
Proof. intros [? ?]. unfold pending. rewrite length_take, length_drop. lia. Qed.

(** Taking a message off the front. *)
Lemma pending_advance c f p : conn_wf c -> pending c = f ++ p ->
  conn_wf (set_start (buffer_start_off c + length f) c) /\
  pending (set_start (buffer_start_off c + length f) c) = p.
Proof.
  intros Hwf E. pose proof (pending_length c Hwf) as L. rewrite E, length_app in L.
  destruct Hwf as [? ?]. split; [split; simpl; lia|]. unfold pending in *. simpl.
  rewrite <- drop_drop, Nat.sub_add_distr. by rewrite <- skipn_firstn_comm, E, drop_app_length.
Qed.

Lemma dispatch_receive f c w w' e' :
  receive f (w, current_encoding c) = Ret (w', e') ->
  exists cur, dispatch f c w = Ret (set_encoding e' (set_current cur c), w').
Proof.
  unfold receive, dispatch. cbn [snd].
  pose proof (read_message_container (current_encoding c) f container0 (current_message c)) as Hc.
  destruct (read_message _ f container0) as [x| | |], (read_message _ f (current_message c)) as [y| | |]; try done.
  - destruct Hc as (m & -> & ->). intros E.
    assert (on_message (w, current_encoding c) (set_message m (current_message c)) = Ret (w', e')) as ->
      by (by destruct m). by eexists.
  - subst. intros ->. by eexists.
Qed.

Lemma make_room_ok c : conn_wf c -> (length (pending c) < message_limit)%nat ->
  exists c1, make_room c = Ret (Some c1) /\ conn_wf c1 /\ pending c1 = pending c
    /\ current_encoding c1 = current_encoding c /\ (buffer_off c1 < length (buffer c1))%nat.
Proof.
  intros Hwf Hp. pose proof buffer_sizes as (Hl & Hb & Hm). pose proof (pending_length c Hwf) as L.
  pose proof Hwf as [Ho Hs]. unfold make_room. case_decide as Hoff; [|exists c; split_and!; [done..|lia]].
  case_decide as H0.
  - rewrite decide_True by lia. eexists. split; [done|]. unfold conn_wf. simpl.
    rewrite length_app, repeat_length. split_and!; try lia; try done.
    unfold pending. simpl. rewrite H0, !drop_0, take_app_le by lia. done.
  - assert (memcpy_moves || bool_decide (buffer_off c - buffer_start_off c <= buffer_start_off c)%nat = true) as ->.
    { destruct memcpy_moves; [done|]. apply bool_decide_eq_true_2. specialize (Hm eq_refl). lia. }
    eexists. split; [done|]. unfold conn_wf. simpl. rewrite length_app, length_drop, L.
    split_and!; try lia; try done. unfold pending at 1. simpl.
    by rewrite drop_0, take_app_le, take_ge by lia.
Qed.

Lemma store_ok data c : conn_wf c -> (buffer_off c + length data <= length (buffer c))%nat ->
  conn_wf (store data c) /\ pending (store data c) = pending c ++ data.
Proof.
  intros [Ho Hs] Hd. split.
  - unfold conn_wf. simpl. rewrite !length_app, length_take, length_drop. lia.
  - unfold pending. simpl. rewrite drop_app_le by (rewrite length_take; lia).
    rewrite skipn_firstn_comm, take_app, length_take, length_drop.
    replace (_ `min` _)%nat with (buffer_off c - buffer_start_off c)%nat by lia.
    rewrite take_app_le by lia. rewrite (take_ge data) by lia. f_equal. by rewrite take_take, Nat.min_r by lia.
Qed.

(** An incomplete message at the front of a stream is below the limit. *)
Lemma stream_incomplete w p q w' r :
  check w.2 p 0 = Ret None -> stream w (p ++ q) w' r -> (length p < message_limit)%nat.
Proof.
  intros Hc Hs. remember (p ++ q) as s eqn:E.
  destruct Hs as [w s Hn Hl|w f w1 p' w' r Hf Hl Hr Hs].
  { subst. rewrite length_app in Hl. lia. }
  destruct (decide (length p < length f)%nat); [lia|].
  apply app_eq_inv in E as [(k & -> & ->)|(k & -> & ->)].
  - rewrite length_app in *. assert (k = []) as -> by (destruct k; [done|simpl in *; lia]).
    rewrite app_nil_r in Hf. rewrite Hc in Hf. discriminate Hf.
  - destruct (check_complete _ _ _ Hf) as [_ Hk]. rewrite Hk in Hc. discriminate Hc.
Qed.

(** The buffered front [p] of a stream is incomplete or starts with a message. *)
Lemma stream_front w p q w' r : stream w (p ++ q) w' r ->
  check w.2 p 0 = Ret None \/
  exists f p1 w1, p = f ++ p1 /\ check w.2 p 0 = Ret (Some (length f)) /\ (0 < length f)%nat
    /\ receive f w = Ret w1 /\ stream w1 (p1 ++ q) w' r.
Proof.
  intros Hs. remember (p ++ q) as s eqn:E. destruct Hs as [w s Hn _|w f w1 p' w' r Hf Hl Hr Hs]; subst.
  { left. by destruct (check_prefix _ _ _ _ Hn). }
  destruct (check_complete _ _ _ Hf) as [_ Hk].
  destruct (check_prefix w.2 p q (Some (length f)) ltac:(by rewrite <- E)) as [Hn|Hn]; [by left|]. right.
  apply check_complete in Hn as [Hle _].
  assert (exists k, p = f ++ k /\ p' = k ++ q) as (k & -> & ->).
  { apply app_eq_inv in E as [(k & Ek & ->)|(k & -> & ->)]; [|by eauto].
    assert (k = []) as -> by (apply nil_length_inv; apply (f_equal length) in Ek; rewrite length_app in Ek; lia).
    exists []. by rewrite !app_nil_r in *. }
  exists f, k, w1. naive_solver lia.
Qed.

Lemma stream_end_inv w p w' r : check w.2 p 0 = Ret None -> stream w p w' r -> w' = w /\ r = p.
Proof.
  intros Hc Hs. destruct Hs as [w r _ _|w f w1 p' w' r Hf _ _ _]; [done|].
  destruct (check_complete _ _ _ Hf) as [_ Hk]. rewrite Hk in Hc. discriminate Hc.
Qed.

(** The inner loop delivers the complete messages of the buffer and stops at the
    incomplete one. *)
Lemma process_messages_stream fuel : forall cs c w q w' r,
  conn_wf c -> (length (pending c) < fuel)%nat ->
  check (current_encoding c) (pending c) (cs - buffer_start_off c) = check (current_encoding c) (pending c) 0 ->
  stream (w, current_encoding c) (pending c ++ q) w' r ->
  exists c1 w1, process_messages fuel cs c w = Ret (c1, w1) /\ conn_wf c1
    /\ (length (pending c1) <= length (pending c))%nat
    /\ check (current_encoding c1) (pending c1) 0 = Ret None
    /\ stream (w1, current_encoding c1) (pending c1 ++ q) w' r.
Proof.
  induction fuel as [|fuel IH]; intros cs c w q w' r Hwf Hfuel Hcs Hs; [lia|].
  pose proof (pending_length c Hwf) as L. cbn [process_messages]. case_decide as Hne.
  2: { assert (pending c = []) as E by (apply nil_length_inv; lia).
       exists c, w. split_and!; try done. rewrite E. by destruct (current_encoding c). }
  destruct (stream_front _ _ _ _ _ Hs) as [Hn|(f & p & [w1 e1] & Ep & Hf & Hl & Hr & Hs1)]; cbn [snd] in *.
  { exists c, w. rewrite Hcs, Hn. by split_and!. }
  rewrite Hcs, Hf. cbn [mbind outcome_bind]. rewrite Ep, take_app_length.
  destruct (dispatch_receive _ _ _ _ _ Hr) as [cur ->]. cbn [mbind outcome_bind]. cbv beta iota zeta.
  set (c1 := set_encoding e1 (set_current cur c)).
  destruct (pending_advance c1 f p Hwf Ep) as [Hwf2 E2].
  edestruct (IH (buffer_start_off (set_start (buffer_start_off c1 + length f) c1))
    (set_start (buffer_start_off c1 + length f) c1)) as (c3 & w3 & ? & ? & ? & ? & ?);
    [done|..|exists c3, w3; split_and!; try done].
  - rewrite E2. rewrite Ep, length_app in Hfuel. lia.
  - by rewrite Nat.sub_diag.
  - by rewrite E2.
  - rewrite E2 in *. rewrite length_app. lia.
Qed.

Lemma read_data_spec n sock : (0 < n)%nat -> Forall (fun seg => seg ≠ []) sock ->
  match read_data n sock with
  | (None, sock') => concat sock = [] /\ sock' = []
  | (Some data, sock') => data ≠ [] /\ (length data <= n)%nat /\ concat sock = data ++ concat sock'
      /\ Forall (fun seg => seg ≠ []) sock'
  end.
Proof.
  intros Hn Hf. unfold read_data. destruct sock as [|seg sock]; [done|].
  apply Forall_cons_iff in Hf as [Hseg Hf]. case_decide as Hl; simpl; [done|].
  split_and!; [|rewrite length_take; lia|by rewrite app_assoc, take_drop|].
  - destruct seg; [done|]. by destruct n; [lia|].
  - apply Forall_cons_iff. split; [|done]. intros E. apply (f_equal length) in E. rewrite length_drop in E. simpl in E. lia.
Qed.

(** The loop implements the specification for any segmentation of the stream. *)
Lemma handle_data_available_stream fuel : forall c w sock w' r,
  conn_wf c -> Forall (fun seg => seg ≠ []) sock ->
  check (current_encoding c) (pending c) 0 = Ret None ->
  stream (w, current_encoding c) (pending c ++ concat sock) w' r ->
  (length (pending c) + 2 * length (concat sock) < fuel)%nat ->
  exists c', handle_data_available fuel c w sock = Ret (c', w'.1, [])
    /\ conn_wf c' /\ current_encoding c' = w'.2 /\ pending c' = r
    /\ check (current_encoding c') (pending c') 0 = Ret None.
Proof.
  induction fuel as [|fuel IH]; intros c w sock w' r Hwf Hsock Hc Hs Hfuel; [lia|].
  destruct (make_room_ok c Hwf) as (c1 & E1 & Hwf1 & Ep1 & Ee1 & Hroom); [by apply (stream_incomplete (w, current_encoding c) _ _ _ _ Hc Hs)|].
  cbn [handle_data_available]. rewrite E1. cbn [mbind outcome_bind].
  pose proof (read_data_spec (length (buffer c1) - buffer_off c1) sock ltac:(lia) Hsock) as Hr.
  destruct (read_data _ sock) as [[data|] sock'].
  2: { destruct Hr as [Hnil ->]. rewrite Hnil, app_nil_r in Hs.
       destruct (stream_end_inv (w, current_encoding c) _ _ _ Hc Hs) as [-> ->]. exists c1. by rewrite Ep1, Ee1. }
  destruct Hr as (Hne & Hlen & Econ & Hsock'). destruct data as [|d data]; [done|].
  destruct (store_ok (d :: data) c1 Hwf1) as [Hwf2 Ep2]; [lia|].
  rewrite Econ, app_assoc, <- Ep1, <- Ep2, <- Ee1 in Hs. rewrite Econ, length_app, <- Ep1 in Hfuel.
  destruct (process_messages_stream (S fuel) (buffer_off c1) (store (d :: data) c1) w (concat sock') w' r)
    as (c3 & w3 & E3 & Hwf3 & Hl3 & Hc3 & Hs3); [done|..].
  - rewrite Ep2, length_app. simpl in *. lia.
  - rewrite Ep2. cbn [buffer_start_off store set_buffer current_encoding].
    rewrite <- (pending_length c1) by done. apply check_skip. by rewrite Ep1, Ee1.
  - done.
  - rewrite E3. cbn [mbind outcome_bind]. cbv beta iota. apply (IH c3 w3); try done.
    rewrite Ep2, length_app in Hl3. simpl in *. lia.
Qed.

(** C4. Refinement: whatever segments the socket delivers a stream of bytes in, and
    whatever of it is buffered already, [handle_data_available] returns, has run the
    handler on exactly the messages of the stream in their order, each read with the
    encoding that the handler had set by then, and keeps the incomplete rest. *)
Theorem handle_data_available_refines (c : connection) (w : W) (sock : list bytes) (w' : W * encoding)
    (r : bytes) (fuel : nat) (Hwf : conn_wf c) (Hsock : Forall (fun seg => seg ≠ []) sock)
    (Hc : check (current_encoding c) (pending c) 0 = Ret None)
    (Hs : stream (w, current_encoding c) (pending c ++ concat sock) w' r)
    (Hfuel : (length (pending c) + 2 * length (concat sock) < fuel)%nat) :
  exists c', handle_data_available fuel c w sock = Ret (c', w'.1, [])
    /\ conn_wf c' /\ current_encoding c' = w'.2 /\ pending c' = r.
Proof.
  destruct (handle_data_available_stream fuel c w sock w' r) as (c' & ? & ? & ? & ? & _); eauto.
Qed.

(** ** What a peer sends is what the handler receives *)

Definition handle_message (m : message json) (w : W * encoding) : result (W * encoding) :=
  match m with
  | Rpc m => handle_rpc handler w m
  | Response m => handle_response handler w m
  | Error m => handle_error handler w m
  end.

(** [exchange w ms bufs w']: a peer that sends [ms], each with the encoding that the
    receiver has by then, writes [bufs]; the receiver's handler takes [w] to [w']. *)
Inductive exchange `{!JsonLaws json} : W * encoding -> list (message json) -> list bytes -> W * encoding -> Prop :=
| exchange_nil w : exchange w [] [] w
| exchange_cons w m ms bufs bufs' w1 w' :
    message_ok m -> (w.2 = enc_json -> message_text m) ->
    send_message w.2 MAX_BUFFER_SIZE m = Ret bufs -> (length (concat bufs) <= message_limit)%nat ->
    handle_message m w = Ret w1 -> exchange w1 ms bufs' w' ->
    exchange w (m :: ms) (bufs ++ bufs') w'.

Lemma send_message_frame `{!JsonLaws json} e m bufs :
  message_ok m -> (e = enc_json -> message_text m) -> send_message e MAX_BUFFER_SIZE m = Ret bufs ->
  (length (concat bufs) <= message_limit)%nat -> delivers e m (concat bufs).
Proof.
  intros Hok Ht Hsend Hl. pose proof (send_message_delivers e MAX_BUFFER_SIZE m Hok Ht) as Hd.
  rewrite Hsend in Hd. apply Hd. intros ->. simpl in Hsend. unfold send_cbor in Hsend.
  apply bind_ret_inv in Hsend as (v & _ & [= <-]). cbn [concat] in Hl. rewrite app_nil_r, length_app in Hl.
  pose proof buffer_sizes as [[_ Hm] _]. pose proof max_buffer_small. lia.
Qed.

Lemma exchange_stream `{!JsonLaws json} w ms bufs w' : exchange w ms bufs w' -> stream w (concat bufs) w' [].
Proof.
  pose proof buffer_sizes as [Hlim _]. induction 1 as [w|w m ms bufs bufs' w1 w' Hok Ht Hsend Hl Hh _ IH].
  { apply stream_end; [by destruct w as [? []]|simpl; lia]. }
  destruct (send_message_frame w.2 m bufs Hok Ht Hsend Hl) as (Hne & Hc & Hr).
  rewrite concat_app. apply stream_message with w1; [|split; [|done]| |done].
  - by rewrite <- (Hc []), app_nil_r.
  - destruct (concat bufs); [done|simpl; lia].
  - unfold receive. rewrite Hr. by destruct m.
Qed.

(** C1. Delivery: the messages a peer sends on a fresh connection, whatever segments
    they arrive in, are handed to the receiver's handler one by one, in order and
    unchanged, and nothing is left in the buffer; this includes encodings that the
    handler switches between two messages. *)
Theorem messages_delivered `{!JsonLaws json} (w : W) (ms : list (message json)) (bufs sock : list bytes)
    (w' : W) (e' : encoding) (fuel : nat)
    (Hx : exchange (w, default_encoding) ms bufs (w', e'))
    (Hsock : Forall (fun seg => seg ≠ []) sock) (Hcat : concat sock = concat bufs)
    (Hfuel : (2 * length (concat sock) < fuel)%nat) :
  exists c', handle_data_available fuel connection0 w sock = Ret (c', w', [])
    /\ conn_wf c' /\ current_encoding c' = e' /\ pending c' = [].
Proof.
  destruct connection0_wf as [Hwf E].
  destruct (handle_data_available_stream fuel connection0 w sock (w', e') []) as (c' & ? & ? & ? & ? & _); eauto.
  rewrite E, Hcat. by apply exchange_stream in Hx.
Qed.

(** A CBOR frame whose length field makes the total wrap around to zero is never
    consumed: with a handler that survives parse errors the loop does not terminate,
    whatever follows the five bytes. *)
Theorem zero_length_frame_diverges (fuel : nat) (c : connection) (w : W) (rest : bytes)
    (Hh : forall w ex info, exists w1, handle_message_parse_error handler (w, enc_json_cbor) ex info = Ret (w1, enc_json_cbor))
    (Hwf : conn_wf c) (He : current_encoding c = enc_json_cbor)
    (Hp : pending c = map to_char [251; 255; 255; 255; 15]%Z ++ rest) :
  process_messages fuel (buffer_start_off c) c w = Diverge.
Proof.
  revert c w Hwf He Hp. induction fuel as [|fuel IH]; intros c w Hwf He Hp; [done|].
  pose proof (pending_length c Hwf) as L. rewrite Hp, length_app in L. simpl in L.
  cbn [process_messages]. rewrite decide_True by lia. rewrite He, Hp.
  assert (check enc_json_cbor (map to_char [251; 255; 255; 255; 15]%Z ++ rest)
    (buffer_start_off c - buffer_start_off c) = Ret (Some 0%nat)) as ->.
  { unfold check_read_message_complete, check_cbor. by rewrite (Varint.try_decode_unsigned_app _ rest ((2 ^ 64 - 5)%Z, 5%nat)) by done. }
  cbn [mbind outcome_bind take]. unfold dispatch. rewrite He.
  replace (read_message enc_json_cbor [] (current_message c)) with
    (Throw (A := message_container json) (std_exception (json := json) (runtime_error "Invalid varint"))) by done.
  edestruct Hh as [w1 ->]. cbn [mbind outcome_bind]. cbv beta iota zeta. rewrite Nat.add_0_r. by apply IH.
Qed.

End handler.
End Connection.
Arguments connection_handler json W : clear implicits.
Arguments connection_closed {json W} _ _.
Arguments handle_message_parse_error {json W} _ _ _ _.
Arguments handle_rpc {json W} _ _ _.
Arguments handle_response {json W} _ _ _.
Arguments handle_error {json W} _ _ _.
Arguments connection json : clear implicits.
Arguments connection0 {json _}.

(** ** A connection whose handler keeps a log *)

Definition log_handler : connection_handler TreeJson (list (message TreeJson)) := {|
  connection_closed w := Ret w;
  handle_message_parse_error w _ _ := Ret w;
  handle_rpc w m := Ret (w.1 ++ [Rpc m], w.2);
  handle_response w m := Ret (w.1 ++ [Response m], w.2);
  handle_error w m := Ret (w.1 ++ [Error m], w.2)
|}.

Definition ping : message TreeJson := Rpc (mkRpc (with_id 1) (lit "a") TNull).
Definition pong : message TreeJson := Response (mkResponse (with_id 1) (TInt 7)).

Definition frame_of (e : encoding) (m : message TreeJson) : bytes :=
  match send_message e MAX_BUFFER_SIZE m with Ret bufs => concat bufs | _ => [] end.
Definition bufs_of (e : encoding) (m : message TreeJson) : list bytes :=
  match send_message e MAX_BUFFER_SIZE m with Ret bufs => bufs | _ => [] end.

(** The two frames, cut in the middle of the first. *)
Definition segments : list bytes :=
  [take 3 (frame_of enc_json ping); drop 3 (frame_of enc_json ping) ++ frame_of enc_json pong].

Lemma segments_nonempty : Forall (fun seg => seg ≠ []) segments.
Proof.
  assert (forallb (fun seg => negb (length seg =? 0)%nat) segments = true) as E by (by vm_compute).
  apply Forall_forall. intros seg Hs ->. rewrite forallb_forall in E. by specialize (E _ Hs).
Qed.

Lemma ping_pong_exchange mm :
  exchange log_handler mm ([], enc_json) [ping; pong]
    (bufs_of enc_json ping ++ bufs_of enc_json pong ++ []) ([ping; pong], enc_json).
Proof.
  apply exchange_cons with ([ping], enc_json); [by vm_compute|done|by vm_compute| |done|].
  { apply Nat.leb_le. by destruct mm; vm_compute. }
  apply exchange_cons with ([ping; pong], enc_json); [by vm_compute|done|by vm_compute| |done|constructor].
  apply Nat.leb_le. by destruct mm; vm_compute.
Qed.

Lemma messages_delivered_witness :
  exists c', handle_data_available log_handler false (S (2 * length (concat segments))) connection0 [] segments
      = Ret (c', [ping; pong], [])
    /\ conn_wf c' /\ current_encoding c' = enc_json /\ pending c' = [].
Proof.
  apply (messages_delivered log_handler false [] [ping; pong] (bufs_of enc_json ping ++ bufs_of enc_json pong ++ [])).
  - apply ping_pong_exchange.
  - apply segments_nonempty.
  - by vm_compute.
  - lia.
Defined.

Lemma handle_data_available_refines_witness :
  exists c', handle_data_available log_handler false (S (2 * length (concat segments))) connection0 [] segments
      = Ret (c', [ping; pong], [])
    /\ conn_wf c' /\ current_encoding c' = enc_json /\ pending c' = [].
Proof.
  apply (handle_data_available_refines log_handler false connection0 [] segments ([ping; pong], enc_json)).
  - apply (connection0_wf false).
  - apply segments_nonempty.
  - by vm_compute.
  - replace (pending connection0 ++ concat segments) with (concat (bufs_of enc_json ping ++ bufs_of enc_json pong ++ []))
      by (by vm_compute).
    exact (exchange_stream _ _ _ _ _ _ (ping_pong_exchange false)).
  - replace (length (pending connection0)) with 0%nat by (by vm_compute). lia.
Defined.

(** A CBOR connection whose buffer starts with the five bytes. *)
Definition poisoned : connection TreeJson :=
  store (map to_char [251; 255; 255; 255; 15]%Z) (set_encoding enc_json_cbor connection0).

Lemma zero_length_frame_diverges_witness :
  conn_wf poisoned /\ process_messages log_handler 100 0 poisoned [] = Diverge.
Proof.
  assert (conn_wf poisoned) as Hwf by (apply store_ok; [apply (connection0_wf false)|apply Nat.leb_le; by vm_compute]).
  split; [exact Hwf|]. apply (zero_length_frame_diverges log_handler 100 poisoned [] []); try done.
  intros w ex info. by eexists.
Defined.

End Connection.
