(* ===== verification/IpcEndpoint.v ===== *)
(** * Results, and the sending side of a connection (simple-ipc)

    [rpc_json_result], the programs that the service and the client run when a
    message arrives, and [unix_connection::send_data] with the encodings' sending
    functions on top of it. *)

From S2P Require Import Prelude Varint Json IpcMessage IpcConnection.
From Stdlib Require Import ZArith Ascii Lia.
From stdpp Require Import base list gmap strings numbers.

(** ** rpc_result.h *)
Module RpcResult.
Section RpcResult.
Context {json : Type} `{Json json}.

Record rpc_json_result := mkResult {
  error_code : Z;
  error_text : bytes;
  error_data : json;
  data : json
}.

Definition response (d : json) : rpc_json_result :=
  mkResult rpc_error_codes.success [] json_null d.
Definition error (code : Z) (text : bytes) (d : json) : rpc_json_result :=
  mkResult code text d json_null.
(** [error(code, rpc_error_codes::to_string)]. *)
Definition error_tr (code : Z) : rpc_json_result :=
  error code (rpc_error_codes.to_string code) json_null.
Definition success (r : rpc_json_result) : bool :=
  bool_decide (error_code r = rpc_error_codes.success).

End RpcResult.
Arguments rpc_json_result json : clear implicits.
End RpcResult.

(** ** Programs on a state [S]; an exception keeps the state it was thrown in *)
Section prog.
Context {json : Type} {S : Type}.

Definition prog (A : Type) : Type := S -> outcome (S * jexn json) (S * A).

#[global] Instance prog_ret : MRet prog := fun A a s => Ret (s, a).
#[global] Instance prog_bind : MBind prog := fun A B f p s =>
  match p s with
  | Ret (s, a) => f a s
  | Throw e => Throw e
  | Undef => Undef
  | Diverge => Diverge
  end.

Definition throw {A} (e : jexn json) : prog A := fun s => Throw (s, e).
Definition modify (f : S -> S) : prog unit := fun s => Ret (f s, ()).
Definition get : prog S := fun s => Ret (s, s).
Definition lift {A} (o : outcome (jexn json) A) : prog A := fun s =>
  match o with
  | Ret a => Ret (s, a)
  | Throw e => Throw (s, e)
  | Undef => Undef
  | Diverge => Diverge
  end.
Definition try_catch {A} (p : prog A) (h : jexn json -> prog A) : prog A := fun s =>
  match p s with
  | Throw (s, e) => h e s
  | o => o
  end.

(** A program as a handler function: the exception leaves the receiving loop. *)
Definition run_handler (p : prog unit) (s : S) : outcome (jexn json) S :=
  match p s with
  | Ret (s, _) => Ret s
  | Throw (_, e) => Throw e
  | Undef => Undef
  | Diverge => Diverge
  end.

End prog.
Arguments prog json S A : clear implicits.

(** ** Sending *)
Module Endpoint.
Import Ipc Connection.
Section Endpoint.
Context {json : Type} `{Json json} {A : Type}.

(** The sending side of a connection: what the peer can read, the bytes the socket,
    which does not block, takes before [write] fails, and whether the connection
    object still exists. *)
Record out := mkOut { sent : bytes; capacity : nat; alive : bool }.

Definition state : Type := (out * A) * encoding.
Notation prog := (prog json state).

(** unix_connection::send_data: what did not fit is lost. *)
Definition send_data (d : bytes) : prog unit := fun s =>
  let '(o, a, e) := s in
  let n := Nat.min (length d) (capacity o) in
  let s := (mkOut (sent o ++ take n d) (capacity o - n) (alive o), a, e) in
  if decide (n = length d) then Ret (s, ()) else Throw (s, std_exception (runtime_error "write() failed")).

Fixpoint send_all (bufs : list bytes) : prog unit :=
  match bufs with
  | [] => mret ()
  | d :: bufs => send_data d ≫= fun _ => send_all bufs
  end.

(** connection_internal::send_message. *)
Definition conn_send_message (m : message json) : prog unit :=
  s ← get;
  bufs ← lift (send_message s.2 MAX_BUFFER_SIZE m);
  send_all bufs.

(** connection_internal::set_encoding. *)
Definition conn_set_encoding (e : encoding) : prog unit := modify (fun s => (s.1, e)).

(** ** Lemmas *)
Definition sent_more (b : bytes) (s : state) : state :=
  let '(o, a, e) := s in (mkOut (sent o ++ b) (capacity o - length b) (alive o), a, e).
Definition room (s : state) : nat := capacity s.1.1.

Lemma send_all_ok bufs : forall s, (length (concat bufs) <= room s)%nat ->
  send_all bufs s = Ret (sent_more (concat bufs) s, ()).
Proof.
  induction bufs as [|d bufs IH]; intros [[o a] e] Hr; unfold room in Hr; cbn [fst concat] in Hr.
  - destruct o as [se c al]. cbv [send_all mret prog_ret sent_more sent capacity alive concat length].
    by rewrite app_nil_r, Nat.sub_0_r.
  - rewrite length_app in Hr. cbn [send_all]. unfold mbind, prog_bind, send_data.
    rewrite Nat.min_l by lia. rewrite decide_True by done. rewrite take_ge by lia.
    rewrite IH by (unfold room; simpl; lia). simpl. by rewrite <- app_assoc, length_app, Nat.sub_add_distr.
Qed.

Lemma conn_send_message_ok m s bufs :
  send_message s.2 MAX_BUFFER_SIZE m = Ret bufs -> (length (concat bufs) <= room s)%nat ->
  conn_send_message m s = Ret (sent_more (concat bufs) s, ()).
Proof.
  intros E Hr. unfold conn_send_message, mbind, prog_bind, get, lift. rewrite E. by apply send_all_ok.
Qed.

(** A socket that does not take a whole message leaves the peer a proper prefix
    of the frame and throws: the peer is stuck inside the message, and the next
    message sent is read as its continuation. *)
Theorem short_write_truncates (m : message json) (s : state) (bufs : list bytes)
    (Hs : send_message s.2 MAX_BUFFER_SIZE m = Ret bufs) (Hr : (room s < length (concat bufs))%nat) :
  exists s', conn_send_message m s = Throw (s', std_exception (runtime_error "write() failed"))
    /\ sent s'.1.1 = sent s.1.1 ++ take (room s) (concat bufs).
Proof.
  unfold conn_send_message, mbind, prog_bind, get, lift. rewrite Hs. clear Hs.
  revert s Hr. induction bufs as [|d bufs IH]; intros [[o a] e] Hr; unfold room in *; cbn [fst concat] in *; [simpl in Hr; lia|].
  cbn [send_all]. unfold mbind, prog_bind, send_data. rewrite length_app in Hr.
  destruct (decide (length d <= capacity o)%nat).
  - rewrite Nat.min_l by lia. rewrite decide_True by done. rewrite take_ge by lia.
    edestruct (IH (mkOut (sent o ++ d) (capacity o - length d) (alive o), a, e)) as (s' & -> & E); [simpl; lia|].
    exists s'. split; [done|]. rewrite E. simpl. rewrite <- app_assoc, take_app. by rewrite (take_ge d) by lia.
  - rewrite Nat.min_r by lia. rewrite decide_False by lia. eexists. split; [done|]. simpl. by rewrite take_app_le by lia.
Qed.

End Endpoint.
Arguments state A : clear implicits.

Definition full_socket : state unit := (mkOut [] 5 true, (), enc_json).

Lemma short_write_truncates_witness :
  exists s', conn_send_message ping full_socket = Throw (s', std_exception (runtime_error "write() failed"))
    /\ sent s'.1.1 = [] ++ take 5 (frame_of enc_json ping).
Proof.
  apply (short_write_truncates ping full_socket (bufs_of enc_json ping)); [by vm_compute|].
  apply Nat.ltb_lt. by vm_compute.
Defined.

End Endpoint.
