(* ===== verification/IpcServer.v ===== *)
(** * The service side of simple-ipc

    The registry of methods and the dispatch of a call ([rpc_handler]), the built-in
    [.hello] method ([default_rpc_handler]), the routing of messages
    ([base_service_impl], [service]) and the handler of a service's connections. *)

From S2P Require Import Prelude Varint Json IpcMessage IpcConnection IpcEndpoint.
From Stdlib Require Import ZArith Ascii Lia.
From stdpp Require Import base list gmap strings numbers.

Module Server.
Import Ipc Connection RpcResult Endpoint.
Section Server.
Context {json : Type} `{Json json} {A : Type}.
Notation state := (state A).
Notation prog := (prog json state).

(** ** rpc_handler

    A call handler gets the method, the data and the function that takes the
    result; the connection is part of the state. *)
Definition result_handler : Type := rpc_json_result json -> prog unit.
Definition call_handler_async : Type := bytes -> json -> result_handler -> prog unit.
Definition call_handler_sync : Type := bytes -> json -> prog (rpc_json_result json).
Definition rpc_handler : Type := gmap bytes call_handler_async.

Definition find_handler (hs : rpc_handler) (method : bytes) : option call_handler_async := hs !! method.

Definition add_handler_async (method : bytes) (handler : call_handler_async) (hs : rpc_handler) :
    outcome (jexn json) rpc_handler :=
  match find_handler hs method with
  | Some _ => Throw (std_exception (runtime_error "A handler for this method already exists"))
  | None => Ret (<[method := handler]> hs)
  end.

(** The wrapper that [add_handler] registers for a synchronous handler. *)
Definition sync (handler : call_handler_sync) : call_handler_async := fun method data result =>
  r ← handler method data; result r.
Definition add_handler (method : bytes) (handler : call_handler_sync) (hs : rpc_handler) :
    outcome (jexn json) rpc_handler :=
  add_handler_async method (sync handler) hs.

(** What the [catch] clauses of [invoke] make of an exception. *)
Definition exception_result (e : jexn json) : rpc_json_result json :=
  match e with
  | rpc_call_exception code text d => error code text d
  | _ => error_tr rpc_error_codes.internal_error
  end.

(** [invoke(conn, method, data, handler)]. *)
Definition invoke (hs : rpc_handler) (method : bytes) (d : json) (handler : result_handler) : prog unit :=
  match find_handler hs method with
  | None => handler (error_tr rpc_error_codes.method_not_found)
  | Some h => try_catch (h method d handler) (fun e => handler (exception_result e))
  end.

(** The message a result is answered with. *)
Definition reply (i : Z) (r : rpc_json_result json) : message json :=
  if success r then Response (mkResponse (with_id i) (data r))
  else Error (mkError (with_id i) (error_code r) (error_text r) (data r)).

Definition reply_handler (i : Z) : result_handler := fun result =>
  s ← get;
  if alive s.1.1 then conn_send_message (reply i result) else mret ().

(** [invoke(conn, msg)]. *)
Definition invoke_message (hs : rpc_handler) (msg : rpc_message json) : prog unit :=
  if has_id (rpc_mid msg)
  then invoke hs (rpc_method msg) (rpc_data msg) (reply_handler (id (rpc_mid msg)))
  else invoke hs (rpc_method msg) (rpc_data msg) (fun _ => mret ()).

(** ** default_rpc_handler *)
Definition current_version : Z := 1.

(** The first of the names that is an encoding. *)
Fixpoint choose_encoding (names : list json) (e : encoding) : outcome (jexn json) encoding :=
  match names with
  | [] => Ret e
  | n :: names =>
      name ← json_get_string n;
      match get_encoding_by_name name with
      | Some alt_enc => Ret alt_enc
      | None => choose_encoding names e
      end
  end.

Definition hello_result (e : encoding) : json :=
  json_set (json_set json_null "version" (json_int current_version)) "encoding" (json_string (enc_name e)).

Definition handle_hello : call_handler_async := fun _ d handler =>
  encodings ← lift (json_at d "encodings");
  e ← lift (choose_encoding (json_elements encodings) default_encoding);
  handler (response (hello_result e)) ≫= fun _ =>
  conn_set_encoding e.

Definition default_rpc_handler : rpc_handler := <[lit ".hello" := handle_hello]> ∅.

(** ** base_service_impl and service *)
Definition is_builtin (method : bytes) : bool :=
  match method with c :: _ => bool_decide (c = "."%char) | [] => false end.

(** base_service_impl::handle_message; [hs] are the handlers of the service. *)
Definition handle_rpc_message (hs : rpc_handler) (msg : rpc_message json) : prog unit :=
  if is_builtin (rpc_method msg) then invoke_message default_rpc_handler msg
  else invoke_message hs msg.

Definition handle_parse_error (code : Z) (text : bytes) (d : json) : prog unit :=
  conn_send_message (Error (mkError no_id code text d)).

(** unix_service_impl::connection_closed: the set of connections held the last
    reference to the connection. *)
Definition disconnect : prog unit :=
  modify (fun s => (mkOut (sent s.1.1) (capacity s.1.1) false, s.1.2, s.2)).

(** The handler of a service's connections; responses and errors are not expected. *)
Definition service_handler (hs : rpc_handler) : connection_handler json (out * A) := {|
  connection_closed s := run_handler disconnect s;
  handle_message_parse_error s _ info := run_handler (handle_parse_error info.1.1 info.1.2 info.2) s;
  handle_rpc s msg := run_handler (handle_rpc_message hs msg) s;
  handle_response := handle_response (default_handler (out * A));
  handle_error := handle_error (default_handler (out * A))
|}.

(** ** One reply per request *)

(** [computes hs method d s s1 r]: a call of [method], not registered or registered as
    a synchronous handler, ends in [s1] with the result [r]. *)
Definition computes (hs : rpc_handler) (method : bytes) (d : json) (s s1 : state) (r : rpc_json_result json) : Prop :=
  (find_handler hs method = None /\ s1 = s /\ r = error_tr rpc_error_codes.method_not_found) \/
  exists f, find_handler hs method = Some (sync f) /\
    (f method d s = Ret (s1, r) \/ exists e, f method d s = Throw (s1, e) /\ r = exception_result e).

(** The program that hands the result on, when that does not throw. *)
Lemma invoke_computes hs method d s s1 r (handler : result_handler) s2 :
  computes hs method d s s1 r -> handler r s1 = Ret (s2, ()) ->
  invoke hs method d handler s = Ret (s2, ()).
Proof.
  unfold invoke. intros [(-> & -> & ->)|(f & -> & Hf)] Hh; [done|].
  unfold try_catch, sync, mbind, prog_bind. destruct Hf as [->|(e & -> & ->)]; by rewrite Hh.
Qed.

Lemma reply_handler_ok i r s bufs : alive s.1.1 = true ->
  send_message s.2 MAX_BUFFER_SIZE (reply i r) = Ret bufs -> (length (concat bufs) <= room s)%nat ->
  reply_handler i r s = Ret (sent_more (concat bufs) s, ()).
Proof.
  intros Ha Hs Hr. unfold reply_handler, mbind, prog_bind, get. rewrite Ha. by apply conn_send_message_ok.
Qed.

(** A request with an id is answered by exactly one message, with that id: the
    handler's result, the error of what it threw, or [method_not_found]; a request
    without an id is not answered. *)
Theorem one_reply (hs : rpc_handler) (method : bytes) (d : json) (i : Z) (s s1 : state)
    (r : rpc_json_result json) (bufs : list bytes)
    (Hm : is_builtin method = false) (Hc : computes hs method d s s1 r) (Ha : alive s1.1.1 = true)
    (Hs : send_message s1.2 MAX_BUFFER_SIZE (reply i r) = Ret bufs)
    (Hr : (length (concat bufs) <= room s1)%nat) :
  handle_rpc_message hs (mkRpc (with_id i) method d) s = Ret (sent_more (concat bufs) s1, ())
  /\ handle_rpc_message hs (mkRpc no_id method d) s = Ret (s1, ()).
Proof.
  unfold handle_rpc_message, invoke_message. cbn [rpc_method rpc_mid rpc_data has_id id with_id no_id].
  rewrite Hm. split; eapply invoke_computes; try done. by apply reply_handler_ok.
Qed.

(** The data of an error does not reach the caller: whatever data the exception
    of a handler carries, the error message that answers the call has null data. *)
Theorem error_data_lost (hs : rpc_handler) (f : call_handler_sync) (method : bytes) (d : json) (i code : Z)
    (text : bytes) (ed : json) (s s1 : state) (bufs : list bytes)
    (Hm : is_builtin method = false) (Hf : find_handler hs method = Some (sync f)) (Hcode : code ≠ 0%Z)
    (Ht : f method d s = Throw (s1, rpc_call_exception code text ed)) (Ha : alive s1.1.1 = true)
    (Hs : send_message s1.2 MAX_BUFFER_SIZE (Error (mkError (with_id i) code text json_null)) = Ret bufs)
    (Hr : (length (concat bufs) <= room s1)%nat) :
  handle_rpc_message hs (mkRpc (with_id i) method d) s = Ret (sent_more (concat bufs) s1, ()).
Proof.
  unfold handle_rpc_message, invoke_message. cbn [rpc_method rpc_mid rpc_data has_id id with_id].
  rewrite Hm. apply invoke_computes with s1 (error code text ed).
  - right. exists f. split; [done|]. right. by exists (rpc_call_exception code text ed).
  - apply reply_handler_ok; [done| |done]. unfold reply, success. simpl.
    by rewrite bool_decide_eq_false_2 by done.
Qed.

(** ** The hello exchange *)
Section hello.
Context `{!JsonLaws json}.

Lemma choose_encoding_first names e :
  choose_encoding (map json_string names) e = Ret (default e (head (omap get_encoding_by_name names))).
Proof.
  induction names as [|n names IH]; simpl; [done|]. rewrite get_string. simpl.
  by destruct (get_encoding_by_name n).
Qed.

Lemma hello_registered : find_handler default_rpc_handler (lit ".hello") = Some handle_hello.
Proof. apply (lookup_insert_eq (M := gmap bytes)). Qed.

(** [.hello] is answered with the encoding the connection had, and then the first
    offered encoding that is known is set. *)
Lemma hello_answered hs i d names s bufs e :
  json_find d "encodings" = Some (json_array (map json_string names)) ->
  default default_encoding (head (omap get_encoding_by_name names)) = e -> alive s.1.1 = true ->
  send_message s.2 MAX_BUFFER_SIZE (Response (mkResponse (with_id i) (hello_result e))) = Ret bufs ->
  (length (concat bufs) <= room s)%nat ->
  handle_rpc_message hs (mkRpc (with_id i) (lit ".hello") d) s = Ret (((sent_more (concat bufs) s).1, e), ()).
Proof.
  intros Hd He Ha Hs Hr.
  assert (reply_handler i (response (hello_result e)) s = Ret (sent_more (concat bufs) s, ())) as Hrep
    by (by apply reply_handler_ok).
  unfold handle_rpc_message, invoke_message. cbn [rpc_method rpc_mid rpc_data has_id id with_id].
  replace (is_builtin (lit ".hello")) with true by done. unfold invoke.
  rewrite hello_registered. unfold try_catch, handle_hello, mbind, prog_bind, lift, conn_set_encoding, modify.
  rewrite (at_find _ _ _ Hd). cbv beta iota. rewrite elements_array, choose_encoding_first, He. cbv beta iota.
  by rewrite Hrep.
Qed.

End hello.
End Server.

(** ** A service with one method that answers and one that fails *)
Definition echo : call_handler_sync (json := TreeJson) (A := unit) := fun _ d => mret (response d).
Definition failing : call_handler_sync (json := TreeJson) (A := unit) := fun _ _ =>
  throw (rpc_call_exception 5 (lit "no") (TInt 42)).
Definition example_handlers : rpc_handler := <[lit "e" := sync echo]> (<[lit "f" := sync failing]> ∅).
Definition idle : state unit := (mkOut [] 4096 true, (), enc_json).

Definition bytes_of (o : outcome (jexn TreeJson) (list bytes)) : list bytes :=
  match o with Ret b => b | _ => [] end.
Definition answer_bufs (r : rpc_json_result TreeJson) : list bytes :=
  bytes_of (send_message enc_json MAX_BUFFER_SIZE (reply 1 r)).

Lemma one_reply_witness :
  handle_rpc_message example_handlers (mkRpc (with_id 1) (lit "e") TNull) idle
    = Ret (sent_more (concat (answer_bufs (response TNull))) idle, ())
  /\ handle_rpc_message example_handlers (mkRpc no_id (lit "e") TNull) idle = Ret (idle, ()).
Proof.
  apply (one_reply example_handlers (lit "e") TNull 1 idle idle (response TNull)); try done.
  - right. exists echo. split; [reflexivity|by left].
  - apply Nat.leb_le. by vm_compute.
Defined.

Lemma error_data_lost_witness :
  handle_rpc_message example_handlers (mkRpc (with_id 1) (lit "f") TNull) idle
    = Ret (sent_more (concat (answer_bufs (error 5 (lit "no") TNull))) idle, ()).
Proof.
  apply (error_data_lost example_handlers failing (lit "f") TNull 1 5 (lit "no") (TInt 42) idle idle); try done.
  apply Nat.leb_le. by vm_compute.
Defined.

End Server.
