(* ===== verification/IpcClient.v ===== *)
(** * The client side of simple-ipc

    [service_client] with its table of callbacks and the hello exchange,
    [rpc_json_call], [rpc_call] and the handler of a client's connection
    ([base_service_client_impl], [unix_service_client_impl]).  The callbacks of the program and its
    handlers of an opened or closed connection are taken to return: an exception out of one of them, which would
    leave the code that runs it half done, is not modelled. *)

From S2P Require Import Prelude Varint Json IpcMessage IpcConnection IpcEndpoint.
From Stdlib Require Import ZArith Ascii Lia.
From stdpp Require Import base list gmap strings numbers.

Module Client.
Import Ipc Connection RpcResult Endpoint.
Section Client.
Context {json : Type} `{Json json}.

(** A callback: the one [send_hello_message] passes, or the [k]-th of the program,
    of which only that it is run, and with which result, is kept. *)
Inductive callback : Type := cb_hello | cb_user (k : nat).

(** service_client; [connected] is whether the implementation has a connection,
    [completed] the callbacks of the program that were run. *)
Record client := mkClient {
  next_message_id : Z;
  cbs : gmap Z callback;
  hello_response_value : bool;
  connected : bool;
  completed : list (nat * rpc_json_result json)
}.
Definition client0 : client := mkClient 0 ∅ false true [].

Definition set_next (i : Z) (c : client) : client :=
  mkClient i (cbs c) (hello_response_value c) (connected c) (completed c).
Definition set_cbs (m : gmap Z callback) (c : client) : client :=
  mkClient (next_message_id c) m (hello_response_value c) (connected c) (completed c).
Definition set_hello (b : bool) (c : client) : client :=
  mkClient (next_message_id c) (cbs c) b (connected c) (completed c).
Definition set_connected (b : bool) (c : client) : client :=
  mkClient (next_message_id c) (cbs c) (hello_response_value c) b (completed c).
Definition complete (k : nat) (r : rpc_json_result json) (c : client) : client :=
  mkClient (next_message_id c) (cbs c) (hello_response_value c) (connected c) (completed c ++ [(k, r)]).

Notation state := (state client).
Notation prog := (prog json state).

Definition with_client (f : client -> client) : prog unit :=
  modify (fun s => (s.1.1, f s.1.2, s.2)).

(** ** service_client *)
Definition add_rpc_cb (msg : Z) (cb : callback) : prog unit :=
  with_client (fun c => set_cbs (<[msg := cb]> (cbs c)) c).

Definition get_rpc_cb (msg : Z) : prog (option callback) :=
  s ← get;
  match cbs s.1.2 !! msg with
  | Some val => with_client (fun c => set_cbs (delete msg (cbs c)) c) ≫= fun _ => mret (Some val)
  | None => mret None
  end.

(** [std::string enc = j.at("encoding")]. *)
Definition hello_encoding (j : json) : prog bytes :=
  e ← lift (json_at j "encoding"); lift (json_get_string e).

(** The call of a callback.  A null encoding is dereferenced by the next use of the
    connection. *)
Definition run_cb (cb : callback) (res : rpc_json_result json) : prog unit :=
  match cb with
  | cb_user k => with_client (complete k res)
  | cb_hello =>
      (if success res then
         s ← get;
         enc ← hello_encoding (data res);
         if connected s.1.2 then
           name ← hello_encoding (data res);
           match get_encoding_by_name name with
           | Some e => conn_set_encoding e
           | None => fun _ => Undef
           end
         else mret ()
       else mret ()) ≫= fun _ =>
      with_client (set_hello true)
  end.

(** [auto cb = get_rpc_cb(id); if (cb) cb(result)]. *)
Definition complete_cb (msg : Z) (res : rpc_json_result json) : prog unit :=
  cb ← get_rpc_cb msg;
  match cb with Some cb => run_cb cb res | None => mret () end.

(** unix_service_client_impl::send_message. *)
Definition impl_send_message (msg : rpc_message json) : prog unit :=
  s ← get;
  if connected s.1.2 then conn_send_message (Rpc msg)
  else throw (std_exception (runtime_error "No active connection to send the message on")).

Definition client_send_message (msg : rpc_message json) : prog unit :=
  s ← get;
  if negb (hello_response_value s.1.2) && negb (bool_decide (rpc_method msg = lit ".hello")) then
    complete_cb (id (rpc_mid msg)) (error rpc_error_codes.no_hello_reply (lit "Haven't got hello reply yet") json_null)
  else impl_send_message msg.

Definition handle_response_message (msg : response_message json) : prog unit :=
  if has_id (resp_mid msg) then complete_cb (id (resp_mid msg)) (response (resp_data msg)) else mret ().
Definition handle_error_message (msg : error_message json) : prog unit :=
  if has_id (err_mid msg) then complete_cb (id (err_mid msg)) (error (err_code msg) (err_text msg) (err_data msg))
  else mret ().

(** ** rpc_json_call *)
Definition rpc_run (method : bytes) (d : json) : prog unit :=
  client_send_message (mkRpc no_id method d).

(** [next_message_id.fetch_add(1)] on a [long long]. *)
Definition rpc_call_async (method : bytes) (d : json) (cb : callback) : prog unit :=
  s ← get;
  let msg_id := next_message_id s.1.2 in
  with_client (set_next (wraps 64 (msg_id + 1))) ≫= fun _ =>
  add_rpc_cb msg_id cb ≫= fun _ =>
  client_send_message (mkRpc (with_id msg_id) method d).

Definition hello_data : json :=
  json_set (json_set json_null "version" (json_int 1)) "encodings"
    (json_array (map json_string get_preferred_encodings)).
Definition send_hello_message : prog unit := rpc_call_async (lit ".hello") hello_data cb_hello.
Definition connection_opened : prog unit := send_hello_message.

(** [for (auto& cb : cbs) cb.second(error(connection_closed))]. *)
Fixpoint close_all (l : list (Z * callback)) : prog unit :=
  match l with
  | [] => mret ()
  | (_, cb) :: l => run_cb cb (error_tr rpc_error_codes.connection_closed) ≫= fun _ => close_all l
  end.
Definition client_connection_closed : prog unit :=
  with_client (set_hello false) ≫= fun _ =>
  s ← get;
  with_client (set_cbs ∅) ≫= fun _ =>
  close_all (map_to_list (cbs s.1.2)).

(** ** rpc_call<T>::convert *)
Definition convert {T} (cf : json -> outcome (jexn json) T) (what : jexn json -> bytes) (r : rpc_json_result json) :
    outcome (jexn json) (T + Z * bytes * json) :=
  if success r then
    match cf (data r) with
    | Ret t => Ret (inl t)
    | Throw (rpc_call_exception code text _) => Ret (inr (code, text, json_null))
    | Throw e => Ret (inr (rpc_error_codes.internal_error, what e, json_null))
    | Undef => Undef
    | Diverge => Diverge
    end
  else Ret (inr (error_code r, error_text r, error_data r)).

(** ** The connection's handler

    [close_ok] is whether the system call that closes the socket succeeds. *)
Definition impl_close (close_ok : bool) : prog unit :=
  s ← get;
  if connected s.1.2 then
    with_client (set_connected false) ≫= fun _ =>
    if close_ok then mret () else throw (std_exception (runtime_error "Failed to close socket"))
  else mret ().
Definition impl_connection_closed (close_ok : bool) : prog unit :=
  impl_close close_ok ≫= fun _ => client_connection_closed.

Definition client_handler (close_ok : bool) : connection_handler json (out * client) := {|
  connection_closed s := run_handler (impl_connection_closed close_ok) s;
  handle_message_parse_error := handle_message_parse_error (default_handler (out * client));
  handle_rpc := handle_rpc (default_handler (out * client));
  handle_response s msg := run_handler (handle_response_message msg) s;
  handle_error s msg := run_handler (handle_error_message msg) s
|}.

(** ** Every call is completed at most once, and only when its callback leaves the table *)

Inductive op : Type :=
| op_call (k : nat) (method : bytes) (d : json)
| op_run (method : bytes) (d : json)
| op_opened
| op_closed (close_ok : bool)
| op_response (m : response_message json)
| op_error (m : error_message json).

Definition exec (o : op) : prog unit :=
  match o with
  | op_call k method d => rpc_call_async method d (cb_user k)
  | op_run method d => rpc_run method d
  | op_opened => connection_opened
  | op_closed close_ok => impl_connection_closed close_ok
  | op_response m => handle_response_message m
  | op_error m => handle_error_message m
  end.

(** The state after an operation that returned or threw. *)
Definition after {B} (o : outcome (state * jexn json) (state * B)) : option state :=
  match o with Ret (s, _) | Throw (s, _) => Some s | _ => None end.
Fixpoint steps (ops : list op) (s : state) : option state :=
  match ops with
  | [] => Some s
  | o :: ops => s ← after (exec o s); steps ops s
  end.

Definition user_key (cb : callback) : option nat := match cb with cb_user k => Some k | cb_hello => None end.
Definition pending_keys (c : client) : list nat := omap user_key (map_to_list (cbs c)).*2.
Definition completed_keys (c : client) : list nat := (completed c).*1.
Definition live (c : client) : list nat := pending_keys c ++ completed_keys c.
Definition issued (ops : list op) : list nat :=
  omap (fun o => match o with op_call k _ _ => Some k | _ => None end) ops.

(** The ids in the table are ids that were given out. *)
Definition client_wf (c : client) : Prop :=
  (0 <= next_message_id c)%Z /\
  forall i cb, cbs c !! i = Some cb -> (0 <= i < next_message_id c)%Z.

(** [p] takes the client of [s] to one related by [P], whether it returns or throws. *)
Definition leads {B} (p : prog B) (s : state) (P : client -> Prop) : Prop :=
  match after (p s) with Some s' => P s'.1.2 | None => True end.

Lemma leads_bind {B C} (p : prog B) (f : B -> prog C) s (P Q : client -> Prop) :
  leads p s P -> (forall s' b, P s'.1.2 -> leads (f b) s' Q) -> (forall c, P c -> Q c) -> leads (p ≫= f) s Q.
Proof.
  unfold leads, mbind, prog_bind. intros Hp Hf HPQ. destruct (p s) as [[s' b]|[s' e]| |]; simpl in *; try done.
  - by apply Hf.
  - by apply HPQ.
Qed.

Lemma send_all_client bufs s : leads (send_all bufs) s (fun c => c = s.1.2).
Proof.
  revert s. induction bufs as [|d bufs IH]; intros [[o a] e]; [done|]. cbn [send_all].
  apply leads_bind with (fun c => c = a); [|intros s' _ <-; exact (IH s')|done].
  unfold leads, send_data. by case_decide.
Qed.

Lemma conn_send_client m s : leads (conn_send_message m) s (fun c => c = s.1.2).
Proof.
  unfold conn_send_message, leads, mbind, prog_bind, get, lift.
  destruct (send_message _ _ _) as [bufs| | |]; try done. apply (send_all_client bufs s).
Qed.

(** What a callback adds. *)
Definition ran (cb : callback) (c c' : client) : Prop :=
  next_message_id c' = next_message_id c /\ cbs c' = cbs c /\
  completed_keys c' = completed_keys c ++ match user_key cb with Some k => [k] | None => [] end.

Lemma run_cb_client cb r s : leads (run_cb cb r) s (ran cb s.1.2).
Proof.
  destruct cb as [|k]; simpl.
  2: { unfold leads, ran, completed_keys, with_client, modify. simpl. split_and!; [done|done|]. by rewrite fmap_app. }
  apply leads_bind with (fun c => c = s.1.2).
  - destruct (success r); [|done]. unfold leads, hello_encoding, mbind, prog_bind, get, lift.
    destruct (json_at _ _) as [j| | |]; try done. destruct (json_get_string j) as [n| | |]; try done.
    destruct (connected _); [|done]. by destruct (get_encoding_by_name n).
  - intros s' _ <-. unfold leads, ran, completed_keys. simpl. by rewrite app_nil_r.
  - intros c ->. unfold ran. by rewrite app_nil_r.
Qed.

(** The table of callbacks and the log change only together. *)
Definition settled (c c' : client) : Prop :=
  next_message_id c' = next_message_id c /\ client_wf c' /\ live c' ≡ₚ live c.

Lemma settled_refl c : client_wf c -> settled c c.
Proof. done. Qed.

Lemma complete_cb_client i r s : client_wf s.1.2 -> leads (complete_cb i r) s (settled s.1.2).
Proof.
  intros [Hn Hwf]. unfold complete_cb, get_rpc_cb. unfold leads, mbind at 1 2, prog_bind at 1 2, get.
  destruct (cbs s.1.2 !! i) as [cb|] eqn:E; [|done]. unfold mbind, prog_bind, with_client, modify, mret, prog_ret.
  set (s1 := (s.1.1, _, s.2)). pose proof (run_cb_client cb r s1) as Hr. unfold leads in Hr.
  destruct (after (run_cb cb r s1)) as [s'|]; [|done]. destruct Hr as (En & Ec & Ek).
  split_and!; [done| |].
  - split; [by rewrite En|]. rewrite Ec, En. simpl. intros j cb' [_ Hj]%lookup_delete_Some. by apply (Hwf j cb').
  - unfold live, pending_keys. rewrite Ec, Ek. simpl.
    rewrite <- (map_to_list_delete _ _ _ E). simpl. destruct (user_key cb); simpl; [|by rewrite app_nil_r].
    rewrite app_assoc. by rewrite Permutation_app_comm.
Qed.

Lemma client_send_client msg s : client_wf s.1.2 -> leads (client_send_message msg) s (settled s.1.2).
Proof.
  intros Hwf. unfold client_send_message. unfold mbind, prog_bind, get. unfold leads.
  destruct (negb _ && _); [by apply (complete_cb_client (id (rpc_mid msg)))|].
  unfold impl_send_message, mbind, prog_bind, get. destruct (connected _); [|done].
  pose proof (conn_send_client (Rpc msg) s) as Hs. unfold leads in Hs.
  destruct (after _); [|done]. by rewrite Hs.
Qed.

Lemma rpc_call_client method d cb s :
  client_wf s.1.2 -> (next_message_id s.1.2 + 1 < 2 ^ 63)%Z ->
  leads (rpc_call_async method d cb) s (fun c' =>
    next_message_id c' = (next_message_id s.1.2 + 1)%Z /\ client_wf c' /\
    live c' ≡ₚ match user_key cb with Some k => [k] | None => [] end ++ live s.1.2).
Proof.
  intros [Hn Hwf] Hmax. unfold rpc_call_async, add_rpc_cb, with_client, modify, leads, mbind, prog_bind, get. cbv beta iota zeta.
  set (i := next_message_id s.1.2) in *. cbn [fst snd]. rewrite wraps_small by lia.
  set (s1 := (s.1.1, _, s.2)). assert (cbs s.1.2 !! i = None) as Hi.
  { destruct (cbs s.1.2 !! i) eqn:E; [|done]. specialize (Hwf _ _ E). lia. }
  assert (client_wf s1.1.2) as Hwf1.
  { split; simpl; [lia|]. intros j cb' [[<- _]|[_ Hj]]%lookup_insert_Some; [lia|]. specialize (Hwf j cb' Hj). lia. }
  pose proof (client_send_client (mkRpc (with_id i) method d) s1 Hwf1) as Hs. unfold leads in Hs.
  destruct (after _) as [s'|]; [|done]. destruct Hs as (En & Hwf' & El). split_and!; [done|done|].
  rewrite El. unfold live, pending_keys. simpl. rewrite map_to_list_insert by done. simpl. by destruct (user_key cb).
Qed.

Lemma close_all_client l s : leads (close_all l) s (fun c' =>
  next_message_id c' = next_message_id s.1.2 /\ cbs c' = cbs s.1.2 /\
  completed_keys c' = completed_keys s.1.2 ++ omap user_key l.*2).
Proof.
  revert s. induction l as [|[i cb] l IH]; intros s; [unfold leads; simpl; by rewrite app_nil_r|].
  cbn [close_all]. pose proof (run_cb_client cb (error_tr rpc_error_codes.connection_closed) s) as Hr.
  assert (exists s', run_cb cb (error_tr rpc_error_codes.connection_closed) s = Ret (s', ())) as [s' E] by (destruct cb; by eexists).
  unfold leads, mbind, prog_bind in *. rewrite E in *. simpl in Hr. destruct Hr as (En & Ec & Ek).
  specialize (IH s'). destruct (after _); [|done]. destruct IH as (-> & -> & ->). split_and!; [done|done|].
  rewrite Ek, <- app_assoc. f_equal. simpl. by destruct (user_key cb).
Qed.

Lemma closed_client close_ok s : client_wf s.1.2 ->
  leads (impl_connection_closed close_ok) s (settled s.1.2).
Proof.
  intros [Hn Hwf]. unfold impl_connection_closed.
  apply leads_bind with (fun c' => next_message_id c' = next_message_id s.1.2 /\ cbs c' = cbs s.1.2
    /\ completed c' = completed s.1.2).
  - unfold leads, impl_close, mbind, prog_bind, get. destruct (connected _); [|done]. by destruct close_ok.
  - intros s1 _ (En & Ec & Ek). unfold client_connection_closed, with_client, modify, leads, mbind, prog_bind, get.
    cbv beta iota zeta. match goal with |- context[close_all ?l ?s] => pose proof (close_all_client l s) as Hc end.
    unfold leads in Hc. destruct (after _); [|done]. destruct Hc as (En' & Ec' & Ek'). simpl in *.
    rewrite Ec in *. split_and!; [by rewrite En', En|split; [by rewrite En', En|by rewrite Ec']|].
    unfold live, pending_keys. rewrite Ec', Ek'. unfold completed_keys. simpl. rewrite Ek.
    rewrite map_to_list_empty. simpl. apply Permutation_app_comm.
  - intros c' (En & Ec & Ek). split_and!; [done|split; [by rewrite En|by rewrite Ec, En]|].
    unfold live, pending_keys, completed_keys. by rewrite Ec, Ek.
Qed.

Lemma exec_client o s : client_wf s.1.2 -> (next_message_id s.1.2 + 1 < 2 ^ 63)%Z ->
  leads (exec o) s (fun c' => (next_message_id c' <= next_message_id s.1.2 + 1)%Z /\ client_wf c'
    /\ live c' ≡ₚ issued [o] ++ live s.1.2).
Proof.
  intros Hwf Hmax.
  assert (Hset : forall p : prog unit, leads p s (settled s.1.2) -> leads p s (fun c' =>
    (next_message_id c' <= next_message_id s.1.2 + 1)%Z /\ client_wf c' /\ live c' ≡ₚ live s.1.2)).
  { intros p. unfold leads. destruct (after _); [|done]. intros (-> & ? & ?). split_and!; [lia|done|done]. }
  destruct o as [k method d|method d| |close_ok|m|m]; simpl.
  - pose proof (rpc_call_client method d (cb_user k) s Hwf Hmax) as Hc. unfold leads in *.
    destruct (after _); [|done]. destruct Hc as (-> & ? & ?). split_and!; [lia|done|done].
  - by apply Hset, client_send_client.
  - pose proof (rpc_call_client (lit ".hello") hello_data cb_hello s Hwf Hmax) as Hc. unfold leads in *.
    destruct (after _); [|done]. destruct Hc as (-> & ? & ?). split_and!; [lia|done|done].
  - by apply Hset, closed_client.
  - apply Hset. unfold handle_response_message. destruct (has_id _); [by apply complete_cb_client|done].
  - apply Hset. unfold handle_error_message. destruct (has_id _); [by apply complete_cb_client|done].
Qed.

(** C14. Whatever sequence of calls, received messages, connects and disconnects a
    client runs through, the callbacks of the calls it was given are, with
    multiplicity, those still in its table and those already run: none is lost,
    overwritten or run twice.  The callbacks are taken to return without an exception. *)
Theorem callbacks_conserved (ops : list op) (s s' : state)
    (Hwf : client_wf s.1.2) (Hmax : (next_message_id s.1.2 + Z.of_nat (length ops) < 2 ^ 63)%Z)
    (Hs : steps ops s = Some s') :
  client_wf s'.1.2
  /\ pending_keys s'.1.2 ++ completed_keys s'.1.2
     ≡ₚ issued ops ++ pending_keys s.1.2 ++ completed_keys s.1.2.
Proof.
  revert s Hwf Hmax Hs. induction ops as [|o ops IH]; intros s Hwf Hmax Hs; simpl in *; [by simplify_eq|].
  pose proof (exec_client o s Hwf ltac:(lia)) as He. unfold leads in He.
  destruct (after (exec o s)) as [s1|]; [|done]. destruct He as (Hn & Hwf1 & Hl). simpl in Hs.
  destruct (IH s1 Hwf1 ltac:(lia) Hs) as [Hwf' Hl']. split; [done|]. rewrite Hl'. unfold live in Hl. rewrite Hl.
  unfold issued. simpl. destruct o; simpl; try done. by rewrite <- Permutation_middle.
Qed.

(** A call without a reply ([run]) that is made before the answer to the first
    hello takes the hello's callback, since a message without an id has id 0: the
    client counts as greeted, keeps its encoding, and the answer that arrives
    afterwards changes nothing. *)
Theorem run_steals_hello (s : state) (method : bytes) (d answer : json)
    (Hm : method ≠ lit ".hello") (Hh : hello_response_value s.1.2 = false)
    (Hcb : cbs s.1.2 !! 0%Z = Some cb_hello) :
  exists s', rpc_run method d s = Ret (s', ()) /\ hello_response_value s'.1.2 = true /\ s'.2 = s.2
    /\ handle_response_message (mkResponse (with_id 0) answer) s' = Ret (s', ()).
Proof.
  unfold rpc_run, client_send_message, complete_cb, get_rpc_cb, with_client, modify, mbind, prog_bind, get.
  cbn [rpc_method rpc_mid id no_id]. rewrite Hh, bool_decide_eq_false_2 by done. cbn [negb andb].
  rewrite Hcb. eexists. split; [done|]. split_and!; [done|done|].
  unfold handle_response_message, complete_cb, get_rpc_cb, mbind, prog_bind, get. simpl.
  by rewrite lookup_delete_eq.
Qed.

End Client.
Arguments client json : clear implicits.
Arguments op json : clear implicits.

(** ** Examples *)
Definition fresh : state (client TreeJson) := (mkOut [] 4096 true, client0, enc_json).
Definition greeting : state (client TreeJson) :=
  match connection_opened fresh with Ret (s, _) => s | _ => fresh end.
Definition script : list (op TreeJson) :=
  [op_opened; op_response (mkResponse (with_id 0) (json_set json_null "encoding" (json_string (lit "json"))));
   op_call 7 (lit "m") TNull; op_call 8 (lit "m") TNull; op_response (mkResponse (with_id 2) TNull); op_closed true].

Lemma callbacks_conserved_witness : exists s',
  steps script fresh = Some s' /\ client_wf s'.1.2
  /\ pending_keys s'.1.2 ++ completed_keys s'.1.2 ≡ₚ issued script ++ [] ++ []
  /\ completed_keys s'.1.2 = [8; 7]%nat.
Proof.
  assert (exists s', steps script fresh = Some s' /\ completed_keys s'.1.2 = [8; 7]%nat) as (s' & E & K)
    by (eexists; split; vm_compute; reflexivity).
  exists s'. split; [exact E|].
  destruct (callbacks_conserved script fresh s') as [W P]; [split; [done|by intros ? ?]|done|exact E|].
  split; [exact W|]. split; [exact P|exact K].
Defined.

Lemma run_steals_hello_witness :
  exists s', rpc_run (lit "m") TNull greeting = Ret (s', ()) /\ hello_response_value s'.1.2 = true /\ s'.2 = enc_json
    /\ handle_response_message (mkResponse (with_id 0) TNull) s' = Ret (s', ()).
Proof. apply (run_steals_hello greeting); [done|by vm_compute|by vm_compute]. Defined.

End Client.
