(* ===== verification/IpcNegotiation.v ===== *)
(** * The hello exchange between a client and a service

    The components of simple-ipc together: the client's first message, its way
    through the service's receive loop, the answer and its way back. *)

From S2P Require Import Prelude Varint Json IpcMessage IpcConnection IpcEndpoint IpcServer IpcClient.
From Stdlib Require Import ZArith Ascii Lia.
From stdpp Require Import base list gmap strings numbers.

Module Negotiation.
Import Ipc Connection RpcResult Endpoint.
Section Negotiation.
Context {json : Type} `{Json json, !JsonLaws json} {A : Type} (memcpy_moves : bool).

Definition hello_message : message json :=
  Rpc (mkRpc (with_id 0) (lit ".hello") Client.hello_data).
Definition hello_answer (e : encoding) : message json :=
  Response (mkResponse (with_id 0) (Server.hello_result e)).

(** One message on a fresh connection. *)
Lemma single_message {W} (handler : connection_handler json W) (w : W) m bufs sock w' fuel :
  message_ok m -> message_text m -> send_message enc_json MAX_BUFFER_SIZE m = Ret bufs ->
  (length (concat bufs) <= message_limit memcpy_moves)%nat ->
  handle_message handler m (w, enc_json) = Ret w' ->
  Forall (fun seg => seg ≠ []) sock -> concat sock = concat bufs -> (2 * length (concat bufs) < fuel)%nat ->
  exists c', handle_data_available handler memcpy_moves fuel connection0 w sock = Ret (c', w'.1, [])
    /\ current_encoding c' = w'.2 /\ pending c' = [].
Proof.
  intros Hok Ht Hs Hl Hh Hne Hcat Hfuel. destruct (connection0_wf memcpy_moves) as [Hwf E].
  destruct (handle_data_available_stream handler memcpy_moves fuel connection0 w sock w' [])
    as (c' & ? & _ & ? & ? & _); eauto.
  - rewrite E, Hcat. replace (concat bufs) with (concat (bufs ++ [])) by (by rewrite app_nil_r).
    apply (exchange_stream _ _ _ [m]). apply (exchange_cons handler memcpy_moves (w, enc_json)) with w'; try done. constructor.
  - rewrite E, Hcat. simpl. lia.
Qed.

#[local] Hint Resolve text_set text_int text_null text_string : core.

Lemma hello_data_text : json_text Client.hello_data.
Proof.
  unfold Client.hello_data. apply text_set; [done|by auto|]. apply text_array.
  intros j [<-|[<-|[]]]; by apply text_string.
Qed.

Lemma hello_data_encodings :
  json_find Client.hello_data "encodings" = Some (json_array (map json_string get_preferred_encodings)).
Proof.
  unfold Client.hello_data. rewrite find_set by (apply objlike_set, objlike_null). by rewrite decide_True.
Qed.

Lemma hello_result_text e : json_text (Server.hello_result e).
Proof. unfold Server.hello_result. apply text_set; [done|by auto|]. by destruct e; apply text_string. Qed.

(** What the answer does to a client that waits for it. *)
Lemma hello_answer_handled (e : encoding) (o : out) (cl : Client.client json) :
  Client.cbs cl !! 0%Z = Some Client.cb_hello -> Client.connected cl = true ->
  Client.handle_response_message (mkResponse (with_id 0) (Server.hello_result e)) (o, cl, enc_json)
  = Ret ((o, Client.set_hello true (Client.set_cbs (delete 0%Z (Client.cbs cl)) cl), e), ()).
Proof.
  intros Hcb Hc. assert (json_at (Server.hello_result e) "encoding" = Ret (json_string (enc_name e))) as Hat.
  { apply at_find. unfold Server.hello_result. rewrite find_set by (apply objlike_set, objlike_null). by rewrite decide_True. }
  unfold Client.handle_response_message, Client.complete_cb, Client.get_rpc_cb, Client.with_client, modify, mbind, prog_bind, get.
  cbn [resp_mid resp_data with_id has_id id fst snd]. rewrite Hcb. cbv beta iota. unfold mret, prog_ret. cbn [Client.run_cb].
  unfold Client.hello_encoding, lift, mbind, prog_bind, get, Client.with_client, modify. cbn [data response fst snd].
  rewrite Hat, get_string. cbv beta iota.
  change (success (response (Server.hello_result e))) with true. cbv beta iota. cbn [fst snd Client.connected Client.set_cbs].
  rewrite Hc. cbv beta iota.
  replace (get_encoding_by_name (enc_name e)) with (Some e) by (by destruct e). done.
Qed.

(** C40. Client and service agree on the encoding: a client that opens a connection
    to any service ends up, for every segmentation of the two messages, greeted,
    with no callback pending and with CBOR as its encoding, and so does the service;
    both start and answer in JSON. *)
Theorem encodings_agree (hs : Server.rpc_handler (json := json) (A := A)) (a : A) (cap1 cap2 : nat) (close_ok : bool)
    (bufs1 bufs2 sock1 sock2 : list bytes) (fuel : nat)
    (Hs1 : send_message enc_json MAX_BUFFER_SIZE hello_message = Ret bufs1)
    (Hs2 : send_message enc_json MAX_BUFFER_SIZE (hello_answer enc_json_cbor) = Ret bufs2)
    (Hl1 : (length (concat bufs1) <= message_limit memcpy_moves `min` cap1)%nat)
    (Hl2 : (length (concat bufs2) <= message_limit memcpy_moves `min` cap2)%nat)
    (Hc1 : concat sock1 = concat bufs1) (Hc2 : concat sock2 = concat bufs2)
    (Hne1 : Forall (fun seg => seg ≠ []) sock1) (Hne2 : Forall (fun seg => seg ≠ []) sock2)
    (Hfuel : (2 * (length (concat bufs1) + length (concat bufs2)) < fuel)%nat) :
  exists o1 cl1 o2 c2 cl3 c3,
    (* the client sends its greeting *)
    Client.connection_opened (mkOut [] cap1 true, Client.client0, enc_json) = Ret ((o1, cl1, enc_json), ())
    /\ sent o1 = concat sock1
    (* the service receives it and answers *)
    /\ handle_data_available (Server.service_handler hs) memcpy_moves fuel connection0 (mkOut [] cap2 true, a) sock1
         = Ret (c2, (o2, a), [])
    /\ current_encoding c2 = enc_json_cbor /\ sent o2 = concat sock2
    (* the client receives the answer *)
    /\ handle_data_available (Client.client_handler close_ok) memcpy_moves fuel connection0 (o1, cl1) sock2
         = Ret (c3, (o1, cl3), [])
    /\ current_encoding c3 = enc_json_cbor
    /\ Client.hello_response_value cl3 = true /\ Client.cbs cl3 = ∅.
Proof.
  set (cl1 := Client.set_cbs (json := json) {[0%Z := Client.cb_hello]} (Client.set_next 1 Client.client0)).
  set (o1 := mkOut (concat bufs1) (cap1 - length (concat bufs1)) true).
  set (o2 := mkOut (concat bufs2) (cap2 - length (concat bufs2)) true).
  set (cl3 := Client.set_hello true (Client.set_cbs ∅ cl1)).
  assert (Client.connection_opened (mkOut [] cap1 true, Client.client0, enc_json) = Ret ((o1, cl1, enc_json), ())) as H1.
  { unfold Client.connection_opened, Client.send_hello_message, Client.rpc_call_async, Client.add_rpc_cb,
      Client.with_client, modify, Client.client_send_message, Client.impl_send_message, mbind, prog_bind, get.
    cbn [fst snd rpc_method]. rewrite bool_decide_eq_true_2 by done. cbn [negb andb Client.hello_response_value Client.client0].
    apply (conn_send_message_ok hello_message (mkOut [] cap1 true, cl1, enc_json) bufs1 Hs1). unfold room. simpl. lia. }
  assert (Server.handle_rpc_message hs (mkRpc (with_id 0) (lit ".hello") Client.hello_data) (mkOut [] cap2 true, a, enc_json)
    = Ret ((o2, a, enc_json_cbor), ())) as H2.
  { rewrite (Server.hello_answered hs 0 Client.hello_data get_preferred_encodings _ bufs2 enc_json_cbor);
      [done|apply hello_data_encodings|done|done|done|unfold room; simpl; lia]. }
  assert (Client.handle_response_message (mkResponse (with_id 0) (Server.hello_result enc_json_cbor)) (o1, cl1, enc_json)
    = Ret ((o1, cl3, enc_json_cbor), ())) as H3.
  { by rewrite hello_answer_handled by done. }
  destruct (single_message (Server.service_handler hs) (mkOut [] cap2 true, a) hello_message bufs1 sock1 (o2, a, enc_json_cbor) fuel)
    as (c2 & E2 & Ee2 & _); try done; [split; [by apply text_string|apply hello_data_text]|lia|by unfold handle_message, hello_message; cbn [handle_rpc Server.service_handler]; unfold run_handler; rewrite H2|lia|].
  destruct (single_message (Client.client_handler close_ok) (o1, cl1) (hello_answer enc_json_cbor) bufs2 sock2 (o1, cl3, enc_json_cbor) fuel)
    as (c3 & E3 & Ee3 & _); try done; [apply hello_result_text|lia|by unfold handle_message, hello_answer; cbn [handle_response Client.client_handler]; unfold run_handler; rewrite H3|lia|].
  exists o1, cl1, o2, c2, cl3, c3. by split_and!.
Qed.

End Negotiation.
(** ** The exchange on a concrete value type, the greeting cut into two segments *)
Definition greeting_bytes : bytes := frame_of enc_json hello_message.
Definition answer_bytes : bytes := frame_of enc_json (hello_answer enc_json_cbor).
Definition greeting_segments : list bytes := [take 10 greeting_bytes; drop 10 greeting_bytes].

Lemma nonempty_segments (l : list bytes) :
  forallb (fun seg => negb (length seg =? 0)%nat) l = true -> Forall (fun seg => seg ≠ []) l.
Proof. intros E. apply Forall_forall. intros seg Hs ->. rewrite forallb_forall in E. by specialize (E _ Hs). Qed.

Lemma encodings_agree_witness :
  exists o1 cl1 o2 c2 cl3 c3,
    Client.connection_opened (mkOut [] 8192 true, Client.client0, enc_json) = Ret ((o1, cl1, enc_json), ())
    /\ sent o1 = concat greeting_segments
    /\ handle_data_available (Server.service_handler Server.example_handlers) false (100 * 100) connection0 (mkOut [] 8192 true, ())
         greeting_segments = Ret (c2, (o2, ()), [])
    /\ current_encoding c2 = enc_json_cbor /\ sent o2 = concat [answer_bytes]
    /\ handle_data_available (Client.client_handler true) false (100 * 100) connection0 (o1, cl1) [answer_bytes] = Ret (c3, (o1, cl3), [])
    /\ current_encoding c3 = enc_json_cbor
    /\ Client.hello_response_value cl3 = true /\ Client.cbs cl3 = ∅.
Proof.
  apply (encodings_agree false Server.example_handlers () 8192 8192 true (bufs_of enc_json hello_message)
    (bufs_of enc_json (hello_answer enc_json_cbor))).
  - by vm_compute.
  - by vm_compute.
  - apply Nat.leb_le. by vm_compute.
  - apply Nat.leb_le. by vm_compute.
  - by vm_compute.
  - by vm_compute.
  - apply nonempty_segments. by vm_compute.
  - apply nonempty_segments. by vm_compute.
  - apply Nat.ltb_lt. by vm_compute.
Defined.

End Negotiation.
