(* ===== verification/CxxString.v ===== *)
(** * The string functions of the C++ library that the sources call

    [std::stoi] and its relatives, [std::to_string] and the stream output of an
    integer, [std::string::find] and [substr]. *)

From S2P Require Import Prelude.
From Stdlib Require Import ZArith Ascii Lia.
From stdpp Require Import base list strings numbers pretty.

Open Scope Z_scope.

(** ** Numbers from text *)
Definition isspace (c : ascii) : bool := bool_decide (uchar c = 32 \/ 9 <= uchar c <= 13).
Definition digit (c : ascii) : option Z :=
  if decide (48 <= uchar c <= 57) then Some (uchar c - 48) else None.

Fixpoint skip_space (s : bytes) : bytes :=
  match s with
  | c :: r => if isspace c then skip_space r else s
  | [] => []
  end.

(** The longest run of digits, its value and whether there was one. *)
Fixpoint digits (s : bytes) (acc : Z) (seen : bool) : option Z :=
  match s with
  | c :: r => match digit c with Some d => digits r (acc * 10 + d) true | None => if seen then Some acc else None end
  | [] => if seen then Some acc else None
  end.

(** The number at the start of [s] that [strtol] reads in base 10. *)
Definition strtoz (s : bytes) : option Z :=
  match skip_space s with
  | c :: r =>
      if decide (c = "-"%char) then Z.opp <$> digits r 0 false
      else if decide (c = "+"%char) then digits r 0 false
      else digits (c :: r) 0 false
  | [] => None
  end.

Definition stoi (s : bytes) : outcome exn Z :=
  match strtoz s with
  | None => Throw (invalid_argument "stoi")
  | Some z => if decide (- 2 ^ 31 <= z < 2 ^ 31) then Ret z else Throw (out_of_range "stoi")
  end.
Definition stoull (s : bytes) : outcome exn Z :=
  match strtoz s with
  | None => Throw (invalid_argument "stoull")
  | Some z => if decide (Z.abs z < 2 ^ 64) then Ret (wrapu 64 z) else Throw (out_of_range "stoull")
  end.

(** The run of digits at the start of [s]: its value and its length. *)
Fixpoint span_digits (s : bytes) (acc : Z) : Z * nat :=
  match s with
  | c :: r => match digit c with Some d => let '(v, n) := span_digits r (acc * 10 + d) in (v, S n) | None => (acc, 0%nat) end
  | [] => (acc, 0%nat)
  end.
(** [strtol(s, &end, 10)]: the value, cut to the range of [long], and how far [end] is; none when nothing was read. *)
Definition strtol (s : bytes) : option (Z * nat) :=
  let r := skip_space s in
  let sp := (length s - length r)%nat in
  let '(sign, r, k) := match r with
                       | c :: r' => if decide (c = "-"%char) then (-1, r', 1%nat) else if decide (c = "+"%char) then (1, r', 1%nat) else (1, r, 0%nat)
                       | [] => (1, r, 0%nat)
                       end in
  let '(v, n) := span_digits r 0 in
  if decide (n = 0%nat) then None
  else Some (Z.max (- 2 ^ 63) (Z.min (sign * v) (2 ^ 63 - 1)), (sp + k + n)%nat).

(** ** Text from numbers *)
Definition to_string (z : Z) : bytes := lit (pretty z).

(** ** Searching *)
Fixpoint is_prefix (p s : bytes) : bool :=
  match p, s with
  | [], _ => true
  | a :: p, b :: s => if decide (a = b) then is_prefix p s else false
  | _, [] => false
  end.
(** [s.find(p)] from the start of [s]. *)
Fixpoint find_str (p s : bytes) : option nat :=
  if is_prefix p s then Some 0%nat
  else match s with [] => None | _ :: s => S <$> find_str p s end.
(** [s.find(p, from)]. *)
Definition find_from (p s : bytes) (from : nat) : option nat :=
  if decide (length s < from)%nat then None else (fun k => from + k)%nat <$> find_str p (drop from s).
(** [s.rfind(c)]. *)
Fixpoint rfind_char (c : ascii) (s : bytes) : option nat :=
  match s with
  | [] => None
  | x :: s => match rfind_char c s with
              | Some k => Some (S k)
              | None => if decide (x = c) then Some 0%nat else None
              end
  end.
(** [s.substr(pos, n)], which throws when [pos] is past the end. *)
Definition substr (s : bytes) (p n : nat) : outcome exn bytes :=
  if decide (length s < p)%nat then Throw (out_of_range "basic_string::substr") else Ret (take n (drop p s)).

(** ** Lemmas *)
Lemma lit_app a b : lit (a +:+ b) = lit a ++ lit b.
Proof. unfold lit. induction a as [|c a IH]; simpl; [done|by rewrite IH]. Qed.

Lemma lit_inj a b : lit a = lit b -> a = b.
Proof.
  unfold lit. intros E. rewrite <- (String.string_of_list_ascii_of_string a), E. apply String.string_of_list_ascii_of_string.
Qed.

Lemma to_string_inj a b : to_string a = to_string b -> a = b.
Proof. intros E. by apply lit_inj, pretty_Z_inj in E. Qed.

Lemma is_prefix_app p s : is_prefix p (p ++ s) = true.
Proof. induction p as [|c p IH]; simpl; [done|]. by rewrite decide_True. Qed.

Lemma is_prefix_true p s : is_prefix p s = true -> exists r, s = p ++ r.
Proof.
  revert s. induction p as [|c p IH]; intros s; [by exists s|]. destruct s as [|x s]; [done|]. simpl.
  case_decide; [|done]. intros (r & ->)%IH. subst. by exists r.
Qed.

(** ** Printing and reading a number *)
Lemma digit_char (x : N) : (x < 10)%N -> digit (pretty_N_char x) = Some (Z.of_N x).
Proof.
  intros Hx. assert (x = 0 \/ x = 1 \/ x = 2 \/ x = 3 \/ x = 4 \/ x = 5 \/ x = 6 \/ x = 7 \/ x = 8 \/ x = 9)%N as Hc by lia.
  by repeat destruct Hc as [->|Hc]; [..|subst].
Qed.

Lemma digits_pretty_go (x : N) : (0 < x)%N -> forall s r,
  digits (lit (pretty_N_go x s) ++ r) 0 false = digits (lit s ++ r) (Z.of_N x) true.
Proof.
  induction (N.lt_wf_0 x) as [x _ IH]. intros Hx s r. rewrite pretty_N_go_step by done.
  assert (x mod 10 < 10)%N as Hm by (by apply N.mod_lt).
  pose proof (N.div_mod x 10 ltac:(done)) as Ex. pose proof (digit_char _ Hm) as Hd.
  destruct (decide (x / 10 = 0)%N) as [E0|E0].
  - rewrite E0, pretty_N_go_0. rewrite E0 in Ex. unfold lit. simpl. rewrite Hd. do 2 f_equal. lia.
  - rewrite IH; [|apply N.div_lt; lia|lia]. unfold lit. simpl. rewrite Hd. f_equal. lia.
Qed.

(** What [to_string] writes, [strtol] reads back, up to what follows it. *)
Lemma strtoz_to_string (z : Z) (r : bytes) : 0 <= z ->
  match r with c :: _ => digit c = None | [] => True end ->
  strtoz (to_string z ++ r) = Some z.
Proof.
  intros Hz Hr.
  assert (Hend : forall acc, digits r acc true = Some acc).
  { intros acc. destruct r as [|c r]; [done|]. simpl. by rewrite Hr. }
  destruct z as [|p|p]; [| |lia].
  { unfold to_string. simpl. rewrite <- (Hend 0). done. }
  unfold to_string. change (pretty (Z.pos p)) with (pretty (Npos p)).
  assert (pretty (Npos p) = pretty_N_go (Npos p) "") as -> by done.
  pose proof (digits_pretty_go (Npos p) ltac:(lia) "" r) as Hd. cbn [lit String.list_ascii_of_string app] in Hd. rewrite Hend in Hd.
  unfold strtoz. destruct (lit (pretty_N_go (Npos p) "") ++ r) as [|c s] eqn:E; [done|].
  assert (exists d, digit c = Some d) as [d Hc] by (simpl in Hd; destruct (digit c) eqn:Ed; [by eexists|done]).
  assert (48 <= uchar c <= 57) as Hu by (unfold digit in Hc; by case_decide).
  cbn [skip_space]. unfold isspace. rewrite bool_decide_eq_false_2 by lia.
  rewrite !decide_False; [done|intros ->; change (uchar "+") with 43 in Hu; lia|intros ->; change (uchar "-") with 45 in Hu; lia].
Qed.

Lemma pretty_go_digits (x : N) : forall s, Forall (fun c => is_Some (digit c)) (lit s) -> Forall (fun c => is_Some (digit c)) (lit (pretty_N_go x s)).
Proof.
  induction (N.lt_wf_0 x) as [x _ IH]. intros s Hs. destruct (decide (x = 0)%N) as [->|Hx]; [by rewrite pretty_N_go_0|].
  rewrite pretty_N_go_step by lia. apply IH; [apply N.div_lt; lia|]. constructor; [|done].
  rewrite digit_char by (by apply N.mod_lt). by eexists.
Qed.

Lemma to_string_digits (z : Z) : 0 <= z -> to_string z ≠ [] /\ Forall (fun c => is_Some (digit c)) (to_string z).
Proof.
  intros Hz. unfold to_string. destruct z as [|p|p]; [|clear Hz|lia].
  - split; [done|]. repeat constructor. by eexists.
  - change (pretty (Z.pos p)) with (pretty (N.pos p)). unfold pretty, pretty_N. rewrite decide_False by done.
    split; [|apply pretty_go_digits; constructor]. intros E.
    pose proof (digits_pretty_go (N.pos p) ltac:(lia) "" []) as Hd. rewrite E in Hd. done.
Qed.

Lemma span_digits_run (p r : bytes) : Forall (fun c => is_Some (digit c)) p ->
  match r with c :: _ => digit c = None | [] => True end ->
  forall acc, exists v, span_digits (p ++ r) acc = (v, length p) /\ digits (p ++ r) acc true = Some v.
Proof.
  intros Hp Hr. induction Hp as [|c p [d Hd] _ IH]; intros acc; simpl.
  - exists acc. destruct r as [|c r]; [done|]. simpl. by rewrite Hr.
  - rewrite Hd. destruct (IH (acc * 10 + d)) as (v & -> & E). by exists v.
Qed.

Lemma digit_not_space c : is_Some (digit c) -> isspace c = false /\ c ≠ "-"%char /\ c ≠ "+"%char.
Proof.
  unfold digit, isspace. intros [d Hd]. case_decide as Hc; [|done].
  split_and!; [apply bool_decide_eq_false_2; lia| |]; intros ->; vm_compute in Hc; by destruct Hc.
Qed.

(** A printed number followed by something that is not a digit is read back whole. *)
Lemma strtol_to_string (z : Z) (r : bytes) : 0 <= z < 2 ^ 63 -> match r with c :: _ => digit c = None | [] => True end ->
  strtol (to_string z ++ r) = Some (z, length (to_string z)).
Proof.
  intros Hz Hr. destruct (to_string_digits z) as [Hne Hd]; [lia|]. pose proof (strtoz_to_string z r ltac:(lia) Hr) as Hs.
  unfold strtol, strtoz in *. destruct (to_string z) as [|c p] eqn:E; [done|]. cbn [app] in *.
  pose proof (Forall_inv Hd) as Hc. destruct (digit_not_space c Hc) as (Hsp & Hm & Hpl).
  cbn [skip_space] in *. rewrite Hsp in *. rewrite decide_False in Hs by done. rewrite decide_False in Hs by done.
  rewrite !decide_False by done. rewrite Nat.sub_diag.
  destruct (span_digits_run (c :: p) r Hd Hr 0) as (v & Ev & Ev'). cbn [app] in Ev, Ev'. rewrite Ev.
  assert (v = z) as ->.
  { cbn [digits] in Hs, Ev'. destruct Hc as [d Hc]. rewrite Hc in *. congruence. }
  rewrite decide_False by done. do 2 f_equal. lia.
Qed.

(** ** Positions *)
Lemma find_str_char c s p : find_str [c] s = Some p -> s !! p = Some c.
Proof.
  revert p. induction s as [|x s IH]; intros p; simpl; [done|].
  case_decide; [intros [= <-]; by subst|]. destruct (find_str [c] s) as [q|]; [|done]. intros [= <-]. by apply IH.
Qed.

Lemma find_from_bounds c s a p : find_from [c] s a = Some p -> (a <= p < length s)%nat /\ s !! p = Some c.
Proof.
  unfold find_from. case_decide; [done|]. destruct (find_str [c] (drop a s)) as [k|] eqn:E; [|done]. intros [= <-].
  apply find_str_char in E. rewrite lookup_drop in E. split; [|done]. apply lookup_lt_Some in E. lia.
Qed.

Lemma find_str_skip c p r : c ∉ p -> find_str [c] (p ++ c :: r) = Some (length p).
Proof.
  induction p as [|x p IH]; intros Hc; simpl; [by rewrite decide_True|].
  apply not_elem_of_cons in Hc as [Hx Hp]. rewrite decide_False by done. by rewrite IH.
Qed.

Lemma find_str_none c p : c ∉ p -> find_str [c] p = None.
Proof.
  induction p as [|x p IH]; intros Hc; simpl; [done|].
  apply not_elem_of_cons in Hc as [Hx Hp]. rewrite decide_False by done. by rewrite IH.
Qed.

Lemma find_from_skip c q p r : c ∉ p -> find_from [c] (q ++ p ++ c :: r) (length q) = Some (length q + length p)%nat.
Proof.
  intros Hc. unfold find_from. rewrite decide_False by (rewrite length_app; lia). rewrite drop_app_length. by rewrite find_str_skip.
Qed.
Lemma find_from_none c q p : c ∉ p -> find_from [c] (q ++ p) (length q) = None.
Proof.
  intros Hc. unfold find_from. case_decide; [done|]. rewrite drop_app_length. by rewrite find_str_none.
Qed.

Lemma span_digits_le s : forall acc, ((span_digits s acc).2 <= length s)%nat.
Proof.
  induction s as [|c s IH]; intros acc; simpl; [done|]. destruct (digit c) as [d|]; [|simpl; lia].
  specialize (IH (acc * 10 + d)). destruct (span_digits s _). simpl in *. lia.
Qed.

Lemma skip_space_le s : (length (skip_space s) <= length s)%nat.
Proof. induction s as [|c s IH]; simpl; [done|]. destruct (isspace c); simpl; lia. Qed.

Lemma strtol_le s v n : strtol s = Some (v, n) -> (0 < n <= length s)%nat.
Proof.
  unfold strtol. pose proof (skip_space_le s) as Hsp. destruct (skip_space s) as [|c r].
  - simpl. done.
  - assert (forall r', (length r' <= length (c :: r))%nat -> forall sg k, (k + length r' <= length (c :: r))%nat ->
      (let '(v, n) := span_digits r' 0 in if decide (n = 0%nat) then None
       else Some (Z.max (- 2 ^ 63) (Z.min (sg * v) (2 ^ 63 - 1)), (length s - length (c :: r) + k + n)%nat)) = Some (v, n) ->
      (0 < n <= length s)%nat) as Hgen.
    { intros r' _ sg k Hk. pose proof (span_digits_le r' 0) as Hle. destruct (span_digits r' 0) as [w m]. cbn [snd] in Hle.
      case_decide; [done|]. intros [= _ <-]. simpl in *. lia. }
    case_decide; [apply Hgen; simpl; lia|]. case_decide; apply Hgen; simpl; lia.
Qed.
