(* ===== verification/FloatText.v ===== *)
(** * Texts of [float]s: [std::to_string(float)] and [std::stof]

    A [float] is a [spec_float] of the IEEE binary32 format; there is one NaN, without a sign.  The locale is that of C.
    [to_string] writes six decimals, so that [stof] does not always read the same value back: the values for which
    it does are those of at least 16 and those that six decimals write exactly. *)

From S2P Require Import Prelude CxxString.
From Stdlib Require Import ZArith Ascii Lia SpecFloat.
From stdpp Require Import base list strings numbers pretty.

Open Scope Z_scope.

Module FloatText.

(** ** [std::to_string] *)
(** The integer nearest to [n / d], the even one of two. *)
Definition nearest_even (n d : Z) : Z :=
  let q := n / d in
  match 2 * (n mod d) ?= d with Lt => q | Gt => q + 1 | Eq => if Z.even q then q else q + 1 end.
(** [m * 2 ^ e] in millionths. *)
Definition millionths (m e : Z) : Z := nearest_even (m * 10 ^ 6 * 2 ^ Z.max e 0) (2 ^ Z.max (- e) 0).
Definition digit_of (d : Z) : ascii := to_char (48 + d).
Definition six_digits (n : Z) : bytes := (fun k => digit_of (n / 10 ^ k mod 10)) <$> [5; 4; 3; 2; 1; 0].
Definition signed (s : bool) (t : bytes) : bytes := if s then "-"%char :: t else t.
(** [snprintf] with "%f". *)
Definition float_to_string (f : spec_float) : bytes :=
  match f with
  | S754_nan => lit "nan"
  | S754_infinity s => signed s (lit "inf")
  | S754_zero s => signed s (lit "0.000000")
  | S754_finite s m e => let n := millionths (Zpos m) e in signed s (to_string (n / 10 ^ 6) ++ "."%char :: six_digits (n mod 10 ^ 6))
  end.

(** ** [std::stof] *)
Definition lower (c : ascii) : ascii := if decide (65 <= uchar c <= 90) then to_char (uchar c + 32) else c.
Definition digit_in (base : Z) (c : ascii) : option Z :=
  let u := uchar (lower c) in
  let d := if decide (48 <= u <= 57) then Some (u - 48) else if decide (97 <= u <= 102) then Some (u - 87) else None in
  match d with Some d => if decide (d < base) then Some d else None | None => None end.
(** A run of digits: the number with the digits added, how many there are and the rest. *)
Fixpoint run (base : Z) (s : bytes) (acc : Z) (n : nat) : Z * nat * bytes :=
  match s with
  | c :: r => match digit_in base c with Some d => run base r (acc * base + d) (S n) | None => (acc, n, s) end
  | [] => (acc, n, s)
  end.
(** Digits with at most one point, at least one digit: the digits as a number, how many are behind the point, the rest. *)
Definition mantissa (base : Z) (s : bytes) : option (Z * nat * bytes) :=
  let '(v, n, r) := run base s 0 0 in
  let '(v, k, r) := match r with c :: r' => if decide (c = "."%char) then run base r' v 0 else (v, 0%nat, r) | [] => (v, 0%nat, r) end in
  if decide (n + k = 0)%nat then None else Some (v, k, r).
(** The exponent behind its letter, zero when there is none. *)
Definition exponent (letter : ascii) (s : bytes) : Z :=
  match s with
  | c :: r =>
      if decide (lower c = letter) then
        let '(neg, r) := match r with c :: r' => if decide (c = "-"%char) then (true, r') else if decide (c = "+"%char) then (false, r') else (false, r) | [] => (false, r) end in
        let '(v, n, _) := run 10 r 0 0 in
        if decide (n = 0%nat) then 0 else if neg : bool then - v else v
      else 0
  | [] => 0
  end.
(** The value of a text without sign. *)
Inductive number := Nan | Infinity | Ratio (n d : Z).
Definition scaled (base v k : Z) : number := Ratio (v * base ^ Z.max k 0) (base ^ Z.max (- k) 0).
Definition starts (word : string) (s : bytes) : bool := is_prefix (lit word) (map lower s).
Definition unsigned (s : bytes) : option number :=
  if starts "inf" s then Some Infinity
  else if starts "nan" s then Some Nan
  else match (if starts "0x" s then mantissa 16 (drop 2 s) else None) with
       | Some (v, k, r) => Some (scaled 2 v (exponent "p"%char r - 4 * Z.of_nat k))
       | None => '(v, k, r) ← mantissa 10 s; Some (scaled 10 v (exponent "e"%char r - Z.of_nat k))
       end.
Definition exactly (n d : Z) (f : spec_float) : bool :=
  match f with S754_finite _ m e => bool_decide (Zpos m * 2 ^ Z.max e 0 * d = n * 2 ^ Z.max (- e) 0) | _ => false end.
(** Below the normal numbers, also after rounding to 24 bits with an exponent without bounds. *)
Definition tiny (n d : positive) : bool :=
  match SFdiv 24 (10 ^ 30) (S754_finite false n 0) (S754_finite false d 0) with S754_finite _ _ e => bool_decide (e < -149) | _ => true end.
Definition nearest (s : bool) (n d : positive) : spec_float := SFdiv 24 128 (S754_finite s n 0) (S754_finite false d 0).
Definition in_range (s : bool) (n d : positive) : outcome exn spec_float :=
  let f := nearest s n d in
  match f with
  | S754_infinity _ => Throw (out_of_range "stof")
  | _ => if tiny n d && negb (exactly (Zpos n) (Zpos d) f) then Throw (out_of_range "stof") else Ret f
  end.
Definition stof (s : bytes) : outcome exn spec_float :=
  let r := skip_space s in
  let '(neg, r) := match r with c :: r' => if decide (c = "-"%char) then (true, r') else if decide (c = "+"%char) then (false, r') else (false, r) | [] => (false, r) end in
  match unsigned r with
  | None => Throw (invalid_argument "stof")
  | Some Nan => Ret S754_nan
  | Some Infinity => Ret (S754_infinity neg)
  | Some (Ratio (Zpos n) (Zpos d)) => in_range neg n d
  | Some (Ratio _ _) => Ret (S754_zero neg)
  end.

(** ** Rounding *)
(** The record holds [X / D]: its whole part, and how the fraction compares to a half. *)
Definition holds (X D : Z) (x : shr_record) : Prop :=
  exists rem, X = shr_m x * D + rem /\ 0 <= rem < D /\ 0 <= shr_m x /\
  match shr_r x, shr_s x with
  | false, false => rem = 0 | false, true => 0 < 2 * rem < D | true, false => 2 * rem = D | true, true => D < 2 * rem
  end.
Lemma holds_shr_1 X D x : holds X D x -> holds X (2 * D) (shr_1 x).
Proof.
  destruct x as [m r s]. intros (rem & E & Hr & Hm & Hc). cbn [shr_m shr_r shr_s] in *.
  destruct m as [|[m|m|]|m]; [| | | |lia]; unfold holds; cbn [shr_1 shr_m shr_r shr_s];
    [exists rem|exists (D + rem)|exists rem|exists (D + rem)]; (split; [lia|]; split; [lia|]; split; [lia|]); destruct r, s; cbn [orb]; lia.
Qed.
Lemma holds_iter p : forall X D x, holds X D x -> holds X (2 ^ Zpos p * D) (SpecFloat.iter_pos shr_1 p x).
Proof.
  induction p as [p IH|p IH|]; intros X D x H; cbn [SpecFloat.iter_pos].
  - replace (2 ^ Zpos p~1 * D) with (2 ^ Zpos p * (2 ^ Zpos p * (2 * D))); [by apply IH, IH, holds_shr_1|].
    replace (Zpos p~1) with (Zpos p + Zpos p + 1) by lia. rewrite !Z.pow_add_r by lia. ring.
  - replace (2 ^ Zpos p~0 * D) with (2 ^ Zpos p * (2 ^ Zpos p * D)); [by apply IH, IH|].
    replace (Zpos p~0) with (Zpos p + Zpos p) by lia. rewrite !Z.pow_add_r by lia. ring.
  - by apply holds_shr_1.
Qed.
Lemma holds_shr X D x e n : 0 <= n -> holds X D x -> holds X (2 ^ n * D) (fst (shr x e n)) /\ snd (shr x e n) = e + n.
Proof.
  intros Hn H. destruct n as [|p|]; [| |lia]; cbn [shr fst snd].
  - rewrite Z.pow_0_r, Z.mul_1_l. split; [done|lia].
  - split; [by apply holds_iter|done].
Qed.
Lemma holds_location n d : 0 <= n -> 0 < d -> holds n d (shr_record_of_loc (n / d) (new_location d (n mod d))).
Proof.
  intros Hn Hd. pose proof (Z.div_mod n d ltac:(lia)) as E. pose proof (Z.mod_pos_bound n d Hd) as Hb. pose proof (Z.div_pos n d Hn Hd).
  exists (n mod d). unfold new_location, new_location_even, new_location_odd.
  destruct (Z.even d) eqn:Ev; (destruct (Z.eqb_spec (n mod d) 0) as [Ez|Ez]; [cbn; lia|]).
  - destruct (Z.compare_spec (2 * (n mod d)) d); cbn; lia.
  - assert (2 * (n mod d) <> d). { intros Hx. rewrite <- Hx, Z.even_mul in Ev. done. }
    destruct (Z.compare_spec (2 * (n mod d) + 1) d); cbn; lia.
Qed.
Lemma holds_round X D x m : holds X D x -> 2 * Z.abs (X - m * D) < D -> round_nearest_even (shr_m x) (loc_of_shr_record x) = m.
Proof.
  destruct x as [k r s]. intros (rem & -> & Hr & Hk & Hc) Hm. cbn [shr_m shr_r shr_s] in *.
  assert (m = k \/ m = k + 1) as [->| ->] by nia; destruct r, s; cbn [loc_of_shr_record round_nearest_even]; try nia.
Qed.
Lemma digits2_spec (p : positive) : 2 ^ (Zpos (digits2_pos p) - 1) <= Zpos p < 2 ^ Zpos (digits2_pos p).
Proof.
  induction p as [p IH|p IH|]; cbn [digits2_pos]; [| |done]; rewrite Pos2Z.inj_succ; unfold Z.succ; rewrite Z.add_simpl_r, Z.pow_add_r by lia;
    rewrite Z.pow_sub_r in IH by lia; rewrite ?Z.pow_1_r in *; assert (2 ^ Zpos (digits2_pos p) = 2 * (2 ^ Zpos (digits2_pos p) / 2)) as E by
      (pose proof (Z.div_exact (2 ^ Zpos (digits2_pos p)) 2 ltac:(lia)) as [_ H]; apply H; rewrite <- (Z.succ_pred (Zpos (digits2_pos p))), Z.pow_succ_r by lia; rewrite Z.mul_comm; apply Z.mod_mul; lia); lia.
Qed.
Lemma digits2_between m k : 0 < k -> 2 ^ (k - 1) <= m < 2 ^ k -> Zdigits2 m = k.
Proof.
  intros Hk [Hl Hu]. assert (0 < 2 ^ (k - 1)) by (apply Z.pow_pos_nonneg; lia). destruct m as [|p|]; [lia| |lia]. cbn [Zdigits2]. destruct (digits2_spec p) as [Hpl Hpu].
  assert (Zpos (digits2_pos p) - 1 < k) by (apply (Z.pow_lt_mono_r_iff 2); lia). assert (k - 1 < Zpos (digits2_pos p)) by (apply (Z.pow_lt_mono_r_iff 2); lia). lia.
Qed.
Lemma round_aux (emax : Z) (s : bool) (q e0 : Z) (l : location) (X D m e : Z) : emin 24 emax <= e <= emax - 24 -> e0 <= e -> 2 ^ 23 <= m < 2 ^ 24 -> holds X D (shr_record_of_loc q l) ->
  2 ^ (23 + e - e0) <= q < 2 ^ (24 + e - e0) -> 2 * Z.abs (X - m * (2 ^ (e - e0) * D)) < 2 ^ (e - e0) * D ->
  binary_round_aux 24 emax s q e0 l = S754_finite s (Z.to_pos m) e.
Proof.
  intros He Hle Hm Hh Hq Hn. unfold emin in He. unfold binary_round_aux, shr_fexp, fexp, emin.
  rewrite (digits2_between q (24 + e - e0)) by (try lia; replace (24 + e - e0 - 1) with (23 + e - e0) by lia; done).
  replace (Z.max _ _ - e0) with (e - e0) by lia. pose proof (holds_shr X D _ e0 (e - e0) ltac:(lia) Hh) as [Hh' He'].
  destruct (shr (shr_record_of_loc q l) e0 (e - e0)) as [x e1]. cbn [fst snd] in *. replace e1 with e by lia. rewrite (holds_round X _ x m Hh' Hn).
  rewrite (digits2_between m 24) by (done || lia). replace (Z.max _ _ - e) with 0 by lia. cbn [shr shr_record_of_loc shr_m].
  destruct m as [|m|m]; [lia| |lia]. by rewrite (proj2 (Z.leb_le e (emax - 24))) by lia.
Qed.
(** A [float] that is closer than half its last place to a fraction, in the binade of the fraction, is the nearest one. *)
Lemma nearest_found (emax : Z) (s : bool) (n d : positive) (m e : Z) : 2 ^ 23 <= m < 2 ^ 24 -> emin 24 emax <= e <= emax - 24 ->
  let N := Zpos n * 2 ^ Z.max (- e) 0 in let D := Zpos d * 2 ^ Z.max e 0 in
  2 ^ 23 * D <= N -> 2 * Z.abs (N - m * D) < D -> SFdiv 24 emax (S754_finite s n 0) (S754_finite false d 0) = S754_finite s (Z.to_pos m) e.
Proof.
  intros Hm He N D Hlow Hnear. unfold SFdiv. unfold SFdiv_core_binary. cbn [Zdigits2].
  destruct (digits2_spec n) as [Hn1 Hn2], (digits2_spec d) as [Hd1 Hd2]. set (a := Zpos (digits2_pos n)) in *. set (b := Zpos (digits2_pos d)) in *.
  assert (0 < a) by done. assert (0 < b) by done. unfold fexp, emin in *. cbn zeta. set (u := Z.max (- e) 0) in *. set (v := Z.max e 0) in *.
  set (e0 := Z.min (Z.max (a + 0 - (b + 0) - 24) (3 - emax - 24)) (0 - 0)).
  assert (0 < 2 ^ u) by (apply Z.pow_pos_nonneg; lia). assert (0 < 2 ^ v) by (apply Z.pow_pos_nonneg; lia).
  assert (a - 1 + u < 24 + (b + v)) as Hab.
  { apply (Z.pow_lt_mono_r_iff 2); [lia|lia|]. rewrite !Z.pow_add_r by lia. assert (N < 2 ^ 24 * D) by nia. unfold N, D in *. nia. }
  assert (e0 <= e /\ e0 <= 0) as [He0 He1] by lia. set (k := - e0 - u). assert (0 < 2 ^ k) by (apply Z.pow_pos_nonneg; lia).
  replace (match 0 - 0 - e0 with 0 => _ | Zpos _ => _ | Zneg _ => _ end) with (N * 2 ^ k).
  2:{ unfold N. rewrite <- Z.mul_assoc, <- Z.pow_add_r by lia. replace (u + k) with (0 - 0 - e0) by lia. destruct (0 - 0 - e0) eqn:E; [by rewrite Z.mul_1_r|by rewrite Z.shiftl_mul_pow2|lia]. }
  assert (D * 2 ^ k = 2 ^ (e - e0) * Zpos d) as ED by (unfold D; rewrite <- Z.mul_assoc, <- Z.pow_add_r by lia; replace (v + k) with (e - e0) by lia; ring).
  pose proof (holds_location (N * 2 ^ k) (Zpos d) ltac:(nia) ltac:(lia)) as Hh. pose proof (Z.div_mod (N * 2 ^ k) (Zpos d) ltac:(lia)) as Edm. pose proof (Z.mod_pos_bound (N * 2 ^ k) (Zpos d) ltac:(lia)) as Hb.
  destruct (Z.div_eucl (N * 2 ^ k) (Zpos d)) as [q r] eqn:E.
  replace (N * 2 ^ k / Zpos d) with q in * by (unfold Z.div; by rewrite E). replace ((N * 2 ^ k) mod Zpos d) with r in * by (unfold Z.modulo; by rewrite E).
  rewrite xorb_false_r. apply (round_aux emax s q e0 _ (N * 2 ^ k) (Zpos d)); try done.
  - replace (23 + e - e0) with (23 + (e - e0)) by lia. replace (24 + e - e0) with (24 + (e - e0)) by lia. rewrite !Z.pow_add_r by lia.
    assert (2 ^ 23 * D * 2 ^ k <= N * 2 ^ k) by nia. assert (N * 2 ^ k < 2 ^ 24 * D * 2 ^ k) by nia. rewrite <- Z.mul_assoc, ED in *. nia.
  - rewrite <- ED. replace (N * 2 ^ k - m * (D * 2 ^ k)) with ((N - m * D) * 2 ^ k) by ring. rewrite Z.abs_mul, (Z.abs_eq (2 ^ k)) by lia. nia.
Qed.
(** The values that six decimals tell from their neighbours. *)
Definition survives (f : spec_float) : Prop :=
  match f with
  | S754_finite _ m e => 2 ^ 23 <= Zpos m < 2 ^ 24 /\ -149 <= e <= 104 /\ (-19 <= e \/ (2 ^ (- e) | Zpos m * 10 ^ 6))
  | _ => True
  end.
Lemma nearest_even_spec a b : 0 <= a -> 0 < b -> 2 * Z.abs (nearest_even a b * b - a) <= b /\ a / b <= nearest_even a b /\ ((b | a) -> nearest_even a b * b = a).
Proof.
  intros Ha Hb. unfold nearest_even. pose proof (Z.div_mod a b ltac:(lia)) as E. pose proof (Z.mod_pos_bound a b Hb) as Hm.
  assert ((b | a) -> a mod b = 0) as Hd by (apply Z.mod_divide; lia).
  destruct (Z.compare_spec (2 * (a mod b)) b); [destruct (Z.even (a / b))|..]; (split; [|split; [|intros Hx; specialize (Hd Hx)]]); nia.
Qed.
Lemma millionths_nonneg m e : 0 <= m -> 0 <= millionths m e.
Proof.
  intros Hm. unfold millionths. set (u := Z.max (- e) 0). set (v := Z.max e 0). assert (0 < 2 ^ u) by (apply Z.pow_pos_nonneg; lia). assert (0 < 2 ^ v) by (apply Z.pow_pos_nonneg; lia).
  destruct (nearest_even_spec (m * 10 ^ 6 * 2 ^ v) (2 ^ u)) as (_ & Hl & _); [nia|done|]. pose proof (Z.div_pos (m * 10 ^ 6 * 2 ^ v) (2 ^ u) ltac:(nia) ltac:(done)). lia.
Qed.
Lemma millionths_near m e : 2 ^ 23 <= m -> (-19 <= e \/ (2 ^ (- e) | m * 10 ^ 6)) ->
  let N := millionths m e * 2 ^ Z.max (- e) 0 in let D := 10 ^ 6 * 2 ^ Z.max e 0 in 2 ^ 23 * D <= N /\ 2 * Z.abs (N - m * D) < D.
Proof.
  intros Hm He. cbn zeta. unfold millionths. set (u := Z.max (- e) 0). set (v := Z.max e 0). assert (0 < 2 ^ u) by (apply Z.pow_pos_nonneg; lia). assert (0 < 2 ^ v) by (apply Z.pow_pos_nonneg; lia).
  destruct (nearest_even_spec (m * 10 ^ 6 * 2 ^ v) (2 ^ u)) as (Hn & Hl & Hx); [nia|done|].
  assert ((2 ^ u | m * 10 ^ 6 * 2 ^ v) \/ (-19 <= e < 0)) as [Hd|Hs].
  { destruct (decide (0 <= e)) as [Hp|Hp]; [left; unfold u; rewrite Z.max_r by lia; apply Z.divide_1_l|]. destruct He as [He|He]; [right; lia|left].
    unfold u. rewrite Z.max_l by lia. by apply Z.divide_mul_l. }
  - rewrite (Hx Hd). nia.
  - assert (v = 0 /\ u = - e) as [-> ->] by lia. rewrite Z.pow_0_r, !Z.mul_1_r in *.
    assert (2 ^ (- e) <= 2 ^ 19) by (apply Z.pow_le_mono_r; lia). split; [|nia]. assert (2 ^ 23 = 2 ^ (23 + e) * 2 ^ (- e)) as E23 by (rewrite <- Z.pow_add_r by lia; f_equal; lia).
    assert (2 ^ (23 + e) * 10 ^ 6 <= m * 10 ^ 6 / 2 ^ (- e)) by (apply Z.div_le_lower_bound; nia). nia.
Qed.
Lemma in_range_found s n m e : 2 ^ 23 <= Zpos m < 2 ^ 24 -> -149 <= e <= 104 -> (-19 <= e \/ (2 ^ (- e) | Zpos m * 10 ^ 6)) -> Zpos n = millionths (Zpos m) e ->
  in_range s n 1000000 = Ret (S754_finite s m e).
Proof.
  intros Hm He Hs En. destruct (millionths_near (Zpos m) e ltac:(lia) Hs) as [Hl Hn]. rewrite <- En in *.
  unfold in_range, nearest, tiny. rewrite (nearest_found 128 s n 1000000 (Zpos m) e) by (done || unfold emin; lia). rewrite (nearest_found (10 ^ 30) false n 1000000 (Zpos m) e) by (done || unfold emin; lia).
  by rewrite bool_decide_eq_false_2 by lia.
Qed.
(** ** What is written is read *)
Lemma digit_in_10 c : digit_in 10 c = digit c.
Proof. destruct c as [[] [] [] [] [] [] [] []]; reflexivity. Qed.
Lemma run_digits p r n : Forall (fun c => is_Some (digit c)) p -> match r with c :: _ => digit c = None | [] => True end ->
  forall acc, exists v, run 10 (p ++ r) acc n = (v, (n + length p)%nat, r) /\ digits (p ++ r) acc true = Some v.
Proof.
  intros Hp Hr. revert n. induction Hp as [|c p [d Hd] _ IH]; intros n acc.
  - exists acc. rewrite Nat.add_0_r. destruct r as [|c r]; [done|]. cbn [app run digits]. by rewrite digit_in_10, Hr.
  - cbn [app run digits]. rewrite digit_in_10, Hd. destruct (IH (S n) (acc * 10 + d)) as (v & -> & E). exists v. split; [do 2 f_equal; cbn; lia|done].
Qed.
Lemma run_to_string z r : 0 <= z -> match r with c :: _ => digit c = None | [] => True end -> run 10 (to_string z ++ r) 0 0 = (z, length (to_string z), r).
Proof.
  intros Hz Hr. destruct (to_string_digits z Hz) as [Hne Hd]. destruct (run_digits (to_string z) r 0 Hd Hr 0) as (v & -> & Ev). do 2 f_equal.
  pose proof (strtoz_to_string z r Hz Hr) as Hs. destruct (to_string z) as [|c p]; [done|]. apply Forall_inv in Hd as Hc. destruct (digit_not_space c Hc) as (Hsp & Hm & Hpl).
  unfold strtoz in Hs. cbn [app skip_space] in Hs. rewrite Hsp, !decide_False in Hs by done. cbn [app digits] in Hs, Ev. destruct Hc as [d Hc]. rewrite Hc in *. congruence.
Qed.
Lemma digit_of_spec d : 0 <= d < 10 -> digit_in 10 (digit_of d) = Some d.
Proof. intros Hd. assert (d = 0 \/ d = 1 \/ d = 2 \/ d = 3 \/ d = 4 \/ d = 5 \/ d = 6 \/ d = 7 \/ d = 8 \/ d = 9) as Hc by lia. by repeat destruct Hc as [->|Hc]; [..|subst]. Qed.
Lemma run_six k acc : 0 <= k < 10 ^ 6 -> run 10 (six_digits k) acc 0 = (acc * 10 ^ 6 + k, 6%nat, []).
Proof.
  intros Hk. unfold six_digits. cbn [fmap list_fmap run]. rewrite !digit_of_spec by (apply Z.mod_pos_bound; lia). do 2 f_equal.
  change (10 ^ 5) with (10 * 10 * 10 * 10 * 10). change (10 ^ 4) with (10 * 10 * 10 * 10). change (10 ^ 3) with (10 * 10 * 10). change (10 ^ 2) with (10 * 10). change (10 ^ 1) with 10. change (10 ^ 0) with 1.
  rewrite <- !Z.div_div, Z.div_1_r by lia. change (10 ^ 6) with 1000000 in *. Z.to_euclidean_division_equations. lia.
Qed.
Definition decimal (n : Z) : bytes := to_string (n / 10 ^ 6) ++ "."%char :: six_digits (n mod 10 ^ 6).
Lemma mantissa_decimal n : 0 <= n -> mantissa 10 (decimal n) = Some (n, 6%nat, []).
Proof.
  intros Hn. unfold mantissa, decimal. rewrite run_to_string by (done || apply Z.div_pos; lia). rewrite decide_True by done. rewrite run_six by (apply Z.mod_pos_bound; lia).
  rewrite decide_False by lia. do 3 f_equal. pose proof (Z.div_mod n (10 ^ 6) ltac:(lia)). lia.
Qed.
Lemma digit_lower c : is_Some (digit c) -> lower c = c /\ c <> "i"%char /\ c <> "n"%char /\ c <> "x"%char.
Proof. destruct c as [[] [] [] [] [] [] [] []]; vm_compute; intros [? ?]; try discriminate; repeat split; discriminate. Qed.
(** A text that starts with a digit, followed by a digit or a point, is no infinity, no NaN and not hexadecimal. *)
Lemma unsigned_digits c d r : is_Some (digit c) -> is_Some (digit d) \/ d = "."%char -> unsigned (c :: d :: r) = ('(v, k, r) ← mantissa 10 (c :: d :: r); Some (scaled 10 v (exponent "e"%char r - Z.of_nat k))).
Proof.
  intros Hc Hd. destruct (digit_lower c Hc) as (Hl & Hi & Hn & _). unfold unsigned, starts. cbn [map]. rewrite Hl.
  change (lit "inf") with ["i"; "n"; "f"]%char. change (lit "nan") with ["n"; "a"; "n"]%char. change (lit "0x") with ["0"; "x"]%char. cbn [is_prefix].
  rewrite (decide_False (P := "i"%char = c)), (decide_False (P := "n"%char = c)) by congruence.
  assert ("x"%char <> lower d) as Hx by (destruct Hd as [Hd| ->]; [destruct (digit_lower d Hd) as (-> & _ & _ & ?); congruence|done]).
  rewrite (decide_False (P := "x"%char = lower d)) by done. by destruct (decide ("0"%char = c)).
Qed.
Lemma decimal_unsigned n : 0 <= n -> exists c r, decimal n = c :: r /\ is_Some (digit c) /\ unsigned (decimal n) = Some (Ratio n (10 ^ 6)).
Proof.
  intros Hn. pose proof (mantissa_decimal n Hn) as Hm. destruct (to_string_digits (n / 10 ^ 6)) as [Hne Hd]; [apply Z.div_pos; lia|].
  unfold decimal in *. destruct (to_string (n / 10 ^ 6)) as [|c p]; [done|]. exists c, (p ++ "."%char :: six_digits (n mod 10 ^ 6)). apply Forall_cons in Hd as [Hc Hp].
  split; [done|]. split; [done|]. cbn [app] in *. assert (exists d r, p ++ "."%char :: six_digits (n mod 10 ^ 6) = d :: r /\ (is_Some (digit d) \/ d = "."%char)) as (d & r & E & Hdd).
  { destruct Hp as [|d p Hd Hp]; [by eexists _, _; split; [|right]|eexists _, _; split; [done|by left]]. }
  rewrite E in *. rewrite unsigned_digits, Hm by done. cbn [mbind option_bind exponent]. unfold scaled.
  change (Z.max (0 - Z.of_nat 6) 0) with 0. change (Z.max (- (0 - Z.of_nat 6)) 0) with 6. by rewrite Z.pow_0_r, Z.mul_1_r.
Qed.
Lemma stof_signed s n : 0 <= n -> stof (signed s (decimal n)) = match n with Zpos n => in_range s n 1000000 | _ => Ret (S754_zero s) end.
Proof.
  intros Hn. destruct (decimal_unsigned n Hn) as (c & r & E & Hc & Hu). destruct (digit_not_space c Hc) as (Hsp & Hm & Hpl). rewrite E in *. unfold stof. destruct s; cbn [signed skip_space].
  - change (isspace "-") with false. cbn iota. rewrite decide_True by done. rewrite Hu. by destruct n.
  - rewrite Hsp, !decide_False by done. rewrite Hu. by destruct n.
Qed.
(** A value of at least 16, an infinity, and one that six decimals write exactly is read as it was written. *)
Lemma stof_to_string (f : spec_float) : survives f -> stof (float_to_string f) = Ret f.
Proof.
  destruct f as [s|s| |s m e]; [intros _; destruct s; by vm_compute|intros _; destruct s; by vm_compute|by intros _; vm_compute|]. intros (Hm & He & Hs). cbn [float_to_string].
  destruct (millionths_near (Zpos m) e ltac:(lia) Hs) as [Hl _]. assert (0 < 2 ^ Z.max (- e) 0) by (apply Z.pow_pos_nonneg; lia). assert (0 < 2 ^ Z.max e 0) by (apply Z.pow_pos_nonneg; lia).
  fold (decimal (millionths (Zpos m) e)). rewrite stof_signed by nia. destruct (millionths (Zpos m) e) as [|n|n] eqn:E; [nia| |nia]. by apply in_range_found.
Qed.
Lemma stof_defined t : match stof t with Ret _ | Throw _ => True | _ => False end.
Proof.
  unfold stof. destruct (match skip_space t with [] => _ | _ => _ end) as [neg r]. destruct (unsigned r) as [[| |[|n|n] [|d|d]]|]; try done.
  unfold in_range. cbv zeta. destruct (nearest neg n d); [..|]; try done; by destruct (_ && _).
Qed.
(** The text of a [float] is one line. *)
Lemma float_one_line f : to_char 10 ∉ float_to_string f.
Proof.
  assert (forall s t, to_char 10 ∉ t -> to_char 10 ∉ signed s t) as Hs by (intros [] t Ht; [by apply not_elem_of_cons|done]).
  destruct f as [s|s| |s m e]; cbn [float_to_string]; [apply Hs, (bool_decide_unpack _); by vm_compute..|apply (bool_decide_unpack _); by vm_compute|]. apply Hs.
  set (n := millionths _ _). apply not_elem_of_app. split.
  - destruct (decide (0 <= n / 10 ^ 6)) as [Hp|Hp]; [destruct (to_string_digits _ Hp) as [_ Hd]; intros Hn; by destruct (proj1 (list.Forall_forall _ _) Hd _ Hn)|].
    exfalso. apply Hp, Z.div_pos; [apply millionths_nonneg|]; lia.
  - apply not_elem_of_cons. split; [done|]. unfold six_digits. intros (k & E & _)%list_elem_of_fmap. pose proof (digit_of_spec (n mod 10 ^ 6 / 10 ^ k mod 10) (Z.mod_pos_bound (n mod 10 ^ 6 / 10 ^ k) 10 ltac:(lia))) as Hd.
    rewrite <- E in Hd. done.
Qed.
(** The first [float] above one is written as one, and a small one as zero. *)
Theorem six_decimals_lose : float_to_string (S754_finite false 8388609 (-23)) = lit "1.000000" /\ stof (lit "1.000000") = Ret (S754_finite false 8388608 (-23)) /\
  stof (lit "1e-7") = Ret (S754_finite false 14073749 (-47)) /\ float_to_string (S754_finite false 14073749 (-47)) = lit "0.000000" /\ stof (lit "0.000000") = Ret (S754_zero false).
Proof. split_and!; by vm_compute. Qed.
End FloatText.
