(* ===== verification/CxxTime.v ===== *)
(** * The calendar functions of the C library that the sources call

    [gmtime], and [strftime] and [snprintf] for the formats of the timestamps.  A
    [system_clock::time_point] is the number of nanoseconds since the epoch. *)

From S2P Require Import Prelude CxxString.
From Stdlib Require Import ZArith Ascii Lia.
From stdpp Require Import base list strings numbers.

Open Scope Z_scope.

Record tm := mkTm { tm_year : Z; tm_mon : Z; tm_mday : Z; tm_hour : Z; tm_min : Z; tm_sec : Z }.

(** The proleptic Gregorian date of a day since 1970-01-01, by eras of 400 years that
    start on the first of March. *)
Definition civil_of_doe (doe : Z) : Z * Z * Z :=
  let yoe := (doe - doe / 1460 + doe / 36524 - doe / 146096) / 365 in
  let doy := doe - (365 * yoe + yoe / 4 - yoe / 100) in
  let mp := (5 * doy + 2) / 153 in
  let m := if mp <? 10 then mp + 3 else mp - 9 in
  (if m <=? 2 then yoe + 1 else yoe, m, doy - (153 * mp + 2) / 5 + 1).
Definition civil_of_days (days : Z) : Z * Z * Z :=
  let z := days + 719468 in
  let '(y, m, d) := civil_of_doe (z mod 146097) in
  (y + z / 146097 * 400, m, d).

Definition gmtime (t : Z) : tm :=
  let '(y, m, d) := civil_of_days (t / 86400) in
  let s := t mod 86400 in
  mkTm y m d (s / 3600) (s / 60 mod 60) (s mod 60).

(** [%0wd]: the sign counts for the width. *)
Definition zero_padded (w : nat) (z : Z) : bytes :=
  let s := to_string (Z.abs z) in
  let sign := if decide (z < 0) then lit "-" else [] in
  sign ++ repeat "0"%char (w - length sign - length s) ++ s.

(** [strftime] with the format [%FT%T]; the format is not limited to a width of years. *)
Definition strftime_FT (t : tm) : bytes :=
  to_string (tm_year t) ++ lit "-" ++ zero_padded 2 (tm_mon t) ++ lit "-" ++ zero_padded 2 (tm_mday t) ++ lit "T" ++
  zero_padded 2 (tm_hour t) ++ lit ":" ++ zero_padded 2 (tm_min t) ++ lit ":" ++ zero_padded 2 (tm_sec t).

(** ** Dates around the leap years *)
Lemma gmtime_examples :
  map (fun t => let r := gmtime t in (tm_year r, tm_mon r, tm_mday r)) [-1; 0; 951782400; 951868800; 4107456000; 4107542400]
  = [(1969, 12, 31); (1970, 1, 1); (2000, 2, 29); (2000, 3, 1); (2100, 2, 28); (2100, 3, 1)].
Proof. done. Qed.
