(* ===== verification/EventBatch.v ===== *)
(** * Batches of telemetry events (cll-telemetry/include/cll/event_batch.h)

    The lists of events a batch hands to the uploader, the interface of the batches
    ([EventBatch]), what every implementation promises ([BatchSpec]: a first-in
    first-out queue of lines), and the disk the file batches work on. *)

From S2P Require Import Prelude Json.
From Stdlib Require Import ZArith Ascii Lia.
From stdpp Require Import base list gmap strings numbers.

Open Scope Z_scope.

(** ** The disk

    [files] are the contents by path.  [io] is what the next calls of [write] do:
    write everything, write a part, or fail; with none left they write everything.
    [openable] is whether [open] succeeds. *)
Inductive write_result : Type := write_all | write_part (n : nat) | write_error.

Record fs := mkFs {
  files : gmap bytes bytes;
  io : list write_result;
  openable : bool
}.
Definition set_files (m : gmap bytes bytes) (d : fs) : fs := mkFs m (io d) (openable d).
Definition set_io (l : list write_result) (d : fs) : fs := mkFs (files d) l (openable d).

(** Data written at an offset; a hole is filled with zero bytes. *)
Definition write_at (content : bytes) (pos : nat) (data : bytes) : bytes :=
  take pos content ++ repeat NUL (pos - length content) ++ data ++ drop (pos + length data) content.

(** [write(fd, data, n)] at [pos]: the disk and the number of bytes, [None] for -1. *)
Definition disk_write (d : fs) (path : bytes) (pos : nat) (data : bytes) : fs * option nat :=
  let content := default [] (files d !! path) in
  let put n := set_files (<[path := write_at content pos (take n data)]> (files d)) in
  match io d with
  | [] => (put (length data) d, Some (length data))
  | write_all :: l => (put (length data) (set_io l d), Some (length data))
  | write_part n :: l => let n := Nat.min n (length data) in (put n (set_io l d), Some n)
  | write_error :: l => (set_io l d, None)
  end.

(** [ftruncate], which can also extend. *)
Definition disk_truncate (d : fs) (path : bytes) (n : nat) : fs :=
  let content := default [] (files d !! path) in
  set_files (<[path := take n content ++ repeat NUL (n - length content)]> (files d)) d.
Definition disk_remove (d : fs) (path : bytes) : fs := set_files (delete path (files d)) d.

(** ** The lists of events *)
Inductive wrapper_type : Type := Wrapped | Memory.

Inductive event_list : Type :=
| VectorBatchedEventList (data : bytes) (events : Z) (moreEvents : bool)
| MultiEventList (wrapped : event_list) (hasMoreFiles : bool)
| WrapperBufferedEventList (type : wrapper_type) (wrapped : option event_list) (hasMemoryEvents : bool)
| MergedBufferedEventList (wrapped mem : event_list) (data : bytes).

(** The virtual functions; a null [wrapped] pointer is dereferenced. *)
Fixpoint getData {E} (l : event_list) : outcome E bytes :=
  match l with
  | VectorBatchedEventList data _ _ => Ret data
  | MultiEventList w _ => getData w
  | WrapperBufferedEventList _ (Some w) _ => getData w
  | WrapperBufferedEventList _ None _ => Undef
  | MergedBufferedEventList _ _ data => Ret data
  end.
Definition getDataSize {E} (l : event_list) : outcome E Z :=
  data ← getData l; Ret (Z.of_nat (length data)).
Fixpoint getEventCount {E} (l : event_list) : outcome E Z :=
  match l with
  | VectorBatchedEventList _ n _ => Ret n
  | MultiEventList w _ => getEventCount w
  | WrapperBufferedEventList _ (Some w) _ => getEventCount w
  | WrapperBufferedEventList _ None _ => Undef
  | MergedBufferedEventList w m _ => a ← getEventCount w; b ← getEventCount m; Ret (a + b)
  end.
Fixpoint hasMoreEvents {E} (l : event_list) : outcome E bool :=
  match l with
  | VectorBatchedEventList _ _ more => Ret more
  | MultiEventList w files => b ← hasMoreEvents w; Ret (files || b)
  | WrapperBufferedEventList _ w mem =>
      if mem then Ret true else match w with Some w => hasMoreEvents w | None => Undef end
  | MergedBufferedEventList w m _ => b ← hasMoreEvents w; if (b : bool) then Ret true else hasMoreEvents m
  end.

(** ** The interface *)
Class EventBatch (json B : Type) := {
  addEvent : json -> fs * B -> outcome (jexn json) (fs * B * bool);
  getEventsForUpload : Z -> Z -> fs * B -> outcome (jexn json) (fs * B * option event_list);
  onEventsUploaded : event_list -> fs * B -> outcome (jexn json) (fs * B);
  hasEvents : B -> bool
}.

Definition SIZE_MAX : Z := 2 ^ 64 - 1.

(** The line an event is stored as. *)
Definition crlf : bytes := map to_char [13; 10].
Definition event_line {json} `{Json json} (j : json) : outcome (jexn json) bytes :=
  s ← json_dump j; Ret (s ++ crlf).

(** ** Queues of lines *)
Definition is_line (l : bytes) : Prop := exists s, l = s ++ [newline] /\ newline ∉ s.
Definition lsize (ls : list bytes) : Z := Z.of_nat (length (concat ls)).

(** The longest prefix of [ls] with at most [maxCount] lines and [maxSize] bytes. *)
Fixpoint prefix_len (maxCount maxSize : Z) (ls : list bytes) : nat :=
  match ls with
  | [] => 0%nat
  | l :: ls =>
      if decide (0 < maxCount /\ Z.of_nat (length l) <= maxSize)
      then S (prefix_len (maxCount - 1) (maxSize - Z.of_nat (length l)) ls) else 0%nat
  end.

(** [el] holds the lines [ls]. *)
Definition holds (el : event_list) (ls : list bytes) : Prop :=
  forall E, getData (E := E) el = Ret (concat ls) /\ getEventCount (E := E) el = Ret (Z.of_nat (length ls))
    /\ exists more, hasMoreEvents (E := E) el = Ret more.

(** What a batch promises.  [queued s ls]: the batch, on a disk without faults, stores
    the lines [ls]; [issued s el k]: reporting [el] as uploaded removes the first [k]. *)
Class BatchSpec (json B : Type) `{Json json, EventBatch json B} := {
  queued : fs * B -> list bytes -> Prop;
  issued : fs * B -> event_list -> nat -> Prop;
  (* the events the batch accepts *)
  accepts : B -> bytes -> Prop;
  queued_unique s l1 l2 : queued s l1 -> queued s l2 -> l1 = l2;
  queued_hasEvents s ls : queued s ls -> ls ≠ [] -> hasEvents s.2 = true;
  queued_add s ls j line : queued s ls -> json_dump j = Ret line -> newline ∉ line -> accepts s.2 (line ++ crlf) ->
    lsize ls + Z.of_nat (length (line ++ crlf)) < 2 ^ 63 ->
    exists s' b, addEvent j s = Ret (s', b) /\ queued s' (if b then ls ++ [line ++ crlf] else ls);
  queued_get s ls maxCount maxSize : queued s ls -> ls ≠ [] -> 0 < maxCount < 2 ^ 64 -> 0 < maxSize < 2 ^ 64 ->
    exists s' el k, getEventsForUpload maxCount maxSize s = Ret (s', Some el) /\ queued s' ls
      /\ (k <= length ls)%nat /\ holds el (take k ls) /\ issued s' el k
      /\ Z.of_nat k <= maxCount /\ lsize (take k ls) <= maxSize
      /\ (forall E, hasMoreEvents (E := E) el = Ret false -> k = length ls)
      /\ (forall l ls', ls = l :: ls' -> Z.of_nat (length l) <= Z.min maxSize (1024 * 1024) -> (0 < k)%nat);
  queued_uploaded s ls el k : queued s ls -> issued s el k -> (k <= length ls)%nat ->
    exists s', onEventsUploaded el s = Ret s' /\ queued s' (drop k ls)
}.

(** A batch that never refuses an event it accepts and keeps accepting it, that has
    nothing to hand out when it is empty, and whose lists stay valid while events are
    added. *)
Class ReliableBatch (json B : Type) `{BatchSpec json B} := {
  reliable_add s ls j line s' b : queued s ls -> json_dump j = Ret line -> newline ∉ line -> accepts s.2 (line ++ crlf) ->
    lsize ls + Z.of_nat (length (line ++ crlf)) < 2 ^ 63 -> addEvent j s = Ret (s', b) ->
    b = true /\ forall el k, issued s el k -> issued s' el k;
  get_empty s maxCount maxSize : queued s [] -> 0 < maxCount -> 0 < maxSize ->
    exists s', getEventsForUpload maxCount maxSize s = Ret (s', None) /\ queued s' [] /\ hasEvents s'.2 = false;
  accepts_add s j s' b l : addEvent j s = Ret (s', b) -> accepts s.2 l -> accepts s'.2 l;
  accepts_get s c m s' r l : getEventsForUpload c m s = Ret (s', r) -> accepts s.2 l -> accepts s'.2 l;
  accepts_uploaded s el s' l : onEventsUploaded el s = Ret s' -> accepts s.2 l -> accepts s'.2 l
}.

(** ** Lemmas *)
Lemma prefix_len_le c m ls : (prefix_len c m ls <= length ls)%nat.
Proof. revert c m. induction ls as [|l ls IH]; intros c m; simpl; [lia|]. case_decide; [|lia]. specialize (IH (c - 1) (m - Z.of_nat (length l))). lia. Qed.

Lemma prefix_len_0 m ls : prefix_len 0 m ls = 0%nat.
Proof. destruct ls as [|l ls]; [done|]. cbn [prefix_len]. by rewrite decide_False by lia. Qed.

Lemma lsize_nil : lsize [] = 0.
Proof. done. Qed.
Lemma lsize_cons l ls : lsize (l :: ls) = Z.of_nat (length l) + lsize ls.
Proof. unfold lsize. simpl. rewrite length_app. lia. Qed.
Lemma lsize_app a b : lsize (a ++ b) = lsize a + lsize b.
Proof. unfold lsize. rewrite concat_app, length_app. lia. Qed.
Lemma lsize_nonneg ls : 0 <= lsize ls.
Proof. unfold lsize. lia. Qed.

(** The prefix obeys both limits. *)
Lemma prefix_len_fits c m ls : 0 <= c -> 0 <= m ->
  Z.of_nat (prefix_len c m ls) <= c /\ lsize (take (prefix_len c m ls) ls) <= m.
Proof.
  revert c m. induction ls as [|l ls IH]; intros c m Hc Hm; simpl; [by rewrite lsize_nil|].
  case_decide as Hd; [|simpl; rewrite lsize_nil; lia]. simpl. rewrite lsize_cons.
  destruct (IH (c - 1) (m - Z.of_nat (length l))) as [? ?]; lia.
Qed.

Lemma prefix_len_progress c m l ls : 0 < c -> Z.of_nat (length l) <= m -> (0 < prefix_len c m (l :: ls))%nat.
Proof. intros. simpl. rewrite decide_True by done. lia. Qed.

Lemma is_line_nonempty l : is_line l -> (0 < length l)%nat.
Proof. intros (s & -> & _). rewrite length_app. simpl. lia. Qed.

Lemma event_is_line s : newline ∉ s -> is_line (s ++ crlf).
Proof.
  intros Hs. exists (s ++ [to_char 13]). split; [by rewrite <- app_assoc|]. rewrite elem_of_app.
  intros [?|Hc]; [done|]. apply list_elem_of_singleton in Hc. discriminate Hc.
Qed.
