(* ===== verification/MemoryBatch.v ===== *)
(** * The batch in memory (cll-telemetry/src/memory_event_batch.cpp) *)

From S2P Require Import Prelude Json EventBatch.
From Stdlib Require Import ZArith Ascii Lia.
From stdpp Require Import base list gmap strings numbers.

Open Scope Z_scope.

Module MemoryBatch.
Section MemoryBatch.
Context {json : Type} `{Json json}.
Notation result := (outcome (jexn json)).

Record memory_batch := mkMemory { items : list json; limit : Z }.

Definition mem_addEvent (rawData : json) (b : memory_batch) : memory_batch * bool :=
  if decide (limit b <= Z.of_nat (length (items b))) then (b, false)
  else (mkMemory (items b ++ [rawData]) (limit b), true).

Definition mem_hasEvents (b : memory_batch) : bool :=
  match items b with [] => false | _ => true end.

(** The loop over the items: the data so far and the number of events. *)
Fixpoint collect (l : list json) (maxCount maxSize : Z) (ret : bytes) (count : Z) : result (bytes * Z) :=
  match l with
  | [] => Ret (ret, count)
  | i :: l =>
      itm ← json_dump i;
      let ns := Z.of_nat (length ret) + Z.of_nat (length itm) + 2 in
      if decide (maxSize < ns) then Ret (ret, count)
      else
        let ret := ret ++ itm ++ crlf in
        if decide (count + 1 = maxCount) then Ret (ret, count + 1)
        else collect l maxCount maxSize ret (count + 1)
  end.

Definition mem_getEventsForUpload (maxCount maxSize : Z) (b : memory_batch) : result (option event_list) :=
  if decide (maxCount = 0 \/ maxSize = 0 \/ items b = []) then Ret None
  else
    '(ret, count) ← collect (items b) maxCount maxSize [] 0;
    Ret (Some (VectorBatchedEventList ret count (bool_decide (count < Z.of_nat (length (items b)))))).

Definition mem_onEventsUploaded (events : event_list) (b : memory_batch) : result memory_batch :=
  n ← getEventCount events;
  if decide (0 <= n <= Z.of_nat (length (items b))) then Ret (mkMemory (drop (Z.to_nat n) (items b)) (limit b))
  else Undef.

Definition transferAllEvents (b : memory_batch) : list json * memory_batch :=
  (items b, mkMemory [] (limit b)).

#[export] Instance memory_event_batch : EventBatch json memory_batch := {
  addEvent j s := let '(b, r) := mem_addEvent j s.2 in Ret (s.1, b, r);
  getEventsForUpload maxCount maxSize s := r ← mem_getEventsForUpload maxCount maxSize s.2; Ret (s, r);
  onEventsUploaded events s := b ← mem_onEventsUploaded events s.2; Ret (s.1, b);
  hasEvents := mem_hasEvents
}.

(** ** It is a queue *)

(** [l] is the line of the event [j]. *)
Definition line_of (j : json) (l : bytes) : Prop :=
  exists d, json_dump j = Ret d /\ newline ∉ d /\ l = d ++ crlf.

Lemma collect_prefix l ls : Forall2 line_of l ls -> forall maxCount maxSize ret count,
  count < maxCount -> Z.of_nat (length ret) <= maxSize ->
  collect l maxCount maxSize ret count =
    let k := prefix_len (maxCount - count) (maxSize - Z.of_nat (length ret)) ls in
    Ret (ret ++ concat (take k ls), count + Z.of_nat k).
Proof.
  induction 1 as [|j line l ls (d & Hd & Hn & ->) _ IH]; intros maxCount maxSize ret count Hc Hs; cbn [collect].
  { simpl. by rewrite app_nil_r, Z.add_0_r. }
  rewrite Hd. cbn [mbind outcome_bind]. cbv zeta. cbn [prefix_len].
  assert (Z.of_nat (length (d ++ crlf)) = Z.of_nat (length d) + 2) as Hl by (rewrite length_app; simpl; lia).
  case_decide as Hbig.
  { rewrite decide_False by lia. simpl. by rewrite app_nil_r, Z.add_0_r. }
  rewrite (decide_True (P := 0 < maxCount - count /\ _)) by lia. case_decide as Hlast.
  - replace (maxCount - count - 1) with 0 by lia.
    rewrite prefix_len_0. simpl. by rewrite app_nil_r.
  - rewrite IH by (rewrite ?length_app; simpl; lia).
    replace (maxCount - (count + 1)) with (maxCount - count - 1) by lia.
    replace (maxSize - Z.of_nat (length (ret ++ d ++ crlf)))
      with (maxSize - Z.of_nat (length ret) - Z.of_nat (length (d ++ crlf))) by (rewrite !length_app; lia).
    cbv zeta. set (k := prefix_len _ _ ls). simpl. rewrite <- !app_assoc. do 2 f_equal. lia.
Qed.

Definition mem_queued (s : fs * memory_batch) (ls : list bytes) : Prop := Forall2 line_of (items s.2) ls.

Lemma vector_holds ls more : holds (VectorBatchedEventList (concat ls) (Z.of_nat (length ls)) more) ls.
Proof. intros E. split; [done|]. split; [done|by exists more]. Qed.

Lemma line_of_unique j l1 l2 : line_of j l1 -> line_of j l2 -> l1 = l2.
Proof. intros (d1 & E1 & _ & ->) (d2 & E2 & _ & ->). rewrite E1 in E2. by simplify_eq. Qed.

Lemma lines_of_unique js l1 : Forall2 line_of js l1 -> forall l2, Forall2 line_of js l2 -> l1 = l2.
Proof.
  induction 1 as [|j l js ls Hl _ IH]; intros l2 H2; inversion H2 as [|? l' ? ls' Hl']; subst; [done|].
  f_equal; [by apply line_of_unique with j|by apply IH].
Qed.

(** The list of a nonempty memory. *)
Lemma mem_get_ok b ls c m : Forall2 line_of (items b) ls -> ls ≠ [] -> 0 < c -> 0 < m ->
  exists el, mem_getEventsForUpload c m b = Ret (Some el) /\ holds el (take (prefix_len c m ls) ls)
    /\ (forall E, hasMoreEvents (E := E) el = Ret false -> prefix_len c m ls = length ls).
Proof.
  intros Hq Hne Hc Hm. pose proof (Forall2_length Hq) as Hlen. unfold mem_getEventsForUpload.
  rewrite decide_False; [|intros [?|[?|E]]; [lia|lia|]; rewrite E in Hq; by apply Forall2_nil_inv_l in Hq].
  rewrite (collect_prefix _ _ Hq) by (simpl; lia). cbn [mbind outcome_bind]. cbv beta iota zeta.
  rewrite !Z.sub_0_r. pose proof (prefix_len_le c m ls) as Hk. set (k := prefix_len c m ls) in *.
  eexists. split; [done|]. split.
  - replace (0 + Z.of_nat k) with (Z.of_nat (length (take k ls))) by (rewrite length_take; lia). apply vector_holds.
  - intros E [= Hm']. apply bool_decide_eq_false in Hm'. lia.
Qed.

Lemma mem_uploaded_ok b ls el k : Forall2 line_of (items b) ls -> (k <= length ls)%nat ->
  getEventCount (E := jexn json) el = Ret (Z.of_nat k) ->
  mem_onEventsUploaded el b = Ret (mkMemory (drop k (items b)) (limit b)).
Proof.
  intros Hq Hk Hi. unfold mem_onEventsUploaded. rewrite Hi. cbn [mbind outcome_bind].
  pose proof (Forall2_length Hq) as Hlen. rewrite decide_True by lia. by rewrite Nat2Z.id.
Qed.

#[export] Instance memory_batch_spec : BatchSpec json memory_batch.
Proof.
  refine {| queued := mem_queued; accepts _ _ := True;
            issued s el k := getEventCount (E := jexn json) el = Ret (Z.of_nat k) |}.
  - intros s l1 l2 H1 H2. by apply lines_of_unique with (items s.2).
  - intros [d b] ls Hq Hne. unfold mem_queued in Hq. simpl in *. unfold mem_hasEvents.
    destruct (items b); [by apply Forall2_nil_inv_l in Hq|done].
  - intros [d b] ls j line Hq Hd Hn _ _. simpl. unfold mem_addEvent. case_decide.
    + by exists (d, b), false.
    + eexists (d, _), true. split; [done|]. apply Forall2_app; [done|]. repeat constructor. by exists line.
  - intros [d b] ls c m Hq Hne Hc Hm. destruct (mem_get_ok b ls c m Hq Hne) as (el & E & Hh & Hmore); [lia|lia|].
    simpl. rewrite E. cbn [mbind outcome_bind]. destruct (prefix_len_fits c m ls) as [? ?]; [lia|lia|].
    exists (d, b), el, (prefix_len c m ls). pose proof (prefix_len_le c m ls). split_and!; try done.
    + destruct (Hh (jexn json)) as (_ & -> & _). rewrite length_take. do 2 f_equal. lia.
    + intros l ls' -> Hl. apply prefix_len_progress; lia.
  - intros [d b] ls el k Hq Hi Hk. cbn [onEventsUploaded memory_event_batch snd].
    rewrite (mem_uploaded_ok b ls el k Hq Hk Hi). cbn [mbind outcome_bind]. eexists. split; [done|]. by apply Forall2_drop.
Defined.

End MemoryBatch.
Arguments memory_batch json : clear implicits.
End MemoryBatch.
