(* ===== verification/FileBatch.v ===== *)
(** * The batch in a file (cll-telemetry/src/file_event_batch.cpp)

    A file of lines, one per event, with the descriptor's offset, the write loops
    that can stop half-way, the trimming of a damaged file and the copy that removes
    uploaded events from the front of the file. *)

From S2P Require Import Prelude Json EventBatch MemoryBatch.
From Stdlib Require Import ZArith Ascii Lia.
From stdpp Require Import base list gmap strings numbers.

Open Scope Z_scope.

Module FileBatch.

(** [pos] is the offset of the descriptor; [fd_open] is [fd >= 0]. *)
Record file_batch := mkFile {
  path : bytes;
  fd_open : bool;
  fileSize : nat;
  eventCount : Z;
  streamAtEnd : bool;
  finalized : bool;
  maxCount : Z;
  maxSize : Z;
  pos : nat
}.

Definition set_stream (at_end : bool) (p : nat) (b : file_batch) : file_batch :=
  mkFile (path b) (fd_open b) (fileSize b) (eventCount b) at_end (finalized b) (maxCount b) (maxSize b) p.
Definition set_size (n : nat) (count : Z) (b : file_batch) : file_batch :=
  mkFile (path b) (fd_open b) n count (streamAtEnd b) (finalized b) (maxCount b) (maxSize b) (pos b).
Definition close_fd (b : file_batch) : file_batch :=
  mkFile (path b) false (fileSize b) (eventCount b) (streamAtEnd b) (finalized b) (maxCount b) (maxSize b) (pos b).
Definition setLimit (count sz : Z) (b : file_batch) : file_batch :=
  mkFile (path b) (fd_open b) (fileSize b) (eventCount b) (streamAtEnd b) (finalized b) count sz (pos b).
Definition setFinalized (b : file_batch) : file_batch :=
  mkFile (path b) (fd_open b) (fileSize b) (eventCount b) (streamAtEnd b) true (maxCount b) (maxSize b) (pos b).

Definition content (d : fs) (b : file_batch) : bytes := default [] (files d !! path b).

(** [lseek(fd, 0, SEEK_END)]: -1 on a closed descriptor. *)
Definition seekToEndAndGetFileSize (d : fs) (b : file_batch) : file_batch :=
  if fd_open b then
    let n := length (content d b) in set_stream true n (set_size n (eventCount b) b)
  else set_stream true (pos b) (set_size 0 (eventCount b) b).

(** ** Newlines *)
Fixpoint find_nl (s : bytes) : option nat :=
  match s with
  | [] => None
  | c :: s => if decide (c = newline) then Some 0%nat else S <$> find_nl s
  end.
(** [memchr(&data[ptr], '\n', ...)], as an index of [data]. *)
Definition memchr (data : bytes) (ptr : nat) : option nat :=
  (fun k => ptr + k)%nat <$> find_nl (drop ptr data).

(** ** countEventsInFile *)
Definition BUF_SIZE : nat := 16 * 1024.

(** The loop over one buffer that was read at offset [o]. *)
Fixpoint count_loop (fuel : nat) (buf : bytes) (ptr o : nat) (acc : nat * Z) : nat * Z :=
  match fuel with
  | O => acc
  | S fuel =>
      match memchr buf ptr with
      | None => acc
      | Some i => count_loop fuel buf (S i) o ((o + S i)%nat, acc.2 + 1)
      end
  end.
Fixpoint count_chunks (fuel : nat) (s : bytes) (o : nat) (acc : nat * Z) : nat * Z :=
  match fuel with
  | O => acc
  | S fuel =>
      let buf := take BUF_SIZE (drop o s) in
      match buf with
      | [] => acc
      | _ => count_chunks fuel s (o + length buf) (count_loop (S (length buf)) buf 0 o acc)
      end
  end.

Definition countEventsInFile (d : fs) (b : file_batch) : fs * file_batch :=
  let b := set_size (fileSize b) 0 b in
  if fd_open b then
    let s := content d b in
    let '(lastNewline, n) := count_chunks (S (length s)) s 0 (0%nat, 0) in
    let b := set_stream false (length s) b in
    if decide (lastNewline = fileSize b) then (d, set_size (fileSize b) n b)
    else (disk_truncate d (path b) lastNewline, set_size lastNewline n b)
  else (d, b).

(** The constructor. *)
Definition open_batch (d : fs) (p : bytes) : fs * file_batch :=
  let b := mkFile p (openable d) 0 0 false false 0 0 0 in
  let d := if openable d then set_files (<[p := default [] (files d !! p)]> (files d)) d else d in
  countEventsInFile d (seekToEndAndGetFileSize d b).

(** ** addEvent *)
Definition canAddEventInt (eventSize : Z) (b : file_batch) : bool :=
  (bool_decide (maxSize b = 0) || bool_decide (Z.of_nat (fileSize b) + eventSize <= maxSize b)) &&
  (bool_decide (maxCount b = 0) || bool_decide (eventCount b + 1 <= maxCount b)).
Definition canAddEvent (eventSize : Z) (b : file_batch) : bool :=
  if finalized b then false else canAddEventInt eventSize b.

(** [while (o < data.size()) write(...)]: the disk, the bytes written, and whether
    all were; every call of [write] uses up one of the results the disk has left. *)
Fixpoint write_loop (fuel : nat) (d : fs) (p : bytes) (at_ : nat) (data : bytes) (o : nat) : fs * nat * bool :=
  match fuel with
  | O => (d, o, false)
  | S fuel =>
      if decide (o < length data)%nat then
        match disk_write d p (at_ + o) (drop o data) with
        | (d, None) => (d, o, false)
        | (d, Some n) => write_loop fuel d p at_ data (o + n)
        end
      else (d, o, true)
  end.
Definition write_all_of (d : fs) (p : bytes) (at_ : nat) (data : bytes) : fs * nat * bool :=
  write_loop (S (S (length (io d)))) d p at_ data 0.

Definition file_addEvent (data : bytes) (s : fs * file_batch) : fs * file_batch * bool :=
  let '(d, b) := s in
  if negb (fd_open b) then (d, b, false)
  else if finalized b then (d, b, false)
  else if negb (canAddEventInt (Z.of_nat (length data)) b) then (d, b, false)
  else
    let b := if streamAtEnd b then b else seekToEndAndGetFileSize d b in
    let '(d, o, ok) := write_all_of d (path b) (pos b) data in
    let b := set_stream (streamAtEnd b) (pos b + o) b in
    if ok then (d, set_size (fileSize b + o) (wrapu 64 (eventCount b + 1)) b, true)
    else if decide (0 < o)%nat then (disk_truncate d (path b) (fileSize b), b, false)
    else (d, b, false).

(** ** getEventsForUpload *)
Definition MAX_READ : Z := 1024 * 1024.

Fixpoint take_events (fuel : nat) (data : bytes) (ptr : nat) (events mc : Z) : nat * Z :=
  match fuel with
  | O => (ptr, events)
  | S fuel =>
      match memchr data ptr with
      | None => (ptr, events)
      | Some i => if decide (events + 1 = mc) then (S i, events + 1) else take_events fuel data (S i) (events + 1) mc
      end
  end.

Definition file_getEventsForUpload (mc ms : Z) (s : fs * file_batch) : fs * file_batch * option event_list :=
  let '(d, b) := s in
  if negb (fd_open b) || bool_decide (fileSize b = 0%nat) || bool_decide (mc = 0) then (d, b, None)
  else
    let ms := if decide (MAX_READ < ms) then MAX_READ else ms in
    let ms := if decide (Z.of_nat (fileSize b) < ms) then Z.of_nat (fileSize b) else ms in
    let data := take (Z.to_nat ms) (content d b) in
    let '(n, events) := take_events (S (length data)) data 0 0 mc in
    (d, set_stream false (length data) b,
     Some (VectorBatchedEventList (take n data) events (bool_decide (n < fileSize b)%nat))).

(** ** onEventsUploaded *)
Definition COPY_SIZE : nat := 1024 * 1024.

(** Reads the rest of the file from [rpos] and writes it from [wpos] on. *)
Fixpoint copy_loop (fuel : nat) (d : fs) (p : bytes) (rpos wpos : nat) : fs * nat :=
  match fuel with
  | O => (d, wpos)
  | S fuel =>
      match take COPY_SIZE (drop rpos (default [] (files d !! p))) with
      | [] => (d, wpos)
      | buf =>
          let '(d, o, _) := write_all_of d p wpos buf in
          copy_loop fuel d p (rpos + length buf) (wpos + o)
      end
  end.

Section json.
Context {json : Type} `{Json json}.
Notation result := (outcome (jexn json)).

Definition file_onEventsUploaded (events : event_list) (s : fs * file_batch) : result (fs * file_batch) :=
  let '(d, b) := s in
  if negb (fd_open b) then Ret (d, b)
  else
    data ← getData events;
    if decide (fileSize b = length data) then
      let b := set_size 0 0 b in
      if finalized b then Ret (disk_remove d (path b), close_fd b)
      else Ret (disk_truncate d (path b) 0, b)
    else if negb (openable d) then
      Throw (std_exception (runtime_error "Failed to open input stream for onEventsUploaded"))
    else
      let '(d, n) := copy_loop (S (length (content d b))) d (path b) (length data) 0 in
      count ← getEventCount events;
      Ret (disk_truncate d (path b) n, set_stream (streamAtEnd b) n (set_size n (wrapu 64 (eventCount b - count)) b)).

Definition file_hasEvents (b : file_batch) : bool := negb (bool_decide (fileSize b = 0%nat)).

#[export] Instance file_event_batch : EventBatch json file_batch := {
  addEvent j s := data ← event_line j; Ret (file_addEvent data s);
  getEventsForUpload mc ms s := Ret (file_getEventsForUpload mc ms s);
  onEventsUploaded := file_onEventsUploaded;
  hasEvents := file_hasEvents
}.
End json.

(** ** Writing without faults *)
Lemma write_at_end c data : write_at c (length c) data = c ++ data.
Proof.
  unfold write_at. rewrite take_ge, Nat.sub_diag, drop_ge by lia. simpl. by rewrite app_nil_r.
Qed.

Lemma write_at_inside c p data : (p + length data <= length c)%nat ->
  length (write_at c p data) = length c
  /\ take (p + length data) (write_at c p data) = take p c ++ data
  /\ forall q, (p + length data <= q)%nat -> drop q (write_at c p data) = drop q c.
Proof.
  intros Hp. unfold write_at. replace (p - length c)%nat with 0%nat by lia. cbn [repeat app].
  assert (length (take p c) = p) as Ht by (rewrite length_take; lia). split_and!.
  - rewrite !length_app, Ht, length_drop. lia.
  - rewrite app_assoc, take_app_le by (rewrite length_app, Ht; lia). apply take_ge. rewrite length_app, Ht. lia.
  - intros q Hq. rewrite app_assoc, drop_app_ge by (rewrite length_app, Ht; lia).
    rewrite drop_drop. f_equal. rewrite length_app, Ht. lia.
Qed.

Lemma write_all_of_ok d p at_ data : io d = [] -> data ≠ [] ->
  write_all_of d p at_ data
  = (set_files (<[p := write_at (default [] (files d !! p)) at_ data]> (files d)) d, length data, true).
Proof.
  intros Hio Hne. unfold write_all_of. rewrite Hio. cbn [length write_loop].
  rewrite decide_True by (destruct data; [done|simpl; lia]). unfold disk_write. rewrite Hio, drop_0, Nat.add_0_r.
  rewrite take_ge by lia. simpl. by rewrite decide_False by lia.
Qed.

Lemma take_drop_rest {A} (l : list A) n r : take n (drop r l) ++ drop (r + length (take n (drop r l))) l = drop r l.
Proof.
  rewrite <- drop_drop, length_take. destruct (decide (n <= length (drop r l))%nat).
  - rewrite Nat.min_l by done. apply take_drop.
  - rewrite Nat.min_r by lia. rewrite drop_all, take_ge by lia. apply app_nil_r.
Qed.

Lemma read_sizes : (0 < COPY_SIZE /\ 0 < BUF_SIZE)%nat.
Proof. unfold COPY_SIZE, BUF_SIZE. lia. Qed.

#[local] Opaque COPY_SIZE BUF_SIZE.

Lemma copy_loop_ok p fuel : forall d c rpos wpos,
  io d = [] -> files d !! p = Some c -> (wpos <= rpos <= length c)%nat -> (length c - rpos < fuel)%nat ->
  exists d' c', copy_loop fuel d p rpos wpos = (d', wpos + (length c - rpos))%nat
    /\ io d' = [] /\ openable d' = openable d /\ delete p (files d') = delete p (files d)
    /\ files d' !! p = Some c'
    /\ length c' = length c /\ take (wpos + (length c - rpos)) c' = take wpos c ++ drop rpos c.
Proof.
  induction fuel as [|fuel IH]; intros d c rpos wpos Hio Hc Hp Hf; [lia|]. cbn [copy_loop]. rewrite Hc. cbn [from_option Datatypes.id].
  pose proof read_sizes as [Hcs _].
  destruct (take COPY_SIZE (drop rpos c)) as [|x buf] eqn:E.
  { assert (rpos = length c) as ->.
    { apply (f_equal length) in E. rewrite length_take, length_drop in E. simpl in E. lia. }
    exists d, c. rewrite Nat.sub_diag, Nat.add_0_r. split_and!; try done. by rewrite drop_all, app_nil_r. }
  pose proof (f_equal length E) as El. rewrite length_take, length_drop in El.
  rewrite write_all_of_ok by done. rewrite Hc. cbn [from_option Datatypes.id]. set (c1 := write_at c wpos (x :: buf)).
  destruct (write_at_inside c wpos (x :: buf)) as (Hl1 & Ht1 & Hd1); [lia|]. fold c1 in Hl1, Ht1, Hd1.
  edestruct (IH (set_files (<[p:=c1]> (files d)) d) c1 (rpos + length (x :: buf))%nat (wpos + length (x :: buf))%nat)
    as (d' & c' & -> & Hio' & Ho' & Hdel & Hc' & Hl' & Ht'); [done|apply lookup_insert_eq|lia|simpl in *; lia|].
  exists d', c'. rewrite Hl1 in *. cbn [openable set_files files] in *. split_and!; try done; try lia.
  - f_equal. simpl in *. lia.
  - by rewrite Hdel, delete_insert_eq.
  - replace (wpos + (length c - rpos))%nat with (wpos + length (x :: buf) + (length c - (rpos + length (x :: buf))))%nat
      by (simpl in *; lia).
    rewrite Ht', Ht1, Hd1, <- app_assoc by (simpl in *; lia). f_equal. rewrite <- E. apply take_drop_rest.
Qed.

(** ** Scanning for newlines *)
Lemma find_nl_none s : newline ∉ s -> find_nl s = None.
Proof.
  induction s as [|c s IH]; [done|]. rewrite elem_of_cons. intros Hs. simpl.
  rewrite decide_False by (intros ->; apply Hs; by left). by rewrite IH by (intros ?; apply Hs; by right).
Qed.

Lemma find_nl_line s r : newline ∉ s -> find_nl (s ++ newline :: r) = Some (length s).
Proof.
  induction s as [|c s IH]; simpl; [done|]. rewrite elem_of_cons. intros Hs.
  rewrite decide_False by (intros ->; apply Hs; by left). by rewrite IH by (intros ?; apply Hs; by right).
Qed.

Lemma take_events_lines mc ls : Forall is_line ls -> forall fuel data ptr events m,
  drop ptr data = take m (concat ls) -> events < mc -> (length data - ptr < fuel)%nat ->
  take_events fuel data ptr events mc =
    let k := prefix_len (mc - events) (Z.of_nat m) ls in
    ((ptr + length (concat (take k ls)))%nat, events + Z.of_nat k).
Proof.
  induction 1 as [|line ls (s & -> & Hs) _ IH]; intros fuel data ptr events m Hd He Hf;
    (destruct fuel as [|fuel]; [lia|]); cbn [take_events prefix_len]; unfold memchr; rewrite Hd; cbn [concat].
  { rewrite take_nil. simpl. by rewrite Nat.add_0_r, Z.add_0_r. }
  assert (length (s ++ [newline]) = S (length s)) as Hl by (rewrite length_app; simpl; lia).
  destruct (decide (S (length s) <= m)%nat) as [Hm|Hm].
  - rewrite decide_True by lia. rewrite take_app, take_ge by lia. rewrite <- app_assoc. cbn [app].
    rewrite find_nl_line by done. cbn [fmap option_fmap option_map].
    assert (drop (S (ptr + length s)) data = take (m - S (length s)) (concat ls)) as Hd'.
    { replace (S (ptr + length s)) with (ptr + S (length s))%nat by lia. rewrite <- drop_drop, Hd. cbn [concat].
      rewrite take_app, take_ge by lia. rewrite Hl, <- Hl at 1. apply drop_app_length. }
    assert (ptr < length data)%nat as Hlen.
    { destruct (decide (ptr < length data)%nat); [done|]. rewrite drop_ge in Hd by lia. apply (f_equal length) in Hd.
      cbn [concat] in Hd. rewrite length_take, length_app in Hd. simpl in Hd. lia. }
    case_decide as Hlast.
    + replace (mc - events - 1) with 0 by lia. rewrite prefix_len_0. simpl. rewrite app_nil_r, Hl.
      f_equal. lia.
    + rewrite (IH fuel data _ _ (m - S (length s))%nat) by (try done; lia). cbv zeta.
      replace (mc - (events + 1)) with (mc - events - 1) by lia.
      replace (Z.of_nat (m - S (length s))) with (Z.of_nat m - Z.of_nat (length (s ++ [newline]))) by lia.
      set (k := prefix_len _ _ ls). simpl. rewrite length_app, Hl. f_equal; lia.
  - rewrite decide_False by lia. rewrite take_app_le by lia. rewrite take_app_le by lia.
    rewrite find_nl_none; [simpl; by rewrite Nat.add_0_r, Z.add_0_r|].
    intros Hin. apply Hs. by eapply elem_of_submseteq, submseteq_take.
Qed.

(** The count over the whole contents, byte by byte. *)
Fixpoint scan (o : nat) (s : bytes) (acc : nat * Z) : nat * Z :=
  match s with
  | [] => acc
  | c :: s => scan (S o) s (if decide (c = newline) then (S o, acc.2 + 1) else acc)
  end.

Lemma scan_app o a b acc : scan o (a ++ b) acc = scan (o + length a) b (scan o a acc).
Proof.
  revert o acc. induction a as [|c a IH]; intros o acc; simpl; [by rewrite Nat.add_0_r|].
  by rewrite IH, Nat.add_succ_r.
Qed.

Lemma scan_none o s acc : newline ∉ s -> scan o s acc = acc.
Proof.
  revert o. induction s as [|c s IH]; intros o; [done|]. rewrite elem_of_cons. intros Hs. simpl.
  rewrite decide_False by (intros ->; apply Hs; by left). apply IH. intros ?. apply Hs. by right.
Qed.

Lemma find_nl_spec s :
  match find_nl s with
  | Some k => exists a b, s = a ++ newline :: b /\ length a = k /\ newline ∉ a
  | None => newline ∉ s
  end.
Proof.
  induction s as [|c s IH]; simpl; [by apply not_elem_of_nil|]. case_decide as Hc.
  { exists [], s. subst. split_and!; [done|done|by apply not_elem_of_nil]. }
  destruct (find_nl s) as [k|]; simpl.
  - destruct IH as (a & b & -> & <- & Ha). exists (c :: a), b. split_and!; [done|done|]. rewrite elem_of_cons. naive_solver.
  - rewrite elem_of_cons. naive_solver.
Qed.

Lemma count_loop_scan o buf fuel : forall ptr acc, (length buf - ptr < fuel)%nat ->
  count_loop fuel buf ptr o acc = scan (o + ptr) (drop ptr buf) acc.
Proof.
  induction fuel as [|fuel IH]; intros ptr acc Hf; [lia|]. cbn [count_loop]. unfold memchr.
  pose proof (find_nl_spec (drop ptr buf)) as Hs. destruct (find_nl (drop ptr buf)) as [k|].
  2: { by rewrite scan_none. }
  destruct Hs as (a & b & E & <- & Ha). cbn [fmap option_fmap option_map].
  assert (ptr < length buf)%nat.
  { apply (f_equal length) in E. rewrite length_drop, length_app in E. simpl in E. lia. }
  rewrite IH by lia. rewrite E, scan_app, (scan_none _ a) by done. cbn [scan]. rewrite decide_True by reflexivity.
  replace (S (ptr + length a)) with (ptr + S (length a))%nat by lia. rewrite <- drop_drop, E.
  replace (drop (S (length a)) (a ++ newline :: b)) with b.
  - f_equal; [lia|]. f_equal. lia.
  - by rewrite (cons_middle _ a), app_assoc, drop_app_length' by (rewrite length_app; simpl; lia).
Qed.

Lemma count_chunks_scan s fuel : forall o acc, (length s - o < fuel)%nat ->
  count_chunks fuel s o acc = scan o (drop o s) acc.
Proof.
  induction fuel as [|fuel IH]; intros o acc Hf; [lia|]. cbn [count_chunks]. pose proof read_sizes as [_ Hb].
  destruct (take BUF_SIZE (drop o s)) as [|x buf] eqn:E.
  { assert (drop o s = []) as ->; [|done]. apply (f_equal length) in E. rewrite length_take in E. simpl in E.
    apply nil_length_inv. lia. }
  pose proof (f_equal length E) as El. rewrite length_take, length_drop in El. cbn [length] in El.
  rewrite IH by (simpl; lia). rewrite count_loop_scan by (simpl; lia). rewrite drop_0, Nat.add_0_r, <- E, <- scan_app.
  f_equal. apply take_drop_rest.
Qed.

Lemma scan_lines ls rest o acc : Forall is_line ls -> newline ∉ rest ->
  scan o (concat ls ++ rest) acc =
    (match ls with [] => acc.1 | _ => (o + length (concat ls))%nat end, acc.2 + Z.of_nat (length ls)).
Proof.
  intros Hls Hr. rewrite scan_app, (scan_none _ rest) by done.
  revert o acc. induction Hls as [|l ls (s & -> & Hs) _ IH]; intros o [a n]; cbn [concat].
  { simpl. by rewrite Z.add_0_r. }
  rewrite scan_app, IH, scan_app, (scan_none o s) by done. simpl. rewrite !length_app. simpl.
  destruct ls as [|l' ls]; simpl; f_equal; lia.
Qed.

Lemma split_lines s : exists ls rest, s = concat ls ++ rest /\ Forall is_line ls /\ newline ∉ rest.
Proof.
  remember (length s) as n eqn:Hn. revert s Hn. induction (lt_wf n) as [n _ IH]. intros s ->.
  pose proof (find_nl_spec s) as Hs. destruct (find_nl s) as [k|].
  2: { exists [], s. by split_and!. }
  destruct Hs as (a & b & -> & _ & Ha). destruct (IH (length b)) with b as (ls & rest & -> & Hls & Hr);
    [rewrite length_app; simpl; lia|done|].
  exists ((a ++ [newline]) :: ls), rest. cbn [concat]. rewrite <- !app_assoc. split_and!; [done| |done].
  apply Forall_cons_iff. split; [by exists a|done].
Qed.

(** ** The file as a queue *)

(** The batch [b] holds the lines [ls]: they are the contents of its file, the cached
    size and count are theirs, and the offset is right when the batch relies on it. *)
Definition file_holds (d : fs) (b : file_batch) (ls : list bytes) : Prop :=
  files d !! path b = Some (concat ls) /\ Forall is_line ls /\
  fileSize b = length (concat ls) /\ eventCount b = Z.of_nat (length ls) /\
  (streamAtEnd b = true -> pos b = length (concat ls)) /\ lsize ls < 2 ^ 63.

Definition file_queued (s : fs * file_batch) (ls : list bytes) : Prop :=
  io s.1 = [] /\ openable s.1 = true /\
  if fd_open s.2 then file_holds s.1 s.2 ls else ls = [] /\ fileSize s.2 = 0%nat.

(** [el] is the list of the first [k] lines of the file. *)
Definition file_issued (s : fs * file_batch) (el : event_list) (k : nat) : Prop :=
  if fd_open s.2 then
    exists ls, files s.1 !! path s.2 = Some (concat ls) /\ Forall is_line ls /\ (k <= length ls)%nat
      /\ holds el (take k ls) /\ (streamAtEnd s.2 = true -> (k < length ls)%nat)
  else True.

Lemma lines_length ls : Forall is_line ls -> (length ls <= length (concat ls))%nat.
Proof.
  induction 1 as [|l ls Hl _ IH]; simpl; [done|]. rewrite length_app. apply is_line_nonempty in Hl. lia.
Qed.

Lemma concat_lines_inj ls1 ls2 : Forall is_line ls1 -> Forall is_line ls2 -> concat ls1 = concat ls2 -> ls1 = ls2.
Proof.
  intros H1. revert ls2. induction H1 as [|l1 ls1 (s1 & -> & Hs1) _ IH]; intros ls2 H2 E.
  - destruct H2 as [|l2 ls2 Hl _]; [done|]. apply is_line_nonempty in Hl. by destruct l2; [simpl in Hl; lia|].
  - destruct H2 as [|l2 ls2 (s2 & -> & Hs2) H2]; cbn [concat] in E; [by destruct s1|].
    rewrite <- !app_assoc in E. cbn [app] in E.
    assert (length s1 = length s2) as Hl.
    { pose proof (find_nl_line s1 (concat ls1) Hs1) as F1. pose proof (find_nl_line s2 (concat ls2) Hs2) as F2.
      rewrite E in F1. rewrite F1 in F2. by injection F2. }
    apply app_inj_1 in E as [-> E]; [|done]. f_equal. apply IH; [done|]. by injection E.
Qed.

Lemma concat_take_drop (ls : list bytes) k : drop (length (concat (take k ls))) (concat ls) = concat (drop k ls).
Proof. rewrite <- (take_drop k ls) at 2. rewrite concat_app. apply drop_app_length. Qed.

Lemma file_add_queued d b ls line : file_queued (d, b) ls -> is_line line ->
  Z.of_nat (fileSize b) + Z.of_nat (length line) < 2 ^ 63 ->
  exists s' r, file_addEvent line (d, b) = (s', r) /\ file_queued s' (if r then ls ++ [line] else ls)
    /\ path s'.2 = path b /\ fd_open s'.2 = fd_open b /\ finalized s'.2 = finalized b
    /\ maxCount s'.2 = maxCount b /\ maxSize s'.2 = maxSize b
    /\ r = fd_open b && negb (finalized b) && canAddEventInt (Z.of_nat (length line)) b
    /\ (r = true -> streamAtEnd s'.2 = true) /\ (r = false -> s' = (d, b))
    /\ delete (path b) (files s'.1) = delete (path b) (files d).
Proof.
  intros (Hio & Hop & Hq) Hl Hb. unfold file_addEvent. cbn [fst snd] in *. destruct (fd_open b) eqn:Hfd; simpl.
  2: { exists (d, b), false. unfold file_queued. by split_and!; simpl; rewrite ?Hfd. }
  destruct Hq as (Hf & Hls & Hsz & Hcnt & Hpos & Hmax).
  assert (file_queued (d, b) ls) as Hq by (unfold file_queued; simpl; rewrite Hfd; by split_and!).
  destruct (finalized b) eqn:Hfin; [exists (d, b), false; by split_and!; simpl; rewrite ?Hfd, ?Hfin|].
  destruct (canAddEventInt _ b) eqn:Hcan; [|exists (d, b), false; by split_and!; simpl; rewrite ?Hfd, ?Hfin, ?Hcan]. simpl.
  set (b1 := if streamAtEnd b then b else seekToEndAndGetFileSize d b).
  assert (b1 = set_stream true (length (concat ls)) (set_size (length (concat ls)) (eventCount b) b)) as ->.
  { unfold b1, seekToEndAndGetFileSize, content. rewrite Hfd, Hf. destruct (streamAtEnd b) eqn:Hse; [|done].
    specialize (Hpos eq_refl). destruct b. simpl in *. by subst. }
  assert (line ≠ []) as Hne by (intros ->; by apply is_line_nonempty in Hl; simpl in Hl; lia).
  unfold set_stream, set_size. cbn [path fd_open fileSize eventCount streamAtEnd finalized maxCount maxSize pos].
  rewrite write_all_of_ok by done. rewrite Hf. cbn [from_option Datatypes.id]. rewrite write_at_end.
  eexists _, true. split; [done|]. unfold file_queued, file_holds. cbn [fst snd io openable set_files files path fd_open fileSize eventCount streamAtEnd pos finalized maxCount maxSize].
  pose proof (lines_length ls Hls) as Hll. pose proof (is_line_nonempty line Hl).
  rewrite Hfd, Hfin, Hcnt, concat_app, !length_app, lsize_app. cbn [concat]. rewrite app_nil_r. unfold lsize in *. cbn [concat]. rewrite app_nil_r.
  rewrite lookup_insert_eq, delete_insert_eq. split_and!; try done; try lia.
  - apply Forall_app. split; [done|by apply Forall_singleton].
  - rewrite wrapu_small by (simpl; lia). simpl. lia.
Qed.

Lemma file_get_empty d b mc ms : file_queued (d, b) [] -> file_getEventsForUpload mc ms (d, b) = (d, b, None).
Proof.
  intros (_ & _ & Hq). unfold file_getEventsForUpload. cbn [fst snd] in *. destruct (fd_open b); [|done].
  destruct Hq as (_ & _ & -> & _). done.
Qed.

Lemma file_get_queued d b ls mc ms : file_queued (d, b) ls -> 0 < mc -> 0 < ms ->
  exists b' r, file_getEventsForUpload mc ms (d, b) = (d, b', r) /\ file_queued (d, b') ls
    /\ path b' = path b /\ fd_open b' = fd_open b /\ finalized b' = finalized b
    /\ maxCount b' = maxCount b /\ maxSize b' = maxSize b
    /\ match r with
       | Some el => exists k, k = prefix_len mc (Z.min (Z.min ms MAX_READ) (lsize ls)) ls
           /\ holds el (take k ls) /\ file_issued (d, b') el k
           /\ (forall E, hasMoreEvents (E := E) el = Ret false -> k = length ls)
       | None => ls = []
       end.
Proof.
  intros Hq0 Hmc Hms. pose proof Hq0 as (Hio & Hop & Hq). unfold file_getEventsForUpload. cbn [fst snd] in *.
  destruct (fd_open b) eqn:Hfd; cbn [negb orb].
  2: { exists b, None. destruct Hq as [-> _]. by split_and!. }
  destruct Hq as (Hf & Hls & Hsz & Hcnt & Hpos & Hmax). rewrite (bool_decide_eq_false_2 (mc = 0)) by lia.
  rewrite orb_false_r. case_bool_decide as H0.
  { exists b, None. split_and!; try done. pose proof (lines_length ls Hls). rewrite Hsz in H0. apply nil_length_inv. lia. }
  unfold content. rewrite Hf. cbn [from_option Datatypes.id].
  replace (if decide (Z.of_nat (fileSize b) < (if decide (MAX_READ < ms) then MAX_READ else ms)) then Z.of_nat (fileSize b)
     else if decide (MAX_READ < ms) then MAX_READ else ms) with (Z.min (Z.min ms MAX_READ) (lsize ls)).
  2: { unfold lsize. rewrite <- Hsz. repeat case_decide; lia. }
  set (m := Z.min (Z.min ms MAX_READ) (lsize ls)). assert (0 <= m) by (unfold m, MAX_READ, lsize; lia).
  rewrite (take_events_lines mc ls Hls _ _ 0 0 (Z.to_nat m)) by (rewrite ?drop_0; try done; lia).
  cbv zeta. rewrite Z.sub_0_r, Z2Nat.id by done. set (k := prefix_len mc m ls). cbn [Nat.add].
  assert (lsize (take k ls) <= m) as Hfit by (apply prefix_len_fits; lia).
  assert (take (length (concat (take k ls))) (take (Z.to_nat m) (concat ls)) = concat (take k ls)) as ->.
  { rewrite take_take, Nat.min_l by (unfold lsize in Hfit; lia).
    rewrite <- (take_drop k ls) at 2. rewrite concat_app. apply take_app_length. }
  eexists _, (Some _). split; [done|]. cbn [path fd_open finalized maxCount maxSize set_stream].
  assert (holds (VectorBatchedEventList (concat (take k ls)) (0 + Z.of_nat k)
    (bool_decide (length (concat (take k ls)) < fileSize b)%nat)) (take k ls)) as Hh.
  { replace (0 + Z.of_nat k) with (Z.of_nat (length (take k ls))).
    - apply MemoryBatch.vector_holds.
    - rewrite length_take. pose proof (prefix_len_le mc m ls). lia. }
  split_and!; try done.
  - unfold file_queued. simpl. rewrite Hfd. by split_and!.
  - pose proof (prefix_len_le mc m ls : (k <= length ls)%nat) as Hkl. exists k. split_and!; [done|done| |].
    + unfold file_issued. simpl. rewrite Hfd. by exists ls.
    + intros E [= Hm]. apply bool_decide_eq_false in Hm. pose proof (lines_length (drop k ls) ltac:(by apply Forall_drop)) as Hl.
      pose proof (f_equal length (concat_take_drop ls k)) as El. rewrite length_drop in El. rewrite length_drop in Hl. lia.
Qed.

Section spec.
Context {json : Type} `{Json json}.

Lemma file_uploaded_queued d b ls el k :
  file_queued (d, b) ls -> file_issued (d, b) el k -> (k <= length ls)%nat ->
  exists s', file_onEventsUploaded (json := json) el (d, b) = Ret s' /\ file_queued s' (drop k ls)
    /\ path s'.2 = path b /\ finalized s'.2 = finalized b /\ maxCount s'.2 = maxCount b /\ maxSize s'.2 = maxSize b
    /\ fd_open s'.2 = fd_open b && negb (finalized b && bool_decide (drop k ls = []))
    /\ delete (path b) (files s'.1) = delete (path b) (files d).
Proof.
  intros Hq Hi Hk. pose proof Hq as (Hio & Hop & Hh). unfold file_issued in Hi. unfold file_onEventsUploaded. cbn [fst snd] in *.
  destruct (fd_open b) eqn:Hfd; cbn [negb].
  2: { destruct Hh as [-> H0]. exists (d, b). rewrite drop_nil. by split_and!. }
  destruct Hi as (ls' & Hf' & Hls' & Hk' & Hel & Hse). pose proof Hh as (Hf & Hls & Hsz & Hcnt & Hpos & Hmax).
  assert (ls' = ls) as -> by (apply concat_lines_inj; congruence).
  destruct (Hel (jexn json)) as (Ed & Ec & _). rewrite Ed, Ec. cbn [mbind outcome_bind]. rewrite Hsz.
  pose proof (concat_take_drop ls k) as Ecd. pose proof (f_equal length Ecd) as Elen. rewrite length_drop in Elen.
  pose proof (lines_length (drop k ls) ltac:(by apply Forall_drop)) as Hdl.
  assert (length (concat (take k ls)) + length (concat (drop k ls)) = length (concat ls))%nat as Hsum
    by (rewrite <- length_app, <- concat_app, take_drop; done).
  case_decide as Hall.
  - assert (drop k ls = []) as Hnil by (apply nil_length_inv; lia). rewrite Hnil. rewrite bool_decide_eq_true_2 by done.
    destruct (finalized b) eqn:Hfin; cbn [finalized set_size]; rewrite Hfin; (eexists; split; [done|]);
      unfold file_queued, file_holds; cbn [fst snd path fd_open finalized maxCount maxSize set_size close_fd];
      rewrite ?Hfd, ?Hfin; (split_and!; try done).
    + unfold disk_remove. simpl. by rewrite delete_delete_eq.
    + unfold disk_truncate. simpl. by rewrite lookup_insert_eq.
    + simpl. intros E. specialize (Hse E). apply (f_equal length) in Hnil. rewrite length_drop in Hnil. simpl in Hnil. lia.
    + unfold disk_truncate. simpl. by rewrite delete_insert_eq.
  - rewrite Hop. cbn [negb]. unfold content. rewrite Hf. cbn [from_option Datatypes.id].
    destruct (copy_loop_ok (path b) (S (length (concat ls))) d (concat ls) (length (concat (take k ls))) 0)
      as (d' & c' & -> & Hio' & Hop' & Hdel & Hc' & Hlc & Htk); [done|done|lia|lia|].
    cbn [Nat.add] in *. rewrite Elen in *. rewrite Ecd in Htk. rewrite take_0 in Htk. cbn [app] in Htk.
    eexists. split; [done|]. cbn [fst snd path fd_open finalized maxCount maxSize set_stream set_size].
    assert (drop k ls ≠ []) as Hne by (intros E; rewrite E in Hsum; simpl in Hsum; lia).
    rewrite (bool_decide_eq_false_2 (drop k ls = [])) by done. rewrite andb_false_r.
    split_and!; try done; [|unfold disk_truncate; simpl; by rewrite delete_insert_eq].
    unfold file_queued, file_holds, disk_truncate. cbn [fst snd io openable files set_files set_stream set_size path fd_open fileSize eventCount streamAtEnd pos].
    rewrite Hfd, Hc', lookup_insert_eq. cbn [from_option Datatypes.id]. rewrite Hio', Hop', Htk, Hlc.
    replace (length (concat (drop k ls)) - length (concat ls))%nat with 0%nat by lia. rewrite app_nil_r.
    split_and!; try done.
    + by apply Forall_drop.
    + rewrite Hcnt, length_take, length_drop, wrapu_small by (pose proof (lines_length ls Hls); unfold lsize in Hmax; lia). lia.
    + unfold lsize in *. lia.
Qed.

Lemma file_queued_size d b ls : file_queued (d, b) ls -> Z.of_nat (fileSize b) = lsize ls.
Proof.
  intros (_ & _ & Hq). cbn [fst snd] in Hq. destruct (fd_open b); [by destruct Hq as (_ & _ & -> & _)|by destruct Hq as [-> ->]].
Qed.

(** Lines appended at the end do not matter for the lines at the front. *)
Lemma file_issued_add d b ls line s' el k : file_queued (d, b) ls -> file_queued s' (ls ++ [line]) ->
  fd_open s'.2 = fd_open b -> file_issued (d, b) el k -> file_issued s' el k.
Proof.
  intros (_ & _ & Hq) (_ & _ & Hq') Ho. unfold file_issued. cbn [fst snd] in *. rewrite Ho in *. destruct (fd_open b); [|done].
  intros (ls' & Hf' & Hls' & Hk' & Hel & _). destruct Hq as (Hf & Hls & _). destruct Hq' as (Hf2 & Hls2 & _).
  assert (ls' = ls) as -> by (apply concat_lines_inj; congruence).
  exists (ls ++ [line]). rewrite length_app, take_app_le by done. split_and!; try done; simpl; lia.
Qed.

#[export] Instance file_batch_spec : BatchSpec json file_batch.
Proof.
  refine {| queued := file_queued; issued := file_issued; accepts _ _ := True |}.
  - intros [d b] l1 l2 (_ & _ & H1) (_ & _ & H2). cbn [fst snd] in *. destruct (fd_open b); [|by destruct H1 as [-> _], H2 as [-> _]].
    destruct H1 as (E1 & ? & _), H2 as (E2 & ? & _). apply concat_lines_inj; [done|done|]. rewrite E1 in E2. by simplify_eq.
  - intros [d b] ls (_ & _ & Hq) Hne. simpl in *. unfold file_hasEvents. rewrite bool_decide_eq_false_2; [done|].
    destruct (fd_open b); [|by destruct Hq]. destruct Hq as (_ & Hls & -> & _). pose proof (lines_length ls Hls).
    destruct ls; [done|]. simpl in *. lia.
  - intros [d b] ls j line Hq Hd Hn _ Hb. cbn [addEvent file_event_batch event_line]. unfold event_line. rewrite Hd. cbn [mbind outcome_bind].
    destruct (file_add_queued d b ls (line ++ crlf)) as (s' & r & -> & Hq' & _);
      [done|by apply event_is_line|by rewrite (file_queued_size d b ls)|]. by exists s', r.
  - intros [d b] ls mc ms Hq Hne Hmc Hms. cbn [getEventsForUpload file_event_batch].
    destruct (file_get_queued d b ls mc ms Hq) as (b' & r & -> & Hq' & _ & _ & _ & _ & _ & Hr); [lia|lia|].
    destruct r as [el|]; [|done]. destruct Hr as (k & Ek & Hh & Hi & Hmore).
    pose proof (lsize_nonneg ls). destruct (prefix_len_fits mc (Z.min (Z.min ms MAX_READ) (lsize ls)) ls) as [? ?];
      [lia|unfold MAX_READ; lia|]. rewrite <- Ek in *.
    exists (d, b'), el, k. split_and!; try done; [subst; apply prefix_len_le|lia|].
    intros l ls' -> Hl. rewrite Ek. apply prefix_len_progress; [lia|]. rewrite lsize_cons. pose proof (lsize_nonneg ls').
    unfold MAX_READ. lia.
  - intros [d b] ls el k Hq Hi Hk. destruct (file_uploaded_queued d b ls el k Hq Hi Hk) as (s' & ? & ? & _). by exists s'.
Defined.
End spec.

(** ** Theorems *)
Section theorems.
Context {json : Type} `{Json json}.

(** C5. One upload of a file batch: the list handed out holds the longest prefix of
    the stored events within the limits on count and size, byte for byte, and
    reporting it as uploaded leaves exactly the other events in the file. *)
Theorem file_upload_round (d : fs) (b : file_batch) (ls : list bytes) (mc ms : Z)
    (Hq : file_queued (d, b) ls) (Hne : ls ≠ []) (Hmc : 0 < mc) (Hms : 0 < ms) :
  exists b' el k s', file_getEventsForUpload mc ms (d, b) = (d, b', Some el)
    /\ k = prefix_len mc (Z.min (Z.min ms MAX_READ) (lsize ls)) ls /\ holds el (take k ls)
    /\ file_onEventsUploaded (json := json) el (d, b') = Ret s' /\ file_queued s' (drop k ls).
Proof.
  destruct (file_get_queued d b ls mc ms Hq Hmc Hms) as (b' & r & -> & Hq' & _ & _ & _ & _ & _ & Hr).
  destruct r as [el|]; [|done]. destruct Hr as (k & Ek & Hh & Hi & Hmore).
  destruct (file_uploaded_queued (json := json) d b' ls el k Hq' Hi ltac:(subst; apply prefix_len_le)) as (s' & E & Hq2 & _).
  by exists b', el, k, s'.
Qed.

End theorems.

(** Opening a file of complete lines and a rest. *)
Lemma open_batch_ok (d : fs) (p : bytes) (ls : list bytes) (rest : bytes)
    (Hio : io d = []) (Hop : openable d = true) (Hls : Forall is_line ls) (Hrest : newline ∉ rest)
    (Hc : default [] (files d !! p) = concat ls ++ rest) (Hmax : lsize ls < 2 ^ 63) :
  file_queued (open_batch d p) ls /\ path (open_batch d p).2 = p
  /\ fd_open (open_batch d p).2 = true /\ finalized (open_batch d p).2 = false
  /\ delete p (files (open_batch d p).1) = delete p (files d).
Proof.
  unfold open_batch. rewrite Hop, Hc. unfold seekToEndAndGetFileSize. cbn [fd_open path].
  unfold countEventsInFile, content. cbn [fd_open path set_size set_stream fileSize files set_files].
  rewrite lookup_insert_eq. cbn [from_option Datatypes.id]. rewrite count_chunks_scan by lia. rewrite drop_0, scan_lines by done.
  cbn [fst snd Nat.add]. set (n := match ls with [] => 0%nat | _ => length (concat ls) end).
  assert (n = length (concat ls)) as -> by (unfold n; by destruct ls). rewrite Z.add_0_l.
  case_decide as Hfull.
  - assert (rest = []) as -> by (apply nil_length_inv; rewrite length_app in Hfull; lia). rewrite app_nil_r.
    unfold file_queued, file_holds. simpl. rewrite lookup_insert_eq, delete_insert_eq. by split_and!.
  - unfold file_queued, file_holds, disk_truncate. simpl. rewrite !lookup_insert_eq, !delete_insert_eq.
    cbn [from_option Datatypes.id]. rewrite take_app_length, length_app.
    replace (length (concat ls) - (length (concat ls) + length rest))%nat with 0%nat by lia.
    rewrite app_nil_r. by split_and!.
Qed.

(** C10. Opening a file recovers its complete events, whatever it contains: the bytes
    after the last newline, an event that was torn by a crash, are cut off on the
    disk, and the count and size the batch keeps are those of the rest. *)
Theorem open_batch_recovers (d : fs) (p : bytes) (Hio : io d = []) (Hop : openable d = true)
    (Hmax : Z.of_nat (length (default [] (files d !! p))) < 2 ^ 63) :
  exists ls rest, default [] (files d !! p) = concat ls ++ rest /\ newline ∉ rest
    /\ file_queued (open_batch d p) ls /\ files (open_batch d p).1 !! p = Some (concat ls).
Proof.
  destruct (split_lines (default [] (files d !! p))) as (ls & rest & E & Hls & Hr). exists ls, rest.
  destruct (open_batch_ok d p ls rest Hio Hop Hls Hr E) as (Hq & Hp & Hfd & _).
  { rewrite E, length_app in Hmax. unfold lsize. lia. }
  split_and!; try done. destruct Hq as (_ & _ & Hq). rewrite Hfd in Hq. destruct Hq as [Hf _]. by rewrite Hp in Hf.
Qed.

(** A write that fails half-way damages the file: the torn event is cut off again,
    but the offset stays behind the end, and the next event that is added leaves a
    hole of as many zero bytes in front of it as had been written. *)
Theorem torn_write_leaves_hole (d : fs) (b : file_batch) (ls : list bytes) (line line2 : bytes) (n : nat)
    (Hfd : fd_open b = true) (Hfin : finalized b = false) (Hend : streamAtEnd b = true)
    (Hh : file_holds d b ls) (Hio : io d = [write_part n; write_error]) (Hn : (0 < n < length line)%nat)
    (Hcan : canAddEventInt (Z.of_nat (length line)) b = true)
    (Hcan2 : canAddEventInt (Z.of_nat (length line2)) b = true) (Hne : line2 ≠ []) :
  exists s1 s2, file_addEvent line (d, b) = (s1, false) /\ file_addEvent line2 s1 = (s2, true)
    /\ files s2.1 !! path b = Some (concat ls ++ repeat NUL n ++ line2).
Proof.
  destruct Hh as (Hf & Hls & Hsz & Hcnt & Hpos & Hmax). specialize (Hpos Hend).
  set (b1 := set_stream true (length (concat ls) + n) b).
  set (d1 := mkFs (<[path b := concat ls]> (files d)) [] (openable d)).
  assert (file_addEvent line (d, b) = ((d1, b1), false)) as E1.
  { unfold file_addEvent. rewrite Hfd, Hfin, Hcan, Hend. cbn [negb]. unfold write_all_of. rewrite Hio. cbn [length write_loop].
    rewrite decide_True by lia. unfold disk_write. rewrite Hio, Hf. cbn [from_option Datatypes.id].
    rewrite drop_0, Nat.add_0_r, Nat.min_l by lia. rewrite decide_True by lia.
    cbn [io set_io set_files]. rewrite decide_True by lia. unfold disk_truncate. cbn [set_files set_io files path set_stream].
    rewrite lookup_insert_eq. cbn [from_option Datatypes.id]. unfold d1, b1, set_files, set_io. cbn [files io openable].
    change (fileSize (set_stream _ _ b)) with (fileSize b). rewrite Hend, Hpos, Hsz.
    rewrite insert_insert_eq, write_at_end, take_app_length, length_app.
    replace (length (concat ls) - (length (concat ls) + length (take n line)))%nat with 0%nat by lia. by rewrite app_nil_r. }
  assert (fd_open b1 = true /\ finalized b1 = false /\ canAddEventInt (Z.of_nat (length line2)) b1 = true
    /\ streamAtEnd b1 = true /\ path b1 = path b /\ pos b1 = (length (concat ls) + n)%nat)
    as (F1 & F2 & F3 & F4 & F5 & F6) by (by split_and!). clearbody b1.
  eexists (d1, b1), _. split; [done|]. unfold file_addEvent. rewrite F1, F2, F3, F4. cbn [negb].
  rewrite write_all_of_ok by done. split; [done|]. cbn [fst files set_files path set_stream]. rewrite F5, F6, lookup_insert_eq.
  unfold d1. cbn [files]. rewrite lookup_insert_eq. cbn [from_option Datatypes.id].
  unfold write_at. rewrite take_ge, drop_ge by lia. rewrite app_nil_r. do 4 f_equal. lia.
Qed.

(** ** Examples *)
Definition p0 : bytes := lit "normal0.txt".
Definition ev (s : string) : bytes := lit s ++ crlf.
Definition disk0 : fs := mkFs {[p0 := ev "a" ++ ev "b" ++ lit "torn"]} [] true.

Lemma lines_check (ls : list bytes) :
  forallb (fun l => match find_nl l with Some k => (S k =? length l)%nat | None => false end) ls = true -> Forall is_line ls.
Proof.
  intros E. rewrite forallb_forall in E. apply Forall_forall. intros l Hl. specialize (E _ Hl).
  pose proof (find_nl_spec l) as Hs. destruct (find_nl l) as [k|]; [|done]. destruct Hs as (a & r & -> & <- & Ha).
  apply Nat.eqb_eq in E. rewrite length_app in E. simpl in E. assert (r = []) as -> by (apply nil_length_inv; lia). by exists a.
Qed.

Lemma open_batch_recovers_witness :
  exists ls rest, default [] (files disk0 !! p0) = concat ls ++ rest /\ newline ∉ rest
    /\ file_queued (open_batch disk0 p0) ls /\ files (open_batch disk0 p0).1 !! p0 = Some (concat ls).
Proof. apply (open_batch_recovers disk0 p0); done. Defined.

Lemma two_lines_queued : file_queued (open_batch disk0 p0) [ev "a"; ev "b"].
Proof.
  split; [by vm_compute|]. split; [by vm_compute|].
  replace (fd_open (open_batch disk0 p0).2) with true by (by vm_compute).
  split_and!; try (by vm_compute). apply lines_check. by vm_compute.
Qed.

Lemma file_upload_round_witness :
  exists b' el k s', file_getEventsForUpload 1 100 (open_batch disk0 p0) = ((open_batch disk0 p0).1, b', Some el)
    /\ k = prefix_len 1 (Z.min (Z.min 100 MAX_READ) (lsize [ev "a"; ev "b"])) [ev "a"; ev "b"]
    /\ holds el (take k [ev "a"; ev "b"])
    /\ file_onEventsUploaded (json := TreeJson) el ((open_batch disk0 p0).1, b') = Ret s'
    /\ file_queued s' (drop k [ev "a"; ev "b"]).
Proof.
  pose proof two_lines_queued as Hq. destruct (open_batch disk0 p0) as [d b].
  apply (file_upload_round d b); [exact Hq|done|done|done].
Defined.

Definition full_disk : fs := mkFs {[p0 := ev "a"]} [write_part 2; write_error] true.
Definition at_end : file_batch := mkFile p0 true 3 1 true false 0 0 3.

Lemma torn_write_leaves_hole_witness :
  exists s1 s2, file_addEvent (ev "b") (full_disk, at_end) = (s1, false) /\ file_addEvent (ev "c") s1 = (s2, true)
    /\ files s2.1 !! p0 = Some (ev "a" ++ [NUL; NUL] ++ ev "c").
Proof.
  apply (torn_write_leaves_hole full_disk at_end [ev "a"] (ev "b") (ev "c") 2); try done.
  - split_and!; try (by vm_compute). apply lines_check. by vm_compute.
  - simpl. lia.
Defined.

End FileBatch.
