(* ===== verification/MultiFileBatch.v ===== *)
(** * The batch in several files (cll-telemetry/src/multi_file_event_batch.cpp)

    Files with increasing ids: the one new events go to, the one events are uploaded
    from, and the ids of those in between. *)

From S2P Require Import Prelude CxxString Json EventBatch MemoryBatch FileBatch.
From Stdlib Require Import ZArith Ascii Lia.
From stdpp Require Import base list gmap strings numbers sorting.

Open Scope Z_scope.

Module MultiFileBatch.
Import FileBatch.

Record multi_batch := mkMulti {
  dir : bytes;
  prefix : bytes;
  suffix : bytes;
  fileMaxSize : Z;
  fileMaxEvents : Z;
  oldestBatch : option file_batch;
  oldBatches : list Z;
  newestBatch : file_batch;
  newestBatchId : Z
}.

Definition set_oldest (o : option file_batch) (ids : list Z) (m : multi_batch) : multi_batch :=
  mkMulti (dir m) (prefix m) (suffix m) (fileMaxSize m) (fileMaxEvents m) o ids (newestBatch m) (newestBatchId m).
Definition set_newest (b : file_batch) (i : Z) (m : multi_batch) : multi_batch :=
  mkMulti (dir m) (prefix m) (suffix m) (fileMaxSize m) (fileMaxEvents m) (oldestBatch m) (oldBatches m) b i.

(** ** Names *)
Definition file_name (dir prefix suffix : bytes) (i : Z) : bytes := dir ++ prefix ++ CxxString.to_string i ++ suffix.
Definition getBatchFileName (m : multi_batch) (i : Z) : bytes := file_name (dir m) (prefix m) (suffix m) i.

(** The id in a directory entry's name. *)
Definition batch_id (prefix suffix name : bytes) : option Z :=
  let len := length name in
  if decide (len < length prefix + length suffix)%nat then None
  else if decide (take (length prefix) name = prefix /\ drop (len - length suffix) name = suffix) then
    match stoull (take (len - length prefix - length suffix) (drop (length prefix) name)) with
    | Ret z => Some (wraps 64 z)
    | _ => None
    end
  else None.

(** [listing] are the entries of the directory, with whether they are regular files. *)
Definition entry_id (prefix suffix : bytes) (e : bytes * bool) : option Z :=
  if e.2 then batch_id prefix suffix e.1 else None.
Definition getBatches (prefix suffix : bytes) (listing : list (bytes * bool)) : list Z :=
  merge_sort Z.le (omap (entry_id prefix suffix) listing).

(** ** Opening *)
Definition openBatch (d : fs) (name : bytes) (maxEvents maxSize : Z) (write : bool) : fs * file_batch :=
  let '(d, ev) := open_batch d name in
  let ev := setLimit maxEvents maxSize ev in
  (d, if write then ev else setFinalized ev).

Definition with_slash (p : bytes) : bytes :=
  match last p with
  | Some c => if decide (c = "/"%char) then p else p ++ ["/"%char]
  | None => p
  end.

(** The constructor. *)
Definition new_multi (d : fs) (p prefix suffix : bytes) (maxEvents maxSize : Z) (listing : list (bytes * bool)) :
    fs * multi_batch :=
  let p := with_slash p in
  let ids := getBatches prefix suffix listing in
  let i := default 0 (last ids) in
  let ids := take (length ids - 1) ids in
  let '(d, b) := openBatch d (file_name p prefix suffix i) maxEvents maxSize true in
  (d, mkMulti p prefix suffix maxSize maxEvents None ids b i).

(** ** checkOldestBatch *)
Fixpoint find_oldest (m : multi_batch) (d : fs) (ids : list Z) : fs * option file_batch * list Z :=
  match ids with
  | [] => (d, None, [])
  | i :: ids =>
      let '(d, b) := openBatch d (getBatchFileName m i) (fileMaxEvents m) (fileMaxSize m) false in
      if file_hasEvents b then (d, Some b, ids)
      else find_oldest m (disk_remove d (path b)) ids
  end.
Definition checkOldestBatch (s : fs * multi_batch) : fs * multi_batch :=
  match oldestBatch s.2 with
  | Some _ => s
  | None => let '(d, o, ids) := find_oldest s.2 s.1 (oldBatches s.2) in (d, set_oldest o ids s.2)
  end.

(** ** The operations *)
(** A new file: the one events went to becomes the oldest, or its id joins the
    others. *)
Definition rotate (s : fs * multi_batch) : fs * multi_batch :=
  let '(d, m) := s in
  let old := setFinalized (newestBatch m) in
  let m := match oldestBatch m, oldBatches m with
           | None, [] => set_oldest (Some old) [] m
           | o, ids => set_oldest o (ids ++ [newestBatchId m]) m
           end in
  let i := newestBatchId m + 1 in
  let '(d, b) := openBatch d (getBatchFileName m i) (fileMaxEvents m) (fileMaxSize m) true in
  (d, set_newest b i m).

Definition multi_add_line (data : bytes) (s : fs * multi_batch) : fs * multi_batch * bool :=
  let '(d, m) := if canAddEvent (Z.of_nat (length data)) (newestBatch s.2) then s else rotate s in
  let '(d, b, r) := file_addEvent data (d, newestBatch m) in
  (d, set_newest b (newestBatchId m) m, r).

Definition multi_getEventsForUpload (mc ms : Z) (s : fs * multi_batch) : fs * multi_batch * option event_list :=
  let '(d, m) := checkOldestBatch s in
  match oldestBatch m with
  | Some b =>
      let '(d, b, r) := file_getEventsForUpload mc ms (d, b) in
      (d, set_oldest (Some b) (oldBatches m) m, (fun l => MultiEventList l true) <$> r)
  | None =>
      let '(d, b, r) := file_getEventsForUpload mc ms (d, newestBatch m) in
      (d, set_newest b (newestBatchId m) m, (fun l => MultiEventList l false) <$> r)
  end.

Definition multi_hasEvents (m : multi_batch) : bool :=
  negb (bool_decide (oldBatches m = [])) || match oldestBatch m with Some _ => true | None => false end
  || file_hasEvents (newestBatch m).

Definition setFileLimits (maxEvents maxSize : Z) (m : multi_batch) : multi_batch :=
  mkMulti (dir m) (prefix m) (suffix m) maxSize maxEvents (setLimit maxEvents maxSize <$> oldestBatch m) (oldBatches m)
    (setLimit maxEvents maxSize (newestBatch m)) (newestBatchId m).

Section json.
Context {json : Type} `{Json json}.

Definition multi_onEventsUploaded (events : event_list) (s : fs * multi_batch) : outcome (jexn json) (fs * multi_batch) :=
  let '(d, m) := s in
  match events with
  | MultiEventList wrapped _ =>
      match oldestBatch m with
      | Some b =>
          '(d, b) ← file_onEventsUploaded wrapped (d, b);
          Ret (d, set_oldest (if file_hasEvents b then Some b else None) (oldBatches m) m)
      | None =>
          '(d, b) ← file_onEventsUploaded wrapped (d, newestBatch m);
          Ret (d, set_newest b (newestBatchId m) m)
      end
  | _ => Undef
  end.

#[export] Instance multi_event_batch : EventBatch json multi_batch := {
  addEvent j s := data ← event_line j; Ret (multi_add_line data s);
  getEventsForUpload mc ms s := Ret (multi_getEventsForUpload mc ms s);
  onEventsUploaded := multi_onEventsUploaded;
  hasEvents := multi_hasEvents
}.
End json.

(** ** The files as one queue *)

(** The state without the disk: which lines which file holds.  [lo] are those of the
    oldest batch, [lolds] those of the ids in between, [ln] those of the newest. *)
Definition multi_holds (d : fs) (m : multi_batch) (lo : list bytes) (lolds : list (list bytes)) (ln : list bytes) : Prop :=
  (* the oldest *)
  match oldestBatch m with
  | Some b => file_queued (d, b) lo /\ lo ≠ [] /\ fd_open b = true /\ finalized b = true
      /\ exists i, path b = getBatchFileName m i /\ i < newestBatchId m /\ Forall (fun j => i < j) (oldBatches m)
  | None => lo = []
  end /\
  (* those in between *)
  Forall2 (fun i l => default [] (files d !! getBatchFileName m i) = concat l /\ Forall is_line l /\ lsize l < 2 ^ 63)
    (oldBatches m) lolds /\
  StronglySorted Z.lt (oldBatches m) /\ Forall (fun i => i < newestBatchId m) (oldBatches m) /\
  (* the newest *)
  file_queued (d, newestBatch m) ln /\ fd_open (newestBatch m) = true /\ finalized (newestBatch m) = false /\
  path (newestBatch m) = getBatchFileName m (newestBatchId m) /\
  maxCount (newestBatch m) = fileMaxEvents m /\ maxSize (newestBatch m) = fileMaxSize m /\
  (* the ids to come are free *)
  forall i, newestBatchId m < i -> files d !! getBatchFileName m i = None.

Definition multi_queued (s : fs * multi_batch) (ls : list bytes) : Prop :=
  exists lo lolds ln, multi_holds s.1 s.2 lo lolds ln /\ ls = lo ++ concat lolds ++ ln.

Definition multi_issued (s : fs * multi_batch) (el : event_list) (k : nat) : Prop :=
  exists w more, el = MultiEventList w more /\
  match oldestBatch s.2 with
  | Some b => file_issued (s.1, b) w k
  | None => oldBatches s.2 = [] /\ file_issued (s.1, newestBatch s.2) w k
  end.

(** ** Frame lemmas *)
Lemma file_name_injective p a s i j : file_name p a s i = file_name p a s j -> i = j.
Proof. unfold file_name. intros E. apply app_inv_head, app_inv_head, app_inv_tail in E. by apply to_string_inj. Qed.

Lemma file_name_inj m i j : getBatchFileName m i = getBatchFileName m j -> i = j.
Proof. apply file_name_injective. Qed.

Lemma delete_agree (f g : gmap bytes bytes) p q : delete p f = delete p g -> q ≠ p -> f !! q = g !! q.
Proof. intros E Hq. rewrite <- (lookup_delete_ne f p q), <- (lookup_delete_ne g p q) by done. by rewrite E. Qed.

Lemma file_queued_frame d d' b ls : file_queued (d, b) ls -> io d' = [] -> openable d' = true ->
  files d' !! path b = files d !! path b -> file_queued (d', b) ls.
Proof.
  intros (_ & _ & Hq) Hio Hop Hf. unfold file_queued, file_holds in *. cbn [fst snd] in *. rewrite Hf. by split_and!.
Qed.

Lemma file_issued_frame d d' b el k : file_issued (d, b) el k ->
  files d' !! path b = files d !! path b -> file_issued (d', b) el k.
Proof. unfold file_issued. cbn [fst snd]. intros Hi ->. done. Qed.

Lemma file_queued_io d b ls : file_queued (d, b) ls -> io d = [] /\ openable d = true.
Proof. by intros (? & ? & _). Qed.

(** Limits and the finalized flag are not part of what is stored. *)
Lemma file_queued_flags d b b' ls : file_queued (d, b) ls ->
  path b' = path b -> fd_open b' = fd_open b -> fileSize b' = fileSize b -> eventCount b' = eventCount b ->
  streamAtEnd b' = streamAtEnd b -> pos b' = pos b -> file_queued (d, b') ls.
Proof. unfold file_queued, file_holds. cbn [fst snd]. by intros Hq -> -> -> -> -> ->. Qed.

Lemma file_issued_flags d b b' el k : file_issued (d, b) el k ->
  path b' = path b -> fd_open b' = fd_open b -> streamAtEnd b' = streamAtEnd b -> file_issued (d, b') el k.
Proof. unfold file_issued. cbn [fst snd]. by intros Hi -> -> ->. Qed.

Lemma hasEvents_queued d b ls : file_queued (d, b) ls -> file_hasEvents b = negb (bool_decide (ls = [])).
Proof.
  intros (_ & _ & Hq). cbn [fst snd] in Hq. unfold file_hasEvents. f_equal. apply bool_decide_ext.
  destruct (fd_open b); [|destruct Hq as [-> ->]; done]. destruct Hq as (_ & Hls & -> & _).
  pose proof (lines_length ls Hls). split; [|by intros ->]. destruct ls; [done|]. simpl in *. lia.
Qed.

(** Opening a file of complete lines. *)
Lemma openBatch_ok d p l maxE maxS write : io d = [] -> openable d = true ->
  default [] (files d !! p) = concat l -> Forall is_line l -> lsize l < 2 ^ 63 ->
  exists d' b, openBatch d p maxE maxS write = (d', b) /\ file_queued (d', b) l /\ path b = p /\ fd_open b = true
    /\ finalized b = negb write /\ maxCount b = maxE /\ maxSize b = maxS
    /\ delete p (files d') = delete p (files d) /\ io d' = [] /\ openable d' = true.
Proof.
  intros Hio Hop Hc Hl Hs. destruct (open_batch_ok d p l [] Hio Hop Hl) as (Hq & Hp & Hfd & Hfin & Hdel);
    [apply not_elem_of_nil|by rewrite app_nil_r|done|].
  unfold openBatch. destruct (open_batch d p) as [d' b]. cbn [fst snd] in *.
  destruct (file_queued_io d' b l Hq) as [? ?].
  eexists _, _. split; [done|]. destruct write; (split_and!; try done).
Qed.

(** The files in between, as [multi_holds] has them. *)
Definition stored (m : multi_batch) (d : fs) (ids : list Z) (lolds : list (list bytes)) : Prop :=
  Forall2 (fun i l => default [] (files d !! getBatchFileName m i) = concat l /\ Forall is_line l /\ lsize l < 2 ^ 63) ids lolds.

Lemma stored_frame m d d' ids lolds : stored m d ids lolds ->
  (forall i, In i ids -> files d' !! getBatchFileName m i = files d !! getBatchFileName m i) -> stored m d' ids lolds.
Proof.
  induction 1 as [|i l ids lolds Hi _ IH]; intros Hf; constructor.
  - rewrite Hf by (by left). done.
  - apply IH. intros j Hj. apply Hf. by right.
Qed.

Lemma find_oldest_ok m ids : forall lolds d,
  io d = [] -> openable d = true -> stored m d ids lolds -> StronglySorted Z.lt ids ->
  exists d' o ids' lo lolds', find_oldest m d ids = (d', o, ids') /\ concat lolds = lo ++ concat lolds'
    /\ io d' = [] /\ openable d' = true
    /\ (forall q, (forall i, In i ids -> q ≠ getBatchFileName m i) -> files d' !! q = files d !! q)
    /\ stored m d' ids' lolds' /\ StronglySorted Z.lt ids' /\ (forall j, In j ids' -> In j ids)
    /\ match o with
       | Some b => file_queued (d', b) lo /\ lo ≠ [] /\ fd_open b = true /\ finalized b = true
           /\ exists i, In i ids /\ path b = getBatchFileName m i /\ Forall (fun j => i < j) ids'
       | None => lo = [] /\ ids' = []
       end.
Proof.
  induction ids as [|i ids IH]; intros lolds d Hio Hop Hst Hsort; inversion Hst as [|? l ? lolds' Hl Hst']; subst.
  { exists d, None, [], [], []. by split_and!. }
  apply StronglySorted_inv in Hsort as [Hsort Hlt]. destruct Hl as (Hc & Hl & Hsz). cbn [find_oldest].
  destruct (openBatch_ok d (getBatchFileName m i) l (fileMaxEvents m) (fileMaxSize m) false Hio Hop Hc Hl Hsz)
    as (d1 & b & -> & Hq & Hp & Hfd & Hfin & _ & _ & Hdel & Hio1 & Hop1).
  assert (Hother : forall j, In j ids -> getBatchFileName m j ≠ getBatchFileName m i).
  { intros j Hj E. apply file_name_inj in E. subst. rewrite List.Forall_forall in Hlt. specialize (Hlt _ Hj). lia. }
  assert (stored m d1 ids lolds') as Hst1.
  { apply stored_frame with d; [done|]. intros j Hj. by apply delete_agree with (getBatchFileName m i); [|apply Hother]. }
  rewrite (hasEvents_queued _ _ _ Hq). case_bool_decide as Hnil; cbn [negb].
  - subst l. set (d2 := disk_remove d1 (path b)). assert (Hf2 : forall q, q ≠ path b -> files d2 !! q = files d1 !! q).
    { intros q Hq'. unfold d2, disk_remove. simpl. by rewrite lookup_delete_ne. }
    destruct (IH lolds' d2) as (d' & o & ids' & lo & lolds'' & -> & Ec & ? & ? & Hf & ? & ? & Hin & Ho); [done|done| |done|].
    { apply stored_frame with d1; [done|]. intros j Hj. apply Hf2. rewrite Hp. by apply Hother. }
    exists d', o, ids', lo, lolds''. split_and!; try done.
    + intros q Hq'. rewrite Hf by (intros j Hj; apply Hq'; by right). rewrite Hf2 by (rewrite Hp; apply Hq'; by left).
      apply delete_agree with (getBatchFileName m i); [done|]. apply Hq'. by left.
    + intros j Hj. right. by apply Hin.
    + destruct o as [b'|]; [|done]. destruct Ho as (? & ? & ? & ? & i' & Hi' & ? & ?). split_and!; try done. exists i'. split_and!; [by right|done|done].
  - exists d1, (Some b), ids, l, lolds'. split_and!; try done.
    + intros q Hq'. apply delete_agree with (getBatchFileName m i); [done|]. apply Hq'. by left.
    + intros j Hj. by right.
    + exists i. split_and!; [by left|done|done].
Qed.

Lemma checkOldest_ok d m lo lolds ln : multi_holds d m lo lolds ln ->
  exists d' m' lo' lolds', checkOldestBatch (d, m) = (d', m') /\ multi_holds d' m' lo' lolds' ln
    /\ lo ++ concat lolds = lo' ++ concat lolds'
    /\ newestBatch m' = newestBatch m /\ (oldestBatch m' = None -> oldBatches m' = []).
Proof.
  intros Hm. unfold checkOldestBatch. cbn [fst snd]. destruct (oldestBatch m) as [b|] eqn:Eo.
  { exists d, m, lo, lolds. split_and!; try done. rewrite Eo. done. }
  destruct Hm as (Ho & Hst & Hsort & Hlt & Hq & Hfd & Hfin & Hp & Hmc & Hms & Hfree). rewrite Eo in Ho. subst lo.
  destruct (file_queued_io _ _ _ Hq) as [Hio Hop].
  destruct (find_oldest_ok m (oldBatches m) lolds d Hio Hop Hst Hsort)
    as (d' & o & ids' & lo' & lolds' & -> & Ec & Hio' & Hop' & Hf & Hst' & Hsort' & Hin & Ho).
  rewrite List.Forall_forall in Hlt.
  exists d', (set_oldest o ids' m), lo', lolds'. split; [done|]. split; [|split_and!; [done|done|]].
  2: { simpl. intros ->. by destruct Ho. }
  assert (Hnew : forall i, newestBatchId m <= i -> files d' !! getBatchFileName m i = files d !! getBatchFileName m i).
  { intros i Hi. apply Hf. intros j Hj E. apply file_name_inj in E. specialize (Hlt _ Hj). lia. }
  unfold multi_holds. cbn [oldestBatch oldBatches newestBatch newestBatchId fileMaxEvents fileMaxSize set_oldest].
  split_and!; try done.
  - destruct o as [b|]; [|by destruct Ho]. destruct Ho as (? & ? & ? & ? & i & Hi & ? & ?). split_and!; try done.
    exists i. split_and!; [done|by apply Hlt|done].
  - apply List.Forall_forall. intros j Hj. by apply Hlt, Hin.
  - apply file_queued_frame with d; [done|done|done|]. rewrite Hp. apply Hnew. lia.
  - intros i Hi. rewrite <- (Hfree i Hi). apply Hnew. lia.
Qed.

(** An event that fits the newest file. *)
Lemma multi_append d m lo lolds ln line : multi_holds d m lo lolds ln -> is_line line ->
  canAddEventInt (Z.of_nat (length line)) (newestBatch m) = true ->
  Z.of_nat (fileSize (newestBatch m)) + Z.of_nat (length line) < 2 ^ 63 ->
  exists d' b, file_addEvent line (d, newestBatch m) = (d', b, true)
    /\ multi_holds d' (set_newest b (newestBatchId m) m) lo lolds (ln ++ [line])
    /\ forall el k, multi_issued (d, m) el k -> multi_issued (d', set_newest b (newestBatchId m) m) el k.
Proof.
  intros (Ho & Hst & Hsort & Hlt & Hq & Hfd & Hfin & Hp & Hmc & Hms & Hfree) Hl Hcan Hb.
  destruct (file_add_queued d (newestBatch m) ln line Hq Hl Hb)
    as ([d' b] & r & E & Hq' & Hp' & Hfd' & Hfin' & Hmc' & Hms' & Hr & _ & _ & Hdel). cbn [fst snd] in *.
  rewrite Hfd, Hfin, Hcan in Hr. cbn in Hr. subst r. exists d', b. split; [done|].
  assert (Hf : forall i, i ≠ newestBatchId m -> files d' !! getBatchFileName m i = files d !! getBatchFileName m i).
  { intros i Hi. apply delete_agree with (path (newestBatch m)); [done|]. rewrite Hp. intros E'. by apply file_name_inj in E'. }
  destruct (file_queued_io _ _ _ Hq') as [Hio Hop]. rewrite List.Forall_forall in Hlt. split.
  - unfold multi_holds. cbn [oldestBatch oldBatches newestBatch newestBatchId fileMaxEvents fileMaxSize set_newest].
    rewrite Hp', Hfd', Hfin', Hmc', Hms'. split_and!; try done.
    + destruct (oldestBatch m) as [b0|]; [|done]. destruct Ho as (? & ? & ? & ? & i & Hi & ? & ?). split_and!; try done.
      * apply file_queued_frame with d; [done..|]. rewrite Hi. apply Hf. lia.
      * by exists i.
    + apply stored_frame with d; [done|]. intros j Hj. apply Hf. specialize (Hlt _ Hj). lia.
    + by apply List.Forall_forall.
    + intros i Hi. rewrite <- (Hfree i Hi). apply Hf. lia.
  - intros el k (w & more & -> & Hi). exists w, more. split; [done|]. cbn [fst snd oldestBatch oldBatches newestBatch set_newest] in *.
    destruct (oldestBatch m) as [b0|].
    + destruct Ho as (_ & _ & _ & _ & i & Hpi & ? & _). apply file_issued_frame with d; [done|]. rewrite Hpi. apply Hf. lia.
    + destruct Hi as [? Hi]. split; [done|]. by apply file_issued_add with d (newestBatch m) ln line.
Qed.

(** A new file for the next event. *)
Lemma multi_rotate d m lo lolds ln : multi_holds d m lo lolds ln -> ln ≠ [] ->
  exists d' m' lo' lolds', rotate (d, m) = (d', m') /\ multi_holds d' m' lo' lolds' []
    /\ lo' ++ concat lolds' = lo ++ concat lolds ++ ln
    /\ fileMaxSize m' = fileMaxSize m /\ fileMaxEvents m' = fileMaxEvents m
    /\ forall el k, multi_issued (d, m) el k -> multi_issued (d', m') el k.
Proof.
  intros (Ho & Hst & Hsort & Hlt & Hq & Hfd & Hfin & Hp & Hmc & Hms & Hfree) Hne.
  destruct (file_queued_io _ _ _ Hq) as [Hio Hop].
  destruct (openBatch_ok d (getBatchFileName m (newestBatchId m + 1)) [] (fileMaxEvents m) (fileMaxSize m) true)
    as (d' & b & E & Hqb & Hpb & Hfdb & Hfinb & Hmcb & Hmsb & Hdel & Hio' & Hop'); [done|done|by rewrite Hfree by lia|done|done|].
  assert (Hf : forall i, i ≠ newestBatchId m + 1 -> files d' !! getBatchFileName m i = files d !! getBatchFileName m i).
  { intros i Hi. apply delete_agree with (getBatchFileName m (newestBatchId m + 1)); [done|]. intros E'. by apply file_name_inj in E'. }
  assert (file_queued (d', newestBatch m) ln) as Hqn.
  { apply file_queued_frame with d; [done..|]. rewrite Hp. apply Hf. lia. }
  assert (stored m d' (oldBatches m) lolds) as Hst'.
  { apply stored_frame with d; [done|]. intros j Hj. apply Hf. rewrite List.Forall_forall in Hlt. specialize (Hlt _ Hj). lia. }
  assert (Forall (fun i => i < newestBatchId m + 1) (oldBatches m)) as Hlt'.
  { eapply Forall_impl; [done|]. simpl. lia. }
  assert (forall i, newestBatchId m + 1 < i -> files d' !! getBatchFileName m i = None) as Hfree'.
  { intros i Hi. rewrite Hf by lia. apply Hfree. lia. }
  assert (oldestBatch m = None /\ oldBatches m = [] \/ (oldestBatch m = None -> oldBatches m ≠ []) /\
    rotate (d, m) = (d', set_newest b (newestBatchId m + 1) (set_oldest (oldestBatch m) (oldBatches m ++ [newestBatchId m]) m)))
    as [[Eo Ei]|[Hsome Er]].
  { unfold rotate. destruct (oldestBatch m); [right|destruct (oldBatches m); [by left|right]]; (split; [done|]);
      unfold getBatchFileName in *; cbn [dir prefix suffix newestBatchId fileMaxEvents fileMaxSize set_oldest]; by rewrite E. }
  - assert (rotate (d, m) = (d', set_newest b (newestBatchId m + 1) (set_oldest (Some (setFinalized (newestBatch m))) [] m))) as Er.
    { unfold rotate. rewrite Eo, Ei. unfold getBatchFileName in *. cbn [dir prefix suffix newestBatchId fileMaxEvents fileMaxSize set_oldest].
      by rewrite E. }
    rewrite Eo in Ho. rewrite Ei in Hst. inversion Hst. subst. eexists _, _, ln, []. split; [done|]. cbn [concat app]. rewrite app_nil_r.
    unfold multi_holds. cbn [oldestBatch oldBatches newestBatch newestBatchId fileMaxEvents fileMaxSize set_newest set_oldest].
    split_and!; try done.
    + exists (newestBatchId m). split_and!; [done|lia|done].
    + constructor.
    + intros el k (w & more & -> & Hi). exists w, more. split; [done|]. cbn [fst snd] in *. rewrite Eo in Hi. destruct Hi as [_ Hi]. simpl.
      apply file_issued_flags with (newestBatch m); [|done..]. apply file_issued_frame with d; [done|]. rewrite Hp. apply Hf. lia.
  - eexists _, _, lo, (lolds ++ [ln]). split; [done|]. rewrite concat_app. cbn [concat]. rewrite app_nil_r.
    split; [|split_and!; try done].
    + unfold multi_holds. cbn [oldestBatch oldBatches newestBatch newestBatchId fileMaxEvents fileMaxSize set_newest set_oldest].
      split_and!; try done.
      * destruct (oldestBatch m) as [b0|]; [|done]. destruct Ho as (? & ? & ? & ? & i & Hi & Hin & Hij). split_and!; try done.
        -- apply file_queued_frame with d; [done..|]. rewrite Hi. apply Hf. lia.
        -- exists i. split_and!; [done|lia|]. apply Forall_app. split; [done|]. by apply Forall_singleton.
      * apply Forall2_app; [done|]. constructor; [|constructor].
        destruct Hqn as (_ & _ & Hn). cbn [fst snd] in Hn. rewrite Hfd in Hn. destruct Hn as (Hn1 & Hn2 & _ & _ & _ & Hn3).
        rewrite Hp in Hn1. split_and!; [|done|done].
        unfold getBatchFileName in *. cbn [dir prefix suffix set_newest set_oldest]. by rewrite Hn1.
      * apply StronglySorted_app_2; [|done|by repeat constructor]. intros x y Hx Hy. apply list_elem_of_singleton in Hy. subst.
        rewrite Forall_forall in Hlt. by apply Hlt.
      * apply Forall_app. split; [done|]. apply Forall_singleton. lia.
    + intros el k (w & more & -> & Hi). exists w, more. split; [done|]. cbn [fst snd oldestBatch oldBatches set_newest set_oldest] in *.
      destruct (oldestBatch m) as [b0|] eqn:Eo.
      * destruct Ho as (_ & _ & _ & _ & i & Hpi & ? & _). apply file_issued_frame with d; [done|]. rewrite Hpi. apply Hf. lia.
      * by destruct (Hsome eq_refl); destruct Hi.
Qed.

(** The events the files take: within the limits of a file. *)
Definition multi_accepts (m : multi_batch) (line : bytes) : Prop :=
  (fileMaxSize m = 0 \/ Z.of_nat (length line) <= fileMaxSize m) /\ 0 <= fileMaxEvents m.

Lemma fresh_can_add d b (line : bytes) maxE maxS : file_queued (d, b) [] -> fd_open b = true ->
  maxCount b = maxE -> maxSize b = maxS -> (maxS = 0 \/ Z.of_nat (length line) <= maxS) -> 0 <= maxE ->
  canAddEventInt (Z.of_nat (length line)) b = true /\ fileSize b = 0%nat.
Proof.
  intros (_ & _ & Hq) Hfd <- <- Hs He. cbn [fst snd] in Hq. rewrite Hfd in Hq. destruct Hq as (_ & _ & Hsz & Hcnt & _).
  simpl in Hsz, Hcnt. split; [|done]. unfold canAddEventInt. rewrite Hsz, Hcnt. apply andb_true_iff.
  rewrite !orb_true_iff, !bool_decide_eq_true. lia.
Qed.

Lemma multi_add_queued d m lo lolds ln line : multi_holds d m lo lolds ln -> is_line line -> multi_accepts m line ->
  lsize ln + Z.of_nat (length line) < 2 ^ 63 ->
  exists s' lo' lolds' ln', multi_add_line line (d, m) = (s', true)
    /\ multi_holds s'.1 s'.2 lo' lolds' ln'
    /\ lo' ++ concat lolds' ++ ln' = (lo ++ concat lolds ++ ln) ++ [line]
    /\ forall el k, multi_issued (d, m) el k -> multi_issued s' el k.
Proof.
  intros Hm Hl (Hs & He) Hb0. pose proof Hm as (_ & _ & _ & _ & Hq & Hfd & Hfin & _ & Hmc & Hms & _).
  assert (Z.of_nat (fileSize (newestBatch m)) + Z.of_nat (length line) < 2 ^ 63) as Hb
    by (by rewrite (file_queued_size _ _ _ Hq)).
  pose proof (lsize_nonneg ln). unfold multi_add_line, canAddEvent. cbn [snd]. rewrite Hfin.
  destruct (canAddEventInt (Z.of_nat (length line)) (newestBatch m)) eqn:Hcan.
  - destruct (multi_append d m lo lolds ln line Hm Hl Hcan Hb) as (d' & b & -> & Hm' & Hi).
    eexists _, lo, lolds, (ln ++ [line]). split; [done|]. split_and!; [done| |done]. by rewrite !app_assoc.
  - assert (ln ≠ []) as Hne.
    { intros ->. destruct (fresh_can_add d (newestBatch m) line _ _ Hq Hfd Hmc Hms Hs He) as [E _]. by rewrite E in Hcan. }
    destruct (multi_rotate d m lo lolds ln Hm Hne) as (d1 & m1 & lo1 & lolds1 & -> & Hm1 & Eq & Es & Ee & Hi).
    pose proof Hm1 as (_ & _ & _ & _ & Hq1 & Hfd1 & _ & _ & Hmc1 & Hms1 & _).
    destruct (fresh_can_add d1 (newestBatch m1) line _ _ Hq1 Hfd1 Hmc1 Hms1) as [Hcan1 Hsz1]; [by rewrite Es|by rewrite Ee|].
    destruct (multi_append d1 m1 lo1 lolds1 [] line Hm1 Hl Hcan1) as (d' & b & -> & Hm' & Hi'); [rewrite Hsz1; lia|].
    eexists _, lo1, lolds1, [line]. split; [done|]. split_and!; [done|by rewrite app_assoc, Eq|]. intros el k Hk. by apply Hi', Hi.
Qed.

Lemma multi_get_queued d m lo lolds ln mc ms : multi_holds d m lo lolds ln -> 0 < mc -> 0 < ms ->
  exists s' lo' lolds', multi_getEventsForUpload mc ms (d, m) = s' /\ multi_holds s'.1.1 s'.1.2 lo' lolds' ln
    /\ lo ++ concat lolds = lo' ++ concat lolds'
    /\ match s'.2 with
       | Some el => exists first k, (first = lo' /\ lo' ≠ [] \/ first = ln /\ lo' = [] /\ lolds' = [])
           /\ k = prefix_len mc (Z.min (Z.min ms MAX_READ) (lsize first)) first
           /\ holds el (take k first) /\ multi_issued s'.1 el k
           /\ (forall E, hasMoreEvents (E := E) el = Ret false -> first = ln /\ lo' = [] /\ lolds' = [] /\ k = length ln)
       | None => lo ++ concat lolds ++ ln = []
       end.
Proof.
  intros Hm Hmc Hms. unfold multi_getEventsForUpload.
  destruct (checkOldest_ok d m lo lolds ln Hm) as (d1 & m1 & lo1 & lolds1 & -> & Hm1 & Eq & _ & Hnone).
  pose proof Hm1 as (Ho & Hst & Hsort & Hlt & Hq & Hfd & Hfin & Hp & Hmc1 & Hms1 & Hfree).
  destruct (oldestBatch m1) as [b|] eqn:Eo.
  - destruct Ho as (Hqo & Hne & Hfo & Hfino & Hio).
    destruct (file_get_queued d1 b lo1 mc ms Hqo Hmc Hms) as (b' & r & -> & Hq' & Hp' & Hf' & Hfin' & _ & _ & Hr).
    eexists _, lo1, lolds1. split; [done|]. cbn [fst snd]. split; [|split; [done|]].
    + unfold multi_holds. cbn [oldestBatch oldBatches newestBatch newestBatchId fileMaxEvents fileMaxSize set_oldest].
      rewrite Hp', Hf', Hfin'. by split_and!.
    + destruct r as [el|]; cbn [fmap option_fmap option_map]; [|done]. destruct Hr as (k & Ek & Hh & Hi & Hmore).
      exists lo1, k. split_and!; [by left|done| |by exists el, true|].
      * intros E. destruct (Hh E) as (? & ? & more & Hmo). split_and!; [done|done|]. simpl. rewrite Hmo. by eexists.
      * intros E. destruct (Hh E) as (_ & _ & more & Hmo). simpl. by rewrite Hmo.
  - subst lo1. specialize (Hnone eq_refl). rewrite Hnone in Hst. inversion Hst. subst lolds1. cbn [concat app] in Eq.
    destruct (file_get_queued d1 (newestBatch m1) ln mc ms Hq Hmc Hms) as (b' & r & -> & Hq' & Hp' & Hf' & Hfin' & Hmc' & Hms' & Hr).
    eexists _, [], []. split; [done|]. cbn [fst snd]. split; [|split; [done|]].
    + unfold multi_holds. cbn [oldestBatch oldBatches newestBatch newestBatchId fileMaxEvents fileMaxSize set_newest].
      rewrite Eo, Hp', Hf', Hfin', Hmc', Hms', Hnone. split_and!; try done. constructor.
    + destruct r as [el|]; cbn [fmap option_fmap option_map]; [|by rewrite app_assoc, Eq, Hr]. destruct Hr as (k & Ek & Hh & Hi & Hmore).
      exists ln, k. split_and!; [by right|done| | |].
      * intros E. destruct (Hh E) as (? & ? & more & Hmo). split_and!; [done|done|]. simpl. rewrite Hmo. by eexists.
      * exists el, false. split; [done|]. cbn [fst snd oldestBatch oldBatches newestBatch set_newest]. rewrite Eo. by split.
      * intros E. destruct (Hh E) as (_ & _ & more & Hmo). simpl. rewrite Hmo. cbn [mbind outcome_bind orb]. intros [= ->].
        split_and!; [done|done|done|]. by apply (Hmore E).
Qed.

Section spec.
Context {json : Type} `{Json json}.

Lemma multi_uploaded_queued d m lo lolds ln el k : multi_holds d m lo lolds ln -> multi_issued (d, m) el k ->
  exists s' lo' ln', multi_onEventsUploaded (json := json) el (d, m) = Ret s' /\ multi_holds s'.1 s'.2 lo' lolds ln'
    /\ lo' ++ concat lolds ++ ln' = drop k (lo ++ concat lolds ++ ln).
Proof.
  intros (Ho & Hst & Hsort & Hlt & Hq & Hfd & Hfin & Hp & Hmc & Hms & Hfree) (w & more & -> & Hi). cbn [fst snd] in Hi.
  unfold multi_onEventsUploaded. rewrite List.Forall_forall in Hlt. destruct (oldestBatch m) as [b|] eqn:Eo.
  - destruct Ho as (Hqo & Hne & Hfo & Hfino & i & Hpi & Hin & Hij).
    assert (k <= length lo)%nat as Hk.
    { unfold file_issued in Hi. cbn [fst snd] in Hi. rewrite Hfo in Hi. destruct Hi as (l & Hl1 & Hl2 & Hl3 & _).
      destruct Hqo as (_ & _ & Hh). cbn [fst snd] in Hh. rewrite Hfo in Hh. destruct Hh as (Hh1 & Hh2 & _).
      by rewrite <- (concat_lines_inj l lo) by congruence. }
    destruct (file_uploaded_queued (json := json) d b lo w k Hqo Hi Hk) as ([d' b'] & -> & Hq' & Hp' & Hfin' & _ & _ & Hfd' & Hdel).
    cbn [fst snd mbind outcome_bind] in *. cbv beta iota.
    assert (Hf : forall j, j ≠ i -> files d' !! getBatchFileName m j = files d !! getBatchFileName m j).
    { intros j Hj. apply delete_agree with (path b); [done|]. rewrite Hpi. intros E. by apply file_name_inj in E. }
    destruct (file_queued_io _ _ _ Hq') as [Hio' Hop']. rewrite List.Forall_forall in Hij.
    eexists _, (drop k lo), ln. split; [done|]. cbn [fst snd]. split; [|by rewrite drop_app_le by done].
    unfold multi_holds. cbn [oldestBatch oldBatches newestBatch newestBatchId fileMaxEvents fileMaxSize set_oldest].
    rewrite (hasEvents_queued _ _ _ Hq'). split_and!; try done.
    + case_bool_decide as Hnil; cbn [negb]; [done|]. rewrite Hfo, Hfino in Hfd'. cbn in Hfd'. rewrite Hp', Hfin'.
      split_and!; try done. exists i. split_and!; try done. by apply List.Forall_forall.
    + apply stored_frame with d; [done|]. intros j Hj. apply Hf. specialize (Hij _ Hj). lia.
    + by apply List.Forall_forall.
    + apply file_queued_frame with d; [done..|]. rewrite Hp. apply Hf. lia.
    + intros j Hj. rewrite <- (Hfree j Hj). apply Hf. lia.
  - subst lo. destruct Hi as [Hnil Hi]. rewrite Hnil in Hst. inversion Hst. subst lolds.
    assert (k <= length ln)%nat as Hk.
    { unfold file_issued in Hi. cbn [fst snd] in Hi. rewrite Hfd in Hi. destruct Hi as (l & Hl1 & Hl2 & Hl3 & _).
      destruct Hq as (_ & _ & Hh). cbn [fst snd] in Hh. rewrite Hfd in Hh. destruct Hh as (Hh1 & Hh2 & _).
      by rewrite <- (concat_lines_inj l ln) by congruence. }
    destruct (file_uploaded_queued (json := json) d (newestBatch m) ln w k Hq Hi Hk)
      as ([d' b'] & -> & Hq' & Hp' & Hfin' & Hmc' & Hms' & Hfd' & Hdel).
    cbn [fst snd mbind outcome_bind] in *. cbv beta iota. eexists _, [], (drop k ln). split; [done|]. cbn [fst snd concat app]. split; [|done].
    unfold multi_holds. cbn [oldestBatch oldBatches newestBatch newestBatchId fileMaxEvents fileMaxSize set_newest].
    rewrite Eo, Hnil, Hp', Hfin', Hmc', Hms'. rewrite Hfd, Hfin in Hfd'. cbn in Hfd'. split_and!; try done; [constructor|].
    intros j Hj. rewrite <- (Hfree j Hj). apply delete_agree with (path (newestBatch m)); [done|]. rewrite Hp.
    intros E. apply file_name_inj in E. lia.
Qed.

Lemma multi_queued_unique s l1 l2 : multi_queued s l1 -> multi_queued s l2 -> l1 = l2.
Proof.
  destruct s as [d m]. intros (lo1 & lolds1 & ln1 & (Ho1 & Hst1 & _ & _ & Hq1 & _) & ->) (lo2 & lolds2 & ln2 & (Ho2 & Hst2 & _ & _ & Hq2 & _) & ->).
  cbn [fst snd] in *. f_equal; [|f_equal; [|by apply (queued_unique (json := json) (d, newestBatch m))]].
  - destruct (oldestBatch m) as [b|]; [|by subst]. destruct Ho1 as (H1 & _), Ho2 as (H2 & _).
    by apply (queued_unique (json := json) (d, b)).
  - f_equal. clear Ho1 Ho2 Hq1 Hq2. revert lolds2 Hst2. induction Hst1 as [|i l ids lolds (E1 & Hl1 & _) _ IH]; intros lolds2 Hst2;
      inversion Hst2 as [|? l' ? ? (E2 & Hl2 & _)]; subst; [done|]. f_equal; [|by apply IH]. apply concat_lines_inj; congruence.
Qed.

#[export] Instance multi_batch_spec : BatchSpec json multi_batch.
Proof.
  refine {| queued := multi_queued; issued := multi_issued; accepts := multi_accepts |}.
  - apply multi_queued_unique.
  - intros [d m] ls (lo & lolds & ln & Hm & ->) Hne. destruct Hm as (Ho & Hst & _ & _ & Hq & _). simpl in *.
    unfold multi_hasEvents. destruct (oldestBatch m); [by rewrite orb_true_r|]. subst lo.
    destruct (oldBatches m); [|done]. inversion Hst. subst lolds. simpl in *.
    rewrite (hasEvents_queued _ _ _ Hq). by rewrite bool_decide_eq_false_2.
  - intros [d m] ls j line (lo & lolds & ln & Hm & ->) Hd Hn Ha Hb. simpl. unfold event_line. rewrite Hd. cbn [mbind outcome_bind].
    destruct (multi_add_queued d m lo lolds ln (line ++ crlf) Hm) as (s' & lo' & lolds' & ln' & -> & Hm' & Eq & Hi);
      [by apply event_is_line|done| |].
    { rewrite !lsize_app in Hb. pose proof (lsize_nonneg lo). pose proof (lsize_nonneg (concat lolds)). lia. }
    exists s', true. split; [done|]. by exists lo', lolds', ln'.
  - intros [d m] ls mc ms (lo & lolds & ln & Hm & ->) Hne Hmc Hms. cbn [getEventsForUpload multi_event_batch].
    destruct (multi_get_queued d m lo lolds ln mc ms Hm) as ([s' r] & lo' & lolds' & -> & Hm' & Eq & Hr); [lia|lia|].
    cbn [fst snd] in *. destruct r as [el|]; [|done]. rewrite app_assoc, Eq, <- app_assoc in *.
    destruct Hr as (first & k & Hfirst & Ek & Hh & Hi & Hmore). pose proof (lsize_nonneg first).
    destruct (prefix_len_fits mc (Z.min (Z.min ms MAX_READ) (lsize first)) first) as [? ?]; [lia|unfold MAX_READ; lia|].
    rewrite <- Ek in *. assert (k <= length first)%nat by (rewrite Ek; apply prefix_len_le).
    assert (Hall : forall E, hasMoreEvents (E := E) el = Ret false -> k = length (lo' ++ concat lolds' ++ ln)).
    { intros E Hm2. by destruct (Hmore E Hm2) as (-> & -> & -> & ->). }
    assert (multi_queued s' (lo' ++ concat lolds' ++ ln)) as Hq' by (by exists lo', lolds', ln).
    assert (exists rest, lo' ++ concat lolds' ++ ln = first ++ rest /\ (first = [] -> rest = [])) as (rest & Er & Hrest).
    { destruct Hfirst as [[-> ?]|(-> & -> & ->)]; [by eexists|]. exists []. by rewrite app_nil_r. }
    rewrite Er in *. exists s', el, k. rewrite take_app_le by done. split_and!; try done; [rewrite length_app; lia|lia|].
    intros l ls' E Hl. destruct first as [|l' first]; [by rewrite Hrest in E|]. injection E as -> _. rewrite Ek.
    apply prefix_len_progress; [lia|]. rewrite lsize_cons. pose proof (lsize_nonneg first). unfold MAX_READ. lia.
  - intros [d m] ls el k (lo & lolds & ln & Hm & ->) Hi _. cbn [onEventsUploaded multi_event_batch].
    destruct (multi_uploaded_queued d m lo lolds ln el k Hm Hi) as (s' & lo' & ln' & -> & Hm' & Eq).
    exists s'. split; [done|]. by exists lo', lolds, ln'.
Defined.
(** The limits stay what they are. *)
Definition limits (m : multi_batch) : Z * Z := (fileMaxSize m, fileMaxEvents m).

Lemma accepts_limits m m' l : limits m' = limits m -> multi_accepts m l -> multi_accepts m' l.
Proof. unfold multi_accepts. by intros [= -> ->]. Qed.

Lemma limits_add line s : limits (multi_add_line line s).1.2 = limits s.2.
Proof.
  unfold multi_add_line. set (s1 := if canAddEvent _ _ then s else rotate s).
  assert (limits s1.2 = limits s.2) as <-.
  { unfold s1. destruct (canAddEvent _ _); [done|]. destruct s as [d m]. unfold rotate.
    by destruct (oldestBatch m), (oldBatches m); destruct (openBatch _ _ _ _ _). }
  destruct s1 as [d1 m1]. by destruct (file_addEvent _ _) as [[? ?] ?].
Qed.

Lemma limits_get mc ms s : limits (multi_getEventsForUpload mc ms s).1.2 = limits s.2.
Proof.
  unfold multi_getEventsForUpload. assert (limits (checkOldestBatch s).2 = limits s.2) as <-.
  { unfold checkOldestBatch. destruct (oldestBatch s.2); [done|]. by destruct (find_oldest _ _ _) as [[? ?] ?]. }
  destruct (checkOldestBatch s) as [d m]. destruct (oldestBatch m); by destruct (file_getEventsForUpload _ _ _) as [[? ?] ?].
Qed.

#[export] Instance multi_batch_reliable : ReliableBatch json multi_batch.
Proof.
  split.
  - intros [d m] ls j line s' b (lo & lolds & ln & Hm & ->) Hd Hn Ha Hb. simpl. unfold event_line. rewrite Hd. cbn [mbind outcome_bind].
    intros [= E]. destruct (multi_add_queued d m lo lolds ln (line ++ crlf) Hm) as (s'' & ? & ? & ? & E' & _ & _ & Hi);
      [by apply event_is_line|done| |rewrite E' in E; by simplify_eq].
    rewrite !lsize_app in Hb. pose proof (lsize_nonneg lo). pose proof (lsize_nonneg (concat lolds)). lia.
  - intros [d m] mc ms (lo & lolds & ln & Hm & E0) Hmc Hms. cbn [getEventsForUpload multi_event_batch].
    symmetry in E0. apply app_eq_nil in E0 as [-> [E0 ->]%app_eq_nil]. unfold multi_getEventsForUpload.
    destruct (checkOldest_ok d m [] lolds [] Hm) as (d1 & m1 & lo1 & lolds1 & -> & Hm1 & Eq & _ & Hnone).
    rewrite E0 in Eq. symmetry in Eq. apply app_eq_nil in Eq as [-> Eq].
    pose proof Hm1 as (Ho & _ & _ & _ & Hq & _). destruct (oldestBatch m1) as [b|] eqn:Eo; [by destruct Ho as (_ & ? & _)|].
    rewrite (file_get_empty d1 (newestBatch m1) mc ms Hq). eexists. split; [done|].
    split; [exists [], lolds1, []; rewrite Eq; split; [|done]; by destruct m1|].
    destruct m1. cbn in Eo, Hnone, Hq. rewrite Eo in *. rewrite Hnone by done. unfold multi_hasEvents, set_newest. cbn -[file_hasEvents].
    by rewrite (hasEvents_queued _ _ _ Hq).
  - intros s j s' b l. simpl. destruct (event_line j) as [line| | |]; try done. cbn [mbind outcome_bind]. intros [= E].
    apply accepts_limits. by rewrite <- (limits_add line s), E.
  - intros s c ms s' r l. simpl. intros [= E]. apply accepts_limits. by rewrite <- (limits_get c ms s), E.
  - intros [d m] el s' l. cbn [onEventsUploaded multi_event_batch]. unfold multi_onEventsUploaded. destruct el as [| w more| |]; try done.
    destruct (oldestBatch m); destruct (file_onEventsUploaded (json := json) _ _) as [[? ?]| | |]; try done; intros [= <-]; done.
Defined.
End spec.

(** ** An event that is larger than a file may be *)

(** The oldest batch is a file without events. *)
Definition jammed (m : multi_batch) : Prop := exists b, oldestBatch m = Some b /\ fileSize b = 0%nat.

Lemma rotate_oldest s b : oldestBatch s.2 = Some b -> oldestBatch (rotate s).2 = Some b.
Proof. destruct s as [d m]. unfold rotate. cbn [snd]. intros ->. by destruct (openBatch _ _ _ _ _). Qed.

Lemma jammed_add s line : jammed s.2 -> jammed (multi_add_line line s).1.2.
Proof.
  intros (b & Ho & Hb). exists b. split; [|done]. unfold multi_add_line.
  set (s1 := if canAddEvent _ _ then s else rotate s).
  assert (oldestBatch s1.2 = Some b) as H1 by (unfold s1; destruct (canAddEvent _ _); [done|by apply rotate_oldest]).
  destruct s1 as [d1 m1]. by destruct (file_addEvent _ _) as [[? ?] ?].
Qed.

Lemma jammed_get s mc ms : jammed s.2 ->
  (multi_getEventsForUpload mc ms s).2 = None /\ jammed (multi_getEventsForUpload mc ms s).1.2.
Proof.
  destruct s as [d m]. intros (b & Ho & Hb). cbn [snd] in Ho. unfold multi_getEventsForUpload, checkOldestBatch. cbn [snd]. rewrite Ho, Ho.
  unfold file_getEventsForUpload. rewrite (bool_decide_eq_true_2 (fileSize b = 0%nat)) by done. rewrite orb_true_r. cbn [orb fst snd].
  split; [done|]. by exists b.
Qed.

(** An event larger than the limit of a file, added while no event is stored,
    is refused and jams the batch for good: whatever is added later, the batch
    reports that it has events, but never hands any of them out for upload. *)
Theorem oversized_event_jams (d : fs) (m : multi_batch) (line : bytes) (later : list bytes) (mc ms : Z)
    (Ho : oldestBatch m = None) (Hids : oldBatches m = [])
    (Hq : file_queued (d, newestBatch m) []) (Hfin : finalized (newestBatch m) = false)
    (Hs : maxSize (newestBatch m) = fileMaxSize m) (Hbig : 0 < fileMaxSize m < Z.of_nat (length line)) :
  let s := foldl (fun s l => (multi_add_line l s).1) (multi_add_line line (d, m)).1 later in
  multi_hasEvents s.2 = true /\ (multi_getEventsForUpload mc ms s).2 = None.
Proof.
  cbv zeta. assert (jammed (multi_add_line line (d, m)).1.2) as Hj.
  { assert (fileSize (newestBatch m) = 0%nat) as H0.
    { destruct Hq as (_ & _ & Hq). cbn [fst snd] in Hq. destruct (fd_open (newestBatch m)); [by destruct Hq as (_ & _ & -> & _)|by destruct Hq]. }
    unfold multi_add_line, canAddEvent. cbn [snd]. rewrite Hfin.
    replace (canAddEventInt (Z.of_nat (length line)) (newestBatch m)) with false.
    - unfold rotate. rewrite Ho, Hids. destruct (openBatch _ _ _ _ _). destruct (file_addEvent _ _) as [[? ?] ?].
      by exists (setFinalized (newestBatch m)).
    - unfold canAddEventInt. rewrite Hs, H0, (bool_decide_eq_false_2 (fileMaxSize m = 0)), (bool_decide_eq_false_2 (_ <= _)) by lia. done. }
  assert (Hall : forall s, jammed s.2 -> jammed (foldl (fun s l => (multi_add_line l s).1) s later).2).
  { induction later as [|l later IH]; intros s Hs'; simpl; [done|]. by apply IH, jammed_add. }
  specialize (Hall _ Hj). split; [|by apply jammed_get]. destruct Hall as (b & E & _). unfold multi_hasEvents. rewrite E.
  by rewrite orb_true_r.
Qed.

(** ** Reopening the directory *)

(** The id of a file name is the id the name was made of. *)
Lemma batch_id_name (p s : bytes) (i : Z) : 0 <= i < 2 ^ 63 -> batch_id p s (p ++ CxxString.to_string i ++ s) = Some i.
Proof.
  intros Hi. unfold batch_id. rewrite !length_app. rewrite decide_False by lia.
  replace (length p + (length (CxxString.to_string i) + length s) - length s)%nat with (length p + length (CxxString.to_string i))%nat by lia.
  rewrite take_app_length, decide_True.
  2: { split; [done|]. rewrite app_assoc. apply drop_app_length'. by rewrite length_app. }
  rewrite drop_app_length. replace (length p + (length (CxxString.to_string i) + length s) - length p - length s)%nat
    with (length (CxxString.to_string i)) by lia.
  rewrite take_app_length. unfold stoull. rewrite <- (app_nil_r (CxxString.to_string i)), strtoz_to_string by lia.
  rewrite decide_True by lia. rewrite wrapu_small by lia. rewrite wraps_small by lia. done.
Qed.

(** An entry of the directory that is no file of the batch: [.], [..] and other entries that are not regular files,
    and files whose names are not the prefix, something and the suffix, as those of the other batch. *)
Definition foreign (pre suf : bytes) (e : bytes * bool) : Prop := e.2 = true -> forall mid, e.1 <> pre ++ mid ++ suf.
Lemma entry_foreign pre suf e : foreign pre suf e -> entry_id pre suf e = None.
Proof.
  intros Hf. unfold entry_id. destruct e.2 eqn:E2; [|done]. unfold batch_id. destruct (decide (_ < _)%nat) as [|Hlen]; [done|]. rewrite decide_False; [done|].
  intros [Hp Hs]. apply (Hf E2 (take (length e.1 - length pre - length suf) (drop (length pre) e.1))). rewrite <- Hp at 1. rewrite <- Hs at 2.
  rewrite <- (take_drop (length pre) e.1) at 1. f_equal. rewrite <- (take_drop (length e.1 - length pre - length suf) (drop (length pre) e.1)) at 1. f_equal.
  rewrite drop_drop. f_equal. lia.
Qed.
Lemma own_ids pre suf ids : Forall (fun i => 0 <= i < 2 ^ 63) ids -> omap (entry_id pre suf) (map (fun i => (pre ++ CxxString.to_string i ++ suf, true)) ids) = ids.
Proof. induction 1 as [|j l Hj _ IH]; [done|]. simpl. unfold entry_id at 1. cbn [fst snd]. rewrite batch_id_name by done. f_equal. exact IH. Qed.
Lemma foreign_ids pre suf l : Forall (foreign pre suf) l -> omap (entry_id pre suf) l = [].
Proof. induction 1 as [|e l He _ IH]; [done|]. cbn. by rewrite entry_foreign. Qed.

(** C12. A restart loses nothing: when the directory holds the files of the ids [ids ++ [i]], each with complete events,
    and lists them in any order among entries that are no files of the batch ([foreign]), the constructor finds
    exactly these ids, and the batch stores the events of all files in the order of the ids. *)
Theorem reopened_in_order (d : fs) (p pre suf : bytes) (maxE maxS : Z) (ids : list Z) (lss : list (list bytes))
    (i : Z) (ln : list bytes) (listing others : list (bytes * bool))
    (Hio : io d = []) (Hop : openable d = true)
    (Hids : StronglySorted Z.lt (ids ++ [i])) (Hr : Forall (fun i => 0 <= i < 2 ^ 63) (ids ++ [i]))
    (Hl : listing ≡ₚ map (fun i => (pre ++ CxxString.to_string i ++ suf, true)) (ids ++ [i]) ++ others) (Ho : Forall (foreign pre suf) others)
    (Hf : Forall2 (fun i l => files d !! file_name (with_slash p) pre suf i = Some (concat l) /\ Forall is_line l /\ lsize l < 2 ^ 63) (ids ++ [i]) (lss ++ [ln]))
    (Hfree : forall j, i < j -> files d !! file_name (with_slash p) pre suf j = None) :
  multi_queued (new_multi d p pre suf maxE maxS listing) (concat lss ++ ln).
Proof.
  assert (getBatches pre suf listing = ids ++ [i]) as Hg.
  { apply (Sorted_unique Z.le); [apply (Sorted_merge_sort _)| |].
    - apply StronglySorted_Sorted. clear -Hids. induction Hids as [|x l _ IH Hx]; constructor; [done|]. eapply Forall_impl; [done|]. simpl. lia.
    - unfold getBatches. rewrite merge_sort_Permutation, Hl, omap_app, own_ids, foreign_ids by done. by rewrite app_nil_r. }
  apply Forall2_app_inv in Hf as [Hf Hn]; [|apply Forall2_length in Hf; rewrite !length_app in Hf; simpl in Hf; lia].
  apply Forall2_cons_1 in Hn as [(Hn & Hnl & Hns) _].
  unfold new_multi. cbv zeta. set (p0 := with_slash p) in *. rewrite Hg, last_snoc, length_app. cbn [from_option Datatypes.id length].
  replace (length ids + 1 - 1)%nat with (length ids) by lia. rewrite take_app_length.
  destruct (openBatch_ok d (file_name p0 pre suf i) ln maxE maxS true) as (d' & b & -> & Hq & Hpb & Hfd & Hfin & Hmc & Hms & Hdel & Hio' & Hop');
    [done|done|by rewrite Hn|done|done|].
  assert (Forall (fun j => j < i) ids) as Hlt.
  { apply Forall_forall. intros j Hj. apply (StronglySorted_app_1_elem_of _ _ _ _ _ Hids); [done|]. by apply list_elem_of_singleton. }
  set (m := mkMulti _ _ _ _ _ _ _ _ _).
  assert (Hfr : forall j, j ≠ i -> files d' !! getBatchFileName m j = files d !! file_name p0 pre suf j).
  { intros j Hj. apply delete_agree with (file_name p0 pre suf i); [done|]. intros E. by apply (file_name_inj m) in E. }
  exists [], lss, ln. split; [|done]. unfold multi_holds. cbn [fst snd]. split_and!; try done.
  - clear -Hf Hlt Hfr. induction Hf as [|j l ids lss (Hj & ?) _ IH]; constructor.
    + apply Forall_cons in Hlt as [? _]. rewrite Hfr by lia. by rewrite Hj.
    + apply IH; [by apply Forall_cons in Hlt as [_ ?]|done].
  - by apply StronglySorted_app_1_l in Hids.
  - intros j Hj. rewrite Hfr by (simpl in Hj; lia). by apply Hfree.
Qed.

(** An empty directory is an empty queue. *)
Lemma fresh_queued p pre suf maxE maxS : multi_queued (new_multi (mkFs ∅ [] true) p pre suf maxE maxS []) [].
Proof.
  unfold new_multi. cbn [getBatches merge_sort omap list_omap last from_option Datatypes.id length Nat.sub take].
  destruct (openBatch_ok (mkFs ∅ [] true) (file_name (with_slash p) pre suf 0) [] maxE maxS true)
    as (d' & b & E & Hq & Hpb & Hfd & Hfin & Hmc & Hms & Hdel & Hio' & Hop'); [done..|].
  cbn. rewrite E. exists [], [], []. split; [|done]. unfold multi_holds. cbn [fst snd oldestBatch oldBatches newestBatch newestBatchId fileMaxEvents fileMaxSize].
  split_and!; try done; [constructor..|]. intros j Hj.
  set (m := mkMulti _ _ _ _ _ _ _ _ _). change (files d' !! file_name (with_slash p) pre suf j = None).
  rewrite <- (lookup_empty (M := gmap bytes) (A := bytes) (file_name (with_slash p) pre suf j)).
  apply delete_agree with (file_name (with_slash p) pre suf 0); [done|]. intros Ej. apply (file_name_inj m) in Ej. lia.
Qed.

(** ** Examples *)
Definition n0 : bytes := file_name (lit "d/") (lit "normal") (lit ".txt") 0.
Definition n1 : bytes := file_name (lit "d/") (lit "normal") (lit ".txt") 1.
Definition two_files : fs := mkFs (<[n0 := ev "a" ++ ev "b"]> {[n1 := ev "c"]}) [] true.
Definition entries : list (bytes * bool) :=
  [(lit ".", false); (lit "normal1.txt", true); (lit "..", false); (lit "crit0.txt", true); (lit "normal0.txt", true); (lit "config_cache.json", true)].
Definition strangers : list (bytes * bool) := [(lit ".", false); (lit "..", false); (lit "crit0.txt", true); (lit "config_cache.json", true)].
Lemma reopened_in_order_witness :
  multi_queued (new_multi two_files (lit "d") (lit "normal") (lit ".txt") 500 6400 entries) [ev "a"; ev "b"; ev "c"].
Proof.
  apply (reopened_in_order two_files (lit "d") (lit "normal") (lit ".txt") 500 6400 [0] [[ev "a"; ev "b"]] 1 [ev "c"] entries strangers); try done.
  - repeat constructor.
  - repeat constructor; lia.
  - cbn. solve_Permutation.
  - repeat constructor; try done; by intros _ mid [=].
  - repeat (apply Forall2_cons; split); [split_and!; [by vm_compute|apply lines_check; by vm_compute|by vm_compute]..|constructor].
  - intros j Hj. unfold two_files. cbn [files].
    rewrite lookup_insert_ne, lookup_singleton_ne; [done|..];
      intros E; apply file_name_injective in E; lia.
Defined.

Definition empty_dir : fs * multi_batch := new_multi (mkFs ∅ [] true) (lit "d/") (lit "normal") (lit ".txt") 500 4 [].

Lemma empty_dir_queued : file_queued (empty_dir.1, newestBatch empty_dir.2) [].
Proof. repeat split; by vm_compute. Qed.

Lemma oversized_event_jams_witness :
  let s := (multi_add_line (ev "b") (multi_add_line (ev "too long") empty_dir).1).1 in
  multi_hasEvents s.2 = true /\ (multi_getEventsForUpload 1 100 s).2 = None.
Proof.
  pose proof empty_dir_queued as Hq. destruct empty_dir as [d m] eqn:E.
  apply (oversized_event_jams d m (ev "too long") [ev "b"] 1 100); try exact Hq; injection E as <- <-; by vm_compute.
Defined.

End MultiFileBatch.
