(* ===== verification/BufferedBatch.v ===== *)
(** * The batch that buffers in memory (cll-telemetry/src/buffered_event_batch.cpp)

    A wrapper around any other batch.  The model and the theorems are written against
    the interface of the wrapped batch. *)

From S2P Require Import Prelude Json EventBatch MemoryBatch MultiFileBatch.
From Stdlib Require Import ZArith Ascii Lia.
From stdpp Require Import base list gmap strings numbers.

Open Scope Z_scope.

Module BufferedBatch.
Import MemoryBatch.
Section BufferedBatch.
Context {json B : Type} `{Json json, EventBatch json B}.
Notation result := (outcome (jexn json)).

Record buffered_batch := mkBuffered { wrapped : B; mem : memory_batch json }.

(** flushInternal: events the wrapped batch refuses are logged and dropped. *)
Fixpoint forward (l : list json) (s : fs * B) : result (fs * B) :=
  match l with
  | [] => Ret s
  | item :: l => '(s, _) ← addEvent item s; forward l s
  end.
Definition flush (s : fs * buffered_batch) : result (fs * buffered_batch) :=
  let '(d, b) := s in
  let '(l, m) := transferAllEvents (mem b) in
  '(d, w) ← forward l (d, wrapped b);
  Ret (d, mkBuffered w m).

Definition buf_addEvent (rawData : json) (s : fs * buffered_batch) : result (fs * buffered_batch * bool) :=
  let '(d, b) := s in
  match mem_addEvent rawData (mem b) with
  | (m, true) => Ret (d, mkBuffered (wrapped b) m, true)
  | (_, false) =>
      '(d, b) ← flush (d, b);
      let '(m, r) := mem_addEvent rawData (mem b) in
      Ret (d, mkBuffered (wrapped b) m, r)
  end.

(** The constructor of [MergedBufferedEventList]. *)
Definition merge (w m : event_list) : result event_list :=
  a ← getData w; b ← getData m; Ret (MergedBufferedEventList w m (a ++ b)).

(** The events of the memory, in a wrapper whose pointer may be null. *)
Definition from_memory (mc ms : Z) (d : fs) (b : buffered_batch) : result (fs * buffered_batch * option event_list) :=
  r ← mem_getEventsForUpload mc ms (mem b);
  Ret (d, b, Some (WrapperBufferedEventList Memory r false)).

(** The list [ret] of the wrapped batch, with events of the memory when it is the last. *)
Definition combine (mc ms : Z) (ret : event_list) (d : fs) (b : buffered_batch) : result (fs * buffered_batch * option event_list) :=
  more ← hasMoreEvents ret;
  let plain := Ret (d, b, Some (WrapperBufferedEventList Wrapped (Some ret) (mem_hasEvents (mem b)))) in
  if negb more && mem_hasEvents (mem b) then
    n ← getEventCount ret;
    sz ← getDataSize ret;
    retMem ← mem_getEventsForUpload (wrapu 64 (mc - n)) (wrapu 64 (ms - sz)) (mem b);
    match retMem with
    | Some retMem => l ← merge ret retMem; Ret (d, b, Some l)
    | None => plain
    end
  else plain.

Definition buf_getEventsForUpload (mc ms : Z) (s : fs * buffered_batch) : result (fs * buffered_batch * option event_list) :=
  let '(d, b) := s in
  if hasEvents (wrapped b) then
    '(d, w, ret) ← getEventsForUpload mc ms (d, wrapped b);
    let b := mkBuffered w (mem b) in
    match ret with
    | None => from_memory mc ms d b
    | Some ret => combine mc ms ret d b
    end
  else from_memory mc ms d b.

(** A list with a null pointer is dereferenced. *)
Definition buf_onEventsUploaded (events : event_list) (s : fs * buffered_batch) : result (fs * buffered_batch) :=
  let '(d, b) := s in
  match events with
  | WrapperBufferedEventList Wrapped (Some l) _ =>
      '(d, w) ← onEventsUploaded l (d, wrapped b); Ret (d, mkBuffered w (mem b))
  | WrapperBufferedEventList Memory (Some l) _ =>
      m ← mem_onEventsUploaded l (mem b); Ret (d, mkBuffered (wrapped b) m)
  | MergedBufferedEventList lw lm _ =>
      '(d, w) ← onEventsUploaded lw (d, wrapped b);
      m ← mem_onEventsUploaded lm (mem b);
      Ret (d, mkBuffered w m)
  | _ => Undef
  end.

Definition buf_hasEvents (b : buffered_batch) : bool := mem_hasEvents (mem b) || hasEvents (wrapped b).

#[export] Instance buffered_event_batch : EventBatch json buffered_batch := {
  addEvent := buf_addEvent;
  getEventsForUpload := buf_getEventsForUpload;
  onEventsUploaded := buf_onEventsUploaded;
  hasEvents := buf_hasEvents
}.

(** ** Wrapped queue, then memory *)
Context `{!BatchSpec json B, !ReliableBatch json B}.

Definition buf_holds (s : fs * buffered_batch) (lw lm : list bytes) : Prop :=
  queued (s.1, wrapped s.2) lw /\ Forall2 line_of (items (mem s.2)) lm
  /\ Forall (accepts (wrapped s.2)) lm /\ 0 < limit (mem s.2).

Lemma forward_ok l : forall s ls lm, queued s ls -> Forall2 line_of l lm -> Forall (accepts s.2) lm ->
  lsize (ls ++ lm) < 2 ^ 63 ->
  exists s', forward l s = Ret s' /\ queued s' (ls ++ lm) /\ forall line, accepts s.2 line -> accepts s'.2 line.
Proof.
  induction l as [|j l IH]; intros s ls lm Hq Hl Ha Hs; inversion Hl as [|? line ? lm' (e & Hd & Hn & ->) Hl']; subst.
  { exists s. by rewrite app_nil_r. }
  apply Forall_cons_iff in Ha as [Ha Ha']. cbn [forward]. rewrite lsize_app, lsize_cons in Hs. pose proof (lsize_nonneg lm').
  assert (lsize ls + Z.of_nat (length (e ++ crlf)) < 2 ^ 63) as Hsz by lia.
  destruct (queued_add s ls j e Hq Hd Hn Ha Hsz) as (s1 & r & E & Hq1). rewrite E. cbn [mbind outcome_bind]. cbv beta iota.
  destruct (reliable_add s ls j e s1 r Hq Hd Hn Ha Hsz E) as [-> _].
  assert (Hacc : forall line, accepts s.2 line -> accepts s1.2 line) by (intros; by eapply accepts_add).
  destruct (IH s1 (ls ++ [e ++ crlf]) lm') as (s' & E' & Hq' & Hacc'); [done|done| | |].
  - eapply Forall_impl; [done|]. done.
  - rewrite <- app_assoc. simpl. rewrite lsize_app, lsize_cons. lia.
  - exists s'. rewrite <- app_assoc in Hq'. split_and!; [done|done|]. eauto.
Qed.

Lemma flush_ok s lw lm : buf_holds s lw lm -> lsize (lw ++ lm) < 2 ^ 63 ->
  exists s', flush s = Ret s' /\ buf_holds s' (lw ++ lm) [] /\ limit (mem s'.2) = limit (mem s.2) /\ items (mem s'.2) = []
    /\ forall line, accepts (wrapped s.2) line -> accepts (wrapped s'.2) line.
Proof.
  destruct s as [d b]. intros (Hq & Hm & Ha & Hl) Hs. cbn [fst snd] in *. unfold flush, transferAllEvents.
  destruct (forward_ok (items (mem b)) (d, wrapped b) lw lm Hq Hm Ha Hs) as ([d' w] & -> & Hq' & Hacc). cbn [mbind outcome_bind]. cbv beta iota.
  eexists. split; [done|]. split_and!; done.
Qed.

Definition buf_queued (s : fs * buffered_batch) (ls : list bytes) : Prop :=
  exists lw lm, buf_holds s lw lm /\ ls = lw ++ lm.

Definition buf_issued (s : fs * buffered_batch) (el : event_list) (k : nat) : Prop :=
  let w := (s.1, wrapped s.2) in
  match el with
  | WrapperBufferedEventList Wrapped (Some l) _ => issued w l k /\ forall lw, queued w lw -> (k <= length lw)%nat
  | WrapperBufferedEventList Memory (Some l) _ =>
      queued w [] /\ getEventCount (E := jexn json) l = Ret (Z.of_nat k)
  | MergedBufferedEventList lw lm _ => exists kw km, k = (kw + km)%nat /\ issued w lw kw
      /\ (forall l, queued w l -> length l = kw) /\ getEventCount (E := jexn json) lm = Ret (Z.of_nat km)
  | _ => False
  end.

Lemma buf_unique s l1 l2 : buf_queued s l1 -> buf_queued s l2 -> l1 = l2.
Proof.
  intros (lw1 & lm1 & (Hq1 & Hm1 & _) & ->) (lw2 & lm2 & (Hq2 & Hm2 & _) & ->).
  f_equal; [by eapply queued_unique|by eapply lines_of_unique].
Qed.

Lemma mem_hasEvents_lines m lm : Forall2 line_of (items m) lm -> mem_hasEvents m = bool_decide (lm ≠ []).
Proof. unfold mem_hasEvents. intros Hm. by destruct Hm. Qed.

(** The memory is handed out when nothing is left in the wrapped batch. *)
Lemma from_memory_ok mc ms d b lm : buf_holds (d, b) [] lm -> lm ≠ [] -> 0 < mc -> 0 < ms ->
  exists el, from_memory mc ms d b = Ret (d, b, Some el) /\ holds el (take (prefix_len mc ms lm) lm)
    /\ buf_issued (d, b) el (prefix_len mc ms lm)
    /\ (forall E, hasMoreEvents (E := E) el = Ret false -> prefix_len mc ms lm = length lm).
Proof.
  intros (Hq & Hm & _) Hne Hmc Hms. unfold from_memory.
  destruct (mem_get_ok (mem b) lm mc ms Hm Hne Hmc Hms) as (el & -> & Hh & Hmore). cbn [mbind outcome_bind].
  eexists. split; [done|]. split_and!; [done| |done]. split; [done|].
  destruct (Hh (jexn json)) as (_ & -> & _). rewrite length_take. do 2 f_equal. pose proof (prefix_len_le mc ms lm). lia.
Qed.

Lemma holds_merge l1 l2 ls1 ls2 : holds l1 ls1 -> holds l2 ls2 ->
  exists el, merge l1 l2 = Ret (MergedBufferedEventList l1 l2 el) /\ holds (MergedBufferedEventList l1 l2 el) (ls1 ++ ls2).
Proof.
  intros H1 H2. unfold merge. destruct (H1 (jexn json)) as (-> & _), (H2 (jexn json)) as (-> & _). cbn [mbind outcome_bind].
  eexists. split; [done|]. intros E. destruct (H1 E) as (_ & C1 & m1 & M1), (H2 E) as (_ & C2 & m2 & M2). simpl.
  rewrite C1, C2, M1. cbn [mbind outcome_bind]. rewrite concat_app, length_app, Nat2Z.inj_add. split_and!; [done|done|].
  destruct m1; eauto.
Qed.

(** A list of at least [k] lines, within the limits. *)
Definition good_list (mc ms : Z) (s : fs * buffered_batch) (ls : list bytes) (k : nat) (el : event_list) : Prop :=
  exists k', (k <= k' <= length ls)%nat /\ holds el (take k' ls) /\ buf_issued s el k'
    /\ Z.of_nat k' <= mc /\ lsize (take k' ls) <= ms /\ (forall E, hasMoreEvents (E := E) el = Ret false -> k' = length ls).

Section wrapped_list.
Context (mc ms : Z) (d : fs) (b : buffered_batch) (lw lm : list bytes) (ret : event_list) (k : nat).
Context (Hb : buf_holds (d, b) lw lm) (Hmc : 0 < mc < 2 ^ 64) (Hms : 0 < ms < 2 ^ 64) (Hk : (k <= length lw)%nat).
Context (Hh : holds ret (take k lw)) (Hi : issued (d, wrapped b) ret k) (Hkc : Z.of_nat k <= mc) (Hks : lsize (take k lw) <= ms).
Context (Hall : forall E, hasMoreEvents (E := E) ret = Ret false -> k = length lw).

Lemma plain_good : good_list mc ms (d, b) (lw ++ lm) k (WrapperBufferedEventList Wrapped (Some ret) (mem_hasEvents (mem b))).
Proof using All.
  destruct Hb as (Hq & Hm & _). cbn [fst snd] in *. exists k. rewrite take_app_le by done. rewrite length_app.
  split_and!; try done; try lia.
  - intros E. destruct (Hh E) as (? & ? & more' & ?). simpl. split_and!; [done|done|]. destruct (mem_hasEvents (mem b)); eauto.
  - split; [done|]. intros l Hl. by rewrite (queued_unique _ _ _ Hl Hq).
  - intros E. simpl. rewrite (mem_hasEvents_lines _ lm Hm). case_bool_decide as Hne; [done|]. intros Hf.
    rewrite (Hall E Hf). subst lm. simpl. lia.
Qed.

Lemma merged_good retMem data : k = length lw -> lm ≠ [] ->
  forall km, km = prefix_len (mc - Z.of_nat k) (ms - lsize lw) lm ->
  holds retMem (take km lm) -> (forall E, hasMoreEvents (E := E) retMem = Ret false -> km = length lm) ->
  holds (MergedBufferedEventList ret retMem data) (lw ++ take km lm) ->
  good_list mc ms (d, b) (lw ++ lm) k (MergedBufferedEventList ret retMem data).
Proof using All.
  intros Ek Hne km Ekm Hhm Hmorem Hmh. destruct Hb as (Hq & Hm & _). cbn [fst snd] in *.
  rewrite take_ge in Hks by lia. destruct (prefix_len_fits (mc - Z.of_nat k) (ms - lsize lw) lm) as [? ?]; [lia|lia|].
  pose proof (prefix_len_le (mc - Z.of_nat k) (ms - lsize lw) lm). rewrite <- Ekm in *.
  exists (k + km)%nat. rewrite length_app. split; [lia|].
  rewrite take_app_ge by lia. replace (k + km - length lw)%nat with km by lia. split_and!; try done; try lia.
  - exists k, km. split_and!; [done|done| |].
    + intros l Hl. by rewrite (queued_unique _ _ _ Hl Hq).
    + destruct (Hhm (jexn json)) as (_ & -> & _). rewrite length_take. do 2 f_equal. lia.
  - rewrite lsize_app. lia.
  - intros E Hf. simpl in Hf. destruct (Hh E) as (_ & _ & more1 & E1). rewrite E1 in Hf. cbn [mbind outcome_bind] in Hf.
    destruct more1; [done|]. rewrite (Hmorem E Hf). lia.
Qed.

(** The events of a nonempty wrapped batch, with what memory has after them. *)
Lemma combine_good : exists el, combine mc ms ret d b = Ret (d, b, Some el) /\ good_list mc ms (d, b) (lw ++ lm) k el.
Proof using All.
  pose proof plain_good as Hplain. pose proof merged_good as Hmerged. destruct Hb as (_ & Hm & _). cbn [fst snd] in *.
  destruct (Hh (jexn json)) as (Hd & Hc & more & Hmore). unfold combine. rewrite Hmore. cbn [mbind outcome_bind]. cbv zeta.
  destruct more; cbn [negb andb]; [eauto|]. specialize (Hall _ Hmore). rewrite take_ge in * by lia.
  destruct (mem_hasEvents (mem b)) eqn:Hme; [|eauto].
  rewrite (mem_hasEvents_lines _ lm Hm), bool_decide_eq_true in Hme.
  unfold getDataSize. rewrite Hc, Hd. cbn [mbind outcome_bind]. fold (lsize lw). rewrite <- Hall.
  pose proof (lsize_nonneg lw). rewrite !wrapu_small by lia.
  destruct (decide (mc - Z.of_nat k = 0 \/ ms - lsize lw = 0)) as [Hz|Hz].
  { unfold mem_getEventsForUpload. rewrite decide_True by tauto. cbn [mbind outcome_bind]. eauto. }
  destruct (mem_get_ok (mem b) lm (mc - Z.of_nat k) (ms - lsize lw) Hm Hme) as (retMem & -> & Hhm & Hmorem); [lia|lia|].
  cbn [mbind outcome_bind]. destruct (holds_merge ret retMem _ _ Hh Hhm) as (data & -> & Hmh). cbn [mbind outcome_bind].
  eauto 10.
Qed.
End wrapped_list.

Lemma buf_add_ok s lw lm j line : buf_holds s lw lm -> json_dump j = Ret line -> newline ∉ line ->
  accepts (wrapped s.2) (line ++ crlf) -> lsize (lw ++ lm) + Z.of_nat (length (line ++ crlf)) < 2 ^ 63 ->
  exists s' lw' lm', buf_addEvent j s = Ret (s', true) /\ buf_holds s' lw' (lm' ++ [line ++ crlf])
    /\ (forall l, accepts (wrapped s.2) l -> accepts (wrapped s'.2) l)
    /\ ((Z.of_nat (length (items (mem s.2))) < limit (mem s.2) /\ lw' = lw /\ lm' = lm /\ wrapped s'.2 = wrapped s.2 /\ s'.1 = s.1)
        \/ (limit (mem s.2) <= Z.of_nat (length (items (mem s.2))) /\ lw' = lw ++ lm /\ lm' = [])).
Proof.
  destruct s as [d b]. intros Hb Hd Hn Ha Hs. pose proof Hb as (Hq & Hm & Hacc & Hl). cbn [fst snd] in *.
  unfold buf_addEvent, mem_addEvent. pose proof (lsize_nonneg lw). pose proof (lsize_nonneg lm). rewrite lsize_app in Hs.
  case_decide as Hfull.
  - destruct (flush_ok (d, b) lw lm Hb) as ([d' b'] & -> & (Hq' & Hm' & _) & Elim & Eit & Hacc'); [rewrite lsize_app; lia|].
    cbn [mbind outcome_bind fst snd] in *. rewrite Eit, Elim. cbn [length app]. rewrite decide_False by lia.
    eexists _, (lw ++ lm), []. split; [done|]. split; [|by split; [done|right]].
    split_and!; [done| |constructor; [by apply Hacc'|done]|simpl; lia].
    constructor; [|done]. by exists line.
  - eexists _, lw, lm. split; [done|]. split; [|split; [done|left; split_and!; try done; lia]].
    split_and!; [done| |apply Forall_app; split; [done|by constructor]|done].
    apply Forall2_app; [done|]. constructor; [|done]. by exists line.
Qed.

Lemma buf_get_ok s ls mc ms : buf_queued s ls -> ls ≠ [] -> 0 < mc < 2 ^ 64 -> 0 < ms < 2 ^ 64 ->
  exists s' el k, buf_getEventsForUpload mc ms s = Ret (s', Some el) /\ buf_queued s' ls /\ good_list mc ms s' ls k el
    /\ (forall l ls', ls = l :: ls' -> Z.of_nat (length l) <= Z.min ms (1024 * 1024) -> (0 < k)%nat).
Proof.
  destruct s as [d b]. intros (lw & lm & Hb & ->) Hne Hmc Hms. pose proof Hb as (Hq & Hm & Hacc & Hl). cbn [fst snd] in *.
  assert (Hmem : forall d b, buf_holds (d, b) [] lm -> lm ≠ [] -> exists s' el k, from_memory mc ms d b = Ret (s', Some el)
    /\ buf_queued s' lm /\ good_list mc ms s' lm k el
    /\ (forall l ls', lm = l :: ls' -> Z.of_nat (length l) <= Z.min ms (1024 * 1024) -> (0 < k)%nat)).
  { intros d' b' Hb' Hne'. destruct (from_memory_ok mc ms d' b' lm Hb' Hne') as (el & E & Hh & Hi & Hmore); [lia|lia|].
    destruct (prefix_len_fits mc ms lm) as [? ?]; [lia|lia|]. pose proof (prefix_len_le mc ms lm).
    eexists _, el, (prefix_len mc ms lm). split_and!; [done|by exists [], lm| |].
    - exists (prefix_len mc ms lm). split_and!; try done; lia.
    - intros l ls' -> Hlen. apply prefix_len_progress; lia. }
  unfold buf_getEventsForUpload. destruct (decide (lw = [])) as [->|Hnew].
  - destruct (hasEvents (wrapped b)); [|by apply Hmem].
    destruct (get_empty (d, wrapped b) mc ms Hq) as ([d' w] & E & Hq' & _); [lia|lia|]. rewrite E. cbn [mbind outcome_bind].
    cbv beta iota zeta. apply Hmem; [|done]. split_and!; [done|done| |done]. cbn [wrapped snd].
    revert Hacc. apply Forall_impl. intros l. by apply (accepts_get _ _ _ _ _ _ E).
  - pose proof (queued_hasEvents (d, wrapped b) lw Hq Hnew) as Hhas. cbn [snd] in Hhas. rewrite Hhas.
    destruct (queued_get (d, wrapped b) lw mc ms Hq Hnew Hmc Hms) as ([d' w] & ret & k & E & Hq' & Hk & Hh & Hi & Hkc & Hks & Hall & Hprog).
    rewrite E. cbn [mbind outcome_bind]. cbv beta iota zeta.
    assert (buf_holds (d', mkBuffered w (mem b)) lw lm) as Hb'.
    { split_and!; [done|done| |done]. revert Hacc. apply Forall_impl. intros l. by apply (accepts_get _ _ _ _ _ _ E). }
    destruct (combine_good mc ms d' (mkBuffered w (mem b)) lw lm ret k) as (el & -> & Hgood); [done..|].
    eexists _, el, k. split_and!; [done|by exists lw, lm|done|]. intros l ls'. destruct lw as [|l' lw]; [done|]. intros [= -> _]. by eapply Hprog.
Qed.

#[export] Instance buffered_batch_spec : BatchSpec json buffered_batch.
Proof.
  refine {| queued := buf_queued; issued := buf_issued; accepts b := accepts (wrapped b) |}.
  - apply buf_unique.
  - intros [d b] ls (lw & lm & (Hq & Hm & _) & ->) Hne. cbn [fst snd hasEvents buffered_event_batch] in *. unfold buf_hasEvents.
    rewrite (mem_hasEvents_lines _ _ Hm). case_bool_decide as Hlm; [done|]. subst lm. rewrite app_nil_r in Hne.
    apply (queued_hasEvents (d, wrapped b) lw Hq Hne).
  - intros s ls j line (lw & lm & Hb & ->) Hd Hn Ha Hs. destruct (buf_add_ok s lw lm j line Hb Hd Hn Ha Hs) as (s' & lw' & lm' & E & Hb' & _ & Hcase).
    exists s', true. split; [done|]. exists lw', (lm' ++ [line ++ crlf]). split; [done|].
    destruct Hcase as [(_ & -> & -> & _)|(_ & -> & ->)]; [by rewrite app_assoc|done].
  - intros s ls mc ms Hq Hne Hmc Hms. destruct (buf_get_ok s ls mc ms Hq Hne Hmc Hms) as (s' & el & k & E & Hq' & (k' & Hk & Hgood) & Hprog).
    exists s', el, k'. destruct Hgood as (? & ? & ? & ? & ?). split_and!; try done; [lia|]. intros l ls' El Hl. specialize (Hprog l ls' El Hl). lia.
  - intros [d b] ls el k (lw & lm & (Hq & Hm & Hacc & Hl) & ->) Hi Hk. cbn [fst snd onEventsUploaded buffered_event_batch] in *.
    destruct el as [| |[] [l|] ?|w m data]; cbn [buf_issued fst snd] in Hi; try done; cbn [buf_onEventsUploaded].
    + destruct Hi as [Hi Hle]. destruct (queued_uploaded (d, wrapped b) lw l k Hq Hi (Hle _ Hq)) as ([d' w] & E & Hq').
      rewrite E. eexists. split; [done|]. exists (drop k lw), lm. rewrite drop_app_le by (by apply Hle). split; [|done].
      split_and!; try done. revert Hacc. apply Forall_impl. intros ?. by apply (accepts_uploaded _ _ _ _ E).
    + destruct Hi as [Hq0 Hi]. rewrite (queued_unique _ _ _ Hq Hq0) in *. cbn [app] in *.
      rewrite (mem_uploaded_ok (mem b) lm l k Hm Hk Hi). eexists. split; [done|]. exists [], (drop k lm). split; [|done].
      split_and!; try done; [by apply Forall2_drop|by apply Forall_drop].
    + destruct Hi as (kw & km & -> & Hi & Hlen & Hc). specialize (Hlen _ Hq). rewrite length_app in Hk.
      destruct (queued_uploaded (d, wrapped b) lw w kw Hq Hi) as ([d' w'] & E & Hq'); [lia|]. rewrite E. cbn [mbind outcome_bind].
      rewrite (mem_uploaded_ok (mem b) lm m km Hm ltac:(lia) Hc). eexists. split; [done|]. exists (drop kw lw), (drop km lm).
      rewrite drop_app_ge, (drop_ge lw) by lia. rewrite (drop_ge lw) in Hq' by lia. replace (kw + km - length lw)%nat with km by lia.
      split; [|done]. split_and!; try done; [by apply Forall2_drop|]. apply Forall_drop. revert Hacc.
      apply Forall_impl. intros ?. by apply (accepts_uploaded _ _ _ _ E).
Defined.

(** [getEventsForUpload] of an empty buffered batch never returns a null pointer: it
    returns a wrapper around one.  Asking that list for its events dereferences it. *)
Theorem empty_batch_null_list s mc ms : buf_queued s [] -> 0 < mc -> 0 < ms ->
  exists s' el, buf_getEventsForUpload mc ms s = Ret (s', Some el)
    /\ getEventCount (E := jexn json) el = Undef /\ getData (E := jexn json) el = Undef.
Proof.
  destruct s as [d b]. intros (lw & lm & (Hq & Hm & _) & E0) Hmc Hms. symmetry in E0. apply app_eq_nil in E0 as [-> ->].
  cbn [fst snd] in *. apply Forall2_nil_inv_r in Hm. unfold buf_getEventsForUpload.
  assert (Hmem : forall d b, items (mem b) = [] -> from_memory mc ms d b = Ret (d, b, Some (WrapperBufferedEventList Memory None false))).
  { intros d' b' E. unfold from_memory, mem_getEventsForUpload. rewrite decide_True by tauto. done. }
  destruct (hasEvents (wrapped b)); [|by rewrite Hmem; eauto].
  destruct (get_empty (d, wrapped b) mc ms Hq Hmc Hms) as ([d' w] & -> & _). cbn [mbind outcome_bind]. cbv beta iota zeta.
  rewrite Hmem by done. eauto.
Qed.

(** The lists are not stable under [addEvent].  When the memory is full, a list of
    [k] of its events has been handed out, and an event is added before the upload
    completes, the memory is flushed into the wrapped batch.  [onEventsUploaded] then erases
    past the end of the memory for [k > 1]; for [k = 1] it drops the new event, which was never
    uploaded, and keeps the one that was. *)
Theorem flush_during_upload s lm j line mc ms : buf_holds s [] lm -> hasEvents (wrapped s.2) = false ->
  limit (mem s.2) = Z.of_nat (length lm) -> json_dump j = Ret line -> newline ∉ line -> accepts (wrapped s.2) (line ++ crlf) ->
  lsize lm + Z.of_nat (length (line ++ crlf)) < 2 ^ 63 -> 0 < mc < 2 ^ 64 -> 0 < ms < 2 ^ 64 ->
  exists el s', buf_getEventsForUpload mc ms s = Ret (s, Some el) /\ buf_addEvent j s = Ret (s', true)
    /\ buf_queued s' (lm ++ [line ++ crlf])
    /\ match prefix_len mc ms lm with
       | 0%nat => True
       | 1%nat => exists s'', buf_onEventsUploaded el s' = Ret s'' /\ buf_queued s'' lm
       | _ => buf_onEventsUploaded el s' = Undef
       end.
Proof.
  destruct s as [d b]. intros Hb Hno Hfull Hd Hn Ha Hs Hmc Hms. cbn [fst snd] in *. pose proof Hb as (_ & Hm & _ & Hl).
  assert (lm ≠ []) as Hne by (intros ->; cbn in *; lia).
  unfold buf_getEventsForUpload. rewrite Hno. unfold from_memory.
  destruct (mem_get_ok (mem b) lm mc ms Hm Hne) as (el & -> & Hh & _); [lia|lia|]. cbn [mbind outcome_bind].
  destruct (buf_add_ok (d, b) [] lm j line Hb Hd Hn Ha Hs) as ([d' b'] & lw' & lm' & E & Hb' & _ & [(Hlt & _)|(_ & -> & ->)]).
  { pose proof (Forall2_length Hm). cbn [fst snd] in *. lia. }
  eexists _, _. split; [done|]. split; [done|]. split; [by exists lm, [line ++ crlf]|].
  destruct Hb' as (Hq' & Hm' & Hacc' & Hl'). cbn [fst snd app] in *. pose proof (Forall2_length Hm') as Hlen. cbn in Hlen.
  pose proof (prefix_len_le mc ms lm). destruct (Hh (jexn json)) as (_ & Hc & _). rewrite length_take, Nat.min_l in Hc by done.
  cbn [buf_onEventsUploaded]. unfold mem_onEventsUploaded. rewrite Hc. cbn [mbind outcome_bind].
  destruct (prefix_len mc ms lm) as [|[|k]]; [done| |by rewrite decide_False by lia].
  rewrite decide_True by lia. eexists. split; [done|]. exists lm, []. rewrite app_nil_r. split; [|done].
  split_and!; try done; by destruct (items (mem b')) as [|? []].
Qed.
End BufferedBatch.
Arguments buffered_batch json B : clear implicits.

(** ** Examples *)
Import MultiFileBatch.
Definition new_dir : fs * multi_batch := new_multi (mkFs ∅ [] true) (lit "d/") (lit "normal") (lit ".txt") 500 6400 [].
Definition over (items : list TreeJson) (limit : Z) : fs * buffered_batch TreeJson multi_batch :=
  (new_dir.1, mkBuffered new_dir.2 (mkMemory items limit)).
Definition jline (j : TreeJson) : bytes := TreeJson.write j ++ crlf.

Lemma jline_of z : z = 1 \/ z = 2 \/ z = 3 -> line_of (TInt z) (jline (TInt z)).
Proof. intros Hz. exists (TreeJson.write (TInt z)). destruct Hz as [-> | [-> | ->]]; split_and!; try done; apply (bool_decide_unpack _); by vm_compute. Qed.

Lemma over_holds items limit ls : Forall2 line_of items ls -> Forall (fun l => Z.of_nat (length l) <= 6400) ls -> 0 < limit ->
  buf_holds (over items limit) [] ls.
Proof.
  intros Hi Hl Hlim. split_and!; [|done| |done].
  - exact (fresh_queued (lit "d/") (lit "normal") (lit ".txt") 500 6400).
  - revert Hl. apply Forall_impl. intros l Hl. split; [right|]; by vm_compute in Hl |- *.
Qed.

Lemma empty_batch_null_list_witness :
  exists s' el, buf_getEventsForUpload 1 100 (over [] 2) = Ret (s', Some el)
    /\ getEventCount (E := jexn TreeJson) el = Undef /\ getData (E := jexn TreeJson) el = Undef.
Proof.
  apply (empty_batch_null_list (over [] 2) 1 100); [|lia|lia]. exists [], []. split; [|done]. by apply over_holds.
Defined.

Lemma flush_during_upload_witness :
  exists el s', buf_getEventsForUpload 2 100 (over [TInt 1; TInt 2] 2) = Ret (over [TInt 1; TInt 2] 2, Some el)
    /\ buf_addEvent (TInt 3) (over [TInt 1; TInt 2] 2) = Ret (s', true) /\ buf_onEventsUploaded el s' = Undef.
Proof.
  destruct (flush_during_upload (over [TInt 1; TInt 2] 2) [jline (TInt 1); jline (TInt 2)] (TInt 3) (TreeJson.write (TInt 3)) 2 100)
    as (el & s' & H1 & H2 & _ & H3); [|done|done|done| | |by vm_compute|lia|lia|by exists el, s'].
  - apply over_holds; [|by repeat constructor|lia]. repeat constructor; apply jline_of; auto.
  - apply (bool_decide_unpack _); by vm_compute.
  - split; [right|]; by vm_compute.
Defined.

End BufferedBatch.
