(* ===== verification/Compressor.v ===== *)
(** * Compression of uploads (cll-telemetry/src/event_compressor.cpp)

    The loops around zlib.  The library is a parameter ([Zlib]); [ZlibLaws] states what its
    manual says of raw deflate streams, and [StoreZlib] is a stream type with these laws. *)

From S2P Require Import Prelude.
From Stdlib Require Import ZArith Ascii Lia.
From stdpp Require Import base list strings numbers.

Open Scope Z_scope.

Module Compressor.

Inductive zret : Type := Z_OK | Z_STREAM_END | Z_BUF_ERROR | Z_DATA_ERROR | Z_STREAM_ERROR.
#[export] Instance zret_eq_dec : EqDecision zret.
Proof. solve_decision. Defined.

(** [deflate n] and [inflate n] are the calls with [Z_FINISH] and [avail_out = n]: the
    stream after it, the bytes written and the code returned. *)
Class Zlib (zs : Type) := {
  deflateInit2 : option zs;
  inflateInit2 : option zs;
  set_input : bytes -> zs -> zs;
  deflate : nat -> zs -> zs * bytes * zret;
  inflate : nat -> zs -> zs * bytes * zret
}.

(** [pending z] is the output a stream has still to write. *)
Class ZlibLaws (zs : Type) `{Zlib zs} := {
  pending : zs -> bytes;
  deflated : bytes -> bytes;
  pending_deflate z d : deflateInit2 = Some z -> pending (set_input d z) = deflated d;
  pending_inflate z d : inflateInit2 = Some z -> pending (set_input (deflated d) z) = d;
  deflate_writes n z : (0 < n)%nat -> exists z' r, deflate n z = (z', take n (pending z), r)
    /\ pending z' = drop n (pending z) /\ r <> Z_STREAM_ERROR;
  inflate_writes n z : (0 < n)%nat -> exists z' r, inflate n z = (z', take n (pending z), r)
    /\ pending z' = drop n (pending z) /\ r <> Z_STREAM_ERROR
}.

Section Compressor.
Context {zs : Type} `{Zlib zs}.

(** The loop over blocks of output; [avail_out] is what a block leaves free. *)
Fixpoint blocks (fuel : nat) (call : nat -> zs -> zs * bytes * zret) (err : string) (z : zs) (out : bytes) : outcome exn bytes :=
  match fuel with
  | O => Diverge
  | S fuel =>
      let '(z, written, ret) := call 4096%nat z in
      let out := out ++ written in
      if decide (ret = Z_STREAM_ERROR) then Throw (runtime_error err)
      else if decide (4096 - length written = 0)%nat then blocks fuel call err z out
      else Ret out
  end.

(** [avail_in] keeps the low 32 bits of the size. *)
Definition avail_in (data : bytes) : bytes := take (Z.to_nat (wrapu 32 (Z.of_nat (length data)))) data.

Definition compress (fuel : nat) (data : bytes) : outcome exn bytes :=
  match deflateInit2 with
  | None => Throw (runtime_error "Failed to call deflateInit")
  | Some z => blocks fuel deflate "deflate error" (set_input (avail_in data) z) []
  end.
Definition decompress (fuel : nat) (data : bytes) : outcome exn bytes :=
  match inflateInit2 with
  | None => Throw (runtime_error "Failed to call inflateInit")
  | Some z => blocks fuel inflate "inflate error" (set_input (avail_in data) z) []
  end.

Context `{!ZlibLaws zs}.

Lemma blocks_pending call err : (forall n z, (0 < n)%nat -> exists z' r, call n z = (z', take n (pending z), r)
    /\ pending z' = drop n (pending z) /\ r <> Z_STREAM_ERROR) ->
  forall fuel z out, (length (pending z) < fuel)%nat -> blocks fuel call err z out = Ret (out ++ pending z).
Proof.
  intros Hcall. induction fuel as [|fuel IH]; intros z out Hf; [lia|]. cbn [blocks].
  destruct (Hcall 4096%nat z) as (z' & r & -> & Hz' & Hr); [lia|]. rewrite decide_False by done. rewrite length_take.
  case_decide as Hd.
  - rewrite IH by (rewrite Hz', length_drop; lia). by rewrite Hz', <- app_assoc, take_drop.
  - by rewrite take_ge by lia.
Qed.

(** The deflate stream of the data is what [compress] returns, in as many blocks as it takes. *)
Lemma compress_deflated fuel data z : deflateInit2 = Some z -> Z.of_nat (length data) < 2 ^ 32 ->
  (length (deflated data) < fuel)%nat -> compress fuel data = Ret (deflated data).
Proof.
  intros Hz Hl Hf. unfold compress. rewrite Hz. unfold avail_in. rewrite wrapu_small, Nat2Z.id, take_ge by lia.
  rewrite (blocks_pending deflate); [by rewrite (pending_deflate z)|apply deflate_writes|by rewrite (pending_deflate z)].
Qed.

(** Decompressing what was compressed gives the data back, whatever the number of
    4096-byte blocks, for data and stream below 4 GiB: both loops end, and neither
    drops a block that fills the buffer exactly. *)
Theorem decompress_compress (z z' : zs) (data : bytes) (fuel : nat)
    (Hd : deflateInit2 = Some z) (Hi : inflateInit2 = Some z')
    (Hl : Z.of_nat (length data) < 2 ^ 32) (Hl' : Z.of_nat (length (deflated data)) < 2 ^ 32)
    (Hf : (length data < fuel)%nat) (Hf' : (length (deflated data) < fuel)%nat) :
  exists c, compress fuel data = Ret c /\ decompress fuel c = Ret data.
Proof.
  exists (deflated data). split; [by apply (compress_deflated _ _ z)|].
  unfold decompress. rewrite Hi. unfold avail_in. rewrite wrapu_small, Nat2Z.id, take_ge by lia.
  rewrite (blocks_pending inflate); [by rewrite (pending_inflate z')|apply inflate_writes|by rewrite (pending_inflate z')].
Qed.
End Compressor.

(** A stream that stores: the form of deflate whose blocks are copies, without headers. *)
#[export] Instance store_zlib : Zlib bytes := {
  deflateInit2 := Some []; inflateInit2 := Some [];
  set_input d _ := d;
  deflate n z := (drop n z, take n z, if decide (length z <= n)%nat then Z_STREAM_END else Z_OK);
  inflate n z := (drop n z, take n z, if decide (length z <= n)%nat then Z_STREAM_END else Z_BUF_ERROR)
}.
#[export] Instance store_zlib_laws : ZlibLaws bytes.
Proof.
  refine {| pending := fun z => z; deflated := fun d => d |}; simpl; try done;
    intros n z _; eexists _, _; (split_and!; [done|done|]); by case_decide.
Defined.

Lemma decompress_compress_witness :
  exists c, compress 8193 (repeat NUL 8192) = Ret c /\ decompress 8193 c = Ret (repeat NUL 8192).
Proof.
  apply (decompress_compress ([] : bytes) ([] : bytes)); [done|done|..]; cbn [deflated store_zlib_laws];
    rewrite repeat_length; first [by vm_compute | apply Nat.ltb_lt; by vm_compute].
Defined.

End Compressor.
