(* ===== verification/Uploader.v ===== *)
(** * The uploader (cll-telemetry/src/event_uploader.cpp)

    The HTTP client, the steps of the application and zlib are parameters.  What
    they do is a function of the state [W] of the outside world; [None] is an [HttpError]. *)

From S2P Require Import Prelude Json CxxString CxxTime EventBatch MemoryBatch Compressor.
From Stdlib Require Import ZArith Ascii Lia.
From stdpp Require Import base list gmap strings numbers.

Open Scope Z_scope.

Module Http.
Definition headers := list (bytes * bytes).

Record HttpResponse := mkResponse { status : Z; response_headers : headers; body : bytes }.

Fixpoint find_header (l : headers) (name : bytes) : bytes :=
  match l with
  | [] => []
  | (n, v) :: l => if decide (n = name) then v else find_header l name
  end.
Definition findHeader (r : HttpResponse) (name : bytes) : bytes := find_header (response_headers r) name.

Inductive HttpMethod : Type := GET | POST.

Record HttpRequest := mkRequest { url : bytes; method : HttpMethod; request_headers : headers; post_data : bytes }.
Definition addHeader (name value : bytes) (r : HttpRequest) : HttpRequest :=
  mkRequest (url r) (method r) (request_headers r ++ [(name, value)]) (post_data r).
Definition setPostData (d : bytes) (r : HttpRequest) : HttpRequest :=
  mkRequest (url r) (method r) (request_headers r) d.
End Http.

Module Uploader.
Import Http.

Inductive upload_status : Type :=
| Success
| ErrorGeneric
| ErrorRateLimit (retryAfter : Z).

(** [operator bool]. *)
Definition is_success (s : upload_status) : bool := match s with Success => true | _ => false end.

(** A step adds headers to the request, and may ask for a second attempt. *)
Record upload_step (W : Type) := mkStep {
  onRequest : event_list -> headers -> W -> W * headers;
  onAuthenticationFailed : W -> W * bool
}.
Arguments onRequest {W} u.
Arguments onAuthenticationFailed {W} u.

(** The timestamp of a request, from nanoseconds. *)
Definition getUploadTimestamp (time : Z) : bytes :=
  let timeMs := Z.quot time 1000 - Z.quot time 1000000000 * 1000000 in
  strftime_FT (gmtime (Z.quot time 1000000000)) ++ lit "." ++ zero_padded 6 (wraps 32 timeMs) ++ lit "Z".

Section Uploader.
Context {json W : Type} `{Json json} {zs : Type} `{Compressor.Zlib zs}.
Notation result := (outcome (jexn json)).
Context (http_send : HttpRequest -> W -> W * option HttpResponse) (now : W -> Z) (zfuel : nat).

Record uploader := mkUploader { upload_url : bytes; steps : list (upload_step W) }.

Definition lift_std {A} (m : outcome exn A) : result A :=
  match m with Ret a => Ret a | Throw e => Throw (std_exception e) | Undef => Undef | Diverge => Diverge end.

Definition addStep (s : upload_step W) (u : uploader) : uploader := mkUploader (upload_url u) (steps u ++ [s]).

Fixpoint run_onRequest (l : list (upload_step W)) (el : event_list) (h : headers) (w : W) : W * headers :=
  match l with
  | [] => (w, h)
  | s :: l => let '(w, h) := onRequest s el h w in run_onRequest l el h w
  end.
Fixpoint run_onAuthenticationFailed (l : list (upload_step W)) (retry : bool) (w : W) : W * bool :=
  match l with
  | [] => (w, retry)
  | s :: l => let '(w, r) := onAuthenticationFailed s w in run_onAuthenticationFailed l (retry || r) w
  end.

(** The request of a list of events. *)
Definition build_request (u : uploader) (el : event_list) (compress : bool) (w : W) : result (W * HttpRequest) :=
  data ← getData el;
  let req := mkRequest (upload_url u) POST [] [] in
  let req := addHeader (lit "Content-Type") (lit "application/x-json-stream; charset=utf-8") req in
  let req := addHeader (lit "X-UploadTime") (getUploadTimestamp (now w)) req in
  req ← (if compress then
           c ← lift_std (Compressor.compress (zs := zs) zfuel data);
           let req := setPostData c req in
           let req := addHeader (lit "Accept") (lit "application/json") req in
           let req := addHeader (lit "Accept-Encoding") (lit "gzip, deflate") req in
           Ret (addHeader (lit "Content-Encoding") (lit "deflate") req)
         else Ret (setPostData data req));
  let '(w, h) := run_onRequest (steps u) el [] w in
  Ret (w, foldl (fun req h => addHeader h.1 h.2 req) req h).

(** What the answer means, but for 401; the delay is a signed number of seconds. *)
Definition rate_limit (res : HttpResponse) : result upload_status :=
  let retryAfter := findHeader res (lit "Retry-After") in
  if decide (retryAfter = []) then Ret ErrorGeneric
  else n ← lift_std (stoull retryAfter); Ret (ErrorRateLimit (wraps 64 n)).

(** [sendEvents(BatchedEventList&, compress, canRetry)]: [canRetry] is one retry left. *)
Fixpoint send_list (retries : nat) (u : uploader) (el : event_list) (compress : bool) (w : W) : result (W * upload_status) :=
  '(w, req) ← build_request u el compress w;
  match http_send req w with
  | (w, None) => Ret (w, ErrorGeneric)
  | (w, Some res) =>
      if decide (status res = 200) then Ret (w, Success)
      else if decide (status res = 429 \/ status res = 503) then
        st ← rate_limit res; Ret (w, st)
      else if decide (status res = 401) then
        let '(w, retry) := run_onAuthenticationFailed (steps u) false w in
        match retries with
        | S retries => if retry then send_list retries u el compress w else Ret (w, ErrorGeneric)
        | O => Ret (w, ErrorGeneric)
        end
      else Ret (w, ErrorGeneric)
  end.
Definition canRetry : nat := 1.

Context {B : Type} `{EventBatch json B}.

(** [sendEvents(EventBatch&, maxCount, maxSize)]. *)
Fixpoint sendEvents (fuel : nat) (u : uploader) (maxCount maxSize : Z) (s : fs * B) (w : W) : result (fs * B * W * upload_status) :=
  match fuel with
  | O => Diverge
  | S fuel =>
      '(s, events) ← getEventsForUpload maxCount maxSize s;
      match events with
      | None =>
          if hasEvents s.2 then
            '(s, ev) ← getEventsForUpload 1 SIZE_MAX s;
            match ev with
            | None => Ret (s, w, ErrorGeneric)
            | Some ev => s ← onEventsUploaded ev s; sendEvents fuel u maxCount maxSize s w
            end
          else Ret (s, w, Success)
      | Some events =>
          n ← getEventCount events;
          '(w, ret) ← send_list canRetry u events (bool_decide (1 < n)) w;
          if is_success ret then s ← onEventsUploaded events s; Ret (s, w, ret)
          else Ret (s, w, ret)
      end
  end.

(** ** What an upload does to a batch *)

Lemma addHeaders_spec l : forall req, let r := foldl (fun req h => addHeader h.1 h.2 req) req l in
  url r = url req /\ method r = method req /\ post_data r = post_data req /\ request_headers r = request_headers req ++ l.
Proof.
  induction l as [|h l IH]; intros req; [by rewrite app_nil_r|]. destruct (IH (addHeader h.1 h.2 req)) as (E1 & E2 & E3 & E4). cbn [foldl]. rewrite E1, E2, E3, E4. cbn.
  rewrite <- app_assoc. by destruct h.
Qed.

Context `{!Compressor.ZlibLaws zs}.

(** The body that carries some data. *)
Definition body_of (compress : bool) (data : bytes) : bytes :=
  if compress then Compressor.deflated data else data.

(** A hypothesis on zlib and on the fuel of its model: it starts, and the fuel is enough for what it writes. *)
Definition zlib_ready (maxSize : Z) : Prop :=
  is_Some (Compressor.deflateInit2 (zs := zs)) /\ maxSize < 2 ^ 32 /\
  forall d, Z.of_nat (length d) <= maxSize -> (length (Compressor.deflated d) < zfuel)%nat.

(** A request that carries [data], made in the world [w]: where it goes, its body, and its headers, those of the steps last. *)
Definition carries (u : uploader) (compress : bool) (data : bytes) (w : W) (h : headers) (req : HttpRequest) : Prop :=
  url req = upload_url u /\ method req = POST /\ post_data req = body_of compress data /\
  request_headers req =
    [(lit "Content-Type", lit "application/x-json-stream; charset=utf-8"); (lit "X-UploadTime", getUploadTimestamp (now w))] ++
    (if compress then [(lit "Accept", lit "application/json"); (lit "Accept-Encoding", lit "gzip, deflate"); (lit "Content-Encoding", lit "deflate")] else []) ++ h.

(** What is said between the uploader and the server about [data], from the world [w] to the world [w'], and what comes of it.
    A request that is denied is made again while some step asks for it and attempts are left. *)
Inductive conversation (u : uploader) (el : event_list) (compress : bool) (data : bytes) : nat -> W -> W -> result upload_status -> Prop :=
| no_answer n w w1 h req w' : run_onRequest (steps u) el [] w = (w1, h) -> carries u compress data w h req -> http_send req w1 = (w', None) ->
    conversation u el compress data n w w' (Ret ErrorGeneric)
| answer n w w1 h req w2 res w' v : run_onRequest (steps u) el [] w = (w1, h) -> carries u compress data w h req -> http_send req w1 = (w2, Some res) ->
    understood u el compress data n w2 res w' v -> conversation u el compress data n w w' v
with understood (u : uploader) (el : event_list) (compress : bool) (data : bytes) : nat -> W -> HttpResponse -> W -> result upload_status -> Prop :=
| accepted n w res : status res = 200 -> understood u el compress data n w res w (Ret Success)
| limited n w res : status res = 429 \/ status res = 503 -> findHeader res (lit "Retry-After") = [] -> understood u el compress data n w res w (Ret ErrorGeneric)
| limited_until n w res secs : status res = 429 \/ status res = 503 -> findHeader res (lit "Retry-After") <> [] -> stoull (findHeader res (lit "Retry-After")) = Ret secs ->
    understood u el compress data n w res w (Ret (ErrorRateLimit (wraps 64 secs)))
| limited_unread n w res e : status res = 429 \/ status res = 503 -> findHeader res (lit "Retry-After") <> [] -> stoull (findHeader res (lit "Retry-After")) = Throw e ->
    understood u el compress data n w res w (Throw (std_exception e))
| denied n w res w' retry : status res = 401 -> run_onAuthenticationFailed (steps u) false w = (w', retry) -> n = 0%nat \/ retry = false ->
    understood u el compress data n w res w' (Ret ErrorGeneric)
| denied_again n w res w1 w' v : status res = 401 -> run_onAuthenticationFailed (steps u) false w = (w1, true) -> conversation u el compress data n w1 w' v ->
    understood u el compress data (S n) w res w' v
| refused n w res : status res <> 200 -> status res <> 429 -> status res <> 503 -> status res <> 401 -> understood u el compress data n w res w (Ret ErrorGeneric).

Lemma build_request_ok u el compress w data m : zlib_ready m -> getData (E := jexn json) el = Ret data ->
  Z.of_nat (length data) <= m ->
  exists w' h req, build_request u el compress w = Ret (w', req) /\ run_onRequest (steps u) el [] w = (w', h) /\ carries u compress data w h req.
Proof.
  intros ([z Hz] & Hm & Hf) Hd Hl. unfold build_request. rewrite Hd. cbn [mbind outcome_bind]. cbv zeta.
  destruct (run_onRequest _ _ _ _) as [w' h] eqn:Er. exists w', h. destruct compress.
  - rewrite (Compressor.compress_deflated zfuel data z Hz) by (lia || by apply Hf). cbn [lift_std mbind outcome_bind].
    eexists. split; [done|]. split; [done|]. unfold carries. match goal with |- context[foldl ?f ?r h] => destruct (addHeaders_spec h r) as (-> & -> & -> & ->) end. done.
  - cbn [mbind outcome_bind]. eexists. split; [done|]. split; [done|]. unfold carries. match goal with |- context[foldl ?f ?r h] => destruct (addHeaders_spec h r) as (-> & -> & -> & ->) end. done.
Qed.
Lemma rate_limit_understood u el compress data n w res : status res = 429 \/ status res = 503 -> understood u el compress data n w res w (rate_limit res).
Proof.
  intros Hs. unfold rate_limit. case_decide as Hh; [by apply limited|]. destruct (stoull _) as [secs|e| |] eqn:E; cbn [lift_std mbind outcome_bind].
  - by apply limited_until.
  - by apply limited_unread.
  - unfold stoull in E. by repeat case_match.
  - unfold stoull in E. by repeat case_match.
Qed.
(** Sending a list is one such conversation. *)
Lemma send_list_converses u el compress data m : zlib_ready m -> getData (E := jexn json) el = Ret data -> Z.of_nat (length data) <= m -> forall n w,
  exists w' v, conversation u el compress data n w w' v /\ send_list n u el compress w = (st ← v; Ret (w', st)).
Proof.
  intros Hz Hd Hl. induction n as [|n IH]; intros w; cbn [send_list];
    destruct (build_request_ok u el compress w data m Hz Hd Hl) as (w1 & h & req & -> & Hr & Hc); cbn [mbind outcome_bind]; cbv beta iota;
    destruct (http_send req w1) as [w2 [res|]] eqn:Es; try (exists w2, (Ret ErrorGeneric); split; [by eapply no_answer|done]).
  all: assert (forall k w' v, understood u el compress data k w2 res w' v -> conversation u el compress data k w w' v) as Hans by (intros k w' v; by eapply answer).
  all: case_decide as H200; [exists w2, (Ret Success); split; [by apply Hans, accepted|done]|].
  all: case_decide as Hlim; [exists w2, (rate_limit res); split; [by apply Hans, rate_limit_understood|done]|].
  all: case_decide as H401; [|exists w2, (Ret ErrorGeneric); split; [apply Hans, refused; tauto|done]].
  all: destruct (run_onAuthenticationFailed _ _ _) as [w3 r] eqn:Ea.
  - exists w3, (Ret ErrorGeneric). split; [apply Hans; eapply denied; eauto|done].
  - destruct r.
    + destruct (IH w3) as (w' & v & Hv & E). exists w', v. split; [apply Hans; by eapply denied_again|done].
    + exists w3, (Ret ErrorGeneric). split; [apply Hans; eapply denied; eauto|done].
Qed.

Context `{!BatchSpec json B}.

(** What the uploader returns when a conversation ends like this. *)
Definition concluded (s : fs * B) (w : W) (v : result upload_status) : result (fs * B * W * upload_status) := st ← v; Ret (s, w, st).
Lemma sendEvents_ok (fuel : nat) (u : uploader) (s : fs * B) (ls : list bytes) (maxCount maxSize : Z) (w : W)
    (Hz : zlib_ready maxSize) (Hq : queued s ls) (Hne : ls ≠ []) (Hc : 0 < maxCount < 2 ^ 64) (Hs : 0 < maxSize) :
  exists s' el w' v k, sendEvents (S fuel) u maxCount maxSize s w = concluded s' w' v
    /\ conversation u el (bool_decide (1 < k)%nat) (concat (take k ls)) 1 w w' v
    /\ queued s' (match v with Ret Success => drop k ls | _ => ls end)
    /\ Z.of_nat k <= maxCount /\ lsize (take k ls) <= maxSize /\ (k <= length ls)%nat
    /\ (forall l ls', ls = l :: ls' -> Z.of_nat (length l) <= Z.min maxSize (1024 * 1024) -> (0 < k)%nat).
Proof.
  destruct (queued_get s ls maxCount maxSize Hq Hne Hc) as (s1 & el & k & E & Hq1 & Hk & Hh & Hi & Hkc & Hks & _ & Hprog).
  { destruct Hz as (_ & ? & _). lia. }
  cbn [sendEvents]. rewrite E. cbn [mbind outcome_bind]. cbv beta iota. destruct (Hh (jexn json)) as (Hd & Hn & _). rewrite Hn.
  cbn [mbind outcome_bind]. rewrite length_take, Nat.min_l by done. rewrite (bool_decide_ext _ (1 < k)%nat) by lia.
  destruct (send_list_converses u el (bool_decide (1 < k)%nat) _ maxSize Hz Hd Hks canRetry w) as (w' & v & Hv & ->).
  destruct v as [[| |secs]|e| |]; cbn [mbind outcome_bind is_success].
  1: destruct (queued_uploaded s1 ls el k Hq1 Hi Hk) as (s2 & -> & Hq2); exists s2, el, w', (Ret Success), k; by split_and!.
  all: eexists s1, el, w', _, k; split_and!; [|exact Hv|..]; done.
Qed.

(** C15. One upload of a nonempty batch, against any server, steps and kind of batch: it takes a prefix of the queue
    within the limits, nonempty when the first event fits, and talks to the server about exactly these events: the
    requests carry them, compressed when there are several, a denied one is repeated once if a step asks for it,
    and the answer decides the status, as the rules of [conversation] say.  The upload succeeds, and the events
    leave the batch, exactly when the server has answered 200; on any other answer all events stay, also when
    reading the answer throws, as it does for a [Retry-After] that is not a number. *)
Theorem upload_round (fuel : nat) (u : uploader) (s : fs * B) (ls : list bytes) (maxCount maxSize : Z) (w : W)
    (Hz : zlib_ready maxSize) (Hq : queued s ls) (Hne : ls ≠ []) (Hc : 0 < maxCount < 2 ^ 64) (Hs : 0 < maxSize) :
  exists s' el w' v k, sendEvents (S fuel) u maxCount maxSize s w = concluded s' w' v
    /\ conversation u el (bool_decide (1 < k)%nat) (concat (take k ls)) 1 w w' v
    /\ queued s' (match v with Ret Success => drop k ls | _ => ls end)
    /\ Z.of_nat k <= maxCount /\ lsize (take k ls) <= maxSize /\ (k <= length ls)%nat
    /\ (forall l ls', ls = l :: ls' -> Z.of_nat (length l) <= Z.min maxSize (1024 * 1024) -> (0 < k)%nat).
Proof. by apply sendEvents_ok. Qed.

(** When the first event is larger than the limit of the uploader, an upload changes
    nothing: an empty body is sent, and whatever the server answers the queue is as
    before, although the code drops the first event when it gets no list from the batch. *)
Theorem oversized_event_no_progress (fuel : nat) (u : uploader) (s : fs * B) (l : bytes) (ls : list bytes)
    (maxCount maxSize : Z) (w : W)
    (Hz : zlib_ready maxSize) (Hq : queued s (l :: ls))
    (Hc : 0 < maxCount < 2 ^ 64) (Hs : 0 < maxSize) (Hbig : maxSize < Z.of_nat (length l)) :
  exists s' el w' v, sendEvents (S fuel) u maxCount maxSize s w = concluded s' w' v /\ queued s' (l :: ls) /\ conversation u el false [] 1 w w' v.
Proof.
  destruct (sendEvents_ok fuel u s (l :: ls) maxCount maxSize w) as (s' & el & w' & v & k & E & Hv & Hq' & _ & Hks & _); [done..|].
  destruct k as [|k]; [|simpl in Hks; rewrite lsize_cons in Hks; pose proof (lsize_nonneg (take k ls)); lia].
  exists s', el, w', v. split_and!; [done| |done]. by destruct v as [[]| | |].
Qed.

(** A server that answers 429 or 503 with a [Retry-After] that is not a number, such
    as a date, which HTTP allows, makes the upload throw. *)
Theorem retry_after_date_throws (fuel : nat) (u : uploader) (s : fs * B) (ls : list bytes) (maxCount maxSize : Z) (w : W)
    (Hz : zlib_ready maxSize) (Hq : queued s ls) (Hne : ls ≠ []) (Hc : 0 < maxCount < 2 ^ 64) (Hs : 0 < maxSize)
    (Hdate : forall req w, exists w' res, http_send req w = (w', Some res) /\ (status res = 429 \/ status res = 503)
       /\ findHeader res (lit "Retry-After") ≠ [] /\ strtoz (findHeader res (lit "Retry-After")) = None) :
  sendEvents (S fuel) u maxCount maxSize s w = Throw (std_exception (invalid_argument "stoull")).
Proof.
  destruct (sendEvents_ok fuel u s ls maxCount maxSize w) as (s' & el & w' & v & k & -> & Hv & _); [done..|].
  destruct Hv as [n w0 w1 h req w2 _ _ E|n w0 w1 h req w2 res w3 v _ _ E Hu]; destruct (Hdate req w1) as (w4 & res' & E' & Hst & Hne' & Hnum); rewrite E in E'; [done|]. injection E' as <- <-.
  destruct Hu as [| |? ? ? ? ? ? E'|? ? ? e ? ? E'| | |]; try (destruct Hst; congruence); unfold stoull in E'; rewrite Hnum in E'; [done|]. by injection E' as <-.
Qed.

End Uploader.
Arguments uploader W : clear implicits.

(** ** Examples *)
Import Compressor MemoryBatch.

(** A server that accepts everything and keeps the bodies, one that answers 503. *)
Definition accept_all (req : HttpRequest) (w : list bytes) : list bytes * option HttpResponse :=
  (w ++ [post_data req], Some (mkResponse 200 [] [])).
Definition overloaded (req : HttpRequest) (w : list bytes) : list bytes * option HttpResponse :=
  (w, Some (mkResponse 503 [(lit "Retry-After", lit "Fri, 31 Dec 1999 23:59:59 GMT")] [])).
Definition no_steps : uploader (list bytes) := mkUploader (lit "https://vortex.data.microsoft.com/collect/v1") [].
Definition at_epoch (w : list bytes) : Z := 0.

Lemma store_ready m : m = 100 \/ m = 5 -> zlib_ready (zs := bytes) 101 m.
Proof. intros Hm. split_and!; [by eexists|lia|]. intros d Hd. simpl. lia. Qed.

Definition two_events : fs * memory_batch TreeJson := (mkFs ∅ [] true, mkMemory [TInt 1; TInt 2] 50).
Definition jline (j : TreeJson) : bytes := TreeJson.write j ++ crlf.

Lemma two_events_queued : queued two_events [jline (TInt 1); jline (TInt 2)].
Proof. repeat constructor; (eexists; split_and!; [done| |done]); apply (bool_decide_unpack _); by vm_compute. Qed.

Lemma upload_round_witness : exists s' el w' v k, sendEvents accept_all at_epoch 101 1 no_steps 10 100 two_events [] = concluded s' w' v /\ (0 < k)%nat /\
  conversation accept_all at_epoch no_steps el (bool_decide (1 < k)%nat) (concat (take k [jline (TInt 1); jline (TInt 2)])) 1 [] w' v.
Proof.
  destruct (upload_round accept_all at_epoch 101 0 no_steps two_events [jline (TInt 1); jline (TInt 2)] 10 100 [])
    as (s' & el & w' & v & k & E & Hv & _ & _ & _ & _ & Hprog);
    [apply store_ready; auto|apply two_events_queued|done|lia|lia|].
  exists s', el, w', v, k. split_and!; [done| |done]. eapply Hprog; [done|]. by vm_compute.
Defined.

Lemma oversized_event_no_progress_witness :
  exists s' w' v, sendEvents accept_all at_epoch 101 1 no_steps 10 5 two_events [] = concluded s' w' v
    /\ queued s' [jline (TInt 1); jline (TInt 2)].
Proof.
  destruct (oversized_event_no_progress accept_all at_epoch 101 0 no_steps two_events (jline (TInt 1)) [jline (TInt 2)] 10 5 [])
    as (s' & el & w' & v & E & Hq & _);
    [apply store_ready; auto|apply two_events_queued|lia|lia|by vm_compute|by exists s', w', v].
Defined.

Lemma retry_after_date_throws_witness :
  sendEvents overloaded at_epoch 101 1 no_steps 10 100 two_events [] = Throw (std_exception (invalid_argument "stoull")).
Proof.
  apply (retry_after_date_throws overloaded at_epoch 101 0 no_steps two_events [jline (TInt 1); jline (TInt 2)] 10 100 []);
    [apply store_ready; auto|apply two_events_queued|done|lia|lia|].
  intros req w. eexists _, _. split; [done|]. split_and!; [by right|done|by vm_compute].
Defined.

End Uploader.
