(* ===== verification/TelemetryConfig.v ===== *)
(** * Configuration of the telemetry (cll-telemetry/src/configuration.cpp,
      file_configuration_cache.cpp, include/cll/configuration_manager.h)

    Times are nanoseconds since the epoch, as [system_clock] counts them.  The HTTP client
    and the clock are parameters over the outside world [W]. *)

From S2P Require Import Prelude Json CxxString EventBatch Uploader.
From Stdlib Require Import ZArith Ascii Lia.
From stdpp Require Import base list gmap strings numbers.

Open Scope Z_scope.

Module TelemetryConfig.
Import Http.

Definition quote : ascii := to_char 34.
Definition second : Z := 1000000000.

(** ** Properties *)
Record property := mkProperty { value : Z; valueSet : bool }.
Definition reset : property := mkProperty 0 false.
Definition set_value (v : Z) : property := mkProperty v true.

Record configuration := mkConfiguration {
  downloadMinRetryTime : Z;
  downloadAttempt : Z;
  conf_url : string;
  downloaded : bool;
  expires : Z;
  maxEventSizeInBytes : property;
  maxEventsPerPost : property;
  queueDrainInterval : property
}.
Definition new_configuration (url : string) : configuration :=
  mkConfiguration 0 0 url false 0 reset reset reset.
Definition set_attempt (n : Z) (c : configuration) : configuration :=
  mkConfiguration (downloadMinRetryTime c) n (conf_url c) (downloaded c) (expires c) (maxEventSizeInBytes c) (maxEventsPerPost c) (queueDrainInterval c).
Definition set_expires (e : Z) (c : configuration) : configuration :=
  mkConfiguration (downloadMinRetryTime c) (downloadAttempt c) (conf_url c) true e (maxEventSizeInBytes c) (maxEventsPerPost c) (queueDrainInterval c).
Definition set_retry (t n : Z) (c : configuration) : configuration :=
  mkConfiguration t n (conf_url c) (downloaded c) (expires c) (maxEventSizeInBytes c) (maxEventsPerPost c) (queueDrainInterval c).
Definition set_properties (s p q : property) (c : configuration) : configuration :=
  mkConfiguration (downloadMinRetryTime c) (downloadAttempt c) (conf_url c) (downloaded c) (expires c) s p q.

Section TelemetryConfig.
Context {json W : Type} `{Json json}.
Notation result := (outcome (jexn json)).
Context (http_send : HttpRequest -> W -> W * option HttpResponse) (clock : W -> W * Z) (json_partial : bytes -> json).

(** A signed 64-bit count: overflow is undefined. *)
Definition count64 (z : Z) : result Z := if decide (- 2 ^ 63 <= z < 2 ^ 63) then Ret z else Undef.

(** JsonUtils::asInt. *)
Definition asInt (v : json) : result Z :=
  if json_is_number v then json_get_int32 v
  else s ← json_get_string v; Uploader.lift_std (stoi s).

(** ConfigurationProperty<int>::set(json, name). *)
Definition set_property (j : json) (name : string) : result property :=
  match json_find j name with
  | None => Ret reset
  | Some f => v ← asInt f; Ret (set_value v)
  end.

Definition applyFromJson (j : json) (c : configuration) : result configuration :=
  s ← set_property j "MAXEVENTSIZEINBYTES";
  p ← set_property j "MAXEVENTSPERPOST";
  q ← set_property j "QUEUEDRAININTERVAL";
  Ret (set_properties s p q c).

(** ** The cache *)
Record cached_configuration := mkCached { cached_expires : Z; refreshInterval : Z; etag : bytes; data : json }.

Record file_cache := mkCache { cache_path : bytes; cache_data : json }.

(** After a parse that failed the value is what the library has left there. *)
Definition load (path : bytes) (d : fs) : file_cache :=
  match files d !! path with
  | None => mkCache path json_object
  | Some text =>
      match json_parse text with
      | Ret j => mkCache path j
      | _ => mkCache path (json_partial text)
      end
  end.
Definition store (c : file_cache) (d : fs) : result fs :=
  if openable d then
    text ← json_dump (cache_data c);
    Ret (set_files (<[cache_path c := text]> (files d)) d)
  else Ret d.

Definition readFromCache (c : file_cache) (url : string) : result (option cached_configuration) :=
  match json_find (cache_data c) url with
  | None => Ret None
  | Some en =>
      r ← json_value json_get_int en "refreshInterval" 0;
      e ← json_value json_get_int en "expires" 0;
      e ← count64 (e * 1000000);
      t ← json_value json_get_string en "etag" [];
      v ← json_value Ret en "data" json_object;
      Ret (Some (mkCached e r t v))
  end.

Definition writeConfigToCache (url : string) (cfg : cached_configuration) (c : file_cache) (d : fs) : result (file_cache * fs) :=
  en ← json_key (cache_data c) url;
  let en := json_set en "expires" (json_int (Z.quot (cached_expires cfg) 1000000)) in
  let en := json_set en "refreshInterval" (json_int (refreshInterval cfg)) in
  let en := json_set en "etag" (json_string (etag cfg)) in
  let en := json_set en "data" (data cfg) in
  let c := mkCache (cache_path c) (json_set (cache_data c) url en) in
  d ← store c d;
  Ret (c, d).

(** ** A configuration *)
Definition importCached (cached : cached_configuration) (c : configuration) : result configuration :=
  applyFromJson (data cached) (set_expires (cached_expires cached) c).

Definition loadFromCache (cache : file_cache) (c : configuration) : result (configuration * bool) :=
  cached ← readFromCache cache (conf_url c);
  match cached with
  | Some cached => c ← importCached cached c; Ret (c, true)
  | None => Ret (c, false)
  end.

Definition safeParseJson (str : bytes) : result json :=
  match json_parse str with
  | Throw json_parse_error => Ret json_object
  | r => r
  end.

Definition needsRedownload (c : configuration) (w : W) : W * bool :=
  if downloaded c then let '(w, now) := clock w in (w, bool_decide (expires c <= now)) else (w, true).

(** The cache of a manager may be absent; the disk goes with it. *)
Definition store_cached (url : string) (cached : cached_configuration) (cache : option file_cache) (d : fs) :
    result (option file_cache * fs) :=
  match cache with
  | None => Ret (None, d)
  | Some cache => '(cache, d) ← writeConfigToCache url cached cache d; Ret (Some cache, d)
  end.
Definition read_cached (url : string) (cache : option file_cache) : result (option cached_configuration) :=
  match cache with None => Ret None | Some cache => readFromCache cache url end.

(** The branch for status 200. *)
Definition on_fresh (requestStart : Z) (res : HttpResponse) (c : configuration) (cache : option file_cache) (d : fs) :
    result (configuration * option file_cache * fs) :=
  val ← safeParseJson (body res);
  settings ← json_key val "settings";
  ri ← json_key val "refreshInterval";
  n ← asInt ri;
  e ← count64 (n * 60 * second);
  e ← count64 (requestStart + e);
  let cached := mkCached e (n * 60) (findHeader res (lit "ETag")) settings in
  c ← applyFromJson settings c;
  '(cache, d) ← store_cached (conf_url c) cached cache d;
  Ret (set_attempt 0 (set_expires e c), cache, d).

(** The branch for status 304; without a cached configuration its fields are not initialised. *)
Definition on_unchanged (requestStart : Z) (cached : option cached_configuration) (c : configuration) (cache : option file_cache) (d : fs) :
    result (configuration * option file_cache * fs) :=
  match cached with
  | None => Undef
  | Some cached =>
      e ← count64 (refreshInterval cached * second);
      e ← count64 (requestStart + e);
      let cached := mkCached e (refreshInterval cached) (etag cached) (data cached) in
      c ← importCached cached c;
      '(cache, d) ← store_cached (conf_url c) cached cache d;
      Ret (c, cache, d)
  end.

Definition on_failure (requestStart : Z) (c : configuration) : configuration :=
  let n := downloadAttempt c + 1 in
  set_retry (requestStart + Z.shiftl 1 (Z.min (n + 1) 8) * second) n c.

(** The request and its answer; the status is not initialised when [send] throws. *)
Definition request_config (requestStart : Z) (cached : option cached_configuration) (c : configuration) (cache : option file_cache)
    (d : fs) (w : W) : result (configuration * option file_cache * fs * W * bool) :=
  let req := mkRequest (lit (conf_url c)) GET [] [] in
  let req := match cached with
             | Some old => addHeader (lit "If-None-Match") (quote :: etag old ++ [quote]) req
             | None => req
             end in
  match http_send req w with
  | (w, None) => Undef
  | (w, Some res) =>
      if decide (status res = 200) then
        '(c, cache, d) ← on_fresh requestStart res c cache d; Ret (c, cache, d, w, true)
      else if decide (status res = 304) then
        '(c, cache, d) ← on_unchanged requestStart cached c cache d; Ret (c, cache, d, w, true)
      else Ret (on_failure requestStart c, cache, d, w, false)
  end.

Definition download (c : configuration) (cache : option file_cache) (d : fs) (w : W) :
    result (configuration * option file_cache * fs * W * bool) :=
  let '(w, requestStart) := clock w in
  if decide (requestStart < downloadMinRetryTime c) then Ret (c, cache, d, w, false)
  else
    cached ← read_cached (conf_url c) cache;
    match cached with
    | None => request_config requestStart None c cache d w
    | Some old =>
        let '(w, now) := clock w in
        if decide (now < cached_expires old) then
          c ← importCached old c;
          Ret (set_attempt 0 c, cache, d, w, true)
        else request_config requestStart cached c cache d w
    end.

(** ** The manager *)
Record manager := mkManager { m_cache : option file_cache; configurations : list configuration }.

(** [get<int, Property, def>]. *)
Fixpoint get_first (prop : configuration -> property) (def : Z) (l : list configuration) : Z :=
  match l with
  | [] => def
  | c :: l => if valueSet (prop c) then value (prop c) else get_first prop def l
  end.
Definition getMaxEventSizeInBytes (m : manager) : Z := get_first maxEventSizeInBytes 6400 (configurations m).
Definition getMaxEventsPerPost (m : manager) : Z := get_first maxEventsPerPost 500 (configurations m).
Definition getQueueDrainInterval (m : manager) : Z := get_first queueDrainInterval 120 (configurations m).

Definition addDefaultConfigurations (iKey : string) (m : manager) : manager :=
  mkManager (m_cache m) (configurations m ++
    [new_configuration "https://settings.data.microsoft.com/settings/v2.0/androidLL/app";
     new_configuration ("https://settings.data.microsoft.com/settings/v2.0/telemetry/" ++ iKey)]).

Definition hasDownloadedConfigs (m : manager) : bool := forallb downloaded (configurations m).

(** The result says whether the update callbacks run. *)
Fixpoint download_all (l : list configuration) (cache : option file_cache) (d : fs) (w : W) (any : bool) :
    result (list configuration * option file_cache * fs * W * bool) :=
  match l with
  | [] => Ret ([], cache, d, w, any)
  | c :: l =>
      let '(w, needed) := needsRedownload c w in
      if (needed : bool) then
        '(c, cache, d, w, ok) ← download c cache d w;
        '(l, cache, d, w, any) ← download_all l cache d w (any || ok);
        Ret (c :: l, cache, d, w, any)
      else
        '(l, cache, d, w, any) ← download_all l cache d w any;
        Ret (c :: l, cache, d, w, any)
  end.
Definition downloadConfigs (m : manager) (d : fs) (w : W) : result (manager * fs * W * bool) :=
  '(l, cache, d, w, any) ← download_all (configurations m) (m_cache m) d w false;
  Ret (mkManager cache l, d, w, any).

(** The configurations are loaded one by one; a null cache is dereferenced. *)
Fixpoint load_all (l : list configuration) (cache : file_cache) : result (list configuration) :=
  match l with
  | [] => Ret []
  | c :: l => '(c, _) ← loadFromCache cache c; l ← load_all l cache; Ret (c :: l)
  end.
Definition loadCachedConfigs (m : manager) : result manager :=
  match configurations m, m_cache m with
  | [], _ => Ret m
  | l, None => Undef
  | l, Some cache => l ← load_all l cache; Ret (mkManager (Some cache) l)
  end.

(** ** The cache returns what was written *)
Context `{!JsonLaws json}.

(** The resolution of the file. *)
Definition to_ms (t : Z) : Z := Z.quot t 1000000 * 1000000.

Lemma entry_read (o : json) (e r : Z) (t : bytes) (v : json) : json_objlike o -> - 2 ^ 63 <= r < 2 ^ 63 -> - 2 ^ 63 <= e < 2 ^ 63 ->
  let en := json_set (json_set (json_set (json_set o "expires" (json_int (Z.quot e 1000000))) "refreshInterval" (json_int r))
              "etag" (json_string t)) "data" v in
  json_value json_get_int en "refreshInterval" 0 = Ret r /\ json_value json_get_int en "expires" 0 = Ret (Z.quot e 1000000)
  /\ json_value json_get_string en "etag" [] = Ret t /\ json_value Ret en "data" json_object = (Ret v : result json).
Proof.
  intros Ho Hr He en. assert (Hq : - 2 ^ 63 <= Z.quot e 1000000 < 2 ^ 63) by (Z.quot_rem_to_equations; lia).
  unfold json_value, en. rewrite is_object_set by eauto using objlike_set.
  rewrite !find_set by eauto using objlike_set.
  repeat first [rewrite decide_False by done | rewrite decide_True by done]. by rewrite !get_int, get_string by done.
Qed.

(** A configuration that was written to the cache is read back, by this process and by
    the next one, which loads the file; only the expiry is cut to milliseconds. *)
Theorem cache_roundtrip (c c' : file_cache) (d d' : fs) (url : string) (cfg : cached_configuration) (en : json)
    (Hobj : json_objlike (cache_data c)) (Htext : json_text (cache_data c)) (Hopen : openable d = true)
    (Hen : json_key (cache_data c) url = Ret en) (Heo : json_objlike en) (Het : json_text en)
    (Hurl : is_ascii (lit url) = true) (Hetag : is_ascii (etag cfg) = true) (Hdata : json_text (data cfg))
    (He : - 2 ^ 63 <= cached_expires cfg < 2 ^ 63) (Hr : - 2 ^ 63 <= refreshInterval cfg < 2 ^ 63)
    (Hw : writeConfigToCache url cfg c d = Ret (c', d')) :
  load (cache_path c) d' = c' /\
  readFromCache c' url = Ret (Some (mkCached (to_ms (cached_expires cfg)) (refreshInterval cfg) (etag cfg) (data cfg))).
Proof.
  unfold writeConfigToCache in Hw. rewrite Hen in Hw. cbn [mbind outcome_bind] in Hw. cbv zeta in Hw.
  destruct (entry_read en (cached_expires cfg) (refreshInterval cfg) (etag cfg) (data cfg) Heo Hr He) as (V1 & V2 & V3 & V4).
  set (en' := json_set _ "data" _) in *. set (j := json_set (cache_data c) url en') in *.
  assert (json_text j) as Hj.
  { apply text_set; [done|done|]. repeat (apply text_set; [done| |]); auto using text_int, text_string. }
  unfold store in Hw. cbn [cache_data cache_path] in Hw. rewrite Hopen in Hw.
  destruct (dump_text j Hj) as (s & Hs & _). rewrite Hs in Hw. cbn [mbind outcome_bind] in Hw. injection Hw as <- <-.
  split.
  - unfold load. cbn [files set_files]. rewrite lookup_insert_eq. by rewrite (parse_dump j s Hj Hs).
  - unfold readFromCache. cbn [cache_data]. unfold j. rewrite find_set by done. rewrite decide_True by done.
    rewrite V1, V2, V3. cbn [mbind outcome_bind]. unfold count64. rewrite decide_True by (Z.quot_rem_to_equations; lia).
    cbn [mbind outcome_bind]. by rewrite V4.
Qed.

(** ** Answers of the server *)

(** After a failed request (a status other than 200 and 304) the next one is sent no
    earlier than [2^min(n+2,8)] seconds later, [n] being the number of failures before:
    between 4 and 256 seconds.  Until then [download] returns false and leaves everything as it is. *)
Theorem retry_backoff (c : configuration) (d : fs) (w w1 w2 : W) (t : Z) (res : HttpResponse)
    (Hclock : clock w = (w1, t)) (Hmin : downloadMinRetryTime c <= t) (Hn : 0 <= downloadAttempt c)
    (Hsend : http_send (mkRequest (lit (conf_url c)) GET [] []) w1 = (w2, Some res)) (Hst : status res ≠ 200 /\ status res ≠ 304) :
  exists c' delay, download c None d w = Ret (c', None, d, w2, false)
    /\ downloadAttempt c' = downloadAttempt c + 1 /\ downloadMinRetryTime c' = t + delay * second
    /\ delay = 2 ^ Z.min (downloadAttempt c + 2) 8 /\ 4 <= delay <= 256
    /\ forall v v' t', clock v = (v', t') -> t' < t + delay * second -> download c' None d v = Ret (c', None, d, v', false).
Proof.
  exists (on_failure t c), (2 ^ Z.min (downloadAttempt c + 2) 8). unfold download. rewrite Hclock, decide_False by lia.
  cbn [read_cached mbind outcome_bind]. unfold request_config. rewrite Hsend.
  rewrite decide_False, decide_False by (by destruct Hst).
  assert (Hd : downloadMinRetryTime (on_failure t c) = t + 2 ^ Z.min (downloadAttempt c + 2) 8 * second).
  { cbn. rewrite Z.shiftl_1_l. do 4 f_equal. lia. }
  assert (4 <= 2 ^ Z.min (downloadAttempt c + 2) 8 <= 256).
  { split; [change 4 with (2 ^ 2)|change 256 with (2 ^ 8)]; apply Z.pow_le_mono_r; lia. }
  split_and!; try done; try lia. intros v v' t' Hv Ht. rewrite Hv. by rewrite decide_True by (rewrite Hd; lia).
Qed.

(** When the request fails with an [HttpError], the code reads the status of a
    response that was never initialised. *)
Theorem http_error_reads_garbage (c : configuration) (d : fs) (w w1 w2 : W) (t : Z)
    (Hclock : clock w = (w1, t)) (Hmin : downloadMinRetryTime c <= t)
    (Hsend : http_send (mkRequest (lit (conf_url c)) GET [] []) w1 = (w2, None)) :
  download c None d w = Undef.
Proof.
  unfold download. rewrite Hclock, decide_False by lia. cbn [read_cached mbind outcome_bind].
  unfold request_config. by rewrite Hsend.
Qed.

(** Although the parser of the body catches its errors, a body that is not JSON makes
    [download] throw: the refresh interval of the empty object it is replaced by is null. *)
Theorem invalid_body_throws (c : configuration) (d : fs) (w w1 w2 : W) (t : Z) (res : HttpResponse)
    (Hclock : clock w = (w1, t)) (Hmin : downloadMinRetryTime c <= t)
    (Hsend : http_send (mkRequest (lit (conf_url c)) GET [] []) w1 = (w2, Some res)) (Hst : status res = 200)
    (Hbody : json_parse (body res) = (Throw json_parse_error : result json)) :
  download c None d w = Throw json_exception.
Proof.
  unfold download. rewrite Hclock, decide_False by lia. cbn [read_cached mbind outcome_bind].
  unfold request_config. rewrite Hsend, decide_True by done. unfold on_fresh, safeParseJson. rewrite Hbody. cbn [mbind outcome_bind].
  rewrite !key_find by apply objlike_object. rewrite !find_object. cbn [mbind outcome_bind from_option].
  unfold asInt. by rewrite null_not_number, get_string_null.
Qed.
End TelemetryConfig.

(** ** Examples *)

(** A world that is a time; the clock advances by a second. *)
Definition tick (w : Z) : Z * Z := (w + second, w).
Definition answer (status : Z) (body : bytes) (req : HttpRequest) (w : Z) : Z * option HttpResponse :=
  (w, Some (mkResponse status [] body)).
Definition no_network (req : HttpRequest) (w : Z) : Z * option HttpResponse := (w, None).
Definition conf : configuration := new_configuration "https://settings.data.microsoft.com/settings/v2.0/androidLL/app".
Definition empty_disk : fs := mkFs ∅ [] true.

Lemma retry_backoff_witness :
  exists c' delay, download (json := TreeJson) (answer 500 []) tick conf None empty_disk 0 = Ret (c', None, empty_disk, second, false)
    /\ downloadMinRetryTime c' = delay * second /\ delay = 4.
Proof.
  destruct (retry_backoff (json := TreeJson) (answer 500 []) tick conf empty_disk 0 second second 0 (mkResponse 500 [] []))
    as (c' & delay & E & _ & H2 & H3 & _); [done|done|done|done|done|]. exists c', delay. by rewrite H3 in *.
Defined.

Lemma http_error_reads_garbage_witness : download (json := TreeJson) no_network tick conf None empty_disk 0 = Undef.
Proof. by apply (http_error_reads_garbage (json := TreeJson) no_network tick conf empty_disk 0 second second 0). Defined.

Lemma invalid_body_throws_witness : download (json := TreeJson) (answer 200 (lit "<html>")) tick conf None empty_disk 0 = Throw json_exception.
Proof.
  by apply (invalid_body_throws (json := TreeJson) (answer 200 (lit "<html>")) tick conf empty_disk 0 second second 0 (mkResponse 200 [] (lit "<html>"))).
Defined.

Definition some_cache : file_cache (json := TreeJson) := mkCache (lit "config_cache.json") (TObject []).
Definition some_config : cached_configuration (json := TreeJson) := mkCached 1500000000123456789 3600 (lit "abc") (TObject [("MAXEVENTSPERPOST"%string, TInt 100)]).

Lemma cache_roundtrip_witness : exists c' d',
  writeConfigToCache "u" some_config some_cache empty_disk = Ret (c', d')
  /\ load (fun _ => TNull) (lit "config_cache.json") d' = c'
  /\ readFromCache c' "u" = Ret (Some (mkCached 1500000000123000000 3600 (lit "abc") (TObject [("MAXEVENTSPERPOST"%string, TInt 100)]))).
Proof.
  eexists _, _. split; [done|].
  apply (cache_roundtrip (fun _ => TNull) some_cache _ empty_disk _ "u" some_config TNull); done.
Defined.
End TelemetryConfig.
