(* ===== verification/TaskThread.v ===== *)
(** * The upload threads (cll-telemetry/src/task_with_delay_thread.cpp)

    The flags of a [TaskWithDelayThread] and the position of its thread.  What happens
    between two points where the mutex is released is one step; steps of the thread and calls of
    other threads interleave. *)

From S2P Require Import Prelude.
From Stdlib Require Import ZArith Lia Relations.
From stdpp Require Import base list numbers.

Module TaskThread.

(** Where the thread is: none exists or it has ended, it was created, it is in
    [wait_for], it is in the task's function. *)
Inductive position : Type := Ended | Created | InWait | InFunction.

(** [runs] counts the calls of the function. *)
Record task := mkTask {
  running : bool;
  hasPendingTask : bool;
  runImmediately : bool;
  stopping : bool;
  pos : position;
  runs : nat
}.
Definition new_task : task := mkTask false false false false Ended 0.

(** ** doThreadLoop *)

(** The end of the body of the loop: the flags are cleared and the function is called. *)
Definition call_function (t : task) : task :=
  mkTask (running t) false false (stopping t) InFunction (S (runs t)).

(** The head of the loop, with the mutex held. *)
Definition loop_head (t : task) : task :=
  if hasPendingTask t then
    if negb (runImmediately t) && negb (stopping t)
    then mkTask (running t) (hasPendingTask t) (runImmediately t) (stopping t) InWait (runs t)
    else call_function t
  else mkTask false (hasPendingTask t) (runImmediately t) (stopping t) Ended (runs t).

(** The next step of the thread; a wait ends by its timeout, by a notification or spuriously. *)
Definition thread_step (t : task) : option task :=
  match pos t with
  | Ended => None
  | Created => Some (loop_head t)
  | InWait => Some (call_function t)
  | InFunction => Some (loop_head t)
  end.

(** ** The calls of other threads *)
Definition requestRun (immediate : bool) (t : task) : task :=
  let i := if immediate then true else runImmediately t in
  if running t then mkTask true true i (stopping t) (pos t) (runs t)
  else mkTask true true i (stopping t) Created (runs t).

(** [terminate] up to the join, and when the join returns. *)
Definition request_stop (t : task) : task :=
  mkTask (running t) (hasPendingTask t) true true (pos t) (runs t).
Definition joined (t : task) : bool := match pos t with Ended => true | _ => false end.

(** The thread-local pointers, as whether they are not null; [doThreadLoop] sets them
    when it starts and clears them when it ends. *)
Record locals := mkLocals { currentCondVar : bool; currentIsStopping : bool; currentLock : bool }.
Definition no_locals : locals := mkLocals false false false.
Definition enter_loop (l : locals) : locals := mkLocals true true true.
Definition leave_loop (l : locals) : locals := mkLocals false false false.

(** [sleep]; the result is whether it waits. *)
Definition sleep (l : locals) : outcome exn bool :=
  if currentLock l then
    if negb (currentIsStopping l) then (if currentCondVar l then Ret true else Undef) else Ret false
  else Undef.

(** The pointers of a thread after it has entered and left loops. *)
Inductive locals_of : locals -> Prop :=
| locals_none : locals_of no_locals
| locals_enter l : locals_of l -> locals_of (enter_loop l)
| locals_leave l : locals_of l -> locals_of (leave_loop l).

Inductive step : task -> task -> Prop :=
| step_thread t t' : thread_step t = Some t' -> step t t'
| step_request i t : step t (requestRun i t)
| step_stop t : step t (request_stop t).

Definition reachable (t : task) : Prop := clos_refl_trans_1n _ step new_task t.

(** ** Invariant *)
Definition task_inv (t : task) : Prop :=
  running t = negb (joined t) /\ (hasPendingTask t = true -> pos t <> Ended)
  /\ (pos t = Created \/ pos t = InWait -> hasPendingTask t = true).

Lemma step_inv t t' : step t t' -> task_inv t -> task_inv t'.
Proof.
  destruct t as [r h i s p n]. unfold task_inv. intros [u u' E|j u|u]; cbn.
  - destruct u as [r' h' i' s' p' n']. unfold thread_step, loop_head, call_function in E. cbn in *.
    destruct p'; [done|..]; destruct h', i', s'; cbn in E; simplify_eq; cbn; naive_solver.
  - destruct u as [r' h' i' s' p' n']. cbn. destruct r', p', j; cbn; naive_solver.
  - done.
Qed.

Lemma reachable_inv t : reachable t -> task_inv t.
Proof.
  unfold reachable. assert (task_inv new_task) as H0 by (split_and!; [done|done|by intros [?|?]]).
  revert H0. generalize new_task. intros t0 H0 Hr. induction Hr as [|a b c Hs _ IH]; [done|]. eauto using step_inv.
Qed.

(** [n] steps of the thread; an ended thread stays where it is. *)
Fixpoint thread_steps (n : nat) (t : task) : task :=
  match n with
  | O => t
  | S n => match thread_step t with Some t' => thread_steps n t' | None => t end
  end.

(** No request is lost: whatever calls and steps came before, once a run is requested the
    thread calls the function within its next two steps; it goes through a wait before it
    only when the request was not immediate or the thread was already waiting. *)
Theorem request_served (t : task) (immediate : bool) (Hr : reachable t) :
  let t' := requestRun immediate t in
  exists n, n <= 2 /\ runs (thread_steps n t') = S (runs t) /\ pos (thread_steps n t') = InFunction
    /\ (immediate = true -> pos t <> InWait -> n = 1).
Proof.
  apply reachable_inv in Hr as (Hr & Hp & Hw). destruct t as [r h i s p n]. unfold joined in *. cbn in *. subst r.
  destruct p, immediate, i, s; cbn in *;
    first [by exists 1; split_and!; try done; lia | by exists 2; split_and!; try done; lia].
Qed.

(** [terminate] returns: once a stop is requested and no more runs are, the thread
    ends within three steps and never waits; a run that was pending is still made. *)
Theorem terminate_ends (t : task) (Hr : reachable t) :
  let t' := request_stop t in
  joined (thread_steps 3 t') = true /\ (forall n, n <= 3 -> pos (thread_steps n t') = InWait -> n = 0)
  /\ (hasPendingTask t = true -> runs t < runs (thread_steps 3 t')).
Proof.
  apply reachable_inv in Hr as (Hr & Hp & Hw). destruct t as [r h i s p n]. unfold joined in *. cbn in *. subst r.
  assert (Hh : h = true \/ h = false) by (destruct h; auto).
  destruct Hh as [-> | ->], p; cbn in *; try (specialize (Hp eq_refl)); try (specialize (Hw (or_introl eq_refl)));
    try (specialize (Hw (or_intror eq_refl))); try done;
    (split_and!; [done| |intros; try done; lia]); intros [|[|[|[|m]]]] Hm; cbn; intros; try done; lia.
Qed.

(** [sleep] tests the pointer to the flag instead of the flag: a thread of this class
    never waits in it, whether it is stopping or not, so the back-off delays of the
    uploader have no effect; elsewhere it dereferences null pointers. *)
Theorem sleep_never_waits (l : locals) (Hl : locals_of l) : sleep l <> Ret true /\ (currentLock l = true -> sleep l = Ret false).
Proof. by destruct Hl. Qed.

Lemma sleep_never_waits_witness : sleep (enter_loop no_locals) <> Ret true.
Proof. apply (sleep_never_waits (enter_loop no_locals)), locals_enter, locals_none. Defined.

Definition busy : task := requestRun false (thread_steps 2 (requestRun false new_task)).

Lemma busy_reachable : reachable busy.
Proof.
  eapply Relation_Operators.rt1n_trans; [apply (step_request false)|]. eapply Relation_Operators.rt1n_trans; [by apply step_thread|].
  eapply Relation_Operators.rt1n_trans; [by apply step_thread|]. eapply Relation_Operators.rt1n_trans; [apply (step_request false)|]. apply rt1n_refl.
Qed.

Lemma request_served_witness : exists n, n <= 2 /\ runs (thread_steps n (requestRun true busy)) = 2 /\ pos (thread_steps n (requestRun true busy)) = InFunction
  /\ (true = true -> pos busy <> InWait -> n = 1).
Proof. apply (request_served busy true), busy_reachable. Defined.

Lemma terminate_ends_witness : joined (thread_steps 3 (request_stop busy)) = true.
Proof. apply (terminate_ends busy), busy_reachable. Defined.

End TaskThread.
