(* ===== verification/Serializer.v ===== *)
(** * Events and their envelopes (cll-telemetry/include/cll/event.h, src/event_serializer.cpp,
      src/event_serializer_extensions.cpp) *)

From S2P Require Import Prelude Json CxxString CxxTime.
From Stdlib Require Import ZArith Ascii Lia.
From stdpp Require Import base list strings numbers.

Open Scope Z_scope.

Module Serializer.

(** ** Flags *)
Definition PersistenceNormal : Z := 1.
Definition PersistenceCritical : Z := 2.
Definition LatencyNormal : Z := 256.
Definition LatencyRealtime : Z := 512.
Definition EventFlagSet (a b : Z) : bool := negb (Z.land a b =? 0).

Section Serializer.
Context {json : Type} `{Json json}.

Record event := mkEvent { ev_name : bytes; ev_data : json; ev_flags : Z; ev_ids : list bytes; ev_time : Z }.

Record extension := mkExtension { getName : string; build : event -> json }.

Record serializer := mkSerializer {
  iKey : bytes; epoch : Z; seqNum : Z; os : bytes; osVer : bytes; appId : bytes; appVer : bytes;
  extensions : list extension
}.
Definition addExtension (e : extension) (s : serializer) : serializer :=
  mkSerializer (iKey s) (epoch s) (seqNum s) (os s) (osVer s) (appId s) (appVer s) (extensions s ++ [e]).
Definition setApp (i v : bytes) (s : serializer) : serializer :=
  mkSerializer (iKey s) (epoch s) (seqNum s) (os s) (osVer s) i v (extensions s).
Definition next_seq (s : serializer) : serializer :=
  mkSerializer (iKey s) (epoch s) (wrapu 64 (seqNum s + 1)) (os s) (osVer s) (appId s) (appVer s) (extensions s).

(** The time of an event, with milliseconds. *)
Definition getEventTimeAsString (t : Z) : bytes :=
  let timeMs := Z.quot t 1000000 - Z.quot t 1000000000 * 1000 in
  strftime_FT (gmtime (Z.quot t 1000000000)) ++ lit "." ++ zero_padded 3 (wraps 32 timeMs) ++ lit "Z".

(** A member that is left out when its text is empty. *)
Definition set_nonempty (k : string) (v : bytes) (j : json) : json :=
  match v with [] => j | _ => json_set j k (json_string v) end.

Definition set_ext (ev : event) (l : list extension) (j : json) : json :=
  match l with
  | [] => j
  | _ => json_set j "ext" (foldl (fun ext e => json_set ext (getName e) (build e ev)) json_object l)
  end.

Definition createEnvelopeFor (ev : event) (s : serializer) : serializer * json :=
  let j := json_set json_null "ver" (json_string (lit "2.1")) in
  let j := json_set j "name" (json_string (ev_name ev)) in
  let j := json_set j "data" (ev_data ev) in
  let j := json_set j "time" (json_string (getEventTimeAsString (ev_time ev))) in
  let j := json_set j "popSample" (json_double 100) in
  let j := json_set j "epoch" (json_string (to_string (epoch s))) in
  let j := json_set j "seqNum" (json_int (seqNum s)) in
  let j := json_set j "iKey" (json_string (iKey s)) in
  let j := json_set j "flags" (json_int (ev_flags ev)) in
  let j := set_nonempty "os" (os s) j in
  let j := set_nonempty "osVer" (osVer s) j in
  let j := set_nonempty "appId" (appId s) j in
  let j := set_nonempty "appVer" (appVer s) j in
  let j := set_ext ev (extensions s) j in
  (next_seq s, j).

(** ** The extensions *)
Definition ext_base : json := json_set json_null "ver" (json_string (lit "1.0")).
Definition UserInfoExtension (localId : bytes) : extension :=
  mkExtension "user" (fun _ => json_set ext_base "localId" (json_string localId)).
Definition DeviceInfoExtension (localId deviceClass : bytes) : extension :=
  mkExtension "device" (fun _ =>
    json_set (json_set ext_base "localId" (json_string localId)) "deviceClass" (json_string deviceClass)).

(** The name of the locale, such as [en_US.utf8], as [en-US]. *)
Definition getLocale (cppName : bytes) : bytes :=
  if decide (length cppName < 5)%nat then []
  else
    let n := take 5 cppName in
    let n := if decide (n !! 2%nat = Some "_"%char) then <[2%nat := "-"%char]> n else n in
    if decide (n !! 2%nat = Some "-"%char) then n else [].
Definition OsInfoExtension (cppName : bytes) : extension :=
  mkExtension "os" (fun _ => json_set ext_base "locale" (json_string (getLocale cppName))).

Definition AndroidExtension : extension :=
  mkExtension "android" (fun ev =>
    json_set (json_set ext_base "libVer" (json_string (lit "3.170921.0"))) "tickets" (json_array (map json_string (ev_ids ev)))).

Definition DefaultExtensions (cppName : bytes) : list extension :=
  [UserInfoExtension []; OsInfoExtension cppName; DeviceInfoExtension [] (lit "Android.PC"); AndroidExtension].
Definition addTo (cppName : bytes) (s : serializer) : serializer := foldl (fun s e => addExtension e s) s (DefaultExtensions cppName).

(** ** What an envelope contains *)
Context `{!JsonLaws json}.

Lemma objlike_nonempty k v j : json_objlike j -> json_objlike (set_nonempty k v j).
Proof. destruct v; [done|]. apply objlike_set. Qed.

Lemma find_nonempty k v j k' : json_objlike j -> k <> k' -> json_find (set_nonempty k v j) k' = json_find j k'.
Proof. intros Hj Hk. destruct v; [done|]. simpl. by rewrite find_set, decide_False. Qed.

(** Every envelope says which event it is: it carries the name, data and flags of
    the event and the sequence number of the serializer, whatever extensions and optional members
    are set, and the next envelope has the next number. *)
Theorem envelope_fields (ev : event) (s s' : serializer) (j : json) (He : createEnvelopeFor ev s = (s', j)) :
  json_find j "name" = Some (json_string (ev_name ev)) /\ json_find j "data" = Some (ev_data ev)
  /\ json_find j "flags" = Some (json_int (ev_flags ev)) /\ json_find j "seqNum" = Some (json_int (seqNum s))
  /\ json_value json_get_int j "flags" 0 = json_get_int (json_int (ev_flags ev)) /\ seqNum s' = wrapu 64 (seqNum s + 1).
Proof.
  unfold createEnvelopeFor in He. injection He as <- <-. set (base := json_set _ "flags" _).
  assert (Hobj : json_objlike base) by (unfold base; repeat apply objlike_set; apply objlike_null).
  set (opt := set_nonempty "appVer" _ _).
  assert (Hopt : json_objlike opt) by (by repeat apply objlike_nonempty).
  assert (Hfind : forall k, k <> "os"%string -> k <> "osVer"%string -> k <> "appId"%string -> k <> "appVer"%string -> k <> "ext"%string ->
    json_find (set_ext ev (extensions s) opt) k = json_find base k).
  { intros k H1 H2 H3 H4 H5. transitivity (json_find opt k).
    - unfold set_ext. destruct (extensions s); [done|]. by rewrite find_set, decide_False.
    - unfold opt. by rewrite !find_nonempty by (done || by repeat apply objlike_nonempty). }
  assert (Hob : json_is_object (set_ext ev (extensions s) opt) = true).
  { unfold set_ext. destruct (extensions s); [|by apply is_object_set]. unfold opt, set_nonempty, base.
    destruct (appVer s), (appId s), (osVer s), (os s); by rewrite is_object_set by (eauto 20 using objlike_set, objlike_null). }
  unfold json_value. rewrite Hob, !Hfind by done. unfold base. rewrite !find_set by eauto 20 using objlike_set, objlike_null.
  repeat first [rewrite decide_False by done | rewrite decide_True by done]. done.
Qed.
End Serializer.
Arguments event json : clear implicits.
Arguments extension json : clear implicits.
Arguments serializer json : clear implicits.

Definition launch : event TreeJson := mkEvent (lit "Launch") (TInt 1) 514 [lit "t"] 0.
Definition session : serializer TreeJson := addTo (lit "en_US.utf8") (mkSerializer (lit "key") 1 7 (lit "Linux") [] [] [] []).

Lemma envelope_fields_witness : json_find (createEnvelopeFor launch session).2 "name" = Some (json_string (lit "Launch")).
Proof.
  destruct (envelope_fields launch session (createEnvelopeFor launch session).1 (createEnvelopeFor launch session).2) as [E _];
    [by destruct (createEnvelopeFor launch session)|]. exact E.
Defined.

End Serializer.
