(* ===== verification/EventManager.v ===== *)
(** * The event manager (cll-telemetry/src/event_manager.cpp)

    The batches of normal and of critical events live in one directory under different
    prefixes; each has its part of the disk.  Each operation runs with the mutex
    of the batch it works on. *)

From S2P Require Import Prelude Json EventBatch MemoryBatch FileBatch MultiFileBatch BufferedBatch Compressor Uploader TelemetryConfig TaskThread Serializer.
From Stdlib Require Import ZArith Ascii Lia.
From stdpp Require Import base list gmap strings numbers.

Open Scope Z_scope.

Module EventManager.
Import Http Uploader MemoryBatch MultiFileBatch BufferedBatch.

Section EventManager.
Context {json W : Type} `{Json json} {zs : Type} `{Compressor.Zlib zs}.
Notation result := (outcome (jexn json)).
Context (http_send : HttpRequest -> W -> W * option HttpResponse) (clock : W -> W * Z) (now : W -> Z) (zfuel : nat).

Record event_manager := mkManager {
  config : TelemetryConfig.manager (json := json);
  config_disk : fs;
  uploaderMaxEvents : Z;
  uploaderMaxSize : Z;
  em_uploader : uploader W;
  em_serializer : Serializer.serializer json;
  normalStorageBatch : fs * buffered_batch json multi_batch;
  criticalStorageBatch : fs * multi_batch;
  realtimeMemoryBatch : memory_batch json;
  mainUploadTask : TaskThread.task;
  realtimeUploadTask : TaskThread.task
}.

Definition set_config c d e s n k (m : event_manager) : event_manager :=
  mkManager c d e s (em_uploader m) (em_serializer m) n k (realtimeMemoryBatch m) (mainUploadTask m) (realtimeUploadTask m).
Definition set_normal n (m : event_manager) : event_manager :=
  mkManager (config m) (config_disk m) (uploaderMaxEvents m) (uploaderMaxSize m) (em_uploader m) (em_serializer m) n
    (criticalStorageBatch m) (realtimeMemoryBatch m) (mainUploadTask m) (realtimeUploadTask m).
Definition set_critical k (m : event_manager) : event_manager :=
  mkManager (config m) (config_disk m) (uploaderMaxEvents m) (uploaderMaxSize m) (em_uploader m) (em_serializer m)
    (normalStorageBatch m) k (realtimeMemoryBatch m) (mainUploadTask m) (realtimeUploadTask m).
Definition set_realtime r (m : event_manager) : event_manager :=
  mkManager (config m) (config_disk m) (uploaderMaxEvents m) (uploaderMaxSize m) (em_uploader m) (em_serializer m)
    (normalStorageBatch m) (criticalStorageBatch m) r (mainUploadTask m) (realtimeUploadTask m).
Definition set_serializer s (m : event_manager) : event_manager :=
  mkManager (config m) (config_disk m) (uploaderMaxEvents m) (uploaderMaxSize m) (em_uploader m) s
    (normalStorageBatch m) (criticalStorageBatch m) (realtimeMemoryBatch m) (mainUploadTask m) (realtimeUploadTask m).
Definition set_tasks a b (m : event_manager) : event_manager :=
  mkManager (config m) (config_disk m) (uploaderMaxEvents m) (uploaderMaxSize m) (em_uploader m) (em_serializer m)
    (normalStorageBatch m) (criticalStorageBatch m) (realtimeMemoryBatch m) a b.
Definition requestMain (immediate : bool) (m : event_manager) : event_manager :=
  set_tasks (TaskThread.requestRun immediate (mainUploadTask m)) (realtimeUploadTask m) m.
Definition requestRealtime (immediate : bool) (m : event_manager) : event_manager :=
  set_tasks (mainUploadTask m) (TaskThread.requestRun immediate (realtimeUploadTask m)) m.

(** The limits of the configuration as [size_t]. *)
Definition max_events (c : TelemetryConfig.manager (json := json)) : Z := wrapu 64 (TelemetryConfig.getMaxEventsPerPost c).
Definition max_size (c : TelemetryConfig.manager (json := json)) : Z := wrapu 64 (TelemetryConfig.getMaxEventSizeInBytes c).

(** onConfigurationUpdated. *)
Definition onConfigurationUpdated (m : event_manager) : event_manager :=
  let e := max_events (config m) in
  let s := max_size (config m) in
  let '(dn, n) := normalStorageBatch m in
  let '(dk, k) := criticalStorageBatch m in
  set_config (config m) (config_disk m) e s (dn, mkBuffered (setFileLimits e s (wrapped n)) (mem n)) (dk, setFileLimits e s k) m.

Definition updateConfigIfNeeded (m : event_manager) (w : W) : result (event_manager * W) :=
  '(c, d, w, updated) ← TelemetryConfig.downloadConfigs http_send clock (config m) (config_disk m) w;
  let m := set_config c d (uploaderMaxEvents m) (uploaderMaxSize m) (normalStorageBatch m) (criticalStorageBatch m) m in
  Ret (if (updated : bool) then onConfigurationUpdated m else m, w).

Definition start (m : event_manager) : event_manager := requestMain true m.

(** The destructor: both threads are stopped, then the buffered events are flushed. *)
Definition destroy (m : event_manager) : result event_manager :=
  let m := set_tasks (TaskThread.request_stop (mainUploadTask m)) (TaskThread.request_stop (realtimeUploadTask m)) m in
  n ← flush (normalStorageBatch m); Ret (set_normal n m).

(** ** uploadTasks *)
Definition send {B} `{EventBatch json B} (m : event_manager) (s : fs * B) (w : W) : result (fs * B * W * upload_status) :=
  sendEvents (zs := zs) http_send now zfuel 2 (em_uploader m) (uploaderMaxEvents m) (uploaderMaxSize m) s w.

(** [while] condition, but for the stop flag. *)
Definition work_left (m : event_manager) : bool :=
  hasEvents (normalStorageBatch m).2 || hasEvents (criticalStorageBatch m).2.

(** The body of the loop up to the status, [None] for the break. *)
Definition upload_once (m : event_manager) (w : W) : result (event_manager * W * option upload_status) :=
  '(m, w) ← updateConfigIfNeeded m w;
  if hasEvents (criticalStorageBatch m).2 then
    '(k, w, st) ← send m (criticalStorageBatch m) w; Ret (set_critical k m, w, Some st)
  else if hasEvents (normalStorageBatch m).2 then
    '(n, w, st) ← send m (normalStorageBatch m) w; Ret (set_normal n m, w, Some st)
  else Ret (m, w, None).

Definition baseBackoffTime : Z := 5000.
(** The back-off after an attempt, in milliseconds; [nextBackoffTime *= 2] is a signed product. *)
Definition next_backoff (st : upload_status) (b : Z) : result Z :=
  match st with
  | Success | ErrorRateLimit _ => Ret baseBackoffTime
  | ErrorGeneric => TelemetryConfig.count64 (b * 2)
  end.

Fixpoint upload_loop (fuel : nat) (isStopping : W -> bool) (m : event_manager) (w : W) (backoff : Z) : result (event_manager * W) :=
  match fuel with
  | O => Diverge
  | S fuel =>
      if negb (isStopping w) && work_left m then
        '(m, w, st) ← upload_once m w;
        match st with
        | None => Ret (m, w)
        | Some st => b ← next_backoff st backoff; upload_loop fuel isStopping m w b
        end
      else Ret (m, w)
  end.
Definition uploadTasks (fuel : nat) (isStopping : W -> bool) (m : event_manager) (w : W) : result (event_manager * W) :=
  '(m, w) ← updateConfigIfNeeded m w;
  upload_loop fuel isStopping m w baseBackoffTime.

(** ** uploadRealtimeTasks *)

(** The events are moved to the batch on disk of their kind. *)
Fixpoint transfer (l : list json) (m : event_manager) : result event_manager :=
  match l with
  | [] => Ret m
  | ev :: l =>
      flags ← json_value json_get_int32 ev "flags" 0;
      m ← (if Serializer.EventFlagSet flags Serializer.PersistenceCritical
           then '(k, _) ← addEvent ev (criticalStorageBatch m); Ret (set_critical k m)
           else '(n, _) ← addEvent ev (normalStorageBatch m); Ret (set_normal n m));
      transfer l m
  end.

Definition realtime_failed (m : event_manager) : result event_manager :=
  let '(l, r) := transferAllEvents (realtimeMemoryBatch m) in
  m ← transfer l (set_realtime r m);
  Ret (requestMain true m).

Fixpoint uploadRealtimeTasks (fuel : nat) (m : event_manager) (w : W) : result (event_manager * W) :=
  match fuel with
  | O => Diverge
  | S fuel =>
      if mem_hasEvents (realtimeMemoryBatch m) then
        '(m, w) ← updateConfigIfNeeded m w;
        '(s, w, st) ← send m (config_disk m, realtimeMemoryBatch m) w;
        let m := set_realtime s.2 m in
        m ← (if is_success st then Ret m else realtime_failed m);
        uploadRealtimeTasks fuel m w
      else Ret (m, w)
  end.

(** ** add *)
Definition add (ev : Serializer.event json) (m : event_manager) : result event_manager :=
  let '(s, j) := Serializer.createEnvelopeFor ev (em_serializer m) in
  let m := set_serializer s m in
  let realtime := Serializer.EventFlagSet (Serializer.ev_flags ev) Serializer.LatencyRealtime in
  let '(r, taken) := if realtime then mem_addEvent j (realtimeMemoryBatch m) else (realtimeMemoryBatch m, false) in
  if taken then Ret (requestRealtime false (set_realtime r m))
  else
    '(m, added) ← (if Serializer.EventFlagSet (Serializer.ev_flags ev) Serializer.PersistenceCritical
                   then '(k, b) ← addEvent j (criticalStorageBatch m); Ret (set_critical k m, b)
                   else '(n, b) ← addEvent j (normalStorageBatch m); Ret (set_normal n m, b));
    Ret (if (added : bool) then requestMain realtime m else m).

(** ** Every event is stored once *)

(** The lines in the three batches. *)
Definition em_holds (m : event_manager) (ln lc lr : list bytes) : Prop :=
  queued (normalStorageBatch m) ln /\ queued (criticalStorageBatch m) lc /\ Forall2 line_of (items (realtimeMemoryBatch m)) lr.

(** Both disk batches accept a line, and there is room for it. *)
Definition room (m : event_manager) (ln lc : list bytes) (l : bytes) : Prop :=
  accepts (normalStorageBatch m).2 l /\ accepts (criticalStorageBatch m).2 l
  /\ lsize ln + Z.of_nat (length l) < 2 ^ 63 /\ lsize lc + Z.of_nat (length l) < 2 ^ 63.

Lemma critical_add m ln lc lr j line : em_holds m ln lc lr -> json_dump j = Ret line -> newline ∉ line -> room m ln lc (line ++ crlf) ->
  exists k, addEvent j (criticalStorageBatch m) = Ret (k, true) /\ em_holds (set_critical k m) ln (lc ++ [line ++ crlf]) lr
    /\ forall l, accepts (criticalStorageBatch m).2 l -> accepts k.2 l.
Proof.
  intros (Hn & Hk & Hr) Hd Hnl (_ & Ha & _ & Hs).
  destruct (queued_add (criticalStorageBatch m) lc j line Hk Hd Hnl Ha Hs) as (k & b & E & Hk').
  destruct (reliable_add _ _ _ _ _ _ Hk Hd Hnl Ha Hs E) as [-> _]. exists k. split_and!; [done|by split_and!|].
  intros l. by eapply accepts_add.
Qed.

Lemma normal_add m ln lc lr j line : em_holds m ln lc lr -> json_dump j = Ret line -> newline ∉ line -> room m ln lc (line ++ crlf) ->
  exists n, addEvent j (normalStorageBatch m) = Ret (n, true) /\ em_holds (set_normal n m) (ln ++ [line ++ crlf]) lc lr
    /\ forall l, accepts (normalStorageBatch m).2 l -> accepts n.2 l.
Proof.
  intros (Hn & Hk & Hr) Hd Hnl (Ha & _ & Hs & _). pose proof Hn as (lw & lm & Hb & ->).
  destruct (buf_add_ok _ _ _ _ _ Hb Hd Hnl Ha Hs) as (n & lw' & lm' & E & Hb' & Hacc & Hcase).
  assert (queued n ((lw ++ lm) ++ [line ++ crlf])) as Hq.
  { exists lw', (lm' ++ [line ++ crlf]). split; [done|]. destruct Hcase as [(_ & -> & -> & _)|(_ & -> & ->)]; [by rewrite app_assoc|done]. }
  exists n. split_and!; [done|by split_and!|done].
Qed.

(** C13. An event that is added is stored in exactly one of the three batches, at its end: in
    memory if it is a realtime event and the memory has room, else on disk with the critical or
    the normal events; and a run of the thread that uploads it is pending. *)
Theorem add_stores (ev : Serializer.event json) (m : event_manager) (ln lc lr : list bytes) (line : bytes)
    (Hm : em_holds m ln lc lr) (Hd : json_dump (Serializer.createEnvelopeFor ev (em_serializer m)).2 = Ret line)
    (Hnl : newline ∉ line) (Hroom : room m ln lc (line ++ crlf)) :
  let l := line ++ crlf in
  exists m', add ev m = Ret m' /\
    if Serializer.EventFlagSet (Serializer.ev_flags ev) Serializer.LatencyRealtime
       && bool_decide (Z.of_nat (length lr) < limit (realtimeMemoryBatch m))
    then em_holds m' ln lc (lr ++ [l]) /\ TaskThread.hasPendingTask (realtimeUploadTask m') = true
    else TaskThread.hasPendingTask (mainUploadTask m') = true /\
      if Serializer.EventFlagSet (Serializer.ev_flags ev) Serializer.PersistenceCritical
      then em_holds m' ln (lc ++ [l]) lr else em_holds m' (ln ++ [l]) lc lr.
Proof.
  unfold add. destruct (Serializer.createEnvelopeFor ev (em_serializer m)) as [s j]. cbn [snd] in Hd.
  set (m1 := set_serializer s m). assert (Hm1 : em_holds m1 ln lc lr) by done. assert (Hr1 : room m1 ln lc (line ++ crlf)) by done.
  pose proof Hm as (_ & _ & Hr). pose proof (Forall2_length Hr) as Hlen. cbv zeta.
  assert (Hpending : forall i t, TaskThread.hasPendingTask (TaskThread.requestRun i t) = true).
  { intros i t. unfold TaskThread.requestRun. by destruct (TaskThread.running t). }
  assert (Hdisk : exists m2, (if Serializer.EventFlagSet (Serializer.ev_flags ev) Serializer.PersistenceCritical
      then '(k, b) ← addEvent j (criticalStorageBatch m1); Ret (set_critical k m1, b)
      else '(n, b) ← addEvent j (normalStorageBatch m1); Ret (set_normal n m1, b)) = (Ret (m2, true) : result _)
    /\ if Serializer.EventFlagSet (Serializer.ev_flags ev) Serializer.PersistenceCritical
       then em_holds m2 ln (lc ++ [line ++ crlf]) lr else em_holds m2 (ln ++ [line ++ crlf]) lc lr).
  { destruct (Serializer.EventFlagSet _ Serializer.PersistenceCritical).
    - destruct (critical_add m1 ln lc lr j line Hm1 Hd Hnl Hr1) as (k & -> & Hk & _). by eexists.
    - destruct (normal_add m1 ln lc lr j line Hm1 Hd Hnl Hr1) as (n & -> & Hn & _). by eexists. }
  destruct Hdisk as (m2 & E2 & Hm2). unfold mem_addEvent.
  change (realtimeMemoryBatch m1) with (realtimeMemoryBatch m). rewrite Hlen.
  destruct (Serializer.EventFlagSet _ Serializer.LatencyRealtime); cbn [andb].
  - case_bool_decide as Hlt.
    + rewrite decide_False by (cbn; lia). cbv beta iota. eexists. split; [done|]. split; [|apply Hpending].
      destruct Hm1 as (? & ? & ?). split_and!; [done|done|]. apply Forall2_app; [done|]. repeat constructor. by exists line.
    + rewrite decide_True by (cbn; lia). cbv beta iota. rewrite E2. cbn [mbind outcome_bind]. eexists. split; [done|]. split; [apply Hpending|done].
  - rewrite E2. cbn [mbind outcome_bind]. eexists. split; [done|]. split; [apply Hpending|done].
Qed.

(** ** A realtime upload that fails loses nothing *)

(** The kind of an event: its flags are those of its envelope. *)
Definition is_critical (j : json) (c : bool) : Prop :=
  exists f, json_value json_get_int32 j "flags" 0 = Ret f /\ Serializer.EventFlagSet f Serializer.PersistenceCritical = c.

Lemma transfer_ok l : forall m ln lc lr ls kinds, em_holds m ln lc lr -> Forall2 line_of l ls -> Forall2 is_critical l kinds ->
  Forall (accepts (normalStorageBatch m).2) ls -> Forall (accepts (criticalStorageBatch m).2) ls ->
  lsize (ln ++ ls) < 2 ^ 63 -> lsize (lc ++ ls) < 2 ^ 63 ->
  exists m', transfer l m = Ret m' /\ realtimeMemoryBatch m' = realtimeMemoryBatch m /\
    em_holds m' (ln ++ map fst (filter (fun p => p.2 = false) (zip ls kinds))) (lc ++ map fst (filter (fun p => p.2 = true) (zip ls kinds))) lr.
Proof.
  induction l as [|j l IH]; intros m ln lc lr ls kinds Hm Hl Hc Han Hak Hsn Hsk;
    inversion Hl as [|? line ? ls' (e & Hd & Hnl & ->) Hl']; inversion Hc as [|? c ? kinds' (f & Hf & Hfc) Hc']; subst.
  { exists m. cbn. by rewrite !app_nil_r. }
  apply Forall_cons_iff in Han as [Hn Han], Hak as [Hk Hak]. cbn [transfer]. rewrite Hf. cbn [mbind outcome_bind].
  rewrite !lsize_app, !lsize_cons in *. pose proof (lsize_nonneg ls').
  assert (Hroom : room m ln lc (e ++ crlf)) by (split_and!; [done|done|lia|lia]).
  destruct (Serializer.EventFlagSet f _) eqn:Ef.
  - destruct (critical_add m ln lc lr j e Hm Hd Hnl Hroom) as (k & -> & Hm' & Hacc). cbn [mbind outcome_bind].
    destruct (IH (set_critical k m) ln (lc ++ [e ++ crlf]) lr ls' kinds' Hm' Hl' Hc') as (m' & -> & Er & Hm2); try done.
    + by revert Hak; apply Forall_impl.
    + rewrite lsize_app. lia.
    + rewrite <- app_assoc, !lsize_app, lsize_cons. change (lsize []) with 0. lia.
    + exists m'. split_and!; [done|done|]. cbn. by rewrite <- app_assoc in Hm2.
  - destruct (normal_add m ln lc lr j e Hm Hd Hnl Hroom) as (n & -> & Hm' & Hacc). cbn [mbind outcome_bind].
    destruct (IH (set_normal n m) (ln ++ [e ++ crlf]) lc lr ls' kinds' Hm' Hl' Hc') as (m' & -> & Er & Hm2); try done.
    + by revert Han; apply Forall_impl.
    + rewrite <- app_assoc, !lsize_app, lsize_cons. change (lsize []) with 0. lia.
    + rewrite lsize_app. lia.
    + exists m'. split_and!; [done|done|]. cbn. by rewrite <- app_assoc in Hm2.
Qed.

(** When the upload of realtime events fails, all events in memory move to the batches on
    disk, the critical ones to one and the others to the other, in their order, and an
    immediate run of the main upload is pending. *)
Theorem realtime_failure_keeps_events (m : event_manager) (ln lc lr : list bytes) (kinds : list bool)
    (Hm : em_holds m ln lc lr) (Hc : Forall2 is_critical (items (realtimeMemoryBatch m)) kinds)
    (Hn : Forall (accepts (normalStorageBatch m).2) lr) (Hk : Forall (accepts (criticalStorageBatch m).2) lr)
    (Hsn : lsize (ln ++ lr) < 2 ^ 63) (Hsk : lsize (lc ++ lr) < 2 ^ 63) :
  exists m', realtime_failed m = Ret m'
    /\ em_holds m' (ln ++ map fst (filter (fun p => p.2 = false) (zip lr kinds))) (lc ++ map fst (filter (fun p => p.2 = true) (zip lr kinds))) []
    /\ TaskThread.hasPendingTask (mainUploadTask m') = true /\ TaskThread.runImmediately (mainUploadTask m') = true.
Proof.
  unfold realtime_failed, transferAllEvents. pose proof Hm as (H1 & H2 & H3).
  destruct (transfer_ok (items (realtimeMemoryBatch m)) (set_realtime (mkMemory [] (limit (realtimeMemoryBatch m))) m) ln lc [] lr kinds)
    as (m' & -> & Er & Hm'); [by split_and!|done..|].
  cbn [mbind outcome_bind]. eexists. split; [done|]. split; [done|]. cbn. unfold TaskThread.requestRun. by destruct (TaskThread.running _).
Qed.

(** ** The main upload drains the batches *)
Section draining.
Context `{!Compressor.ZlibLaws zs}.
(** The bodies a world has received; the server answers every request with 200. *)
Context (log : W -> list bytes).
Context (Haccept : forall req w, exists w' res, http_send req w = (w', Some res) /\ status res = 200 /\ log w' = log w ++ [post_data req]).

(** Steps and the check of the configuration send no events. *)
Definition silent_steps (u : uploader W) : Prop :=
  Forall (fun s => forall el h w, log (onRequest s el h w).1 = log w) (steps u).
Definition config_stable (m : event_manager) : Prop :=
  forall w, exists w', TelemetryConfig.downloadConfigs http_send clock (config m) (config_disk m) w = Ret (config m, config_disk m, w', false) /\ log w' = log w.

Lemma run_onRequest_log l el : Forall (fun s => forall el h w, log (onRequest s el h w).1 = log w) l ->
  forall h w, log (run_onRequest l el h w).1 = log w.
Proof.
  induction 1 as [|s l Hs _ IH]; intros h w; [done|]. cbn. specialize (Hs el h w). destruct (onRequest s el h w) as [w1 h1].
  rewrite IH. exact Hs.
Qed.

Definition payload (ls : list bytes) : bytes := body_of (zs := zs) (bool_decide (1 < length ls)%nat) (concat ls).

Lemma accepted_list u el c data ms r w : zlib_ready (zs := zs) zfuel ms -> silent_steps u -> getData (E := jexn json) el = Ret data ->
  Z.of_nat (length data) <= ms ->
  exists w', send_list (json := json) (zs := zs) http_send now zfuel r u el c w = Ret (w', Success)
    /\ log w' = log w ++ [body_of (zs := zs) c data].
Proof using Haccept.
  intros Hz Hs Hd Hl. pose proof (build_request_ok (json := json) now zfuel u el c w data ms Hz Hd Hl) as (w1 & h & req & E & Hr & _ & _ & Hpost & _).
  assert (log w1 = log w) as Hlog.
  { pose proof (run_onRequest_log (steps u) el Hs [] w) as Hlog. by rewrite Hr in Hlog. }
  destruct r; cbn [send_list]; rewrite E; cbn [mbind outcome_bind]; destruct (Haccept req w1) as (w2 & res & -> & Hst & Hlog2);
    rewrite decide_True by done; exists w2; by rewrite Hlog2, Hpost, Hlog.
Qed.

Definition upload_ready (m : event_manager) : Prop :=
  zlib_ready (zs := zs) zfuel (uploaderMaxSize m) /\ silent_steps (em_uploader m) /\ config_stable m
  /\ 0 < uploaderMaxEvents m < 2 ^ 64 /\ 0 < uploaderMaxSize m.
Definition fits (m : event_manager) (l : bytes) : Prop := Z.of_nat (length l) <= Z.min (uploaderMaxSize m) (1024 * 1024).

Lemma accepted_batch {B} `{BatchSpec json B} m (s : fs * B) l ls w : upload_ready m -> queued s (l :: ls) -> fits m l ->
  exists s' w' k, send m s w = Ret (s', w', Success) /\ (0 < k <= length (l :: ls))%nat /\ queued s' (drop k (l :: ls))
    /\ log w' = log w ++ [payload (take k (l :: ls))].
Proof using Haccept.
  intros (Hz & Hst & _ & Hc & Hs) Hq Hf.
  destruct (queued_get s (l :: ls) (uploaderMaxEvents m) (uploaderMaxSize m) Hq ltac:(done) Hc)
    as (s1 & el & k & E & Hq1 & Hk & Hh & Hi & Hkc & Hks & _ & Hprog); [destruct Hz as (_ & ? & _); lia|].
  unfold send. cbn [sendEvents]. rewrite E. cbn [mbind outcome_bind]. destruct (Hh (jexn json)) as (Hd & Hn & _). rewrite Hn.
  cbn [mbind outcome_bind].
  destruct (accepted_list (em_uploader m) el (bool_decide (1 < Z.of_nat (length (take k (l :: ls))))) _ (uploaderMaxSize m) canRetry w Hz Hst Hd Hks) as (w' & -> & Hlog).
  cbn [mbind outcome_bind is_success]. destruct (queued_uploaded s1 _ el k Hq1 Hi Hk) as (s2 & -> & Hq2). cbn [mbind outcome_bind].
  exists s2, w', k. split_and!; [done|by apply (Hprog l ls)|done|done|]. rewrite Hlog. unfold payload. by rewrite (bool_decide_ext _ (1 < length (take k (l :: ls)))%nat) by lia.
Qed.

Lemma empty_batch {B} `{ReliableBatch json B} m (s : fs * B) w : upload_ready m -> queued s [] ->
  exists s', send m s w = Ret (s', w, Success) /\ queued s' [] /\ hasEvents s'.2 = false.
Proof using Type.
  intros (_ & _ & _ & Hc & Hs) Hq. destruct (get_empty s (uploaderMaxEvents m) (uploaderMaxSize m) Hq) as (s' & E & Hq' & Hno); [lia|lia|].
  unfold send. cbn [sendEvents]. rewrite E. cbn [mbind outcome_bind]. rewrite Hno. by exists s'.
Qed.

Lemma config_stable_update m w : config_stable m -> exists w', updateConfigIfNeeded m w = Ret (m, w') /\ log w' = log w.
Proof using Type.
  intros Hst. destruct (Hst w) as (w' & E & Hlog). unfold updateConfigIfNeeded. rewrite E. exists w'. split; [|done]. by destruct m.
Qed.

Abbreviation loop := (fun fuel => upload_loop fuel (fun _ => false)).

Lemma upload_ready_critical k m : upload_ready m -> upload_ready (set_critical k m).
Proof using Type. done. Qed.
Lemma upload_ready_normal n m : upload_ready m -> upload_ready (set_normal n m).
Proof using Type. done. Qed.

(** One turn of the loop with an accepted upload. *)
Lemma critical_turn m m' w1 w2 k fuel w b : config_stable m -> hasEvents (criticalStorageBatch m).2 = true ->
  updateConfigIfNeeded m w = Ret (m, w1) -> send m (criticalStorageBatch m) w1 = Ret (k, w2, Success) -> m' = set_critical k m ->
  loop (S fuel) m w b = loop fuel m' w2 baseBackoffTime.
Proof using Type.
  intros Hst Hev Hu Hs ->. cbn [upload_loop]. unfold work_left. rewrite Hev, orb_true_r. cbn [negb andb]. unfold upload_once. rewrite Hu.
  cbn [mbind outcome_bind]. rewrite Hev, Hs. done.
Qed.
Lemma normal_turn m m' w1 w2 n fuel w b : config_stable m -> hasEvents (criticalStorageBatch m).2 = false ->
  hasEvents (normalStorageBatch m).2 = true ->
  updateConfigIfNeeded m w = Ret (m, w1) -> send m (normalStorageBatch m) w1 = Ret (n, w2, Success) -> m' = set_normal n m ->
  loop (S fuel) m w b = loop fuel m' w2 baseBackoffTime.
Proof using Type.
  intros Hst Hno Hev Hu Hs ->. cbn [upload_loop]. unfold work_left. rewrite Hev. cbn [negb andb orb]. unfold upload_once. rewrite Hu.
  cbn [mbind outcome_bind]. rewrite Hno, Hev, Hs. done.
Qed.

Lemma drain_critical len : forall lc m w b, (length lc <= len)%nat -> upload_ready m -> queued (criticalStorageBatch m) lc ->
  Forall (fits m) lc ->
  exists n k w' b' cs, (n <= S (length lc))%nat /\ (forall fuel, loop (n + fuel)%nat m w b = loop fuel (set_critical k m) w' b')
    /\ queued k [] /\ hasEvents k.2 = false /\ concat cs = lc /\ log w' = log w ++ map payload cs.
Proof using Haccept.
  induction len as [|len IH]; intros lc m w b Hlen Hr Hq Hf.
  all: destruct (config_stable_update m w) as (w1 & Hu & Hlog1); [by destruct Hr as (_ & _ & ? & _)|].
  all: destruct lc as [|l lc]; [clear Hlen|cbn in Hlen; try lia].
  1,2: destruct (hasEvents (criticalStorageBatch m).2) eqn:Hev;
    [|exists 0%nat, (criticalStorageBatch m), w, b, []; rewrite app_nil_r; split_and!; try done; [lia|by destruct m]].
  1,2: destruct (empty_batch m (criticalStorageBatch m) w1 Hr Hq) as (k & Es & Hk & Hno);
    exists 1%nat, k, w1, baseBackoffTime, []; rewrite app_nil_r; split_and!; try done;
    intros fuel; by apply (critical_turn m _ w1 w1 k); [destruct Hr as (_ & _ & ? & _)|..].
  apply Forall_cons_iff in Hf as [Hl Hf].
  destruct (accepted_batch m (criticalStorageBatch m) l lc w1 Hr Hq Hl) as (k & w2 & j & Es & Hj & Hk & Hlog2).
  destruct (IH (drop j (l :: lc)) (set_critical k m) w2 baseBackoffTime) as (n & k' & w' & b' & cs & Hn & Hloop & Hk' & Hno & Hcs & Hlog3).
  - rewrite length_drop. cbn in *. lia.
  - by apply upload_ready_critical.
  - done.
  - destruct j; [lia|]. cbn. by apply Forall_drop.
  - exists (S n), k', w', b', (take j (l :: lc) :: cs). split_and!; try done.
    + rewrite length_drop in Hn. cbn in *. lia.
    + intros fuel. cbn [Nat.add]. rewrite (critical_turn m (set_critical k m) w1 w2 k); [apply Hloop|..]; try done; [by destruct Hr as (_ & _ & ? & _)|].
      by apply (queued_hasEvents _ (l :: lc)).
    + cbn [concat]. by rewrite Hcs, take_drop.
    + rewrite Hlog3, Hlog2, Hlog1. cbn [map]. by rewrite <- app_assoc.
Qed.

Lemma drain_normal len : forall ln m w b, (length ln <= len)%nat -> upload_ready m -> queued (normalStorageBatch m) ln ->
  Forall (fits m) ln -> hasEvents (criticalStorageBatch m).2 = false ->
  exists n k w' b' ns, (n <= length ln)%nat /\ (forall fuel, loop (n + fuel)%nat m w b = loop fuel (set_normal k m) w' b')
    /\ queued k [] /\ concat ns = ln /\ log w' = log w ++ map payload ns.
Proof using Haccept.
  induction len as [|len IH]; intros ln m w b Hlen Hr Hq Hf Hno.
  all: destruct (config_stable_update m w) as (w1 & Hu & Hlog1); [by destruct Hr as (_ & _ & ? & _)|].
  all: destruct ln as [|l ln]; [clear Hlen|cbn in Hlen; try lia].
  1,2: exists 0%nat, (normalStorageBatch m), w, b, []; rewrite app_nil_r; split_and!; try done; by destruct m.
  apply Forall_cons_iff in Hf as [Hl Hf].
  destruct (accepted_batch m (normalStorageBatch m) l ln w1 Hr Hq Hl) as (k & w2 & j & Es & Hj & Hk & Hlog2).
  destruct (IH (drop j (l :: ln)) (set_normal k m) w2 baseBackoffTime) as (n & k' & w' & b' & ns & Hn & Hloop & Hk' & Hns & Hlog3).
  - rewrite length_drop. cbn in *. lia.
  - by apply upload_ready_normal.
  - done.
  - destruct j; [lia|]. cbn. by apply Forall_drop.
  - done.
  - exists (S n), k', w', b', (take j (l :: ln) :: ns). split_and!; try done.
    + rewrite length_drop in Hn. cbn in *. lia.
    + intros fuel. cbn [Nat.add]. rewrite (normal_turn m (set_normal k m) w1 w2 k); [apply Hloop|..]; try done; [by destruct Hr as (_ & _ & ? & _)|].
      by apply (queued_hasEvents _ (l :: ln)).
    + cbn [concat]. by rewrite Hns, take_drop.
    + rewrite Hlog3, Hlog2, Hlog1. cbn [map]. by rewrite <- app_assoc.
Qed.

(** C6. Against a server that answers 200, the main upload sends everything: within
    one turn per event and one more, it reaches a state in which both batches on
    disk are empty, and the bodies the server has received since, in order, are the critical events
    and then the normal ones, each exactly once and in the order they were added. *)
Theorem upload_drains (m : event_manager) (ln lc : list bytes) (w : W)
    (Hr : upload_ready m) (Hn : queued (normalStorageBatch m) ln) (Hc : queued (criticalStorageBatch m) lc)
    (Hfit : Forall (fits m) (lc ++ ln)) :
  exists turns m' w' b cs ns, (turns <= length lc + length ln + 1)%nat
    /\ (forall fuel, uploadTasks (turns + fuel) (fun _ => false) m w = upload_loop fuel (fun _ => false) m' w' b)
    /\ queued (normalStorageBatch m') [] /\ queued (criticalStorageBatch m') []
    /\ concat cs = lc /\ concat ns = ln /\ log w' = log w ++ map payload (cs ++ ns).
Proof using Haccept.
  apply Forall_app in Hfit as [Hfc Hfn].
  destruct (config_stable_update m w) as (w0 & Hu & Hlog0); [by destruct Hr as (_ & _ & ? & _)|].
  destruct (drain_critical (length lc) lc m w0 baseBackoffTime) as (n1 & k & w1 & b1 & cs & Hn1 & Hl1 & Hk & Hno & Hcs & Hlog1); [done..|].
  destruct (drain_normal (length ln) ln (set_critical k m) w1 b1) as (n2 & n & w2 & b2 & ns & Hn2 & Hl2 & Hnn & Hns & Hlog2); [done..|].
  exists (n1 + n2)%nat, (set_normal n (set_critical k m)), w2, b2, cs, ns. split_and!; try done; [lia| |].
  - intros fuel. unfold uploadTasks. rewrite Hu. cbn [mbind outcome_bind]. by rewrite <- Nat.add_assoc, Hl1, Hl2.
  - by rewrite Hlog2, Hlog1, Hlog0, map_app, app_assoc.
Qed.
End draining.

(** ** A server that fails *)
Section failing.
Context `{!Compressor.ZlibLaws zs}.
Context (Hfail : forall req w, exists w' res, http_send req w = (w', Some res) /\ status res <> 200 /\ status res <> 401
  /\ status res <> 429 /\ status res <> 503).
Definition nolog (w : W) : list bytes := [].

Lemma failing_list u el c data ms r w : zlib_ready (zs := zs) zfuel ms -> getData (E := jexn json) el = Ret data ->
  Z.of_nat (length data) <= ms ->
  exists w', send_list (json := json) (zs := zs) http_send now zfuel r u el c w = Ret (w', ErrorGeneric).
Proof using Hfail.
  intros Hz Hd Hl. pose proof (build_request_ok (json := json) now zfuel u el c w data ms Hz Hd Hl) as (w1 & h & req & E & _).
  destruct (Hfail req w1) as (w2 & res & Es & S1 & S2 & S3 & S4). exists w2.
  destruct r; cbn [send_list]; rewrite E; cbn [mbind outcome_bind]; rewrite Es; by rewrite !decide_False by (done || by intros [?|?]).
Qed.

Lemma failing_turn m w ln b fuel : upload_ready nolog m -> hasEvents (criticalStorageBatch m).2 = false ->
  queued (normalStorageBatch m) ln -> ln <> [] ->
  exists n w', queued n ln /\
    upload_loop (S fuel) (fun _ => false) m w b =
      b ← TelemetryConfig.count64 (b * 2); upload_loop fuel (fun _ => false) (set_normal n m) w' b.
Proof using Hfail.
  intros (Hz & _ & Hst & Hc & Hs) Hno Hq Hne. destruct (config_stable_update nolog m w Hst) as (w1 & Hu & _).
  destruct (queued_get _ ln (uploaderMaxEvents m) (uploaderMaxSize m) Hq Hne Hc)
    as (n & el & k & E & Hq1 & Hk & Hh & Hi & Hkc & Hks & _); [destruct Hz as (_ & ? & _); lia|].
  destruct (Hh (jexn json)) as (Hd & Hn & _).
  destruct (failing_list (em_uploader m) el (bool_decide (1 < Z.of_nat (length (take k ln)))) _ (uploaderMaxSize m) canRetry w1 Hz Hd Hks) as (w2 & Es).
  exists n, w2. split; [done|]. cbn [upload_loop]. pose proof (queued_hasEvents _ _ Hq Hne) as Hev. unfold work_left.
  rewrite Hev. cbn [negb andb orb]. unfold upload_once. rewrite Hu. cbn [mbind outcome_bind]. rewrite Hno, Hev.
  unfold send. cbn [sendEvents]. rewrite E. cbn [mbind outcome_bind]. rewrite Hn. cbn [mbind outcome_bind]. rewrite Es. done.
Qed.

(** A server that keeps failing makes the upload loop overflow: the delay doubles with
    every attempt, from five seconds, and as nothing waits for it, the 51st attempt in a row
    multiplies past the range of the clock's counter. *)
Theorem failing_server_overflows (m : event_manager) (ln : list bytes) (w : W) (fuel : nat)
    (Hr : upload_ready nolog m) (Hno : hasEvents (criticalStorageBatch m).2 = false)
    (Hq : queued (normalStorageBatch m) ln) (Hne : ln <> []) :
  uploadTasks (51 + fuel) (fun _ => false) m w = Undef.
Proof using Hfail.
  unfold uploadTasks. destruct (config_stable_update nolog m w) as (w1 & -> & _); [by destruct Hr as (_ & _ & ? & _)|].
  cbn [mbind outcome_bind]. assert (Hall : forall j m w, (j <= 50)%nat -> upload_ready nolog m -> hasEvents (criticalStorageBatch m).2 = false ->
    queued (normalStorageBatch m) ln -> upload_loop (S j + fuel) (fun _ => false) m w (5000 * 2 ^ (50 - Z.of_nat j)) = Undef).
  { clear m w w1 Hr Hno Hq. induction j as [|j IH]; intros m w Hj Hr Hno Hq.
    all: destruct (failing_turn m w ln (5000 * 2 ^ (50 - Z.of_nat (S j))) (S j + fuel) Hr Hno Hq Hne) as (n & w' & Hn & E) ||
      destruct (failing_turn m w ln (5000 * 2 ^ (50 - Z.of_nat 0)) (0 + fuel) Hr Hno Hq Hne) as (n & w' & Hn & E).
    - cbn [Nat.add] in E |- *. rewrite E. done.
    - cbn [Nat.add] in E |- *. rewrite E.
      assert (5000 * 2 ^ (50 - Z.of_nat (S j)) * 2 = 5000 * 2 ^ (50 - Z.of_nat j)) as ->.
      { replace (50 - Z.of_nat j) with (Z.succ (50 - Z.of_nat (S j))) by lia. rewrite Z.pow_succ_r by lia. lia. }
      unfold TelemetryConfig.count64. rewrite decide_True; [cbn [mbind outcome_bind]; apply IH; [lia|done..]|].
      assert (2 ^ (50 - Z.of_nat j) <= 2 ^ 50) by (apply Z.pow_le_mono_r; lia).
      assert (0 < 2 ^ (50 - Z.of_nat j)) by (apply Z.pow_pos_nonneg; lia). lia. }
  exact (Hall 50%nat m w1 ltac:(lia) Hr Hno Hq).
Qed.
End failing.
End EventManager.
Arguments event_manager json W : clear implicits.

(** ** Examples *)
Import Compressor.
Definition same_time (w : list bytes) : list bytes * Z := (w, 0).
Definition fail_all (req : HttpRequest) (w : list bytes) : list bytes * option HttpResponse := (w, Some (mkResponse 500 [] [])).

(** Two normal events in memory, one realtime event. *)
Definition crit_event : TreeJson := TObject [("flags"%string, TInt 514)].
Definition em : event_manager TreeJson (list bytes) :=
  mkManager (TelemetryConfig.mkManager None []) (mkFs ∅ [] true) 500 100 no_steps Serializer.session (over [TInt 1; TInt 2] 50) new_dir
    (mkMemory [crit_event] 50) TaskThread.new_task TaskThread.new_task.

Lemma em_queued : em_holds em [BufferedBatch.jline (TInt 1); BufferedBatch.jline (TInt 2)] [] [BufferedBatch.jline crit_event].
Proof.
  split_and!.
  - exists [], [BufferedBatch.jline (TInt 1); BufferedBatch.jline (TInt 2)]. split; [|done].
    apply over_holds; [|by repeat constructor|lia]. repeat constructor; apply jline_of; auto.
  - exact (fresh_queued (lit "d/") (lit "normal") (lit ".txt") 500 6400).
  - repeat constructor. eexists. split_and!; [done| |done]. apply (bool_decide_unpack _). by vm_compute.
Qed.

Lemma em_ready http_send log : upload_ready http_send same_time 101 log em.
Proof. split_and!; [apply store_ready; auto|constructor| |done..]. intros w. by exists w. Qed.

Lemma em_room line : Z.of_nat (length line) <= 6400 -> room em [BufferedBatch.jline (TInt 1); BufferedBatch.jline (TInt 2)] [] line.
Proof.
  intros Hl. assert (lsize [BufferedBatch.jline (TInt 1); BufferedBatch.jline (TInt 2)] < 1000) as Hs by (by vm_compute).
  unfold room. change (lsize []) with 0. split_and!; try lia; (split; [right; exact Hl|by vm_compute]).
Qed.

Lemma add_stores_witness : exists m', add Serializer.launch em = Ret m' /\
  em_holds m' [BufferedBatch.jline (TInt 1); BufferedBatch.jline (TInt 2)] []
    [BufferedBatch.jline crit_event; TreeJson.write (Serializer.createEnvelopeFor Serializer.launch Serializer.session).2 ++ crlf].
Proof.
  destruct (add_stores Serializer.launch em _ _ _ (TreeJson.write (Serializer.createEnvelopeFor Serializer.launch Serializer.session).2) em_queued)
    as (m' & E & Hm); [done| |apply em_room; by vm_compute|].
  - apply (bool_decide_unpack _). by vm_compute.
  - exists m'. split; [done|]. by apply Hm.
Defined.

Lemma realtime_failure_witness : exists m', realtime_failed em = Ret m' /\
  em_holds m' [BufferedBatch.jline (TInt 1); BufferedBatch.jline (TInt 2)] [BufferedBatch.jline crit_event] [].
Proof.
  destruct (realtime_failure_keeps_events em _ _ _ [true] em_queued) as (m' & E & Hm & _).
  - repeat constructor. by exists 514.
  - constructor; [split; [right|]; by vm_compute|constructor].
  - constructor; [split; [right|]; by vm_compute|constructor].
  - by vm_compute.
  - by vm_compute.
  - exists m'. split; [done|]. exact Hm.
Defined.

Lemma upload_drains_witness : exists turns m' w' b, (turns <= 3)%nat
  /\ (forall fuel, uploadTasks accept_all same_time at_epoch 101 (turns + fuel) (fun _ => false) em [] = upload_loop accept_all same_time at_epoch 101 fuel (fun _ => false) m' w' b)
  /\ queued (normalStorageBatch m') [].
Proof.
  destruct em_queued as (Hn & Hc & _).
  destruct (upload_drains accept_all same_time at_epoch 101 id (fun req w => ex_intro _ _ (ex_intro _ _ (conj eq_refl (conj eq_refl eq_refl))))
    em _ _ [] (em_ready _ _) Hn Hc) as (turns & m' & w' & b & cs & ns & Ht & Hl & Hq & _).
  - repeat constructor; by vm_compute.
  - by exists turns, m', w', b.
Defined.

Lemma failing_server_overflows_witness : uploadTasks fail_all same_time at_epoch 101 (51 + 0) (fun _ => false) em [] = Undef.
Proof.
  destruct em_queued as (Hn & _).
  apply (failing_server_overflows fail_all same_time at_epoch 101) with [BufferedBatch.jline (TInt 1); BufferedBatch.jline (TInt 2)];
    [|apply em_ready|done|done|done].
  intros req w. by eexists _, _.
Defined.
End EventManager.
