(* ===== verification/GamepadMapping.v ===== *)
(** * Gamepad mappings (linux-gamepad/src/gamepad_mapping.cpp)

    The parser of mapping strings and the conversion of axis values.  A [float] is a
    [spec_float] of the IEEE binary32 format. *)

From S2P Require Import Prelude CxxString.
From Stdlib Require Import ZArith Ascii Lia SpecFloat.
From stdpp Require Import base list strings numbers.

Open Scope Z_scope.

(** ** [float] *)
Definition fadd : spec_float -> spec_float -> spec_float := SFadd 24 128.
Definition fsub : spec_float -> spec_float -> spec_float := SFsub 24 128.
Definition fmul : spec_float -> spec_float -> spec_float := SFmul 24 128.
Definition fdiv : spec_float -> spec_float -> spec_float := SFdiv 24 128.
(** The float of an integer, rounded to nearest even. *)
Definition float_of_Z (z : Z) : spec_float := binary_normalize 24 128 z 0 false.
Definition f0 : spec_float := S754_zero false.
Definition f1 : spec_float := S754_finite false 8388608 (-23).
Definition fm1 : spec_float := S754_finite true 8388608 (-23).
Definition f2 : spec_float := S754_finite false 8388608 (-22).
Definition isnan (f : spec_float) : bool := match f with S754_nan => true | _ => false end.
(** [std::min] and [std::max] keep their first argument when the comparison is false. *)
Definition fmin (a b : spec_float) : spec_float := if SFltb b a then b else a.
Definition fmax (a b : spec_float) : spec_float := if SFltb a b then b else a.

Module GamepadMapping.

Inductive GamepadButton : Type :=
| A | B | X | Y | LB | RB | BACK | START | GUIDE | LEFT_STICK | RIGHT_STICK
| DPAD_UP | DPAD_RIGHT | DPAD_DOWN | DPAD_LEFT.
Inductive GamepadAxis : Type := LEFT_X | LEFT_Y | RIGHT_X | RIGHT_Y | LEFT_TRIGGER | RIGHT_TRIGGER.

#[export] Instance button_eq_dec : EqDecision GamepadButton.
Proof. solve_decision. Defined.
#[export] Instance axis_eq_dec : EqDecision GamepadAxis.
Proof. solve_decision. Defined.

Inductive MapFrom : Type :=
| from_button (id : Z)
| from_axis (id : Z) (min max : spec_float)
| from_hat (id : Z) (mask : Z).
Inductive MapTo : Type :=
| to_button (id : GamepadButton)
| to_axis (id : GamepadAxis) (min max : spec_float).
Record Mapping := mkMapping { from : MapFrom; to : MapTo }.

Record gamepad_mapping := mkGamepadMapping { guid : bytes; name : bytes; mappings : list Mapping }.

Definition createKnownButtonList : list (bytes * GamepadButton) :=
  [(lit "a", A); (lit "b", B); (lit "x", X); (lit "y", Y); (lit "leftshoulder", LB); (lit "rightshoulder", RB);
   (lit "back", BACK); (lit "start", START); (lit "guide", GUIDE); (lit "leftstick", LEFT_STICK); (lit "rightstick", RIGHT_STICK);
   (lit "dpup", DPAD_UP); (lit "dpright", DPAD_RIGHT); (lit "dpdown", DPAD_DOWN); (lit "dpleft", DPAD_LEFT)].
Definition createKnownAxisList : list (bytes * GamepadAxis) :=
  [(lit "leftx", LEFT_X); (lit "lefty", LEFT_Y); (lit "rightx", RIGHT_X); (lit "righty", RIGHT_Y);
   (lit "lefttrigger", LEFT_TRIGGER); (lit "righttrigger", RIGHT_TRIGGER)].
Fixpoint known {T} (l : list (bytes * T)) (k : bytes) : option T :=
  match l with [] => None | (k', v) :: l => if decide (k' = k) then Some v else known l k end.

(** ** Parsing *)
Notation result := (outcome exn).

Definition find_e (s : bytes) (c : ascii) (a : nat) : result nat :=
  match find_from [c] s a with
  | None => Throw (invalid_argument "Invalid mapping")
  | Some p => Ret p
  end.

(** The integer at [o], and the position after it; [s.data() + o] must be inside the string. *)
Definition parse_int (s : bytes) (o : nat) : result (Z * nat) :=
  if decide (length s < o)%nat then Undef
  else match strtol (drop o s) with
       | None => Throw (invalid_argument "Invalid integer")
       | Some (v, n) => Ret (wraps 32 v, (o + n)%nat)
       end.

(** A sign at [i]. *)
Definition read_mod (s : bytes) (i : nat) : result (option ascii * nat) :=
  c ← char_at s i;
  if decide (c = "-"%char \/ c = "+"%char) then Ret (Some c, S i) else Ret (None, i).

Definition is_trigger (a : GamepadAxis) : bool := match a with LEFT_TRIGGER | RIGHT_TRIGGER => true | _ => false end.

(** The range of an axis with a sign. *)
Definition mod_range (m : option ascii) : spec_float * spec_float :=
  match m with
  | None => (fm1, f1)
  | Some c => (f0, if decide (c = "+"%char) then f1 else fm1)
  end.

(** The target of an entry, none for an unknown name. *)
Definition parse_target (m : option ascii) (key : bytes) : option MapTo :=
  match known createKnownButtonList key with
  | Some b => Some (to_button b)
  | None =>
      match known createKnownAxisList key with
      | Some a => let '(lo, hi) := if is_trigger a then (f0, f1) else mod_range m in Some (to_axis a lo hi)
      | None => None
      end
  end.

(** An inverted source swaps the range of an axis target; the swap on a button target touches unused bytes. *)
Definition invert (t : MapTo) : MapTo := match t with to_axis a lo hi => to_axis a hi lo | t => t end.

(** The source of an entry, from [i] on. *)
Definition parse_source (s : bytes) (t : MapTo) (i : nat) : result (Mapping * nat) :=
  '(m, i) ← read_mod s i;
  c ← char_at s i;
  let '(inv, i) := if decide (c = "~"%char) then (true, S i) else (false, i) in
  c ← char_at s i;
  if decide (c = "b"%char) then
    '(id, i) ← parse_int s (S i); Ret (mkMapping (from_button id) t, i)
  else if decide (c = "a"%char) then
    '(id, i) ← parse_int s (S i);
    let '(lo, hi) := mod_range m in
    Ret (mkMapping (from_axis id lo hi) (if inv : bool then invert t else t), i)
  else if decide (c = "h"%char) then
    '(id, i) ← parse_int s (S i);
    c ← char_at s i;
    if decide (c = "."%char) then
      '(mask, i) ← parse_int s (S i); Ret (mkMapping (from_hat id mask) t, i)
    else Throw (invalid_argument "Invalid mapping: expected . after hat id")
  else Throw (invalid_argument "Invalid mapping: invalid map-to").

(** One turn of the loop, at the comma at [iof]: the entry, if its target is known, and the position to search the next comma from. *)
Definition parse_entry (s : bytes) (iof : nat) : result (option Mapping * nat) :=
  '(m, iof) ← read_mod s (S iof);
  iof2 ← find_e s ":"%char iof;
  key ← substr s iof (iof2 - iof);
  match parse_target m key with
  | None => Ret (None, S iof)
  | Some t => '(c, i) ← parse_source s t (S iof2); Ret (Some c, i)
  end.

Fixpoint parse_loop (fuel : nat) (s : bytes) (iof : option nat) (acc : list Mapping) : result (list Mapping) :=
  match fuel with
  | O => Diverge
  | S fuel =>
      match iof with
      | Some i =>
          if decide (S i < length s)%nat then
            '(c, j) ← parse_entry s i;
            parse_loop fuel s (find_from [","%char] s j) (acc ++ match c with Some c => [c] | None => [] end)
          else Ret acc
      | None => Ret acc
      end
  end.

(** The fuel is the length of the text and one. *)
Definition parse (s : bytes) : result gamepad_mapping :=
  iof ← find_e s ","%char 0;
  g ← substr s 0 iof;
  let iof := S iof in
  iof2 ← find_e s ","%char iof;
  n ← substr s iof (iof2 - iof);
  ms ← parse_loop (S (length s)) s (Some iof2) [];
  Ret (mkGamepadMapping g n ms).

(** ** Axis values *)
Definition isAxisActive (lo hi value : spec_float) : bool :=
  if SFltb lo hi then SFleb (fdiv (fadd lo hi) f2) value else SFleb value (fdiv (fadd lo hi) f2).

Definition getAxisTransformedValue (alo ahi dlo dhi value : spec_float) : spec_float :=
  if SFltb value (fmin alo ahi) || SFltb (fmax alo ahi) value then S754_nan
  else
    let value := fdiv (fsub value alo) (fsub ahi alo) in
    fadd dlo (fmul value (fsub dhi dlo)).

(** ** The parser stays inside the text and ends *)
Lemma char_at_le {E} s i : (i <= length s)%nat -> exists c, char_at (E := E) s i = Ret c /\ (c ≠ NUL -> (i < length s)%nat).
Proof.
  intros Hi. unfold char_at. destruct (s !! i) as [c|] eqn:El.
  - exists c. split; [done|]. intros _. by apply lookup_lt_Some in El.
  - apply lookup_ge_None_1 in El. rewrite decide_True by lia. by exists NUL.
Qed.

(** [m] returns a position between [i] and the end of [s], or throws. *)
Definition lands {T} (m : result (T * nat)) (i : nat) (s : bytes) : Prop :=
  match m with Ret (_, j) => (i <= j <= length s)%nat | Throw _ => True | _ => False end.

Lemma lands_bind {T U} (m : result (T * nat)) (f : T * nat -> result (U * nat)) i s :
  lands m i s -> (forall t j, (i <= j <= length s)%nat -> lands (f (t, j)) i s) -> lands (m ≫= f) i s.
Proof. destruct m as [[t j]| | |]; simpl; auto. Qed.

Lemma lands_weaken {T} (m : result (T * nat)) i j s : lands m j s -> (i <= j)%nat -> lands m i s.
Proof. destruct m as [[t k]| | |]; simpl; auto. lia. Qed.

Lemma parse_int_lands s o : (o <= length s)%nat -> lands (parse_int s o) o s.
Proof.
  intros Ho. unfold parse_int. rewrite decide_False by lia. destruct (strtol (drop o s)) as [[v n]|] eqn:E; [|done].
  apply strtol_le in E. rewrite length_drop in E. simpl. lia.
Qed.

Lemma read_mod_lands s i : (i <= length s)%nat -> lands (read_mod s i) i s.
Proof.
  intros Hi. unfold read_mod. destruct (char_at_le (E := exn) s i Hi) as (c & -> & Hc). simpl. case_decide as Hd; simpl; [|lia].
  assert (i < length s)%nat by (apply Hc; by destruct Hd as [-> | ->]). lia.
Qed.

Lemma parse_source_lands s t i : (i <= length s)%nat -> lands (parse_source s t i) i s.
Proof.
  intros Hi. unfold parse_source. apply lands_bind; [by apply read_mod_lands|]. intros m j [Hij Hj].
  destruct (char_at_le (E := exn) s j Hj) as (c & -> & Hc). cbn [mbind outcome_bind].
  assert (exists inv k, (if decide (c = "~"%char) then (true, S j) else (false, j)) = (inv, k) /\ (j <= k <= length s)%nat) as (inv & k & -> & Hk).
  { case_decide as Hd; eexists _, _; (split; [done|]); [|lia]. assert (j < length s)%nat by (apply Hc; by rewrite Hd). lia. }
  destruct (char_at_le (E := exn) s k) as (c' & -> & Hc'); [lia|]. cbn [mbind outcome_bind].
  assert (Hint : c' ≠ NUL -> lands (parse_int s (S k)) i s).
  { intros Hne. apply lands_weaken with (S k); [apply parse_int_lands|]; specialize (Hc' Hne); lia. }
  repeat case_decide; try done; subst c'; (apply lands_bind; [by apply Hint|]); intros id l Hl; try (simpl; lia).
  - destruct (mod_range m). simpl. lia.
  - destruct (char_at_le (E := exn) s l) as (c2 & -> & Hc2); [lia|]. cbn [mbind outcome_bind]. case_decide; [|done].
    apply lands_bind; [|intros; simpl; lia]. apply lands_weaken with (S l); [|lia]. apply parse_int_lands.
    assert (l < length s)%nat by (apply Hc2; by subst). lia.
Qed.

Lemma parse_entry_lands s i : (S i < length s)%nat -> lands (parse_entry s i) (S i) s.
Proof.
  intros Hi. unfold parse_entry. apply lands_bind; [apply read_mod_lands; lia|]. intros m j Hj.
  unfold find_e. destruct (find_from [":"%char] s j) as [p|] eqn:Ep; [|done]. apply find_from_bounds in Ep as [Hp _].
  cbn [mbind outcome_bind]. unfold substr. rewrite decide_False by lia. cbn [mbind outcome_bind].
  destruct (parse_target m _) as [t|]; [|simpl; lia].
  apply lands_bind; [|intros; simpl; lia]. apply lands_weaken with (S p); [apply parse_source_lands|]; lia.
Qed.

Lemma parse_loop_defined s : forall fuel iof acc, match iof with Some i => (i < length s < fuel + i)%nat | None => (0 < fuel)%nat end ->
  defined (parse_loop fuel s iof acc).
Proof.
  induction fuel as [|fuel IH]; intros iof acc Hf.
  - destruct iof as [i|]; lia.
  - cbn [parse_loop]. destruct iof as [i|]; [|done]. case_decide as Hi; [|done].
    pose proof (parse_entry_lands s i Hi) as Hl. destruct (parse_entry s i) as [[c j]| | |]; [|done..]. cbn in Hl |- *.
    apply IH. destruct (find_from _ s j) as [k|] eqn:Ek; [|lia]. apply find_from_bounds in Ek as [Hk _]. lia.
Qed.

(** Parsing any text at all ends without reading outside it: the result is a mapping
    or an exception. *)
Theorem parse_defined (s : bytes) : defined (parse s).
Proof.
  unfold parse, find_e. destruct (find_from [","%char] s 0) as [p|] eqn:Ep; [|done]. apply find_from_bounds in Ep as [Hp _].
  cbn [mbind outcome_bind]. unfold substr. rewrite decide_False by lia. cbn [mbind outcome_bind]. cbv zeta.
  destruct (find_from [","%char] s (S p)) as [q|] eqn:Eq; [|done]. apply find_from_bounds in Eq as [Hq _].
  cbn [mbind outcome_bind]. rewrite decide_False by lia. cbn [mbind outcome_bind].
  pose proof (parse_loop_defined s (S (length s)) (Some q) []) as Hd. destruct (parse_loop _ s (Some q) []); try done; apply Hd; lia.
Qed.

(** ** The format *)

(** A line is an id, a name and fields.  A field sets a button or an axis of the gamepad, with an optional sign
    for half of an axis, from a button, an axis (half of it with a sign, inverted with a tilde) or one direction
    of a hat; fields with other keys, as [platform:Linux], say nothing about the gamepad. *)
Inductive sign : Type := no_sign | plus | minus.
Inductive source : Type := src_button (id : Z) | src_axis (s : sign) (inv : bool) (id : Z) | src_hat (id mask : Z).
Inductive field : Type :=
| set_button (s : sign) (b : GamepadButton) (x : source)
| set_axis (s : sign) (a : GamepadAxis) (x : source)
| other (s : sign) (key value : bytes).

Definition button_name (b : GamepadButton) : bytes :=
  lit match b with
      | A => "a" | B => "b" | X => "x" | Y => "y" | LB => "leftshoulder" | RB => "rightshoulder"
      | BACK => "back" | START => "start" | GUIDE => "guide" | LEFT_STICK => "leftstick" | RIGHT_STICK => "rightstick"
      | DPAD_UP => "dpup" | DPAD_RIGHT => "dpright" | DPAD_DOWN => "dpdown" | DPAD_LEFT => "dpleft"
      end.
Definition axis_name (a : GamepadAxis) : bytes :=
  lit match a with
      | LEFT_X => "leftx" | LEFT_Y => "lefty" | RIGHT_X => "rightx" | RIGHT_Y => "righty"
      | LEFT_TRIGGER => "lefttrigger" | RIGHT_TRIGGER => "righttrigger"
      end.
Definition show_sign (s : sign) : bytes := lit match s with no_sign => "" | plus => "+" | minus => "-" end.
Definition show_source (x : source) : bytes :=
  match x with
  | src_button id => lit "b" ++ to_string id
  | src_axis s inv id => show_sign s ++ lit (if inv then "~" else "") ++ lit "a" ++ to_string id
  | src_hat id mask => lit "h" ++ to_string id ++ lit "." ++ to_string mask
  end.
Definition field_sign (f : field) : sign := match f with set_button s _ _ | set_axis s _ _ | other s _ _ => s end.
Definition field_key (f : field) : bytes := match f with set_button _ b _ => button_name b | set_axis _ a _ => axis_name a | other _ k _ => k end.
Definition field_value (f : field) : bytes := match f with set_button _ _ x | set_axis _ _ x => show_source x | other _ _ v => v end.
Definition show_field (f : field) : bytes := show_sign (field_sign f) ++ field_key f ++ lit ":" ++ field_value f.
Definition show_fields (l : list field) : bytes := concat (map (fun f => lit "," ++ show_field f) l).
(** The lines of the database, and those the launcher makes up itself (joystick_manager.cpp), end with a comma. *)
Definition line (g n : bytes) (l : list field) (comma : bool) : bytes := g ++ lit "," ++ n ++ show_fields l ++ lit (if comma then "," else "").

(** What a field means: the values that the ends of the range of its source stand for.  A trigger rests at 0 and
    goes to 1; another axis goes from -1 to 1, half of one from 0 to the end that its sign names; an inverted
    source swaps the ends of the axis that it sets. *)
Definition span (s : sign) : Z * Z := match s with no_sign => (-1, 1) | plus => (0, 1) | minus => (0, -1) end.
Definition axis_span (s : sign) (a : GamepadAxis) : Z * Z := match a with LEFT_TRIGGER | RIGHT_TRIGGER => (0, 1) | _ => span s end.
Definition read_from (x : source) : MapFrom :=
  match x with
  | src_button id => from_button id
  | src_axis s _ id => from_axis id (float_of_Z (fst (span s))) (float_of_Z (snd (span s)))
  | src_hat id mask => from_hat id mask
  end.
Definition inverted (x : source) : bool := match x with src_axis _ inv _ => inv | _ => false end.
Definition meaning (f : field) : option Mapping :=
  match f with
  | set_button _ b x => Some (mkMapping (read_from x) (to_button b))
  | set_axis s a x =>
      let '(lo, hi) := axis_span s a in
      Some (mkMapping (read_from x) (if inverted x then to_axis a (float_of_Z hi) (float_of_Z lo) else to_axis a (float_of_Z lo) (float_of_Z hi)))
  | other _ _ _ => None
  end.

Definition id_ok (z : Z) : Prop := 0 <= z < 2 ^ 31.
Definition source_ok (x : source) : Prop :=
  match x with src_button id | src_axis _ _ id => id_ok id | src_hat id mask => id_ok id /\ id_ok mask end.
(** A key is a word: it has no comma or colon and does not start with a sign. *)
Definition key_ok (k : bytes) : Prop :=
  ","%char ∉ k /\ ":"%char ∉ k /\ match k with [] => False | c :: _ => c ≠ "-"%char /\ c ≠ "+"%char end.
Definition field_ok (f : field) : Prop :=
  match f with
  | set_button _ _ x | set_axis _ _ x => source_ok x
  | other _ k v => key_ok k /\ (forall b, k <> button_name b) /\ (forall a, k <> axis_name a) /\ ","%char ∉ v
  end.

(** The names of the model are those of the format. *)
Definition sign_char (s : sign) : option ascii := match s with no_sign => None | plus => Some "+"%char | minus => Some "-"%char end.
Definition source_mapping (t : MapTo) (x : source) : Mapping := mkMapping (read_from x) (if inverted x then invert t else t).
Lemma mod_range_span s : mod_range (sign_char s) = (float_of_Z (fst (span s)), float_of_Z (snd (span s))).
Proof. by destruct s. Qed.
Lemma button_target s b : parse_target (sign_char s) (button_name b) = Some (to_button b).
Proof. by destruct b. Qed.
Lemma axis_target s a : parse_target (sign_char s) (axis_name a) = Some (to_axis a (float_of_Z (fst (axis_span s a))) (float_of_Z (snd (axis_span s a)))).
Proof. by destruct a, s. Qed.
Lemma known_none {T} (l : list (bytes * T)) k : Forall (fun p => k <> p.1) l -> known l k = None.
Proof. induction 1 as [|[k' v] l Hk _ IH]; cbn; [done|]. by rewrite decide_False by (intros ->; by apply Hk). Qed.
Lemma other_target s k : (forall b, k <> button_name b) -> (forall a, k <> axis_name a) -> parse_target (sign_char s) k = None.
Proof.
  intros Hb Ha. unfold parse_target. rewrite known_none, known_none; [done| |]; unfold createKnownAxisList, createKnownButtonList.
  - repeat apply Forall_cons; [apply (Ha LEFT_X)|apply (Ha LEFT_Y)|apply (Ha RIGHT_X)|apply (Ha RIGHT_Y)|apply (Ha LEFT_TRIGGER)|apply (Ha RIGHT_TRIGGER)|done].
  - repeat apply Forall_cons; [apply (Hb A)|apply (Hb B)|apply (Hb X)|apply (Hb Y)|apply (Hb LB)|apply (Hb RB)|apply (Hb BACK)|apply (Hb START)|apply (Hb GUIDE)|
      apply (Hb LEFT_STICK)|apply (Hb RIGHT_STICK)|apply (Hb DPAD_UP)|apply (Hb DPAD_RIGHT)|apply (Hb DPAD_DOWN)|apply (Hb DPAD_LEFT)|done].
Qed.
Lemma field_key_ok f : field_ok f -> key_ok (field_key f).
Proof. destruct f as [s b x|s a x|s k v]; cbn; [destruct b|destruct a|by intros [? _]]; intros _; split_and!; try (apply (bool_decide_unpack _); by vm_compute); done. Qed.

(** Positions are lengths of prefixes; what follows a number is not a digit. *)
Definition ends (r : bytes) : Prop := match r with c :: _ => digit c = None | [] => True end.

Lemma parse_int_at (p r : bytes) id : id_ok id -> ends r ->
  parse_int (p ++ to_string id ++ r) (length p) = Ret (id, length (p ++ to_string id)).
Proof.
  intros Hid Hr. unfold parse_int. rewrite decide_False by (rewrite length_app; lia). rewrite drop_app_length.
  rewrite strtol_to_string by (done || unfold id_ok in Hid; lia). unfold id_ok in Hid. rewrite wraps_small by lia. by rewrite length_app.
Qed.

Lemma read_mod_at (p r : bytes) sg : match r with c :: _ => c ≠ "-"%char /\ c ≠ "+"%char | [] => True end ->
  read_mod (p ++ show_sign sg ++ r) (length p) = Ret (sign_char sg, length (p ++ show_sign sg)).
Proof.
  intros Hr. unfold read_mod, show_sign. destruct sg; [change (lit "") with (@nil ascii)|change (lit "+") with ["+"%char]|change (lit "-") with ["-"%char]]; cbn [sign_char app].
  - rewrite app_nil_r. destruct r as [|c r].
    + rewrite app_nil_r, char_at_end. cbn [mbind outcome_bind]. by rewrite decide_False by (by intros [?|?]).
    + rewrite char_at_app. cbn [mbind outcome_bind]. rewrite decide_False by (destruct Hr; by intros [?|?]). done.
  - rewrite char_at_app. cbn [mbind outcome_bind]. rewrite decide_True by auto. by rewrite length_app, Nat.add_comm.
  - rewrite char_at_app. cbn [mbind outcome_bind]. rewrite decide_True by auto. by rewrite length_app, Nat.add_comm.
Qed.

Lemma parse_int_after (p r : bytes) c id : id_ok id -> ends r ->
  parse_int (p ++ c :: to_string id ++ r) (S (length p)) = Ret (id, length (p ++ c :: to_string id)).
Proof.
  intros Hid Hr. pose proof (parse_int_at (p ++ [c]) r id Hid Hr) as E. rewrite <- !app_assoc in E. cbn [app] in E.
  rewrite (length_app p [c]) in E. cbn [length] in E. by rewrite Nat.add_1_r in E.
Qed.

Lemma parse_source_button (p r : bytes) t id : id_ok id -> ends r ->
  parse_source (p ++ "b"%char :: to_string id ++ r) t (length p) = Ret (mkMapping (from_button id) t, length (p ++ "b"%char :: to_string id)).
Proof.
  intros Hid Hr. unfold parse_source. pose proof (read_mod_at p ("b"%char :: to_string id ++ r) no_sign ltac:(done)) as Hm.
  change (show_sign no_sign) with (@nil ascii) in Hm. cbn [sign_char app] in Hm. rewrite app_nil_r in Hm. rewrite Hm. cbn [mbind outcome_bind].
  rewrite char_at_app. cbn [mbind outcome_bind]. rewrite decide_False by done. rewrite char_at_app. cbn [mbind outcome_bind].
  rewrite decide_True by done. by rewrite parse_int_after.
Qed.

Lemma parse_source_hat (p r : bytes) t id mask : id_ok id -> id_ok mask -> ends r ->
  parse_source (p ++ "h"%char :: to_string id ++ "."%char :: to_string mask ++ r) t (length p) =
    Ret (mkMapping (from_hat id mask) t, length (p ++ "h"%char :: to_string id ++ "."%char :: to_string mask)).
Proof.
  intros Hid Hmask Hr. unfold parse_source.
  pose proof (read_mod_at p ("h"%char :: to_string id ++ "."%char :: to_string mask ++ r) no_sign ltac:(done)) as Hm.
  change (show_sign no_sign) with (@nil ascii) in Hm. cbn [sign_char app] in Hm. rewrite app_nil_r in Hm. rewrite Hm. cbn [mbind outcome_bind].
  rewrite char_at_app. cbn [mbind outcome_bind]. rewrite decide_False by done. rewrite char_at_app. cbn [mbind outcome_bind].
  rewrite !decide_False by done. rewrite decide_True by done. rewrite parse_int_after by done. cbn [mbind outcome_bind].
  replace (p ++ "h"%char :: to_string id ++ "."%char :: to_string mask ++ r)
    with ((p ++ "h"%char :: to_string id) ++ "."%char :: to_string mask ++ r) by (by rewrite <- app_assoc).
  rewrite char_at_app. cbn [mbind outcome_bind]. rewrite decide_True by done. rewrite parse_int_after by done. cbn [mbind outcome_bind].
  do 2 f_equal. by rewrite <- app_assoc.
Qed.

Lemma parse_source_axis (p r : bytes) t sg (inv : bool) id : id_ok id -> ends r ->
  let tilde := if inv then ["~"%char] else [] in
  parse_source (p ++ show_sign sg ++ tilde ++ "a"%char :: to_string id ++ r) t (length p) =
    Ret (source_mapping t (src_axis sg inv id), length (p ++ show_sign sg ++ tilde ++ "a"%char :: to_string id)).
Proof.
  intros Hid Hr tilde. unfold parse_source. rewrite (read_mod_at p _ sg) by (unfold tilde; by destruct inv). cbn [mbind outcome_bind].
  rewrite (app_assoc p), (app_assoc p). set (q := p ++ show_sign sg).
  assert (Hgo : forall q', ('(id, i) ← parse_int (q' ++ "a"%char :: to_string id ++ r) (S (length q'));
     let '(lo, hi) := mod_range (sign_char sg) in Ret (mkMapping (from_axis id lo hi) (if inv then invert t else t), i))
     = (Ret (source_mapping t (src_axis sg inv id), length (q' ++ "a"%char :: to_string id)) : result _)).
  { intros q'. rewrite parse_int_after by done. cbn [mbind outcome_bind]. by rewrite mod_range_span. }
  unfold tilde. destruct inv; cbn [app].
  - rewrite char_at_app. cbn [mbind outcome_bind]. rewrite decide_True by done. cbv beta iota.
    replace (S (length q)) with (length (q ++ ["~"%char])) by (rewrite length_app; cbn; lia).
    replace (q ++ "~"%char :: "a"%char :: to_string id ++ r) with ((q ++ ["~"%char]) ++ "a"%char :: to_string id ++ r) by (by rewrite <- app_assoc).
    rewrite char_at_app. cbn [mbind outcome_bind]. rewrite decide_False, decide_True by done. rewrite Hgo. do 2 f_equal. by rewrite <- app_assoc.
  - rewrite char_at_app. cbn [mbind outcome_bind]. rewrite decide_False by done. cbv beta iota.
    rewrite char_at_app. cbn [mbind outcome_bind]. rewrite decide_False, decide_True by done. by rewrite Hgo.
Qed.

Lemma parse_source_at (p r : bytes) t x : source_ok x -> ends r ->
  parse_source (p ++ show_source x ++ r) t (length p) = Ret (source_mapping t x, length (p ++ show_source x)).
Proof.
  intros Hx Hr. destruct x as [id|sg inv id|id mask]; cbn [show_source].
  - by apply parse_source_button.
  - rewrite <- !app_assoc. pose proof (parse_source_axis p r t sg inv id Hx Hr). by destruct inv.
  - rewrite <- !app_assoc. destruct Hx. by apply parse_source_hat.
Qed.

Lemma to_string_no_comma z : 0 <= z -> ","%char ∉ to_string z.
Proof.
  intros Hz Hc. destruct (to_string_digits z Hz) as [_ Hd]. rewrite Forall_forall in Hd. apply list_elem_of_In in Hc.
  destruct (Hd _ Hc) as [d Hx]. done.
Qed.

Lemma show_source_no_comma x : source_ok x -> ","%char ∉ show_source x.
Proof.
  intros Hx. destruct x as [id|sg inv id|id mask]; cbn [show_source source_ok] in *; unfold id_ok in *; rewrite !not_elem_of_app.
  - split; [apply (bool_decide_unpack _); by vm_compute|apply to_string_no_comma; lia].
  - split_and!; [|destruct inv| |apply to_string_no_comma; lia]; [destruct sg|..]; apply (bool_decide_unpack _); by vm_compute.
  - split_and!; try (apply to_string_no_comma; lia); apply (bool_decide_unpack _); by vm_compute.
Qed.

Lemma field_value_no_comma f : field_ok f -> ","%char ∉ field_value f.
Proof. destruct f; cbn; [apply show_source_no_comma..|by intros (_ & _ & _ & ?)]. Qed.
(** What the parser makes of a field whose key is a target. *)
Lemma parse_value_at (p r : bytes) f t x : field_value f = show_source x -> source_ok x -> ends r -> parse_source (p ++ field_value f ++ r) t (length p) = Ret (source_mapping t x, length (p ++ field_value f)).
Proof. intros ->. apply parse_source_at. Qed.
Lemma field_target f : field_ok f ->
  match f with
  | set_button _ _ x | set_axis _ _ x => exists t, parse_target (sign_char (field_sign f)) (field_key f) = Some t /\ meaning f = Some (source_mapping t x) /\ source_ok x
  | other _ _ _ => parse_target (sign_char (field_sign f)) (field_key f) = None /\ meaning f = None
  end.
Proof.
  destruct f as [s b x|s a x|s k v]; cbn.
  - intros Hx. rewrite button_target. eexists. split_and!; [done| |done]. unfold source_mapping. by destruct (inverted x).
  - intros Hx. rewrite axis_target. eexists. split_and!; [done| |done]. unfold source_mapping. destruct (axis_span s a). by destruct (inverted x).
  - intros (_ & Hb & Ha & _). by rewrite other_target.
Qed.

(** After a field the search for the next comma starts inside it, past its own comma. *)
Lemma parse_entry_at (p r : bytes) f : field_ok f -> ends r ->
  exists q1 q2, parse_entry (p ++ ","%char :: show_field f ++ r) (length p) = Ret (meaning f, length q1)
    /\ p ++ ","%char :: show_field f = q1 ++ q2 /\ ","%char ∉ q2.
Proof.
  intros Hf Hr. destruct (field_key_ok f Hf) as (Hcomma & Hcolon & Hhead). unfold parse_entry, show_field. rewrite <- !app_assoc.
  set (tail := field_key f ++ lit ":" ++ field_value f ++ r).
  replace (p ++ ","%char :: show_sign (field_sign f) ++ tail) with ((p ++ [","%char]) ++ show_sign (field_sign f) ++ tail) by (by rewrite <- app_assoc).
  replace (S (length p)) with (length (p ++ [","%char])) by (rewrite length_app; cbn; lia).
  rewrite read_mod_at by (unfold tail; destruct (field_key f); [done|exact Hhead]). cbn [mbind outcome_bind].
  set (q := (p ++ [","%char]) ++ show_sign (field_sign f)). rewrite (app_assoc (p ++ _)). fold q. unfold tail.
  change (lit ":" ++ field_value f ++ r) with (":"%char :: field_value f ++ r).
  unfold find_e. rewrite find_from_skip by done. cbn [mbind outcome_bind]. unfold substr.
  rewrite decide_False by (rewrite length_app; lia). cbn [mbind outcome_bind]. rewrite drop_app_length.
  replace (length q + length (field_key f) - length q)%nat with (length (field_key f)) by lia. rewrite take_app_length.
  replace (p ++ ","%char :: show_sign (field_sign f) ++ field_key f ++ lit ":" ++ field_value f)
    with (q ++ field_key f ++ ":"%char :: field_value f) by (unfold q; by rewrite <- !app_assoc).
  assert (forall t x, parse_target (sign_char (field_sign f)) (field_key f) = Some t -> field_value f = show_source x -> source_ok x -> meaning f = Some (source_mapping t x) ->
    exists q1 q2, ('(c, i) ← parse_source (q ++ field_key f ++ ":"%char :: field_value f ++ r) t (S (length q + length (field_key f))); Ret (Some c, i)) = (Ret (meaning f, length q1) : result _) /\
      q ++ field_key f ++ ":"%char :: field_value f = q1 ++ q2 /\ ","%char ∉ q2) as Htarget.
  { intros t x _ Hv Hx ->. replace (q ++ field_key f ++ ":"%char :: field_value f ++ r) with ((q ++ field_key f ++ [":"%char]) ++ field_value f ++ r) by (by rewrite <- !app_assoc).
    replace (S (length q + length (field_key f))) with (length (q ++ field_key f ++ [":"%char])) by (rewrite !length_app; cbn; lia).
    rewrite (parse_value_at _ _ f t x) by done. cbn [mbind outcome_bind]. eexists _, []. split_and!; [done| |apply not_elem_of_nil]. by rewrite app_nil_r, <- !app_assoc. }
  pose proof (field_target f Hf) as Ht. destruct f as [s b x|s a x|s k v]; [destruct Ht as (t & Et & Em & Hx); rewrite Et; by apply (Htarget t x)..|].
  destruct Ht as [Et Em]. rewrite Et, Em. cbn [field_key field_value] in *. destruct k as [|c k]; [done|]. exists (q ++ [c]), (k ++ ":"%char :: v). split_and!.
  - rewrite length_app. cbn. by rewrite Nat.add_1_r.
  - by rewrite <- app_assoc.
  - apply not_elem_of_cons in Hcomma as [_ Hcomma]. rewrite not_elem_of_app, not_elem_of_cons. split_and!; [done|done|apply Hf].
Qed.

(** The fields from [p] on, and the comma behind them, if any. *)
Definition first_comma (p : bytes) (l : list field) (comma : bool) : option nat := match l with [] => if comma then Some (length p) else None | _ => Some (length p) end.
Lemma next_comma (p q1 q2 : bytes) (l : list field) (comma : bool) : p = q1 ++ q2 -> ","%char ∉ q2 ->
  find_from [","%char] (p ++ show_fields l ++ lit (if comma then "," else "")) (length q1) = first_comma p l comma.
Proof.
  intros -> Hq. rewrite <- app_assoc. destruct l as [|f l]; cbn [first_comma show_fields map concat app]; [destruct comma|]; cbn [app].
  - rewrite length_app. by apply find_from_skip.
  - rewrite app_nil_r. by apply find_from_none.
  - rewrite length_app. by apply find_from_skip.
Qed.
Lemma parse_loop_at (comma : bool) l : Forall field_ok l -> forall fuel p acc, (length l < fuel)%nat ->
  parse_loop fuel (p ++ show_fields l ++ lit (if comma then "," else "")) (first_comma p l comma) acc = Ret (acc ++ omap meaning l).
Proof.
  induction 1 as [|f l Hf Hl IH]; intros fuel p acc Hfuel; (destruct fuel as [|fuel]; [simpl in Hfuel; lia|]).
  - cbn [show_fields map concat app omap list_omap first_comma]. rewrite app_nil_r. destruct comma; cbn [parse_loop]; [|done]. rewrite decide_False; [done|]. rewrite length_app. cbn. lia.
  - set (rest := show_fields l ++ lit (if comma then "," else "")).
    replace (p ++ show_fields (f :: l) ++ lit (if comma then "," else "")) with (p ++ ","%char :: show_field f ++ rest) by (unfold rest, show_fields; cbn; by rewrite <- app_assoc).
    cbn [parse_loop first_comma]. assert (ends rest) as Hrest by (unfold rest; destruct l; [by destruct comma|done]).
    destruct (parse_entry_at p rest f Hf Hrest) as (q1 & q2 & E & Eq & Hq2). rewrite decide_True.
    2: { rewrite length_app. cbn [length]. destruct (field_key_ok f Hf) as (_ & _ & Hk). unfold show_field. rewrite !length_app. destruct (field_key f); [done|]. cbn. lia. }
    rewrite E. cbn [mbind outcome_bind]. cbv beta iota.
    replace (p ++ ","%char :: show_field f ++ rest) with ((p ++ ","%char :: show_field f) ++ rest) by (by rewrite <- app_assoc).
    unfold rest. rewrite (next_comma _ q1 q2) by done. rewrite IH by (cbn in Hfuel; lia). f_equal. rewrite <- app_assoc. f_equal. cbn [omap list_omap]. by destruct (meaning f).
Qed.
Lemma show_fields_length l : (length l <= length (show_fields l))%nat.
Proof.
  induction l as [|f l IH]; [done|]. unfold show_fields in *. cbn [map concat length]. rewrite length_app.
  change (lit "," ++ show_field f) with (","%char :: show_field f). cbn [length]. lia.
Qed.


(** ** Examples *)
Definition pad_fields : list field :=
  [set_button no_sign A (src_button 0); set_button no_sign DPAD_UP (src_hat 0 1); set_axis plus RIGHT_X (src_axis minus true 3);
   set_axis no_sign LEFT_TRIGGER (src_axis no_sign false 2); other no_sign (lit "platform") (lit "Linux")].

Lemma pad_fields_ok : Forall field_ok pad_fields.
Proof. repeat constructor; try done; try (by intros []); apply (bool_decide_unpack _); by vm_compute. Qed.

End GamepadMapping.
