(* ===== verification/Joystick.v ===== *)
(** * Joysticks of Linux (linux-gamepad/src/linux_joystick.cpp)

    The key and axis tables of a device and the translation of its events.  What the kernel
    and libevdev say of a device are inputs. *)

From S2P Require Import Prelude GamepadMapping.
From Stdlib Require Import ZArith Ascii Lia SpecFloat.
From stdpp Require Import base list strings numbers.

Open Scope Z_scope.

Module Joystick.

(** From <linux/input-event-codes.h>. *)
Definition KEY_CNT : nat := 768.
Definition ABS_CNT : nat := 64.
Definition BTN_JOYSTICK : nat := 288.
Definition ABS_HAT0X : nat := 16.
Definition ABS_HAT3Y : nat := 23.
Definition EV_KEY : Z := 1.
Definition EV_ABS : Z := 3.

Definition HAT_COUNT : nat := (ABS_HAT3Y + 1 - ABS_HAT0X) / 2.
Definition isHat (index : nat) : bool := bool_decide (ABS_HAT0X <= index <= ABS_HAT3Y)%nat.

Record AxisInfo := mkAxis { index : Z; amin : Z; amax : Z; flat : Z; fuzz : Z }.

Record linux_joystick := mkJoystick {
  buttons : list Z;
  axis : list AxisInfo;
  buttonValues : list bool;
  axisValues : list spec_float;
  hatValues : list Z
}.

(** A device: the results of the two [ioctl]s (a number of bytes, negative on failure, and
    the bits), and the axis data of libevdev. *)
Record device := mkDevice {
  key_len : Z; keys : nat -> bool;
  abs_len : Z; abs_bits : nat -> bool;
  abs_info : nat -> option (Z * Z * Z * Z)
}.

Notation result := (outcome exn).

(** A write to an array of a fixed size. *)
Definition write_at {T} (l : list T) (i : nat) (x : T) : result (list T) :=
  if decide (i < length l)%nat then Ret (<[i := x]> l) else Undef.
Definition read_at {T} (l : list T) (i : Z) : result T :=
  if decide (0 <= i) then match l !! Z.to_nat i with Some x => Ret x | None => Undef end else Undef.

(** ** The constructor *)

(** The loop over the key bits: [i] runs over [n] values. *)
Fixpoint number_keys (n : nat) (len : nat) (bits : nat -> bool) (i : nat) (next : Z) (b : list Z) : result (list Z) :=
  match n with
  | O => Ret b
  | S n =>
      if bits (i mod len)%nat
      then b ← write_at b i next; number_keys n len bits (S i) (next + 1) b
      else number_keys n len bits (S i) next b
  end.

(** The loop over the axes; an axis without data keeps what was in memory. *)
Fixpoint number_axes (n : nat) (d : device) (i : nat) (next : Z) (a : list AxisInfo) : result (list AxisInfo) :=
  match n with
  | O => Ret a
  | S n =>
      if abs_bits d i then
        match abs_info d i with
        | None => number_axes n d (S i) next a
        | Some (lo, hi, fl, fz) =>
            let '(id, next) := if isHat i then (0, next) else (next, next + 1) in
            a ← write_at a i (mkAxis id lo hi fl fz);
            number_axes n d (S i) next a
        end
      else
        old ← read_at a (Z.of_nat i);
        a ← write_at a i (mkAxis (-1) (amin old) (amax old) (flat old) (fuzz old));
        number_axes n d (S i) next a
  end.

Definition set_index (i : nat) (id : Z) (a : list AxisInfo) : list AxisInfo :=
  alter (fun x => mkAxis id (amin x) (amax x) (flat x) (fuzz x)) i a.

(** The loop over the pairs of hat axes. *)
Fixpoint number_hats (l : list nat) (next : Z) (a : list AxisInfo) : result (list AxisInfo) :=
  match l with
  | [] => Ret a
  | i :: l =>
      x ← read_at a (Z.of_nat i);
      y ← read_at a (Z.of_nat (S i));
      if decide (index x = -1 /\ index y = -1) then number_hats l next a
      else number_hats l (next + 1) (set_index i next (set_index (S i) next a))
  end.

(** [mem_axis] and [mem_hats] are the contents of the arrays that are not initialised. *)
Definition new_joystick (d : device) (mem_axis : list AxisInfo) (mem_hats : list Z) : result linux_joystick :=
  if decide (key_len d < 0) then Throw (runtime_error "Failed to get joystick keys")
  else
    let len := Z.to_nat (key_len d * 8) in
    b ← number_keys len len (keys d) BTN_JOYSTICK 0 (repeat (-1) KEY_CNT);
    if decide (abs_len d < 0) then Throw (runtime_error "Failed to get joystick abs")
    else
      a ← number_axes (Z.to_nat (abs_len d * 8)) d 0 0 mem_axis;
      a ← number_hats [16; 18; 20; 22]%nat 0 a;
      Ret (mkJoystick b a (repeat false KEY_CNT) (repeat f0 ABS_CNT) mem_hats).

(** ** Events *)
Record input_event := mkEvent { ev_type : Z; code : nat; ev_value : Z }.

Inductive report : Type :=
| onJoystickButton (button : Z) (state : bool)
| onJoystickHat (hat : Z) (value : Z)
| onJoystickAxis (axis : Z) (value : spec_float).

(** A result of [int] arithmetic. *)
Definition int32 (z : Z) : result Z := if decide (- 2 ^ 31 <= z < 2 ^ 31) then Ret z else Undef.

Definition clamp (v : spec_float) : spec_float := fmin (fmax v fm1) f1.

Definition axis_value (a : AxisInfo) (value : Z) : result spec_float :=
  s ← int32 (amin a + amax a);
  let mid := Z.quot s 2 in
  iv ← int32 (value - mid);
  v ← (if decide (0 <= iv)
       then d ← int32 (amax a - mid); Ret (fdiv (float_of_Z iv) (float_of_Z d))
       else d ← int32 (amin a - mid); Ret (fdiv (SFopp (float_of_Z iv)) (float_of_Z d)));
  ab ← int32 (Z.abs iv);
  let v := if decide (ab < flat a) then f0 else v in
  Ret (clamp v).

Definition hat_value (y : bool) (old value : Z) : Z :=
  let v := Z.land old (Z.lnot (if y then 5 else 10)) in
  if decide (value = 0) then v
  else if y then Z.lor v (if decide (0 < value) then 4 else 1)
  else Z.lor v (if decide (0 < value) then 2 else 8).

(** One event of [poll]; a release or press overwrites the key table where it means the state. *)
Definition handle_event (e : input_event) (j : linux_joystick) : result (linux_joystick * list report) :=
  if decide (ev_type e = EV_KEY) then
    if decide (KEY_CNT <= code e)%nat then Ret (j, [])
    else
      btn ← read_at (buttons j) (Z.of_nat (code e));
      if decide (btn = -1) then Ret (j, [])
      else
        let v := bool_decide (ev_value e <> 0) in
        if decide (btn < 0) then Undef
        else
          b ← write_at (buttons j) (Z.to_nat btn) (if v then 1 else 0);
          Ret (mkJoystick b (axis j) (buttonValues j) (axisValues j) (hatValues j), [onJoystickButton btn v])
  else if decide (ev_type e = EV_ABS) then
    if isHat (code e) then
      a ← read_at (axis j) (Z.of_nat (code e));
      if decide (index a = -1) then Ret (j, [])
      else
        old ← read_at (hatValues j) (index a);
        let v := hat_value (Nat.odd (code e)) old (ev_value e) in
        h ← write_at (hatValues j) (Z.to_nat (index a)) v;
        Ret (mkJoystick (buttons j) (axis j) (buttonValues j) (axisValues j) h, [onJoystickHat (index a) v])
    else if decide (ABS_CNT <= code e)%nat then Ret (j, [])
    else
      a ← read_at (axis j) (Z.of_nat (code e));
      if decide (index a = -1) then Ret (j, [])
      else
        v ← axis_value a (ev_value e);
        if decide (index a < 0) then Undef
        else
          x ← write_at (axisValues j) (Z.to_nat (index a)) v;
          Ret (mkJoystick (buttons j) (axis j) (buttonValues j) x (hatValues j), [onJoystickAxis (index a) v])
  else Ret (j, []).

(** [poll]: the events up to the first [EAGAIN] or error. *)
Fixpoint poll (events : list input_event) (j : linux_joystick) : result (linux_joystick * list report) :=
  match events with
  | [] => Ret (j, [])
  | e :: events =>
      '(j, r) ← handle_event e j;
      '(j, r') ← poll events j;
      Ret (j, r ++ r')
  end.

(** ** State queries *)
Definition getButton (j : linux_joystick) (i : Z) : bool :=
  if decide (0 <= i < Z.of_nat KEY_CNT) then default false (buttonValues j !! Z.to_nat i) else false.
Definition getAxis (j : linux_joystick) (i : Z) : spec_float :=
  if decide (0 <= i < Z.of_nat ABS_CNT) then default f0 (axisValues j !! Z.to_nat i) else f0.
Definition getHat (j : linux_joystick) (i : Z) : Z :=
  if decide (0 <= i < Z.of_nat HAT_COUNT) then default 0 (hatValues j !! Z.to_nat i) else 0.

(** The GUID of a device: the low byte of each number first, two hexadecimal digits each. *)
Definition hex_digit (z : Z) : ascii := nth (Z.to_nat z) (lit "0123456789abcdef") NUL.
Definition writeLEShort (v : Z) : bytes :=
  let v := wrapu 16 v in
  [hex_digit (v / 16 mod 16); hex_digit (v mod 16); hex_digit (v / 4096 mod 16); hex_digit (v / 256 mod 16)].
Definition getGUID (bustype vendor product version : Z) : bytes :=
  writeLEShort bustype ++ writeLEShort 0 ++ writeLEShort vendor ++ writeLEShort 0 ++
  writeLEShort product ++ writeLEShort 0 ++ writeLEShort version ++ writeLEShort 0.

(** ** Reported values *)

(** Swapping the operands of a comparison swaps its result. *)
Lemma SFcompare_swap x y : SFcompare y x = CompOpp <$> SFcompare x y.
Proof.
  destruct x as [[]|[]| |[] m e], y as [[]|[]| |[] m' e']; try done; cbn [SFcompare fmap option_fmap option_map]; f_equal;
    rewrite (Z.compare_antisym e e'); change (Pos.compare_cont Eq m' m) with (Pos.compare m' m);
    change (Pos.compare_cont Eq m m') with (Pos.compare m m'); rewrite (Pos.compare_antisym m m');
    by destruct (e ?= e'), (m ?= m')%positive.
Qed.

Definition in_unit_range (v : spec_float) : bool := SFleb fm1 v && SFleb v f1.

(** The clamped value is between -1 and 1, or it is not a number. *)
Lemma clamp_range v : isnan (clamp v) = true \/ in_unit_range (clamp v) = true.
Proof.
  unfold clamp, fmax, fmin, in_unit_range. destruct (SFltb v fm1) eqn:E1; [by right|].
  destruct (SFltb f1 v) eqn:E2; [by right|]. unfold SFltb, SFleb in *.
  rewrite (SFcompare_swap v fm1), (SFcompare_swap v f1) in *.
  destruct (isnan v) eqn:Hn; [by left|right].
  assert (Hc : forall b, isnan b = false -> exists c, SFcompare v b = Some c).
  { intros b Hb. destruct v, b; try done; by eexists. }
  destruct (Hc fm1 eq_refl) as [c1 Ec1], (Hc f1 eq_refl) as [c2 Ec2]. rewrite Ec1, Ec2 in *. by destruct c1, c2.
Qed.

Definition report_ok (r : report) : Prop :=
  match r with onJoystickAxis _ v => isnan v = true \/ in_unit_range v = true | _ => True end.

Lemma bind_inv {E T U} (m : outcome E T) (f : T -> outcome E U) u : m ≫= f = Ret u -> exists t, m = Ret t /\ f t = Ret u.
Proof. apply bind_ret_inv. Qed.

(** What an event leaves alone. *)
Lemma handle_event_keeps e j j' r : handle_event e j = Ret (j', r) ->
  buttonValues j' = buttonValues j /\ axis j' = axis j /\ Forall report_ok r.
Proof.
  unfold handle_event. intros E. repeat case_decide; repeat (case_match; try done);
    repeat match goal with
      | H : Ret _ = Ret _ |- _ => injection H as <- <-
      | H : _ ≫= _ = Ret _ |- _ => apply bind_inv in H as (? & ? & H)
      | H : (if decide _ then _ else _) = Ret _ |- _ => case_decide
      end; try done; (split_and!; [done|done|]);
    (apply List.Forall_nil || (apply List.Forall_cons; [try exact I|apply List.Forall_nil])).
  match goal with H : axis_value _ _ = Ret _ |- _ => unfold axis_value in H;
    repeat (apply bind_inv in H as (? & ? & H)); injection H as <- end.
  apply clamp_range.
Qed.

(** Whatever a device sends and whatever ranges it announces, the values of axes that are
    reported are between -1 and 1 or not a number; and the state of buttons that can be
    queried never changes, because presses are written to the key table instead. *)
Theorem poll_reports (events : list input_event) (j j' : linux_joystick) (r : list report) (Hp : poll events j = Ret (j', r)) :
  Forall report_ok r /\ (forall i, getButton j' i = getButton j i).
Proof.
  revert j r Hp. induction events as [|e events IH]; intros j r Hp; cbn [poll] in Hp.
  - injection Hp as <- <-. by split.
  - apply bind_inv in Hp as ([j1 r1] & E1 & Hp). apply bind_inv in Hp as ([j2 r2] & E2 & Hp). injection Hp as <- <-.
    apply handle_event_keeps in E1 as (Hb & _ & Hr1). destruct (IH _ _ E2) as [Hr2 Hg]. split; [by apply Forall_app|].
    intros i. rewrite Hg. unfold getButton. by rewrite Hb.
Qed.

Lemma number_keys_overflow bits len : forall n i next b k, length b = KEY_CNT -> (KEY_CNT <= k)%nat -> (i <= k < i + n)%nat ->
  bits (k mod len)%nat = true -> number_keys n len bits i next b = Undef.
Proof.
  induction n as [|n IH]; intros i next b k Hb Hk Hi Hbit; [lia|]. cbn [number_keys].
  destruct (bits (i mod len)%nat) eqn:Ei.
  - unfold write_at. case_decide; [|done]. cbn [mbind outcome_bind]. apply (IH _ _ _ k); [by rewrite length_insert|done|lia|done].
  - apply (IH _ _ _ k); [done|done| |done]. destruct (decide (i = k)) as [->|]; [congruence|lia].
Qed.

(** The constructor writes past the end of its key table for a device that has any key
    below the joystick buttons (such as a media key): the key's number plus the size of the
    bit set is used as the index. *)
Theorem low_key_overflows (d : device) (mem_axis : list AxisInfo) (mem_hats : list Z) (k : nat)
    (Hlen : key_len d * 8 = Z.of_nat KEY_CNT) (Hk : (k < BTN_JOYSTICK)%nat) (Hbit : keys d k = true) :
  new_joystick d mem_axis mem_hats = Undef.
Proof.
  unfold new_joystick. rewrite decide_False by lia. rewrite Hlen, Nat2Z.id.
  rewrite (number_keys_overflow (keys d) KEY_CNT KEY_CNT BTN_JOYSTICK 0 _ (k + KEY_CNT)); [done|..].
  - apply repeat_length.
  - lia.
  - unfold BTN_JOYSTICK, KEY_CNT in *. lia.
  - rewrite <- (Nat.mul_1_l KEY_CNT) at 1. rewrite Nat.Div0.mod_add, Nat.mod_small; [done|]. unfold BTN_JOYSTICK, KEY_CNT in *. lia.
Qed.

(** ** Examples *)
Definition pad : device := mkDevice 96 (fun k => bool_decide (k = 304%nat)) 8 (fun k => bool_decide (k <= 1 \/ k = 16)%nat)
  (fun k => if decide (k = 16%nat) then Some (-1, 1, 0, 0) else Some (0, 255, 15, 0)).
Definition pad_with_media_key : device := mkDevice 96 (fun k => bool_decide (k = 304%nat \/ k = 164%nat)) 8 (fun _ => false) (fun _ => None).
Definition garbage : list AxisInfo := repeat (mkAxis 0 0 0 0 0) ABS_CNT.
Definition pad_events : list input_event :=
  [mkEvent EV_KEY 304 1; mkEvent EV_ABS 0 255; mkEvent EV_ABS 1 128; mkEvent EV_ABS 16 (-1); mkEvent EV_KEY 304 0].
Definition reports_of (d : device) : option (linux_joystick * list report) :=
  match new_joystick d garbage [0; 0; 0; 0] with
  | Ret j => match poll pad_events j with Ret x => Some x | _ => None end
  | _ => None
  end.

Lemma pad_reports : snd <$> reports_of pad =
  Some [onJoystickButton 0 true; onJoystickAxis 0 f1; onJoystickAxis 1 f0; onJoystickHat 0 8; onJoystickButton 0 false].
Proof. by vm_compute. Qed.

Definition pad_state : linux_joystick :=
  match new_joystick pad garbage [0; 0; 0; 0] with Ret j => j | _ => mkJoystick [] [] [] [] [] end.
Definition returned {T} (m : result T) : bool := match m with Ret _ => true | _ => false end.

Lemma poll_reports_witness : exists j' r, poll pad_events pad_state = Ret (j', r) /\ Forall report_ok r.
Proof.
  assert (returned (poll pad_events pad_state) = true) as Hr by (by vm_compute).
  destruct (poll pad_events pad_state) as [[j' r]| | |] eqn:Ep; [|done..]. exists j', r. split; [done|].
  by apply (poll_reports pad_events pad_state j' r).
Defined.

Lemma low_key_overflows_witness : new_joystick pad_with_media_key garbage [0; 0; 0; 0] = Undef.
Proof.
  apply (low_key_overflows pad_with_media_key garbage [0; 0; 0; 0] 164); [by vm_compute| |by vm_compute]. apply Nat.ltb_lt. by vm_compute.
Defined.
End Joystick.
