(* ===== verification/GamepadManager.v ===== *)
(** * Gamepads (linux-gamepad/src/gamepad_manager.cpp, gamepad.cpp, include/gamepad/callback_list.h,
      game-window/src/joystick_manager_linux_gamepad.cpp)

    Joysticks are numbered by the pointers to them.  A gamepad refers to its mapping by the key
    of the table, as the reference in the code does: a mapping that is replaced changes for the
    gamepads that use it. *)

From S2P Require Import Prelude CxxString GamepadMapping.
From Stdlib Require Import ZArith Ascii Lia SpecFloat.
From stdpp Require Import base list gmap strings numbers.

Open Scope Z_scope.

(** ** Lists of callbacks *)
Module Callbacks.
Section Callbacks.
Context {T : Type}.

Record callback_list := mkCallbacks { callbacks : list (Z * T); nextId : Z }.
Definition no_callbacks : callback_list := mkCallbacks [] 0.
Definition add (t : T) (l : callback_list) : callback_list * Z :=
  (mkCallbacks (callbacks l ++ [(nextId l, t)]) (nextId l + 1), nextId l).

(** The first entry with the id is erased. *)
Fixpoint erase (id : Z) (l : list (Z * T)) : list (Z * T) :=
  match l with
  | [] => []
  | e :: l => if decide (e.1 = id) then l else e :: erase id l
  end.
Definition remove (id : Z) (l : callback_list) : callback_list := mkCallbacks (erase id (callbacks l)) (nextId l).

(** [operator()]: the functions called, in order. *)
Definition called (l : callback_list) : list T := snd <$> callbacks l.

(** The ids in use are distinct and below the next one. *)
Definition callbacks_wf (l : callback_list) : Prop := NoDup (callbacks l).*1 /\ Forall (fun e => e.1 < nextId l) (callbacks l).

Lemma add_wf t l : callbacks_wf l -> callbacks_wf (add t l).1.
Proof.
  intros [Hn Hf]. split; cbn [add fst callbacks nextId].
  - rewrite fmap_app. apply NoDup_ListNoDup, List.NoDup_app; [by apply NoDup_ListNoDup|by apply NoDup_ListNoDup, NoDup_singleton|].
    intros i Hi [<-|[]]. apply in_map_iff in Hi as ([j t'] & E & Hin). rewrite List.Forall_forall in Hf. specialize (Hf _ Hin). simpl in *. lia.
  - apply Forall_app. split; [eapply List.Forall_impl; [|exact Hf]; simpl; lia|]. constructor; [simpl; lia|constructor].
Qed.

(** A callback that is added and then removed leaves the others as they were. *)
Lemma remove_add t l : callbacks_wf l -> callbacks (remove (add t l).2 (add t l).1) = callbacks l.
Proof.
  intros [_ Hf]. cbn [remove add fst snd callbacks]. induction (callbacks l) as [|e cs IH]; simpl; [by rewrite decide_True|].
  apply Forall_cons_iff in Hf as [He Hf]. rewrite decide_False by lia. f_equal. by apply IH.
Qed.
End Callbacks.
End Callbacks.

Module GamepadManager.
Import GamepadMapping.

(** ** The manager *)

(** [None] refers to the default mapping. *)
Record gamepad := mkGamepad { gp_index : Z; gp_mapping : option bytes }.

Record gamepad_manager := mkManager {
  mapping_table : gmap bytes gamepad_mapping;
  takenGamepadIds : list Z;
  takenGamepadLowId : Z;
  gamepads : gmap nat gamepad
}.
Definition new_manager : gamepad_manager := mkManager ∅ [] 0 ∅.

Inductive gp_event : Type :=
| onGamepadConnected (gp : Z)
| onGamepadDisconnected (gp : Z)
| onGamepadButton (gp : Z) (btn : GamepadButton) (pressed : bool)
| onGamepadAxis (gp : Z) (axis : GamepadAxis) (value : spec_float).

Definition addMapping (m : gamepad_mapping) (g : gamepad_manager) : gamepad_manager :=
  mkManager (<[guid m := m]> (mapping_table g)) (takenGamepadIds g) (takenGamepadLowId g) (gamepads g).
Definition addMapping_text (s : bytes) (g : gamepad_manager) : outcome exn gamepad_manager :=
  m ← parse s; Ret (addMapping m g).

(** The ids are a sorted set; the loop follows the run of ids that starts at [p + 1]. *)
Fixpoint run_up (p : Z) (l : list Z) : Z :=
  match l with
  | x :: l => if decide (x = p + 1) then run_up x l else p
  | [] => p
  end.
Definition takeGamepadId (g : gamepad_manager) : gamepad_manager * Z :=
  let low := takenGamepadLowId g in
  let p := run_up (low - 1) (filter (fun x => low <= x) (takenGamepadIds g)) in
  (mkManager (mapping_table g) (takenGamepadIds g) (if decide (p + 1 = low) then low + 1 else low) (gamepads g), p + 1).
Definition putGamepadIdBack (i : Z) (g : gamepad_manager) : gamepad_manager :=
  mkManager (mapping_table g) (filter (fun x => x <> i) (takenGamepadIds g))
    (if decide (i < takenGamepadLowId g) then i else takenGamepadLowId g) (gamepads g).

Definition getMapping (js_guid : bytes) (g : gamepad_manager) : option bytes :=
  match mapping_table g !! js_guid with Some _ => Some js_guid | None => None end.
Definition mappings_of (gp : gamepad) (g : gamepad_manager) : list Mapping :=
  match gp_mapping gp with
  | Some k => match mapping_table g !! k with Some m => mappings m | None => [] end
  | None => []
  end.

Definition set_gamepads (m : gmap nat gamepad) (g : gamepad_manager) : gamepad_manager :=
  mkManager (mapping_table g) (takenGamepadIds g) (takenGamepadLowId g) m.

Definition onJoystickConnected (js : nat) (js_guid : bytes) (g : gamepad_manager) : gamepad_manager * list gp_event :=
  let '(g, gpi) := takeGamepadId g in
  let gp := mkGamepad gpi (getMapping js_guid g) in
  (set_gamepads (<[js := gp]> (gamepads g)) g, [onGamepadConnected gpi]).

(** The gamepad pointer is dereferenced. *)
Definition onJoystickDisconnected (js : nat) (g : gamepad_manager) : outcome exn (gamepad_manager * list gp_event) :=
  match gamepads g !! js with
  | None => Undef
  | Some gp =>
      let g := putGamepadIdBack (gp_index gp) g in
      Ret (set_gamepads (delete js (gamepads g)) g, [onGamepadDisconnected (gp_index gp)])
  end.

(** What a mapping reports for a button, an axis and a hat. *)
Definition report_switch (i : Z) (t : MapTo) (state : bool) : list gp_event :=
  match t with
  | to_button b => [onGamepadButton i b state]
  | to_axis a lo hi => [onGamepadAxis i a (if state then hi else lo)]
  end.
Definition report_button (i button : Z) (state : bool) (m : Mapping) : list gp_event :=
  match from m with
  | from_button id => if decide (id = button) then report_switch i (to m) state else []
  | _ => []
  end.
Definition report_axis (i axis : Z) (value : spec_float) (m : Mapping) : list gp_event :=
  match from m with
  | from_axis id lo hi =>
      if decide (id = axis) then
        match to m with
        | to_button b => [onGamepadButton i b (isAxisActive lo hi value)]
        | to_axis a dlo dhi =>
            let v := getAxisTransformedValue lo hi dlo dhi value in
            if isnan v then [] else [onGamepadAxis i a v]
        end
      else []
  | _ => []
  end.
Definition report_hat (i hat value : Z) (m : Mapping) : list gp_event :=
  match from m with
  | from_hat id mask => if decide (id = hat) then report_switch i (to m) (negb (Z.land value mask =? 0)) else []
  | _ => []
  end.

Definition onJoystick (f : Z -> Mapping -> list gp_event) (js : nat) (g : gamepad_manager) : list gp_event :=
  match gamepads g !! js with
  | None => []
  | Some gp => concat (map (f (gp_index gp)) (mappings_of gp g))
  end.
Definition onJoystickButton (js : nat) (button : Z) (state : bool) : gamepad_manager -> list gp_event :=
  onJoystick (fun i => report_button i button state) js.
Definition onJoystickAxis (js : nat) (axis : Z) (value : spec_float) : gamepad_manager -> list gp_event :=
  onJoystick (fun i => report_axis i axis value) js.
Definition onJoystickHat (js : nat) (hat value : Z) : gamepad_manager -> list gp_event :=
  onJoystick (fun i => report_hat i hat value) js.

(** ** State of a gamepad, from the state of its joystick *)
Record joystick_state := mkState { js_button : Z -> bool; js_axis : Z -> spec_float; js_hat : Z -> Z }.

Definition button_pressed (s : joystick_state) (index : GamepadButton) (m : Mapping) : bool :=
  match to m with
  | to_button b =>
      if decide (b = index) then
        match from m with
        | from_button id => js_button s id
        | from_axis id lo hi => isAxisActive lo hi (js_axis s id)
        | from_hat id mask => negb (Z.land (js_hat s id) mask =? 0)
        end
      else false
  | _ => false
  end.
Definition getButton (s : joystick_state) (index : GamepadButton) (l : list Mapping) : bool := existsb (button_pressed s index) l.

(** The first mapping that yields a value. *)
Fixpoint getAxis (s : joystick_state) (index : GamepadAxis) (l : list Mapping) : spec_float :=
  match l with
  | [] => f0
  | m :: l =>
      match to m with
      | to_axis a dlo dhi =>
          if decide (a = index) then
            match from m with
            | from_button id => if js_button s id then dhi else getAxis s index l
            | from_axis id lo hi =>
                let v := getAxisTransformedValue lo hi dlo dhi (js_axis s id) in
                if isnan v then getAxis s index l else v
            | from_hat id mask => if negb (Z.land (js_hat s id) mask =? 0) then dhi else getAxis s index l
            end
          else getAxis s index l
      | _ => getAxis s index l
      end
  end.

(** ** Loading mappings (LinuxGamepadJoystickManager) *)
Definition newline : ascii := to_char 10.

(** [getline] and [addMapping] with the errors caught; comments and empty lines are skipped. *)
Definition load_line (line : bytes) (g : gamepad_manager) : gamepad_manager :=
  match line with
  | [] => g
  | c :: _ => if decide (c = "#"%char) then g
              else match addMapping_text line g with Ret g' => g' | _ => g end
  end.
Definition loadMappingsFromFile (lines : list bytes) (g : gamepad_manager) : gamepad_manager := foldl (fun g l => load_line l g) g lines.

(** The texts [loadMappings] passes on: [substr(i, j)] takes a length, not an end; [npos] takes the rest. *)
Fixpoint mapping_texts (fuel : nat) (content : bytes) (i : nat) : list bytes :=
  match fuel with
  | O => []
  | S fuel =>
      if decide (i < length content)%nat then
        match find_from [newline] content i with
        | None => [drop i content]
        | Some j => take j (drop i content) :: mapping_texts fuel content (S j)
        end
      else []
  end.
Fixpoint add_all (l : list bytes) (g : gamepad_manager) : outcome exn gamepad_manager :=
  match l with
  | [] => Ret g
  | s :: l => g ← addMapping_text s g; add_all l g
  end.
Definition loadMappings (content : bytes) (g : gamepad_manager) : outcome exn gamepad_manager :=
  add_all (mapping_texts (S (length content)) content 0) g.

(** ** Windows *)

(** A gamepad is its pointer and its index.  [warnOnMissingGamePadMapping] is left out: no build
    file defines ENABLE_FEATURE_VERBOSE_JOYSTICKS, without which it changes nothing.  The devices
    that [initialize] enumerates arrive as calls of [onGamepadState]. *)
Record window_manager := mkWindows { windows : list nat; focusedWindow : option nat; known_gamepads : list (nat * Z) }.

Definition addWindow (win : nat) (s : window_manager) : window_manager * list (nat * Z * bool) :=
  (mkWindows (win :: filter (fun x => x <> win) (windows s)) (focusedWindow s) (known_gamepads s),
   map (fun gp => (win, gp.2, true)) (known_gamepads s)).
Definition removeWindow (win : nat) (s : window_manager) : window_manager :=
  mkWindows (filter (fun x => x <> win) (windows s)) (focusedWindow s) (known_gamepads s).
Definition onWindowFocused (win : nat) (focused : bool) (s : window_manager) : window_manager :=
  mkWindows (windows s) (if focused then Some win else if decide (focusedWindow s = Some win) then None else focusedWindow s) (known_gamepads s).
Definition onGamepadState (gp : nat * Z) (connected : bool) (s : window_manager) : window_manager * list (nat * Z * bool) :=
  let others := filter (fun x => x.1 <> gp.1) (known_gamepads s) in
  (mkWindows (windows s) (focusedWindow s) (if connected then gp :: others else others),
   map (fun win => (win, gp.2, connected)) (windows s)).
(** Buttons and axes go to the window with the focus. *)
Definition deliver (e : gp_event) (s : window_manager) : option (nat * gp_event) :=
  match e, focusedWindow s with
  | (onGamepadButton _ _ _ | onGamepadAxis _ _ _), Some win => Some (win, e)
  | _, _ => None
  end.

(** ** Ids *)

(** Ids of gamepads are not unique: the set of taken ids is never filled.  When the
    gamepad with id [i] is disconnected while the one with [i + 1] stays, the second of the
    next two gamepads gets the id [i + 1] again. *)
Theorem reconnect_duplicates_id (g g1 : gamepad_manager) (ev : list gp_event) (js js2 a b : nat) (ga gb : bytes) (i : Z) (m m2 : option bytes)
    (Htaken : takenGamepadIds g = []) (H1 : gamepads g !! js = Some (mkGamepad i m)) (H2 : gamepads g !! js2 = Some (mkGamepad (i + 1) m2))
    (Hlow : i + 1 < takenGamepadLowId g) (Hne : js <> js2) (Ha : a <> js2) (Hb : b <> js2)
    (Hd : onJoystickDisconnected js g = Ret (g1, ev)) :
  let g3 := (onJoystickConnected b gb (onJoystickConnected a ga g1).1).1 in
  exists mb, gamepads g3 !! b = Some (mkGamepad (i + 1) mb) /\ gamepads g3 !! js2 = Some (mkGamepad (i + 1) m2).
Proof.
  unfold onJoystickDisconnected in Hd. rewrite H1 in Hd. injection Hd as <- _. cbn [gp_index].
  unfold onJoystickConnected, takeGamepadId, putGamepadIdBack, set_gamepads. cbn. rewrite Htaken. cbn.
  rewrite (decide_True (P := i < takenGamepadLowId g)) by lia. rewrite !(decide_True (P := _ - 1 + 1 = _)) by lia. cbn.
  eexists. rewrite lookup_insert_eq. replace (i + 1 - 1 + 1) with (i + 1) by lia. split; [done|].
  rewrite !lookup_insert_ne by done. by rewrite lookup_delete_ne.
Qed.

Lemma find_newline (p l r : bytes) : newline ∉ l -> find_from [newline] (p ++ l ++ newline :: r) (length p) = Some (length p + length l)%nat.
Proof. apply find_from_skip. Qed.

(** [loadMappings] reads past the end of its lines: the text it parses for the second
    line goes on with as many characters of the third line as the first line is long. *)
Theorem loadMappings_runs_on (l1 l2 r : bytes) (H1 : newline ∉ l1) (H2 : newline ∉ l2) (Hne : l1 <> []) (Hne2 : l2 <> []) :
  exists ts, mapping_texts (S (length (l1 ++ newline :: l2 ++ newline :: r))) (l1 ++ newline :: l2 ++ newline :: r) 0
    = l1 :: (l2 ++ newline :: take (length l1) r) :: ts.
Proof.
  assert (Ep : l1 ++ newline :: l2 ++ newline :: r = (l1 ++ [newline]) ++ l2 ++ newline :: r) by (by rewrite <- app_assoc).
  pose proof (find_newline [] l1 (l2 ++ newline :: r) H1) as F1. cbn [app length] in F1. rewrite Nat.add_0_l in F1.
  pose proof (find_newline (l1 ++ [newline]) l2 r H2) as F2. rewrite <- Ep in F2.
  assert (T1 : take (length l1) (l1 ++ newline :: l2 ++ newline :: r) = l1) by apply take_app_length.
  assert (T2 : drop (length (l1 ++ [newline])) (l1 ++ newline :: l2 ++ newline :: r) = l2 ++ newline :: r) by (rewrite Ep; apply drop_app_length).
  assert (Hlen : (1 < length (l1 ++ [newline]) < length (l1 ++ newline :: l2 ++ newline :: r))%nat).
  { rewrite Ep, (length_app (l1 ++ _)), !length_app. destruct l1; [done|]. cbn. lia. }
  assert (El : S (length l1) = length (l1 ++ [newline])) by (rewrite length_app; cbn; lia).
  set (s := l1 ++ newline :: l2 ++ newline :: r) in *. clearbody s. destruct (length s) as [|n] eqn:En; [lia|].
  destruct n as [|n]; [lia|]. cbn [mapping_texts]. rewrite decide_True by lia. rewrite F1, drop_0, T1, El.
  rewrite decide_True by lia. rewrite F2, T2.
  eexists. do 2 f_equal. rewrite take_app_ge by (rewrite length_app; cbn; lia). f_equal.
  replace (length (l1 ++ [newline]) + length l2 - length l2)%nat with (S (length l1)) by (rewrite length_app; cbn; lia). done.
Qed.

(** ** Examples *)
Definition three_pads : gamepad_manager :=
  (onJoystickConnected 3 [] (onJoystickConnected 2 [] (onJoystickConnected 1 [] new_manager).1).1).1.

Lemma reconnect_duplicates_id_witness : exists g1 ev mb, onJoystickDisconnected 1 three_pads = Ret (g1, ev) /\
  gamepads (onJoystickConnected 5 [] (onJoystickConnected 4 [] g1).1).1 !! 5%nat = Some (mkGamepad 1 mb) /\
  gamepads (onJoystickConnected 5 [] (onJoystickConnected 4 [] g1).1).1 !! 2%nat = Some (mkGamepad 1 None).
Proof.
  destruct (onJoystickDisconnected 1 three_pads) as [[g1 ev]| | |] eqn:E; [|done..].
  destruct (reconnect_duplicates_id three_pads g1 ev 1 2 4 5 [] [] 0 None None) as (mb & Hb & H2); try done.
  by exists g1, ev, mb.
Defined.

Lemma loadMappings_runs_on_witness : exists ts,
  mapping_texts 12 (lit "ab" ++ newline :: lit "cd" ++ newline :: lit "efgh") 0 = lit "ab" :: (lit "cd" ++ newline :: lit "ef") :: ts.
Proof.
  apply (loadMappings_runs_on (lit "ab") (lit "cd") (lit "efgh")); try done; apply (bool_decide_unpack _); by vm_compute.
Defined.
End GamepadManager.
