(* ===== verification/GameWindow.v ===== *)
(** * Keys, buttons and actions of a game window

    The enumerations of [game-window/include/key_mapping.h] and
    [game-window/include/game_window.h].  Codes of keys and gamepad buttons are
    integers, because the sources cast integers to the enumerations. *)

From S2P Require Import Prelude.
From Stdlib Require Import ZArith.
From stdpp Require Import base decidable countable.

Open Scope Z_scope.

Definition KeyCode : Set := Z.
Module KeyCode.
Definition UNKNOWN : KeyCode := 0.
Definition BACK : KeyCode := 4.
Definition BACKSPACE : KeyCode := 8.
Definition TAB : KeyCode := 9.
Definition ENTER : KeyCode := 13.
Definition LEFT_SHIFT : KeyCode := 16.
Definition RIGHT_SHIFT : KeyCode := Z.lor 16 256.
Definition LEFT_CTRL : KeyCode := 17.
Definition RIGHT_CTRL : KeyCode := Z.lor 17 256.
Definition PAUSE : KeyCode := 19.
Definition CAPS_LOCK : KeyCode := 20.
Definition ESCAPE : KeyCode := 27.
Definition SPACE : KeyCode := 32.
Definition PAGE_UP : KeyCode := 33.
Definition PAGE_DOWN : KeyCode := 34.
Definition END : KeyCode := 35.
Definition HOME : KeyCode := 36.
Definition LEFT : KeyCode := 37.
Definition UP : KeyCode := 38.
Definition RIGHT : KeyCode := 39.
Definition DOWN : KeyCode := 40.
Definition INSERT : KeyCode := 45.
Definition DELETE : KeyCode := 46.
Definition NUM_0 : KeyCode := 48.
Definition NUM_9 : KeyCode := 57.
Definition A_ : KeyCode := 65.
Definition C_ : KeyCode := 67.
Definition Z_ : KeyCode := 90.
Definition FN1 : KeyCode := 112.
Definition FN11 : KeyCode := 122.
Definition FN12 : KeyCode := 123.
Definition NUM_LOCK : KeyCode := 144.
Definition SCROLL_LOCK : KeyCode := 145.
Definition SEMICOLON : KeyCode := 186.
Definition EQUAL : KeyCode := 187.
Definition COMMA : KeyCode := 188.
Definition MINUS : KeyCode := 189.
Definition PERIOD : KeyCode := 190.
Definition SLASH : KeyCode := 191.
Definition GRAVE : KeyCode := 192.
Definition LEFT_BRACKET : KeyCode := 219.
Definition BACKSLASH : KeyCode := 220.
Definition RIGHT_BRACKET : KeyCode := 221.
Definition APOSTROPHE : KeyCode := 222.
Definition MENU : KeyCode := 255.
Definition LEFT_SUPER : KeyCode := 1.
Definition RIGHT_SUPER : KeyCode := Z.lor 1 256.
Definition LEFT_ALT : KeyCode := 2.
Definition RIGHT_ALT : KeyCode := Z.lor 2 256.
End KeyCode.

Inductive KeyAction : Type := PRESS | REPEAT | RELEASE.
Inductive MouseButtonAction : Type := MOUSE_PRESS | MOUSE_RELEASE.

#[global] Instance KeyAction_eq_dec : EqDecision KeyAction.
Proof. solve_decision. Defined.
#[global] Instance MouseButtonAction_eq_dec : EqDecision MouseButtonAction.
Proof. solve_decision. Defined.
