(* ===== verification/TextInput.v ===== *)
(** * Text input (mcpelauncher-client)

    [UTF8Util] and [TextInputHandler] of [mcpelauncher-client/src]: the text being
    edited, its cursor in bytes and in characters, and the selection.  An
    abstract editor of characters specifies it; the refinement holds for texts of
    the characters [UTF8Util] knows, those of one to three bytes. *)

From S2P Require Import Prelude CxxString GameWindow.
From Stdlib Require Import ZArith Ascii Lia.
From stdpp Require Import base list strings numbers.

Open Scope Z_scope.

Module TextInput.

(** ** UTF8Util *)
Definition getCharByteSize (c : ascii) : nat :=
  if decide (Z.land (uchar c) 240 = 224) then 3
  else if decide (Z.land (uchar c) 224 = 192) then 2
  else 1.

(** The loop takes at most one turn per byte. *)
Fixpoint length_loop (fuel : nat) (str : bytes) (len i ret : nat) : outcome exn nat :=
  match fuel with
  | O => Diverge
  | S fuel =>
      if decide (i < len)%nat then
        c ← char_at str i;
        length_loop fuel str len (i + getCharByteSize c) (S ret)
      else Ret ret
  end.
Definition getLength (str : bytes) (len : nat) : outcome exn nat := length_loop (S len) str len 0 0.

(** ** TextInputHandler

    Positions in the text are below the size of a string in memory; the count of
    characters is a [size_t] that is incremented and decremented on its own. *)
Record handler := mkHandler {
  enabled : bool; multiline : bool; shiftPressed : bool;
  currentText : bytes;
  currentTextPosition : nat;
  currentTextPositionUTF : Z;
  currentTextCopyPosition : nat
}.
Definition new_handler : handler := mkHandler false false false [] 0 0 0.

Definition with_text (t : bytes) (p : nat) (u : Z) (c : nat) (h : handler) : handler :=
  mkHandler (enabled h) (multiline h) (shiftPressed h) t p u c.

Definition update (text : bytes) (h : handler) : outcome exn handler :=
  let p := length text in
  u ← getLength text p;
  Ret (with_text text p (Z.of_nat u) p h).
Definition enable (text : bytes) (ml : bool) (h : handler) : outcome exn handler :=
  update text (mkHandler true ml (shiftPressed h) (currentText h) (currentTextPosition h) (currentTextPositionUTF h) (currentTextCopyPosition h)).
Definition disable (h : handler) : handler := mkHandler false (multiline h) (shiftPressed h) [] 0 0 0.

(** [(c & 0b11000000) == 0b10000000] *)
Definition continuation (c : ascii) : bool := Z.land (uchar c) 192 =? 128.

(** [while (k > 0 && continuation(text[k])) k--] *)
Fixpoint back (t : bytes) (k : nat) : outcome exn nat :=
  match k with
  | O => Ret O
  | S k' => c ← char_at t k; if continuation c then back t k' else Ret k
  end.
(** [while (k < text.size() && continuation(text[k])) k++] *)
Fixpoint forward (fuel : nat) (t : bytes) (k : nat) : outcome exn nat :=
  match fuel with
  | O => Diverge
  | S fuel =>
      if decide (k < length t)%nat then
        c ← char_at t k; if continuation c then forward fuel t (S k) else Ret k
      else Ret k
  end.
Definition step_forward (t : bytes) (k : nat) : outcome exn nat := forward (S (length t)) t k.

(** The erased range has to be a range of the text. *)
Definition erase_range (t : bytes) (a b : nat) : outcome exn bytes :=
  if decide (a <= b <= length t)%nat then Ret (take a t ++ drop b t) else Undef.

(** [currentTextPosition - 1] is computed in [size_t]. *)
Definition backspace (h : handler) : outcome exn (handler * list bytes) :=
  if decide (currentTextPositionUTF h <= 0) then Ret (h, []) else
  let u := wrapu 64 (currentTextPositionUTF h - 1) in
  let deleteStart := wrapu 64 (Z.of_nat (currentTextPosition h) - 1) in
  if decide (Z.of_nat (length (currentText h)) < deleteStart) then Undef else
  d ← back (currentText h) (Z.to_nat deleteStart);
  t ← erase_range (currentText h) d (currentTextPosition h);
  Ret (with_text t d u d h, [t]).

Definition delete_key (h : handler) : outcome exn (handler * list bytes) :=
  let p := currentTextPosition h in
  if decide (length (currentText h) <= p)%nat then Ret (h, []) else
  e ← step_forward (currentText h) (S p);
  t ← erase_range (currentText h) p e;
  Ret (with_text t p (currentTextPositionUTF h) p h, [t]).

Definition insert_text (text : bytes) (h : handler) : outcome exn (handler * list bytes) :=
  let p := currentTextPosition h in
  if decide (length (currentText h) < p)%nat then Undef else
  n ← getLength text (length text);
  let t := take p (currentText h) ++ text ++ drop p (currentText h) in
  let p' := (p + length text)%nat in
  Ret (with_text t p' (wrapu 64 (currentTextPositionUTF h + Z.of_nat n)) p' h, [t]).

(** The new state and the texts passed to the callback. *)
Definition onTextInput (text : bytes) (h : handler) : outcome exn (handler * list bytes) :=
  if negb (enabled h) then Ret (h, [text])
  else if decide (text = [to_char 8]) then backspace h
  else if decide (text = [to_char 127]) then delete_key h
  else insert_text text h.

Definition copy_unless_shift (h : handler) : handler :=
  if shiftPressed h then h
  else with_text (currentText h) (currentTextPosition h) (currentTextPositionUTF h) (currentTextPosition h) h.

Definition set_shift (key : KeyCode) (action : KeyAction) (h : handler) : handler :=
  if decide (key = KeyCode.LEFT_SHIFT \/ key = KeyCode.RIGHT_SHIFT) then
    mkHandler (enabled h) (multiline h) (bool_decide (action <> RELEASE)) (currentText h) (currentTextPosition h)
      (currentTextPositionUTF h) (currentTextCopyPosition h)
  else h.

Definition move_cursor (key : KeyCode) (h : handler) : outcome exn handler :=
  let t := currentText h in let p := currentTextPosition h in let u := currentTextPositionUTF h in
  let c := currentTextCopyPosition h in
  if decide (key = KeyCode.RIGHT) then
    if decide (length t <= p)%nat then Ret h else
    p' ← step_forward t (S p);
    Ret (copy_unless_shift (with_text t p' (wrapu 64 (u + 1)) c h))
  else if decide (key = KeyCode.LEFT) then
    if decide (p <= 0)%nat then Ret h else
    p' ← back t (p - 1);
    Ret (copy_unless_shift (with_text t p' (wrapu 64 (u - 1)) c h))
  else if decide (key = KeyCode.HOME) then Ret (copy_unless_shift (with_text t 0 0 c h))
  else if decide (key = KeyCode.END) then
    n ← getLength t (length t);
    Ret (copy_unless_shift (with_text t (length t) (Z.of_nat n) c h))
  else Ret (copy_unless_shift h).

Definition onKeyPressed (key : KeyCode) (action : KeyAction) (h : handler) : outcome exn handler :=
  let h := set_shift key action h in
  if decide (action <> PRESS /\ action <> REPEAT) then Ret h else move_cursor key h.

Definition getCopyText (h : handler) : outcome exn bytes :=
  let p := currentTextPosition h in let c := currentTextCopyPosition h in
  if decide (c <> p) then
    let a := Nat.min p c in let b := Nat.max p c in
    substr (currentText h) a (b - a)
  else Ret (currentText h).

(** The return type is [int]. *)
Definition getCursorPosition (h : handler) : Z := wraps 32 (currentTextPositionUTF h).

(** ** The editor it implements

    An editor of characters: those before and after the cursor, and the anchor of
    the selection, all counted in characters. *)
Record editor := mkEditor {
  on : bool; lines : bool; shift : bool;
  before : list bytes; after : list bytes; anchor : nat
}.

Inductive event : Type :=
| ev_enable (cs : list bytes) (ml : bool)
| ev_update (cs : list bytes)
| ev_disable
| ev_text (cs : list bytes)
| ev_key (key : KeyCode) (action : KeyAction).

Definition chars (e : editor) : list bytes := before e ++ after e.
Definition cursor (e : editor) : nat := length (before e).
Definition place (b a : list bytes) (n : nat) (e : editor) : editor := mkEditor (on e) (lines e) (shift e) b a n.
(** The selection is dropped, unless shift is held. *)
Definition settle (b a : list bytes) (e : editor) : editor := place b a (if shift e then anchor e else length b) e.

Definition edit_text (cs : list bytes) (e : editor) : editor * list bytes :=
  if negb (on e) then (e, [concat cs])
  else if decide (concat cs = [to_char 8]) then
    match rev (before e) with
    | [] => (e, [])
    | _ :: r => (place (rev r) (after e) (length r) e, [concat (rev r ++ after e)])
    end
  else if decide (concat cs = [to_char 127]) then
    match after e with
    | [] => (e, [])
    | _ :: r => (place (before e) r (cursor e) e, [concat (before e ++ r)])
    end
  else (place (before e ++ cs) (after e) (length (before e ++ cs)) e, [concat (before e ++ cs ++ after e)]).

Definition edit_move (key : KeyCode) (e : editor) : editor :=
  if decide (key = KeyCode.RIGHT) then
    match after e with [] => e | c :: r => settle (before e ++ [c]) r e end
  else if decide (key = KeyCode.LEFT) then
    match rev (before e) with [] => e | c :: r => settle (rev r) (c :: after e) e end
  else if decide (key = KeyCode.HOME) then settle [] (chars e) e
  else if decide (key = KeyCode.END) then settle (chars e) [] e
  else settle (before e) (after e) e.

Definition edit (ev : event) (e : editor) : editor * list bytes :=
  match ev with
  | ev_enable cs ml => (mkEditor true ml (shift e) cs [] (length cs), [])
  | ev_update cs => (place cs [] (length cs) e, [])
  | ev_disable => (mkEditor false (lines e) (shift e) [] [] 0, [])
  | ev_text cs => edit_text cs e
  | ev_key key action =>
      let e := if decide (key = KeyCode.LEFT_SHIFT \/ key = KeyCode.RIGHT_SHIFT)
               then mkEditor (on e) (lines e) (bool_decide (action <> RELEASE)) (before e) (after e) (anchor e) else e in
      (if decide (action = RELEASE) then e else edit_move key e, [])
  end.
Fixpoint edits (evs : list event) (e : editor) : editor * list bytes :=
  match evs with
  | [] => (e, [])
  | ev :: evs => let '(e1, o1) := edit ev e in let '(e2, o2) := edits evs e1 in (e2, o1 ++ o2)
  end.
(** The selected text, or all of it. *)
Definition selection (e : editor) : bytes :=
  if decide (anchor e = cursor e) then concat (chars e)
  else concat (take (Nat.max (cursor e) (anchor e) - Nat.min (cursor e) (anchor e)) (drop (Nat.min (cursor e) (anchor e)) (chars e))).

(** The same events at the handler. *)
Definition handle (ev : event) (h : handler) : outcome exn (handler * list bytes) :=
  match ev with
  | ev_enable cs ml => h ← enable (concat cs) ml h; Ret (h, [])
  | ev_update cs => h ← update (concat cs) h; Ret (h, [])
  | ev_disable => Ret (disable h, [])
  | ev_text cs => onTextInput (concat cs) h
  | ev_key key action => h ← onKeyPressed key action h; Ret (h, [])
  end.
Fixpoint handle_all (evs : list event) (h : handler) : outcome exn (handler * list bytes) :=
  match evs with
  | [] => Ret (h, [])
  | ev :: evs => '(h1, o1) ← handle ev h; '(h2, o2) ← handle_all evs h1; Ret (h2, o1 ++ o2)
  end.

(** A character: a byte that starts one and the continuation bytes [UTF8Util] expects after it. *)
Definition char_ok (c : bytes) : Prop :=
  match c with
  | lead :: conts => continuation lead = false /\ Forall (fun x => continuation x = true) conts /\ getCharByteSize lead = length c
  | [] => False
  end.
Definition event_chars (ev : event) : list bytes :=
  match ev with ev_enable cs _ | ev_update cs | ev_text cs => cs | _ => [] end.

Record represents (e : editor) (h : handler) : Prop := {
  rep_on : enabled h = on e;
  rep_lines : multiline h = lines e;
  rep_shift : shiftPressed h = shift e;
  rep_text : currentText h = concat (chars e);
  rep_pos : currentTextPosition h = length (concat (before e));
  rep_utf : currentTextPositionUTF h = Z.of_nat (cursor e);
  rep_copy : currentTextCopyPosition h = length (concat (take (anchor e) (chars e)));
  rep_anchor : (anchor e <= length (chars e))%nat;
  rep_chars : Forall char_ok (chars e)
}.

(** ** The loops on well-formed text *)
Lemma length_loop_chars cs : Forall char_ok cs -> forall fuel p ret, (length cs < fuel)%nat ->
  length_loop fuel (p ++ concat cs) (length (p ++ concat cs)) (length p) ret = Ret (ret + length cs)%nat.
Proof.
  induction 1 as [|c cs Hc _ IH]; intros [|fuel] p ret Hf; cbn [length] in Hf; try lia; cbn [length_loop concat].
  { rewrite app_nil_r, decide_False by lia. f_equal. cbn. lia. }
  destruct c as [|lead conts]; [done|]. destruct Hc as (_ & _ & Hn).
  rewrite decide_True by (rewrite length_app; cbn; lia).
  rewrite <- app_comm_cons, char_at_app. cbn. rewrite Hn.
  specialize (IH fuel (p ++ lead :: conts) (S ret) ltac:(lia)).
  rewrite <- app_assoc, (length_app p (lead :: conts)) in IH. rewrite <- app_comm_cons in IH. rewrite IH. f_equal. cbn. lia.
Qed.

Lemma length_concat_ge cs : Forall char_ok cs -> (length cs <= length (concat cs))%nat.
Proof. induction 1 as [|[|l c] cs Hc _ IH]; cbn; [lia|done|]. rewrite length_app. lia. Qed.

Lemma getLength_chars cs : Forall char_ok cs -> getLength (concat cs) (length (concat cs)) = Ret (length cs).
Proof.
  intros H. apply (length_loop_chars cs H (S (length (concat cs))) [] 0).
  pose proof (length_concat_ge cs H). lia.
Qed.

Lemma back_char p c r j : char_ok c -> (j < length c)%nat -> back (p ++ c ++ r) (length p + j) = Ret (length p).
Proof.
  intros Hc. destruct c as [|lead conts]; [done|]. destruct Hc as (Hl & Hcs & _). induction j as [|j IH]; intros Hj.
  - rewrite Nat.add_0_r. destruct (length p) as [|n] eqn:En; [done|]. cbn [back]. rewrite <- En.
    rewrite <- app_comm_cons, char_at_app. cbn. by rewrite Hl.
  - rewrite Nat.add_succ_r. cbn [back]. cbn [length] in Hj.
    destruct (lookup_lt_is_Some_2 conts j ltac:(lia)) as [x Hx].
    rewrite (char_at_lt _ _ x).
    + cbn. rewrite (proj1 (Forall_lookup _ _) Hcs j x Hx). apply IH. cbn. lia.
    + rewrite lookup_app_r by lia. replace (S (length p + j) - length p)%nat with (S j) by lia.
      rewrite lookup_app_l by (cbn; lia). done.
Qed.

Lemma forward_conts cs : Forall (fun x => continuation x = true) cs -> forall fuel p r,
  (length cs < fuel)%nat -> (forall x, head r = Some x -> continuation x = false) ->
  forward fuel (p ++ cs ++ r) (length p) = Ret (length p + length cs)%nat.
Proof.
  induction 1 as [|c cs Hc _ IH]; intros [|fuel] p r Hf Hr; cbn [length] in Hf; try lia; cbn [forward].
  - destruct r as [|x r]; cbn [app].
    + rewrite app_nil_r, decide_False by lia. f_equal. cbn. lia.
    + rewrite decide_True by (rewrite length_app; cbn; lia). rewrite char_at_app. cbn. rewrite (Hr x eq_refl).
      f_equal. lia.
  - rewrite decide_True by (rewrite length_app; cbn; lia). rewrite <- app_comm_cons, char_at_app. cbn. rewrite Hc.
    specialize (IH fuel (p ++ [c]) r ltac:(lia) Hr). rewrite <- app_assoc, (length_app p [c]) in IH. cbn [length app] in IH.
    rewrite Nat.add_1_r in IH. rewrite IH. f_equal. lia.
Qed.

Lemma head_chars cs x : Forall char_ok cs -> head (concat cs) = Some x -> continuation x = false.
Proof.
  intros H. destruct H as [|[|l c] cs Hc _]; [done|done|]. destruct Hc as (Hl & _). cbn. by intros [= <-].
Qed.

Lemma step_forward_char p c cs : char_ok c -> Forall char_ok cs ->
  step_forward (p ++ c ++ concat cs) (S (length p)) = Ret (length p + length c)%nat.
Proof.
  intros Hc Hcs. destruct c as [|lead conts]; [done|]. destruct Hc as (_ & Hk & _).
  unfold step_forward. replace (p ++ (lead :: conts) ++ concat cs) with ((p ++ [lead]) ++ conts ++ concat cs) by (by rewrite <- app_assoc).
  replace (S (length p)) with (length (p ++ [lead])) by (rewrite length_app; cbn; lia).
  rewrite forward_conts; [|done|rewrite !length_app; lia|intros x; by apply head_chars].
  f_equal. rewrite length_app. cbn. lia.
Qed.

Lemma erase_middle (p c r : bytes) : erase_range (p ++ c ++ r) (length p) (length p + length c) = Ret (p ++ r).
Proof.
  unfold erase_range. rewrite decide_True by (rewrite !length_app; lia).
  rewrite take_app_length. f_equal. f_equal. rewrite app_assoc. apply drop_app_length'. by rewrite length_app.
Qed.

Lemma rev_snoc {A} (l r : list A) c : rev l = c :: r -> l = rev r ++ [c].
Proof. intros H. by rewrite <- (rev_involutive l), H. Qed.

(** ** Simulation *)
Lemma represents_place e h b a u n (p : nat) :
  represents e h -> Forall char_ok (b ++ a) -> p = length (concat b) -> u = Z.of_nat (length b) -> n = length b ->
  represents (place b a n e) (with_text (concat (b ++ a)) p u p h).
Proof.
  intros [] Hok -> -> ->. split; cbn; try done.
  - by rewrite take_app_length.
  - rewrite length_app. lia.
Qed.

Lemma update_refines e h cs : represents e h -> Forall char_ok cs ->
  exists h', update (concat cs) h = Ret h' /\ represents (place cs [] (length cs) e) h'.
Proof.
  intros Hr Hcs. unfold update. rewrite getLength_chars by done. cbn. eexists. split; [done|].
  pose proof (represents_place e h cs [] (Z.of_nat (length cs)) (length cs) (length (concat cs)) Hr) as H.
  rewrite app_nil_r in H. auto.
Qed.

Definition fits (cs : list bytes) : Prop := Z.of_nat (length (concat cs)) < 2 ^ 64.

Lemma backspace_refines e h : represents e h -> on e = true -> fits (chars e) ->
  exists h', backspace h = Ret (h', (edit_text [[to_char 8]] e).2) /\ represents (edit_text [[to_char 8]] e).1 h'.
Proof.
  intros Hr Hon Hlen. unfold edit_text. rewrite Hon. cbn [negb]. rewrite decide_True by done.
  unfold backspace. rewrite (rep_utf _ _ Hr), (rep_pos _ _ Hr), (rep_text _ _ Hr). unfold cursor, chars, fits in *.
  destruct (rev (before e)) as [|c r] eqn:Er.
  { apply (f_equal (@rev _)) in Er. rewrite rev_involutive in Er. rewrite Er. rewrite decide_True by (cbn; lia). by exists h. }
  apply rev_snoc in Er. pose proof (rep_chars _ _ Hr) as Hok. unfold chars in Hok. rewrite Er in *.
  rewrite <- app_assoc in *. cbn [app] in *. pose proof Hok as Hok'. apply Forall_app in Hok as [Hok1 Hok]. apply Forall_cons_iff in Hok as [Hc Hok2].
  pose proof (length_concat_ge _ Hok1). rewrite !concat_app in *. cbn [concat] in *. rewrite app_nil_r. rewrite !length_app, length_rev in *. cbn [length] in *.
  assert (1 <= length c)%nat by (destruct c; [done|cbn; lia]).
  rewrite decide_False by lia. rewrite (wrapu_small 64 (_ - 1)) by lia. rewrite (wrapu_small 64 (_ - 1)) by lia. rewrite decide_False by lia.
  replace (Z.to_nat _) with (length (concat (rev r)) + (length c - 1))%nat by lia.
  rewrite back_char by (done || lia). cbn. rewrite erase_middle. cbn. rewrite <- concat_app. eexists. split; [done|].
  apply represents_place; try done.
  - by apply Forall_app.
  - rewrite length_rev. lia.
  - by rewrite length_rev.
Qed.

Lemma delete_refines e h : represents e h -> on e = true ->
  exists h', delete_key h = Ret (h', (edit_text [[to_char 127]] e).2) /\ represents (edit_text [[to_char 127]] e).1 h'.
Proof.
  intros Hr Hon. unfold edit_text. rewrite Hon. cbn [negb]. rewrite decide_False, decide_True by done.
  unfold delete_key. rewrite (rep_utf _ _ Hr), (rep_pos _ _ Hr), (rep_text _ _ Hr). unfold cursor, chars in *.
  destruct (after e) as [|c r] eqn:Er.
  { rewrite app_nil_r, decide_True by lia. by exists h. }
  pose proof (rep_chars _ _ Hr) as Hok. unfold chars in Hok. rewrite Er in *.
  apply Forall_app in Hok as [Hok1 Hok]. apply Forall_cons_iff in Hok as [Hc Hok2].
  rewrite concat_app. cbn [concat]. assert (1 <= length c)%nat by (destruct c; [done|cbn; lia]).
  rewrite decide_False by (rewrite !length_app; lia). rewrite step_forward_char by done. cbn. rewrite erase_middle. cbn.
  rewrite <- concat_app. eexists. split; [done|]. apply represents_place; try done. by apply Forall_app.
Qed.

Lemma insert_refines e h cs : represents e h -> Forall char_ok cs ->
  Z.of_nat (length (concat (chars e)) + length (concat cs)) < 2 ^ 64 ->
  exists h', insert_text (concat cs) h = Ret (h', [concat (before e ++ cs ++ after e)]) /\
    represents (place (before e ++ cs) (after e) (length (before e ++ cs)) e) h'.
Proof.
  intros Hr Hcs Hlen. unfold insert_text. rewrite (rep_utf _ _ Hr), (rep_pos _ _ Hr), (rep_text _ _ Hr). unfold cursor, chars in *.
  pose proof (rep_chars _ _ Hr) as Hok. apply Forall_app in Hok as [Hok1 Hok2].
  pose proof (length_concat_ge _ Hok1). pose proof (length_concat_ge _ Hcs).
  rewrite concat_app in *. rewrite !length_app in *. rewrite decide_False by lia.
  rewrite getLength_chars by done. cbn. rewrite take_app_length, drop_app_length. rewrite wrapu_small by lia.
  rewrite <- !concat_app. eexists. split; [done|]. rewrite app_assoc. apply represents_place; try done.
  - rewrite <- app_assoc. by rewrite !Forall_app.
  - by rewrite concat_app, length_app.
  - rewrite length_app. lia.
  - by rewrite length_app.
Qed.

Lemma settle_refines e h b a p u : represents e h -> b ++ a = chars e -> p = length (concat b) -> u = Z.of_nat (length b) ->
  represents (settle b a e) (copy_unless_shift (with_text (concat (chars e)) p u (currentTextCopyPosition h) h)).
Proof.
  intros Hr Hc -> ->. unfold copy_unless_shift, settle. cbn [shiftPressed with_text]. rewrite (rep_shift _ _ Hr), <- Hc.
  destruct (shift e).
  - destruct Hr. rewrite <- Hc in *. split; cbn; auto.
  - change (represents (place b a (length b) e) (with_text (concat (b ++ a)) (length (concat b)) (Z.of_nat (length b)) (length (concat b)) h)).
    apply represents_place; try done. rewrite Hc. apply (rep_chars _ _ Hr).
Qed.

Lemma with_text_same h : with_text (currentText h) (currentTextPosition h) (currentTextPositionUTF h) (currentTextCopyPosition h) h = h.
Proof. by destruct h. Qed.

Ltac key_cases :=
  repeat first [rewrite (decide_True (P := @eq KeyCode _ _)) by done | rewrite (decide_False (P := @eq KeyCode _ _)) by done].

Lemma move_left_refines e h : represents e h -> fits (chars e) ->
  exists h', move_cursor KeyCode.LEFT h = Ret h' /\ represents (edit_move KeyCode.LEFT e) h'.
Proof.
  intros Hr Hlen. unfold move_cursor, edit_move. key_cases. rewrite (rep_utf _ _ Hr), (rep_pos _ _ Hr), (rep_text _ _ Hr).
  unfold cursor, fits in *.
  destruct (rev (before e)) as [|c r] eqn:Er.
  { apply (f_equal (@rev _)) in Er. rewrite rev_involutive in Er. rewrite Er. by exists h. }
  apply rev_snoc in Er. pose proof (rep_chars _ _ Hr) as Hok.
  assert (Ec : chars e = rev r ++ c :: after e) by (unfold chars; by rewrite Er, <- app_assoc).
  rewrite Ec in Hok. apply Forall_app in Hok as [Hok1 Hok]. apply Forall_cons_iff in Hok as [Hc Hok2].
  pose proof (length_concat_ge _ Hok1). assert (1 <= length c)%nat by (destruct c; [done|cbn; lia]).
  rewrite Er, concat_app in *. cbn [concat]. rewrite app_nil_r, !length_app. cbn [length].
  rewrite decide_False by lia. rewrite Ec, concat_app in Hlen. cbn [concat] in Hlen. rewrite !length_app in Hlen. rewrite length_rev in *.
  replace (length (concat (rev r)) + length c - 1)%nat with (length (concat (rev r)) + (length c - 1))%nat by lia.
  rewrite Ec, concat_app. cbn [concat]. rewrite back_char by (done || lia). cbn. rewrite <- (concat_cons c), <- concat_app, <- Ec.
  eexists. split; [done|]. apply settle_refines; try done. rewrite length_rev. rewrite wrapu_small by lia. lia.
Qed.

Lemma move_right_refines e h : represents e h -> fits (chars e) ->
  exists h', move_cursor KeyCode.RIGHT h = Ret h' /\ represents (edit_move KeyCode.RIGHT e) h'.
Proof.
  intros Hr Hlen. unfold move_cursor, edit_move. key_cases. rewrite (rep_utf _ _ Hr), (rep_pos _ _ Hr), (rep_text _ _ Hr).
  unfold cursor, fits in *. pose proof (rep_chars _ _ Hr) as Hok. unfold chars in Hok |- *.
  destruct (after e) as [|c r] eqn:Er.
  { rewrite app_nil_r, decide_True by lia. by exists h. }
  apply Forall_app in Hok as [Hok1 Hok]. apply Forall_cons_iff in Hok as [Hc Hok2].
  assert (Ec : chars e = before e ++ c :: r) by (unfold chars; by rewrite Er).
  pose proof (length_concat_ge _ Hok1). assert (1 <= length c)%nat by (destruct c; [done|cbn; lia]).
  rewrite Ec, concat_app in Hlen. cbn [concat] in Hlen. rewrite !length_app in Hlen.
  rewrite concat_app. cbn [concat]. rewrite decide_False by (rewrite !length_app; lia).
  rewrite step_forward_char by done. cbn. rewrite <- (concat_cons c), <- concat_app, <- Ec.
  eexists. split; [done|]. apply settle_refines; try done.
  - by rewrite <- app_assoc.
  - rewrite concat_app, length_app. cbn. by rewrite app_nil_r.
  - rewrite length_app. cbn. rewrite wrapu_small by lia. lia.
Qed.

Lemma move_refines key e h : represents e h -> fits (chars e) ->
  exists h', move_cursor key h = Ret h' /\ represents (edit_move key e) h'.
Proof.
  intros Hr Hlen. destruct (decide (key = KeyCode.RIGHT)) as [->|H1]; [by apply move_right_refines|].
  destruct (decide (key = KeyCode.LEFT)) as [->|H2]; [by apply move_left_refines|].
  unfold move_cursor, edit_move. rewrite !(decide_False (P := key = KeyCode.RIGHT)), !(decide_False (P := key = KeyCode.LEFT)) by done.
  rewrite (rep_text _ _ Hr). destruct (decide (key = KeyCode.HOME)); [|destruct (decide (key = KeyCode.END))].
  - eexists. split; [done|]. by apply settle_refines.
  - rewrite getLength_chars by apply (rep_chars _ _ Hr). cbn. eexists. split; [done|].
    apply settle_refines; try done. apply app_nil_r.
  - eexists. split; [done|]. rewrite <- (with_text_same h), (rep_text _ _ Hr).
    apply settle_refines; [done|done|apply (rep_pos _ _ Hr)|apply (rep_utf _ _ Hr)].
Qed.

Lemma key_refines key action e h : represents e h -> fits (chars e) ->
  exists h', onKeyPressed key action h = Ret h' /\ represents (edit (ev_key key action) e).1 h'.
Proof.
  intros Hr Hlen. unfold onKeyPressed, edit, set_shift. cbn [fst].
  set (e1 := if decide (key = _ \/ _) then _ else e). set (h1 := if decide (key = _ \/ _) then _ else h).
  assert (Hr1 : represents e1 h1) by (unfold e1, h1; case_decide; [by destruct Hr; split|done]).
  assert (Hc : chars e1 = chars e) by (unfold e1; by case_decide). rewrite <- Hc in Hlen. clearbody e1 h1.
  destruct action; [rewrite decide_False by naive_solver; by apply move_refines..|].
  rewrite decide_True by done. by exists h1.
Qed.

Lemma text_refines cs e h : represents e h -> Forall char_ok cs ->
  Z.of_nat (length (concat (chars e)) + length (concat cs)) < 2 ^ 64 ->
  exists h', onTextInput (concat cs) h = Ret (h', (edit_text cs e).2) /\ represents (edit_text cs e).1 h'.
Proof.
  intros Hr Hcs Hlen. unfold onTextInput. rewrite (rep_on _ _ Hr). destruct (on e) eqn:Hon; cbn [negb].
  - unfold edit_text at 1 2. rewrite Hon. cbn [negb]. case_decide as H8; [|case_decide as H127].
    + pose proof (backspace_refines e h Hr Hon ltac:(unfold fits; lia)) as Hb. unfold edit_text in Hb. rewrite Hon in Hb. cbn [negb] in Hb.
      by rewrite !(decide_True (P := concat [[to_char 8]] = _)) in Hb by done.
    + pose proof (delete_refines e h Hr Hon) as Hd. unfold edit_text in Hd. rewrite Hon in Hd. cbn [negb] in Hd.
      by rewrite !(decide_False (P := concat _ = [to_char 8])), !(decide_True (P := concat _ = [to_char 127])) in Hd by done.
    + by apply insert_refines.
  - unfold edit_text. rewrite Hon. by exists h.
Qed.

Lemma handle_refines ev e h : represents e h -> Forall char_ok (event_chars ev) ->
  Z.of_nat (length (concat (chars e)) + length (concat (event_chars ev))) < 2 ^ 64 ->
  exists h', handle ev h = Ret (h', (edit ev e).2) /\ represents (edit ev e).1 h'.
Proof.
  intros Hr Hcs Hlen. destruct ev as [cs ml|cs| |cs|key action]; cbn [handle event_chars] in *.
  - unfold enable. destruct (update_refines (mkEditor true ml (shift e) (before e) (after e) (anchor e))
      (mkHandler true ml (shiftPressed h) (currentText h) (currentTextPosition h) (currentTextPositionUTF h) (currentTextCopyPosition h)) cs)
      as (h' & -> & H'); [by destruct Hr; split|done|]. by exists h'.
  - destruct (update_refines e h cs Hr Hcs) as (h' & -> & H'). by exists h'.
  - eexists. split; [done|]. destruct Hr. by split.
  - by apply text_refines.
  - destruct (key_refines key action e h Hr) as (h' & -> & H'); [unfold fits; lia|]. by exists h'.
Qed.

(** No event adds more text than it carries. *)
Lemma edit_move_chars key e : chars (edit_move key e) = chars e.
Proof.
  unfold edit_move, chars, settle. repeat case_decide; cbn; try done.
  - destruct (after e) eqn:E; cbn; [by rewrite E|by rewrite <- app_assoc].
  - destruct (rev (before e)) eqn:E; cbn; [done|]. apply rev_snoc in E. by rewrite E, <- app_assoc.
  - apply app_nil_r.
Qed.
Lemma edit_size ev e : (length (concat (chars (edit ev e).1)) <= length (concat (chars e)) + length (concat (event_chars ev)))%nat.
Proof.
  destruct ev as [cs ml|cs| |cs|key action]; unfold edit; cbn [event_chars fst].
  - unfold chars. cbn. rewrite app_nil_r. lia.
  - unfold chars. cbn. rewrite app_nil_r. lia.
  - cbn. lia.
  - unfold edit_text, chars. case_match; [cbn; lia|]. case_decide; [|case_decide].
    + destruct (rev (before e)) eqn:E; cbn; [lia|]. apply rev_snoc in E. rewrite E, !concat_app, !length_app. lia.
    + destruct (after e) eqn:E; cbn; rewrite ?E, ?concat_app, ?length_app; cbn; rewrite ?length_app; lia.
    + cbn. rewrite !concat_app, !length_app. lia.
  - case_decide; [|rewrite edit_move_chars]; case_decide; unfold chars; cbn; lia.
Qed.

(** ** The selection *)
Definition offset (cs : list bytes) (k : nat) : nat := length (concat (take k cs)).

Lemma offset_slice cs a b : (a <= b <= length cs)%nat ->
  offset cs b = (offset cs a + length (concat (take (b - a) (drop a cs))))%nat.
Proof.
  intros H. unfold offset. rewrite <- length_app, <- concat_app. do 2 f_equal.
  rewrite <- (take_drop a (take b cs)), take_take, Nat.min_l by lia. f_equal. rewrite take_drop_commute. do 2 f_equal. lia.
Qed.
Lemma offset_mono cs a b : Forall char_ok cs -> (a < b <= length cs)%nat -> (offset cs a < offset cs b)%nat.
Proof.
  intros Hok H. rewrite (offset_slice cs a b) by lia.
  pose proof (length_concat_ge (take (b - a) (drop a cs)) ltac:(by apply Forall_take, Forall_drop)) as Hl.
  rewrite length_take, length_drop in Hl. lia.
Qed.
Lemma concat_slice cs a b : (a <= b <= length cs)%nat ->
  take (offset cs b - offset cs a) (drop (offset cs a) (concat cs)) = concat (take (b - a) (drop a cs)).
Proof.
  intros H. rewrite (offset_slice cs a b) by lia. rewrite Nat.add_comm, Nat.add_sub. unfold offset.
  rewrite <- (take_drop a cs) at 3. rewrite concat_app, drop_app_length.
  rewrite <- (take_drop (b - a) (drop a cs)) at 2. by rewrite concat_app, take_app_length.
Qed.

Lemma copy_refines e h : represents e h -> getCopyText h = Ret (selection e).
Proof.
  intros Hr. unfold getCopyText, selection, substr. rewrite (rep_pos _ _ Hr), (rep_copy _ _ Hr), (rep_text _ _ Hr).
  pose proof (rep_chars _ _ Hr) as Hok. pose proof (rep_anchor _ _ Hr) as Ha. set (cs := chars e) in *. fold (offset cs (anchor e)).
  assert (Hp : length (concat (before e)) = offset cs (cursor e)) by (unfold offset, cs, chars, cursor; by rewrite take_app_length).
  assert (Hc : (cursor e <= length cs)%nat) by (unfold cs, chars, cursor; rewrite length_app; lia). rewrite Hp.
  destruct (decide (anchor e = cursor e)) as [->|Hne]; [by rewrite decide_False by auto|].
  assert (Hm : forall a b, (a < b <= length cs)%nat -> Nat.min (offset cs a) (offset cs b) = offset cs a /\ Nat.max (offset cs a) (offset cs b) = offset cs b
                 /\ offset cs a <> offset cs b /\ (offset cs a <= length (concat cs))%nat).
  { intros a b Hab. pose proof (offset_mono cs a b Hok Hab). pose proof (offset_slice cs a (length cs) ltac:(lia)) as Hs.
    unfold offset in Hs at 1. rewrite take_ge in Hs by lia. lia. }
  destruct (decide (anchor e < cursor e)%nat).
  - destruct (Hm (anchor e) (cursor e)) as (H1 & H2 & H3 & H4); [lia|]. rewrite decide_True by done.
    rewrite (Nat.min_comm (offset cs (cursor e))), (Nat.max_comm (offset cs (cursor e))), H1, H2, decide_False by lia.
    rewrite (Nat.max_l (cursor e)), (Nat.min_r (cursor e)) by lia. by rewrite concat_slice by lia.
  - destruct (Hm (cursor e) (anchor e)) as (H1 & H2 & H3 & H4); [lia|]. rewrite decide_True by auto.
    rewrite H1, H2, decide_False by lia.
    rewrite (Nat.max_r (cursor e)), (Nat.min_l (cursor e)) by lia. by rewrite concat_slice by lia.
Qed.

(** ** Editing *)
Definition new_editor : editor := mkEditor false false false [] [] 0.
Definition input_size (evs : list event) : nat := list_sum (map (fun ev => length (concat (event_chars ev))) evs).

Lemma handle_all_refines evs : Forall (fun ev => Forall char_ok (event_chars ev)) evs -> forall e h, represents e h ->
  Z.of_nat (length (concat (chars e)) + input_size evs) < 2 ^ 64 ->
  exists h', handle_all evs h = Ret (h', (edits evs e).2) /\ represents (edits evs e).1 h'.
Proof.
  induction 1 as [|ev evs Hev _ IH]; intros e h Hr Hlen; cbn [handle_all edits]; [by exists h|].
  change (input_size (ev :: evs)) with (length (concat (event_chars ev)) + input_size evs)%nat in Hlen.
  destruct (handle_refines ev e h Hr Hev) as (h1 & -> & Hr1); [lia|]. cbn. pose proof (edit_size ev e) as Hs.
  destruct (edit ev e) as [e1 o1]. cbn in *. destruct (IH e1 h1 Hr1) as (h2 & -> & Hr2); [lia|]. cbn.
  destruct (edits evs e1) as [e2 o2]. cbn in *. by exists h2.
Qed.

(** C3. As long as every character of the texts has one to three bytes in UTF-8, the text field is
    an editor of characters.  For every sequence of activations, updates, texts typed and keys
    pressed with such texts, of less than 2^64 bytes together, the handler never leaves its text,
    passes the texts of the editor to the callback, counts the cursor in characters, and copies the
    selected characters.  Characters of four bytes are excluded, and have to be:
    [emoji_backspace_undefined]. *)
Theorem text_input_refines (evs : list event)
    (Hok : Forall (fun ev => Forall char_ok (event_chars ev)) evs) (Hlen : Z.of_nat (input_size evs) < 2 ^ 64) :
  let '(e, out) := edits evs new_editor in
  exists h, handle_all evs new_handler = Ret (h, out) /\ currentText h = concat (chars e) /\
    getCursorPosition h = wraps 32 (Z.of_nat (cursor e)) /\ getCopyText h = Ret (selection e).
Proof.
  assert (H0 : represents new_editor new_handler) by (by split).
  destruct (handle_all_refines evs Hok new_editor new_handler H0 Hlen) as (h & Hh & Hr).
  destruct (edits evs new_editor) as [e out]. exists h. split; [done|]. split; [apply (rep_text _ _ Hr)|].
  split; [unfold getCursorPosition; by rewrite (rep_utf _ _ Hr)|by apply copy_refines].
Qed.

(** A character of four bytes, as an emoji is. *)
Definition four_bytes (c : bytes) : Prop :=
  match c with
  | lead :: conts => Z.land (uchar lead) 248 = 240 /\ Forall (fun x => continuation x = true) conts /\ length c = 4%nat
  | [] => False
  end.

Lemma continuation_size x : continuation x = true -> getCharByteSize x = 1%nat.
Proof. destruct x as [[] [] [] [] [] [] [] []]; vm_compute; done. Qed.
Lemma four_lead_size x : Z.land (uchar x) 248 = 240 -> getCharByteSize x = 1%nat /\ continuation x = false.
Proof. destruct x as [[] [] [] [] [] [] [] []]; vm_compute; done. Qed.

(** [UTF8Util] does not know characters of four bytes: it counts each as four.  Moving
    the cursor left over one and then pressing backspace reads outside the text. *)
Theorem emoji_backspace_undefined (c : bytes) (ml : bool) (Hc : four_bytes c) :
  getLength c (length c) = Ret 4%nat /\
  handle_all [ev_enable [c] ml; ev_key KeyCode.LEFT PRESS; ev_text [[to_char 8]]] new_handler = Undef.
Proof.
  destruct c as [|c0 [|c1 [|c2 [|c3 [|]]]]]; try (by destruct Hc as (_ & _ & [=])); [done|]. destruct Hc as (H0 & Hk & _).
  apply four_lead_size in H0 as [S0 K0]. rewrite !Forall_cons_iff in Hk. destruct Hk as (K1 & K2 & K3 & _).
  pose proof (continuation_size _ K1) as S1. pose proof (continuation_size _ K2) as S2. pose proof (continuation_size _ K3) as S3.
  assert (Hl : getLength [c0; c1; c2; c3] 4 = Ret 4%nat).
  { unfold getLength. cbn. rewrite S0. cbn. rewrite S1. cbn. rewrite S2. cbn. by rewrite S3. }
  split; [done|]. unfold handle_all, handle, enable, update. cbn [concat app length]. rewrite Hl. cbn [mbind outcome_bind].
  unfold onKeyPressed, set_shift, move_cursor. rewrite (decide_False (P := _ \/ _)), (decide_False (P := _ /\ _)) by (by intros []).
  key_cases. cbn. rewrite K3. cbn. rewrite K2. cbn. by rewrite K1.
Qed.

Lemma text_input_refines_witness :
  let evs := [ev_enable [lit "a"; [to_char 195; to_char 169]; [to_char 226; to_char 130; to_char 172]] false;
              ev_key KeyCode.LEFT PRESS; ev_text [[to_char 8]]; ev_key KeyCode.LEFT_SHIFT PRESS; ev_key KeyCode.RIGHT PRESS] in
  exists h, handle_all evs new_handler = Ret (h, [lit "a" ++ [to_char 226; to_char 130; to_char 172]]) /\
    getCursorPosition h = 2 /\ getCopyText h = Ret [to_char 226; to_char 130; to_char 172].
Proof.
  intros evs. pose proof (text_input_refines evs) as H.
  destruct H as (h & Hh & _ & Hp & Hs); [by repeat constructor|done|].
  exists h. split; [exact Hh|]. split; [exact Hp|exact Hs].
Defined.

Lemma emoji_backspace_undefined_witness :
  handle_all [ev_enable [[to_char 240; to_char 159; to_char 152; to_char 128]] false; ev_key KeyCode.LEFT PRESS; ev_text [[to_char 8]]] new_handler = Undef.
Proof. apply emoji_backspace_undefined. repeat constructor. Defined.

End TextInput.
