(* ===== verification/InputQueue.v ===== *)
(** * The input queue and the looper of the game thread (mcpelauncher-client)

    [FakeInputQueue] (fake_inputqueue.cpp) holds the events for the game, which takes
    a pointer to the first one and gives it back when it is done; [FakeLooper]
    (fake_looper.cpp) tells the game what there is to do.  An element of the queue
    is at an address; elements that are alive are at different addresses. *)

From S2P Require Import Prelude GamepadMapping.
From Stdlib Require Import ZArith Lia SpecFloat.
From stdpp Require Import base list strings numbers sets.

Open Scope Z_scope.

Module InputQueue.

(** ** Events *)
Definition AINPUT_SOURCE_KEYBOARD : Z := 257.
Definition AINPUT_SOURCE_GAMEPAD : Z := 1025.
Definition AINPUT_SOURCE_TOUCHSCREEN : Z := 4098.
Definition AINPUT_EVENT_TYPE_KEY : Z := 1.
Definition AINPUT_EVENT_TYPE_MOTION : Z := 2.

Record key_event := mkKey { k_source : Z; k_device : Z; k_action : Z; k_code : Z }.
(** The axis function reads the state of the window when it is called; the empty function is [None]. *)
Record motion_event := mkMotion {
  m_source : Z; m_device : Z; m_action : Z; m_pointer : Z; m_x : spec_float; m_y : spec_float; m_axes : option Z }.

Definition FakeKeyEvent (action keyCode : Z) : key_event := mkKey AINPUT_SOURCE_KEYBOARD 0 action keyCode.
Definition FakeMotionEvent (action pointerId : Z) (x y : spec_float) : motion_event :=
  mkMotion AINPUT_SOURCE_TOUCHSCREEN 0 action pointerId x y None.

Inductive input_event : Type := key (e : key_event) | motion (e : motion_event).

Definition getSource (e : input_event) : Z := match e with key e => k_source e | motion e => m_source e end.
Definition getType (e : input_event) : Z := match e with key _ => AINPUT_EVENT_TYPE_KEY | motion _ => AINPUT_EVENT_TYPE_MOTION end.
Definition getDeviceId (e : input_event) : Z := match e with key e => k_device e | motion e => m_device e end.

(** ** The queue *)
Record queue := mkQueue { keyEvents : list (nat * key_event); motionEvents : list (nat * motion_event) }.
Definition no_events : queue := mkQueue [] [].

Definition hasEvents (q : queue) : bool := bool_decide (keyEvents q <> []) || bool_decide (motionEvents q <> []).

(** The pointer and what is there; [None] is the return value [-1]. *)
Definition getEvent (q : queue) : option (nat * input_event) :=
  match keyEvents q, motionEvents q with
  | (p, e) :: _, _ => Some (p, key e)
  | [], (p, e) :: _ => Some (p, motion e)
  | [], [] => None
  end.

Definition front_at {A} (l : list (nat * A)) (p : nat) : bool :=
  match l with (a, _) :: _ => bool_decide (a = p) | [] => false end.
Definition finishEvent (p : nat) (q : queue) : outcome exn queue :=
  if front_at (keyEvents q) p then Ret (mkQueue (tail (keyEvents q)) (motionEvents q))
  else if front_at (motionEvents q) p then Ret (mkQueue (keyEvents q) (tail (motionEvents q)))
  else Throw (runtime_error "finishEvent: the event is not the event on the front of queue").

Definition addEvent_key (p : nat) (e : key_event) (q : queue) : queue := mkQueue (keyEvents q ++ [(p, e)]) (motionEvents q).
Definition addEvent_motion (p : nat) (e : motion_event) (q : queue) : queue := mkQueue (keyEvents q) (motionEvents q ++ [(p, e)]).
Definition addEvent (p : nat) (e : input_event) : queue -> queue :=
  match e with key e => addEvent_key p e | motion e => addEvent_motion p e end.

Definition addresses (q : queue) : list nat := (keyEvents q).*1 ++ (motionEvents q).*1.

(** ** The looper *)
Record entry := mkEntry { e_fd : Z; e_ident : Z; e_events : Z; e_data : nat }.
Definition attached (e : entry) : bool := negb (e_ident e =? -1).
(** [EventEntry()] leaves all but the identifier unset. *)
Definition no_entry : entry := mkEntry 0 (-1) 0 0.

Record looper := mkLooper { androidEvent : entry; inputEntry : entry; fakeInputQueue : queue }.
Definition new_looper : looper := mkLooper no_entry no_entry no_events.

Definition ALOOPER_POLL_TIMEOUT : Z := -3.

Definition addFd (fd ident events : Z) (callback : bool) (data : nat) (l : looper) : outcome exn (looper * Z) :=
  if attached (androidEvent l) then Ret (l, -1)
  else if callback then Throw (runtime_error "callback is not supported")
  else Ret (mkLooper (mkEntry fd ident events data) (inputEntry l) (fakeInputQueue l), 1).
Definition attachInputQueue (ident : Z) (callback : bool) (data : nat) (l : looper) : outcome exn looper :=
  if attached (inputEntry l) then Throw (runtime_error "attachInputQueue already called on this looper")
  else if callback then Throw (runtime_error "callback is not supported")
  else Ret (mkLooper (androidEvent l) (mkEntry (-1) ident 0 data) (fakeInputQueue l)).

(** What is returned, and the data and the events that are stored; [polled] is the result of
    [poll] on the descriptor, [Some] with the events when it is positive.  [window] marks a
    turn without work, in which the window is polled and gamepads may be reported again. *)
Record polled := mkPolled { p_ident : Z; p_data : option nat; p_revents : option Z; window : bool }.
Definition pollAll (poll : Z -> Z -> option Z) (l : looper) : polled :=
  match (if attached (androidEvent l) then poll (e_fd (androidEvent l)) (e_events (androidEvent l)) else None) with
  | Some revents => mkPolled (e_ident (androidEvent l)) (Some (e_data (androidEvent l))) (Some revents) false
  | None =>
      if attached (inputEntry l) && hasEvents (fakeInputQueue l) then
        mkPolled (e_ident (inputEntry l)) (Some (e_data (inputEntry l))) None false
      else mkPolled ALOOPER_POLL_TIMEOUT None None true
  end.

(** ** The game's loop: take an event, handle it while more arrive, give it back *)
Fixpoint add_all (l : list (nat * input_event)) (q : queue) : queue :=
  match l with [] => q | (p, e) :: l => add_all l (addEvent p e q) end.

Fixpoint drain (fuel : nat) (q : queue) : outcome exn (list input_event) :=
  match fuel with
  | O => Diverge
  | S fuel =>
      match getEvent q with
      | None => Ret []
      | Some (p, e) => q ← finishEvent p q; r ← drain fuel q; Ret (e :: r)
      end
  end.

Definition keys_of (l : list (nat * input_event)) : list (nat * key_event) :=
  omap (fun x => match x.2 with key e => Some (x.1, e) | _ => None end) l.
Definition motions_of (l : list (nat * input_event)) : list (nat * motion_event) :=
  omap (fun x => match x.2 with motion e => Some (x.1, e) | _ => None end) l.

Lemma add_all_parts l q : add_all l q = mkQueue (keyEvents q ++ keys_of l) (motionEvents q ++ motions_of l).
Proof.
  revert q. induction l as [|[p [e|e]] l IH]; intros q; cbn.
  - rewrite !app_nil_r. by destruct q.
  - rewrite IH. cbn. by rewrite <- app_assoc.
  - rewrite IH. cbn. by rewrite <- app_assoc.
Qed.

(** The event the game took is the event it gives back, although more events arrive in
    between: [finishEvent] removes exactly the one [getEvent] returned, never throws, and
    keeps the others in order. *)
Theorem finish_taken (q : queue) (p : nat) (e : input_event) (l : list (nat * input_event))
    (Hg : getEvent q = Some (p, e)) (Hd : NoDup (addresses (add_all l q))) :
  exists q', finishEvent p (add_all l q) = Ret q' /\
    match e with
    | key k => keyEvents (add_all l q) = (p, k) :: keyEvents q' /\ motionEvents q' = motionEvents (add_all l q)
    | motion m => motionEvents (add_all l q) = (p, m) :: motionEvents q' /\ keyEvents q' = keyEvents (add_all l q)
    end.
Proof.
  rewrite add_all_parts in *. unfold addresses, getEvent, finishEvent in *. cbn [keyEvents motionEvents] in *.
  destruct (keyEvents q) as [|[pk k] ks]; [destruct (motionEvents q) as [|[pm m] ms]|]; simplify_eq; cbn [app front_at tail] in *.
  - destruct (keys_of l) as [|[a k] r]; cbn [front_at app] in *; [by rewrite bool_decide_true by done; eexists|].
    rewrite bool_decide_false by (intros ->; apply NoDup_app in Hd as (_ & Hd & _); apply (Hd p); set_solver). rewrite bool_decide_true by done. by eexists.
  - rewrite bool_decide_true by done. by eexists.
Qed.

Lemma drain_key fuel p k ks ms : drain (S fuel) (mkQueue ((p, k) :: ks) ms) = (r ← drain fuel (mkQueue ks ms); Ret (key k :: r)).
Proof. cbn. unfold finishEvent. cbn. by rewrite bool_decide_true by done. Qed.
Lemma drain_motion fuel p m ms : drain (S fuel) (mkQueue [] ((p, m) :: ms)) = (r ← drain fuel (mkQueue [] ms); Ret (motion m :: r)).
Proof. cbn. unfold finishEvent. cbn. by rewrite bool_decide_true by done. Qed.

(** A loop that takes and gives back events until there are none ends and handles every
    event once: the key events in the order they were added, then the motion events in theirs. *)
Theorem drain_order (q : queue) :
  drain (S (length (keyEvents q) + length (motionEvents q))) q = Ret (map (fun x => key x.2) (keyEvents q) ++ map (fun x => motion x.2) (motionEvents q)).
Proof.
  destruct q as [ks ms]. cbn [keyEvents motionEvents]. induction ks as [|[p k] ks IH].
  - cbn [length Nat.add app map]. induction ms as [|[p m] ms IH]; [done|]. cbn [length]. by rewrite drain_motion, IH.
  - cbn [length Nat.add]. by rewrite drain_key, IH.
Qed.

Definition press_a : key_event := FakeKeyEvent 0 29.
Definition touch : motion_event := FakeMotionEvent 0 1 f0 f1.

Lemma finish_taken_witness : exists q', finishEvent 1 (add_all [(2%nat, key press_a)] (mkQueue [] [(1%nat, touch)])) = Ret q' /\
  motionEvents (add_all [(2%nat, key press_a)] (mkQueue [] [(1%nat, touch)])) = (1%nat, touch) :: motionEvents q' /\ keyEvents q' = [(2%nat, press_a)].
Proof.
  apply (finish_taken (mkQueue [] [(1%nat, touch)]) 1 (motion touch) [(2%nat, key press_a)]); [done|].
  apply (bool_decide_unpack _). by vm_compute.
Defined.
End InputQueue.
