(* ===== verification/WindowCallbacks.v ===== *)
(** * Window events and the game (mcpelauncher-client)

    [WindowCallbacks] (window_callbacks.cpp) turns the events of the window into
    events of the input queue, edits of the text field and calls into the game; the
    part of [JniSupport] (jni/jni_support.cpp) that tells the game about gamepads.
    The functions of the game are effects, listed in the order of the calls. *)

From S2P Require Import Prelude CxxString GamepadMapping GameWindow TextInput InputQueue.
From Stdlib Require Import ZArith Ascii Lia SpecFloat.
From stdpp Require Import base list gmap strings numbers sets.

Open Scope Z_scope.

Module WindowCallbacks.
Import InputQueue.

(** ** Conversions of [double]

    A conversion to an integer type that cannot hold the truncated value is undefined. *)
Definition trunc (d : spec_float) : option Z :=
  match d with
  | S754_zero _ => Some 0
  | S754_finite s m e => let z := if decide (0 <= e) then Zpos m * 2 ^ e else Zpos m / 2 ^ (- e) in Some (if s then - z else z)
  | _ => None
  end.
Definition to_int (lo hi : Z) (d : spec_float) : outcome exn Z :=
  match trunc d with
  | Some z => if decide (lo <= z <= hi) then Ret z else Undef
  | None => Undef
  end.
Definition to_short : spec_float -> outcome exn Z := to_int (-32768) 32767.
Definition double_to_char : spec_float -> outcome exn Z := to_int (-128) 127.
Definition to_float (d : spec_float) : spec_float :=
  match d with
  | S754_finite s m e => binary_normalize 24 128 (if s then Zneg m else Zpos m) e s
  | d => d
  end.
Definition double_of_Z (z : Z) : spec_float := binary_normalize 53 1024 z 0 false.

(** ** State *)
Record gamepad_data := mkData { axis : list spec_float; button : list bool }.
Definition new_data : gamepad_data := mkData (repeat f0 6) (repeat false 15).

Record callbacks := mkWindow {
  gamepads : gmap Z gamepad_data;
  useDirectMouseInput : bool; useDirectKeyboardInput : bool;
  modCTRL : bool; needsQueueGamepadInput : bool; fullscreen : bool;
  inputQueue : queue;
  textInput : TextInput.handler
}.
(** The constructor; [keyboard] tells whether the game has the three symbols of its keyboard. *)
Definition new_callbacks (keyboard : bool) (q : queue) (t : TextInput.handler) : callbacks :=
  mkWindow ∅ true keyboard false true false q t.

Inductive effect : Type :=
| Mouse_feed (btn action x y dx dy : Z)
| Keyboard_input (key event : Z)
| setClipboardText (t : bytes)
| setFullscreen (b : bool)
| onSetTextboxText (t : bytes)
| onReturnKeyPressed
| onInputDeviceAdded (id : Z)
| onInputDeviceRemoved (id : Z)
| onWindowResized (w h : Z)
| onWindowClosed.

Definition set_queue (q : queue) (w : callbacks) : callbacks :=
  mkWindow (gamepads w) (useDirectMouseInput w) (useDirectKeyboardInput w) (modCTRL w) (needsQueueGamepadInput w) (fullscreen w) q (textInput w).
Definition set_text (t : TextInput.handler) (w : callbacks) : callbacks :=
  mkWindow (gamepads w) (useDirectMouseInput w) (useDirectKeyboardInput w) (modCTRL w) (needsQueueGamepadInput w) (fullscreen w) (inputQueue w) t.
Definition set_gamepads (g : gmap Z gamepad_data) (w : callbacks) : callbacks :=
  mkWindow g (useDirectMouseInput w) (useDirectKeyboardInput w) (modCTRL w) (needsQueueGamepadInput w) (fullscreen w) (inputQueue w) (textInput w).
Definition set_needs (b : bool) (w : callbacks) : callbacks :=
  mkWindow (gamepads w) (useDirectMouseInput w) (useDirectKeyboardInput w) (modCTRL w) b (fullscreen w) (inputQueue w) (textInput w).
Definition set_ctrl (b : bool) (w : callbacks) : callbacks :=
  mkWindow (gamepads w) (useDirectMouseInput w) (useDirectKeyboardInput w) b (needsQueueGamepadInput w) (fullscreen w) (inputQueue w) (textInput w).
Definition set_fullscreen (b : bool) (w : callbacks) : callbacks :=
  mkWindow (gamepads w) (useDirectMouseInput w) (useDirectKeyboardInput w) (modCTRL w) (needsQueueGamepadInput w) b (inputQueue w) (textInput w).

Definition markRequeueGamepadInput : callbacks -> callbacks := set_needs true.

(** An address no element of the queue is at. *)
Definition fresh (q : queue) : nat := S (list_max (addresses q)).
Definition enqueue (e : input_event) (w : callbacks) : callbacks := set_queue (addEvent (fresh (inputQueue w)) e (inputQueue w)) w.

(** ** Codes of the game *)
Definition AMOTION_EVENT_ACTION_DOWN : Z := 0.
Definition AMOTION_EVENT_ACTION_UP : Z := 1.
Definition AMOTION_EVENT_ACTION_MOVE : Z := 2.
Definition AKEY_EVENT_ACTION_DOWN : Z := 0.
Definition AKEY_EVENT_ACTION_UP : Z := 1.

(** The keys of the [switch], with the codes of android/keycodes.h. *)
Definition key_table : list (KeyCode * Z) :=
  [(KeyCode.BACK, 4); (KeyCode.BACKSPACE, 67); (KeyCode.TAB, 61); (KeyCode.ENTER, 66); (KeyCode.LEFT_SHIFT, 59); (KeyCode.RIGHT_SHIFT, 60);
   (KeyCode.LEFT_CTRL, 113); (KeyCode.RIGHT_CTRL, 114); (KeyCode.PAUSE, 121); (KeyCode.CAPS_LOCK, 115); (KeyCode.ESCAPE, 111); (KeyCode.SPACE, 62);
   (KeyCode.PAGE_UP, 92); (KeyCode.PAGE_DOWN, 93); (KeyCode.END, 123); (KeyCode.HOME, 122); (KeyCode.LEFT, 21); (KeyCode.UP, 19);
   (KeyCode.RIGHT, 22); (KeyCode.DOWN, 20); (KeyCode.INSERT, 124); (KeyCode.DELETE, 112); (KeyCode.NUM_LOCK, 143); (KeyCode.SCROLL_LOCK, 116);
   (KeyCode.SEMICOLON, 74); (KeyCode.EQUAL, 70); (KeyCode.COMMA, 55); (KeyCode.MINUS, 69); (KeyCode.PERIOD, 56); (KeyCode.SLASH, 76);
   (KeyCode.GRAVE, 68); (KeyCode.LEFT_BRACKET, 71); (KeyCode.BACKSLASH, 73); (KeyCode.RIGHT_BRACKET, 72); (KeyCode.APOSTROPHE, 75); (KeyCode.MENU, 82);
   (KeyCode.LEFT_SUPER, 117); (KeyCode.RIGHT_SUPER, 118); (KeyCode.LEFT_ALT, 57); (KeyCode.RIGHT_ALT, 58)].
Fixpoint assoc (l : list (Z * Z)) (k default : Z) : Z :=
  match l with [] => default | (a, b) :: l => if decide (a = k) then b else assoc l k default end.

Definition AKEYCODE_UNKNOWN : Z := 0.
Definition mapMinecraftToAndroidKey (code : KeyCode) : Z :=
  if decide (KeyCode.NUM_0 <= code <= KeyCode.NUM_9) then code - KeyCode.NUM_0 + 7
  else if decide (KeyCode.A_ <= code <= KeyCode.Z_) then code - KeyCode.A_ + 29
  else if decide (KeyCode.FN1 <= code <= KeyCode.FN12) then code - KeyCode.FN1 + 131
  else assoc key_table code AKEYCODE_UNKNOWN.

(** A, B, X, Y, LB, RB, BACK, START, GUIDE, the sticks and the directions, in the order of [GamepadButtonId]. *)
Definition button_table : list Z := [96; 97; 99; 100; 102; 103; 109; 108; 110; 106; 107; 19; 22; 20; 21].
Definition mapGamepadToAndroidKey (btn : Z) : Z :=
  if decide (btn < 0) then -1 else default (-1) (button_table !! Z.to_nat btn).

(** ** Keyboard and text *)

(** [textUpdateCallback] of the text field is [JniSupport::onSetTextboxText]. *)
Definition onTextInput (t : bytes) (w : callbacks) : outcome exn (callbacks * list effect) :=
  '(h, out) ← TextInput.onTextInput t (textInput w); Ret (set_text h w, map onSetTextboxText out).

Definition update_ctrl (key : KeyCode) (action : KeyAction) (w : callbacks) : callbacks :=
  if decide (key = KeyCode.LEFT_CTRL \/ key = KeyCode.RIGHT_CTRL) then set_ctrl (bool_decide (action <> RELEASE)) w else w.
Definition copy_or_edit (key : KeyCode) (action : KeyAction) (w : callbacks) : outcome exn (callbacks * list effect) :=
  if modCTRL w && bool_decide (key = KeyCode.C_) then
    t ← TextInput.getCopyText (textInput w); Ret (w, [setClipboardText t])
  else h ← TextInput.onKeyPressed key action (textInput w); Ret (set_text h w, []).
Definition toggle_fullscreen (key : KeyCode) (action : KeyAction) (w : callbacks) : callbacks * list effect :=
  if decide (key = KeyCode.FN11 /\ action = PRESS)
  then (set_fullscreen (negb (fullscreen w)) w, [setFullscreen (negb (fullscreen w))]) else (w, []).
(** The game's keyboard gets presses and releases directly, when it has one. *)
Definition pass_key (key : KeyCode) (action : KeyAction) (w : callbacks) : callbacks * list effect :=
  if useDirectKeyboardInput w && bool_decide (action = PRESS \/ action = RELEASE) then
    (w, [Keyboard_input (Z.land key 255) (if decide (action = PRESS) then 1 else 0)])
  else match action with
       | PRESS => (enqueue (InputQueue.key (FakeKeyEvent AKEY_EVENT_ACTION_DOWN (mapMinecraftToAndroidKey key))) w, [])
       | RELEASE => (enqueue (InputQueue.key (FakeKeyEvent AKEY_EVENT_ACTION_UP (mapMinecraftToAndroidKey key))) w, [])
       | REPEAT => (w, [])
       end.
Definition onKeyboard (key : KeyCode) (action : KeyAction) (w : callbacks) : outcome exn (callbacks * list effect) :=
  let w := update_ctrl key action w in
  '(w, e1) ← copy_or_edit key action w;
  let '(w, e2) := toggle_fullscreen key action w in
  let '(w, e3) := pass_key key action w in
  Ret (w, e1 ++ e2 ++ e3).

Definition newline : bytes := [to_char 10].
Definition onKeyboardText (c : bytes) (w : callbacks) : outcome exn (callbacks * list effect) :=
  if decide (c = newline /\ TextInput.multiline (textInput w) = false) then Ret (w, [onReturnKeyPressed])
  else onTextInput c w.
Definition onPaste : bytes -> callbacks -> outcome exn (callbacks * list effect) := onTextInput.

(** ** Mouse and touch *)
Definition touch_event (action id : Z) (x y : spec_float) : input_event := motion (FakeMotionEvent action id (to_float x) (to_float y)).

Definition onMouseButton (x y : spec_float) (btn : Z) (action : MouseButtonAction) (w : callbacks) : outcome exn (callbacks * list effect) :=
  if decide (btn < 1) then Ret (w, [])
  else if decide (3 < btn) then onKeyboard btn (if decide (action = MOUSE_PRESS) then PRESS else RELEASE) w
  else if useDirectMouseInput w then
    sx ← to_short x; sy ← to_short y;
    Ret (w, [Mouse_feed btn (if decide (action = MOUSE_PRESS) then 1 else 0) sx sy 0 0])
  else match action with
       | MOUSE_PRESS => Ret (enqueue (touch_event AMOTION_EVENT_ACTION_DOWN 0 x y) w, [])
       | MOUSE_RELEASE => Ret (enqueue (touch_event AMOTION_EVENT_ACTION_UP 0 x y) w, [])
       end.
Definition onMousePosition (x y : spec_float) (w : callbacks) : outcome exn (callbacks * list effect) :=
  if useDirectMouseInput w then sx ← to_short x; sy ← to_short y; Ret (w, [Mouse_feed 0 0 sx sy 0 0])
  else Ret (enqueue (touch_event AMOTION_EVENT_ACTION_MOVE 0 x y) w, []).
Definition onMouseRelativePosition (x y : spec_float) (w : callbacks) : outcome exn (callbacks * list effect) :=
  if useDirectMouseInput w then sx ← to_short x; sy ← to_short y; Ret (w, [Mouse_feed 0 0 0 0 sx sy])
  else Ret (enqueue (touch_event AMOTION_EVENT_ACTION_MOVE 0 x y) w, []).

(** [(char) std::max(std::min(dy * 127.0, 127.0), -127.0)] *)
Definition scroll_amount (dy : spec_float) : outcome exn Z :=
  double_to_char (fmax (fmin (SFmul 53 1024 dy (double_of_Z 127)) (double_of_Z 127)) (double_of_Z (-127))).
Definition onMouseScroll (x y dx dy : spec_float) (w : callbacks) : outcome exn (callbacks * list effect) :=
  cdy ← scroll_amount dy;
  if useDirectMouseInput w then sx ← to_short x; sy ← to_short y; Ret (w, [Mouse_feed 4 cdy 0 0 sx sy])
  else Ret (w, []).

Definition onTouchStart (id : Z) (x y : spec_float) (w : callbacks) : callbacks := enqueue (touch_event AMOTION_EVENT_ACTION_DOWN id x y) w.
Definition onTouchUpdate (id : Z) (x y : spec_float) (w : callbacks) : callbacks := enqueue (touch_event AMOTION_EVENT_ACTION_MOVE id x y) w.
Definition onTouchEnd (id : Z) (x y : spec_float) (w : callbacks) : callbacks := enqueue (touch_event AMOTION_EVENT_ACTION_UP id x y) w.

(** ** Gamepads *)

(** [added] and [removed] tell whether the game has the two native methods. *)
Definition setGameControllerConnected (added removed : bool) (devId : Z) (connected : bool) : list effect :=
  if connected && added then [onInputDeviceAdded devId]
  else if connected && removed then [onInputDeviceRemoved devId]
  else [].

(** [insert] keeps the entry of a gamepad that is already there. *)
Definition onGamepadState (added removed : bool) (gamepad : Z) (connected : bool) (w : callbacks) : callbacks * list effect :=
  (set_gamepads (if connected then match gamepads w !! gamepad with Some _ => gamepads w | None => <[gamepad := new_data]> (gamepads w) end
                 else delete gamepad (gamepads w)) w,
   setGameControllerConnected added removed gamepad connected).

(** The events of a gamepad carry a function that reads its axes when the game asks. *)
Definition axis_event (gamepad : Z) : motion_event :=
  mkMotion AINPUT_SOURCE_GAMEPAD gamepad AMOTION_EVENT_ACTION_MOVE 0 f0 f0 (Some gamepad).
Definition queueGamepadAxisInputIfNeeded (gamepad : Z) (w : callbacks) : callbacks :=
  if needsQueueGamepadInput w then set_needs false (enqueue (motion (axis_event gamepad)) w) else w.

Definition DPAD_UP : nat := 11.
Definition DPAD_RIGHT : nat := 12.
Definition DPAD_DOWN : nat := 13.
Definition DPAD_LEFT : nat := 14.

(** The places of the axes in the array, by their Android number. *)
Definition axis_place (a : Z) : option nat :=
  if decide (a = 0) then Some 0%nat else if decide (a = 1) then Some 1%nat
  else if decide (a = 12) then Some 2%nat else if decide (a = 13) then Some 3%nat
  else if decide (a = 22) then Some 4%nat else if decide (a = 23) then Some 5%nat else None.
Definition hat (gp : gamepad_data) (neg pos : nat) : spec_float :=
  if default false (button gp !! neg) then fm1 else if default false (button gp !! pos) then f1 else f0.
Definition read_axis (gamepad a : Z) (w : callbacks) : spec_float :=
  match gamepads w !! gamepad with
  | None => f0
  | Some gp =>
      match axis_place a with
      | Some i => default f0 (axis gp !! i)
      | None => if decide (a = 15) then hat gp DPAD_LEFT DPAD_RIGHT else if decide (a = 16) then hat gp DPAD_UP DPAD_DOWN else f0
      end
  end.
(** [AMotionEvent_getAxisValue]; calling an empty [std::function] throws. *)
Definition getAxisValue (e : motion_event) (a : Z) (w : callbacks) : outcome exn spec_float :=
  match m_axes e with Some g => Ret (read_axis g a w) | None => Throw (runtime_error "bad_function_call") end.

Definition gamepad_key (gamepad : Z) (pressed : bool) (btn : Z) : key_event :=
  mkKey AINPUT_SOURCE_GAMEPAD gamepad (if pressed then AKEY_EVENT_ACTION_DOWN else AKEY_EVENT_ACTION_UP) (mapGamepadToAndroidKey btn).
Definition is_dpad (btn : Z) : bool := bool_decide (11 <= btn <= 14).

Definition onGamepadButton (gamepad btn : Z) (pressed : bool) (w : callbacks) : outcome exn callbacks :=
  match gamepads w !! gamepad with
  | None => Ret w
  | Some gp =>
      if decide (btn < 0 \/ 15 <= btn) then Throw (runtime_error "bad button id")
      else match button gp !! Z.to_nat btn with
           | None => Undef
           | Some b =>
               if decide (b = pressed) then Ret w else
               let w := set_gamepads (<[gamepad := mkData (axis gp) (<[Z.to_nat btn := pressed]> (button gp))]> (gamepads w)) w in
               if is_dpad btn then Ret (queueGamepadAxisInputIfNeeded gamepad w)
               else Ret (enqueue (InputQueue.key (gamepad_key gamepad pressed btn)) w)
           end
  end.
Definition onGamepadAxis (gamepad ax : Z) (value : spec_float) (w : callbacks) : outcome exn callbacks :=
  match gamepads w !! gamepad with
  | None => Ret w
  | Some gp =>
      if decide (ax < 0 \/ 6 <= ax) then Throw (runtime_error "bad axis id")
      else Ret (queueGamepadAxisInputIfNeeded gamepad
             (set_gamepads (<[gamepad := mkData (<[Z.to_nat ax := value]> (axis gp)) (button gp)]> (gamepads w)) w))
  end.

(** ** All callbacks *)
Inductive call : Type :=
| c_size (width height : Z) | c_close
| c_mouse_button (x y : spec_float) (btn : Z) (action : MouseButtonAction)
| c_mouse_position (x y : spec_float) | c_mouse_relative (x y : spec_float)
| c_mouse_scroll (x y dx dy : spec_float)
| c_touch_start (id : Z) (x y : spec_float) | c_touch_update (id : Z) (x y : spec_float) | c_touch_end (id : Z) (x y : spec_float)
| c_keyboard (key : KeyCode) (action : KeyAction) | c_text (t : bytes) | c_paste (t : bytes)
| c_gamepad_state (gamepad : Z) (connected : bool) | c_gamepad_button (gamepad btn : Z) (pressed : bool)
| c_gamepad_axis (gamepad ax : Z) (value : spec_float).

Definition perform (added removed : bool) (c : call) (w : callbacks) : outcome exn (callbacks * list effect) :=
  match c with
  | c_size width height => Ret (w, [onWindowResized width height])
  | c_close => Ret (w, [onWindowClosed])
  | c_mouse_button x y btn action => onMouseButton x y btn action w
  | c_mouse_position x y => onMousePosition x y w
  | c_mouse_relative x y => onMouseRelativePosition x y w
  | c_mouse_scroll x y dx dy => onMouseScroll x y dx dy w
  | c_touch_start id x y => Ret (onTouchStart id x y w, [])
  | c_touch_update id x y => Ret (onTouchUpdate id x y w, [])
  | c_touch_end id x y => Ret (onTouchEnd id x y w, [])
  | c_keyboard k action => onKeyboard k action w
  | c_text t => onKeyboardText t w
  | c_paste t => onPaste t w
  | c_gamepad_state gamepad connected => Ret (onGamepadState added removed gamepad connected w)
  | c_gamepad_button gamepad btn pressed => w ← onGamepadButton gamepad btn pressed w; Ret (w, [])
  | c_gamepad_axis gamepad ax value => w ← onGamepadAxis gamepad ax value w; Ret (w, [])
  end.

(** ** Gamepads as the game sees them *)
Lemma fresh_address q : fresh q ∉ addresses q.
Proof.
  unfold fresh. intros Hin. assert (H : Forall (fun k => k <= list_max (addresses q))%nat (addresses q)) by (by apply list_max_le).
  rewrite List.Forall_forall in H. apply list_elem_of_In in Hin. specialize (H _ Hin). lia.
Qed.

Fixpoint perform_all (added removed : bool) (cs : list call) (w : callbacks) : outcome exn (callbacks * list effect) :=
  match cs with
  | [] => Ret (w, [])
  | c :: cs => '(w, o1) ← perform added removed c w; '(w, o2) ← perform_all added removed cs w; Ret (w, o1 ++ o2)
  end.

(** What the calls so far, newest first, say about a gamepad: whether it is plugged in, whether a button of it is
    held and where an axis of it is.  Calls for a gamepad that is not plugged in say nothing. *)
Fixpoint plugged (g : Z) (h : list call) : bool :=
  match h with
  | [] => false
  | c_gamepad_state g' b :: h => if decide (g' = g) then b else plugged g h
  | _ :: h => plugged g h
  end.
Fixpoint held (g b : Z) (h : list call) : bool :=
  match h with
  | [] => false
  | c_gamepad_state g' false :: h => if decide (g' = g) then false else held g b h
  | c_gamepad_button g' b' p :: h => if decide (g' = g /\ b' = b /\ plugged g h = true) then p else held g b h
  | _ :: h => held g b h
  end.
Fixpoint position (g a : Z) (h : list call) : spec_float :=
  match h with
  | [] => f0
  | c_gamepad_state g' false :: h => if decide (g' = g) then f0 else position g a h
  | c_gamepad_axis g' a' v :: h => if decide (g' = g /\ a' = a /\ plugged g h = true) then v else position g a h
  | _ :: h => position g a h
  end.
Definition direction (neg pos : bool) : spec_float := if neg then fm1 else if pos then f1 else f0.
(** The axes of Android by their numbers: X, Y, RX, RY, the triggers as GAS and BRAKE, and the cross as two hats. *)
Definition seen (g a : Z) (h : list call) : spec_float :=
  match a with
  | 0 => position g 0 h | 1 => position g 1 h | 12 => position g 2 h | 13 => position g 3 h | 22 => position g 4 h | 23 => position g 5 h
  | 15 => direction (held g 14 h) (held g 12 h)
  | 16 => direction (held g 11 h) (held g 13 h)
  | _ => f0
  end.

Definition data_tracks (g : Z) (h : list call) (d : gamepad_data) : Prop :=
  length (axis d) = 6%nat /\ length (button d) = 15%nat /\ (forall b, 0 <= b < 15 -> button d !! Z.to_nat b = Some (held g b h)) /\
  forall a, 0 <= a < 6 -> axis d !! Z.to_nat a = Some (position g a h).
Definition tracked (g : Z) (h : list call) (o : option gamepad_data) : Prop :=
  match o with
  | Some d => plugged g h = true /\ data_tracks g h d
  | None => plugged g h = false /\ (forall b, held g b h = false) /\ forall a, position g a h = f0
  end.
Definition tracks (h : list call) (w : callbacks) : Prop := forall g, tracked g h (gamepads w !! g).
(** Two histories that say the same of a gamepad. *)
Definition same_gamepad (g : Z) (h h' : list call) : Prop :=
  plugged g h' = plugged g h /\ (forall b, held g b h' = held g b h) /\ forall a, position g a h' = position g a h.
Lemma tracked_same g h h' o : same_gamepad g h h' -> tracked g h o -> tracked g h' o.
Proof.
  intros (Hp & Hb & Ha). destruct o as [d|]; cbn; rewrite Hp.
  - intros (? & ? & ? & Hb' & Ha'). split; [done|]. split_and!; try done; intros k Hk; [rewrite Hb|rewrite Ha]; auto.
  - intros (? & Hb' & Ha'). split_and!; [done|intros k; by rewrite Hb|intros k; by rewrite Ha].
Qed.
Lemma other_gamepad g g0 h : g0 <> g ->
  (forall b, same_gamepad g h (c_gamepad_state g0 b :: h)) /\ (forall b p, same_gamepad g h (c_gamepad_button g0 b p :: h)) /\ forall a v, same_gamepad g h (c_gamepad_axis g0 a v :: h).
Proof.
  intros Hn. split_and!; intros b; [destruct b|intros p..]; split_and!; try done; intros; cbn; rewrite ?decide_False; try done; by intros [? _].
Qed.
Lemma unplugged_ignored g h : plugged g h = false -> (forall b p, same_gamepad g h (c_gamepad_button g b p :: h)) /\ forall a v, same_gamepad g h (c_gamepad_axis g a v :: h).
Proof. intros Hp. split; intros b v; split_and!; try done; intros k; cbn; rewrite decide_False; try done; intros (_ & _ & ?); congruence. Qed.

Definition gamepad_call (c : call) : bool := match c with c_gamepad_state _ _ | c_gamepad_button _ _ _ | c_gamepad_axis _ _ _ => true | _ => false end.
Lemma other_call_silent c h g : gamepad_call c = false -> same_gamepad g h (c :: h).
Proof. by destruct c. Qed.
Lemma onKeyboard_gamepads k a w w' out : onKeyboard k a w = Ret (w', out) -> gamepads w' = gamepads w.
Proof.
  unfold onKeyboard. intros ([w1 e1] & H1 & H)%bind_ret_inv. assert (gamepads w1 = gamepads w) as <-.
  { assert (gamepads (update_ctrl k a w) = gamepads w) as <- by (unfold update_ctrl; by case_decide). unfold copy_or_edit in H1. destruct (_ && _); apply bind_ret_inv in H1 as (? & _ & H1); by simplify_eq. }
  destruct (toggle_fullscreen k a w1) as [w2 e2] eqn:H2. destruct (pass_key k a w2) as [w3 e3] eqn:H3. simplify_eq.
  assert (gamepads w2 = gamepads w1) as <- by (unfold toggle_fullscreen in H2; case_decide; by simplify_eq).
  unfold pass_key in H3. destruct (_ && _), a; by simplify_eq.
Qed.
Lemma onTextInput_gamepads t w w' out : onTextInput t w = Ret (w', out) -> gamepads w' = gamepads w.
Proof. unfold onTextInput. intros ([h o] & _ & H)%bind_ret_inv. by simplify_eq. Qed.
Lemma other_call_gamepads added removed c w w' out : gamepad_call c = false -> perform added removed c w = Ret (w', out) -> gamepads w' = gamepads w.
Proof.
  intros Hc. destruct c; try done; cbn [perform]; try (intros; by simplify_eq).
  - unfold onMouseButton. case_decide; [intros; by simplify_eq|]. case_decide; [apply onKeyboard_gamepads|].
    case_match; [|case_match; intros; by simplify_eq]. intros (? & _ & (? & _ & ?)%bind_ret_inv)%bind_ret_inv. by simplify_eq.
  - unfold onMousePosition. case_match; [intros (? & _ & (? & _ & ?)%bind_ret_inv)%bind_ret_inv|intros ?]; by simplify_eq.
  - unfold onMouseRelativePosition. case_match; [intros (? & _ & (? & _ & ?)%bind_ret_inv)%bind_ret_inv|intros ?]; by simplify_eq.
  - unfold onMouseScroll. intros (? & _ & H)%bind_ret_inv. revert H. case_match; [intros (? & _ & (? & _ & ?)%bind_ret_inv)%bind_ret_inv|intros ?]; by simplify_eq.
  - apply onKeyboard_gamepads.
  - unfold onKeyboardText. case_decide; [intros; by simplify_eq|apply onTextInput_gamepads].
  - apply onTextInput_gamepads.
Qed.
Lemma gamepads_queue_axis g w : gamepads (queueGamepadAxisInputIfNeeded g w) = gamepads w.
Proof. unfold queueGamepadAxisInputIfNeeded. by case_match. Qed.

Lemma state_tracks g0 b added removed h w : tracks h w -> tracks (c_gamepad_state g0 b :: h) (fst (onGamepadState added removed g0 b w)).
Proof.
  intros H g. cbn [fst onGamepadState gamepads set_gamepads]. destruct (decide (g0 = g)) as [->|Hn].
  2: { apply (tracked_same g h); [by apply other_gamepad|]. destruct b; [|by rewrite lookup_delete_ne]. destruct (gamepads w !! g0); [done|by rewrite lookup_insert_ne]. }
  specialize (H g). destruct b.
  - destruct (gamepads w !! g) as [d|] eqn:E; [rewrite E|rewrite lookup_insert_eq]; unfold tracked, data_tracks in *; cbn [plugged held position]; rewrite decide_True by done.
    + by destruct H.
    + destruct H as (_ & Hb & Ha). split_and!; try done; intros k Hk; [rewrite Hb; apply (lookup_replicate_2 15 false)|rewrite Ha; apply (lookup_replicate_2 6 f0)]; lia.
  - rewrite lookup_delete_eq. cbn. rewrite decide_True by done. split_and!; [done|intros k; by rewrite decide_True..].
Qed.
Lemma button_cases g b p w h : tracks h w ->
  match gamepads w !! g with
  | None => onGamepadButton g b p w = Ret w
  | Some d =>
      onGamepadButton g b p w =
        if decide (0 <= b < 15) then
          if decide (held g b h = p) then Ret w
          else let w' := set_gamepads (<[g := mkData (axis d) (<[Z.to_nat b := p]> (button d))]> (gamepads w)) w in
               Ret (if is_dpad b then queueGamepadAxisInputIfNeeded g w' else enqueue (InputQueue.key (gamepad_key g p b)) w')
        else Throw (runtime_error "bad button id")
  end.
Proof.
  intros H. specialize (H g). unfold onGamepadButton. destruct (gamepads w !! g) as [d|]; [|done]. destruct H as (_ & _ & _ & Hb & _).
  destruct (decide (0 <= b < 15)) as [Hr|Hr]; [rewrite decide_False by lia|by rewrite decide_True by lia]. rewrite (Hb b Hr). case_decide; [done|]. by destruct (is_dpad b).
Qed.
Lemma button_tracks g0 b p h w w' : tracks h w -> onGamepadButton g0 b p w = Ret w' -> tracks (c_gamepad_button g0 b p :: h) w'.
Proof.
  intros H E g. pose proof (button_cases g0 b p w h H) as Hc. rewrite E in Hc. pose proof (H g0) as Hg0. pose proof (H g) as Hg.
  destruct (gamepads w !! g0) as [d|] eqn:E0.
  2: { injection Hc as ->. apply (tracked_same g h); [|done]. destruct (decide (g0 = g)) as [<-|Hn]; [apply unplugged_ignored, Hg0|by apply other_gamepad]. }
  destruct Hg0 as (Hp & Hl1 & Hl2 & Hb & Ha). destruct (decide (0 <= b < 15)) as [Hr|]; [|done].
  assert (gamepads w' !! g = if decide (g0 = g) then Some (mkData (axis d) (<[Z.to_nat b := p]> (button d))) else gamepads w !! g) as ->.
  { destruct (decide (held g0 b h = p)) as [Hh|Hh]; injection Hc as ->.
    - case_decide; [subst g|done]. rewrite E0, list_insert_id; [by destruct d|]. rewrite Hb by done. by f_equal.
    - destruct (is_dpad b); [rewrite gamepads_queue_axis|]; cbn; (case_decide; [subst g; apply lookup_insert_eq|by apply lookup_insert_ne]). }
  destruct (decide (g0 = g)) as [<-|Hn]; [|apply (tracked_same g h); [by apply other_gamepad|done]].
  split; [done|]. split_and!; [done|cbn; by rewrite length_insert| |done]. intros k Hk. cbn. destruct (decide (k = b)) as [->|Hkb].
  - rewrite decide_True by done. apply list_lookup_insert_eq. lia.
  - rewrite decide_False by (intros (_ & ? & _); congruence). rewrite list_lookup_insert_ne by lia. auto.
Qed.
Lemma axis_tracks g0 a v h w w' : tracks h w -> onGamepadAxis g0 a v w = Ret w' -> tracks (c_gamepad_axis g0 a v :: h) w'.
Proof.
  intros H E g. pose proof (H g0) as Hg0. pose proof (H g) as Hg. unfold onGamepadAxis in E. destruct (gamepads w !! g0) as [d|] eqn:E0.
  2: { injection E as <-. apply (tracked_same g h); [|done]. destruct (decide (g0 = g)) as [<-|Hn]; [apply unplugged_ignored, Hg0|by apply other_gamepad]. }
  case_decide as Hr; [done|]. injection E as <-. rewrite gamepads_queue_axis. cbn [gamepads set_gamepads]. destruct Hg0 as (Hp & Hl1 & Hl2 & Hb & Ha).
  destruct (decide (g0 = g)) as [<-|Hn]; [|rewrite lookup_insert_ne by done; apply (tracked_same g h); [by apply other_gamepad|done]].
  rewrite lookup_insert_eq. split; [done|]. split_and!; [cbn; by rewrite length_insert|done|done|]. intros k Hk. cbn. destruct (decide (k = a)) as [->|Hka].
  - rewrite decide_True by done. apply list_lookup_insert_eq. lia.
  - rewrite decide_False by (intros (_ & ? & _); congruence). rewrite list_lookup_insert_ne by lia. auto.
Qed.
Lemma call_tracks added removed c h w w' out : tracks h w -> perform added removed c w = Ret (w', out) -> tracks (c :: h) w'.
Proof.
  intros H E. destruct (gamepad_call c) eqn:Hc.
  - destruct c; try done; cbn [perform] in E.
    + injection E as <- _. by apply (state_tracks gamepad connected added removed).
    + apply bind_ret_inv in E as (w1 & E & ?). simplify_eq. by apply button_tracks with w.
    + apply bind_ret_inv in E as (w1 & E & ?). simplify_eq. by apply axis_tracks with w.
  - intros g. rewrite (other_call_gamepads _ _ _ _ _ _ Hc E). apply (tracked_same g h); [by apply other_call_silent|apply H].
Qed.
Lemma calls_track added removed cs : forall h w w' out, tracks h w -> perform_all added removed cs w = Ret (w', out) -> tracks (rev cs ++ h) w'.
Proof.
  induction cs as [|c cs IH]; intros h w w' out H E; cbn in E |- *; [by simplify_eq|]. apply bind_ret_inv in E as ([w1 o1] & E1 & ([w2 o2] & E2 & E)%bind_ret_inv). simplify_eq.
  rewrite <- app_assoc. by apply (IH _ w1 w' o2); [apply (call_tracks added removed c h w w1 o1)|].
Qed.
Lemma tracks_seen h w g a : tracks h w -> read_axis g a w = seen g a h.
Proof.
  intros H. specialize (H g). unfold read_axis. destruct (gamepads w !! g) as [d|].
  - destruct H as (_ & _ & _ & Hb & Ha). unfold axis_place, hat.
    destruct (decide (a = 0)) as [->|]; [by rewrite (Ha 0 ltac:(lia) : axis d !! 0%nat = _)|].
    destruct (decide (a = 1)) as [->|]; [by rewrite (Ha 1 ltac:(lia) : axis d !! 1%nat = _)|].
    destruct (decide (a = 12)) as [->|]; [by rewrite (Ha 2 ltac:(lia) : axis d !! 2%nat = _)|].
    destruct (decide (a = 13)) as [->|]; [by rewrite (Ha 3 ltac:(lia) : axis d !! 3%nat = _)|].
    destruct (decide (a = 22)) as [->|]; [by rewrite (Ha 4 ltac:(lia) : axis d !! 4%nat = _)|].
    destruct (decide (a = 23)) as [->|]; [by rewrite (Ha 5 ltac:(lia) : axis d !! 5%nat = _)|].
    destruct (decide (a = 15)) as [->|]; [by rewrite (Hb 14 ltac:(lia) : button d !! DPAD_LEFT = _), (Hb 12 ltac:(lia) : button d !! DPAD_RIGHT = _)|].
    destruct (decide (a = 16)) as [->|]; [by rewrite (Hb 11 ltac:(lia) : button d !! DPAD_UP = _), (Hb 13 ltac:(lia) : button d !! DPAD_DOWN = _)|].
    unfold seen. by repeat case_match.
  - destruct H as (_ & Hb & Ha). unfold seen. rewrite !Hb, !Ha. by repeat case_match.
Qed.

(** What a button call does to the queue: nothing, or one event at a new place at its end. *)
Definition queue_grows (q q' : queue) (ks : list key_event) (ms : list motion_event) : Prop :=
  exists p, p ∉ addresses q /\ keyEvents q' = keyEvents q ++ map (pair p) ks /\ motionEvents q' = motionEvents q ++ map (pair p) ms.
Lemma queue_stays q : queue_grows q q [] [].
Proof. exists (fresh q). split_and!; [apply fresh_address|cbn; by rewrite app_nil_r..]. Qed.
Lemma queue_axis_grows g w w0 : inputQueue w0 = inputQueue w -> needsQueueGamepadInput w0 = needsQueueGamepadInput w ->
  queue_grows (inputQueue w) (inputQueue (queueGamepadAxisInputIfNeeded g w0)) [] (if needsQueueGamepadInput w then [axis_event g] else []) /\ needsQueueGamepadInput (queueGamepadAxisInputIfNeeded g w0) = false.
Proof.
  intros Eq En. unfold queueGamepadAxisInputIfNeeded. rewrite En. destruct (needsQueueGamepadInput w) eqn:E; (split; [|done || by rewrite En]).
  - exists (fresh (inputQueue w)). cbn. rewrite Eq. split_and!; [apply fresh_address|cbn; by rewrite app_nil_r|done].
  - rewrite Eq. apply queue_stays.
Qed.

(** C11. What the game learns of a gamepad is what the window reported.  After any calls to the callbacks since they
    were set up, in any order and for any gamepads, every motion event of a gamepad gives for each axis of Android
    the last value reported since the gamepad was plugged in, for the hats what the held buttons of the cross say,
    and 0 for a gamepad that is gone.  A further button call for a gamepad that is not plugged in changes nothing;
    with an id that is none of the fifteen it throws; otherwise it queues, when the button changes, a press for
    [true] and a release for [false], of that gamepad and with the code of the button, or for the cross the motion
    event that is due.  An axis call throws for an id that is none of the six, and otherwise queues the event that is due. *)
Theorem gamepads_as_reported (added removed keyboard : bool) (q : queue) (t : TextInput.handler) (cs : list call) (w : callbacks) (out : list effect)
    (Hrun : perform_all added removed cs (new_callbacks keyboard q t) = Ret (w, out)) :
  let h := rev cs in
  (forall g a e, m_axes e = Some g -> getAxisValue e a w = Ret (seen g a h)) /\
  (forall g b p, if plugged g h then
     if decide (0 <= b < 15) then exists w', onGamepadButton g b p w = Ret w' /\
       let ks := if decide (held g b h = p \/ 11 <= b <= 14) then [] else [mkKey AINPUT_SOURCE_GAMEPAD g (if p then 0 else 1) (mapGamepadToAndroidKey b)] in
       let ms := if decide (held g b h <> p /\ 11 <= b <= 14 /\ needsQueueGamepadInput w = true) then [axis_event g] else [] in
       queue_grows (inputQueue w) (inputQueue w') ks ms
     else onGamepadButton g b p w = Throw (runtime_error "bad button id")
   else onGamepadButton g b p w = Ret w) /\
  (forall g a v, if plugged g h then
     if decide (0 <= a < 6) then exists w', onGamepadAxis g a v w = Ret w' /\ queue_grows (inputQueue w) (inputQueue w') [] (if needsQueueGamepadInput w then [axis_event g] else []) /\ needsQueueGamepadInput w' = false
     else onGamepadAxis g a v w = Throw (runtime_error "bad axis id")
   else onGamepadAxis g a v w = Ret w).
Proof.
  assert (tracks (rev cs) w) as H. { rewrite <- (app_nil_r (rev cs)). apply (calls_track added removed cs [] (new_callbacks keyboard q t) w out); [|done]. intros g. cbn. by rewrite lookup_empty. }
  intros h. fold h in H. split_and!.
  - intros g a e He. unfold getAxisValue. rewrite He. by rewrite (tracks_seen h).
  - intros g b p. pose proof (button_cases g b p w h H) as Hc. specialize (H g). destruct (gamepads w !! g) as [d|] eqn:Eg; [|by destruct H as (-> & _)].
    destruct H as (-> & _). rewrite Hc. destruct (decide (0 <= b < 15)); [|done]. clear Hc.
    destruct (decide (held g b h = p)) as [Hh|Hh]; (eexists; split; [done|]); cbv zeta.
    + rewrite decide_True, decide_False by (auto || by intros [? _]). apply queue_stays.
    + unfold is_dpad. destruct (bool_decide (11 <= b <= 14)) eqn:Ed; [apply bool_decide_eq_true in Ed|apply bool_decide_eq_false in Ed].
      * destruct (queue_axis_grows g w (set_gamepads (<[g:=mkData (axis d) (<[Z.to_nat b:=p]> (button d))]> (gamepads w)) w) eq_refl eq_refl) as [Hq _]. rewrite decide_True by auto.
        destruct (needsQueueGamepadInput w); [rewrite decide_True by auto|rewrite decide_False by (by intros (_ & _ & ?))]; done.
      * rewrite decide_False by (by intros [?|?]). rewrite decide_False by (by intros (_ & ? & _)). exists (fresh (inputQueue w)). split_and!; [apply fresh_address|done|cbn; by rewrite app_nil_r].
  - intros g a v. unfold onGamepadAxis. specialize (H g). destruct (gamepads w !! g) as [d|]; [|by destruct H as (-> & _)]. destruct H as (-> & _).
    destruct (decide (0 <= a < 6)); [rewrite decide_False by lia|by rewrite decide_True by lia]. eexists. split; [done|]. by apply queue_axis_grows.
Qed.

(** ** Codes of keys *)
Definition key_codes : list Z := seqZ 0 512.
Definition inverse_keys : list (Z * Z) := map (fun k => (mapMinecraftToAndroidKey k, k)) (filter (fun k => mapMinecraftToAndroidKey k <> AKEYCODE_UNKNOWN) key_codes).

Lemma assoc_in l k : assoc l k AKEYCODE_UNKNOWN <> AKEYCODE_UNKNOWN -> k ∈ l.*1.
Proof. induction l as [|[a b] l IH]; cbn; [done|]. case_decide; set_solver. Qed.

Lemma known_key k : mapMinecraftToAndroidKey k <> AKEYCODE_UNKNOWN -> k ∈ key_codes.
Proof.
  unfold mapMinecraftToAndroidKey, key_codes. rewrite elem_of_seqZ. repeat case_decide; unfold KeyCode.NUM_0, KeyCode.NUM_9, KeyCode.A_, KeyCode.Z_, KeyCode.FN1, KeyCode.FN12 in *; try lia.
  intros Hin%assoc_in. assert (Hb : Forall (fun k => 0 <= k < 0 + 512) key_table.*1) by (repeat constructor; vm_compute; done).
  by apply (proj1 (Forall_forall _ _) Hb).
Qed.

(** Different keys of the keyboard are different keys of the game: the translation of key
    codes is injective on the keys it knows. *)
Theorem key_codes_injective (a b : KeyCode) (Hk : mapMinecraftToAndroidKey a <> AKEYCODE_UNKNOWN)
    (Hab : mapMinecraftToAndroidKey a = mapMinecraftToAndroidKey b) : a = b.
Proof.
  assert (Hinv : Forall (fun k => mapMinecraftToAndroidKey k = AKEYCODE_UNKNOWN \/ assoc inverse_keys (mapMinecraftToAndroidKey k) (-1) = k) key_codes).
  { apply (bool_decide_unpack _). by vm_compute. }
  pose proof (proj1 (Forall_forall _ _) Hinv) as H. pose proof (known_key a Hk) as Ha.
  rewrite Hab in Hk. pose proof (known_key b Hk) as Hb.
  destruct (H a Ha) as [?|<-]; [congruence|]. destruct (H b Hb) as [?|<-]; [congruence|]. by rewrite Hab.
Qed.

(** ** Buttons of gamepads *)
Definition pressed_at (g b : Z) (w : callbacks) : option bool := d ← gamepads w !! g; button d !! Z.to_nat b.
(** The presses and releases of one button among the queued key events. *)
Definition of_button (g b : Z) (k : key_event) : Prop :=
  k_source k = AINPUT_SOURCE_GAMEPAD /\ k_device k = g /\ k_code k = mapGamepadToAndroidKey b.
#[global] Instance of_button_dec g b k : Decision (of_button g b k).
Proof. unfold of_button. apply _. Defined.
Definition actions (g b : Z) (l : list (nat * key_event)) : list Z := map k_action (filter (of_button g b) l.*2).
(** Follows presses and releases that alternate, from the state [p] of the button. *)
Fixpoint replay (p : bool) (l : list Z) : option bool :=
  match l with
  | [] => Some p
  | a :: l => if decide (a = if p then AKEY_EVENT_ACTION_UP else AKEY_EVENT_ACTION_DOWN) then replay (negb p) l else None
  end.
Lemma replay_app p l1 l2 : replay p (l1 ++ l2) = replay p l1 ≫= fun q => replay q l2.
Proof. revert p. induction l1; intros p; cbn; [done|]. case_decide; [done|]. done. Qed.

(** What a call adds to the events of one button. *)
Definition follows (g b : Z) (w w' : callbacks) : Prop :=
  forall p, pressed_at g b w = Some p -> exists l p', keyEvents (inputQueue w') = keyEvents (inputQueue w) ++ l /\
    pressed_at g b w' = Some p' /\ replay p (actions g b l) = Some p'.

Lemma follows_trans g b w1 w2 w3 : follows g b w1 w2 -> follows g b w2 w3 -> follows g b w1 w3.
Proof.
  intros H1 H2 p Hp. destruct (H1 p Hp) as (l1 & p1 & E1 & Hp1 & R1). destruct (H2 p1 Hp1) as (l2 & p2 & E2 & Hp2 & R2).
  exists (l1 ++ l2), p2. split; [by rewrite E2, E1, app_assoc|]. split; [done|].
  unfold actions. rewrite fmap_app, filter_app, map_app, replay_app. unfold actions in R1. by rewrite R1.
Qed.
Lemma follows_same g b w w' : keyEvents (inputQueue w') = keyEvents (inputQueue w) -> pressed_at g b w' = pressed_at g b w -> follows g b w w'.
Proof. intros Hq Hp p Ep. exists [], p. rewrite Hq, Hp, app_nil_r. done. Qed.
Lemma follows_key g b k w : ~ of_button g b k -> follows g b w (enqueue (InputQueue.key k) w).
Proof.
  intros Hk p Ep. exists [(fresh (inputQueue w), k)], p. split; [done|]. split; [done|].
  unfold actions. cbn. by rewrite decide_False by done.
Qed.
#[local] Hint Resolve follows_same : launcher.

Lemma keyboard_not_button g b a c : ~ of_button g b (FakeKeyEvent a c).
Proof. by intros (H & _). Qed.
#[local] Hint Resolve follows_key keyboard_not_button : launcher.

Lemma onTextInput_follows g b t w w' out : onTextInput t w = Ret (w', out) -> follows g b w w'.
Proof. unfold onTextInput. intros ([h o] & _ & H)%bind_ret_inv. simplify_eq. by apply follows_same. Qed.

Lemma onKeyboard_follows g b k a w w' out : onKeyboard k a w = Ret (w', out) -> follows g b w w'.
Proof.
  unfold onKeyboard. intros ([w1 e1] & H1 & H)%bind_ret_inv.
  destruct (toggle_fullscreen k a w1) as [w2 e2] eqn:H2. destruct (pass_key k a w2) as [w3 e3] eqn:H3. simplify_eq.
  apply follows_trans with (update_ctrl k a w); [apply follows_same; unfold update_ctrl; by case_decide|].
  apply follows_trans with w1.
  { unfold copy_or_edit in H1. case_match; apply bind_ret_inv in H1 as (? & _ & H1); simplify_eq; by apply follows_same. }
  apply follows_trans with w2; [unfold toggle_fullscreen in H2; case_decide; simplify_eq; by apply follows_same|].
  unfold pass_key in H3. case_match; simplify_eq; [by apply follows_same|].
  destruct a; simplify_eq; auto using follows_same with launcher.
Qed.

Lemma touch_follows g b a i x y w : follows g b w (enqueue (touch_event a i x y) w).
Proof. by apply follows_same. Qed.
Lemma queue_axis_follows g b g' w : follows g b w (queueGamepadAxisInputIfNeeded g' w).
Proof. unfold queueGamepadAxisInputIfNeeded. case_match; by apply follows_same. Qed.

(** The codes of the buttons differ. *)
Lemma button_codes_injective a b : 0 <= a < 15 -> 0 <= b < 15 -> mapGamepadToAndroidKey a = mapGamepadToAndroidKey b -> a = b.
Proof.
  intros Ha Hb. unfold mapGamepadToAndroidKey. rewrite !decide_False by lia.
  destruct (lookup_lt_is_Some_2 button_table (Z.to_nat a)) as [x Hx]; [cbn; lia|].
  destruct (lookup_lt_is_Some_2 button_table (Z.to_nat b)) as [y Hy]; [cbn; lia|]. rewrite Hx, Hy. cbn. intros ->.
  assert (Hd : NoDup button_table) by (apply (bool_decide_unpack _); by vm_compute).
  pose proof (NoDup_lookup _ _ _ _ Hd Hx Hy). lia.
Qed.

Lemma pressed_set_axis g b g' d l w : gamepads w !! g' = Some d ->
  pressed_at g b (set_gamepads (<[g' := mkData l (button d)]> (gamepads w)) w) = pressed_at g b w.
Proof.
  intros Ed. unfold pressed_at. cbn. destruct (decide (g' = g)) as [->|]; [by rewrite lookup_insert_eq, Ed|by rewrite lookup_insert_ne].
Qed.
Lemma pressed_set_button g b g' b' d v w : gamepads w !! g' = Some d -> 0 <= b' < 15 -> 0 <= b < 15 -> ~ (g' = g /\ b' = b) ->
  pressed_at g b (set_gamepads (<[g' := mkData (axis d) (<[Z.to_nat b' := v]> (button d))]> (gamepads w)) w) = pressed_at g b w.
Proof.
  intros Ed Hb' Hb Hn. unfold pressed_at. cbn. destruct (decide (g' = g)) as [->|]; [|by rewrite lookup_insert_ne].
  rewrite lookup_insert_eq, Ed. cbn. rewrite list_lookup_insert_ne; [done|]. intros E. apply Hn. split; [done|lia].
Qed.

Lemma gamepad_button_follows g b g' b' v w w' : 0 <= b < 15 -> is_dpad b = false -> onGamepadButton g' b' v w = Ret w' -> follows g b w w'.
Proof.
  intros Hb Hd. unfold onGamepadButton. destruct (gamepads w !! g') as [d|] eqn:Ed; [|intros; simplify_eq; by apply follows_same].
  case_decide as Hr; [done|]. destruct (button d !! Z.to_nat b') as [old|] eqn:Eb; [|done].
  case_decide as Hv; [intros; simplify_eq; by apply follows_same|].
  destruct (decide (g' = g /\ b' = b)) as [[-> ->]|Hn].
  - rewrite Hd. intros [= <-] p Hp. unfold pressed_at in Hp. rewrite Ed in Hp. cbn in Hp. simplify_eq.
    exists [(fresh (inputQueue w), gamepad_key g v b)], v. split; [done|]. split.
    + unfold pressed_at. cbn. rewrite lookup_insert_eq. cbn. apply list_lookup_insert_eq, lookup_lt_is_Some. eauto.
    + unfold actions. cbn. rewrite decide_True by done. by destruct old, v.
  - set (w1 := set_gamepads _ w). assert (H1 : follows g b w w1) by (apply follows_same; [done|apply pressed_set_button; (done || lia)]).
    case_match; intros [= <-]; (eapply follows_trans; [exact H1|]); [apply queue_axis_follows|].
    apply follows_key. intros (_ & Eg & Ec). cbn in Eg, Ec. apply Hn. split; [done|]. apply button_codes_injective; (done || lia).
Qed.

Lemma perform_follows added removed g b c w w' out : 0 <= b < 15 -> is_dpad b = false -> c <> c_gamepad_state g false ->
  perform added removed c w = Ret (w', out) -> follows g b w w'.
Proof.
  intros Hb Hd Hc. destruct c; cbn [perform].
  3: { unfold onMouseButton. case_decide; [intros; simplify_eq; by apply follows_same|]. case_decide; [apply onKeyboard_follows|].
       case_match; [|case_match; intros; simplify_eq; by apply touch_follows].
       intros (? & _ & (? & _ & ?)%bind_ret_inv)%bind_ret_inv. simplify_eq. by apply follows_same. }
  3-4: unfold onMousePosition, onMouseRelativePosition; case_match; [intros (? & _ & (? & _ & ?)%bind_ret_inv)%bind_ret_inv|intros ?]; simplify_eq; by apply follows_same.
  3: { unfold onMouseScroll. intros (? & _ & H)%bind_ret_inv. revert H. case_match; [intros (? & _ & (? & _ & ?)%bind_ret_inv)%bind_ret_inv|intros ?]; simplify_eq; by apply follows_same. }
  1-5: intros; simplify_eq; by apply follows_same.
  - apply onKeyboard_follows.
  - unfold onKeyboardText. case_decide; [intros; simplify_eq; by apply follows_same|apply onTextInput_follows].
  - apply onTextInput_follows.
  - intros; simplify_eq. intros p Hp. exists [], p. rewrite app_nil_r. split; [done|]. split; [|done]. unfold pressed_at in *. cbn.
    destruct connected; [|rewrite lookup_delete_ne; [done|congruence]]. destruct (gamepads w !! gamepad) eqn:E; [done|].
    rewrite lookup_insert_ne; [done|]. intros ->. by rewrite E in Hp.
  - intros (w1 & H & ?)%bind_ret_inv. simplify_eq. by eapply gamepad_button_follows.
  - intros (w1 & H & ?)%bind_ret_inv. simplify_eq. unfold onGamepadAxis in H.
    destruct (gamepads w !! gamepad) as [d|] eqn:Ed; [|simplify_eq; by apply follows_same]. case_decide; [done|]. simplify_eq.
    eapply follows_trans; [|apply queue_axis_follows]. apply follows_same; [done|by apply pressed_set_axis].
Qed.

(** C16. Buttons do not get stuck while a gamepad is connected: whatever else happens, the
    key events queued for a button of a gamepad are presses and releases in alternation, and
    the last one agrees with the state of the button. *)
Theorem gamepad_buttons_alternate (added removed : bool) (cs : list call) (w w' : callbacks) (out : list effect) (g b : Z) (p : bool)
    (Hb : 0 <= b < 15) (Hd : is_dpad b = false) (Hp : pressed_at g b w = Some p)
    (Hc : Forall (fun c => c <> c_gamepad_state g false) cs) (Hrun : perform_all added removed cs w = Ret (w', out)) :
  exists l p', keyEvents (inputQueue w') = keyEvents (inputQueue w) ++ l /\ pressed_at g b w' = Some p' /\ replay p (actions g b l) = Some p'.
Proof.
  assert (Hf : follows g b w w'); [|by apply Hf]. clear p Hp. revert w out Hrun.
  induction Hc as [|c cs Hc _ IH]; intros w out Hrun; cbn in Hrun; [simplify_eq; by apply follows_same|].
  apply bind_ret_inv in Hrun as ([w1 o1] & H1 & ([w2 o2] & H2 & H)%bind_ret_inv). simplify_eq.
  eapply follows_trans; [by eapply perform_follows|by eapply IH].
Qed.

Lemma needs_queue_axis g w : needsQueueGamepadInput (queueGamepadAxisInputIfNeeded g w) = false.
Proof. unfold queueGamepadAxisInputIfNeeded. by destruct (needsQueueGamepadInput w) eqn:E. Qed.

(** One flag stands for all gamepads: after an axis of one gamepad moved, movements of
    the axes of another are not queued until the looper is idle, so the game is not told. *)
Theorem second_gamepad_unreported (g1 g2 a1 a2 : Z) (v1 v2 : spec_float) (w : callbacks) (d1 d2 : gamepad_data)
    (H1 : gamepads w !! g1 = Some d1) (H2 : gamepads w !! g2 = Some d2) (Hne : g1 <> g2) (Ha1 : 0 <= a1 < 6) (Ha2 : 0 <= a2 < 6) :
  exists w1 w2, onGamepadAxis g1 a1 v1 w = Ret w1 /\ onGamepadAxis g2 a2 v2 w1 = Ret w2 /\ inputQueue w2 = inputQueue w1.
Proof.
  unfold onGamepadAxis at 1. rewrite H1, decide_False by lia. eexists. eexists. split; [done|]. unfold onGamepadAxis.
  rewrite gamepads_queue_axis. cbn [gamepads set_gamepads]. rewrite lookup_insert_ne, H2, decide_False by (done || lia). split; [done|].
  unfold queueGamepadAxisInputIfNeeded at 1. cbn [needsQueueGamepadInput set_gamepads]. by rewrite needs_queue_axis.
Qed.

(** The game never learns that a gamepad is gone: [setGameControllerConnected] tests
    [connected] where it means its negation. *)
Theorem removal_never_reported (added removed : bool) (g : Z) (w : callbacks) :
  (onGamepadState added removed g false w).2 = [] /\
  (onGamepadState false true g true w).2 = [onInputDeviceRemoved g].
Proof. done. Qed.

(** ** Examples *)
Definition w_start : callbacks := new_callbacks false no_events TextInput.new_handler.
Definition w_pads : callbacks := set_gamepads {[ 0 := new_data; 1 := new_data ]} w_start.

Definition pad_calls : list call :=
  [c_gamepad_state 1 true; c_gamepad_button 1 3 true; c_keyboard 65 PRESS; c_gamepad_axis 1 2 f1; c_gamepad_button 1 12 true; c_gamepad_button 2 3 true].
Definition pad_window : callbacks := match perform_all true true pad_calls w_start with Ret (w, _) => w | _ => w_start end.
Lemma gamepads_as_reported_witness :
  (getAxisValue (axis_event 1) 12 pad_window, getAxisValue (axis_event 1) 15 pad_window, getAxisValue (axis_event 2) 12 pad_window) = (Ret f1, Ret f1, Ret f0) /\
  onGamepadButton 1 15 true pad_window = Throw (runtime_error "bad button id") /\ onGamepadButton 2 15 true pad_window = Ret pad_window.
Proof.
  destruct (gamepads_as_reported true true false no_events TextInput.new_handler pad_calls pad_window [onInputDeviceAdded 1]) as (Hs & Hb & _); [vm_compute; reflexivity|].
  split; [rewrite (Hs 1 12 (axis_event 1) eq_refl), (Hs 1 15 (axis_event 1) eq_refl), (Hs 2 12 (axis_event 2) eq_refl); reflexivity|]. split; [exact (Hb 1 15 true)|exact (Hb 2 15 true)].
Defined.

Lemma key_codes_injective_witness : mapMinecraftToAndroidKey 65 = 29 /\ 65 = KeyCode.A_.
Proof. split; [done|]. by apply (key_codes_injective 65 KeyCode.A_). Defined.

Lemma gamepad_buttons_alternate_witness : exists w' out l,
  perform_all true true [c_gamepad_button 1 0 true; c_keyboard 65 PRESS; c_gamepad_button 0 0 true; c_gamepad_button 1 0 false] w_pads = Ret (w', out) /\
  keyEvents (inputQueue w') = l /\ replay false (actions 1 0 l) = Some false /\ actions 1 0 l = [0; 1].
Proof.
  set (cs := [c_gamepad_button 1 0 true; c_keyboard 65 PRESS; c_gamepad_button 0 0 true; c_gamepad_button 1 0 false]).
  destruct (perform_all true true cs w_pads) as [[w' out]| | |] eqn:E; [|vm_compute in E; done..].
  destruct (gamepad_buttons_alternate true true cs w_pads w' out 1 0 false) as (l & p' & Hl & Hp & Hr); try done.
  { repeat constructor; done. }
  exists w', out, l. split; [done|]. split; [done|]. cbn in Hl.
  assert (Ev : (pressed_at 1 0 w' , actions 1 0 (keyEvents (inputQueue w'))) = (Some false, [0; 1])).
  { vm_compute in E. injection E as <- _. by vm_compute. }
  injection Ev as Ep Ea. rewrite Hl in Ea. rewrite Ep in Hp. injection Hp as <-. by split.
Defined.

Lemma second_gamepad_unreported_witness : exists w1 w2,
  onGamepadAxis 0 0 f1 w_pads = Ret w1 /\ onGamepadAxis 1 0 f1 w1 = Ret w2 /\ inputQueue w2 = inputQueue w1.
Proof. by apply (second_gamepad_unreported 0 1 0 0 f1 f1 w_pads new_data new_data). Defined.

End WindowCallbacks.
