(* ===== verification/PatchUtils.v ===== *)
(** * Patching the game (mcpelauncher-core)

    [PatchUtils] (patch_utils.cpp): searching the code of a library for a pattern of
    bytes, writing a call or jump instruction, replacing entries of a vtable; and
    [MinecraftVersion] (minecraft_version.h). *)

From S2P Require Import Prelude CxxString.
From Stdlib Require Import ZArith Ascii Lia.
From stdpp Require Import base list strings numbers.

Open Scope Z_scope.

Module PatchUtils.

(** ** [strtoul] in base 16 *)
Definition hex_value (c : ascii) : option Z :=
  if decide (48 <= uchar c <= 57) then Some (uchar c - 48)
  else if decide (65 <= uchar c <= 70) then Some (uchar c - 55)
  else if decide (97 <= uchar c <= 102) then Some (uchar c - 87)
  else None.
Fixpoint hex_digits (s : bytes) (acc : Z) : Z :=
  match s with
  | c :: r => match hex_value c with Some d => hex_digits r (acc * 16 + d) | None => acc end
  | [] => acc
  end.
(** An optional [0x], which counts only when a digit follows. *)
Definition skip_0x (s : bytes) : bytes :=
  match s with
  | z :: x :: c :: r =>
      if decide (z = "0"%char /\ (x = "x"%char \/ x = "X"%char)) then match hex_value c with Some _ => c :: r | None => s end else s
  | _ => s
  end.
(** Negative numbers wrap around, large ones are cut to the largest. *)
Definition strtoul16 (s : bytes) : Z :=
  let '(neg, r) := match skip_space s with
                   | c :: r => if decide (c = "-"%char) then (true, r) else if decide (c = "+"%char) then (false, r) else (false, c :: r)
                   | [] => (false, [])
                   end in
  let v := hex_digits (skip_0x r) 0 in
  if decide (2 ^ 64 <= v) then 2 ^ 64 - 1 else if neg : bool then wrapu 64 (- v) else v.

(** ** Patterns *)

(** The bytes and the masks of a pattern.  Each element takes two characters, of which the number
    is read without looking at where it ends. *)
Fixpoint parse_pattern (p : bytes) : list (Z * Z) :=
  match p with
  | c0 :: ((c1 :: r) as p') =>
      if decide (c0 = " "%char) then parse_pattern p'
      else if decide (c0 = "?"%char /\ c1 = "?"%char) then (0, 0) :: parse_pattern r
      else (wrapu 8 (strtoul16 p), 255) :: parse_pattern r
  | _ => []
  end.

(** The inner loop; the code region is read at [i + j]. *)
Fixpoint matches (pat : list (Z * Z)) (code : list Z) (i : nat) : outcome exn bool :=
  match pat with
  | [] => Ret true
  | (raw, mask) :: pat =>
      match code !! i with
      | Some b => if decide (raw = Z.land b mask) then matches pat code (S i) else Ret false
      | None => Undef
      end
  end.
(** [for (i = size - length; i > 0; --i)] *)
Fixpoint search (pat : list (Z * Z)) (code : list Z) (i : nat) : outcome exn (option nat) :=
  match i with
  | O => Ret None
  | S i' => b ← matches pat code i; if b : bool then Ret (Some i) else search pat code i'
  end.
(** The offset of the result in the code region.  When the pattern is longer than the region,
    [size - length] wraps around. *)
Definition patternSearch (code : list Z) (pattern : bytes) : outcome exn (option nat) :=
  let pat := parse_pattern pattern in
  if decide (length code < length pat)%nat then Undef else search pat code (length code - length pat).

(** ** Call instructions *)
Definition memory : Type := Z -> Z.
Definition poke (a v : Z) (m : memory) : memory := fun x => if decide (x = a) then v else m x.
Fixpoint poke_all (a : Z) (l : list Z) (m : memory) : memory :=
  match l with [] => m | b :: l => poke_all (a + 1) l (poke a b m) end.
(** The bytes of an [int], in little-endian order. *)
Definition le32 (v : Z) : list Z := map (fun k => Z.land (Z.shiftr v (8 * k)) 255) [0; 1; 2; 3].

(** The opcode is written before the distance is checked; an exception leaves it. *)
Definition patchCallInstruction (patchOff func : Z) (jump : bool) (m : memory) : outcome (memory * exn) memory :=
  let m := poke patchOff (if jump then 233 else 232) m in
  let ptr := func - patchOff - 5 in
  if decide (2 ^ 31 - 1 < ptr \/ ptr < - 2 ^ 31) then Throw (m, runtime_error "patchCallInstruction: out of range")
  else Ret (poke_all (patchOff + 1) (le32 (wrapu 32 ptr)) m).

(** The build for ARM: a load of the program counter from the word behind the instruction; the
    lowest bit of the address marks Thumb code. *)
Definition patchCallInstruction_arm (patchOff func : Z) (jump : bool) (m : memory) : outcome (memory * exn) memory :=
  if negb jump then Throw (m, runtime_error "Non-jump patches not supported in ARM mode")
  else
    let thumb := bool_decide (Z.land patchOff 1 <> 0) in
    let data := if thumb then patchOff - 1 else patchOff in
    let m := poke_all data (if thumb then [223; 248; 0; 240] else [4; 240; 31; 229]) m in
    Ret (poke_all (data + 4) (le32 (wrapu 32 func)) m).

(** What the processor does at [a]: the kind of the instruction and where it continues. *)
Definition peek32 (a : Z) (m : memory) : Z := m a + 256 * m (a + 1) + 65536 * m (a + 2) + 16777216 * m (a + 3).
Definition branch (a : Z) (m : memory) : option (bool * Z) :=
  let target := a + 5 + wraps 32 (peek32 (a + 1) m) in
  if decide (m a = 233) then Some (true, target) else if decide (m a = 232) then Some (false, target) else None.

(** ** Vtables: lists of pointers that end with a null pointer *)
Fixpoint replace_from (i : nat) (ref : list Z) (sym repl : Z) (vt : list Z) : outcome exn (list Z) :=
  match ref with
  | [] => Undef
  | p :: ref =>
      if decide (p = 0) then Ret vt
      else if decide (p = sym) then (if decide (i < length vt)%nat then Ret (<[i := repl]> vt) else Undef)
      else replace_from (S i) ref sym repl vt
  end.
Definition replace (ref vt : list Z) (sym repl : Z) : outcome exn (list Z) := replace_from 0 ref sym repl vt.

(** By name; [dlsym] is the linker's. *)
Definition replace_name (dlsym : bytes -> Z) (ref vt : list Z) (name : bytes) (repl : Z) : outcome exn (list Z) := replace ref vt (dlsym name) repl.

Fixpoint null_from (i : nat) (vt : list Z) : outcome exn nat :=
  match vt with
  | [] => Undef
  | p :: vt => if decide (p = 0) then Ret i else null_from (S i) vt
  end.
Definition getVtableSize (vt : list Z) : outcome exn nat := null_from 2 (drop 2 vt).

(** ** Versions *)
Record version := mkVersion { major : Z; minor : Z; patch : Z; revision : Z }.
Definition version_init : version := mkVersion 0 0 0 0.
Definition isAtLeast (v w : version) : bool :=
  bool_decide (major v > major w) || (bool_decide (major v = major w) &&
    (bool_decide (minor v > minor w) || (bool_decide (minor v = minor w) &&
    (bool_decide (patch v > patch w) || (bool_decide (patch v = patch w) && bool_decide (revision v >= revision w)))))).
Definition isExactly (v w : version) : bool :=
  bool_decide (major v = major w) && bool_decide (minor v = minor w) && bool_decide (revision v = revision w) && bool_decide (patch v = patch w).
Definition getString (v : version) : bytes :=
  to_string (major v) ++ lit "." ++ to_string (minor v) ++ lit "." ++ to_string (patch v) ++ lit "." ++ to_string (revision v).

(** ** Patterns as they are written *)

(** A byte in two hexadecimal digits, or two question marks, separated by blanks. *)
Definition hex_upper (z : Z) : ascii := nth (Z.to_nat z) (lit "0123456789ABCDEF") NUL.
Definition show_token (t : option Z) : bytes :=
  match t with Some b => [hex_upper (b / 16); hex_upper (b mod 16)] | None => lit "??" end.
Fixpoint show_pattern (ts : list (option Z)) : bytes :=
  match ts with
  | [] => []
  | [t] => show_token t
  | t :: ts => show_token t ++ " "%char :: show_pattern ts
  end.
Definition token_ok (t : option Z) : Prop := match t with Some b => 0 <= b < 256 | None => True end.
Definition token_pair (t : option Z) : Z * Z := match t with Some b => (b, 255) | None => (0, 0) end.
(** The code at [i] has the bytes of the pattern. *)
Definition occurs (ts : list (option Z)) (code : list Z) (i : nat) : Prop :=
  forall j b, ts !! j = Some (Some b) -> code !! (i + j)%nat = Some b.

Definition plain_hex (c : ascii) (d : Z) : bool :=
  bool_decide (hex_value c = Some d) && negb (isspace c) &&
  forallb (fun x => negb (bool_decide (c = x))) (lit "-+xX? ").
Lemma hex_upper_plain d : 0 <= d < 16 -> plain_hex (hex_upper d) d = true.
Proof.
  intros H. assert (Hall : Forall (fun d => plain_hex (hex_upper d) d = true) (seqZ 0 16)) by (repeat constructor).
  apply (proj1 (List.Forall_forall _ _) Hall). apply list_elem_of_In, elem_of_seqZ. lia.
Qed.
Lemma plain_hex_spec c d : plain_hex c d = true ->
  hex_value c = Some d /\ isspace c = false /\ c <> "-"%char /\ c <> "+"%char /\ c <> "x"%char /\ c <> "X"%char /\ c <> "?"%char /\ c <> " "%char.
Proof.
  unfold plain_hex. rewrite !andb_true_iff, negb_true_iff, bool_decide_eq_true. intros [[H1 H2] H3]. cbn in H3.
  rewrite !andb_true_iff, !negb_true_iff, !bool_decide_eq_false in H3. naive_solver.
Qed.

(** A byte followed by a blank or the end of the pattern. *)
Lemma strtoul16_byte a b r : 0 <= a < 16 -> 0 <= b < 16 -> (forall c, head r = Some c -> hex_value c = None) ->
  strtoul16 (hex_upper a :: hex_upper b :: r) = a * 16 + b.
Proof.
  intros Ha Hb Hr. destruct (plain_hex_spec _ _ (hex_upper_plain a Ha)) as (Va & Sa & A1 & A2 & A3 & A4 & _).
  destruct (plain_hex_spec _ _ (hex_upper_plain b Hb)) as (Vb & Sb & _ & _ & B3 & B4 & _).
  unfold strtoul16. cbn [skip_space]. rewrite Sa, !decide_False by done.
  replace (skip_0x _) with (hex_upper a :: hex_upper b :: r).
  2: { unfold skip_0x. destruct r; [done|]. rewrite decide_False by naive_solver. done. }
  cbn [hex_digits]. rewrite Va, Vb. replace (hex_digits r _) with (a * 16 + b).
  2: { destruct r as [|c r]; cbn; [lia|]. rewrite (Hr c eq_refl). lia. }
  by rewrite decide_False by lia.
Qed.

Lemma parse_token t r : token_ok t -> (forall c, head r = Some c -> hex_value c = None) ->
  parse_pattern (show_token t ++ r) = token_pair t :: parse_pattern r.
Proof.
  destruct t as [b|]; [|done]. cbn [token_ok show_token app token_pair]. intros Hb Hr.
  assert (H1 : 0 <= b / 16 < 16) by dlia. assert (H2 : 0 <= b mod 16 < 16) by dlia.
  destruct (plain_hex_spec _ _ (hex_upper_plain _ H1)) as (_ & _ & _ & _ & _ & _ & Q & B).
  cbn [parse_pattern]. rewrite !decide_False by naive_solver. rewrite strtoul16_byte by done.
  do 2 f_equal. replace (b / 16 * 16 + b mod 16) with b by dlia. apply wrapu_small. lia.
Qed.

Lemma parse_show_pattern ts : Forall token_ok ts -> parse_pattern (show_pattern ts) = map token_pair ts.
Proof.
  induction 1 as [|t [|t' ts] Ht _ IH]; [done| |].
  - cbn [show_pattern map]. by rewrite <- (app_nil_r (show_token t)), parse_token.
  - change (show_pattern (t :: t' :: ts)) with (show_token t ++ " "%char :: show_pattern (t' :: ts)).
    rewrite parse_token by (done || (by intros c [= <-])). cbn [map]. f_equal.
    cbn [map] in IH. rewrite <- IH. destruct (show_pattern (t' :: ts)) eqn:E; [|done].
    exfalso. destruct t' as [b|], ts; done.
Qed.

Definition byte_ok (b : Z) : Prop := 0 <= b < 256.
Lemma land_byte b : byte_ok b -> Z.land b 255 = b.
Proof. intros H. rewrite (land_low 8) by lia. apply Z.mod_small. done. Qed.

Lemma occurs_cons t ts code i : occurs (t :: ts) code i <-> (forall b, t = Some b -> code !! i = Some b) /\ occurs ts code (S i).
Proof.
  unfold occurs. split.
  - intros H. split; [intros b ->; specialize (H O b eq_refl); by rewrite Nat.add_0_r in H|].
    intros j b Hj. specialize (H (S j) b Hj). by rewrite Nat.add_succ_r in H.
  - intros [H0 H] [|j] b Hj; cbn in Hj; [rewrite Nat.add_0_r; apply H0; congruence|]. rewrite Nat.add_succ_r. by apply H.
Qed.

Lemma matches_occurs ts code i : Forall token_ok ts -> Forall byte_ok code -> (i + length ts <= length code)%nat ->
  exists b, matches (map token_pair ts) code i = Ret b /\ (b = true <-> occurs ts code i).
Proof.
  intros Ht Hc. revert i. induction Ht as [|t ts Ht _ IH]; intros i Hi; cbn [map matches length] in *; [by exists true|].
  destruct (lookup_lt_is_Some_2 code i) as [x Hx]; [lia|]. pose proof (proj1 (Forall_lookup _ _) Hc i x Hx) as Hb.
  destruct (IH (S i)) as (b & Hm & Hiff); [lia|]. setoid_rewrite occurs_cons. rewrite Hx. destruct t as [v|]; cbn [token_pair].
  - rewrite land_byte by done. case_decide as E.
    + exists b. split; [done|]. subst. rewrite Hiff. split; [intros; split; [congruence|done]|naive_solver].
    + exists false. split; [done|]. split; [done|]. intros [H _]. specialize (H v eq_refl). congruence.
  - rewrite Z.land_0_r. rewrite decide_True by done. exists b. split; [done|]. rewrite Hiff. naive_solver.
Qed.

Lemma search_last ts code i : Forall token_ok ts -> Forall byte_ok code -> (i + length ts <= length code)%nat ->
  exists r, search (map token_pair ts) code i = Ret r /\
    match r with
    | Some k => (0 < k <= i)%nat /\ occurs ts code k /\ forall k', (k < k' <= i)%nat -> ~ occurs ts code k'
    | None => forall k, (0 < k <= i)%nat -> ~ occurs ts code k
    end.
Proof.
  intros Ht Hc. induction i as [|i IH]; intros Hi; cbn [search]; [exists None; split; [done|lia]|].
  destruct (matches_occurs ts code (S i) Ht Hc Hi) as (b & -> & Hb). cbn. destruct b.
  - exists (Some (S i)). split; [done|]. split; [lia|]. split; [by apply Hb|lia].
  - destruct IH as (r & -> & Hr); [lia|]. exists r. split; [done|].
    assert (Hn : ~ occurs ts code (S i)) by (by intros ?%Hb). destruct r as [k|].
    + destruct Hr as (Hk & Ho & Hl). split; [lia|]. split; [done|]. intros k' Hk'. destruct (decide (k' = S i)) as [->|]; [done|]. apply Hl. lia.
    + intros k' Hk'. destruct (decide (k' = S i)) as [->|]; [done|]. apply Hr. lia.
Qed.

(** Searching a library for a pattern written as hexadecimal bytes and question marks ends
    and finds the last place after the start where the code has these bytes; nothing is found
    when there is none.  A place at the very start of the code is never looked at. *)
Theorem pattern_search_last (ts : list (option Z)) (code : list Z)
    (Ht : Forall token_ok ts) (Hc : Forall byte_ok code) (Hl : (length ts <= length code)%nat) :
  exists r, patternSearch code (show_pattern ts) = Ret r /\
    match r with
    | Some k => (0 < k)%nat /\ occurs ts code k /\ forall k', (k < k' <= length code - length ts)%nat -> ~ occurs ts code k'
    | None => forall k, (0 < k <= length code - length ts)%nat -> ~ occurs ts code k
    end.
Proof.
  unfold patternSearch. rewrite parse_show_pattern by done. rewrite length_map, decide_False by lia.
  destruct (search_last ts code (length code - length ts) Ht Hc) as (r & -> & Hr); [lia|].
  exists r. split; [done|]. destruct r; [naive_solver lia|done].
Qed.

(** ** Instructions *)
Lemma le32_bytes v : le32 v = [v mod 256; v / 256 mod 256; v / 65536 mod 256; v / 16777216 mod 256].
Proof.
  unfold le32. cbn [map]. rewrite !(land_low 8) by lia. rewrite !Z.shiftr_div_pow2 by lia.
  change (2 ^ (8 * 0)) with 1. by rewrite Z.div_1_r.
Qed.
Lemma poke_same a v m x : x = a -> poke a v m x = v.
Proof. intros. unfold poke. by rewrite decide_True. Qed.
Lemma poke_other a v m x : x <> a -> poke a v m x = m x.
Proof. intros. unfold poke. by rewrite decide_False. Qed.
Ltac pokes := repeat first [rewrite poke_same by lia | rewrite poke_other by lia].

Lemma wraps_wrapu32 z : - 2 ^ 31 <= z < 2 ^ 31 -> wraps 32 (wrapu 32 z) = z.
Proof. intros H. unfold wraps, wrapu. change (2 ^ (32 - 1)) with 2147483648. change (2 ^ 32) with 4294967296. change (2 ^ 31) with 2147483648 in H. dlia. Qed.

Lemma bytes_of_word v : 0 <= v < 4294967296 -> v mod 256 + 256 * (v / 256 mod 256) + 65536 * (v / 65536 mod 256) + 16777216 * (v / 16777216 mod 256) = v.
Proof.
  intros H. replace (v / 65536) with (v / 256 / 256) by (by rewrite Z.div_div). replace (v / 16777216) with (v / 256 / 256 / 256) by (by rewrite !Z.div_div).
  dlia.
Qed.

(** A patched call or jump goes to the function it is given, and no other byte changes;
    when the function is out of reach the code throws, with the opcode already overwritten. *)
Theorem patched_call_target (a f : Z) (jump : bool) (m : memory) :
  match patchCallInstruction a f jump m with
  | Ret m' => branch a m' = Some (jump, f) /\ forall x, x < a \/ a + 5 <= x -> m' x = m x
  | Throw (m', _) => ~ (- 2 ^ 31 <= f - a - 5 < 2 ^ 31) /\ m' a = (if jump then 233 else 232) /\ forall x, x <> a -> m' x = m x
  | _ => False
  end.
Proof.
  unfold patchCallInstruction. set (m1 := poke a _ m). set (ptr := f - a - 5). case_decide as Hp.
  - split; [lia|]. split; [by apply poke_same|]. intros x Hx. by apply poke_other.
  - set (w := wrapu 32 ptr). assert (Hw : 0 <= w < 4294967296) by (apply (wrapu_range 32); lia).
    rewrite le32_bytes. cbn [poke_all]. set (m' := poke _ _ _). split.
    + assert (Hpeek : peek32 (a + 1) m' = w) by (unfold peek32, m'; pokes; by apply bytes_of_word).
      assert (Hop : m' a = if jump then 233 else 232) by (unfold m', m1; by pokes).
      unfold branch. rewrite Hpeek, Hop. unfold w. rewrite wraps_wrapu32 by lia.
      replace (a + 5 + ptr) with f by (unfold ptr; lia). by destruct jump.
    + intros x Hx. unfold m', m1. by pokes.
Qed.

(** ** Vtables *)
Definition terminated (ref : list Z) (n : nat) : Prop := ref !! n = Some 0 /\ forall i p, (i < n)%nat -> ref !! i = Some p -> p <> 0.

Lemma replace_from_spec ref n sym repl vt i : terminated ref n -> sym <> 0 -> (i + n <= length vt)%nat ->
  (exists k, (k < n)%nat /\ ref !! k = Some sym /\ (forall j, (j < k)%nat -> ref !! j <> Some sym) /\ replace_from i ref sym repl vt = Ret (<[(i + k)%nat := repl]> vt))
  \/ ((forall j, (j < n)%nat -> ref !! j <> Some sym) /\ replace_from i ref sym repl vt = Ret vt).
Proof.
  revert n i. induction ref as [|p ref IH]; intros n i [Hn Hz] Hs Hl; [done|]. cbn [replace_from]. destruct n as [|n].
  { cbn in Hn. simplify_eq. rewrite decide_True by done. right. split; [lia|done]. }
  pose proof (Hz O p ltac:(lia) eq_refl) as Hp. rewrite decide_False by done. case_decide as E.
  { left. exists O. subst. rewrite decide_True by lia. rewrite Nat.add_0_r. split; [lia|]. split; [done|]. split; [lia|done]. }
  destruct (IH n (S i)) as [(k & Hk & Hr & Hf & He)|[Hf He]]; [split; [done|intros j q Hj Hq; by apply (Hz (S j) q); [lia|]]|done|lia| |].
  - left. exists (S k). rewrite Nat.add_succ_r. split; [lia|]. split; [done|]. split; [|done].
    intros [|j] Hj; [cbn; congruence|apply Hf; lia].
  - right. split; [|done]. intros [|j] Hj; [cbn; congruence|apply Hf; lia].
Qed.

(** Replacing a function in a vtable changes exactly the entry whose place in the reference
    table holds the function, the first one if there are several, and nothing when none does;
    the tables are never read past their end. *)
Theorem vtable_replaced (ref vt : list Z) (n : nat) (sym repl : Z)
    (Href : terminated ref n) (Hs : sym <> 0) (Hl : (n <= length vt)%nat) :
  exists vt', replace ref vt sym repl = Ret vt' /\
    ((exists k, (k < n)%nat /\ ref !! k = Some sym /\ (forall j, (j < k)%nat -> ref !! j <> Some sym) /\ vt' = <[k := repl]> vt)
     \/ ((forall j, (j < n)%nat -> ref !! j <> Some sym) /\ vt' = vt)).
Proof.
  unfold replace. destruct (replace_from_spec ref n sym repl vt 0 Href Hs ltac:(lia)) as [(k & Hk & Hr & Hf & ->)|[Hf ->]];
    eexists; (split; [done|]); [left; by exists k|right; by split].
Qed.

(** ** Versions *)
Lemma isAtLeast_total v w : isAtLeast v w = true \/ isAtLeast w v = true.
Proof.
  unfold isAtLeast. rewrite !orb_true_iff, !andb_true_iff, !orb_true_iff, !andb_true_iff, !orb_true_iff, !andb_true_iff, !bool_decide_eq_true.
  destruct (Z.lt_trichotomy (major v) (major w)) as [|[]], (Z.lt_trichotomy (minor v) (minor w)) as [|[]],
    (Z.lt_trichotomy (patch v) (patch w)) as [|[]]; lia.
Qed.
Lemma isExactly_both v w : isExactly v w = isAtLeast v w && isAtLeast w v.
Proof.
  apply eq_iff_eq_true. unfold isExactly, isAtLeast.
  rewrite !andb_true_iff, !orb_true_iff, !andb_true_iff, !orb_true_iff, !andb_true_iff, !orb_true_iff, !andb_true_iff, !bool_decide_eq_true. lia.
Qed.

(** ** Examples *)
Lemma pattern_search_last_witness : exists k, patternSearch [1; 83; 131; 236; 24; 83; 131; 0; 24; 9] (show_pattern [Some 83; Some 131; None; Some 24]) = Ret (Some k)
  /\ occurs [Some 83; Some 131; None; Some 24] [1; 83; 131; 236; 24; 83; 131; 0; 24; 9] k /\ k = 5%nat.
Proof.
  assert (Hs : patternSearch [1; 83; 131; 236; 24; 83; 131; 0; 24; 9] (show_pattern [Some 83; Some 131; None; Some 24]) = Ret (Some 5%nat)) by (by vm_compute).
  destruct (pattern_search_last [Some 83; Some 131; None; Some 24] [1; 83; 131; 236; 24; 83; 131; 0; 24; 9]) as (r & Hr & Hk); [repeat constructor; done|repeat constructor; done|cbn; lia|].
  rewrite Hs in Hr. injection Hr as <-. destruct Hk as (_ & Ho & _). exists 5%nat. by split_and!.
Defined.

Lemma vtable_replaced_witness : exists vt', replace [10; 20; 30; 0] [10; 20; 30; 0] 20 99 = Ret vt' /\ terminated [10; 20; 30; 0] 3.
Proof.
  assert (Ht : terminated [10; 20; 30; 0] 3) by (split; [done|]; intros [|[|[|]]] p Hi Hp; cbn in Hp; try lia; congruence).
  destruct (vtable_replaced [10; 20; 30; 0] [10; 20; 30; 0] 3 20 99 Ht) as (vt' & H & _); [done|cbn; lia|]. by exists vt'.
Defined.
End PatchUtils.
