(* ===== verification/Hooks.v ===== *)
(** * Hooks (mcpelauncher-core)

    [HookManager] (hook.h, hook.cpp): the libraries mods register, the chains of hooks
    on their symbols, and the relocations that are redirected to the newest hook.
    Objects on the heap are numbered; a variable whose address a mod passes as
    [orig] is a cell. *)

From S2P Require Import Prelude CxxString.
From Stdlib Require Import ZArith Ascii Lia.
From stdpp Require Import base gmap strings numbers list.

Open Scope Z_scope.

Module Hooks.

(** ** State *)
Record instance := mkInstance {
  h_symbol : nat; h_parent : option nat; h_child : option nat; h_replacement : Z; h_orig : nat }.
(** A null pointer to code is 0. *)
Record symbol := mkSymbol { s_original : Z; firstHook : option nat; lastHook : option nat }.
Record reloc := mkReloc { r_type : Z; r_sym : Z; r_offset : Z }.
(** [tables] is the names of the symbols, absent when [strtab] and [symtab] are null. *)
Record lib_info := mkLib {
  l_handle : nat; l_base : Z; l_tables : option (Z -> bytes); l_rel : list reloc; l_pltrel : list reloc;
  l_hooked : gmap Z nat; l_deps : list nat }.

Record manager := mkManager {
  infos : gmap nat lib_info;
  libs : gmap nat nat;
  dependents : gmap nat (list nat);
  hookedSymbols : gmap (nat * Z) nat;
  symbols : gmap nat symbol;
  hooks : gmap nat instance;
  cells : gmap nat Z;
  slots : gmap Z Z
}.

Definition set_infos (x : gmap nat lib_info) (m : manager) : manager := mkManager x (libs m) (dependents m) (hookedSymbols m) (symbols m) (hooks m) (cells m) (slots m).
Definition set_libs (x : gmap nat nat) (m : manager) : manager := mkManager (infos m) x (dependents m) (hookedSymbols m) (symbols m) (hooks m) (cells m) (slots m).
Definition set_dependents (x : gmap nat (list nat)) (m : manager) : manager := mkManager (infos m) (libs m) x (hookedSymbols m) (symbols m) (hooks m) (cells m) (slots m).
Definition set_hooked (x : gmap (nat * Z) nat) (m : manager) : manager := mkManager (infos m) (libs m) (dependents m) x (symbols m) (hooks m) (cells m) (slots m).
Definition set_symbols (x : gmap nat symbol) (m : manager) : manager := mkManager (infos m) (libs m) (dependents m) (hookedSymbols m) x (hooks m) (cells m) (slots m).
Definition set_hooks (x : gmap nat instance) (m : manager) : manager := mkManager (infos m) (libs m) (dependents m) (hookedSymbols m) (symbols m) x (cells m) (slots m).
Definition set_cells (x : gmap nat Z) (m : manager) : manager := mkManager (infos m) (libs m) (dependents m) (hookedSymbols m) (symbols m) (hooks m) x (slots m).
Definition set_slots (x : gmap Z Z) (m : manager) : manager := mkManager (infos m) (libs m) (dependents m) (hookedSymbols m) (symbols m) (hooks m) (cells m) x.

Definition update_hook (f : instance -> instance) (h : nat) (m : manager) : manager := set_hooks (alter f h (hooks m)) m.
Definition update_symbol (f : symbol -> symbol) (s : nat) (m : manager) : manager := set_symbols (alter f s (symbols m)) m.
Definition store (c : nat) (v : Z) (m : manager) : manager := set_cells (<[c := v]> (cells m)) m.

Definition set_parent (p : option nat) (i : instance) : instance := mkInstance (h_symbol i) p (h_child i) (h_replacement i) (h_orig i).
Definition set_child (c : option nat) (i : instance) : instance := mkInstance (h_symbol i) (h_parent i) c (h_replacement i) (h_orig i).
Definition set_first (h : option nat) (s : symbol) : symbol := mkSymbol (s_original s) h (lastHook s).
Definition set_last (h : option nat) (s : symbol) : symbol := mkSymbol (s_original s) (firstHook s) h.
Definition set_original (v : Z) (s : symbol) : symbol := mkSymbol v (firstHook s) (lastHook s).

(** ** Libraries *)

(** The constructor; the code that reads the dynamic section is commented out. *)
Definition LibInfo (handle : nat) (base : Z) : lib_info := mkLib handle base None [] [] ∅ [].
Definition addLibrary (handle : nat) (base : Z) (m : manager) : manager :=
  match libs m !! handle with
  | Some _ => m
  | None => let i := fresh (dom (infos m)) in set_infos (<[i := LibInfo handle base]> (infos m)) (set_libs (<[handle := i]> (libs m)) m)
  end.
Definition remove_dependent (i dep : nat) (d : gmap nat (list nat)) : gmap nat (list nat) :=
  <[dep := filter (fun x => x <> i) (default [] (d !! dep))]> d.
Definition removeLibrary (handle : nat) (m : manager) : manager :=
  match libs m !! handle with
  | None => m
  | Some i =>
      let deps := match infos m !! i with Some l => l_deps l | None => [] end in
      set_infos (delete i (infos m)) (set_libs (delete handle (libs m))
        (set_dependents (foldl (fun d dep => remove_dependent i dep d) (dependents m) deps) m))
  end.

(** The search through the hash table is commented out. *)
Definition getSymbolIndex (lib : nat) (name : bytes) : Z := 2 ^ 32 - 1.
Definition getSymbolName (l : lib_info) (symbolIndex : Z) : outcome exn bytes :=
  match l_tables l with Some names => Ret (names symbolIndex) | None => Undef end.
Definition setHook (symbolIndex : Z) (s : nat) (l : lib_info) : lib_info :=
  mkLib (l_handle l) (l_base l) (l_tables l) (l_rel l) (l_pltrel l) (<[symbolIndex := s]> (l_hooked l)) (l_deps l).
Definition setHook_name (name : bytes) (s : nat) (l : lib_info) : lib_info := setHook (getSymbolIndex (l_handle l) name) s l.

Definition getOrCreateHookSymbol (lib : nat) (symbolIndex : Z) (m : manager) : outcome exn (manager * nat) :=
  match libs m !! lib with
  | None => Throw (runtime_error "No such lib registered")
  | Some i =>
      match hookedSymbols m !! (i, symbolIndex) with
      | Some s => Ret (m, s)
      | None =>
          match infos m !! i with
          | None => Undef
          | Some l =>
              let s := fresh (dom (symbols m)) in
              let m := set_symbols (<[s := mkSymbol 0 None None]> (symbols m)) (set_hooked (<[(i, symbolIndex) := s]> (hookedSymbols m)) m) in
              let m := set_infos (<[i := setHook symbolIndex s l]> (infos m)) m in
              name ← getSymbolName l symbolIndex;
              Ret (set_infos (foldl (fun x dep => alter (setHook_name name s) dep x) (infos m) (default [] (dependents m !! lib))) m, s)
          end
      end
  end.

(** ** Hooks *)

(** A new hook on a symbol becomes its last one; [*orig] is set to what the hook before it does. *)
Definition add_hook (s : nat) (replacement : Z) (orig : nat) (m : manager) : outcome exn (manager * nat) :=
  match symbols m !! s with
  | None => Undef
  | Some sy =>
      let h := fresh (dom (hooks m)) in
      let m := set_hooks (<[h := mkInstance s None None replacement orig]> (hooks m)) m in
      m ← match firstHook sy, lastHook sy with
          | None, _ => Ret (update_symbol (set_first (Some h)) s m)
          | Some _, Some p =>
              match hooks m !! p with
              | None => Undef
              | Some pi => Ret (store orig (h_replacement pi) (update_hook (set_child (Some h)) p (update_hook (set_parent (Some p)) h m)))
              end
          | Some _, None => Ret m
          end;
      Ret (update_symbol (set_last (Some h)) s m, h)
  end.
Definition createHook (lib : nat) (symbolIndex replacement : Z) (orig : nat) (m : manager) : outcome exn (manager * nat) :=
  '(m, s) ← getOrCreateHookSymbol lib symbolIndex m; add_hook s replacement orig m.
Definition createHook_name (lib : nat) (name : bytes) (replacement : Z) (orig : nat) (m : manager) : outcome exn (manager * nat) :=
  match libs m !! lib with
  | None => Throw (runtime_error "No such lib registered")
  | Some _ =>
      let i := getSymbolIndex lib name in
      if decide (i = 2 ^ 32 - 1) then Throw (runtime_error "No such symbol") else createHook lib i replacement orig m
  end.

(** The child takes over what was before the hook. *)
Definition relink_child (i : instance) (sy : symbol) (m : manager) : outcome exn manager :=
  match h_child i with
  | None => Ret m
  | Some c =>
      match hooks m !! c, h_parent i with
      | Some ci, None => Ret (store (h_orig ci) (s_original sy) (update_hook (set_parent None) c m))
      | Some ci, Some p =>
          match hooks m !! p with
          | Some pi => Ret (store (h_orig ci) (h_replacement pi) (update_hook (set_parent (Some p)) c m))
          | None => Undef
          end
      | None, _ => Undef
      end
  end.
Definition deleteHook (h : nat) (m : manager) : outcome exn manager :=
  match hooks m !! h with
  | None => Undef
  | Some i =>
      match symbols m !! h_symbol i with
      | None => Undef
      | Some sy =>
          m ← relink_child i sy m;
          let m := match h_parent i with Some p => update_hook (set_child (h_child i)) p m | None => m end in
          let m := if decide (firstHook sy = Some h) then update_symbol (set_first (h_child i)) (h_symbol i) m else m in
          let m := if decide (lastHook sy = Some h) then update_symbol (set_last (h_parent i)) (h_symbol i) m else m in
          Ret (set_hooks (delete h (hooks m)) m)
      end
  end.

(** ** Relocations *)

(** The types of relocation the build patches: [R_386_32], [R_386_GLOB_DAT] and [R_386_JMP_SLOT],
    or [R_ARM_ABS32], [R_ARM_GLOB_DAT] and [R_ARM_JUMP_SLOT]; on a 64-bit build there are none. *)
Inductive arch := I386 | Arm | Other64.
Definition patched_type (a : arch) (t : Z) : bool :=
  match a with
  | I386 => bool_decide (t = 1 \/ t = 6 \/ t = 7)
  | Arm => bool_decide (t = 2 \/ t = 21 \/ t = 22)
  | Other64 => false
  end.

Definition last_replacement (sy : symbol) (m : manager) : outcome exn Z :=
  match lastHook sy with
  | Some h => match hooks m !! h with Some i => Ret (h_replacement i) | None => Undef end
  | None => Ret 0
  end.
Definition apply_reloc (a : arch) (l : lib_info) (r : reloc) (m : manager) : outcome exn manager :=
  match l_hooked l !! r_sym r with
  | None => Ret m
  | Some s =>
      match symbols m !! s with
      | None => Undef
      | Some sy =>
          last ← last_replacement sy m;
          let replacement := if decide (last <> 0) then last else s_original sy in
          if decide (replacement = 0) then Ret m else
          _ ← getSymbolName l (r_sym r);
          let addr := l_base l + r_offset r in
          if patched_type a (r_type r) then
            match slots m !! addr with
            | None => Undef
            | Some original =>
                let m := set_slots (<[addr := replacement]> (slots m)) m in
                if decide (original <> 0 /\ s_original sy = 0) then
                  let m := update_symbol (set_original original) s m in
                  match firstHook sy with
                  | None => Ret m
                  | Some f => match hooks m !! f with Some i => Ret (store (h_orig i) original m) | None => Undef end
                  end
                else Ret m
            end
          else Ret m
      end
  end.
Fixpoint apply_relocs (a : arch) (l : lib_info) (rs : list reloc) (m : manager) : outcome exn manager :=
  match rs with
  | [] => Ret m
  | r :: rs => m ← apply_reloc a l r m; apply_relocs a l rs m
  end.
Definition applyHooks_lib (a : arch) (l : lib_info) (m : manager) : outcome exn manager :=
  m ← apply_relocs a l (l_rel l) m; apply_relocs a l (l_pltrel l) m.
Fixpoint apply_libs (a : arch) (ls : list nat) (m : manager) : outcome exn manager :=
  match ls with
  | [] => Ret m
  | i :: ls => match infos m !! i with Some l => m ← applyHooks_lib a l m; apply_libs a ls m | None => Undef end
  end.
Definition applyHooks (a : arch) (m : manager) : outcome exn manager := apply_libs a (map_to_list (libs m)).*2 m.

(** ** Names of constructors *)

(** The position after the nested names of a mangled name; a length can lead anywhere. *)
Fixpoint skip_names (fuel : nat) (name : bytes) (i : Z) : outcome exn Z :=
  match fuel with
  | O => Diverge
  | S fuel =>
      if decide (Z.of_nat (length name) <= i) then Ret i
      else if decide (i < 0) then Undef
      else c ← char_at name (Z.to_nat i);
           if decide (c = "N"%char) then skip_names fuel name (i + 1)
           else match strtol (drop (Z.to_nat i) name) with
                | None => Ret i
                | Some (len, n) => skip_names fuel name (i + Z.of_nat n + len)
                end
  end.
Definition translateConstructorName (fuel : nat) (name : bytes) : outcome exn bytes :=
  if negb (is_prefix (lit "_Z") name) then Ret [] else
  i ← skip_names fuel name 2;
  if decide (Z.of_nat (length name) <= i) then Ret []
  else if is_prefix (lit "C2") (drop (Z.to_nat i) name) then Ret (<[S (Z.to_nat i) := "1"%char]> name)
  else Ret [].

(** ** Chains *)
Definition hd_or (next : option nat) (l : list nat) : option nat := match l with [] => next | h :: _ => Some h end.
Definition last_or (prev : option nat) (l : list nat) : option nat := match last l with Some h => Some h | None => prev end.

(** The hooks [l] are linked both ways, between [prev] and [next]. *)
Fixpoint links (hs : gmap nat instance) (s : nat) (prev : option nat) (l : list nat) (next : option nat) : Prop :=
  match l with
  | [] => True
  | h :: l => (exists i, hs !! h = Some i /\ h_symbol i = s /\ h_parent i = prev /\ h_child i = hd_or next l) /\ links hs s (Some h) l next
  end.
(** Each hook finds in its [orig] variable what the hook before it does; [v] is what is before the first. *)
Fixpoint origs (hs : gmap nat instance) (cs : gmap nat Z) (v : option Z) (l : list nat) : Prop :=
  match l with
  | [] => True
  | h :: l => exists i, hs !! h = Some i /\ (forall x, v = Some x -> cs !! h_orig i = Some x) /\ origs hs cs (Some (h_replacement i)) l
  end.
Definition known (sy : symbol) : option Z := if decide (s_original sy = 0) then None else Some (s_original sy).
Definition cells_of (hs : gmap nat instance) (l : list nat) : list nat := omap (fun h => h_orig <$> hs !! h) l.

(** The symbol [s] has the hooks [l], oldest first. *)
Record chain (m : manager) (s : nat) (l : list nat) : Prop := {
  ch_symbol : exists sy, symbols m !! s = Some sy /\ firstHook sy = head l /\ lastHook sy = last l /\ origs (hooks m) (cells m) (known sy) l;
  ch_nodup : NoDup l;
  ch_links : links (hooks m) s None l None;
  ch_cells : NoDup (cells_of (hooks m) l)
}.

Lemma links_app hs s prev l1 l2 next :
  links hs s prev (l1 ++ l2) next <-> links hs s prev l1 (hd_or next l2) /\ links hs s (last_or prev l1) l2 next.
Proof.
  revert prev. induction l1 as [|h l1 IH]; intros prev; cbn [app links]; [by split; [|intros [_ ?]]|].
  rewrite IH. assert (E1 : hd_or next (l1 ++ l2) = hd_or (hd_or next l2) l1) by (by destruct l1).
  assert (E2 : last_or (Some h) l1 = last_or prev (h :: l1)) by (unfold last_or; rewrite last_cons; by destruct (last l1)).
  rewrite E1, E2. naive_solver.
Qed.
Lemma links_frame hs hs' s prev l next : (forall h, h ∈ l -> hs' !! h = hs !! h) -> links hs s prev l next -> links hs' s prev l next.
Proof.
  revert prev. induction l as [|h l IH]; intros prev Hf; [done|]. intros [(i & Hi & Hr) Hl]. split.
  - exists i. rewrite Hf by (by left). done.
  - apply IH; [|done]. intros x Hx. apply Hf. by right.
Qed.
Lemma origs_frame hs hs' cs cs' v l :
  (forall h, h ∈ l -> exists i i', hs !! h = Some i /\ hs' !! h = Some i' /\ h_orig i' = h_orig i /\ h_replacement i' = h_replacement i /\ cs' !! h_orig i = cs !! h_orig i) ->
  origs hs cs v l -> origs hs' cs' v l.
Proof.
  revert v. induction l as [|h l IH]; intros v Hf; [done|]. intros (i & Hi & Hv & Hl). cbn [origs].
  destruct (Hf h ltac:(by left)) as (j & j' & Hj & Hj' & Eo & Er & Ec). rewrite Hi in Hj. injection Hj as <-.
  exists j'. split; [done|]. rewrite Eo, Er. split; [intros x Hx; rewrite Ec; auto|].
  apply IH; [|done]. intros x Hx. apply Hf. by right.
Qed.
Lemma origs_snoc hs cs v l p h pi i : hs !! p = Some pi -> hs !! h = Some i -> cs !! h_orig i = Some (h_replacement pi) ->
  origs hs cs v (l ++ [p]) -> origs hs cs v ((l ++ [p]) ++ [h]).
Proof.
  intros Hp Hh Hc. revert v. induction l as [|x l IH]; intros v; cbn [app origs].
  - intros (j & Hj & Hv & _). exists j. split; [done|]. split; [done|]. exists i. split; [done|]. split; [|done]. intros y [= <-]. congruence.
  - intros (j & Hj & Hv & Hl). exists j. split; [done|]. split; [done|]. by apply IH.
Qed.

(** Changes of the links of a hook that keep its function and its variable. *)
Definition same_hook (i i' : instance) : Prop := h_symbol i' = h_symbol i /\ h_orig i' = h_orig i /\ h_replacement i' = h_replacement i.
Lemma cells_of_frame hs hs' l : (forall h, h ∈ l -> exists i i', hs !! h = Some i /\ hs' !! h = Some i' /\ same_hook i i') -> cells_of hs' l = cells_of hs l.
Proof.
  induction l as [|h l IH]; intros Hf; [done|]. unfold cells_of in *. cbn [omap list_omap].
  destruct (Hf h ltac:(by left)) as (i & i' & -> & -> & _ & Eo & _). cbn. rewrite Eo, IH; [done|]. intros x Hx. apply Hf. by right.
Qed.
Lemma cells_of_app hs l1 l2 : cells_of hs (l1 ++ l2) = cells_of hs l1 ++ cells_of hs l2.
Proof. apply omap_app. Qed.
Lemma elem_cells hs l h i : h ∈ l -> hs !! h = Some i -> h_orig i ∈ cells_of hs l.
Proof. intros Hh Hi. unfold cells_of. apply list_elem_of_omap. exists h. split; [done|]. by rewrite Hi. Qed.
Lemma links_elem hs s prev l next h : links hs s prev l next -> h ∈ l -> exists i, hs !! h = Some i /\ h_symbol i = s.
Proof.
  revert prev. induction l as [|x l IH]; intros prev; [by intros _ ?%elem_of_nil|]. intros [(i & Hi & Hs & _) Hl] [->|Hh]%elem_of_cons; eauto.
Qed.

(** A hook behind the last one of a chain. *)
Lemma links_snoc hs hs' s l p h pi i : links hs s None (l ++ [p]) None -> p ∉ l -> h ∉ l ++ [p] ->
  hs !! p = Some pi -> hs' !! p = Some (set_child (Some h) pi) -> hs' !! h = Some i ->
  h_symbol i = s -> h_parent i = Some p -> h_child i = None -> (forall x, x <> p -> x <> h -> hs' !! x = hs !! x) ->
  links hs' s None ((l ++ [p]) ++ [h]) None.
Proof.
  intros Hl Hp Hh Epi Ep Ei Es Epar Ech Hf. rewrite links_app in Hl. destruct Hl as [Hl1 [(j & Hj & Hs & Hpar & _) _]].
  rewrite !links_app. replace (last_or None (l ++ [p])) with (Some p) by (unfold last_or; by rewrite last_snoc). rewrite Epi in Hj. injection Hj as <-. split; [split|].
  - eapply links_frame; [|exact Hl1]. intros x Hx. apply Hf; intros ->; [done|]. apply Hh, elem_of_app. by left.
  - split; [|done]. exists (set_child (Some h) pi). by rewrite Ep.
  - split; [|done]. exists i. by rewrite Ei.
Qed.

Lemma lookup_fresh (hs : gmap nat instance) : hs !! fresh (dom hs) = None.
Proof. apply not_elem_of_dom, is_fresh. Qed.

(** The first hook of a symbol whose original is not known yet. *)
Lemma hook_first (m : manager) (s : nat) (r : Z) (o : nat) (sy : symbol) : symbols m !! s = Some sy -> firstHook sy = None -> s_original sy = 0 ->
  exists m' h i, add_hook s r o m = Ret (m', h) /\ h ∉ ([] : list nat) /\ chain m' s [h] /\ hooks m' !! h = Some i /\ h_replacement i = r /\ h_orig i = o.
Proof.
  intros Hs Hf Hl. unfold add_hook. rewrite Hs, Hf. set (h := fresh (dom (hooks m))). set (inst := mkInstance s None None r o).
  cbn [mbind outcome_bind]. do 3 eexists. split; [done|]. split; [apply not_elem_of_nil|].
  cbn [hooks set_symbols update_symbol set_hooks cells symbols app]. rewrite lookup_insert_eq. split; [|done].
  split; cbn [hooks cells symbols set_symbols update_symbol set_hooks].
  - exists (mkSymbol (s_original sy) (Some h) (Some h)). rewrite !lookup_alter_eq, Hs. split; [done|]. split; [done|]. split; [done|].
    exists inst. rewrite lookup_insert_eq. split; [done|]. split; [|done]. unfold known. cbn. by rewrite decide_True.
  - apply NoDup_singleton.
  - split; [|done]. exists inst. by rewrite lookup_insert_eq.
  - unfold cells_of. cbn. rewrite lookup_insert_eq. apply NoDup_singleton.
Qed.

(** A new hook joins the chain of its symbol at the end, links both ways included: it calls
    what was the newest hook through its variable, and the variables of the others keep their
    values. *)
Theorem hook_appended (m : manager) (s : nat) (l : list nat) (r : Z) (o : nat) (sy : symbol)
    (Hc : chain m s l) (Hs : symbols m !! s = Some sy) (Ho : o ∉ cells_of (hooks m) l) (Hl : l <> [] \/ s_original sy = 0) :
  exists m' h i, add_hook s r o m = Ret (m', h) /\ h ∉ l /\ chain m' s (l ++ [h]) /\
    hooks m' !! h = Some i /\ h_replacement i = r /\ h_orig i = o.
Proof.
  destruct Hc as [(sy' & Hs' & Hf & Hlast & Horig) Hnd Hlinks Hcells]. rewrite Hs in Hs'. injection Hs' as <-.
  destruct l as [|p l0 _] using rev_ind; [destruct Hl as [Hl|Hl]; [done|]; by apply (hook_first m s r o sy)|].
  unfold add_hook. rewrite Hs. set (h := fresh (dom (hooks m))). set (inst := mkInstance s None None r o).
  pose proof (lookup_fresh (hooks m)) as Hh. fold h in Hh.
  assert (Hhl : h ∉ l0 ++ [p]) by (intros Hin; destruct (links_elem _ _ _ _ _ _ Hlinks Hin) as (i & Hi & _); congruence).
  rewrite last_snoc in Hlast. rewrite Hf, Hlast. destruct (head (l0 ++ [p])) as [f|] eqn:Ef; [|by destruct l0].
  assert (Hp : p ∉ l0) by (apply NoDup_app in Hnd as (_ & Hnd & _); intros Hp; apply (Hnd p Hp); by left).
  destruct (links_elem _ _ _ _ _ p Hlinks ltac:(apply elem_of_app; right; by left)) as (pi & Epi & _).
  assert (Hph : p <> h) by congruence. cbn [hooks set_hooks]. rewrite lookup_insert_ne, Epi by done. cbn [mbind outcome_bind].
  set (m' := update_symbol _ _ _). set (i := set_parent (Some p) inst).
  assert (Ei : hooks m' !! h = Some i) by (cbn; by rewrite lookup_alter_ne, lookup_alter_eq, lookup_insert_eq).
  assert (Ep : hooks m' !! p = Some (set_child (Some h) pi)) by (cbn; by rewrite lookup_alter_eq, lookup_alter_ne, lookup_insert_ne, Epi).
  assert (Ef' : forall x, x <> p -> x <> h -> hooks m' !! x = hooks m !! x) by (intros; cbn; by rewrite !lookup_alter_ne, lookup_insert_ne).
  assert (Ec : cells m' = <[o := h_replacement pi]> (cells m)) by done.
  exists m', h, i. split; [done|]. split; [done|]. split; [|done]. split.
  + exists (set_last (Some h) sy). cbn [symbols m' update_symbol set_symbols]. split; [by rewrite lookup_alter_eq; cbn; rewrite Hs|].
    split; [cbn; rewrite Hf; by rewrite <- Ef; destruct l0|]. split; [cbn; by rewrite last_snoc|].
    eapply (origs_snoc _ _ _ l0 p h (set_child (Some h) pi) i Ep Ei); [by rewrite Ec, lookup_insert_eq|].
    revert Horig. apply origs_frame. intros x Hx. destruct (links_elem _ _ _ _ _ x Hlinks Hx) as (xi & Exi & _).
    assert (Hox : o <> h_orig xi) by (intros ->; by apply Ho, (elem_cells _ _ x)).
    exists xi. destruct (decide (x = p)) as [->|Hxp].
    * rewrite Epi in Exi. injection Exi as <-. eexists. split; [done|]. split; [done|]. by rewrite Ec, lookup_insert_ne.
    * exists xi. rewrite Ef' by (done || congruence). split; [done|]. split; [done|]. by rewrite Ec, lookup_insert_ne.
  + apply NoDup_app. split; [done|]. split; [intros x Hx ->%list_elem_of_singleton; done|apply NoDup_singleton].
  + by eapply (links_snoc (hooks m) _ s l0 p h pi i).
  + rewrite cells_of_app. rewrite (cells_of_frame (hooks m)).
    2: { intros x Hx. destruct (links_elem _ _ _ _ _ x Hlinks Hx) as (xi & Exi & _). exists xi. destruct (decide (x = p)) as [->|Hxp].
         - rewrite Epi in Exi. injection Exi as <-. by eexists.
         - exists xi. by rewrite Ef' by (done || congruence). }
    unfold cells_of at 2. cbn [omap list_omap]. rewrite Ei. cbn. apply NoDup_app. split; [done|].
    split; [by intros x Hx ->%list_elem_of_singleton|apply NoDup_singleton].
Qed.
(** Changes of the links at the two ends of a list of hooks. *)
Lemma links_next hs hs' s prev l p pi next next' : links hs s prev (l ++ [p]) next -> hs !! p = Some pi -> hs' !! p = Some (set_child next' pi) ->
  (forall x, x ∈ l -> hs' !! x = hs !! x) -> links hs' s prev (l ++ [p]) next'.
Proof.
  rewrite !links_app. intros [Hl [(j & Hj & Hs & Hp & _) _]] Epi Ep Hf. rewrite Epi in Hj. injection Hj as <-.
  split; [by eapply links_frame|]. split; [|done]. exists (set_child next' pi). by rewrite Ep.
Qed.
Lemma links_prev hs hs' s prev prev' c r ci next : links hs s prev (c :: r) next -> hs !! c = Some ci -> hs' !! c = Some (set_parent prev' ci) ->
  (forall x, x ∈ r -> hs' !! x = hs !! x) -> links hs' s prev' (c :: r) next.
Proof.
  intros [(j & Hj & Hs & _ & Hc) Hl] Eci Ec Hf. rewrite Eci in Hj. injection Hj as <-.
  split; [exists (set_parent prev' ci); by rewrite Ec|by eapply links_frame].
Qed.

Definition lastv (hs : gmap nat instance) (v : option Z) (l : list nat) : option Z :=
  match last l with Some p => h_replacement <$> hs !! p | None => v end.
Lemma origs_app hs cs v l1 l2 : origs hs cs v (l1 ++ l2) <-> origs hs cs v l1 /\ (origs hs cs v l1 -> origs hs cs (lastv hs v l1) l2).
Proof.
  revert v. induction l1 as [|h l1 IH]; intros v; [cbn; naive_solver|]. cbn [app origs].
  assert (E : forall i, hs !! h = Some i -> lastv hs v (h :: l1) = lastv hs (Some (h_replacement i)) l1).
  { intros i Hi. unfold lastv. rewrite last_cons. destruct (last l1); [done|]. by rewrite Hi. }
  split.
  - intros (i & Hi & Hv & Hl). rewrite (E i Hi). apply IH in Hl as [H1 H2]. split; [by exists i|auto].
  - intros [(i & Hi & Hv & Hl) H]. exists i. split; [done|]. split; [done|]. apply IH. split; [done|]. intros _. rewrite <- (E i Hi). apply H. by exists i.
Qed.

(** The state of the hooks after [h] is unlinked: the neighbours are linked to each other. *)
Record unlinked (hs hs' : gmap nat instance) (l1 : list nat) (h : nat) (l2 : list nat) : Prop := {
  un_before : forall l p pi, l1 = l ++ [p] -> hs !! p = Some pi -> hs' !! p = Some (set_child (hd_or None l2) pi);
  un_after : forall c r ci, l2 = c :: r -> hs !! c = Some ci -> hs' !! c = Some (set_parent (last_or None l1) ci);
  un_rest : forall x, x <> h -> last l1 <> Some x -> head l2 <> Some x -> hs' !! x = hs !! x
}.

Lemma chain_distinct (l1 : list nat) h l2 : NoDup (l1 ++ h :: l2) -> NoDup l1 /\ NoDup l2 /\ h ∉ l1 /\ h ∉ l2 /\ (forall x, x ∈ l1 -> x ∉ l2) /\ NoDup (l1 ++ l2).
Proof.
  intros H. pose proof H as H0. rewrite NoDup_app in H. destruct H as (H1 & H2 & H3). apply NoDup_cons in H3 as [H4 H5].
  split; [done|]. split; [done|]. split; [intros Hx; apply (H2 h Hx); by left|]. split; [done|].
  assert (Hd : forall x, x ∈ l1 -> x ∉ l2) by (intros x Hx Hy; apply (H2 x Hx); by right). split; [done|]. by rewrite NoDup_app.
Qed.

Lemma unlinked_links hs hs' s l1 h l2 : NoDup (l1 ++ h :: l2) -> unlinked hs hs' l1 h l2 ->
  links hs s None (l1 ++ h :: l2) None -> links hs' s None (l1 ++ l2) None.
Proof.
  intros Hnd [U1 U2 U3] Hl. destruct (chain_distinct _ _ _ Hnd) as (N1 & N2 & D1 & D2 & D3 & _).
  pose proof Hl as Hl0. apply links_app in Hl as [HA [_ HB]]. apply links_app. split.
  - destruct l1 as [|p l _] using rev_ind; [done|].
    destruct (links_elem _ _ _ _ _ p HA ltac:(apply elem_of_app; right; by left)) as (pi & Epi & _).
    eapply (links_next hs hs' s None l p pi _ _ HA Epi); [by apply (U1 l p pi)|].
    intros x Hx. apply U3; [intros ->; apply D1, elem_of_app; by left| |].
    + rewrite last_snoc. intros [= ->]. apply NoDup_app in N1 as (_ & N1 & _). apply (N1 x Hx). by left.
    + intros Hh. destruct l2; [done|]. injection Hh as ->. apply (D3 x); [apply elem_of_app; by left|by left].
  - destruct l2 as [|c r]; [done|]. destruct (links_elem _ _ _ _ _ c HB ltac:(by left)) as (ci & Eci & _).
    eapply (links_prev hs hs' s (Some h) _ c r ci None HB Eci); [by apply (U2 c r ci)|].
    intros x Hx. apply U3; [intros ->; apply D2; by right| |].
    + intros Hla. apply last_Some in Hla as [l' ->]. apply (D3 x); [apply elem_of_app; right; by left|by right].
    + intros [= ->]. by apply NoDup_cons in N2 as [? _].
Qed.

(** The functions and variables of the other hooks are as before. *)
Lemma unlinked_same hs hs' s l1 h l2 x : NoDup (l1 ++ h :: l2) -> unlinked hs hs' l1 h l2 -> links hs s None (l1 ++ h :: l2) None ->
  x ∈ l1 ++ l2 -> exists i i', hs !! x = Some i /\ hs' !! x = Some i' /\ same_hook i i'.
Proof.
  intros Hnd [U1 U2 U3] Hl Hx. destruct (chain_distinct _ _ _ Hnd) as (N1 & N2 & D1 & D2 & D3 & _).
  destruct (links_elem _ _ _ _ _ x Hl) as (i & Ei & _); [apply elem_of_app; apply elem_of_app in Hx as [?|?]; [by left|right; by right]|].
  exists i. destruct (decide (last l1 = Some x)) as [Hla|Hla].
  { apply last_Some in Hla as [l ->]. exists (set_child (hd_or None l2) i). by rewrite (U1 l x i). }
  destruct (decide (head l2 = Some x)) as [Hh|Hh].
  { destruct l2 as [|c r]; [done|]. injection Hh as ->. exists (set_parent (last_or None l1) i). by rewrite (U2 x r i). }
  exists i. rewrite U3; [done| |done|done]. intros ->. by apply elem_of_app in Hx as [?|?].
Qed.

(** What the first hook behind an unlinked one finds. *)
Lemma unlinked_origs hs hs' cs cs' s v l1 h l2 : NoDup (l1 ++ h :: l2) -> NoDup (cells_of hs (l1 ++ h :: l2)) -> unlinked hs hs' l1 h l2 ->
  links hs s None (l1 ++ h :: l2) None ->
  (forall c r ci, l2 = c :: r -> hs !! c = Some ci ->
     (forall x, lastv hs v l1 = Some x -> cs' !! h_orig ci = Some x) /\ (forall o, o <> h_orig ci -> cs' !! o = cs !! o)) ->
  (l2 = [] -> cs' = cs) ->
  origs hs cs v (l1 ++ h :: l2) -> origs hs' cs' v (l1 ++ l2).
Proof.
  intros Hnd Hcn U Hl Hcs Hcs0 Ho. pose proof (fun x => unlinked_same _ _ _ _ _ _ x Hnd U Hl) as Hsame.
  apply origs_app in Ho as [H1 H2]. specialize (H2 H1). destruct H2 as (i & Hi & _ & H2).
  rewrite cells_of_app in Hcn. unfold cells_of in Hcn at 2. cbn [omap list_omap] in Hcn. rewrite Hi in Hcn. cbn in Hcn. fold (cells_of hs l2) in Hcn.
  assert (Hf : forall x xi, x ∈ l1 \/ (exists c, head l2 = Some c /\ x ∈ tail l2) -> hs !! x = Some xi -> cs' !! h_orig xi = cs !! h_orig xi).
  { intros x xi Hx Exi. destruct l2 as [|c r]; [by rewrite Hcs0|].
    destruct (links_elem _ _ _ _ _ c Hl) as (ci & Eci & _); [apply elem_of_app; right; right; by left|].
    apply (Hcs c r ci eq_refl Eci). intros E.
    assert (Hc : cells_of hs (c :: r) = h_orig ci :: cells_of hs r) by (unfold cells_of; cbn; by rewrite Eci). rewrite Hc in Hcn.
    apply NoDup_app in Hcn as (_ & N2 & N3). apply NoDup_cons in N3 as [_ N3]. apply NoDup_cons in N3 as [N3 _].
    destruct Hx as [Hx|(c' & _ & Hx)].
    - apply (N2 (h_orig xi)); [by apply (elem_cells _ _ x)|]. rewrite E. right. by left.
    - apply N3. rewrite <- E. by apply (elem_cells _ _ x). }
  apply origs_app. split; [|intros _].
  - revert H1. apply origs_frame. intros x Hx. destruct (Hsame x) as (xi & xi' & E & E' & _ & Eo & Er); [apply elem_of_app; by left|].
    exists xi, xi'. do 4 (split; [done|]). apply (Hf x); [by left|done].
  - assert (Elv : lastv hs' v l1 = lastv hs v l1).
    { unfold lastv. destruct (last l1) as [p|] eqn:Ep; [|done]. apply last_Some in Ep as [l ->].
      destruct (Hsame p) as (xi & xi' & -> & -> & _ & _ & Er); [apply elem_of_app; left; apply elem_of_app; right; by left|]. cbn. by rewrite Er. }
    rewrite Elv. destruct l2 as [|c r]; [done|]. destruct H2 as (ci & Eci & _ & H2).
    destruct (Hsame c) as (xi & xi' & E & E' & _ & Eo & Er); [apply elem_of_app; right; by left|]. rewrite Eci in E. injection E as <-.
    exists xi'. split; [done|]. rewrite Eo, Er. split; [apply (Hcs c r ci eq_refl Eci)|].
    revert H2. apply origs_frame. intros x Hx. destruct (Hsame x) as (yi & yi' & Ey & Ey' & _ & Eyo & Eyr); [apply elem_of_app; right; by right|].
    exists yi, yi'. do 4 (split; [done|]). apply (Hf x); [right; by exists c|done].
Qed.

Lemma relink_ok (m : manager) (s : nat) sy l1 h l2 i : NoDup (l1 ++ h :: l2) -> links (hooks m) s None (l1 ++ h :: l2) None -> hooks m !! h = Some i ->
  exists m1, relink_child i sy m = Ret m1 /\ symbols m1 = symbols m /\
    hooks m1 = match h_child i with Some c => alter (set_parent (h_parent i)) c (hooks m) | None => hooks m end /\
    (l2 = [] -> cells m1 = cells m) /\
    (forall c r ci, l2 = c :: r -> hooks m !! c = Some ci ->
       exists x, lastv (hooks m) (Some (s_original sy)) l1 = Some x /\ cells m1 = <[h_orig ci := x]> (cells m)).
Proof.
  intros Hnd Hl Hi. pose proof Hl as Hl0. apply links_app in Hl0 as [_ [(j & Hj & Hs & Hp & Hc) _]]. rewrite Hi in Hj. injection Hj as <-.
  unfold relink_child. rewrite Hc, Hp. destruct l2 as [|c r]; cbn [hd_or].
  { exists m. split_and!; [done..|]. by intros. }
  destruct (links_elem _ _ _ _ _ c Hl) as (ci & Eci & _); [apply elem_of_app; right; right; by left|]. rewrite Eci.
  unfold last_or, lastv. destruct (last l1) as [p|] eqn:Ep.
  - apply last_Some in Ep as [l ->].
    destruct (links_elem _ _ _ _ _ p Hl) as (pi & Epi & _); [apply elem_of_app; left; apply elem_of_app; right; by left|]. rewrite Epi.
    eexists. split; [done|]. split; [done|]. split; [done|]. split; [done|]. intros c' r' ci' [= <- <-] E. rewrite Eci in E. injection E as <-. by eexists.
  - eexists. split; [done|]. split; [done|]. split; [done|]. split; [done|]. intros c' r' ci' [= <- <-] E. rewrite Eci in E. injection E as <-. by eexists.
Qed.

Lemma last_or_none l : last_or None l = last l.
Proof. unfold last_or. by destruct (last l). Qed.
Lemma head_removed (l1 : list nat) h l2 : h ∉ l1 -> (if decide (head (l1 ++ h :: l2) = Some h) then hd_or None l2 else head (l1 ++ h :: l2)) = head (l1 ++ l2).
Proof. intros Hh. destruct l1 as [|x l1]; cbn [app head]; [by rewrite decide_True; [destruct l2|]|]. rewrite decide_False; [done|]. intros [= ->]. apply Hh. by left. Qed.
Lemma last_removed (l1 : list nat) h l2 : h ∉ l2 -> (if decide (last (l1 ++ h :: l2) = Some h) then last_or None l1 else last (l1 ++ h :: l2)) = last (l1 ++ l2).
Proof.
  intros Hh. rewrite last_or_none. destruct l2 as [|x l2 _] using rev_ind; [rewrite last_snoc, app_nil_r; by rewrite decide_True|].
  rewrite app_comm_cons, !app_assoc, !last_snoc. rewrite decide_False; [done|]. intros [= ->]. apply Hh, elem_of_app. right. by left.
Qed.

Lemma relink_unlinked hs l1 h l2 : NoDup (l1 ++ h :: l2) ->
  let hs1 := match hd_or None l2 with Some c => alter (set_parent (last_or None l1)) c hs | None => hs end in
  let hs2 := match last_or None l1 with Some p => alter (set_child (hd_or None l2)) p hs1 | None => hs1 end in
  unlinked hs (delete h hs2) l1 h l2.
Proof.
  intros Hnd hs1 hs2. destruct (chain_distinct _ _ _ Hnd) as (N1 & N2 & D1 & D2 & D3 & _). split.
  - intros l p pi -> Epi. assert (Hp : p ∈ l ++ [p]) by (apply elem_of_app; right; by left).
    rewrite lookup_delete_ne by (intros ->; done). unfold hs2, last_or. rewrite last_snoc, lookup_alter_eq. unfold hs1.
    destruct l2 as [|c r]; cbn [hd_or]; [by rewrite Epi|]. rewrite lookup_alter_ne, Epi; [done|]. intros ->. apply (D3 p Hp). by left.
  - intros c r ci -> Eci. rewrite lookup_delete_ne by (intros ->; apply D2; by left).
    assert (E1 : hs1 !! c = Some (set_parent (last_or None l1) ci)) by (unfold hs1; cbn; by rewrite lookup_alter_eq, Eci).
    unfold hs2. destruct (last_or None l1) as [p|] eqn:Ep; [|done]. rewrite lookup_alter_ne; [done|]. intros ->.
    rewrite last_or_none in Ep. apply last_Some in Ep as [l ->]. apply (D3 c); [apply elem_of_app; right; by left|by left].
  - intros x Hxh Hxl Hx2. rewrite lookup_delete_ne by done.
    assert (E1 : hs1 !! x = hs !! x) by (unfold hs1; destruct l2 as [|c r]; [done|]; cbn; rewrite lookup_alter_ne; [done|]; by intros ->).
    unfold hs2, last_or. destruct (last l1) as [p|] eqn:Ep; [|done]. rewrite lookup_alter_ne; [done|]. by intros ->.
Qed.

(** C23. Deleting any hook of a chain, first, last or in between, leaves the other hooks linked in
    their order, each finding in its variable what the hook before it does: the hook behind the
    deleted one is given the function of the hook in front of it, or the original. *)
Theorem hook_removed (m : manager) (s : nat) (l1 : list nat) (h : nat) (l2 : list nat) (Hc : chain m s (l1 ++ h :: l2)) :
  exists m', deleteHook h m = Ret m' /\ chain m' s (l1 ++ l2) /\ hooks m' !! h = None.
Proof.
  destruct Hc as [(sy & Hs & Hf & Hla & Ho) Hnd Hl Hcn]. destruct (chain_distinct _ _ _ Hnd) as (N1 & N2 & D1 & D2 & D3 & N3).
  pose proof Hl as Hl0. apply links_app in Hl0 as [_ [(i & Hi & His & Hip & Hic) _]]. unfold deleteHook. rewrite Hi, His, Hs.
  destruct (relink_ok m s sy l1 h l2 i Hnd Hl Hi) as (m1 & -> & Es & Eh & Ec0 & Ec). cbn [mbind outcome_bind]. rewrite Hip, Hic in Eh.
  pose proof (relink_unlinked (hooks m) l1 h l2 Hnd) as U. cbn zeta in U. rewrite <- Eh in U.
  set (hs' := delete h _) in U. pose proof (fun x => unlinked_same _ _ _ _ _ _ x Hnd U Hl) as Hsame.
  set (sy' := mkSymbol (s_original sy) (head (l1 ++ l2)) (last (l1 ++ l2))).
  match goal with |- exists m', Ret ?x = _ /\ _ => set (m' := x) end.
  assert (Eh' : hooks m' = hs') by (unfold m'; rewrite Hip, Hic; destruct (last_or None l1); do 2 case_decide; done).
  assert (Ec' : cells m' = cells m1) by (unfold m'; rewrite Hip, Hic; destruct (last_or None l1); do 2 case_decide; done).
  assert (Es' : symbols m' !! s = Some sy').
  { unfold sy'. rewrite <- (head_removed l1 h l2), <- (last_removed l1 h l2), <- Hf, <- Hla, <- Hip, <- Hic by done. unfold m'.
    destruct (h_parent i); do 2 case_decide; cbn; rewrite ?lookup_alter_eq, Es, Hs; by destruct sy. }
  exists m'. split; [done|]. split; [|rewrite Eh'; apply lookup_delete_eq]. split; rewrite ?Eh', ?Ec'.
  - exists sy'. split_and!; [done..|]. eapply (unlinked_origs (hooks m) hs' (cells m) _ s _ l1 h l2 Hnd Hcn U Hl); [|done|done].
    intros c r ci -> Eci. destruct (Ec c r ci eq_refl Eci) as (x & Hx & ->). split; [|intros; by rewrite lookup_insert_ne].
    intros y Hy. rewrite lookup_insert_eq. revert Hx Hy. unfold lastv, known. destruct (last l1); [congruence|]. cbn. case_decide; congruence.
  - done.
  - by eapply unlinked_links.
  - rewrite (cells_of_frame (hooks m)) by done. revert Hcn. rewrite !cells_of_app. unfold cells_of at 2. cbn [omap list_omap]. rewrite Hi. cbn.
    intros Hcn. by apply chain_distinct in Hcn as (_ & _ & _ & _ & _ & ?).
Qed.

(** ** A symbol that was hooked before *)

(** Once a symbol has its original and no hook, the next hook on it is never given the original:
    neither its creation nor a relocation of the symbol writes its variable. *)
Theorem rehook_orig_unset (a : arch) (l : lib_info) (rl : reloc) (m m' m2 : manager) (s h : nat) (r : Z) (o : nat) (sy : symbol)
    (Hs : symbols m !! s = Some sy) (Hf : firstHook sy = None) (Ho : s_original sy <> 0) (Ha : add_hook s r o m = Ret (m', h))
    (Hr : l_hooked l !! r_sym rl = Some s) (H2 : apply_reloc a l rl m' = Ret m2) :
  cells m' = cells m /\ cells m2 = cells m.
Proof.
  unfold add_hook in Ha. rewrite Hs, Hf in Ha. cbn [mbind outcome_bind] in Ha. injection Ha as <- <-. split; [done|].
  unfold apply_reloc in H2. rewrite Hr in H2. cbn [symbols update_symbol set_symbols set_hooks] in H2. rewrite !lookup_alter_eq, Hs in H2.
  cbn [fmap option_fmap option_map] in H2. apply bind_ret_inv in H2 as (x & _ & H2). case_decide; [by injection H2 as <-|].
  apply bind_ret_inv in H2 as (n & _ & H2). destruct (patched_type a _); [|by injection H2 as <-].
  destruct (slots _ !! _); [|done]. rewrite decide_False in H2; [by injection H2 as <-|]. by intros [_ ?].
Qed.

(** ** Names and libraries *)

(** The libraries are as [addLibrary] leaves them: their relocations are not known. *)
Definition registered (m : manager) : Prop := forall h i, libs m !! h = Some i -> exists l, infos m !! i = Some l /\ l_rel l = [] /\ l_pltrel l = [].
Lemma registered_add h base m : registered m -> registered (addLibrary h base m).
Proof.
  intros H. unfold addLibrary. destruct (libs m !! h) eqn:E; [done|]. intros h' i. cbn [libs infos set_infos set_libs]. intros Hi.
  destruct (decide (h = h')) as [<-|Hne].
  - rewrite lookup_insert_eq in Hi. injection Hi as <-. rewrite lookup_insert_eq. by eexists.
  - rewrite lookup_insert_ne in Hi by done. destruct (H h' i Hi) as (l & Hl & Hr). exists l. rewrite lookup_insert_ne; [done|].
    intros <-. by rewrite (proj1 (not_elem_of_dom _ _) (is_fresh (dom (infos m)))) in Hl.
Qed.
Lemma apply_libs_none a m ls : Forall (fun i => exists l, infos m !! i = Some l /\ l_rel l = [] /\ l_pltrel l = []) ls -> apply_libs a ls m = Ret m.
Proof.
  induction 1 as [|i ls (l & Hl & E1 & E2) _ IH]; [done|]. cbn [apply_libs]. rewrite Hl. unfold applyHooks_lib. rewrite E1, E2. exact IH.
Qed.
(** With the libraries [addLibrary] registers, applying the hooks changes nothing. *)
Lemma registered_apply a m : registered m -> applyHooks a m = Ret m.
Proof.
  intros H. apply apply_libs_none. apply Forall_forall. intros i Hi. apply list_elem_of_fmap in Hi as ([h j] & -> & Hh).
  apply elem_of_map_to_list in Hh. by apply (H h).
Qed.

(** No hook can be created by name: the lookup of symbols always fails. *)
Theorem create_by_name_throws (m : manager) (lib : nat) (name : bytes) (r : Z) (o : nat) : exists e, createHook_name lib name r o m = Throw e.
Proof. unfold createHook_name. destruct (libs m !! lib); [|by eexists]. by eexists. Qed.

(** A library that was just added has no table of symbols: a hook by index is undefined behaviour. *)
Theorem create_after_add_undefined (m : manager) (lib : nat) (base i r : Z) (o : nat)
    (Hl : libs m !! lib = None) (Hh : hookedSymbols m !! (fresh (dom (infos m)), i) = None) :
  createHook lib i r o (addLibrary lib base m) = Undef.
Proof.
  unfold createHook, addLibrary, getOrCreateHookSymbol. rewrite Hl. cbn [libs set_infos set_libs]. rewrite lookup_insert_eq.
  cbn [hookedSymbols set_infos set_libs infos]. by rewrite Hh, lookup_insert_eq.
Qed.

(** ** Constructors *)
Definition mangle (id : bytes) : bytes := to_string (Z.of_nat (length id)) ++ id.
Definition identifier (id : bytes) : Prop := match id with c :: _ => digit c = None | [] => False end /\ Z.of_nat (length id) < 2 ^ 63.

Lemma first_digit (p d r : bytes) : d <> [] -> Forall (fun c => is_Some (digit c)) d -> exists c, char_at (E := exn) (p ++ d ++ r) (length p) = Ret c /\ c <> "N"%char.
Proof.
  intros Hne Hd. destruct d as [|c d]; [done|]. exists c. cbn [app]. rewrite char_at_app. split; [done|]. intros ->. apply Forall_inv in Hd. by destruct Hd.
Qed.
Lemma skip_names_run (ids : list bytes) (rest : bytes) : Forall identifier ids -> forall fuel p, (length ids < fuel)%nat ->
  skip_names fuel (p ++ concat (map mangle ids) ++ lit "C2" ++ rest) (Z.of_nat (length p)) = Ret (Z.of_nat (length (p ++ concat (map mangle ids)))).
Proof.
  induction ids as [|id ids IH]; intros Hid [|fuel] p Hfuel; [simpl in Hfuel; lia| |simpl in Hfuel; lia|]; cbn [skip_names].
  - rewrite decide_False by (rewrite !length_app; simpl; lia). rewrite decide_False by lia. rewrite Nat2Z.id. cbn [map concat app].
    change (lit "C2" ++ rest) with ("C"%char :: "2"%char :: rest). rewrite char_at_app. cbn [mbind outcome_bind].
    rewrite decide_False by done. rewrite drop_app_length. by rewrite app_nil_r.
  - apply Forall_cons in Hid as [[Hd Hlen] Hid]. destruct (to_string_digits (Z.of_nat (length id))) as [Hne Hdig]; [lia|].
    rewrite decide_False by (rewrite !length_app; simpl; lia). rewrite decide_False by lia. rewrite Nat2Z.id, drop_app_length.
    assert (E : concat (map mangle (id :: ids)) ++ lit "C2" ++ rest = to_string (Z.of_nat (length id)) ++ id ++ concat (map mangle ids) ++ lit "C2" ++ rest).
    { cbn [map concat]. unfold mangle at 1. by rewrite <- !app_assoc. }
    rewrite E. destruct (first_digit p (to_string (Z.of_nat (length id))) (id ++ concat (map mangle ids) ++ lit "C2" ++ rest) Hne Hdig) as (c & -> & Hc).
    cbn [mbind outcome_bind]. rewrite (decide_False _ _ Hc), strtol_to_string; [|lia|destruct id; [done|exact Hd]].
    replace (p ++ to_string (Z.of_nat (length id)) ++ id ++ concat (map mangle ids) ++ lit "C2" ++ rest)
      with ((p ++ mangle id) ++ concat (map mangle ids) ++ lit "C2" ++ rest) by (unfold mangle; by rewrite <- !app_assoc).
    replace (Z.of_nat (length p) + Z.of_nat (length (to_string (Z.of_nat (length id)))) + Z.of_nat (length id)) with (Z.of_nat (length (p ++ mangle id)))
      by (unfold mangle; rewrite !length_app; lia).
    replace (p ++ concat (map mangle (id :: ids))) with ((p ++ mangle id) ++ concat (map mangle ids)) by (cbn [map concat]; by rewrite <- !app_assoc).
    specialize (IH Hid fuel (p ++ mangle id) ltac:(simpl in Hfuel; lia)).
    done.
Qed.

(** A mangled name of a base object constructor, [_ZN] and the nested names with their lengths
    and [C2], is translated to the name of the complete object constructor: [C2] becomes [C1], the
    rest is kept. *)
Theorem constructor_translated (ids : list bytes) (rest : bytes) (fuel : nat) (Hid : Forall identifier ids) (Hf : (length ids + 1 < fuel)%nat) :
  translateConstructorName fuel (lit "_ZN" ++ concat (map mangle ids) ++ lit "C2" ++ rest) = Ret (lit "_ZN" ++ concat (map mangle ids) ++ lit "C1" ++ rest).
Proof.
  unfold translateConstructorName. set (p := lit "_ZN" ++ concat (map mangle ids)).
  replace (lit "_ZN" ++ concat (map mangle ids) ++ lit "C2" ++ rest) with (p ++ lit "C2" ++ rest) by (unfold p; by rewrite <- !app_assoc).
  replace (lit "_ZN" ++ concat (map mangle ids) ++ lit "C1" ++ rest) with (p ++ lit "C1" ++ rest) by (unfold p; by rewrite <- !app_assoc).
  replace (skip_names fuel (p ++ lit "C2" ++ rest) 2) with (Ret (E := exn) (Z.of_nat (length p))).
  2: { destruct fuel as [|fuel]; [lia|]. pose proof (skip_names_run ids rest Hid fuel (lit "_ZN") ltac:(lia)) as H. rewrite app_assoc in H. fold p in H.
       cbn [skip_names]. rewrite decide_False by (rewrite !length_app; unfold p; rewrite length_app; simpl; lia). by rewrite <- H. }
  cbn [mbind outcome_bind]. change (is_prefix (lit "_Z") (p ++ lit "C2" ++ rest)) with true. cbn [negb].
  rewrite decide_False by (rewrite !length_app; simpl; lia). rewrite Nat2Z.id, drop_app_length. cbn [lit app is_prefix String.list_ascii_of_string].
  rewrite !decide_True by done. f_equal. rewrite insert_app_r_alt by lia. replace (S (length p) - length p)%nat with 1%nat by lia. done.
Qed.

(** A negative length leads back: the function does not return on [_Z-2]. *)
Lemma negative_length_loops (fuel : nat) : translateConstructorName fuel (lit "_Z-2") = Diverge.
Proof.
  assert (H : forall n, skip_names n (lit "_Z-2") 2 = Diverge); [|by unfold translateConstructorName; cbn [is_prefix lit String.list_ascii_of_string]; rewrite H].
  induction n as [|n IH]; [done|]. exact IH.
Qed.

(** ** Witnesses *)

(** A symbol at 500 with two hooks, which keep their originals in the cells 10 and 11. *)
Definition two_hooks : manager :=
  mkManager ∅ ∅ ∅ ∅ {[ 0%nat := mkSymbol 500 (Some 0%nat) (Some 1%nat) ]}
    (<[0%nat := mkInstance 0 None (Some 1%nat) 100 10]> {[ 1%nat := mkInstance 0 (Some 0%nat) None 200 11 ]})
    (<[10%nat := 500]> {[ 11%nat := 100 ]}) ∅.
Lemma two_hooks_chain : chain two_hooks 0 [0%nat; 1%nat].
Proof.
  split.
  - eexists. split; [reflexivity|]. split; [reflexivity|]. split; [reflexivity|]. eexists. split; [reflexivity|]. split; [by intros x [= <-]|].
    eexists. split; [reflexivity|]. split; [by intros x [= <-]|]. done.
  - apply NoDup_cons. split; [by rewrite list_elem_of_singleton|apply NoDup_singleton].
  - split; [by eexists|]. split; [by eexists|]. done.
  - change (NoDup [10%nat; 11%nat]). apply NoDup_cons. split; [by rewrite list_elem_of_singleton|apply NoDup_singleton].
Qed.
Lemma hook_appended_witness : exists m' h i, add_hook 0 300 12 two_hooks = Ret (m', h) /\ h ∉ [0%nat; 1%nat] /\ chain m' 0 ([0%nat; 1%nat] ++ [h]) /\
  hooks m' !! h = Some i /\ h_replacement i = 300 /\ h_orig i = 12%nat.
Proof.
  apply (hook_appended two_hooks 0 [0%nat; 1%nat] 300 12 (mkSymbol 500 (Some 0%nat) (Some 1%nat))); [apply two_hooks_chain|reflexivity| |by left].
  change (12%nat ∉ [10%nat; 11%nat]). rewrite elem_of_cons, list_elem_of_singleton. lia.
Defined.
Lemma hook_removed_witness : exists m', deleteHook 0 two_hooks = Ret m' /\ chain m' 0 ([] ++ [1%nat]) /\ hooks m' !! 0%nat = None.
Proof. apply (hook_removed two_hooks 0 [] 0 [1%nat]). apply two_hooks_chain. Defined.
Lemma constructor_translated_witness :
  translateConstructorName 4 (lit "_ZN" ++ concat (map mangle [lit "mce"; lit "UUID"]) ++ lit "C2" ++ lit "Ev") = Ret (lit "_ZN3mce4UUIDC1Ev").
Proof. apply (constructor_translated [lit "mce"; lit "UUID"] (lit "Ev") 4); [repeat constructor|simpl; lia]. Defined.
End Hooks.
