(* ===== verification/ModLoader.v ===== *)
(** * Loading mods (mcpelauncher-core)

    [ModLoader] (mod_loader.cpp): the dependencies a mod names in its ELF image, and
    the order in which the mods of a directory are loaded. *)

From S2P Require Import Prelude Hooks.
From Stdlib Require Import ZArith Ascii Lia.
From stdpp Require Import base gmap list strings numbers sets.

Open Scope Z_scope.

Module ModLoader.

(** ** ELF images *)

(** A little-endian number. *)
Fixpoint le (s : bytes) : Z :=
  match s with [] => 0 | c :: s => uchar c + 256 * le s end.
(** A field of [n] bytes in a buffer; reading past its end is undefined. *)
Definition field (buf : bytes) (off n : nat) : outcome exn Z :=
  if decide (off + n <= length buf)%nat then Ret (le (take n (drop off buf))) else Undef.

(** [fseek(file, off, SEEK_SET)] and [fread(buf, size, count, file)] when everything is wanted:
    the bytes, or none when fewer are left. *)
Definition read_at (file : bytes) (off n : Z) : option bytes :=
  let s := take (Z.to_nat n) (drop (Z.to_nat off) file) in
  if decide (Z.of_nat (length s) = n) then Some s else None.

Definition EHDR_SIZE : Z := 52.
Definition DYN_SIZE : Z := 8.
Definition PT_DYNAMIC : Z := 2.
Definition DT_NEEDED : Z := 1.
Definition DT_STRTAB : Z := 5.
Definition DT_STRSZ : Z := 10.

(** The offset of the last program header of type [PT_DYNAMIC]. *)
Fixpoint find_dynamic (n : nat) (phdr : bytes) (entsize i : nat) (found : option nat) : outcome exn (option nat) :=
  match n with
  | O => Ret found
  | S n =>
      t ← field phdr (entsize * i) 4;
      find_dynamic n phdr entsize (S i) (if decide (t = PT_DYNAMIC) then Some (entsize * i)%nat else found)
  end.

(** The entries of the dynamic section: tag and value. *)
Fixpoint dyn_entries (n : nat) (s : bytes) : list (Z * Z) :=
  match n with
  | O => []
  | S n => (le (take 4 s), le (take 4 (drop 4 s))) :: dyn_entries n (drop 8 s)
  end.

(** The value of the last entry with a tag; 0 when there is none. *)
Fixpoint last_value (tag : Z) (l : list (Z * Z)) (acc : Z) : Z :=
  match l with
  | [] => acc
  | (t, v) :: l => last_value tag l (if decide (t = tag) then v else acc)
  end.

(** The string at an offset of the table, which has to end inside it. *)
Fixpoint c_string (s : bytes) : option bytes :=
  match s with
  | [] => None
  | c :: s => if decide (c = NUL) then Some [] else cons c <$> c_string s
  end.
Definition string_at (strtab : bytes) (off : Z) : outcome exn bytes :=
  match c_string (drop (Z.to_nat off) strtab) with Some s => Ret s | None => Undef end.

Fixpoint needed (strtab : bytes) (l : list (Z * Z)) : outcome exn (list bytes) :=
  match l with
  | [] => Ret []
  | (t, v) :: l =>
      if decide (t = DT_NEEDED) then s ← string_at strtab v; r ← needed strtab l; Ret (s :: r) else needed strtab l
  end.

(** Every error is logged and gives no dependencies.  The arrays whose sizes come from the file
    are on the stack; that they fit is not modelled. *)
Definition getModDependencies (file : option bytes) : outcome exn (list bytes) :=
  match file with
  | None => Ret []
  | Some file =>
      match read_at file 0 EHDR_SIZE with
      | None => Ret []
      | Some header =>
          phoff ← field header 28 4; phentsize ← field header 42 2; phnum ← field header 44 2;
          if decide (2 ^ 31 <= phentsize * phnum) then Undef else
          match (if decide (phentsize = 0 /\ phnum <> 0) then None else read_at file phoff (phentsize * phnum)) with
          | None => Ret []
          | Some phdr =>
              dynamic ← find_dynamic (Z.to_nat phnum) phdr (Z.to_nat phentsize) 0 None;
              match dynamic with
              | None => Ret []
              | Some d =>
                  filesz ← field phdr (d + 16) 4; offset ← field phdr (d + 4) 4;
                  let count := filesz / DYN_SIZE in
                  match read_at file offset (DYN_SIZE * count) with
                  | None => Ret []
                  | Some data =>
                      let l := dyn_entries (Z.to_nat count) data in
                      let strtabOff := last_value DT_STRTAB l 0 in let strtabSize := last_value DT_STRSZ l 0 in
                      if decide (strtabOff = 0 \/ strtabSize = 0) then Ret []
                      else match read_at file strtabOff strtabSize with
                           | None => Ret []
                           | Some strtab => needed strtab l
                           end
                  end
              end
          end
      end
  end.

(** ** Sets of file names, in the order of [std::set<std::string>] *)
Fixpoint bytes_ltb (a b : bytes) : bool :=
  match a, b with
  | _, [] => false
  | [], _ :: _ => true
  | x :: a, y :: b => if decide (x = y) then bytes_ltb a b else bool_decide (uchar x < uchar y)
  end.
Fixpoint set_insert (x : bytes) (l : list bytes) : list bytes :=
  match l with
  | [] => [x]
  | y :: l' => if decide (x = y) then l else if bytes_ltb x y then x :: l else y :: set_insert x l'
  end.
Definition set_erase (x : bytes) (l : list bytes) : list bytes := filter (fun y => y <> x) l.

(** ** Loading

    [otherMods] is the set passed by reference, [order] lists the mods in the order of [loadMod],
    [mods] the handles of those that could be opened; [hookman] is [HookManager::instance]. *)
Record loader := mkLoader { otherMods : list bytes; order : list bytes; mods : list nat; hookman : Hooks.manager }.
Definition erase_mod (x : bytes) (s : loader) : loader := mkLoader (set_erase x (otherMods s)) (order s) (mods s) (hookman s).

Section Loading.
(** The contents of files, the handles and addresses the linker gives, the [mod_init] function of
    a mod when it has one, by what it does with the hooks, and the processor of the build. *)
Context (file_of : bytes -> option bytes) (dlopen : bytes -> option nat) (library_base : nat -> Z).
Context (mod_init : nat -> option (Hooks.manager -> outcome exn Hooks.manager)) (machine : Hooks.arch).

Definition loadMod (path : bytes) (m : Hooks.manager) : outcome exn (Hooks.manager * option nat) :=
  match dlopen path with
  | None => Ret (m, None)
  | Some handle =>
      let m := Hooks.addLibrary handle (library_base handle) m in
      match mod_init handle with
      | None => Ret (m, Some handle)
      | Some initFunc => m ← initFunc m; Ret (m, Some handle)
      end
  end.
Definition load_one (path fileName : bytes) (s : loader) : outcome exn loader :=
  '(m, mod_handle) ← loadMod (path ++ fileName) (hookman s);
  Ret (mkLoader (otherMods s) (order s ++ [fileName]) (match mod_handle with Some h => mods s ++ [h] | None => mods s end) m).

Fixpoint loadModMulti (fuel : nat) (path fileName : bytes) (s : loader) : outcome exn loader :=
  match fuel with
  | O => Diverge
  | S fuel =>
      deps ← getModDependencies (file_of (path ++ fileName));
      s ← (fix go (deps : list bytes) (s : loader) : outcome exn loader :=
             match deps with
             | [] => Ret s
             | dep :: deps =>
                 if decide (dep ∈ otherMods s) then
                   s ← loadModMulti fuel path dep (erase_mod dep s);
                   go deps (erase_mod dep s)
                 else go deps s
             end) deps s;
      load_one path fileName s
  end.

(** The loop over the set takes one name off it in each turn. *)
Fixpoint load_rest (fuel : nat) (path : bytes) (s : loader) : outcome exn loader :=
  match fuel with
  | O => Diverge
  | S fuel' =>
      match otherMods s with
      | [] => Ret s
      | fileName :: _ => s ← loadModMulti fuel path fileName (erase_mod fileName s); load_rest fuel' path s
      end
  end.

(** Names of shared objects that are not hidden. *)
Definition is_mod (name : bytes) : bool :=
  let n := length name in
  negb (bool_decide (head name = Some "."%char)) && bool_decide (4 <= n)%nat && bool_decide (drop (n - 3) name = lit ".so").
Definition mods_to_load (listing : list bytes) : list bytes := foldl (fun l n => if is_mod n then set_insert n l else l) [] listing.

(** [None] is a directory that cannot be opened. *)
Definition loadModsFromDirectory (path : bytes) (listing : option (list bytes)) (s : loader) : outcome exn loader :=
  match listing with
  | None => Ret s
  | Some listing =>
      let l := mods_to_load listing in
      s ← load_rest (S (length l)) path (mkLoader l (order s) (mods s) (hookman s));
      m ← Hooks.applyHooks machine (hookman s);
      Ret (mkLoader (otherMods s) (order s) (mods s) m)
  end.

(** ** Every mod is loaded once, after its dependencies *)

(** The init functions return, and use the manager through its operations, which keep the
    libraries as [addLibrary] registers them. *)
Definition init_keeps : Prop := forall h f m, mod_init h = Some f -> Hooks.registered m -> exists m', f m = Ret m' /\ Hooks.registered m'.

Section Order.
Hypothesis Hinit : init_keeps.
Context (path : bytes) (deps : bytes -> list bytes).
Hypothesis Hdeps : forall f, getModDependencies (file_of (path ++ f)) = Ret (deps f).

Fixpoint load_deps (fuel : nat) (ds : list bytes) (s : loader) : outcome exn loader :=
  match ds with
  | [] => Ret s
  | dep :: ds =>
      if decide (dep ∈ otherMods s) then
        s ← loadModMulti fuel path dep (erase_mod dep s); load_deps fuel ds (erase_mod dep s)
      else load_deps fuel ds s
  end.
Lemma loadModMulti_S fuel f s : loadModMulti (S fuel) path f s = (s ← load_deps fuel (deps f) s; load_one path f s).
Proof.
  cbn [loadModMulti]. rewrite Hdeps. cbn. f_equal.
  generalize (deps f) at 1 2 as ds. intros ds. revert s. induction ds as [|d ds IH]; intros s; cbn [load_deps]; [done|].
  case_decide; [|by apply IH]. destruct (loadModMulti fuel path d (erase_mod d s)); cbn; [by apply IH|done..].
Qed.

(** The mods that are listed, and those that are being loaded, outermost first. *)
Context (all : list bytes).
Record loading (stack : list bytes) (s : loader) : Prop := {
  ld_once : NoDup (otherMods s ++ order s ++ stack);
  ld_all : forall m, m ∈ all <-> m ∈ otherMods s ++ order s ++ stack;
  ld_mods : mods s = omap (fun f => dlopen (path ++ f)) (order s);
  ld_hooks : Hooks.registered (hookman s)
}.
Lemma load_one_ok f s : Hooks.registered (hookman s) -> exists s', load_one path f s = Ret s' /\ otherMods s' = otherMods s /\ order s' = order s ++ [f] /\
  mods s' = mods s ++ omap (fun f => dlopen (path ++ f)) [f] /\ Hooks.registered (hookman s').
Proof.
  intros H. unfold load_one, loadMod. cbn [omap list_omap]. destruct (dlopen (path ++ f)) as [h|].
  - pose proof (Hooks.registered_add h (library_base h) _ H) as H1. destruct (mod_init h) as [i|] eqn:Ei.
    + destruct (Hinit h i _ Ei H1) as (m' & -> & H2). by eexists.
    + by eexists.
  - eexists. split; [done|]. by rewrite app_nil_r.
Qed.
(** Every mod in [l] comes after its dependencies. *)
Definition ordered (l : list bytes) : Prop := forall l1 f l2, l = l1 ++ f :: l2 -> forall d, d ∈ deps f -> d ∈ all -> d ∈ l1.
(** The dependencies have no cycles: a rank decreases along them. *)
Definition acyclic (rank : bytes -> nat) : Prop := forall f d, d ∈ deps f -> d ∈ all -> (rank d < rank f)%nat.

Lemma ordered_snoc l f : ordered l -> (forall d, d ∈ deps f -> d ∈ all -> d ∈ l) -> ordered (l ++ [f]).
Proof.
  intros Hl Hf l1 g l2 E d Hd Ha. destruct l2 as [|x l2 _] using rev_ind.
  - apply app_inj_tail in E as [-> ->]. by apply Hf.
  - change (l1 ++ g :: l2 ++ [x]) with (l1 ++ (g :: l2) ++ [x]) in E. rewrite app_assoc in E. apply app_inj_tail in E as [-> _].
    by eapply Hl.
Qed.

Lemma erase_absent x l : x ∉ l -> set_erase x l = l.
Proof. unfold set_erase. induction l as [|y l IH]; intros H; [done|]. rewrite filter_cons, decide_True by set_solver. f_equal. apply IH. set_solver. Qed.
Lemma erase_mod_absent d s : d ∉ otherMods s -> erase_mod d s = s.
Proof. intros H. unfold erase_mod. rewrite erase_absent by done. by destruct s. Qed.
Lemma erase_perm x l : NoDup l -> x ∈ l -> l ≡ₚ x :: set_erase x l.
Proof.
  intros Hl. induction Hl as [|y l Hy Hl IH]; intros H; [set_solver|]. unfold set_erase. rewrite filter_cons.
  destruct (decide (y = x)) as [->|Hne].
  - rewrite decide_False by auto. fold (set_erase x l). by rewrite erase_absent.
  - rewrite decide_True by done. fold (set_erase x l). rewrite IH at 1 by set_solver. constructor.
Qed.

Lemma loading_perm stack s stack' s' : mods s' = omap (fun f => dlopen (path ++ f)) (order s') -> Hooks.registered (hookman s') ->
  otherMods s ++ order s ++ stack ≡ₚ otherMods s' ++ order s' ++ stack' -> loading stack s -> loading stack' s'.
Proof. intros Hm Hh Hp [H1 H2 _ _]. split; [by rewrite <- Hp| |done|done]. intros m. by rewrite H2, Hp. Qed.

Lemma loading_others stack s : loading stack s -> NoDup (otherMods s).
Proof. intros [H _ _ _]. by apply NoDup_app in H as [? _]. Qed.
Lemma loading_order stack s m : loading stack s -> m ∈ order s -> m ∉ otherMods s.
Proof. intros [H _ _ _] Hm Ho. apply NoDup_app in H as (_ & H & _). apply (H m Ho). apply elem_of_app. by left. Qed.

Lemma loading_enter d stack s : loading stack s -> d ∈ otherMods s -> loading (d :: stack) (erase_mod d s).
Proof.
  intros H Hd. apply (loading_perm stack s); [apply H|apply H| |done]. cbn.
  rewrite (erase_perm d (otherMods s)) at 1 by (done || by eapply loading_others).
  solve_Permutation.
Qed.

(** What a call leaves: the names it took off the set are loaded, behind the earlier ones, in
    order when the mods that are being loaded outrank it. *)
Record progress (stack : list bytes) (above : (bytes -> nat) -> Prop) (s s' : loader) : Prop := {
  pg_loading : loading stack s';
  pg_less : (length (otherMods s') <= length (otherMods s))%nat;
  pg_sub : forall m, m ∈ otherMods s' -> m ∈ otherMods s;
  pg_order : forall m, m ∈ order s -> m ∈ order s';
  pg_sorted : forall rank, acyclic rank -> above rank -> ordered (order s) -> ordered (order s')
}.
Definition outranked (f : bytes) (stack : list bytes) (rank : bytes -> nat) : Prop := forall g, g ∈ stack -> (rank f < rank g)%nat.

Lemma load_deps_progress fuel f stack
    (IH : forall d stack s, loading (d :: stack) s -> (length (otherMods s) < fuel)%nat ->
      exists s', loadModMulti fuel path d s = Ret s' /\ progress stack (outranked d stack) s s' /\ d ∈ order s') ds :
  forall s, loading (f :: stack) s -> (length (otherMods s) <= fuel)%nat -> (forall d, d ∈ ds -> d ∈ deps f) ->
  exists s', load_deps fuel ds s = Ret s' /\ progress (f :: stack) (outranked f stack) s s' /\ forall d, d ∈ ds -> d ∉ otherMods s'.
Proof.
  induction ds as [|d ds IHd]; intros s Hs Hl Hds; cbn [load_deps].
  { exists s. split; [done|]. split; [by split|]. by intros d ?%elem_of_nil. }
  case_decide as Hd.
  - pose proof (loading_enter d _ _ Hs Hd) as Hs1.
    assert (Hl1 : (length (otherMods (erase_mod d s)) < length (otherMods s))%nat).
    { cbn. rewrite (erase_perm d (otherMods s)) at 2 by (done || by eapply loading_others). cbn. lia. }
    destruct (IH d (f :: stack) _ Hs1) as (s1 & -> & [H1 H2 Hsub H3 H4] & Hd1); [lia|]. cbn [mbind outcome_bind].
    assert (Hno : d ∉ otherMods s1) by (by eapply loading_order).
    rewrite erase_mod_absent by done.
    destruct (IHd s1 H1) as (s2 & -> & [G1 G2 Gsub G3 G4] & G5); [lia|by intros x Hx; apply Hds; right|]. exists s2. split; [done|]. split.
    + split; [done|lia|intros m Hm; by apply Gsub, Hsub, list_elem_of_filter in Hm as [_ ?]|auto|]. intros rank Hr Ha Ho. apply (G4 rank Hr Ha). apply (H4 rank Hr); [|done].
      intros g Hg. assert (Hrank : (rank d < rank f)%nat).
      { apply Hr; [apply Hds; by left|]. apply (ld_all _ _ Hs). apply elem_of_app. by left. }
      apply elem_of_cons in Hg as [->|Hg]; [done|]. specialize (Ha g Hg). lia.
    + intros x [->|Hx]%elem_of_cons; [|by apply G5]. eapply loading_order; [done|auto].
  - destruct (IHd s Hs Hl) as (s2 & -> & G & G5); [by intros x Hx; apply Hds; right|]. exists s2. split; [done|]. split; [done|].
    intros x [->|Hx]%elem_of_cons; [|by apply G5].
    intros Hx. by apply Hd, (pg_sub _ _ _ _ G).
Qed.

Lemma loadModMulti_progress fuel : forall f stack s, loading (f :: stack) s -> (length (otherMods s) < fuel)%nat ->
  exists s', loadModMulti fuel path f s = Ret s' /\ progress stack (outranked f stack) s s' /\ f ∈ order s'.
Proof.
  induction fuel as [|fuel IH]; intros f stack s Hs Hl; [lia|]. rewrite loadModMulti_S.
  destruct (load_deps_progress fuel f stack IH (deps f) s Hs) as (s1 & -> & [H1 H2 Hsub H3 H4] & Hno); [lia|done|].
  cbn [mbind outcome_bind]. destruct (load_one_ok f s1 (ld_hooks _ _ H1)) as (s2 & -> & Eo & Er & Em & Hh). exists s2. split; [done|].
  split; [|rewrite Er; apply elem_of_app; right; by left]. split; rewrite ?Eo, ?Er.
  - apply (loading_perm (f :: stack) s1); [by rewrite Em, Er, omap_app, (ld_mods _ _ H1)|done|rewrite Eo, Er; solve_Permutation|done].
  - done.
  - done.
  - intros m Hm. apply elem_of_app. left. by apply H3.
  - intros rank Hr Ha Ho. apply ordered_snoc; [by apply (H4 rank)|]. intros d Hd Hin. specialize (Hr f d Hd Hin).
    apply (ld_all _ _ H1), elem_of_app in Hin as [Hin|[Hin|Hin]%elem_of_app]; [by destruct (Hno d Hd)|done|].
    apply elem_of_cons in Hin as [->|Hin]; [lia|]. specialize (Ha d Hin). lia.
Qed.

Lemma load_rest_order fuel : forall s, loading [] s -> (length (otherMods s) < fuel)%nat ->
  exists s', load_rest fuel path s = Ret s' /\ otherMods s' = [] /\ progress [] (fun _ => True) s s'.
Proof.
  induction fuel as [|fuel IH]; intros s Hs Hl; [lia|]. cbn [load_rest]. destruct (otherMods s) as [|f r] eqn:E.
  { exists s. split; [done|]. split; [done|]. by split. }
  pose proof (loading_enter f [] s Hs ltac:(rewrite E; by left)) as H1.
  assert (Hle : (length (otherMods (erase_mod f s)) < length (otherMods s))%nat).
  { cbn. rewrite (erase_perm f (otherMods s)) at 2 by (try (by eapply loading_others); rewrite E; by left). cbn. lia. }
  destruct (loadModMulti_progress (S fuel) f [] _ H1) as (s1 & -> & [G1 G2 Gsub G3 G4] & _); [rewrite E in Hle; lia|].
  cbn [mbind outcome_bind]. destruct (IH s1 G1) as (s2 & -> & E2 & [K1 K2 Ksub K3 K4]); [rewrite E in Hle; cbn in *; lia|].
  exists s2. split; [done|]. split; [done|]. split; [done|rewrite E2; cbn; lia|rewrite E2; by intros m ?%elem_of_nil|auto|].
  intros rank Hr _ Ho. apply (K4 rank Hr I). apply (G4 rank Hr); [|done]. by intros g ?%elem_of_nil.
Qed.
End Order.

Lemma set_insert_elem x l m : m ∈ set_insert x l <-> m = x \/ m ∈ l.
Proof.
  induction l as [|y l IH]; cbn; [set_solver|]. case_decide; [set_solver|]. case_match; [set_solver|]. rewrite elem_of_cons, IH. set_solver.
Qed.
(** Insertion keeps the names in order, so that none is in the set twice. *)
Lemma bytes_ltb_irrefl a : bytes_ltb a a = false.
Proof. induction a; cbn; [done|]. by rewrite decide_True. Qed.
Lemma bytes_ltb_trans a b c : bytes_ltb a b = true -> bytes_ltb b c = true -> bytes_ltb a c = true.
Proof.
  revert b c. induction a as [|x a IH]; intros [|y b] [|z c]; cbn; try done.
  repeat case_decide; subst; try done; rewrite ?bool_decide_eq_true; try lia.
  apply IH.
Qed.
Lemma bytes_ltb_total a b : a <> b -> bytes_ltb a b = false -> bytes_ltb b a = true.
Proof.
  revert b. induction a as [|x a IH]; intros [|y b]; cbn; try done. intros Hne. case_decide as E; subst.
  - rewrite decide_True by done. apply IH. congruence.
  - rewrite decide_False by congruence. rewrite bool_decide_eq_false, bool_decide_eq_true. intros H.
    assert (uchar x <> uchar y) by (by intros ?%uchar_inj). lia.
Qed.
Definition lt_all (x : bytes) (l : list bytes) : Prop := Forall (fun y => bytes_ltb x y = true) l.
Fixpoint ascending (l : list bytes) : Prop := match l with [] => True | x :: l => lt_all x l /\ ascending l end.
Lemma set_insert_ascending x l : ascending l -> ascending (set_insert x l).
Proof.
  induction l as [|y l IH]; cbn; [by repeat constructor|]. intros [Hy Hl]. case_decide as E; [by split|]. destruct (bytes_ltb x y) eqn:Ex.
  - split; [|done]. constructor; [done|]. apply (Forall_impl _ _ _ Hy). intros z. by apply bytes_ltb_trans.
  - split; [|by apply IH]. apply Forall_forall. intros z [->|Hz]%set_insert_elem; [by apply bytes_ltb_total|].
    by apply (proj1 (Forall_forall _ _) Hy).
Qed.
Lemma ascending_nodup l : ascending l -> NoDup l.
Proof.
  induction l as [|x l IH]; intros H; constructor; [|apply IH, H]. intros Hx. destruct H as [H _].
  pose proof (proj1 (Forall_forall _ _) H x Hx) as Hi. cbn in Hi. by rewrite bytes_ltb_irrefl in Hi.
Qed.
Lemma mods_to_load_ok listing : ascending (mods_to_load listing) /\ forall m, m ∈ mods_to_load listing <-> m ∈ listing /\ is_mod m = true.
Proof.
  unfold mods_to_load. rewrite <- (rev_involutive listing). induction (rev listing) as [|n l IH]; cbn; [split; [done|set_solver]|].
  rewrite foldl_app. cbn. destruct IH as [IH1 IH2]. destruct (is_mod n) eqn:En.
  - split; [by apply set_insert_ascending|]. intros m. rewrite set_insert_elem, IH2, elem_of_app, list_elem_of_singleton.
    split; [intros [-> |[? ?]]; auto|intros [[?| ->] ?]; auto].
  - split; [done|]. intros m. rewrite IH2, elem_of_app, list_elem_of_singleton.
    split; [intros [? ?]; auto|intros [[?| ->] ?]; [auto|congruence]].
Qed.

(** C24. Loading a directory ends, whatever the mods depend on, and loads every shared object
    in it exactly once; the handles of those that could be opened are kept in that order.  When the
    dependencies have no cycles, each mod is loaded after all the mods of the directory it needs. *)
Theorem mods_loaded_in_order (path : bytes) (listing : list bytes) (deps : bytes -> list bytes) (m : Hooks.manager)
    (Hdeps : forall f, getModDependencies (file_of (path ++ f)) = Ret (deps f)) (Hinit : init_keeps) (Hm : Hooks.registered m) :
  exists s, loadModsFromDirectory path (Some listing) (mkLoader [] [] [] m) = Ret s /\
    NoDup (order s) /\ (forall m, m ∈ order s <-> m ∈ listing /\ is_mod m = true) /\ mods s = omap (fun f => dlopen (path ++ f)) (order s) /\
    forall rank, acyclic deps (order s) rank -> ordered deps (order s) (order s).
Proof.
  destruct (mods_to_load_ok listing) as [Ha Hl]. unfold loadModsFromDirectory. cbn [order mods hookman].
  set (l := mods_to_load listing) in *. set (s0 := mkLoader l [] [] m).
  assert (H0 : loading path l [] s0) by (split; cbn; rewrite ?app_nil_r; [by apply ascending_nodup|done..]).
  destruct (load_rest_order Hinit path deps Hdeps l (S (length l)) s0 H0) as (s & -> & E & [H1 _ _ _ H4]); [cbn; lia|].
  destruct H1 as [Hn Hall Hmods Hreg]. cbn [mbind outcome_bind]. rewrite (Hooks.registered_apply machine _ Hreg). cbn [mbind outcome_bind].
  eexists. split; [done|]. cbn [order mods]. rewrite E, app_nil_l, app_nil_r in Hn. rewrite E in Hall. cbn in Hall.
  assert (Heq : forall m, m ∈ l <-> m ∈ order s) by (intros f; by rewrite Hall, app_nil_r).
  split; [done|]. split; [intros f; by rewrite <- Heq, Hl|]. split; [done|].
  intros rank Hr l1 f l2 El d Hd Hin. apply Heq in Hin.
  eapply (H4 rank); [|done| |done|done|done].
  - intros g x Hx Hi. apply Hr; [done|by apply Heq].
  - intros [|] ? ? [=].
Qed.
End Loading.

(** ** Images of mods

    An image with one program header, a dynamic section behind it and the string table at the end. *)
Fixpoint le_bytes (n : nat) (v : Z) : bytes :=
  match n with O => [] | S n => to_char v :: le_bytes n (v / 256) end.
Definition zeros (n : nat) : bytes := repeat NUL n.
Definition entry (e : Z * Z) : bytes := le_bytes 4 e.1 ++ le_bytes 4 e.2.
Definition string_table (names : list bytes) : bytes := concat (map (fun n => n ++ [NUL]) names).
Fixpoint needed_entries (off : Z) (names : list bytes) : list (Z * Z) :=
  match names with [] => [] | n :: names => (DT_NEEDED, off) :: needed_entries (off + Z.of_nat (length n) + 1) names end.
Definition dynamic (names : list bytes) : list (Z * Z) :=
  (DT_STRTAB, 84 + 8 * (2 + Z.of_nat (length names))) :: (DT_STRSZ, Z.of_nat (length (string_table names))) :: needed_entries 0 names.
Definition elf_header : bytes := zeros 28 ++ le_bytes 4 52 ++ zeros 10 ++ le_bytes 2 32 ++ le_bytes 2 1 ++ zeros 6.
Definition program_header (size : Z) : bytes := le_bytes 4 PT_DYNAMIC ++ le_bytes 4 84 ++ zeros 8 ++ le_bytes 4 size ++ zeros 12.
Definition elf_image (names : list bytes) : bytes :=
  elf_header ++ program_header (8 * Z.of_nat (length (dynamic names))) ++ concat (map entry (dynamic names)) ++ string_table names.

Lemma le_le_bytes n v : 0 <= v < 256 ^ Z.of_nat n -> le (le_bytes n v) = v.
Proof.
  revert v. induction n as [|n IH]; intros v Hv; cbn [le le_bytes]; [cbn in Hv; lia|].
  rewrite Nat2Z.inj_succ, Z.pow_succ_r in Hv by lia. rewrite uchar_to_char, IH by (split; [dlia|apply Z.div_lt_upper_bound; lia]). dlia.
Qed.
Lemma length_le_bytes n v : length (le_bytes n v) = n.
Proof. revert v. induction n; intros v; cbn; [done|]. by f_equal. Qed.
Lemma length_entry e : length (entry e) = 8%nat.
Proof. unfold entry. by rewrite length_app, !length_le_bytes. Qed.
Lemma length_entries l : length (concat (map entry l)) = (8 * length l)%nat.
Proof. induction l as [|e l IH]; [done|]. cbn [map concat]. rewrite length_app, length_entry, IH. cbn [length]. lia. Qed.
Lemma length_needed_entries off names : length (needed_entries off names) = length names.
Proof. revert off. induction names; intros off; cbn; [done|]. by f_equal. Qed.
Lemma length_dynamic names : length (dynamic names) = (2 + length names)%nat.
Proof. cbn. by rewrite length_needed_entries. Qed.

Lemma field_middle a b c off n : off = length a -> n = length b -> field (a ++ b ++ c) off n = Ret (le b).
Proof.
  intros -> ->. unfold field. rewrite decide_True by (rewrite !length_app; lia). by rewrite drop_app_length, take_app_length.
Qed.
Lemma read_middle a b c off n : off = Z.of_nat (length a) -> n = Z.of_nat (length b) -> read_at (a ++ b ++ c) off n = Some b.
Proof.
  intros -> ->. unfold read_at. rewrite !Nat2Z.id, drop_app_length, take_app_length. by rewrite decide_True.
Qed.

Lemma dyn_entries_ok l r : Forall (fun e => 0 <= e.1 < 2 ^ 32 /\ 0 <= e.2 < 2 ^ 32) l ->
  dyn_entries (length l) (concat (map entry l) ++ r) = l.
Proof.
  induction 1 as [|[t v] l [Ht Hv] _ IH]; [done|]. cbn [map concat length dyn_entries]. cbn [fst snd] in *.
  change (entry (t, v)) with (le_bytes 4 t ++ le_bytes 4 v). rewrite <- !app_assoc.
  rewrite (take_app_length' (le_bytes 4 t)), (drop_app_length' (le_bytes 4 t)), (take_app_length' (le_bytes 4 v)) by (by rewrite length_le_bytes).
  rewrite !le_le_bytes by done. f_equal. rewrite app_assoc, drop_app_length' by (by rewrite length_app, !length_le_bytes). exact IH.
Qed.

Lemma c_string_ok n r : NUL ∉ n -> c_string (n ++ NUL :: r) = Some n.
Proof.
  induction n as [|c n IH]; intros H; cbn; [by rewrite decide_True|].
  rewrite decide_False by (intros ->; apply H; by left). rewrite IH; [done|]. intros ?. apply H. by right.
Qed.

Lemma needed_ok pre names : Forall (fun n => NUL ∉ n) names ->
  needed (pre ++ string_table names) (needed_entries (Z.of_nat (length pre)) names) = Ret names.
Proof.
  intros H. revert pre. induction H as [|n names Hn _ IH]; intros pre; [done|]. cbn [needed_entries needed]. rewrite decide_True by done.
  unfold string_table. cbn [map concat]. rewrite <- app_assoc. unfold string_at. rewrite Nat2Z.id, drop_app_length. cbn [app].
  rewrite c_string_ok by done. cbn [mbind outcome_bind].
  specialize (IH (pre ++ n ++ [NUL])). rewrite <- !app_assoc in IH. rewrite !length_app in IH. cbn [length app] in IH.
  replace (Z.of_nat (length pre + (length n + 1))) with (Z.of_nat (length pre) + Z.of_nat (length n) + 1) in IH by lia.
  unfold string_table in IH. by rewrite IH.
Qed.

Lemma last_value_needed tag off names acc : tag <> DT_NEEDED -> last_value tag (needed_entries off names) acc = acc.
Proof. intros Ht. revert off. induction names; intros off; cbn; [done|]. rewrite decide_False by done. apply IHnames. Qed.
Lemma needed_bounds off names M : 0 <= off -> off + Z.of_nat (length (string_table names)) <= M -> Forall (fun e => e.1 = DT_NEEDED /\ 0 <= e.2 <= M) (needed_entries off names).
Proof.
  revert off. induction names as [|n names IH]; intros off Ho HM; cbn [needed_entries]; [done|]. unfold string_table in *. cbn [map concat] in HM.
  rewrite !length_app in HM. cbn [length] in HM. constructor; [cbn; lia|]. apply IH; lia.
Qed.
Lemma program_header_fields size : 0 <= size < 2 ^ 32 ->
  length (program_header size) = 32%nat /\ field (program_header size) 0 4 = Ret PT_DYNAMIC /\
  field (program_header size) 4 4 = Ret 84 /\ field (program_header size) 16 4 = Ret size.
Proof.
  intros H. unfold program_header. split; [by rewrite !length_app, !length_le_bytes|].
  split; [by apply (field_middle [] (le_bytes 4 PT_DYNAMIC))|]. split; [by apply (field_middle (le_bytes 4 PT_DYNAMIC) (le_bytes 4 84))|].
  rewrite 2!app_assoc. rewrite <- (app_assoc _ (zeros 8)). rewrite (app_assoc (le_bytes 4 PT_DYNAMIC ++ le_bytes 4 84)).
  rewrite field_middle; [by rewrite le_le_bytes|done|by rewrite length_le_bytes].
Qed.

Lemma dynamic_values names : last_value DT_STRTAB (dynamic names) 0 = 84 + 8 * (2 + Z.of_nat (length names)) /\
  last_value DT_STRSZ (dynamic names) 0 = Z.of_nat (length (string_table names)).
Proof. unfold dynamic. cbn [last_value]. split; by rewrite last_value_needed. Qed.

(** The dependencies of a mod are read back from its image: for a shared object whose
    dynamic section needs the libraries [names], [getModDependencies] returns these names. *)
Theorem dependencies_read_back (names : list bytes) (Hn : Forall (fun n => NUL ∉ n) names)
    (Hsize : 84 + 8 * (2 + Z.of_nat (length names)) + Z.of_nat (length (string_table names)) < 2 ^ 32) :
  getModDependencies (Some (elf_image names)) = Ret names.
Proof.
  pose proof (length_dynamic names) as Hd. set (size := 8 * Z.of_nat (length (dynamic names))).
  assert (Hs : 0 <= size < 2 ^ 32) by (unfold size; lia). destruct (program_header_fields size Hs) as (L & F0 & F4 & F16).
  unfold getModDependencies, elf_image. fold size.
  set (ph := program_header size) in *. set (dyn := concat (map entry (dynamic names))). set (str := string_table names) in *.
  assert (Ldyn : length dyn = (8 * length (dynamic names))%nat) by apply length_entries.
  rewrite (read_middle [] elf_header (ph ++ dyn ++ str)) by done.
  change (field elf_header 28 4) with (@Ret exn Z 52). change (field elf_header 42 2) with (@Ret exn Z 32). change (field elf_header 44 2) with (@Ret exn Z 1).
  cbn [mbind outcome_bind]. rewrite decide_False by lia. rewrite decide_False by lia.
  rewrite (read_middle elf_header ph (dyn ++ str)) by (done || by rewrite L).
  change (Z.to_nat 1) with 1%nat. cbn [find_dynamic]. rewrite Nat.mul_0_r, F0. cbn [mbind outcome_bind].
  rewrite decide_True by done. cbn [Nat.add]. rewrite F16, F4. cbn [mbind outcome_bind].
  replace (size / DYN_SIZE) with (Z.of_nat (length (dynamic names))) by (unfold size, DYN_SIZE; rewrite Z.mul_comm, Z.div_mul; lia).
  rewrite (app_assoc elf_header ph). rewrite (read_middle (elf_header ++ ph) dyn str).
  2: by rewrite length_app, L. 2: unfold DYN_SIZE; lia.
  rewrite Nat2Z.id. destruct (dynamic_values names) as [E1 E2].
  assert (Hall : dyn_entries (length (dynamic names)) dyn = dynamic names).
  { unfold dyn. rewrite <- (app_nil_r (concat _)). apply dyn_entries_ok. unfold dynamic. fold str. repeat constructor; cbn [fst snd]; try (unfold DT_STRTAB, DT_STRSZ; lia).
    assert (Hb := needed_bounds 0 names (Z.of_nat (length str)) ltac:(lia) ltac:(unfold str; lia)).
    apply (Forall_impl _ _ _ Hb). intros [t v] [Ht Hv]. cbn [fst snd] in *. unfold DT_NEEDED in *. lia. }
  rewrite Hall, E1, E2. fold str. case_decide as Hz.
  - destruct names as [|n names]; [done|]. exfalso. destruct Hz as [Hz|Hz]; [lia|]. unfold str, string_table in Hz. cbn in Hz. rewrite !length_app in Hz. cbn in Hz. lia.
  - rewrite (app_assoc (elf_header ++ ph)). rewrite <- (app_nil_r (_ ++ str)), <- app_assoc.
    rewrite (read_middle _ str []); [|rewrite !length_app, L, Ldyn, Hd; change (length elf_header) with 52%nat; lia|done].
    unfold dynamic. cbn [needed]. rewrite !decide_False by done. apply (needed_ok [] names Hn).
Qed.

(** ** Examples: a library that two mods need, which need each other *)
Definition lib : bytes := lit "libz.so".
Definition mod_a : bytes := lit "a.so".
Definition mod_b : bytes := lit "b.so".
Definition disk (p : bytes) : option bytes :=
  if decide (p = lit "m/" ++ mod_a) then Some (elf_image [lit "libc.so"; lib; mod_b])
  else if decide (p = lit "m/" ++ mod_b) then Some (elf_image [mod_a; lib]) else None.
Definition disk_deps (f : bytes) : list bytes :=
  if decide (f = mod_a) then [lit "libc.so"; lib; mod_b] else if decide (f = mod_b) then [mod_a; lib] else [].

Lemma disk_deps_ok f : getModDependencies (disk (lit "m/" ++ f)) = Ret (disk_deps f).
Proof.
  unfold disk, disk_deps. repeat case_decide; simplify_eq; try done; by vm_compute.
Qed.

(** The handle of the library is 7, the mods cannot be opened; the library registers itself again. *)
Definition opened (p : bytes) : option nat := if decide (p = lit "m/" ++ lib) then Some 7%nat else None.
Definition lib_init (h : nat) : option (Hooks.manager -> outcome exn Hooks.manager) := Some (fun m => Ret (Hooks.addLibrary h 4096 m)).
Definition no_hooks : Hooks.manager := Hooks.mkManager ∅ ∅ ∅ ∅ ∅ ∅ ∅ ∅.
Definition load_example : outcome exn loader :=
  loadModsFromDirectory disk opened (fun _ => 4096) lib_init Hooks.Other64 (lit "m/") (Some [mod_b; lit "readme"; mod_a; lib]) (mkLoader [] [] [] no_hooks).
Lemma mods_loaded_in_order_witness : exists s, load_example = Ret s /\ NoDup (order s) /\ order s = [lib; mod_b; mod_a] /\ mods s = [7%nat].
Proof.
  destruct (mods_loaded_in_order disk opened (fun _ => 4096) lib_init Hooks.Other64 (lit "m/") [mod_b; lit "readme"; mod_a; lib] disk_deps no_hooks disk_deps_ok)
    as (s & Hs & Hn & _).
  - intros h f m [= <-] Hm. eexists. split; [reflexivity|by apply Hooks.registered_add].
  - by intros h i H.
  - exists s. split; [done|]. split; [done|]. fold load_example in Hs.
    assert (E : (fun s => (order s, mods s)) <$> (match load_example with Ret s => Some s | _ => None end) = Some ([lib; mod_b; mod_a], [7%nat])) by (by vm_compute).
    rewrite Hs in E. cbn in E. by injection E as -> ->.
Defined.

Lemma dependencies_read_back_witness : getModDependencies (Some (elf_image [lit "libc.so"; lib])) = Ret [lit "libc.so"; lib].
Proof. apply dependencies_read_back; [|by vm_compute]. repeat constructor; apply (bool_decide_unpack _); by vm_compute. Defined.
End ModLoader.
