(* ===== verification/Paths.v ===== *)
(** * Paths and files (mcpelauncher-common, file-util)

    [PathHelper] (path_helper.h, path_helper.cpp): the directories of the launcher and
    the search for data files; [EnvPathUtil] (EnvPathUtil.cpp): the search for programs;
    [FileUtil] (FileUtil.cpp): creating directories and reading files.  The environment
    and the file system are parameters; the branches for macOS are left out. *)

From S2P Require Import Prelude CxxString.
From Stdlib Require Import ZArith Ascii Lia.
From stdpp Require Import base gmap strings numbers list.

Module Paths.

(** ** The environment of the process *)
Record environment := mkEnv {
  getenv : string -> option bytes;
  cwd : bytes;
  proc_self_exe : option bytes;
  pw_dir : option bytes;
  fileExists : bytes -> bool
}.
Definition slash : ascii := "/"%char.
Definition PATH_MAX : nat := 4096.

Inductive processor := X86_64 | X86 | Arm64 | ArmV7 | OtherProcessor.
Definition getAbiDir (p : processor) : bytes :=
  match p with
  | X86_64 => lit "x86_64"
  | X86 => lit "x86"
  | Arm64 => lit "arm64-v8a"
  | ArmV7 => lit "armeabi-v7a"
  | OtherProcessor => lit "unsupported"
  end.

Record PathInfo := mkPathInfo {
  appDir : bytes; homeDir : bytes; dataHome : bytes; dataDirs : list bytes;
  cacheHome : bytes; overrideDataDir : bytes; overrideCacheDir : bytes; gameDir : bytes }.
Definition appDirName : bytes := lit "mcpelauncher".

Section Helper.
Context (e : environment).

(** [readlink] cuts the path at the size of the buffer; [strrchr] cuts the name of the program. *)
Definition findAppDir : bytes :=
  match proc_self_exe e with
  | None => []
  | Some link =>
      let buf := take (PATH_MAX - 1) link in
      match buf with
      | [] => []
      | _ => match rfind_char slash buf with Some i => take i buf | None => buf end
      end
  end.
Definition findUserHome : outcome exn bytes :=
  match getenv e "HOME" with
  | Some h => Ret h
  | None => match pw_dir e with Some d => Ret d | None => Throw (runtime_error "getpwuid failed") end
  end.
(** A path that does not fit leaves the buffer uninitialized. *)
Definition getWorkingDir : outcome exn bytes :=
  if decide (length (cwd e) < 256)%nat then Ret (cwd e ++ lit "/") else Undef.

(** The directories of [XDG_DATA_DIRS]; an empty last one is left out. *)
Fixpoint xdg_dirs (s acc : bytes) : list bytes :=
  match s with
  | [] => match acc with [] => [] | _ => [acc] end
  | c :: s => if decide (c = ":"%char) then acc :: xdg_dirs s [] else xdg_dirs s (acc ++ [c])
  end.
Definition nonempty_or (o : option bytes) (d : bytes) : bytes := match o with Some (c :: s) => c :: s | _ => d end.
Definition new_PathInfo (cpu : processor) : outcome exn PathInfo :=
  let app := findAppDir in
  home ← findUserHome;
  wd ← getWorkingDir;
  if fileExists e (wd ++ lit "lib/" ++ getAbiDir cpu ++ lit "/libminecraftpe.so") then
    Ret (mkPathInfo app home [] [] [] wd [] [])
  else
    let data := nonempty_or (getenv e "XDG_DATA_HOME") (home ++ lit "/.local/share") in
    let dirs := match getenv e "XDG_DATA_DIRS" with
                | Some s => xdg_dirs s []
                | None => [lit "/usr/local/share/"; lit "/usr/share/"]
                end in
    let cache := nonempty_or (getenv e "XDG_CACHE_HOME") (home ++ lit "/.cache") in
    Ret (mkPathInfo app home data dirs cache [] [] []).

(** The same functions of [EnvPathUtil]. *)
Definition getAppDir : bytes := findAppDir.
Definition getHomeDir : outcome exn bytes := findUserHome.
Definition env_getWorkingDir : outcome exn bytes := if decide (length (cwd e) < 256)%nat then Ret (cwd e) else Undef.
Definition getDataHome : outcome exn bytes :=
  match getenv e "XDG_DATA_HOME" with
  | Some d => Ret d
  | None => home ← getHomeDir; Ret (home ++ lit "/.local/share")
  end.

(** [rfind('/', length - 1)] looks at the last character too. *)
Definition getParentDir (path : bytes) : bytes := match rfind_char slash path with Some i => take i path | None => [] end.

(** ** Data files *)

(** The parts of a list of directories that colons separate, empty ones included. *)
Fixpoint split_colon (s acc : bytes) : list bytes :=
  match s with
  | [] => [acc]
  | c :: s => if decide (c = ":"%char) then acc :: split_colon s [] else split_colon s (acc ++ [c])
  end.
(** [DEV_EXTRA_PATHS], when the build defines it. *)
Context (DEV_EXTRA_PATHS : option bytes) (i : PathInfo).
Definition extra : list bytes := match DEV_EXTRA_PATHS with Some s => split_colon s [] | None => [] end.

(** [if (fileExists(p)) return p;] and what follows. *)
Definition return_if (p : bytes) (k : outcome exn bytes) : outcome exn bytes := if fileExists e p then Ret p else k.
Definition in_dir (path dir : bytes) : bytes := dir ++ lit "/" ++ appDirName ++ lit "/" ++ path.
Definition findDataFile (path : bytes) : outcome exn bytes :=
  let last := return_if (getParentDir (appDir i) ++ lit "/share/mcpelauncher/" ++ path) (Throw (runtime_error ("Failed to find data file: " +:+ String.string_of_list_ascii path))) in
  let k := foldr (fun dir k => return_if (in_dir path dir) k) last (dataDirs i) in
  let k := match overrideDataDir i with
           | [] => return_if (appDir i ++ lit "/" ++ path) (return_if (in_dir path (dataHome i)) k)
           | _ => k
           end in
  let k := foldr (fun dir k => return_if (dir ++ [slash] ++ path) k) k extra in
  match overrideDataDir i with [] => k | o => return_if (o ++ path) k end.

(** The calls of [f], in order. *)
Definition call_if (p : bytes) : list bytes := if fileExists e p then [p] else [].
Definition findAllDataFiles (path : bytes) : list bytes :=
  (match overrideDataDir i with [] => [] | o => call_if (o ++ path) end) ++
  concat (map (fun dir => call_if (dir ++ [slash] ++ path)) extra) ++
  (match overrideDataDir i with
   | [] => call_if (appDir i ++ lit "/" ++ path) ++ call_if (in_dir path (dataHome i))
   | _ => []
   end) ++
  concat (map (fun dir => call_if (in_dir path dir)) (dataDirs i)) ++
  call_if (getParentDir (appDir i) ++ lit "/share/mcpelauncher/" ++ path).

Definition getPrimaryDataDirectory : bytes :=
  match overrideDataDir i with [] => dataHome i ++ lit "/" ++ appDirName ++ lit "/" | o => o end.
Definition getCacheDirectory : bytes :=
  match overrideCacheDir i with [] => cacheHome i ++ lit "/" ++ appDirName ++ lit "/" | o => o end.
Definition getGameDir : bytes := match gameDir i with [] => getPrimaryDataDirectory | g => g end.
Definition findGameFile (path : bytes) : outcome exn bytes :=
  match gameDir i with [] => findDataFile path | g => Ret (g ++ path) end.
Definition getIconPath : outcome exn bytes := findGameFile (lit "assets/icon.png").
End Helper.

Definition with_slash (d : bytes) : bytes :=
  match last d with Some c => if decide (c = slash) then d else d ++ [slash] | None => d end.
Definition setGameDir (d : bytes) (i : PathInfo) : PathInfo :=
  mkPathInfo (appDir i) (homeDir i) (dataHome i) (dataDirs i) (cacheHome i) (overrideDataDir i) (overrideCacheDir i) (with_slash d).
Definition setDataDir (d : bytes) (i : PathInfo) : PathInfo :=
  mkPathInfo (appDir i) (homeDir i) (dataHome i) (dataDirs i) (cacheHome i) (with_slash d) (overrideCacheDir i) (gameDir i).
Definition setCacheDir (d : bytes) (i : PathInfo) : PathInfo :=
  mkPathInfo (appDir i) (homeDir i) (dataHome i) (dataDirs i) (cacheHome i) (overrideDataDir i) (with_slash d) (gameDir i).

(** ** Programs *)

(** [memcpy] into a buffer of a fixed size. *)
Definition put (buf : bytes) (o : nat) (s : bytes) : outcome exn (bytes * nat) :=
  if decide (o + length s <= length buf)%nat then Ret (take o buf ++ s ++ drop (o + length s) buf, (o + length s)%nat) else Undef.
Definition put_if (b : bool) (s : bytes) (st : bytes * nat) : outcome exn (bytes * nat) := if b then put st.1 st.2 s else Ret st.

Definition ends_in_slash (s : bytes) : bool := bool_decide (last s = Some slash).
(** One turn of the loop: the name of [what] in the directory [dir], given as it is in the path. *)
Definition build_name (what cwd dir : bytes) : outcome exn bytes :=
  let cwdLen := length cwd in
  let willAppendSlashCwd := negb (bool_decide (cwdLen = 0%nat)) && negb (ends_in_slash cwd) in
  let cwdWithSlashLen := (cwdLen + if willAppendSlashCwd then 1 else 0)%nat in
  let len := length dir in
  let willPrefixWithCwd := bool_decide (len = 0%nat) || negb (bool_decide (head dir = Some slash)) in
  let willReplaceWithDot := bool_decide (len = 0%nat) && bool_decide (cwdLen = 0%nat) in
  let willAppendSlash := if willReplaceWithDot then true else negb (bool_decide (len = 0%nat)) && negb (ends_in_slash dir) in
  let size := ((if willPrefixWithCwd then cwdWithSlashLen else 0) + (if willReplaceWithDot then 1 else len) + (if willAppendSlash then 1 else 0) + length what)%nat in
  let buf := repeat NUL size in
  st ← put_if willPrefixWithCwd cwd (buf, 0%nat);
  st ← put_if (willPrefixWithCwd && willAppendSlashCwd) [slash] st;
  st ← put st.1 st.2 (if willReplaceWithDot then lit "." else dir);
  st ← put_if willAppendSlash [slash] st;
  st ← put st.1 st.2 what;
  Ret st.1.

Fixpoint find_from_dirs (executable : bytes -> bool) (what cwd : bytes) (dirs : list bytes) : outcome exn (option bytes) :=
  match dirs with
  | [] => Ret None
  | dir :: dirs => buf ← build_name what cwd dir; if executable buf then Ret (Some buf) else find_from_dirs executable what cwd dirs
  end.
(** [path] is null or the text of a path; [cwd] is null or empty, or a directory. *)
Definition findInPath (getenv : string -> option bytes) (executable : bytes -> bool) (what : bytes) (path : option bytes) (cwd : bytes) : outcome exn (option bytes) :=
  let path := match path with Some p => p | None => nonempty_or (getenv "PATH"%string) (lit "/bin:/usr/bin") end in
  find_from_dirs executable what cwd (split_colon path []).

(** ** Directories and files *)

(** [rfind('/')], and all slashes in front of it are cut off. *)
Fixpoint strip_slashes (path : bytes) (iof : nat) : nat :=
  match iof with
  | O => O
  | S k => if decide (path !! k = Some slash) then strip_slashes path k else iof
  end.
Definition getParent (path : bytes) : bytes := match rfind_char slash path with Some i => take (strip_slashes path i) path | None => [] end.

Section Files.
(** The file system, with [stat], [access] and [mkdir]. *)
Context {FS : Type} (isDirectory exists_file : FS -> bytes -> bool) (mkdir : FS -> bytes -> option FS).

Fixpoint mkdirRecursive (fuel : nat) (path : bytes) (s : FS) : outcome (FS * exn) FS :=
  match fuel with
  | O => Diverge
  | S fuel =>
      if isDirectory s path then Ret s
      else if exists_file s path then Throw (s, runtime_error ("File exists and is not a directory: " +:+ String.string_of_list_ascii path))
      else s ← mkdirRecursive fuel (getParent path) s;
           match mkdir s path with
           | Some s => Ret s
           | None => Throw (s, runtime_error ("mkdir failed, path = " +:+ String.string_of_list_ascii path))
           end
  end.
End Files.

(** A file that is open for reading: its bytes when its size is taken, [None] when [lseek] fails. *)
Record open_file := mkOpen { fo_directory : bool; fo_bytes : option bytes }.
(** The counts [read] returns, a negative one for an error; a call copies that many bytes. *)
Fixpoint read_loop (fuel : nat) (reads : nat -> Z) (data : bytes) (k o : nat) : outcome exn (option nat) :=
  match fuel with
  | O => Diverge
  | S fuel =>
      if decide (o < length data)%nat then
        let res := reads k in
        if decide (res < 0)%Z then Ret None
        else read_loop fuel reads data (S k) (o + Z.to_nat res)
      else Ret (Some o)
  end.
(** [None] is a return of false. *)
Definition readFile (fuel : nat) (reads : nat -> Z) (f : option open_file) : outcome exn (option bytes) :=
  match f with
  | None => Ret None
  | Some f =>
      if fo_directory f then Ret None
      else match fo_bytes f with
           | None => Ret None
           | Some data => r ← read_loop fuel reads data 0 0; Ret (match r with Some o => Some (take o data) | None => None end)
           end
  end.

(** ** The search for data files *)
Definition first (l : list bytes) (k : outcome exn bytes) : outcome exn bytes := match l with [] => k | p :: _ => Ret p end.
Lemma first_app l1 l2 k : first (l1 ++ l2) k = first l1 (first l2 k).
Proof. by destruct l1. Qed.
Lemma first_call e p k : return_if e p k = first (call_if e p) k.
Proof. unfold return_if, call_if. by destruct (fileExists e p). Qed.
Lemma first_calls e (g : bytes -> bytes) k l : foldr (fun d k => return_if e (g d) k) k l = first (concat (map (fun d => call_if e (g d)) l)) k.
Proof. induction l as [|d l IH]; [done|]. cbn [foldr map concat]. by rewrite IH, first_call, first_app. Qed.

(** The search for a data file returns the first of the files that the enumeration of all
    data files finds, and throws exactly when it finds none. *)
Theorem find_is_first (e : environment) (dev : option bytes) (i : PathInfo) (path : bytes) :
  findDataFile e dev i path = match findAllDataFiles e dev i path with
                              | p :: _ => Ret p
                              | [] => Throw (runtime_error ("Failed to find data file: " +:+ String.string_of_list_ascii path))
                              end.
Proof.
  change (findDataFile e dev i path = first (findAllDataFiles e dev i path) (Throw (runtime_error ("Failed to find data file: " +:+ String.string_of_list_ascii path)))).
  unfold findDataFile, findAllDataFiles. rewrite !first_calls, !first_app. destruct (overrideDataDir i); rewrite !first_call, ?first_app; done.
Qed.

(** Directories that are set end in a slash. *)
Lemma with_slash_ends d : d <> [] -> last (with_slash d) = Some slash.
Proof. intros H. unfold with_slash. destruct (last d) as [c|] eqn:E; [|by apply last_None in E]. case_decide; [congruence|apply last_snoc]. Qed.
Theorem set_dirs_end_in_slash (d : bytes) (i : PathInfo) (Hd : d <> []) :
  last (getGameDir (setGameDir d i)) = Some slash /\ last (getPrimaryDataDirectory (setDataDir d i)) = Some slash /\ last (getCacheDirectory (setCacheDir d i)) = Some slash.
Proof.
  pose proof (with_slash_ends d Hd) as H. unfold getGameDir, getPrimaryDataDirectory, getCacheDirectory. cbn. by destruct (with_slash d).
Qed.

(** ** The search for programs *)

(** The directory a part of the path names, and the file in it. *)
Definition resolve (cwd dir : bytes) : bytes :=
  if decide (head dir = Some slash) then dir else match with_slash cwd ++ dir with [] => lit "." | d => d end.
Definition candidate (what cwd dir : bytes) : bytes := with_slash (resolve cwd dir) ++ what.

Lemma put_at (p s : bytes) n : (length s <= n)%nat -> put (p ++ repeat NUL n) (length p) s = Ret ((p ++ s) ++ repeat NUL (n - length s), length (p ++ s)).
Proof.
  intros H. unfold put. rewrite decide_True by (rewrite length_app, repeat_length; lia). rewrite take_app_length, <- app_assoc.
  rewrite <- drop_drop, drop_app_length. do 3 f_equal; [|by rewrite length_app]. f_equal.
  replace n with (length s + (n - length s))%nat at 1 by lia. rewrite repeat_app. by rewrite drop_app_length' by (by rewrite repeat_length).
Qed.
Lemma put_if_at (b : bool) (p s : bytes) n : ((if b then length s else 0) <= n)%nat ->
  put_if b s (p ++ repeat NUL n, length p) = Ret ((p ++ (if b then s else [])) ++ repeat NUL (n - length (if b then s else [])), length (p ++ if b then s else [])).
Proof. destruct b; intros H; [by apply put_at|]. cbn. by rewrite app_nil_r, Nat.sub_0_r. Qed.
Lemma with_slash_if d : with_slash d = d ++ (if negb (bool_decide (length d = 0%nat)) && negb (ends_in_slash d) then [slash] else []).
Proof.
  unfold with_slash, ends_in_slash. destruct (last d) as [c|] eqn:E.
  - assert (d <> []) by (by intros ->). rewrite bool_decide_eq_false_2 by (by destruct d). cbn [negb andb].
    case_decide as Hc; [rewrite bool_decide_eq_true_2 by congruence|rewrite bool_decide_eq_false_2 by congruence]; [by rewrite app_nil_r|done].
  - apply last_None in E as ->. done.
Qed.

Lemma with_slash_app p d : d <> [] -> with_slash (p ++ d) = p ++ with_slash d.
Proof.
  intros H. unfold with_slash. rewrite last_app. destruct (last d) eqn:E; [|by apply last_None in E]. case_decide; [done|by rewrite <- app_assoc].
Qed.
Lemma with_slash_idemp d : with_slash (with_slash d) = with_slash d.
Proof.
  unfold with_slash at 2 3. destruct (last d) as [c|] eqn:E; [case_decide as Hc|]; unfold with_slash; rewrite ?last_snoc, ?E; by rewrite ?decide_True.
Qed.
Lemma resolve_parts cwd dir :
  let dot := bool_decide (length dir = 0%nat) && bool_decide (length cwd = 0%nat) in
  let pre := bool_decide (length dir = 0%nat) || negb (bool_decide (head dir = Some slash)) in
  (((if pre then cwd else []) ++ (if pre && (negb (bool_decide (length cwd = 0%nat)) && negb (ends_in_slash cwd)) then [slash] else [])) ++
    (if dot then lit "." else dir)) ++ (if (if dot then true else negb (bool_decide (length dir = 0%nat)) && negb (ends_in_slash dir)) then [slash] else [])
  = with_slash (resolve cwd dir).
Proof.
  intros dot pre. unfold resolve. case_decide as Hh.
  - assert (dir <> []) by (by intros ->). assert (Hl : bool_decide (length dir = 0%nat) = false) by (apply bool_decide_eq_false_2; by destruct dir).
    unfold pre, dot. rewrite Hl, (bool_decide_eq_true_2 _ Hh). cbn. rewrite with_slash_if, Hl. done.
  - unfold pre, dot. rewrite (bool_decide_eq_false_2 _ Hh), orb_true_r. cbn [andb negb]. rewrite <- with_slash_if.
    destruct (decide (dir = [])) as [->|Hd].
    + cbn [length]. rewrite !app_nil_r. destruct cwd as [|c w]; [done|].
      rewrite (bool_decide_eq_false_2 (length (c :: w) = 0%nat)), (bool_decide_eq_true_2 (0%nat = 0%nat)) by done. cbn [negb andb]. rewrite !app_nil_r.
      destruct (with_slash (c :: w)) eqn:E; [|rewrite <- E; symmetry; apply with_slash_idemp]. rewrite with_slash_if in E. done.
    + assert (Hl : bool_decide (length dir = 0%nat) = false) by (apply bool_decide_eq_false_2; by destruct dir). rewrite Hl. cbn [andb].
      destruct (with_slash cwd ++ dir) as [|a r] eqn:E; [by apply app_eq_nil in E as [_ ?]|]. rewrite <- E, with_slash_app by done.
      rewrite (with_slash_if dir), Hl, app_assoc. done.
Qed.

(** The buffer is filled exactly: its size is that of the name, and no byte of it is left. *)
Lemma build_name_candidate what cwd dir : build_name what cwd dir = Ret (candidate what cwd dir).
Proof.
  unfold build_name, candidate, resolve. cbv zeta.
  set (sc := negb (bool_decide (length cwd = 0%nat)) && negb (ends_in_slash cwd)).
  set (pre := bool_decide (length dir = 0%nat) || negb (bool_decide (head dir = Some slash))).
  set (dot := bool_decide (length dir = 0%nat) && bool_decide (length cwd = 0%nat)).
  set (sl := if dot then true else negb (bool_decide (length dir = 0%nat)) && negb (ends_in_slash dir)).
  set (A := if pre then cwd else []). set (B := if pre && sc then [slash] else []). set (D := if dot then lit "." else dir). set (S := if sl then [slash] else []).
  set (n := Nat.add _ _). assert (Hn : n = (length A + length B + length D + length S + length what)%nat).
  { unfold n, A, B, D, S. destruct pre, sc, dot, sl; cbn; lia. }
  clearbody n. change (repeat NUL n, 0%nat) with ([] ++ repeat NUL n, length ([] : bytes)).
  rewrite put_if_at by (destruct pre; unfold A in *; lia). fold A. cbn [mbind outcome_bind].
  rewrite put_if_at by (destruct (pre && sc); unfold B in *; cbn in *; lia). fold B. cbn [mbind outcome_bind fst snd].
  rewrite put_at by lia. cbn [mbind outcome_bind]. rewrite put_if_at by (destruct sl; unfold S in *; cbn in *; lia). fold S. cbn [mbind outcome_bind fst snd].
  rewrite put_at by lia. cbn [mbind outcome_bind fst]. replace (n - _ - _ - _ - _ - _)%nat with 0%nat by lia. rewrite app_nil_r. cbn [app].
  f_equal. f_equal. apply resolve_parts.
Qed.

(** The search for a program looks in the directories of the path in their order, an empty
    one standing for the working directory and relative ones being taken from it, and returns the
    first file that can be executed; the buffer for the names is filled exactly. *)
Theorem program_found (env : string -> option bytes) (executable : bytes -> bool) (what path cwd : bytes) :
  findInPath env executable what (Some path) cwd = Ret (head (filter (fun f => executable f = true) (map (candidate what cwd) (split_colon path [])))).
Proof.
  unfold findInPath. induction (split_colon path []) as [|dir dirs IH]; [done|]. cbn [find_from_dirs map]. rewrite build_name_candidate.
  cbn [mbind outcome_bind]. rewrite filter_cons. destruct (executable _) eqn:E; [by rewrite decide_True|]. by rewrite decide_False.
Qed.
(** The parts of a path are read back. *)
Lemma split_colon_part p r acc : ":"%char ∉ p -> split_colon (p ++ ":"%char :: r) acc = (acc ++ p) :: split_colon r [].
Proof.
  revert acc. induction p as [|c p IH]; intros acc Hp; cbn [app split_colon].
  - rewrite decide_True by done. by rewrite app_nil_r.
  - apply not_elem_of_cons in Hp as [Hc Hp]. rewrite decide_False by done. rewrite IH by done. by rewrite <- app_assoc.
Qed.

(** ** Creating directories *)
Definition good_name (n : bytes) : Prop := n <> [] /\ slash ∉ n /\ n <> lit "." /\ n <> lit "..".
Definition below (d n : bytes) : bytes := d ++ slash :: n.
Definition build (d : bytes) (names : list bytes) : bytes := foldl below d names.

Lemma rfind_char_none c s : c ∉ s -> rfind_char c s = None.
Proof. induction s as [|x s IH]; intros H; [done|]. apply not_elem_of_cons in H as [? ?]. cbn. rewrite IH by done. by rewrite decide_False. Qed.
Lemma rfind_char_last c p r : c ∉ r -> rfind_char c (p ++ c :: r) = Some (length p).
Proof.
  intros H. induction p as [|x p IH]; cbn; [rewrite rfind_char_none by done; by rewrite decide_True|]. by rewrite IH.
Qed.
Lemma getParent_below d n : d <> [] -> last d <> Some slash -> slash ∉ n -> getParent (below d n) = d.
Proof.
  intros Hd Hl Hn. unfold getParent, below. rewrite rfind_char_last by done.
  destruct d as [|c d _] using rev_ind; [done|]. rewrite last_snoc in Hl. rewrite length_app, Nat.add_1_r. cbn [strip_slashes].
  rewrite lookup_app_l by (rewrite length_app; cbn; lia). rewrite lookup_app_r, Nat.sub_diag by lia. cbn [lookup list_lookup].
  rewrite decide_False by done. replace (S (length d)) with (length (d ++ [c])) by (rewrite length_app; cbn; lia). apply take_app_length.
Qed.
Lemma build_snoc d ns n : build d (ns ++ [n]) = below (build d ns) n.
Proof. unfold build. by rewrite foldl_app. Qed.
Lemma below_name d n : good_name n -> below d n <> [] /\ last (below d n) <> Some slash.
Proof.
  intros (Hn & Hs & _). split; [by destruct d|]. unfold below. rewrite last_app, last_cons.
  destruct (last n) as [c|] eqn:E; [|by apply last_None in E]. intros [= ->]. apply last_Some in E as [l ->]. apply Hs, elem_of_app. right. by left.
Qed.
Lemma build_end d ns : d <> [] -> last d <> Some slash -> Forall good_name ns -> build d ns <> [] /\ last (build d ns) <> Some slash.
Proof.
  intros Hd Hl. destruct ns as [|n ns _] using rev_ind; intros Hns; [done|]. apply Forall_app in Hns as [_ Hn]. apply Forall_inv in Hn.
  rewrite build_snoc. by apply below_name.
Qed.

Section Directories.
Context {FS : Type} (wf : FS -> Prop) (isDirectory exists_file : FS -> bytes -> bool) (mkdir : FS -> bytes -> option FS).
(** [mkdir] makes an empty directory in a directory. *)
Definition mkdir_makes : Prop := forall s d n, wf s -> isDirectory s d = true -> good_name n -> exists_file s (below d n) = false ->
  exists s', mkdir s (below d n) = Some s' /\ wf s' /\ isDirectory s' (below d n) = true /\ forall n', good_name n' -> exists_file s' (below (below d n) n') = false.
(** What is a directory exists. *)
Definition directories_exist : Prop := forall s p, isDirectory s p = true -> exists_file s p = true.

Lemma create_chain (s : FS) (d : bytes) (ns : list bytes) : mkdir_makes -> directories_exist -> wf s -> d <> [] -> last d <> Some slash -> isDirectory s d = true ->
  forall fuel, Forall good_name ns -> (forall k, (k < length ns)%nat -> exists_file s (build d (take (S k) ns)) = false) -> (length ns < fuel)%nat ->
  exists s', mkdirRecursive isDirectory exists_file mkdir fuel (build d ns) s = Ret s' /\ wf s' /\ isDirectory s' (build d ns) = true /\
    forall n, good_name n -> exists_file s (build d (ns ++ [n])) = false -> exists_file s' (build d (ns ++ [n])) = false.
Proof.
  intros Hmk Hex Hwf Hd Hl Hdir. induction ns as [|m ns IH] using rev_ind; intros fuel Hns Hno Hf; (destruct fuel as [|fuel]; [lia|]); cbn [mkdirRecursive].
  { cbn [build foldl]. rewrite Hdir. by exists s. }
  rewrite length_app in Hno, Hf. cbn [length] in Hno, Hf. pose proof Hns as Hns0. apply Forall_app in Hns as [Hns Hm]. apply Forall_inv in Hm.
  assert (Hthis : exists_file s (build d (ns ++ [m])) = false).
  { specialize (Hno (length ns) ltac:(lia)). by rewrite take_ge in Hno by (rewrite length_app; cbn; lia). }
  destruct (isDirectory s (build d (ns ++ [m]))) eqn:E; [apply Hex in E; congruence|]. rewrite Hthis.
  destruct (build_end d ns Hd Hl Hns) as [Hb Hbl]. rewrite (build_snoc d ns m), getParent_below by (done || apply Hm). rewrite <- (build_snoc d ns m).
  destruct (IH fuel Hns) as (s1 & -> & Hw1 & Hd1 & Hn1); [|lia|].
  { intros k Hk. specialize (Hno k ltac:(lia)). by rewrite take_app_le in Hno by lia. }
  cbn [mbind outcome_bind]. specialize (Hn1 m Hm Hthis). rewrite build_snoc in Hn1 |- *.
  destruct (Hmk s1 _ m Hw1 Hd1 Hm Hn1) as (s2 & -> & Hw2 & Hd2 & Hn2). exists s2. split; [done|]. split; [done|]. split; [done|].
  intros n Hn _. rewrite !build_snoc. by apply Hn2.
Qed.

(** Below a directory, all missing directories of a path are created, whatever their number;
    the recursion ends within one call per name. *)
Theorem directories_created (fuel : nat) (s : FS) (d : bytes) (ns : list bytes)
    (Hmk : mkdir_makes) (Hex : directories_exist) (Hwf : wf s) (Hd : d <> []) (Hl : last d <> Some slash) (Hns : Forall good_name ns)
    (Hdir : isDirectory s d = true) (Hno : forall k, (k < length ns)%nat -> exists_file s (build d (take (S k) ns)) = false)
    (Hf : (length ns < fuel)%nat) :
  exists s', mkdirRecursive isDirectory exists_file mkdir fuel (build d ns) s = Ret s' /\ isDirectory s' (build d ns) = true.
Proof. destruct (create_chain s d ns Hmk Hex Hwf Hd Hl Hdir fuel Hns Hno Hf) as (s' & H1 & _ & H2 & _). by exists s'. Qed.

(** The recursion has no end at the empty path: a relative name that does not exist is never created. *)
Theorem relative_path_diverges (fuel : nat) (s : FS) (n : bytes) (Hn : slash ∉ n)
    (H : forall p, p = n \/ p = [] -> isDirectory s p = false /\ exists_file s p = false) :
  mkdirRecursive isDirectory exists_file mkdir fuel n s = Diverge.
Proof.
  assert (Hs : forall fuel, mkdirRecursive isDirectory exists_file mkdir fuel [] s = Diverge).
  { induction fuel0 as [|f IH]; [done|]. cbn [mkdirRecursive]. destruct (H [] ltac:(by right)) as [-> ->]. change (getParent []) with ([] : bytes). by rewrite IH. }
  destruct fuel as [|fuel]; [done|]. cbn [mkdirRecursive]. destruct (H n ltac:(by left)) as [-> ->].
  unfold getParent. rewrite rfind_char_none by done. by rewrite Hs.
Qed.
End Directories.

(** ** Reading files *)

(** The bytes still missing bound the number of reads. *)
Lemma read_loop_ends (reads : nat -> Z) (data : bytes) : forall fuel k o, (o <= length data)%nat -> (length data - o < fuel)%nat ->
  (forall j, 0 < reads j)%Z ->
  exists o', read_loop fuel reads data k o = Ret (Some o') /\ (length data <= o')%nat.
Proof.
  induction fuel as [|fuel IH]; intros k o Ho Hf Hr; [lia|]. cbn [read_loop]. case_decide as Hlt; [|exists o; split; [done|lia]].
  pose proof (Hr k) as Hk. rewrite decide_False by lia.
  destruct (decide (o + Z.to_nat (reads k) <= length data)%nat) as [Hle|Hgt].
  - apply IH; [done|lia|done].
  - destruct fuel as [|fuel]; [lia|]. cbn [read_loop]. rewrite decide_False by lia. eexists. split; [done|lia].
Qed.

(** Reading a file, in whatever portions the system returns, ends and gives its contents as
    long as every read returns something. *)
Theorem file_read_back (fuel : nat) (reads : nat -> Z) (data : bytes) (Hr : forall k, (0 < reads k)%Z) (Hf : (length data < fuel)%nat) :
  readFile fuel reads (Some (mkOpen false (Some data))) = Ret (Some data).
Proof.
  unfold readFile. cbn [fo_directory fo_bytes]. destruct (read_loop_ends reads data fuel 0 0) as (o & -> & Ho); [lia|lia|done|].
  cbn. by rewrite take_ge.
Qed.
(** A file that was cut after its size was taken is read without end. *)
Theorem truncated_file_diverges (fuel : nat) (reads : nat -> Z) (data : bytes) (n : nat)
    (H0 : forall k, reads k = if decide (k = 0%nat) then Z.of_nat n else 0%Z) (Hn : (n < length data)%nat) :
  readFile fuel reads (Some (mkOpen false (Some data))) = Diverge.
Proof.
  unfold readFile. cbn [fo_directory fo_bytes]. enough (Hl : read_loop fuel reads data 0 0 = Diverge) by (by rewrite Hl).
  assert (Hz : forall f k, (0 < k)%nat -> read_loop f reads data k n = Diverge).
  { induction f as [|f IH]; intros k Hk; [done|]. cbn [read_loop]. rewrite decide_True by done. rewrite H0, (decide_False (P := k = 0%nat)) by lia.
    rewrite decide_False by done. rewrite Nat.add_0_r. apply IH. lia. }
  destruct fuel as [|fuel]; [done|]. cbn [read_loop]. rewrite decide_True by lia. rewrite H0, (decide_True (P := 0%nat = 0%nat)) by done.
  rewrite decide_False by lia. rewrite Nat2Z.id. apply Hz. lia.
Qed.
(** The comment says that a slash at the end is skipped; it is the one that is found. *)
Lemma getParentDir_trailing_slash p : getParentDir (p ++ [slash]) = p.
Proof. unfold getParentDir. rewrite rfind_char_last by apply not_elem_of_nil. apply take_app_length. Qed.

(** ** Witnesses *)

(** Directories by their names, of which only those in a directory of the table are there. *)
Definition dirs_have (s : gset bytes) (p : bytes) : bool := bool_decide (p ∈ s).
Definition dirs_mkdir (s : gset bytes) (p : bytes) : option (gset bytes) := if decide (p ∈ s) then None else if decide (getParent p ∈ s) then Some ({[p]} ∪ s) else None.
Definition dirs_wf (s : gset bytes) : Prop := forall d n, good_name n -> d <> [] -> last d <> Some slash -> below d n ∈ s -> d ∈ s.
Definition dirs_named (s : gset bytes) : Prop := forall d, d ∈ s -> d <> [] /\ last d <> Some slash.
Lemma dirs_mkdir_makes : mkdir_makes (fun s => dirs_wf s /\ dirs_named s) dirs_have dirs_have dirs_mkdir.
Proof.
  intros s d n [Hw Hnm] Hd%bool_decide_eq_true Hn Hno%bool_decide_eq_false. destruct (Hnm d Hd) as [Hne Hl]. destruct (below_name d n Hn) as [Hb Hbl].
  pose proof (getParent_below d n Hne Hl (proj1 (proj2 Hn))) as Hp. unfold dirs_mkdir, dirs_have. rewrite Hp. rewrite decide_False, decide_True by done.
  exists ({[below d n]} ∪ s). split; [done|]. split; [split|split].
  - intros d' n' Hn' Hd' Hl' [E%elem_of_singleton|H]%elem_of_union; [|apply elem_of_union; right; by apply (Hw d' n')].
    rewrite <- E, (getParent_below d' n' Hd' Hl' (proj1 (proj2 Hn'))) in Hp. subst. apply elem_of_union. by right.
  - intros x [->%elem_of_singleton|H]%elem_of_union; [done|by apply Hnm].
  - apply bool_decide_eq_true_2, elem_of_union. left. by apply elem_of_singleton.
  - intros n' Hn'. apply bool_decide_eq_false_2. intros [E%elem_of_singleton|H]%elem_of_union; [|by apply Hno, (Hw (below d n) n')].
    apply (f_equal length) in E. unfold below in E. rewrite !length_app in E. cbn in E. lia.
Qed.
Definition home_dirs : gset bytes := {[ lit "/home" ]}.
Lemma good_user : good_name (lit "user") /\ good_name (lit "data").
Proof. split; (split; [done|]); (split; [|done]); apply (bool_decide_unpack _); by vm_compute. Qed.
Lemma directories_created_witness : exists s', mkdirRecursive dirs_have dirs_have dirs_mkdir 3 (lit "/home/user/data") home_dirs = Ret s' /\ dirs_have s' (lit "/home/user/data") = true.
Proof.
  destruct good_user as [Hu Hd].
  apply (directories_created (fun s => dirs_wf s /\ dirs_named s) dirs_have dirs_have dirs_mkdir 3 home_dirs (lit "/home") [lit "user"; lit "data"]);
    [apply dirs_mkdir_makes|by intros s p Hs| |done|done|by constructor; [|constructor]|reflexivity| |cbn; lia].
  - split; [|by intros d ->%elem_of_singleton]. intros d n Hn Hne Hl E%elem_of_singleton. exfalso.
    pose proof (getParent_below d n Hne Hl (proj1 (proj2 Hn))) as Hp. rewrite E in Hp. by subst.
  - intros [|[|k]] Hk; [reflexivity|reflexivity|cbn in Hk; lia].
Defined.
Lemma file_read_back_witness : readFile 6 (fun _ => 2%Z) (Some (mkOpen false (Some (lit "hello")))) = Ret (Some (lit "hello")).
Proof. apply (file_read_back 6 (fun _ => 2%Z) (lit "hello")); [done|cbn; lia]. Defined.
End Paths.
