(* ===== verification/Options.v ===== *)
(** * Properties and command-line arguments (properties-parser, arg-parser)

    [property_list] and [property] (property_list.h, property.h), the files of
    settings; [arg_list], [arg_parser] and [arg] (arg_list.h, arg_parser.h, arg.h).  The
    objects that hold the values are numbered. *)

From S2P Require Import Prelude CxxString FloatText.
From Stdlib Require Import ZArith Ascii Lia SpecFloat.
From stdpp Require Import base gmap strings numbers list.

Open Scope Z_scope.

Module Options.
Import FloatText.FloatText.

(** ** Values *)
Inductive value := VString (s : bytes) | VInt (z : Z) | VFloat (f : spec_float) | VBool (b : bool).

(** [strcmp] and [strcasecmp] with a literal see a string up to its first NUL. *)
Fixpoint c_str (s : bytes) : bytes :=
  match s with
  | [] => []
  | c :: s => if decide (c = NUL) then [] else c :: c_str s
  end.
Definition parse_bool (s : bytes) : outcome exn bool :=
  let v := c_str s in
  let same w := bool_decide (map lower v = lit w) in
  if bool_decide (v = lit "1") || same "true"%string || same "on"%string || same "yes"%string then Ret true
  else if bool_decide (v = lit "0") || same "false"%string || same "off"%string || same "no"%string then Ret false
  else Throw (invalid_argument "Invalid boolean value").
(** [property<T>::parse_value], where [T] is the type of the value that is replaced. *)
Definition parse_value (old : value) (s : bytes) : outcome exn value :=
  match old with
  | VString _ => Ret (VString s)
  | VInt _ => z ← stoi s; Ret (VInt z)
  | VFloat _ => f ← stof s; Ret (VFloat f)
  | VBool _ => b ← parse_bool s; Ret (VBool b)
  end.
Definition serialize_value (v : value) : bytes :=
  match v with
  | VString s => s
  | VInt z => to_string z
  | VFloat f => float_to_string f
  | VBool b => if b then lit "true" else lit "false"
  end.

(** ** Lists of properties *)
Record property_list := mkList { prop : gmap bytes nat; values : gmap nat value; unknown_props : gmap bytes bytes }.

(** The constructor of a property, with its value; [insert] keeps an entry that is there. *)
Definition register_property (name : bytes) (p : nat) (def : value) (l : property_list) : property_list :=
  mkList (match prop l !! name with Some _ => prop l | None => <[name := p]> (prop l) end) (<[p := def]> (values l)) (unknown_props l).

Definition set_property (name val : bytes) (l : property_list) : outcome exn property_list :=
  match prop l !! name with
  | None => Ret (mkList (prop l) (values l) (<[name := val]> (unknown_props l)))
  | Some p =>
      match values l !! p with
      | None => Undef
      | Some old => v ← parse_value old val; Ret (mkList (prop l) (<[p := v]> (values l)) (unknown_props l))
      end
  end.

(** [std::getline]: the lines of a text; a last line needs no newline unless it is empty. *)
Definition newline : ascii := to_char 10.
Fixpoint getlines (s acc : bytes) : list bytes :=
  match s with
  | [] => match acc with [] => [] | _ => [acc] end
  | c :: s => if decide (c = newline) then acc :: getlines s [] else getlines s (acc ++ [c])
  end.
Definition load_line (line : bytes) (l : property_list) : outcome exn property_list :=
  if decide (head line = Some "#"%char) then Ret l
  else match find_str (lit "=") line with
       | None => Ret l
       | Some i => set_property (take i line) (drop (S i) line) l
       end.
(** An exception leaves what was read before it. *)
Fixpoint load_lines (lines : list bytes) (l : property_list) : outcome (property_list * exn) property_list :=
  match lines with
  | [] => Ret l
  | line :: lines =>
      match load_line line l with
      | Ret l => load_lines lines l
      | Throw e => Throw (l, e)
      | Undef => Undef
      | Diverge => Diverge
      end
  end.
Definition load (text : bytes) (l : property_list) : outcome (property_list * exn) property_list := load_lines (getlines text []) l.

(** The order in which the hash table lists its names is the library's. *)
Definition save_line (l : property_list) (name : bytes) : bytes :=
  match prop l !! name with
  | Some p => match values l !! p with Some v => name ++ lit "=" ++ serialize_value v ++ [newline] | None => [] end
  | None => []
  end.
Definition save (order : list bytes) (l : property_list) : bytes := concat (map (save_line l) order).

(** ** Arguments *)
Record arg_list := mkArgs { rest : list bytes }.
Definition peek (a : arg_list) : option bytes := head (rest a).
Definition next_or_null (a : arg_list) : arg_list * option bytes :=
  match rest a with [] => (a, None) | v :: r => (mkArgs r, Some v) end.
Definition next (a : arg_list) : outcome exn (arg_list * bytes) :=
  match next_or_null a with (a, Some v) => Ret (a, v) | (_, None) => Throw (out_of_range "Missing argument") end.
Definition next_value_or_null (a : arg_list) : outcome exn (arg_list * option bytes) :=
  match peek a with
  | None => Ret (a, None)
  | Some v => if decide (head v = Some "-"%char) then Ret (a, None) else '(a, v) ← next a; Ret (a, Some v)
  end.
Definition next_value (a : arg_list) : outcome exn (arg_list * bytes) :=
  '(a, v) ← next_value_or_null a;
  match v with Some v => Ret (a, v) | None => Throw (out_of_range "Missing argument") end.

(** [arg<T>::handle_value]. *)
Definition handle_value (old : value) (a : arg_list) : outcome exn (arg_list * value) :=
  match old with
  | VString _ => '(a, v) ← next a; Ret (a, VString v)
  | VInt _ => '(a, v) ← next a; z ← stoi v; Ret (a, VInt z)
  | VFloat _ => '(a, v) ← next a; f ← stof v; Ret (a, VFloat f)
  | VBool _ =>
      '(a, v) ← next_value_or_null a;
      match v with
      | None => Ret (a, VBool true)
      | Some v => b ← parse_bool v; Ret (a, VBool b)
      end
  end.

Record help_entry := mkHelp { h_name : bytes; h_shortname : bytes; h_desc : bytes }.
Record arg_parser := mkParser { handlers : gmap bytes nat; help_entries : list help_entry; arg_values : gmap nat value }.
Definition new_parser : arg_parser := mkParser ∅ [mkHelp (lit "--help") (lit "-h") (lit "Show this help information")] ∅.
(** The constructor of an argument, with its value. *)
Definition add_arg (name shortname desc : bytes) (p : nat) (def : value) (a : arg_parser) : arg_parser :=
  mkParser (<[name := p]> (<[shortname := p]> (handlers a))) (help_entries a ++ [mkHelp name shortname desc]) (<[p := def]> (arg_values a)).

(** [printf] with a width pads on the right. *)
Definition pad (n : nat) (s : bytes) : bytes := s ++ repeat " "%char (n - length s).
Definition print_help (a : arg_parser) : bytes :=
  lit "Program Help" ++ [newline] ++
  concat (map (fun e => pad 2 (h_shortname e) ++ lit " " ++ pad 15 (h_name e) ++ lit " " ++ h_desc e ++ [newline]) (help_entries a)).

(** What [parse] prints; it returns true only when it prints nothing and had a first word. *)
Inductive report := Done | NoWords | Help (text : bytes) | Unknown (key : bytes) | Invalid (key : bytes) (e : exn).
Definition set_values (x : gmap nat value) (a : arg_parser) : arg_parser := mkParser (handlers a) (help_entries a) x.
Fixpoint parse_keys (fuel : nat) (l : arg_list) (a : arg_parser) : outcome exn (arg_parser * report) :=
  match fuel with
  | O => Diverge
  | S fuel =>
      match next_or_null l with
      | (_, None) => Ret (a, Done)
      | (l, Some key) =>
          match handlers a !! key with
          | None => Ret (a, if decide (key = lit "-h" \/ key = lit "--help") then Help (print_help a) else Unknown key)
          | Some p =>
              match arg_values a !! p with
              | None => Undef
              | Some old =>
                  match handle_value old l with
                  | Ret (l, v) => parse_keys fuel l (set_values (<[p := v]> (arg_values a)) a)
                  | Throw e => Ret (a, Invalid key e)
                  | Undef => Undef
                  | Diverge => Diverge
                  end
              end
          end
      end
  end.
Definition parse (argv : list bytes) (a : arg_parser) : outcome exn (arg_parser * report) :=
  match next_or_null (mkArgs argv) with
  | (_, None) => Ret (a, NoWords)
  | (l, Some _) => parse_keys (S (length (rest l))) l a
  end.

(** ** Values are read back *)
Definition same_kind (v w : value) : Prop :=
  match v, w with VString _, VString _ | VInt _, VInt _ | VFloat _, VFloat _ | VBool _, VBool _ => True | _, _ => False end.
(** An [int] has 32 bits; a [float] is one that its six decimals tell. *)
Definition value_ok (v : value) : Prop := match v with VInt z => - 2 ^ 31 <= z < 2 ^ 31 | VFloat f => survives f | _ => True end.

Lemma strtoz_to_string_neg (p : positive) : strtoz (to_string (Zneg p)) = Some (Zneg p).
Proof.
  pose proof (strtoz_to_string (Zpos p) [] ltac:(lia)) as H. rewrite app_nil_r in H. specialize (H I).
  destruct (to_string_digits (Zpos p) ltac:(lia)) as [Hne Hd]. change (to_string (Zneg p)) with ("-"%char :: to_string (Zpos p)).
  destruct (to_string (Zpos p)) as [|c t] eqn:E; [done|]. apply Forall_inv in Hd. destruct (digit_not_space c Hd) as (Hs & Hm & Hpl).
  unfold strtoz in H. cbn [skip_space] in H. rewrite Hs in H. rewrite !decide_False in H by done.
  change (Z.opp <$> digits (c :: t) 0 false = Some (Zneg p)). by rewrite H.
Qed.
Lemma stoi_to_string z : - 2 ^ 31 <= z < 2 ^ 31 -> stoi (to_string z) = Ret z.
Proof.
  intros Hz. unfold stoi. assert (H : strtoz (to_string z) = Some z).
  { destruct z as [|p|p]; [done| |apply strtoz_to_string_neg]. rewrite <- (app_nil_r (to_string _)). by apply strtoz_to_string. }
  rewrite H. by rewrite decide_True.
Qed.
Lemma parse_serialize old v : same_kind old v -> value_ok v -> parse_value old (serialize_value v) = Ret v.
Proof.
  destruct old, v; try done; intros _ Hv; cbn [parse_value serialize_value]; [by rewrite stoi_to_string|by rewrite stof_to_string|]. by destruct b0.
Qed.

(** ** Files of properties *)
Definition name_ok (n : bytes) : Prop := "="%char ∉ n /\ newline ∉ n /\ head n <> Some "#"%char.
Definition one_line (v : value) : Prop := match v with VString s => newline ∉ s | _ => True end.
Lemma serialize_line v : one_line v -> newline ∉ serialize_value v.
Proof.
  destruct v as [s|z|f|[]]; cbn [serialize_value one_line]; [done| |intros _; apply float_one_line|by intros _; apply (bool_decide_unpack _); vm_compute..]. intros _ Hn.
  destruct z as [|p|p].
  - revert Hn. apply (bool_decide_unpack _). by vm_compute.
  - destruct (to_string_digits (Zpos p) ltac:(lia)) as [_ Hd]. by destruct (proj1 (Forall_forall _ _) Hd _ Hn).
  - change (to_string (Zneg p)) with ("-"%char :: to_string (Zpos p)) in Hn. apply elem_of_cons in Hn as [Hn|Hn]; [done|].
    destruct (to_string_digits (Zpos p) ltac:(lia)) as [_ Hd]. by destruct (proj1 (Forall_forall _ _) Hd _ Hn).
Qed.
Lemma getlines_line p r acc : newline ∉ p -> getlines (p ++ newline :: r) acc = (acc ++ p) :: getlines r [].
Proof.
  revert acc. induction p as [|c p IH]; intros acc Hp; cbn [app getlines].
  - rewrite decide_True by done. by rewrite app_nil_r.
  - apply not_elem_of_cons in Hp as [Hc Hp]. rewrite decide_False by done. rewrite IH by done. by rewrite <- app_assoc.
Qed.
Lemma drop_after {A} (n : list A) c s : drop (S (length n)) (n ++ c :: s) = s.
Proof. induction n as [|x n IH]; [done|exact IH]. Qed.
Lemma load_line_set n s l : name_ok n -> load_line (n ++ "="%char :: s) l = set_property n s l.
Proof.
  intros (He & _ & Hh). unfold load_line. rewrite decide_False by (destruct n; [done|exact Hh]).
  change (lit "=") with ["="%char]. rewrite find_str_skip by done. rewrite take_app_length.
  by rewrite (drop_after n).
Qed.

(** The names of [order] in turn; the lists agree on what is registered. *)
Record saved (l l1 : property_list) : Prop := {
  sv_prop : prop l1 = prop l;
  sv_own : forall n n' p, prop l !! n = Some p -> prop l !! n' = Some p -> n = n';
  sv_value : forall n p, prop l !! n = Some p -> name_ok n /\ exists v old, values l !! p = Some v /\ values l1 !! p = Some old /\ same_kind old v /\ value_ok v /\ one_line v
}.
Lemma load_saved l order : forall l1, saved l l1 -> (forall n, n ∈ order -> is_Some (prop l !! n)) -> NoDup order ->
  exists l', load_lines (getlines (save order l) []) l1 = Ret l' /\ prop l' = prop l /\ unknown_props l' = unknown_props l1 /\
    (forall n p, n ∈ order -> prop l !! n = Some p -> values l' !! p = values l !! p) /\
    (forall p, (forall n, n ∈ order -> prop l !! n <> Some p) -> values l' !! p = values l1 !! p).
Proof.
  induction order as [|n order IH]; intros l1 Hs Ho Hnd.
  { exists l1. split; [done|]. split; [apply Hs|]. split; [done|]. split; [by intros ? ? ?%elem_of_nil|done]. }
  apply NoDup_cons in Hnd as [Hn Hnd]. destruct (Ho n ltac:(by left)) as [p Hp]. destruct (sv_value _ _ Hs n p Hp) as (Hok & v & old & Hv & Hold & Hk & Hvok & Hline).
  cbn [save concat map]. unfold save_line. rewrite Hp, Hv. fold (save_line l).
  replace ((n ++ lit "=" ++ serialize_value v ++ [newline]) ++ concat (map (save_line l) order)) with ((n ++ "="%char :: serialize_value v) ++ newline :: save order l)
    by (unfold save; rewrite <- !app_assoc; cbn; by rewrite <- ?app_assoc).
  rewrite getlines_line by (apply not_elem_of_app; split; [apply Hok|apply not_elem_of_cons; split; [done|by apply serialize_line]]).
  cbn [app load_lines]. rewrite load_line_set by done. unfold set_property. rewrite (sv_prop _ _ Hs), Hp, Hold, parse_serialize by done. cbn [mbind outcome_bind].
  set (l2 := mkList _ _ _). destruct (IH l2) as (l' & -> & Hpr & Hun & Hin & Hout); [|by intros m Hm; apply Ho; right|done|].
  { split; [done|apply Hs|]. intros m q Hq. destruct (sv_value _ _ Hs m q Hq) as (Hmok & w & o & Hw & Hwo & Hr). split; [done|].
    cbn [l2 values]. destruct (decide (p = q)) as [<-|Hpq]; [rewrite lookup_insert_eq|rewrite lookup_insert_ne by done; by exists w, o].
    exists v, v. rewrite Hv in Hw. injection Hw as <-. split; [done|]. split; [done|]. split; [by destruct v|apply Hr]. }
  exists l'. split; [done|]. split; [done|]. split; [done|]. split.
  - intros m q [->|Hm]%elem_of_cons Hq; [|by apply (Hin m)]. rewrite Hp in Hq. injection Hq as <-. rewrite Hout; [cbn; by rewrite lookup_insert_eq|].
    intros m Hm Hmp. by rewrite (sv_own _ _ Hs n m p Hp Hmp) in Hn.
  - intros q Hq. rewrite Hout by (intros m Hm; apply Hq; by right). cbn. rewrite lookup_insert_ne; [done|]. intros <-. by apply (Hq n ltac:(by left)).
Qed.

(** C39. Loading a file that was saved gives every registered property the value it had, whatever the values are before
    and in whatever order the properties are written; nothing else changes.  This needs names without an equals sign,
    a newline and a leading hash, strings without a newline, and of the [float]s those that six decimals tell from
    their neighbours: the ones from 16 on and the ones that six decimals write exactly
    ([FloatText.six_decimals_lose] is what happens to others). *)
Theorem properties_reloaded (l l1 : property_list) (order : list bytes) (Hs : saved l l1) (Hnd : NoDup order)
    (Ho : forall n, n ∈ order <-> is_Some (prop l !! n)) :
  exists l', load (save order l) l1 = Ret l' /\ prop l' = prop l /\ unknown_props l' = unknown_props l1 /\
    forall n p, prop l !! n = Some p -> values l' !! p = values l !! p.
Proof.
  destruct (load_saved l order l1 Hs (fun n => proj1 (Ho n)) Hnd) as (l' & Hl & Hp & Hu & Hin & _). exists l'. split; [done|]. split; [done|]. split; [done|].
  intros n p Hn. apply (Hin n); [by apply Ho|done].
Qed.

(** ** Command lines *)

(** A word with its value, or a flag alone. *)
Inductive setting := Assign (key : bytes) (v : value) | Flag (key : bytes).
Definition key_of (t : setting) : bytes := match t with Assign k _ | Flag k => k end.
Definition value_of (t : setting) : value := match t with Assign _ v => v | Flag _ => VBool true end.
Definition words (t : setting) : list bytes := match t with Assign k v => [k; serialize_value v] | Flag k => [k] end.
Definition setting_ok (a : arg_parser) (t : setting) : Prop :=
  head (key_of t) = Some "-"%char /\ value_ok (value_of t) /\
  exists p old, handlers a !! key_of t = Some p /\ arg_values a !! p = Some old /\ same_kind old (value_of t).
Definition assign (a : arg_parser) (x : gmap nat value) (t : setting) : gmap nat value :=
  match handlers a !! key_of t with Some p => <[p := value_of t]> x | None => x end.

Lemma handle_setting t old (r : list bytes) : same_kind old (value_of t) -> value_ok (value_of t) ->
  (match r with w :: _ => head w = Some "-"%char | [] => True end) -> handle_value old (mkArgs (tail (words t) ++ r)) = Ret (mkArgs r, value_of t).
Proof.
  intros Hk Hv Hr. destruct t as [k v|k]; cbn [words tail app value_of] in *.
  - destruct old, v; try done; cbn [serialize_value].
    + change (handle_value (VInt z) (mkArgs (to_string z0 :: r))) with (z ← stoi (to_string z0); Ret (E := exn) (mkArgs r, VInt z)). by rewrite stoi_to_string.
    + change (handle_value (VFloat f) (mkArgs (float_to_string f0 :: r))) with (f ← stof (float_to_string f0); Ret (E := exn) (mkArgs r, VFloat f)). by rewrite stof_to_string.
    + by destruct b0.
  - destruct old; try done. destruct r as [|w r]; [done|]. unfold handle_value, next_value_or_null. cbn [peek rest head]. by rewrite decide_True.
Qed.

Lemma parse_settings (ts : list setting) : forall fuel a, (length ts < fuel)%nat -> Forall (setting_ok a) ts ->
  parse_keys fuel (mkArgs (concat (map words ts))) a = Ret (set_values (foldl (assign a) (arg_values a) ts) a, Done).
Proof.
  induction ts as [|t ts IH]; intros [|fuel] a Hf Hok; [cbn in Hf; lia| |cbn in Hf; lia|]; [by destruct a|].
  pose proof Hok as Hok0. apply Forall_cons in Hok as [(Hkey & Hv & p & old & Hp & Hold & Hk) Hok].
  assert (E : concat (map words (t :: ts)) = key_of t :: tail (words t) ++ concat (map words ts)) by (by destruct t).
  cbn [parse_keys]. rewrite E. cbn [next_or_null rest]. rewrite Hp, Hold.
  rewrite handle_setting; [|done|done|destruct ts as [|u ts]; [done|]; apply Forall_inv in Hok as [Hu _]; by destruct u].
  set (a1 := set_values _ a). cbn in Hf. rewrite (IH fuel a1); [|lia|].
  - cbn [foldl]. by replace (assign a (arg_values a) t) with (<[p := value_of t]> (arg_values a)) by (unfold assign; by rewrite Hp).
  - apply (Forall_impl _ _ _ Hok). intros u (Hu & Hvu & q & o & Hq & Ho & Hko). split; [done|]. split; [done|]. exists q. cbn.
    destruct (decide (p = q)) as [<-|Hpq]; [rewrite lookup_insert_eq|rewrite lookup_insert_ne by done; by exists o].
    exists (value_of t). split; [done|]. split; [done|]. rewrite Ho in Hold. injection Hold as ->. destruct old, (value_of t), (value_of u); done.
Qed.

Lemma words_length ts : (length ts <= length (concat (map words ts)))%nat.
Proof. induction ts as [|t ts IH]; [done|]. cbn [map concat length]. rewrite length_app. destruct t; cbn; lia. Qed.

(** A command line that gives values to known arguments, by either name and with flags in
    between, is accepted, and every argument has the last value it was given. *)
Theorem command_line_parsed (a : arg_parser) (program : bytes) (ts : list setting) (Hok : Forall (setting_ok a) ts) :
  parse (program :: concat (map words ts)) a = Ret (set_values (foldl (assign a) (arg_values a) ts) a, Done).
Proof.
  unfold parse. cbn [next_or_null rest]. apply parse_settings; [|done]. apply le_n_S, words_length.
Qed.

Lemma handle_value_defined old l : match handle_value old l with Ret (l', _) => (length (rest l') <= length (rest l))%nat | Throw _ => True | _ => False end.
Proof.
  destruct l as [[|w r]], old; cbn; try done; try lia.
  - destruct (stoi w) eqn:E; cbn; try lia; unfold stoi in E; destruct (strtoz w); try done; by case_decide.
  - pose proof (stof_defined w). destruct (stof w); cbn; try done. lia.
  - unfold next_value_or_null. cbn. case_decide; cbn; [lia|]. unfold parse_bool. cbv zeta. destruct (_ || _); cbn; [lia|]. destruct (_ || _); cbn; [lia|done].
Qed.
(** Every command line is processed to an end when the registered arguments have values. *)
Theorem parse_ends (a : arg_parser) (argv : list bytes) (Ha : forall k p, handlers a !! k = Some p -> is_Some (arg_values a !! p)) :
  exists r, parse argv a = Ret r.
Proof.
  assert (H : forall fuel l a, (length (rest l) < fuel)%nat -> (forall k p, handlers a !! k = Some p -> is_Some (arg_values a !! p)) -> exists r, parse_keys fuel l a = Ret r).
  { clear. induction fuel as [|fuel IH]; intros l a Hl Ha; [lia|]. cbn [parse_keys]. destruct l as [[|key r]]; cbn [next_or_null rest] in *; [by eexists|].
    destruct (handlers a !! key) as [p|] eqn:Hp; [|by eexists]. destruct (Ha key p Hp) as [old Hold]. rewrite Hold.
    pose proof (handle_value_defined old (mkArgs r)) as Hd. destruct (handle_value old (mkArgs r)) as [[l v]| | |]; [|by eexists|done|done].
    cbn in Hd, Hl. apply IH; [lia|]. intros k q Hq. cbn. destruct (decide (p = q)) as [<-|]; [rewrite lookup_insert_eq; by eexists|].
    rewrite lookup_insert_ne by done. by apply (Ha k). }
  unfold parse. destruct argv as [|w r]; cbn [next_or_null rest]; [by eexists|]. apply H; [cbn; lia|done].
Qed.

(** ** Witnesses *)
Definition one_and_a_half : spec_float := S754_finite false 12582912 (-23).
Definition settings (name : bytes) (size : Z) (scale : spec_float) (full : bool) : property_list :=
  register_property (lit "fullscreen") 2 (VBool full) (register_property (lit "scale") 3 (VFloat scale) (register_property (lit "size") 1 (VInt size)
    (register_property (lit "name") 0 (VString name) (mkList ∅ ∅ ∅)))).
Lemma settings_prop name size scale full n p : prop (settings name size scale full) !! n = Some p <->
  (n = lit "name" /\ p = 0%nat) \/ (n = lit "size" /\ p = 1%nat) \/ (n = lit "scale" /\ p = 3%nat) \/ (n = lit "fullscreen" /\ p = 2%nat).
Proof.
  change (prop (settings name size scale full)) with (<[lit "fullscreen" := 2%nat]> (<[lit "scale" := 3%nat]> (<[lit "size" := 1%nat]> (<[lit "name" := 0%nat]> (∅ : gmap bytes nat))))).
  rewrite !lookup_insert_Some, lookup_empty. split; [naive_solver|].
  intros [[-> ->]|[[-> ->]|[[-> ->]|[-> ->]]]]; repeat first [left; split; reflexivity|right; split; [discriminate|]].
Qed.
Lemma one_and_a_half_survives : survives one_and_a_half.
Proof. cbn. split; [lia|]. split; [lia|]. right. exists (3 * 500000). reflexivity. Qed.
Lemma properties_reloaded_witness : exists l', load (save [lit "size"; lit "name"; lit "fullscreen"; lit "scale"] (settings (lit "a=b") (-5) one_and_a_half true)) (settings [] 0 (S754_zero false) false) = Ret l' /\
  values l' !! 0%nat = Some (VString (lit "a=b")) /\ values l' !! 1%nat = Some (VInt (-5)) /\ values l' !! 2%nat = Some (VBool true) /\ values l' !! 3%nat = Some (VFloat one_and_a_half).
Proof.
  destruct (properties_reloaded (settings (lit "a=b") (-5) one_and_a_half true) (settings [] 0 (S754_zero false) false) [lit "size"; lit "name"; lit "fullscreen"; lit "scale"]) as (l' & Hl & _ & _ & Hv).
  - split; [reflexivity| |].
    + intros n n' p. rewrite !settings_prop. naive_solver.
    + intros n p. rewrite settings_prop. intros [[-> ->]|[[-> ->]|[[-> ->]|[-> ->]]]]; (split; [split_and!; [apply (bool_decide_unpack _); by vm_compute..|done]|]);
        (eexists _, _; split; [reflexivity|]; split; [reflexivity|]; split; [done|]; split; [first [exact one_and_a_half_survives|cbn; lia|done]|]); cbn; try done; apply (bool_decide_unpack _); by vm_compute.
  - apply (bool_decide_unpack _). by vm_compute.
  - intros n. rewrite !elem_of_cons, elem_of_nil. split.
    + intros [->|[->|[->|[->|[]]]]]; by eexists.
    + intros [p Hp]. apply settings_prop in Hp. naive_solver.
  - exists l'. split; [done|]. split_and!; eapply eq_trans; [apply (Hv (lit "name")); reflexivity|reflexivity|apply (Hv (lit "size")); reflexivity|reflexivity|
      apply (Hv (lit "fullscreen")); reflexivity|reflexivity|apply (Hv (lit "scale")); reflexivity|reflexivity].
Defined.
Definition two_args : arg_parser := add_arg (lit "--width") (lit "-w") (lit "Width") 1 (VInt 720) (add_arg (lit "--quiet") (lit "-q") (lit "Quiet") 0 (VBool false) new_parser).
Lemma command_line_parsed_witness : exists a, parse [lit "prog"; lit "-w"; lit "-3"; lit "--quiet"; lit "--width"; lit "800"] two_args = Ret (a, Done) /\
  arg_values a !! 0%nat = Some (VBool true) /\ arg_values a !! 1%nat = Some (VInt 800).
Proof.
  eexists. split; [apply (command_line_parsed two_args (lit "prog") [Assign (lit "-w") (VInt (-3)); Flag (lit "--quiet"); Assign (lit "--width") (VInt 800)])|by split].
  constructor; [|constructor; [|constructor; [|constructor]]]; (split; [reflexivity|]); (split; [cbn; try lia; done|]);
    [exists 1%nat, (VInt 720)|exists 0%nat, (VBool false)|exists 1%nat, (VInt 720)]; by split.
Defined.
End Options.
