(* ===== verification/Launcher.v ===== *)
(** * The start of the client (mcpelauncher-client/src/main.cpp)

    The command line of the client, up to the choice of its directories, on top of the
    argument parser and the path helper; and the directory from which mods are loaded. *)

From S2P Require Import Prelude CxxString Paths Options.
From Stdlib Require Import ZArith Ascii Lia.
From stdpp Require Import base gmap strings numbers list.

Open Scope Z_scope.

Module Launcher.
Import Paths.Paths Options.Options.

(** The arguments, numbered in the order in which [main] declares them. *)
Definition main_parser (mustUseDesktopGL : bool) : arg_parser :=
  let p := new_parser in
  let p := add_arg (lit "--version") (lit "-v") (lit "Prints version info") 0 (VBool false) p in
  let p := add_arg (lit "--game-dir") (lit "-dg") (lit "Directory with the game and assets") 1 (VString []) p in
  let p := add_arg (lit "--data-dir") (lit "-dd") (lit "Directory to use for the data") 2 (VString []) p in
  let p := add_arg (lit "--cache-dir") (lit "-dc") (lit "Directory to use for cache") 3 (VString []) p in
  let p := add_arg (lit "--width") (lit "-ww") (lit "Window width") 4 (VInt 720) p in
  let p := add_arg (lit "--height") (lit "-wh") (lit "Window height") 5 (VInt 480) p in
  let p := add_arg (lit "--disable-fmod") (lit "-df") (lit "Disables usage of the FMod audio library") 6 (VBool false) p in
  let p := add_arg (lit "--force-opengles") (lit "-fes") (lit "Force creating an OpenGL ES surface instead of using the glcorepatch hack") 7 (VBool (negb mustUseDesktopGL)) p in
  let p := add_arg (lit "--force-google-play-store-unverified") (lit "-fguv") (lit "Force telling the game that the license isn't verified, Google Play Store version") 8 (VBool false) p in
  add_arg (lit "--force-amazon-app-store-unverified") (lit "-fauv") (lit "Force telling the game that the license isn't verified, Amazon App Store version") 9 (VBool false) p.

Inductive GraphicsApi := OPENGL | OPENGL_ES2.
Record LauncherOptions := mkOptions { windowWidth : Z; windowHeight : Z; graphicsApi : GraphicsApi }.
Inductive started :=
| Exit (code : Z) (r : report)
| PrintVersion
| Started (options : LauncherOptions) (disableFmod googleVerified amazonVerified : bool) (i : PathInfo).

Definition get_bool (p : nat) (x : gmap nat value) : bool := match x !! p with Some (VBool b) => b | _ => false end.
Definition get_string (p : nat) (x : gmap nat value) : bytes := match x !! p with Some (VString s) => s | _ => [] end.
Definition get_int (p : nat) (x : gmap nat value) : Z := match x !! p with Some (VInt z) => z | _ => 0 end.

(** What [main] does with the values, once they are parsed. *)
Definition set_if (f : bytes -> PathInfo -> PathInfo) (d : bytes) (i : PathInfo) : PathInfo := match d with [] => i | _ => f d i end.
Definition configure (x : gmap nat value) (i : PathInfo) : started :=
  if get_bool 0 x then PrintVersion
  else
    let options := mkOptions (get_int 4 x) (get_int 5 x) (if get_bool 7 x then OPENGL_ES2 else OPENGL) in
    let i := set_if setGameDir (get_string 1 x) i in
    let i := set_if setDataDir (get_string 2 x) i in
    let i := set_if setCacheDir (get_string 3 x) i in
    Started options (get_bool 6 x) (negb (get_bool 8 x)) (negb (get_bool 9 x)) i.
Definition main_start (mustUseDesktopGL : bool) (argv : list bytes) (i : PathInfo) : outcome exn started :=
  '(p, r) ← parse argv (main_parser mustUseDesktopGL);
  match r with
  | Done => Ret (configure (arg_values p) i)
  | _ => Ret (Exit 1 r)
  end.
Definition mods_directory (i : PathInfo) : bytes := getPrimaryDataDirectory i ++ lit "mods/".

(** The handlers of the arguments have values. *)
Lemma main_parser_ok gl k p : handlers (main_parser gl) !! k = Some p -> is_Some (arg_values (main_parser gl) !! p).
Proof.
  unfold main_parser. cbn [handlers add_arg new_parser arg_values]. rewrite !lookup_insert_Some, lookup_empty. intros H.
  repeat (destruct H as [[_ <-]|[_ H]]; [by rewrite ?lookup_insert_ne, lookup_insert_eq by done; eexists|]). done.
Qed.
Lemma assign_other a x t q : handlers a !! key_of t <> Some q -> assign a x t !! q = x !! q.
Proof. intros H. unfold assign. destruct (handlers a !! key_of t) as [p|]; [|done]. rewrite lookup_insert_ne; [done|congruence]. Qed.
Lemma foldl_other a ts : forall x q, (forall t, t ∈ ts -> handlers a !! key_of t <> Some q) -> foldl (assign a) x ts !! q = x !! q.
Proof.
  induction ts as [|t ts IH]; intros x q H; [done|]. cbn [foldl]. rewrite IH by (intros u Hu; apply H; by right). apply assign_other, H. by left.
Qed.

(** The client starts or ends for every command line. *)
Theorem main_start_defined (gl : bool) (argv : list bytes) (i : PathInfo) : exists r, main_start gl argv i = Ret r.
Proof.
  unfold main_start. destruct (parse_ends (main_parser gl) argv (main_parser_ok gl)) as [[p r] ->]. destruct r; by eexists.
Qed.

(** The words of the arguments for the version and for the data directory. *)
Lemma main_words gl k : (handlers (main_parser gl) !! k = Some 0%nat -> k = lit "--version" \/ k = lit "-v") /\
  (handlers (main_parser gl) !! k = Some 2%nat -> k = lit "--data-dir" \/ k = lit "-dd").
Proof.
  unfold main_parser. cbn [handlers add_arg new_parser]. rewrite !lookup_insert_Some, lookup_empty. split; intros H;
    repeat (destruct H as [[<- E]|[_ H]]; [try done; auto|]); done.
Qed.
Lemma data_word_ok gl key d : key = lit "--data-dir" \/ key = lit "-dd" -> handlers (main_parser gl) !! key = Some 2%nat /\ setting_ok (main_parser gl) (Assign key (VString d)).
Proof.
  intros Hk. assert (H : handlers (main_parser gl) !! key = Some 2%nat) by (destruct Hk as [-> | ->]; reflexivity).
  split; [done|]. split; [by destruct Hk as [-> | ->]|]. split; [done|]. exists 2%nat, (VString []). by split.
Qed.

(** A command line that names a data directory, by either name and with any other
    arguments around it, makes the client use that directory, with a slash at its end: the
    data and the mods are taken from it. *)
Theorem data_dir_used (gl : bool) (program key d : bytes) (before after : list setting) (i : PathInfo)
    (Hb : Forall (setting_ok (main_parser gl)) before) (Ha : Forall (setting_ok (main_parser gl)) after)
    (Hk : key = lit "--data-dir" \/ key = lit "-dd") (Hd : d <> [])
    (Hlast : forall t, t ∈ after -> key_of t <> lit "--data-dir" /\ key_of t <> lit "-dd")
    (Hver : forall t, t ∈ before ++ after -> key_of t <> lit "--version" /\ key_of t <> lit "-v") :
  exists o f g a i', main_start gl (program :: concat (map words (before ++ Assign key (VString d) :: after))) i = Ret (Started o f g a i') /\
    getPrimaryDataDirectory i' = with_slash d /\ mods_directory i' = with_slash d ++ lit "mods/".
Proof.
  set (ts := before ++ Assign key (VString d) :: after). destruct (data_word_ok gl key d Hk) as [Hkey Hset]. set (a := main_parser gl) in *.
  assert (Hok : Forall (setting_ok a) ts) by (apply Forall_app; split; [done|by constructor]).
  unfold main_start. fold a. unfold parse. cbn [next_or_null rest]. rewrite parse_settings by (done || apply le_n_S, words_length).
  cbn [mbind outcome_bind arg_values set_values]. set (x := foldl (assign a) (arg_values a) ts).
  assert (H2 : get_string 2 x = d).
  { unfold get_string, x, ts. rewrite foldl_app. cbn [foldl]. rewrite foldl_other.
    - unfold assign at 1. cbn [key_of value_of]. by rewrite Hkey, lookup_insert_eq.
    - intros t Ht E. apply main_words in E. destruct (Hlast t Ht). by destruct E. }
  assert (H0 : get_bool 0 x = false).
  { unfold get_bool, x. rewrite foldl_other; [done|]. intros t Ht E. unfold ts in Ht. apply elem_of_app in Ht as [Ht|[->|Ht]%elem_of_cons].
    - apply main_words in E. destruct (Hver t ltac:(apply elem_of_app; by left)). by destruct E.
    - cbn [key_of] in E. congruence.
    - apply main_words in E. destruct (Hver t ltac:(apply elem_of_app; by right)). by destruct E. }
  unfold configure. rewrite H0, H2. do 5 eexists. split; [done|]. unfold mods_directory. set (i1 := set_if setGameDir _ i).
  assert (E : forall c, getPrimaryDataDirectory (set_if setCacheDir c (set_if setDataDir d i1)) = with_slash d).
  { intros c. pose proof (with_slash_ends d Hd) as Hs. destruct d as [|y d']; [done|]. unfold getPrimaryDataDirectory. destruct c; cbn [set_if overrideDataDir setDataDir setCacheDir];
      by destruct (with_slash (y :: d')). }
  by rewrite E.
Qed.
Lemma data_dir_used_witness : exists o f g a i', main_start true [lit "mcpelauncher-client"; lit "-df"; lit "-dd"; lit "/srv/mc"; lit "--width"; lit "800"] (mkPathInfo [] [] [] [] [] [] [] []) =
  Ret (Started o f g a i') /\ getPrimaryDataDirectory i' = with_slash (lit "/srv/mc") /\ mods_directory i' = with_slash (lit "/srv/mc") ++ lit "mods/".
Proof.
  apply (data_dir_used true (lit "mcpelauncher-client") (lit "-dd") (lit "/srv/mc") [Flag (lit "-df")] [Assign (lit "--width") (VInt 800)]); [| |by right|done| |].
  - constructor; [|constructor]. split; [reflexivity|]. split; [done|]. by exists 6%nat, (VBool false).
  - constructor; [|constructor]. split; [reflexivity|]. split; [cbn; lia|]. by exists 4%nat, (VInt 720).
  - by intros t ->%list_elem_of_singleton.
  - by intros t [->|[->|?%elem_of_nil]%elem_of_cons]%elem_of_cons.
Defined.
End Launcher.
