(* ===== verification/Network.v ===== *)
(** * Sockets between the game and the host (libc-shim)

    The game uses the constants and structures of Android's C library, bionic.  [errno.cpp]
    translates the error numbers, [network.cpp] (network.h) the constants of sockets, the
    addresses, the lists of [getaddrinfo] and the calls.  The constants of the host are a
    parameter ([host]); the calls of the host are functions of the model's caller.  The
    branches for macOS, other than its constants, are left out. *)

From S2P Require Import Prelude.
From Stdlib Require Import ZArith Ascii Lia.
From stdpp Require Import base strings numbers list.

Open Scope Z_scope.

Module Network.

(** ** Error numbers *)

(** The numbers of bionic, which both switches list; some only on Linux.  [H n] is the host's
    constant for the error that bionic numbers [n]. *)
Definition errnos (linux : bool) : list Z :=
  seqZ 1 40 ++ [42; 43] ++ (if linux then seqZ 44 14 ++ [59] else []) ++ [60; 61; 62; 63] ++ (if linux then [64; 65] else []) ++ [66; 67] ++
  (if linux then [68; 69; 70] else []) ++ [71; 72] ++ (if linux then [73] else []) ++ [74; 75] ++ (if linux then seqZ 76 8 else []) ++ [84] ++
  (if linux then [85; 86] else []) ++ seqZ 87 30 ++ (if linux then seqZ 117 5 else []) ++ [122] ++ (if linux then [123; 124] else []) ++ [125] ++
  (if linux then seqZ 126 4 else []) ++ [130; 131].
Definition translate_errno_from_host (linux : bool) (H : Z -> Z) (err : Z) : Z :=
  match list_find (fun n => H n = err) (errnos linux) with Some (_, n) => n | None => err end.
Definition translate_errno_to_host (linux : bool) (H : Z -> Z) (err : Z) : Z := if decide (err ∈ errnos linux) then H err else err.

(** The variables of the host and, where errors are translated, of the game. *)
Record errno_state := mkErrno { errno : Z; errno_value : Z }.
Definition update_errno (linux : bool) (H : Z -> Z) (s : errno_state) : errno_state := mkErrno (errno s) (translate_errno_from_host linux H (errno s)).
Definition set_errno (linux : bool) (H : Z -> Z) (err : Z) (s : errno_state) : errno_state := mkErrno (translate_errno_to_host linux H err) err.
Definition get_errno (s : errno_state) : Z := errno_value s.

(** ** Constants of the host *)
Record host := mkHost {
  AI_PASSIVE : Z; AI_CANONNAME : Z; AI_NUMERICHOST : Z;
  AF_UNSPEC : Z; AF_INET : Z; AF_INET6 : Z;
  SOCK_STREAM : Z; SOCK_DGRAM : Z; SOCK_RAW : Z;
  IPPROTO_IP : Z; IPPROTO_TCP : Z; IPPROTO_UDP : Z; IPPROTO_IPV6 : Z;
  NI_NOFQDN : Z; NI_NUMERICHOST : Z; NI_NAMEREQD : Z; NI_NUMERICSERV : Z; NI_DGRAM : Z;
  SOL_SOCKET : Z; MSG_NOSIGNAL : Z;
  SO_ : Z -> Z; IP_ : Z -> Z; IPV6_ : Z -> Z;
  SHUT_ : Z -> Z;
  sizeof_sockaddr_in : Z; sizeof_sockaddr_in6 : Z }.

Section Shim.
Context (h : host).

Definition flag (flags bit val : Z) : Z := if decide (Z.land flags bit <> 0) then val else 0.
Definition from_host_ai_flags (flags : Z) : Z :=
  Z.lor (Z.lor (flag flags (AI_PASSIVE h) 1) (flag flags (AI_CANONNAME h) 2)) (flag flags (AI_NUMERICHOST h) 4).
Definition to_host_ai_flags (flags : Z) : Z :=
  Z.lor (Z.lor (flag flags 1 (AI_PASSIVE h)) (flag flags 2 (AI_CANONNAME h))) (flag flags 4 (AI_NUMERICHOST h)).

(** A [switch] over constants. *)
Fixpoint switch (cases : list (Z * Z)) (what : string) (x : Z) : outcome exn Z :=
  match cases with
  | [] => Throw (runtime_error what)
  | (c, r) :: cases => if decide (x = c) then Ret r else switch cases what x
  end.
Definition swap (cases : list (Z * Z)) : list (Z * Z) := map (fun c => (c.2, c.1)) cases.
Definition families : list (Z * Z) := [(AF_UNSPEC h, 0); (AF_INET h, 2); (AF_INET6 h, 10)].
Definition from_host_af_family : Z -> outcome exn Z := switch families "Unknown af_family".
Definition to_host_af_family : Z -> outcome exn Z := switch (swap families) "Unknown af_family".
Definition socktypes : list (Z * Z) := [(SOCK_STREAM h, 1); (SOCK_DGRAM h, 2); (SOCK_RAW h, 3)].
Definition from_host_socktype : Z -> outcome exn Z := switch socktypes "Unknown socktype".
Definition to_host_socktype : Z -> outcome exn Z := switch (swap socktypes) "Unknown socktype".
Definition ipprotos : list (Z * Z) := [(IPPROTO_IP h, 0); (IPPROTO_TCP h, 6); (IPPROTO_UDP h, 17); (IPPROTO_IPV6 h, 41)].
Definition from_host_ipproto : Z -> outcome exn Z := switch ipprotos "Unknown ipproto".
Definition to_host_ipproto : Z -> outcome exn Z := switch (swap ipprotos) "Unknown ipproto".

(** ** Addresses

    The fields both structures have: [word] is the address of IPv4, in the place of the flow
    information of IPv6.  What a conversion does not write keeps its value. *)
Record sockaddr := mkAddr { family : Z; port : Z; word : Z; addr6 : list Z; scope : Z }.
Definition copy (f : Z) (v6 : bool) (i o : sockaddr) : sockaddr :=
  if v6 then mkAddr f (port i) (word i) (addr6 i) (scope i) else mkAddr f (port i) (word i) (addr6 o) (scope o).
Definition set_family (f : Z) (o : sockaddr) : sockaddr := mkAddr f (port o) (word o) (addr6 o) (scope o).
Definition from_host (i o : sockaddr) : outcome exn sockaddr :=
  if decide (family i = AF_UNSPEC h) then Ret (set_family 0 o)
  else if decide (family i = AF_INET h) then Ret (copy 2 false i o)
  else if decide (family i = AF_INET6 h) then Ret (copy 10 true i o)
  else Throw (runtime_error "Unknown socket family when converting sockaddr from host").
Definition to_host (i o : sockaddr) : outcome exn sockaddr :=
  if decide (family i = 0) then Ret (set_family (AF_UNSPEC h) o)
  else if decide (family i = 2) then Ret (copy (AF_INET h) false i o)
  else if decide (family i = 10) then Ret (copy (AF_INET6 h) true i o)
  else Throw (runtime_error "Unknown socket family when converting sockaddr to host").
(** [None] is a null pointer. *)
Definition get_host_len (i : option sockaddr) : outcome exn Z :=
  match i with
  | None => Ret 0
  | Some i => if decide (family i = 2) then Ret (sizeof_sockaddr_in h) else if decide (family i = 10) then Ret (sizeof_sockaddr_in6 h)
              else Throw (runtime_error "Unknown socket family when converting sockaddr to host")
  end.
Definition get_bionic_len (i : option sockaddr) : outcome exn Z :=
  match i with
  | None => Ret 0
  | Some i => if decide (family i = AF_INET h) then Ret 16 else if decide (family i = AF_INET6 h) then Ret 28
              else Throw (runtime_error "Unknown socket family when converting sockaddr from host")
  end.

(** ** Lists of addresses *)
Record addrinfo := mkInfo { ai_flags : Z; ai_family : Z; ai_socktype : Z; ai_protocol : Z; ai_addrlen : Z; ai_addr : option sockaddr; ai_canonname : option bytes }.
(** [m] is the contents of the memory [malloc] returns. *)
Context (m : sockaddr).
Definition convert_addr (conv : sockaddr -> sockaddr -> outcome exn sockaddr) (len : Z) (a : option sockaddr) : outcome exn (option sockaddr) :=
  if decide (len = 0) then Ret None else match a with None => Undef | Some a => o ← conv a m; Ret (Some o) end.
Definition from_host_info (i : addrinfo) : outcome exn addrinfo :=
  fam ← from_host_af_family (ai_family i);
  typ ← from_host_socktype (ai_socktype i);
  proto ← from_host_ipproto (ai_protocol i);
  len ← get_bionic_len (ai_addr i);
  addr ← convert_addr from_host len (ai_addr i);
  Ret (mkInfo (from_host_ai_flags (ai_flags i)) fam typ proto len addr (ai_canonname i)).
(** An entry that cannot be converted is left out. *)
Fixpoint from_host_alloc (l : list addrinfo) : outcome exn (list addrinfo) :=
  match l with
  | [] => Ret []
  | i :: l =>
      match from_host_info i with
      | Ret o => r ← from_host_alloc l; Ret (o :: r)
      | Throw _ => from_host_alloc l
      | Undef => Undef
      | Diverge => Diverge
      end
  end.
Definition to_host_info (i : addrinfo) : outcome exn addrinfo :=
  fam ← to_host_af_family (ai_family i);
  typ ← to_host_socktype (ai_socktype i);
  proto ← to_host_ipproto (ai_protocol i);
  len ← get_host_len (ai_addr i);
  addr ← convert_addr to_host len (ai_addr i);
  Ret (mkInfo (to_host_ai_flags (ai_flags i)) fam typ proto len addr (ai_canonname i)).
Fixpoint to_host_alloc (l : list addrinfo) : outcome exn (list addrinfo) :=
  match l with
  | [] => Ret []
  | i :: l => o ← to_host_info i; r ← to_host_alloc l; Ret (o :: r)
  end.

(** ** Options *)
Definition to_host_nameinfo_flags (flags : Z) : Z :=
  Z.lor (Z.lor (Z.lor (Z.lor (flag flags 1 (NI_NOFQDN h)) (flag flags 2 (NI_NUMERICHOST h))) (flag flags 4 (NI_NAMEREQD h))) (flag flags 8 (NI_NUMERICSERV h))) (flag flags 16 (NI_DGRAM h)).
(** [SO_ h n] is the host's constant for the option that bionic numbers [n]. *)
Definition same_options (f : Z -> Z) (l : list Z) : list (Z * Z) := map (fun n => (n, f n)) l.
Definition to_host_sockopt_so : Z -> outcome exn Z := switch (same_options (SO_ h) [1; 2; 3; 4; 5; 6; 7; 8; 9; 10; 13; 15]) "Unknown SO sockopt".
Definition to_host_sockopt_ip : Z -> outcome exn Z := switch (same_options (IP_ h) [1; 2; 3; 4; 6; 7; 16; 32; 33; 34; 35; 36]) "Unknown IP sockopt".
Definition to_host_sockopt_ipv6 : Z -> outcome exn Z := switch (same_options (IPV6_ h) [2; 3; 4; 5; 6; 7; 8; 16; 17; 18; 19; 20; 21; 26; 34]) "Unknown IPv6 sockopt".
Definition to_host_sockopt_level (level : Z) : outcome exn Z := if decide (level = 1) then Ret (SOL_SOCKET h) else to_host_ipproto level.
Definition to_host_sockopt (level opt : Z) : outcome exn Z :=
  level ← to_host_sockopt_level level;
  if decide (level = SOL_SOCKET h) then to_host_sockopt_so opt
  else if decide (level = IPPROTO_IP h) then to_host_sockopt_ip opt
  else if decide (level = IPPROTO_IPV6 h) then to_host_sockopt_ipv6 opt
  else Throw (runtime_error "Unknown sockopt level").

(** ** Calls *)

(** The socket calls take what they pass to the host; a result of the host is a parameter. *)
Definition socket (domain type proto : Z) : outcome exn (Z * Z * Z) :=
  d ← to_host_af_family domain; t ← to_host_socktype type; p ← to_host_ipproto proto; Ret (d, t, p).
Definition zero_addr : sockaddr := mkAddr 0 0 0 (repeat 0 16) 0.
(** [detail::sockaddr_in]: the address and the length that are passed to the host. *)
Definition sockaddr_in (addr : option sockaddr) : outcome exn (option sockaddr * Z) :=
  match addr with
  | None => Ret (None, 0)
  | Some a => s ← to_host a zero_addr; len ← get_host_len (Some a); Ret (if decide (len = 0) then None else Some s, len)
  end.
Definition bind {R} (sys : option sockaddr -> Z -> R) (addr : option sockaddr) : outcome exn R := '(a, len) ← sockaddr_in addr; Ret (sys a len).
Definition connect {R} (sys : option sockaddr -> Z -> R) (addr : option sockaddr) : outcome exn R := '(a, len) ← sockaddr_in addr; Ret (sys a len).
Definition getnameinfo (sys : option sockaddr -> Z -> Z -> Z) (addr : option sockaddr) (flags : Z) : outcome exn Z :=
  match sockaddr_in addr with
  | Ret (a, len) => Ret (sys a len (to_host_nameinfo_flags flags))
  | Throw _ => Ret 5
  | Undef => Undef
  | Diverge => Diverge
  end.
Definition sock_send_flags (flags : Z) : outcome exn Z :=
  let out := if decide (Z.land flags 16384 <> 0) then MSG_NOSIGNAL h else 0 in
  let flags := if decide (Z.land flags 16384 <> 0) then Z.land flags (Z.lnot 16384) else flags in
  if decide (flags <> 0) then Throw (runtime_error "Unexpected flags in a socket send operation") else Ret out.
Definition send {R} (sys : Z -> R) (flags : Z) : outcome exn R := f ← sock_send_flags flags; Ret (sys f).
Definition sendto {R} (sys : Z -> option sockaddr -> Z -> R) (flags : Z) (addr : option sockaddr) : outcome exn R :=
  '(a, len) ← sockaddr_in addr; f ← sock_send_flags flags; Ret (sys f a len).
Definition recv {R} (r : R) (flags : Z) : outcome exn R := if decide (flags <> 0) then Throw (runtime_error "recv with unsupported flags") else Ret r.

(** [detail::sockaddr_out::apply]: [haddr] is what the host wrote; [addr] and [addrlen] are the
    game's variables, or null. *)
Definition apply (haddr : sockaddr) (addr : option sockaddr) (addrlen : option Z) : outcome exn (sockaddr * Z) :=
  len ← get_bionic_len (Some haddr);
  match addrlen with
  | None => Undef
  | Some n =>
      if decide (n < len) then Throw (runtime_error "buffer for sockaddr not big enough")
      else match addr with
           | None => Undef
           | Some a => o ← from_host haddr a; Ret (o, len)
           end
  end.
(** The result of the host and, on success, the address. *)
Definition apply_if (b : bool) (ret : Z) (haddr : sockaddr) (addr : option sockaddr) (addrlen : option Z) : outcome exn (Z * option (sockaddr * Z)) :=
  if b then r ← apply haddr addr addrlen; Ret (ret, Some r) else Ret (ret, None).
Definition recvfrom (ret : Z) (haddr : sockaddr) (flags : Z) (addr : option sockaddr) (addrlen : option Z) : outcome exn (Z * option (sockaddr * Z)) :=
  if decide (flags <> 0) then Throw (runtime_error "recvfrom with unsupported flags")
  else match addr with None => Ret (ret, None) | Some _ => apply_if (bool_decide (0 <= ret)) ret haddr addr addrlen end.
Definition getsockname (ret : Z) := apply_if (bool_decide (ret = 0)) ret.
Definition getpeername (ret : Z) := apply_if (bool_decide (ret = 0)) ret.
Definition accept (ret : Z) := apply_if (bool_decide (0 <= ret)) ret.
Definition setsockopt {R} (sys : Z -> Z -> R) (level opt : Z) : outcome exn R := l ← to_host_sockopt_level level; o ← to_host_sockopt level opt; Ret (sys l o).
Definition shutdown {R} (sys : Z -> R) (how : Z) : outcome exn R :=
  hhow ← switch (same_options (SHUT_ h) [0; 1; 2]) "Unexpected how parameter passed to shutdown" how; Ret (sys hhow).
Definition getaddrinfo (sys : list addrinfo -> Z + list addrinfo) (hints : list addrinfo) : outcome exn (Z + list addrinfo) :=
  hhints ← to_host_alloc hints;
  match sys hhints with
  | inl ret => Ret (inl ret)
  | inr hres => res ← from_host_alloc hres; Ret (inr res)
  end.
End Shim.

(** ** Error numbers are translated back *)
Lemma list_find_first {A} (P : A -> Prop) `{forall x, Decision (P x)} (l : list A) (x : A) :
  P x -> x ∈ l -> (forall y, y ∈ l -> P y -> y = x) -> exists i, list_find P l = Some (i, x).
Proof.
  intros Px Hx Hu. destruct (list_find P l) as [[i y]|] eqn:E.
  - apply list_find_Some in E as (Hy & Py & _). exists i. rewrite (Hu y); [done|by eapply list_elem_of_lookup_2|done].
  - apply list_find_None in E. by apply (proj1 (Forall_forall _ _) E) in Hx.
Qed.

(** The translation of error numbers loses nothing: on a host whose constants for the
    errors are different, every error the game knows is translated to the host and back to
    itself, and every such error of the host comes back from the game's number. *)
Theorem errno_translated_back (linux : bool) (H : Z -> Z) (n : Z) (Hn : n ∈ errnos linux)
    (Hinj : forall a b, a ∈ errnos linux -> b ∈ errnos linux -> H a = H b -> a = b) :
  translate_errno_from_host linux H (translate_errno_to_host linux H n) = n /\
  translate_errno_to_host linux H (translate_errno_from_host linux H (H n)) = H n.
Proof.
  assert (E : translate_errno_from_host linux H (H n) = n).
  { unfold translate_errno_from_host. destruct (list_find_first (fun a => H a = H n) (errnos linux) n) as [i ->]; [done|done|by intros y Hy ?; apply Hinj|done]. }
  unfold translate_errno_to_host at 1. rewrite decide_True by done. rewrite E. split; [done|]. unfold translate_errno_to_host. by rewrite decide_True.
Qed.
(** On Linux the numbers are the same. *)
Lemma errno_linux_identity (e : Z) : translate_errno_from_host true id e = e /\ translate_errno_to_host true id e = e.
Proof.
  split; [|unfold translate_errno_to_host; by case_decide]. unfold translate_errno_from_host. destruct (list_find _ _) as [[i n]|] eqn:E; [|done].
  by apply list_find_Some in E as (_ & <- & _).
Qed.

(** ** Addresses are translated back *)
Record host_ok (h : host) : Prop := {
  ok_families : NoDup [AF_UNSPEC h; AF_INET h; AF_INET6 h];
  ok_types : NoDup [SOCK_STREAM h; SOCK_DGRAM h; SOCK_RAW h];
  ok_protos : NoDup [IPPROTO_IP h; IPPROTO_TCP h; IPPROTO_UDP h; IPPROTO_IPV6 h];
  ok_sizes : sizeof_sockaddr_in h <> 0 /\ sizeof_sockaddr_in6 h <> 0
}.
(** The address of a family, whatever is in the rest of the structure. *)
Definition same_addr (a b : sockaddr) : Prop :=
  family a = family b /\ port a = port b /\ word a = word b /\ (family a = 10 -> addr6 a = addr6 b /\ scope a = scope b).

Lemma families_differ h : host_ok h -> AF_INET h <> AF_UNSPEC h /\ AF_INET6 h <> AF_UNSPEC h /\ AF_INET6 h <> AF_INET h.
Proof.
  intros [H _ _ _]. apply NoDup_cons in H as [H1 H2]. apply NoDup_cons in H2 as [H2 _]. rewrite !elem_of_cons, elem_of_nil in H1. rewrite elem_of_cons, elem_of_nil in H2. intuition congruence.
Qed.
Lemma to_host_from_host h a z z' : host_ok h -> family a = 2 \/ family a = 10 -> exists b c, to_host h a z = Ret b /\ from_host h b z' = Ret c /\ same_addr a c.
Proof.
  intros Hh Ha. destruct (families_differ h Hh) as (H1 & H2 & H3). destruct a as [f p w a6 sc]. cbn [family] in Ha. destruct Ha as [-> | ->].
  - do 2 eexists. split; [done|]. split; [unfold from_host; cbn [family copy]; rewrite decide_False, decide_True by done; done|]. by repeat split.
  - do 2 eexists. split; [done|]. split; [unfold from_host; cbn [family copy]; rewrite !decide_False, decide_True by done; done|]. by repeat split.
Qed.

(** An address the game binds a socket to is the address it reads back: what [bind] passes to
    the host, returned by the host from [getsockname], is the game's address again, for IPv4 and
    IPv6 and every numbering of the host, when the game's buffer has room for it. *)
Theorem address_read_back (h : host) (a z : sockaddr) (n : Z) (Hh : host_ok h) (Ha : family a = 2 \/ family a = 10) (Hn : 28 <= n) :
  exists b len, bind h (fun a len => (a, len)) (Some a) = Ret (Some b, len) /\ len <> 0 /\
    exists c len', getsockname h 0 b (Some z) (Some n) = Ret (0, Some (c, len')) /\ same_addr a c /\ len' = (if decide (family a = 2) then 16 else 28).
Proof.
  destruct (to_host_from_host h a zero_addr z Hh Ha) as (b & c & Hb & Hc & Hs). destruct (families_differ h Hh) as (D1 & D2 & D3). pose proof (ok_sizes h Hh) as [S1 S2].
  assert (Hlen : exists len, get_host_len h (Some a) = Ret len /\ len <> 0).
  { unfold get_host_len. destruct Ha as [-> | ->]; eexists; (split; [reflexivity|done]). }
  destruct Hlen as (len & Hlen & Hne). exists b, len. unfold bind, sockaddr_in. rewrite Hb. cbn [mbind outcome_bind]. rewrite Hlen. cbn [mbind outcome_bind].
  rewrite decide_False by done. split; [done|]. split; [done|].
  assert (Hfam : family b = if decide (family a = 2) then AF_INET h else AF_INET6 h).
  { unfold to_host in Hb. destruct Ha as [E|E]; rewrite E in *; cbn in Hb; by injection Hb as <-. }
  unfold getsockname, apply_if. rewrite bool_decide_eq_true_2 by done. unfold apply, get_bionic_len. rewrite Hfam.
  destruct (decide (family a = 2)) as [E|E].
  - rewrite decide_True by done. cbn [mbind outcome_bind]. rewrite decide_False by lia. rewrite Hc. by exists c, 16.
  - rewrite decide_False, decide_True by done. cbn [mbind outcome_bind]. rewrite decide_False by lia. rewrite Hc. by exists c, 28.
Qed.

(** ** Results of [getaddrinfo] *)
Definition converted (h : host) (m : sockaddr) (i : addrinfo) : option addrinfo := match from_host_info h m i with Ret o => Some o | _ => None end.
Definition knows (h : host) (i : addrinfo) : Prop :=
  ai_family i ∈ (families h).*1 /\ ai_socktype i ∈ (socktypes h).*1 /\ ai_protocol i ∈ (ipprotos h).*1 /\
  match ai_addr i with Some a => family a = AF_INET h \/ family a = AF_INET6 h | None => True end.

Lemma switch_known cases w x : (x ∈ cases.*1 <-> exists y, switch cases w x = Ret y) /\ (x ∉ cases.*1 -> switch cases w x = Throw (runtime_error w)).
Proof.
  induction cases as [|[c r] cases [IH1 IH2]]; cbn [switch fmap list_fmap fst].
  - split; [split; [by intros ?%elem_of_nil|by intros []]|done].
  - case_decide as E; subst.
    + split; [split; [by eexists|by left]|]. intros Hx. destruct Hx. by left.
    + split; [rewrite elem_of_cons, <- IH1; naive_solver|]. intros Hx. apply IH2. intros Hy. apply Hx. by right.
Qed.
Lemma from_host_info_known h m i : host_ok h -> (knows h i /\ (exists o, from_host_info h m i = Ret o)) \/ (~ knows h i /\ exists e, from_host_info h m i = Throw e).
Proof.
  intros Hh. unfold from_host_info, from_host_af_family, from_host_socktype, from_host_ipproto, knows.
  destruct (decide (ai_family i ∈ (families h).*1)) as [H1|H1]; [|right; split; [tauto|]; rewrite (proj2 (switch_known _ _ _) H1); by eexists].
  destruct (proj1 (proj1 (switch_known _ "Unknown af_family" _)) H1) as [f ->]. cbn [mbind outcome_bind].
  destruct (decide (ai_socktype i ∈ (socktypes h).*1)) as [H2|H2]; [|right; split; [tauto|]; rewrite (proj2 (switch_known _ _ _) H2); by eexists].
  destruct (proj1 (proj1 (switch_known _ "Unknown socktype" _)) H2) as [t ->]. cbn [mbind outcome_bind].
  destruct (decide (ai_protocol i ∈ (ipprotos h).*1)) as [H3|H3]; [|right; split; [tauto|]; rewrite (proj2 (switch_known _ _ _) H3); by eexists].
  destruct (proj1 (proj1 (switch_known _ "Unknown ipproto" _)) H3) as [p ->]. cbn [mbind outcome_bind].
  destruct (ai_addr i) as [a|]; [|left; split; [done|]; by eexists]. destruct (families_differ h Hh) as (D1 & D2 & D3).
  unfold get_bionic_len, convert_addr, from_host. destruct (decide (family a = AF_INET h)) as [E|E].
  { left. split; [tauto|]. cbn [mbind outcome_bind]. rewrite decide_False by done. rewrite (decide_False (P := family a = AF_UNSPEC h)) by congruence. by eexists. }
  destruct (decide (family a = AF_INET6 h)) as [E6|E6].
  { left. split; [tauto|]. cbn [mbind outcome_bind]. rewrite decide_False by done. rewrite (decide_False (P := family a = AF_UNSPEC h)) by congruence. by eexists. }
  right. split; [tauto|]. by eexists.
Qed.

(** The results of [getaddrinfo] reach the game in the order of the host: exactly those whose
    family, type, protocol and address bionic knows are kept, and no result of the host makes
    the call throw. *)
Theorem results_kept (h : host) (m : sockaddr) (l : list addrinfo) (Hh : host_ok h) :
  from_host_alloc h m l = Ret (omap (converted h m) l) /\ forall i, i ∈ l -> is_Some (converted h m i) <-> knows h i.
Proof.
  split.
  - induction l as [|i l IH]; [done|]. cbn [from_host_alloc omap list_omap]. unfold converted at 1.
    destruct (from_host_info_known h m i Hh) as [[_ [o ->]]|[_ [e ->]]]; rewrite IH; done.
  - intros i _. unfold converted. destruct (from_host_info_known h m i Hh) as [[H [o ->]]|[H [e ->]]]; split; try done; by intros [? ?].
Qed.

(** ** What the shims do not accept *)

(** [accept] without a place for the address is undefined behaviour. *)
Lemma accept_null_undefined h fd b : 0 <= fd -> family b = AF_INET h -> accept h fd b None None = Undef.
Proof. intros H E. unfold accept, apply_if, apply, get_bionic_len. rewrite bool_decide_eq_true_2 by done. rewrite E, decide_True by done. done. Qed.
(** A received message without an address, as of a connected stream, is lost in an exception. *)
Lemma recvfrom_stream_throws h n a len : host_ok h -> AF_UNSPEC h = 0 -> 0 <= n ->
  exists e, recvfrom h n zero_addr 0 (Some a) (Some len) = Throw e.
Proof.
  intros Hh E Hn. destruct (families_differ h Hh) as (D1 & D2 & D3). unfold recvfrom, apply_if, apply, get_bionic_len. rewrite decide_False by (intros []; done).
  rewrite bool_decide_eq_true_2 by done. cbn [family zero_addr]. rewrite !decide_False by congruence. by eexists.
Qed.
(** An address of no family, which dissolves a connection, is converted but has no length. *)
Lemma connect_unspec_throws h {R} (sys : option sockaddr -> Z -> R) a : family a = 0 -> exists e, connect h sys (Some a) = Throw e.
Proof. intros E. unfold connect, sockaddr_in, to_host, get_host_len. rewrite E. by eexists. Qed.

(** ** Witnesses *)

(** The constants of macOS, where the families differ from those of bionic. *)
Definition mac : host :=
  mkHost 1 2 4 0 2 30 1 2 3 0 6 17 41 1 2 4 8 16 65535 524288 id id id id 16 28.
Lemma mac_ok : host_ok mac.
Proof. split; apply (bool_decide_unpack _); by vm_compute. Qed.
Lemma errno_translated_back_witness :
  translate_errno_from_host false (fun n => n + 1000) (translate_errno_to_host false (fun n => n + 1000) 11) = 11 /\
  translate_errno_to_host false (fun n => n + 1000) (translate_errno_from_host false (fun n => n + 1000) 1011) = 1011.
Proof. apply (errno_translated_back false (fun n => n + 1000) 11); [apply (bool_decide_unpack _); by vm_compute|lia]. Defined.
Definition local6 : sockaddr := mkAddr 10 8080 0 (repeat 0 15 ++ [1]) 3.
Lemma address_read_back_witness : exists b len, bind mac (fun a len => (a, len)) (Some local6) = Ret (Some b, len) /\ len <> 0 /\
  exists c len', getsockname mac 0 b (Some zero_addr) (Some 28) = Ret (0, Some (c, len')) /\ same_addr local6 c /\ len' = 28.
Proof. apply (address_read_back mac local6 zero_addr 28); [apply mac_ok|by right|lia]. Defined.
Lemma results_kept_witness : exists l, from_host_alloc mac zero_addr [mkInfo 0 30 1 6 28 (Some (mkAddr 30 80 0 (repeat 0 16) 0)) None; mkInfo 0 17 1 6 0 None None] = Ret l /\ length l = 1%nat.
Proof.
  eexists. split; [apply (results_kept mac zero_addr _ mac_ok)|]. by vm_compute.
Defined.
End Network.
