(* ===== verification/Pthreads.v ===== *)
(** * Threads and locks of the game (libc-shim)

    The functions of [pthreads.cpp] (pthreads.h, meta.h): the game's mutexes, condition variables
    and read-write locks hold a pointer to an object of the host, which is made on first use
    when the game initialized them statically.  What the host's library does with its objects is
    a parameter.  The layout is that of 64-bit builds. *)

From S2P Require Import Prelude Network.
From Stdlib Require Import ZArith Lia Relations.
From stdpp Require Import base gmap strings numbers list.

Open Scope Z_scope.

Module Pthreads.

(** ** Attributes *)
Definition EINVAL : Z := 22.
Record pthread_attr_t := mkAttr { detached : bool; user_stack : bool; stack_base : Z; stack_size : Z; guard_size : Z; sched_policy : Z; sched_priority : Z }.
Definition pthread_attr_init : pthread_attr_t := mkAttr false false 0 0 0 0 0.
Definition pthread_attr_setdetachstate (value : Z) (a : pthread_attr_t) : pthread_attr_t * Z :=
  if decide (value <> 0 /\ value <> 1) then (a, EINVAL)
  else (mkAttr (bool_decide (value = 1)) (user_stack a) (stack_base a) (stack_size a) (guard_size a) (sched_policy a) (sched_priority a), 0).
Definition pthread_attr_getdetachstate (a : pthread_attr_t) : Z := if detached a then 1 else 0.
Definition pthread_attr_setschedparam (value : Z) (a : pthread_attr_t) : pthread_attr_t :=
  mkAttr (detached a) (user_stack a) (stack_base a) (stack_size a) (guard_size a) (sched_policy a) value.
(** A size below the host's minimum is ignored. *)
Definition pthread_attr_setstacksize (PTHREAD_STACK_MIN value : Z) (a : pthread_attr_t) : pthread_attr_t :=
  if decide (value < PTHREAD_STACK_MIN) then a
  else mkAttr (detached a) (user_stack a) (stack_base a) value (guard_size a) (sched_policy a) (sched_priority a).
(** The calls on a new attribute of the host. *)
Inductive attr_call := SetDetachState (detached : bool) | SetStackSize (n : Z) | SetPriority (n : Z).
Definition host_pthread_attr (a : option pthread_attr_t) : list attr_call :=
  match a with
  | None => []
  | Some a => [SetDetachState (detached a)] ++ (if decide (stack_size a = 0) then [] else [SetStackSize (stack_size a)]) ++
              (if decide (sched_priority a = 0) then [] else [SetPriority (sched_priority a)])
  end.

(** The type of a mutex and the clock of a condition variable. *)
Definition pthread_mutexattr_init : Z := 0.
Definition pthread_mutexattr_settype (type old : Z) : Z * Z := if decide (type < 0 \/ 2 < type) then (old, EINVAL) else (type, 0).
Record pthread_condattr_t := mkCondAttr { shared : bool; clock : Z }.
Definition pthread_condattr_init : pthread_condattr_t := mkCondAttr false 1.
Definition pthread_condattr_setclock (value : Z) (a : pthread_condattr_t) : pthread_condattr_t * Z :=
  if decide (value <> 1 /\ value <> 0) then (a, EINVAL) else (mkCondAttr (shared a) value, 0).

(** ** Objects of the host behind objects of the game *)

(** [ptr] is the pointer [wrapped]; only a mutex uses [init_value]. *)
Record wrapper := mkWrapper { init_value : Z; ptr : option nat }.
Record memory (M : Type) := mkMemory { objects : gmap nat wrapper; heap : gmap nat M }.
Arguments mkMemory {M}. Arguments objects {M}. Arguments heap {M}.

Section Wrapped.
Context {M : Type}.
Definition set_ptr (a : nat) (p : nat) (s : memory M) : memory M :=
  mkMemory (alter (fun w => mkWrapper (init_value w) (Some p)) a (objects s)) (heap s).
(** The pointer is written before the host constructs the object; it stays when that fails. *)
Definition make_c_wrapped (constructor : Z * M) (a : nat) (s : memory M) : memory M * Z :=
  let p := fresh (dom (heap s)) in
  let s := set_ptr a p s in
  let '(ret, obj) := constructor in
  (if decide (ret = 0) then mkMemory (objects s) (<[p := obj]> (heap s)) else s, ret).
(** The object is deleted whatever the destructor says, and the pointer stays. *)
Definition destroy_c_wrapped (destructor : M -> Z) (p : nat) (s : memory M) : outcome exn (memory M * Z) :=
  match heap s !! p with
  | Some obj => Ret (mkMemory (objects s) (delete p (heap s)), destructor obj)
  | None => Undef
  end.
Definition on_object (f : M -> outcome exn (M * Z)) (p : nat) (s : memory M) : outcome exn (memory M * Z) :=
  match heap s !! p with
  | Some obj => '(obj, ret) ← f obj; Ret (mkMemory (objects s) (<[p := obj]> (heap s)), ret)
  | None => Undef
  end.
End Wrapped.

Section Shim.
(** The host: how it numbers errors, its types of mutexes, its constructors and destructors, and
    what an operation does to an object; an operation that blocks for ever is [Diverge]. *)
Context (linux : bool) (H : Z -> Z) (MUTEX_NORMAL MUTEX_RECURSIVE MUTEX_ERRORCHECK : Z).
Context {M C R : Type} (mutex_init : option Z -> Z * M) (mutex_destroy : M -> Z).
Context (cond_init : option Z -> Z * C) (cond_destroy : C -> Z) (rwlock_init : Z * R) (rwlock_destroy : R -> Z).
Definition tr : Z -> Z := Network.translate_errno_from_host linux H.

Definition to_host_mutex_type : Z -> outcome exn Z :=
  Network.switch [(0, MUTEX_NORMAL); (1, MUTEX_RECURSIVE); (2, MUTEX_ERRORCHECK)] "Invalid mutex type".
(** [attr] is a null pointer or the type in the attribute. *)
Definition pthread_mutex_init (a : nat) (attr : option Z) (s : memory M) : outcome exn (memory M * Z) :=
  hattr ← match attr with None => Ret None | Some t => t ← to_host_mutex_type t; Ret (Some t) end;
  let '(s, ret) := make_c_wrapped (mutex_init hattr) a s in Ret (s, tr ret).
Definition recursive_mutex_init_value : Z := 16384.
Definition errorcheck_mutex_init_value : Z := 32768.
Definition static_type (init_value : Z) : Z :=
  if decide (init_value = recursive_mutex_init_value) then 1 else if decide (init_value = errorcheck_mutex_init_value) then 2 else pthread_mutexattr_init.
Definition mutex_static_initializer (a : nat) (s : memory M) : outcome exn (memory M) :=
  match objects s !! a with
  | None => Undef
  | Some w =>
      match ptr w with
      | Some _ => Ret s
      | None =>
          '(s, ret) ← pthread_mutex_init a (Some (static_type (init_value w))) s;
          if decide (ret <> 0) then Throw (runtime_error "Failed to init mutex") else Ret s
      end
  end.
Definition mutex_to_host (a : nat) (s : memory M) : outcome exn (memory M * nat) :=
  s ← match objects s !! a with
      | Some (mkWrapper _ None) => mutex_static_initializer a s
      | _ => Ret s
      end;
  match objects s !! a with Some (mkWrapper _ (Some p)) => Ret (s, p) | _ => Undef end.
(** [pthread_mutex_lock], [pthread_mutex_unlock] and [pthread_mutex_trylock] differ in what the host does. *)
Definition mutex_operation (f : M -> outcome exn (M * Z)) (a : nat) (s : memory M) : outcome exn (memory M * Z) :=
  '(s, p) ← mutex_to_host a s; '(s, ret) ← on_object f p s; Ret (s, tr ret).
Definition pthread_mutex_destroy (a : nat) (s : memory M) : outcome exn (memory M * Z) :=
  match objects s !! a with
  | None => Undef
  | Some w =>
      match ptr w with
      | None => Ret (s, 0)
      | Some p => '(s, ret) ← destroy_c_wrapped mutex_destroy p s; Ret (s, tr ret)
      end
  end.

(** Threads: [host_create] is the host's call; scheduling, where [get] is what the host reports. *)
Definition pthread_create (host_create : list attr_call -> Z) (a : option pthread_attr_t) : Z := tr (host_create (host_pthread_attr a)).
Definition to_host_sched_policy (SCHED_OTHER type : Z) : outcome exn Z := Network.switch [(0, SCHED_OTHER)] "Invalid sched policy" type.
Definition from_host_sched_policy (SCHED_OTHER type : Z) : Z := if decide (type = SCHED_OTHER) then 0 else -1.
Definition pthread_setschedparam (SCHED_OTHER : Z) (get : Z * Z) (set : Z -> Z -> Z) (policy priority : Z) : outcome exn Z :=
  let '(ret, hpolicy) := get in
  if decide (ret <> 0) then Ret (tr ret)
  else hpolicy ← if decide (policy = -1) then Ret hpolicy else to_host_sched_policy SCHED_OTHER policy;
       Ret (tr (set hpolicy priority)).
Definition pthread_getschedparam (SCHED_OTHER : Z) (get : Z * Z * Z) : Z * option (Z * Z) :=
  let '(ret, hpolicy, priority) := get in
  if decide (ret <> 0) then (tr ret, None) else (0, Some (from_host_sched_policy SCHED_OTHER hpolicy, priority)).
(** The key of the host is read although the host did not write it when it fails. *)
Definition pthread_key_create (ret : Z) (host_key : option Z) : outcome exn (Z * Z) :=
  match host_key with
  | None => Undef
  | Some k => if decide (2 ^ 31 - 1 < k) then Throw (runtime_error "Unsupported host pthread key implementation") else Ret (k, tr ret)
  end.

(** Condition variables; [attr] is null or the clock of the attribute. *)
Definition pthread_cond_init (a : nat) (attr : option Z) (s : memory C) : memory C * Z :=
  let '(s, ret) := make_c_wrapped (cond_init attr) a s in (s, tr ret).
Definition cond_to_host (a : nat) (s : memory C) : outcome exn (memory C * nat) :=
  let s := match objects s !! a with Some (mkWrapper _ None) => (pthread_cond_init a None s).1 | _ => s end in
  match objects s !! a with Some (mkWrapper _ (Some p)) => Ret (s, p) | _ => Undef end.
Definition cond_operation (f : C -> outcome exn (C * Z)) (a : nat) (s : memory C) : outcome exn (memory C * Z) :=
  '(s, p) ← cond_to_host a s; '(s, ret) ← on_object f p s; Ret (s, tr ret).
Definition pthread_cond_wait (wait : C -> M -> outcome exn (C * M * Z)) (a b : nat) (s : memory C * memory M) : outcome exn (memory C * memory M * Z) :=
  '(sc, p) ← cond_to_host a s.1;
  '(sm, q) ← mutex_to_host b s.2;
  match heap sc !! p, heap sm !! q with
  | Some c, Some m => '(c, m, ret) ← wait c m; Ret (mkMemory (objects sc) (<[p := c]> (heap sc)), mkMemory (objects sm) (<[q := m]> (heap sm)), tr ret)
  | _, _ => Undef
  end.
Definition pthread_cond_destroy (a : nat) (s : memory C) : outcome exn (memory C * Z) :=
  match objects s !! a with
  | None => Undef
  | Some w =>
      match ptr w with
      | None => Ret (s, 0)
      | Some p => '(s, ret) ← destroy_c_wrapped cond_destroy p s; Ret (s, tr ret)
      end
  end.

(** Read-write locks. *)
Definition pthread_rwlock_init (a : nat) (attr_given : bool) (s : memory R) : outcome exn (memory R * Z) :=
  if attr_given then Throw (runtime_error "non-NULL rwlock attr is currently not supported")
  else let '(s, ret) := make_c_wrapped rwlock_init a s in Ret (s, tr ret).
Definition rwlock_to_host (a : nat) (s : memory R) : outcome exn (memory R * nat) :=
  s ← match objects s !! a with
      | Some (mkWrapper _ None) => '(s, _) ← pthread_rwlock_init a false s; Ret s
      | _ => Ret s
      end;
  match objects s !! a with Some (mkWrapper _ (Some p)) => Ret (s, p) | _ => Undef end.
Definition rwlock_operation (f : R -> outcome exn (R * Z)) (a : nat) (s : memory R) : outcome exn (memory R * Z) :=
  '(s, p) ← rwlock_to_host a s; on_object f p s.
Definition pthread_rwlock_destroy (a : nat) (s : memory R) : outcome exn (memory R * Z) :=
  match objects s !! a with
  | None => Undef
  | Some w =>
      match ptr w with
      | None => Ret (s, 0)
      | Some p => '(s, ret) ← destroy_c_wrapped rwlock_destroy p s; Ret (s, tr ret)
      end
  end.
End Shim.

(** ** Cleanup handlers, and routines that run once *)

(** The records of the handlers are in the game's memory; [trace] lists the handlers that ran. *)
Record cleanup_t := mkCleanup { prev : option nat; routine : Z; arg : Z }.
Record cleanups := mkCleanups { current : option nat; records : gmap nat cleanup_t; trace : list (Z * Z) }.
Definition pthread_cleanup_push_impl (c : nat) (cb arg : Z) (s : cleanups) : cleanups :=
  mkCleanups (Some c) (<[c := mkCleanup (current s) cb arg]> (records s)) (trace s).
Definition pthread_cleanup_pop_impl (c : nat) (execute : bool) (s : cleanups) : outcome exn cleanups :=
  match records s !! c with
  | None => Undef
  | Some r => Ret (mkCleanups (prev r) (records s) (if execute then trace s ++ [(routine r, arg r)] else trace s))
  end.
(** The destructor at the end of a thread. *)
Fixpoint run_cleanups (fuel : nat) (p : option nat) (s : cleanups) : outcome exn cleanups :=
  match fuel with
  | O => Diverge
  | S fuel =>
      match p with
      | None => Ret s
      | Some c => match records s !! c with
                  | None => Undef
                  | Some r => run_cleanups fuel (prev r) (mkCleanups (current s) (records s) (trace s ++ [(routine r, arg r)]))
                  end
      end
  end.
(** The flag is set before the routine runs. *)
Definition pthread_once {S} (get : S -> Z) (set : Z -> S -> S) (run : S -> outcome exn S) (s : S) : outcome exn S :=
  if decide (get s = 0) then run (set 1 s) else Ret s.

(** ** A mutex of the game is a mutex of the host *)
Section Refinement.
Context (linux : bool) (H : Z -> Z) (MUTEX_NORMAL MUTEX_RECURSIVE MUTEX_ERRORCHECK : Z).
Context {M : Type} (mutex_init : option Z -> Z * M) (mutex_destroy : M -> Z).
(** The host numbers errors from 1, and its constructor succeeds. *)
Definition errors_positive : Prop := forall n, n ∈ Network.errnos linux -> H n <> 0.
(** The kinds of mutexes, with their numbers in an attribute of Android (its pthread.h), the values that Android's static
    initializers put into a mutex (the number in the bits from 14 on; any other value is a normal mutex), and the
    numbers of the host. *)
Inductive kind := normal | recursive | errorcheck.
Definition android_type (k : kind) : Z := match k with normal => 0 | recursive => 1 | errorcheck => 2 end.
Definition initialized_as (v : Z) : kind := if decide (v = Z.shiftl 1 14) then recursive else if decide (v = Z.shiftl 2 14) then errorcheck else normal.
Definition host_kind (k : kind) : Z := match k with normal => MUTEX_NORMAL | recursive => MUTEX_RECURSIVE | errorcheck => MUTEX_ERRORCHECK end.
Definition constructs (initial : Z -> M) : Prop := forall t, mutex_init (Some t) = (0, initial t).
Context (initial : Z -> M).

(** What is behind a mutex: the host's object, or the one it is going to be. *)
Definition contents (s : memory M) (a : nat) : option M :=
  match objects s !! a with
  | None => None
  | Some w => match ptr w with Some p => heap s !! p | None => Some (initial (host_kind (initialized_as (init_value w)))) end
  end.
Record wf (s : memory M) : Prop := {
  wf_live : forall a w p, objects s !! a = Some w -> ptr w = Some p -> is_Some (heap s !! p);
  wf_own : forall a b w v p, objects s !! a = Some w -> objects s !! b = Some v -> ptr w = Some p -> ptr v = Some p -> a = b
}.
Lemma tr_zero : errors_positive -> tr linux H 0 = 0.
Proof.
  intros Hp. unfold tr, Network.translate_errno_from_host. destruct (list_find _ _) as [[i n]|] eqn:E; [|done].
  apply list_find_Some in E as (Hn & E & _). apply list_elem_of_lookup_2 in Hn. by apply Hp in Hn.
Qed.
Lemma android_type_host k : to_host_mutex_type MUTEX_NORMAL MUTEX_RECURSIVE MUTEX_ERRORCHECK (android_type k) = Ret (host_kind k).
Proof. by destruct k. Qed.
Lemma static_type_android v : static_type v = android_type (initialized_as v).
Proof. unfold static_type, initialized_as, recursive_mutex_init_value, errorcheck_mutex_init_value. change (Z.shiftl 1 14) with 16384. change (Z.shiftl 2 14) with 32768. by repeat case_decide. Qed.

(** A new object for a mutex: the mutex holds it, the other mutexes keep theirs. *)
Lemma pthread_mutex_init_ok s a w k : errors_positive -> constructs initial -> wf s -> objects s !! a = Some w ->
  exists s' p, pthread_mutex_init linux H MUTEX_NORMAL MUTEX_RECURSIVE MUTEX_ERRORCHECK mutex_init a (Some (android_type k)) s = Ret (s', 0) /\ wf s' /\ objects s' !! a = Some (mkWrapper (init_value w) (Some p)) /\ heap s' !! p = Some (initial (host_kind k)) /\ forall b, b <> a -> contents s' b = contents s b.
Proof.
  intros Hpos Hc Hwf Ha. unfold pthread_mutex_init. rewrite android_type_host. cbn [mbind outcome_bind]. rewrite Hc. unfold make_c_wrapped. rewrite decide_True, tr_zero by done.
  set (p := fresh (dom (heap s))). assert (Hp : heap s !! p = None) by (apply not_elem_of_dom, is_fresh). cbn [objects set_ptr heap].
  set (s' := mkMemory _ _). set (w' := mkWrapper (init_value w) (Some p)).
  assert (Ha' : objects s' !! a = Some w') by (cbn; by rewrite lookup_alter_eq, Ha).
  assert (Hb : forall b, b <> a -> objects s' !! b = objects s !! b) by (intros; cbn; by rewrite lookup_alter_ne).
  assert (Hh : forall q, is_Some (heap s !! q) -> heap s' !! q = heap s !! q) by (intros q [m Hq]; cbn; rewrite lookup_insert_ne; [done|intros <-; congruence]).
  exists s', p. split; [done|]. split_and!; [split|done|cbn; by rewrite lookup_insert_eq|].
  - intros b x q Hx Hq. destruct (decide (b = a)) as [->|Hne].
    + rewrite Ha' in Hx. injection Hx as <-. injection Hq as <-. cbn. rewrite lookup_insert_eq. by eexists.
    + rewrite Hb in Hx by done. destruct (wf_live _ Hwf b x q Hx Hq) as [m Hm]. rewrite Hh by eauto. eauto.
  - intros b c x y q Hx Hy Hq Hr. destruct (decide (b = a)) as [->|Hnb], (decide (c = a)) as [->|Hnc]; [done| | |].
    + rewrite Ha' in Hx. injection Hx as <-. injection Hq as <-. rewrite Hb in Hy by done. destruct (wf_live _ Hwf c y p Hy Hr). congruence.
    + rewrite Ha' in Hy. injection Hy as <-. injection Hr as <-. rewrite Hb in Hx by done. destruct (wf_live _ Hwf b x p Hx Hq). congruence.
    + rewrite Hb in Hx, Hy by done. by apply (wf_own _ Hwf b c x y q).
  - intros b Hne. unfold contents. rewrite Hb by done. destruct (objects s !! b) as [x|] eqn:Ex; [|done]. destruct (ptr x) as [q|] eqn:Eq; [|done].
    apply Hh. by apply (wf_live _ Hwf b x q).
Qed.

(** The first use of a mutex makes its object; nothing else changes. *)
Lemma mutex_to_host_ok s a w : errors_positive -> constructs initial -> wf s -> objects s !! a = Some w ->
  exists s' p w', mutex_to_host linux H MUTEX_NORMAL MUTEX_RECURSIVE MUTEX_ERRORCHECK mutex_init a s = Ret (s', p) /\ wf s' /\
    objects s' !! a = Some w' /\ ptr w' = Some p /\ heap s' !! p = contents s a /\ is_Some (contents s a) /\ forall b, contents s' b = contents s b.
Proof.
  intros Hpos Hc Hwf Ha. unfold mutex_to_host. rewrite Ha. destruct w as [v [p|]].
  { cbn [mbind outcome_bind]. rewrite Ha. destruct (wf_live _ Hwf a _ p Ha eq_refl) as [m Hm]. exists s, p, (mkWrapper v (Some p)).
    assert (E : contents s a = heap s !! p) by (unfold contents; by rewrite Ha). rewrite E, Hm. by eauto 10. }
  unfold mutex_static_initializer. rewrite Ha. cbn [ptr init_value]. rewrite static_type_android.
  destruct (pthread_mutex_init_ok s a _ (initialized_as v) Hpos Hc Hwf Ha) as (s' & p & -> & Hwf' & Ha' & Hp & Hb). cbn [mbind outcome_bind]. rewrite decide_False by (intros E; by apply E).
  cbn [mbind outcome_bind]. rewrite Ha'. exists s', p, (mkWrapper v (Some p)). assert (Ec : contents s a = Some (initial (host_kind (initialized_as v)))) by (unfold contents; by rewrite Ha).
  rewrite Ec; split_and!; try done. intros b. destruct (decide (b = a)) as [->|Hne]; [|by apply Hb]. rewrite Ec. unfold contents. rewrite Ha'. cbn. done.
Qed.

(** C17. Every operation on a mutex of the game does what the host does with a mutex of the kind that the game asked for:
    [pthread_mutex_init] with an attribute of any kind makes a mutex of the host of that kind; a mutex that the game
    initialized statically, which is made on first use, is of the kind whose initializer the game used.  The other
    mutexes are not touched, and the result is the host's error in the game's numbering.  The host's constructor
    is assumed to succeed and its errors not to be 0. *)
Theorem mutex_refines (s : memory M) (a : nat) (w : wrapper) (f : M -> outcome exn (M * Z))
    (Hpos : errors_positive) (Hc : constructs initial) (Hwf : wf s) (Ha : objects s !! a = Some w) :
  (forall k, exists s', pthread_mutex_init linux H MUTEX_NORMAL MUTEX_RECURSIVE MUTEX_ERRORCHECK mutex_init a (Some (android_type k)) s = Ret (s', 0) /\ wf s' /\
    contents s' a = Some (initial (host_kind k)) /\ forall b, b <> a -> contents s' b = contents s b) /\
  exists m, contents s a = Some m /\
  match f m with
  | Ret (m', ret) => exists s', mutex_operation linux H MUTEX_NORMAL MUTEX_RECURSIVE MUTEX_ERRORCHECK mutex_init f a s = Ret (s', tr linux H ret) /\ wf s' /\
      contents s' a = Some m' /\ forall b, b <> a -> contents s' b = contents s b
  | Throw e => mutex_operation linux H MUTEX_NORMAL MUTEX_RECURSIVE MUTEX_ERRORCHECK mutex_init f a s = Throw e
  | Undef => mutex_operation linux H MUTEX_NORMAL MUTEX_RECURSIVE MUTEX_ERRORCHECK mutex_init f a s = Undef
  | Diverge => mutex_operation linux H MUTEX_NORMAL MUTEX_RECURSIVE MUTEX_ERRORCHECK mutex_init f a s = Diverge
  end.
Proof.
  split.
  { intros k. destruct (pthread_mutex_init_ok s a w k Hpos Hc Hwf Ha) as (s' & p & E & Hwf' & Ha' & Hp & Hb). exists s'. split_and!; try done. unfold contents. by rewrite Ha'. }
  destruct (mutex_to_host_ok s a w Hpos Hc Hwf Ha) as (s1 & p & w1 & Hto & Hwf1 & Ha1 & Hp1 & Hm & [m Em] & Hcont). exists m. split; [done|].
  unfold mutex_operation. rewrite Hto. cbn [mbind outcome_bind]. unfold on_object. rewrite Hm, Em. destruct (f m) as [[m' ret]|e| |]; cbn [mbind outcome_bind]; [|done..].
  eexists. split; [done|]. assert (Hhp : forall q, q <> p -> <[p := m']> (heap s1) !! q = heap s1 !! q) by (intros; by rewrite lookup_insert_ne). split; [split|split].
  - intros b x q Hx Hq. cbn in Hx |- *. destruct (decide (q = p)) as [->|Hne]; [rewrite lookup_insert_eq; by eexists|]. rewrite Hhp by done. by apply (wf_live _ Hwf1 b x q).
  - intros b c x y q. cbn. apply (wf_own _ Hwf1).
  - unfold contents. cbn. rewrite Ha1, Hp1. by rewrite lookup_insert_eq.
  - intros b Hb. rewrite <- Hcont. unfold contents. cbn. destruct (objects s1 !! b) as [x|] eqn:Ex; [|done]. destruct (ptr x) as [q|] eqn:Eq; [|done].
    apply Hhp. intros ->. apply Hb. by apply (wf_own _ Hwf1 b a x w1 p).
Qed.

(** When the host refuses to destroy a mutex, it is deleted nevertheless: the next use of the
    mutex, which the game still holds, is undefined. *)
Theorem refused_destroy_dangles (s : memory M) (a p : nat) (v : Z) (m : M) (f : M -> outcome exn (M * Z))
    (Ha : objects s !! a = Some (mkWrapper v (Some p))) (Hp : heap s !! p = Some m) :
  exists s', pthread_mutex_destroy linux H mutex_destroy a s = Ret (s', tr linux H (mutex_destroy m)) /\
    mutex_operation linux H MUTEX_NORMAL MUTEX_RECURSIVE MUTEX_ERRORCHECK mutex_init f a s' = Undef.
Proof.
  unfold pthread_mutex_destroy, destroy_c_wrapped. rewrite Ha. cbn [ptr]. rewrite Hp. cbn [mbind outcome_bind]. eexists. split; [done|].
  unfold mutex_operation, mutex_to_host. cbn [objects]. rewrite Ha. cbn [mbind outcome_bind objects]. rewrite Ha. cbn [mbind outcome_bind].
  unfold on_object. cbn [heap]. by rewrite lookup_delete_eq.
Qed.
End Refinement.

(** ** Cleanup handlers run newest first *)

(** What a thread does with its handlers, and a stack that specifies it. *)
Inductive cleanup_op := Push (c : nat) (cb arg : Z) | Pop (execute : bool).
Definition handler : Type := nat * Z * Z.
Definition call_of (x : handler) : Z * Z := (x.1.2, x.2).
Fixpoint stack_run (ops : list cleanup_op) (st : list handler) (tr : list (Z * Z)) : option (list handler * list (Z * Z)) :=
  match ops with
  | [] => Some (st, tr)
  | Push c cb arg :: ops => if decide (c ∈ (st.*1).*1) then None else stack_run ops ((c, cb, arg) :: st) tr
  | Pop e :: ops => match st with [] => None | x :: st => stack_run ops st (if e then tr ++ [call_of x] else tr) end
  end.
Fixpoint cleanup_run (ops : list cleanup_op) (s : cleanups) : outcome exn cleanups :=
  match ops with
  | [] => Ret s
  | Push c cb arg :: ops => cleanup_run ops (pthread_cleanup_push_impl c cb arg s)
  | Pop e :: ops => match current s with None => Undef | Some c => s ← pthread_cleanup_pop_impl c e s; cleanup_run ops s end
  end.
Fixpoint chained (rs : gmap nat cleanup_t) (p : option nat) (st : list handler) : Prop :=
  match st with
  | [] => p = None
  | x :: st => p = Some x.1.1 /\ exists q, rs !! x.1.1 = Some (mkCleanup q x.1.2 x.2) /\ chained rs q st
  end.
Lemma chained_frame rs c r st : forall p, c ∉ (st.*1).*1 -> chained rs p st -> chained (<[c := r]> rs) p st.
Proof.
  induction st as [|x st IH]; intros p Hc; [done|]. cbn in Hc. apply not_elem_of_cons in Hc as [Hx Hc]. intros (-> & q & Hq & Hch). split; [done|].
  exists q. rewrite lookup_insert_ne by done. split; [done|by apply IH].
Qed.
Lemma run_cleanups_chained st : forall fuel p s, (length st < fuel)%nat -> chained (records s) p st ->
  run_cleanups fuel p s = Ret (mkCleanups (current s) (records s) (trace s ++ map call_of st)).
Proof.
  induction st as [|x st IH]; intros [|fuel] p s Hf Hc; [simpl in Hf; lia| |simpl in Hf; lia|].
  - cbn in Hc. subst. cbn. rewrite app_nil_r. by destruct s.
  - destruct Hc as (-> & q & Hq & Hc). cbn [run_cleanups]. rewrite Hq. rewrite IH; [|simpl in Hf; lia|done]. cbn. by rewrite <- app_assoc.
Qed.

(** C19. Cleanup handlers behave as a stack: whatever a thread pushes and pops, the handlers that
    are popped with execution run then, and at the end of the thread the remaining ones run, the
    newest first, each once. *)
Theorem cleanups_refine (ops : list cleanup_op) (st : list handler) (tr : list (Z * Z)) (rs : gmap nat cleanup_t) (Hrun : stack_run ops [] [] = Some (st, tr)) :
  exists s s', cleanup_run ops (mkCleanups None rs []) = Ret s /\ trace s = tr /\
    run_cleanups (S (length st)) (current s) s = Ret s' /\ trace s' = tr ++ map call_of st.
Proof.
  enough (Hgen : forall s0 st0, chained (records s0) (current s0) st0 -> stack_run ops st0 (trace s0) = Some (st, tr) ->
    exists s, cleanup_run ops s0 = Ret s /\ trace s = tr /\ chained (records s) (current s) st).
  { destruct (Hgen (mkCleanups None rs []) [] eq_refl Hrun) as (s & Hs & Ht & Hc).
    exists s, (mkCleanups (current s) (records s) (trace s ++ map call_of st)). split; [done|]. split; [done|]. split; [apply (run_cleanups_chained st); [lia|done]|].
    by rewrite <- Ht. }
  clear Hrun. induction ops as [|[c cb arg|e] ops IH]; intros s0 st0 Hc Hrun; cbn [stack_run cleanup_run] in *.
  - injection Hrun as <- <-. by exists s0.
  - case_decide as Hin; [done|]. apply (IH (pthread_cleanup_push_impl c cb arg s0) ((c, cb, arg) :: st0)); [|done]. split; [done|].
    exists (current s0). cbn. rewrite lookup_insert_eq. split; [done|by apply chained_frame].
  - destruct st0 as [|x st0]; [done|]. destruct Hc as (Hcur & q & Hq & Hc). rewrite Hcur. unfold pthread_cleanup_pop_impl. rewrite Hq. cbn [mbind outcome_bind].
    apply (IH _ st0); [done|]. cbn [trace routine arg]. by destruct e.
Qed.

(** ** Two threads that use a statically initialized mutex for the first time

    Each thread reads the pointer; when it is null it takes the guard, reads the pointer again,
    and, when it is still null, writes the pointer to a new object, lets the host construct it and
    releases the guard; then it uses the object. *)
Inductive point := ReadPointer | TakeGuard | ReadAgain | Write | Construct (p : nat) | Release | Use | Finished.
Record shared_state := mkShared { guard : option bool; pointer : option nat; made : gmap nat bool; points : bool -> point; used_raw : bool }.
Definition goto (t : bool) (x : point) (s : shared_state) : shared_state :=
  mkShared (guard s) (pointer s) (made s) (fun u => if decide (u = t) then x else points s u) (used_raw s).
Inductive thread_step (t : bool) : shared_state -> shared_state -> Prop :=
| step_read_null s : points s t = ReadPointer -> pointer s = None -> thread_step t s (goto t TakeGuard s)
| step_read_set s p : points s t = ReadPointer -> pointer s = Some p -> thread_step t s (goto t Use s)
| step_guard s : points s t = TakeGuard -> guard s = None -> thread_step t s (goto t ReadAgain (mkShared (Some t) (pointer s) (made s) (points s) (used_raw s)))
| step_again_set s p : points s t = ReadAgain -> pointer s = Some p -> thread_step t s (goto t Release s)
| step_again_null s : points s t = ReadAgain -> pointer s = None -> thread_step t s (goto t Write s)
| step_write s p : points s t = Write -> made s !! p = None -> thread_step t s (goto t (Construct p) (mkShared (guard s) (Some p) (<[p := false]> (made s)) (points s) (used_raw s)))
| step_construct s p : points s t = Construct p -> thread_step t s (goto t Release (mkShared (guard s) (pointer s) (<[p := true]> (made s)) (points s) (used_raw s)))
| step_release s : points s t = Release -> thread_step t s (goto t Use (mkShared None (pointer s) (made s) (points s) (used_raw s)))
| step_use s p b : points s t = Use -> pointer s = Some p -> made s !! p = Some b -> thread_step t s (goto t Finished (mkShared (guard s) (pointer s) (made s) (points s) (used_raw s || negb b))).
Definition steps : shared_state -> shared_state -> Prop := clos_refl_trans _ (fun s s' => exists t, thread_step t s s').
Definition first_use : shared_state := mkShared None None ∅ (fun _ => ReadPointer) false.

Definition inside (x : point) : Prop := match x with ReadAgain | Write | Construct _ | Release => True | _ => False end.
(** The object behind the pointer is the only one that was made. *)
Record init_inv (s : shared_state) : Prop := {
  ii_guard : forall t, inside (points s t) <-> guard s = Some t;
  ii_one : match pointer s with None => made s = ∅ | Some p => exists b, made s = {[ p := b ]} end;
  ii_null : forall t, points s t = Write -> pointer s = None;
  ii_build : forall t p, points s t = Construct p -> pointer s = Some p
}.
Lemma first_use_inv : init_inv first_use.
Proof. by split. Qed.

(** A step of [t] from inside the guard to [x]; the others are outside. *)
Lemma inv_inside t x s ptr0 mk g raw : init_inv s -> inside (points s t) -> (inside x <-> g = Some t) -> (g = Some t \/ g = None) ->
  match ptr0 with None => mk = ∅ | Some p => exists b, mk = {[ p := b ]} end -> (x = Write -> ptr0 = None) -> (forall p, x = Construct p -> ptr0 = Some p) ->
  init_inv (goto t x (mkShared g ptr0 mk (points s) raw)).
Proof.
  intros Hi Ht Hx Hg Hone Hw Hc. apply (ii_guard _ Hi) in Ht.
  assert (Hout : forall u, u <> t -> ~ inside (points s u)) by (intros u Hu Hin; apply (ii_guard _ Hi) in Hin; congruence).
  split; cbn [goto guard pointer made points].
  - intros u. case_decide as E; subst; [done|]. split; [by intros ?%Hout|]. destruct Hg as [-> | ->]; congruence.
  - done.
  - intros u. case_decide as E; subst; [done|]. intros E'. destruct (Hout u E). by rewrite E'.
  - intros u p. case_decide as E; subst; [apply Hc|]. intros E'. destruct (Hout u E). by rewrite E'.
Qed.
(** A step of [t] outside the guard, or one that takes it. *)
Lemma inv_outside t x s g raw : init_inv s -> ~ inside (points s t) -> (~ inside x /\ g = guard s) \/ (x = ReadAgain /\ guard s = None /\ g = Some t) ->
  init_inv (goto t x (mkShared g (pointer s) (made s) (points s) raw)).
Proof.
  intros Hi Ht Hx. assert (Hxx : x <> Write /\ forall p, x <> Construct p).
  { destruct Hx as [[Hx _]|[-> _]]; [|done]. split; [intros ->; by apply Hx|intros p ->; by apply Hx]. }
  split; cbn [goto guard pointer made points].
  - intros u. pose proof (ii_guard _ Hi u) as Hu. pose proof (ii_guard _ Hi t) as Hgt. case_decide as E; subst.
    + destruct Hx as [[Hx ->]|(-> & _ & ->)]; [|done]. split; [done|]. intros Hg. by apply Hgt in Hg.
    + destruct Hx as [[_ ->]|(_ & Hn & ->)]; [done|]. rewrite Hu, Hn. split; congruence.
  - apply Hi.
  - intros u. case_decide; [by destruct Hxx|]. apply (ii_null _ Hi).
  - intros u p. case_decide; [intros E; by destruct (proj2 Hxx p)|]. apply (ii_build _ Hi).
Qed.
Lemma init_step_inv t s s' : thread_step t s s' -> init_inv s -> init_inv s'.
Proof.
  intros Hstep Hi. pose proof (ii_one _ Hi) as Hone. pose proof (ii_guard _ Hi t) as Hgt. destruct s as [g ptr0 mk pts raw]. cbn in Hone, Hgt. inversion Hstep; subst; clear Hstep; cbn [points pointer made guard used_raw] in *; subst.
  - apply (inv_outside t TakeGuard _ g raw Hi); [cbn; rewrite H; by intros []|left; split; [by intros []|done]].
  - apply (inv_outside t Use _ g raw Hi); [cbn; rewrite H; by intros []|left; split; [by intros []|done]].
  - apply (inv_outside t ReadAgain _ (Some t) raw Hi); [cbn; rewrite H; by intros []|by right].
  - apply (inv_inside t Release _ (Some p) mk g raw Hi); [cbn; by rewrite H|rewrite <- Hgt, H; done|left; rewrite <- Hgt, H; done|done|done|done].
  - apply (inv_inside t Write _ None mk g raw Hi); [cbn; by rewrite H|rewrite <- Hgt, H; done|left; rewrite <- Hgt, H; done|done|done|done].
  - pose proof (ii_null _ Hi t H) as E. cbn in E. subst. rewrite Hone.
    apply (inv_inside t (Construct p) _ (Some p) (<[p := false]> ∅) g raw Hi); [cbn; by rewrite H|rewrite <- Hgt, H; done|left; rewrite <- Hgt, H; done|by exists false|done|congruence].
  - pose proof (ii_build _ Hi t p H) as E. cbn in E. subst. destruct Hone as [b ->]. rewrite insert_singleton_eq.
    apply (inv_inside t Release _ (Some p) {[p := true]} g raw Hi); [cbn; by rewrite H|rewrite <- Hgt, H; done|left; rewrite <- Hgt, H; done|by exists true|done|done].
  - apply (inv_inside t Use _ ptr0 mk None raw Hi); [cbn; by rewrite H|done|by right|done|done|done].
  - apply (inv_outside t Finished _ g (raw || negb b) Hi); [cbn; rewrite H; by intros []|left; split; [by intros []|done]].
Qed.

Lemma init_steps_inv s s' : steps s s' -> init_inv s -> init_inv s'.
Proof. induction 1 as [x y [t Hxy]|x|x y z _ IH1 _ IH2]; [by eapply init_step_inv|done|auto]. Qed.

(** C18. However two threads interleave in their first use of a statically initialized mutex, one
    object of the host is made for it: the second look at the pointer, under the guard, is enough. *)
Theorem static_object_once (s : shared_state) (p q : nat) (b c : bool) (Hs : steps first_use s) (Hp : made s !! p = Some b) (Hq : made s !! q = Some c) :
  p = q /\ pointer s = Some p.
Proof.
  pose proof (ii_one _ (init_steps_inv _ _ Hs first_use_inv)) as H1. destruct (pointer s) as [r|]; [destruct H1 as [d H1]|]; rewrite H1 in Hp, Hq; [|done].
  apply lookup_singleton_Some in Hp as [-> _], Hq as [-> _]. done.
Qed.

(** The pointer is there before the object is constructed: the second thread can use an object
    that is not initialized. *)
Theorem raw_object_used : exists s, steps first_use s /\ used_raw s = true.
Proof.
  assert (one : forall t s s' s'', thread_step t s s' -> steps s' s'' -> steps s s'') by (intros t s s' s'' H1 H2; eapply rt_trans; [apply rt_step; by exists t|done]).
  eexists. split.
  - eapply (one true); [by apply step_read_null|]. eapply (one true); [by apply step_guard|]. eapply (one true); [by apply step_again_null|].
    eapply (one true); [by apply (step_write true _ 0)|]. eapply (one false); [by eapply step_read_set|]. eapply (one false); [by eapply step_use|]. apply rt_refl.
  - done.
Qed.
Lemma static_object_once_witness : exists s, steps first_use s /\ made s !! 0%nat = Some false /\ (0%nat = 0%nat /\ pointer s = Some 0%nat).
Proof.
  assert (one : forall t s s' s'', thread_step t s s' -> steps s' s'' -> steps s s'') by (intros t s s' s'' H1 H2; eapply rt_trans; [apply rt_step; by exists t|done]).
  set (s1 := goto true TakeGuard first_use). set (s2 := goto true ReadAgain (mkShared (Some true) (pointer s1) (made s1) (points s1) (used_raw s1))). set (s3 := goto true Write s2).
  set (s4 := goto true (Construct 0) (mkShared (guard s3) (Some 0%nat) (<[0%nat := false]> (made s3)) (points s3) (used_raw s3))).
  assert (H : steps first_use s4).
  { eapply (one true); [by apply step_read_null|]. eapply (one true); [by apply step_guard|]. eapply (one true); [by apply step_again_null|].
    eapply (one true); [by apply (step_write true _ 0)|]. apply rt_refl. }
  exists s4. split; [done|]. split; [reflexivity|]. apply (static_object_once s4 0 0 false false H); reflexivity.
Defined.

(** ** Witnesses *)

(** A host whose mutexes know their kind and count how often they are locked. *)
Definition count_new (t : Z) : Z * Z := (t, 0).
Definition count_init (t : option Z) : Z * (Z * Z) := (0, count_new (default 0 t)).
Definition count_lock (m : Z * Z) : outcome exn (Z * Z * Z) := Ret ((m.1, m.2 + 1), 0).
Definition two_mutexes : memory (Z * Z) := mkMemory (<[1%nat := mkWrapper 16384 None]> {[ 2%nat := mkWrapper 0 (Some 7%nat) ]}) {[ 7%nat := (0, 3) ]}.
Lemma two_objects a w : objects two_mutexes !! a = Some w -> (a = 1%nat /\ w = mkWrapper 16384 None) \/ (a = 2%nat /\ w = mkWrapper 0 (Some 7%nat)).
Proof. cbn. intros [[<- <-]|[_ [<- <-]%lookup_singleton_Some]]%lookup_insert_Some; auto. Qed.
Lemma mutex_refines_witness : contents 0 1 2 count_new two_mutexes 1 = Some (1, 0) /\ exists s',
  mutex_operation true id 0 1 2 count_init count_lock 1 two_mutexes = Ret (s', tr true id 0) /\ wf s' /\ contents 0 1 2 count_new s' 1 = Some (1, 1) /\
  forall b, b <> 1%nat -> contents 0 1 2 count_new s' b = contents 0 1 2 count_new two_mutexes b.
Proof.
  split; [reflexivity|]. cut (exists m, contents 0 1 2 count_new two_mutexes 1 = Some m /\ match count_lock m with
    | Ret (m', ret) => exists s', mutex_operation true id 0 1 2 count_init count_lock 1 two_mutexes = Ret (s', tr true id ret) /\ wf s' /\ contents 0 1 2 count_new s' 1 = Some m' /\
        forall b, b <> 1%nat -> contents 0 1 2 count_new s' b = contents 0 1 2 count_new two_mutexes b | _ => True end).
  { intros (m & Hm & H). injection Hm as <-. exact H. }
  apply (mutex_refines true id 0 1 2 count_init count_new two_mutexes 1 (mkWrapper 16384 None) count_lock).
  - intros n Hn E. cbn in E. subst n. revert Hn. apply (bool_decide_unpack _). by vm_compute.
  - done.
  - split.
    + intros a w p [[-> ->]|[-> ->]]%two_objects Hp; [done|]. cbn in Hp. injection Hp as <-. by eexists.
    + by intros a b w v p [[-> ->]|[-> ->]]%two_objects [[-> ->]|[-> ->]]%two_objects.
  - reflexivity.
Defined.
Lemma cleanups_refine_witness : exists s s', cleanup_run [Push 1 100 5; Push 2 200 6; Pop true; Push 3 300 7] (mkCleanups None ∅ []) = Ret s /\ trace s = [(200, 6)] /\
  run_cleanups 3 (current s) s = Ret s' /\ trace s' = [(200, 6)] ++ [(300, 7); (100, 5)].
Proof. apply (cleanups_refine [Push 1 100 5; Push 2 200 6; Pop true; Push 3 300 7] [(3%nat, 300, 7); (1%nat, 100, 5)] [(200, 6)] ∅). reflexivity. Defined.
End Pthreads.
