(* ===== verification/Assets.v ===== *)
(** * Assets of the game (mcpelauncher-client)

    The asset functions of Android (fake_assetmanager.cpp) on top of [FileUtil::readFile]:
    an asset is a file that is read as a whole, with the position of the next read.  Assets are
    numbered by their addresses.  Opening a file, the contents of a directory and the counts of
    [read] are the file system's, which is a parameter. *)

From S2P Require Import Prelude CxxString Paths.
From Stdlib Require Import ZArith Ascii Lia.
From stdpp Require Import base gmap strings numbers list.

Open Scope Z_scope.

Module Assets.

(** ** State *)
Record AAsset := mkAsset { buffer : bytes; offset : Z }.
(** The names a directory lists, and the position of the next one. *)
Record AAssetDir := mkDir { entries : list bytes; position : nat }.
Record assets := mkAssets { open_assets : gmap nat AAsset; open_dirs : gmap nat AAssetDir }.
Definition FakeAssetManager (rootDir : bytes) : bytes := Paths.with_slash rootDir.

Section Manager.
Context (open_file : bytes -> option Paths.open_file) (reads : nat -> Z) (opendir : bytes -> option (list bytes)).
Context (rootDir : bytes).

(** [None] is a null pointer. *)
Definition AAssetManager_open (fuel : nat) (filename : bytes) (s : assets) : outcome exn (assets * option nat) :=
  content ← Paths.readFile fuel reads (open_file (rootDir ++ filename));
  match content with
  | None => Ret (s, None)
  | Some content => let p := fresh (dom (open_assets s)) in Ret (mkAssets (<[p := mkAsset content 0]> (open_assets s)) (open_dirs s), Some p)
  end.
Definition AAssetManager_openDir (dirname : bytes) (s : assets) : assets * option nat :=
  match opendir (rootDir ++ dirname) with
  | None => (s, None)
  | Some names => let p := fresh (dom (open_dirs s)) in (mkAssets (open_assets s) (<[p := mkDir names 0]> (open_dirs s)), Some p)
  end.
End Manager.

(** A pointer that is not of an open asset is undefined behaviour. *)
Definition on_asset {A} (f : AAsset -> outcome exn (AAsset * A)) (p : nat) (s : assets) : outcome exn (assets * A) :=
  match open_assets s !! p with
  | None => Undef
  | Some a => '(a, r) ← f a; Ret (mkAssets (<[p := a]> (open_assets s)) (open_dirs s), r)
  end.
Definition AAsset_close (p : nat) (s : assets) : outcome exn assets :=
  match open_assets s !! p with None => Undef | Some _ => Ret (mkAssets (delete p (open_assets s)) (open_dirs s)) end.

Definition size (a : AAsset) : Z := Z.of_nat (length (buffer a)).
(** The bytes that are copied, and the result. *)
Definition read_asset (count : Z) (a : AAsset) : outcome exn (AAsset * (bytes * Z)) :=
  if decide (size a < offset a) then Ret (a, ([], 0))
  else
    let n := Z.min count (size a - offset a) in
    Ret (mkAsset (buffer a) (offset a + n), (take (Z.to_nat n) (drop (Z.to_nat (offset a)) (buffer a)), wraps 32 n)).
Definition AAsset_read (p : nat) (count : Z) : assets -> outcome exn (assets * (bytes * Z)) := on_asset (read_asset count) p.

Definition SEEK_SET : Z := 0.
Definition SEEK_CUR : Z := 1.
Definition SEEK_END : Z := 2.
Definition EINVAL : Z := 22.
(** The new position is computed and returned; the asset keeps its position. *)
Definition seek_asset (off whence : Z) (a : AAsset) : outcome exn (AAsset * Z) :=
  let newOffset := wrapu 64 (if decide (whence = SEEK_SET) then off
                             else if decide (whence = SEEK_CUR) then offset a + off
                             else if decide (whence = SEEK_END) then size a - off else 0) in
  Ret (a, if decide (wraps 64 newOffset < 0) then - EINVAL else newOffset).
Definition AAsset_seek64 (p : nat) (off whence : Z) : assets -> outcome exn (assets * Z) := on_asset (seek_asset off whence) p.
Definition AAsset_getLength64 (p : nat) : assets -> outcome exn (assets * Z) := on_asset (fun a => Ret (a, size a)) p.
Definition AAsset_getRemainingLength64 (p : nat) : assets -> outcome exn (assets * Z) := on_asset (fun a => Ret (a, wraps 64 (wrapu 64 (size a - offset a)))) p.
Definition AAsset_getBuffer (p : nat) : assets -> outcome exn (assets * bytes) := on_asset (fun a => Ret (a, buffer a)) p.

(** ** Directories *)
Definition AAssetDir_close (p : option nat) (s : assets) : outcome exn assets :=
  match p with
  | None => Ret s
  | Some p => match open_dirs s !! p with None => Undef | Some _ => Ret (mkAssets (open_assets s) (delete p (open_dirs s))) end
  end.
Definition AAssetDir_rewind (p : nat) (s : assets) : outcome exn assets :=
  match open_dirs s !! p with None => Undef | Some d => Ret (mkAssets (open_assets s) (<[p := mkDir (entries d) 0]> (open_dirs s))) end.
Definition AAssetDir_getNextFileName (p : option nat) (s : assets) : outcome exn (assets * option bytes) :=
  match p with
  | None => Ret (s, None)
  | Some p =>
      match open_dirs s !! p with
      | None => Undef
      | Some d => match entries d !! position d with
                  | None => Ret (s, None)
                  | Some n => Ret (mkAssets (open_assets s) (<[p := mkDir (entries d) (S (position d))]> (open_dirs s)), Some n)
                  end
      end
  end.

(** ** Reading an asset *)
Fixpoint read_all (p : nat) (counts : list Z) (s : assets) : outcome exn (assets * bytes) :=
  match counts with
  | [] => Ret (s, [])
  | c :: counts => '(s, r) ← AAsset_read p c s; '(s, rest) ← read_all p counts s; Ret (s, r.1 ++ rest)
  end.
Definition sum (l : list Z) : Z := foldr Z.add 0 l.
Definition asset_ok (a : AAsset) : Prop := 0 <= offset a <= size a.

Lemma read_asset_ok a c : asset_ok a -> 0 <= c -> exists a' r, read_asset c a = Ret (a', r) /\ asset_ok a' /\ buffer a' = buffer a /\
  offset a' = Z.min (offset a + c) (size a) /\ r.1 = take (Z.to_nat c) (drop (Z.to_nat (offset a)) (buffer a)).
Proof.
  intros Ha Hc. unfold asset_ok, size in *. unfold read_asset, size. rewrite decide_False by lia. eexists _, _. split; [done|]. cbn [buffer offset fst].
  split; [lia|]. split; [done|]. split; [lia|]. destruct (decide (c <= Z.of_nat (length (buffer a)) - offset a)).
  - by rewrite Z.min_l by lia.
  - rewrite Z.min_r by lia. rewrite !take_ge; [done|rewrite length_drop; lia..].
Qed.

(** Reads in portions of any sizes hand out the asset in order, without gaps and without
    reading outside of it: together they are the next bytes of the file, and reading as many
    bytes as the file has, or more, gives all of it. *)
Theorem reads_in_order (p : nat) (counts : list Z) (s : assets) (a : AAsset) (Hp : open_assets s !! p = Some a) (Ha : asset_ok a) (Hc : Forall (fun c => 0 <= c) counts) :
  exists s' a', read_all p counts s = Ret (s', take (Z.to_nat (sum counts)) (drop (Z.to_nat (offset a)) (buffer a))) /\
    open_assets s' !! p = Some a' /\ asset_ok a' /\ buffer a' = buffer a /\ offset a' = Z.min (offset a + sum counts) (size a).
Proof.
  revert s a Hp Ha. induction Hc as [|c counts Hc Hcs IH]; intros s a Hp Ha; cbn [read_all sum foldr].
  { exists s, a. rewrite Z.add_0_r, Z.min_l by apply Ha. done. }
  destruct (read_asset_ok a c Ha Hc) as (a1 & r & Hr & Ha1 & Hb1 & Ho1 & Hr1). unfold AAsset_read, on_asset. rewrite Hp, Hr. cbn [mbind outcome_bind].
  destruct (IH (mkAssets (<[p := a1]> (open_assets s)) (open_dirs s)) a1) as (s' & a' & -> & Hp' & Ha' & Hb' & Ho'); [cbn; by rewrite lookup_insert_eq|done|].
  exists s', a'. cbn [mbind outcome_bind]. rewrite Hr1, Hb1. assert (Hs : 0 <= sum counts) by (clear -Hcs; unfold sum; induction Hcs as [|x l Hx _ IH]; cbn; [done|cbn in Hx; lia]).
  split; [|split; [done|]; split; [done|]; split; [congruence|]; rewrite Ho', Ho1; unfold size in *; rewrite Hb1; fold (sum counts); lia].
  fold (sum counts). rewrite (Z2Nat.inj_add c) by lia. rewrite <- take_take_drop. do 2 f_equal. rewrite drop_drop, Ho1. unfold asset_ok, size in *.
  destruct (decide (offset a + c <= Z.of_nat (length (buffer a)))) as [Hle|Hgt].
  - rewrite Z.min_l by lia. by rewrite Z2Nat.inj_add by lia.
  - do 2 f_equal. rewrite Z.min_r by lia. by rewrite !drop_ge by lia.
Qed.

(** A seek does not move: the next read continues where the last one ended. *)
Theorem seek_does_not_move (p : nat) (off whence : Z) (s s' : assets) (r : Z) (H : AAsset_seek64 p off whence s = Ret (s', r)) :
  open_assets s' !! p = open_assets s !! p.
Proof.
  unfold AAsset_seek64, on_asset in H. destruct (open_assets s !! p) as [a|] eqn:E; [|done]. injection H as <- _. cbn. by rewrite lookup_insert_eq.
Qed.
(** A position before the end, which is a negative offset, is reported behind it. *)
Lemma seek_end_mirrored : exists s', AAsset_seek64 0 (-4) SEEK_END (mkAssets {[ 0%nat := mkAsset (lit "0123456789") 0 ]} ∅) = Ret (s', 14).
Proof. by eexists. Qed.

Lemma reads_in_order_witness : exists s' a', read_all 0 [3; 0; 4; 100] (mkAssets {[ 0%nat := mkAsset (lit "0123456789") 0 ]} ∅) = Ret (s', lit "0123456789") /\
  open_assets s' !! 0%nat = Some a' /\ asset_ok a' /\ buffer a' = lit "0123456789" /\ offset a' = 10.
Proof. apply (reads_in_order 0 [3; 0; 4; 100] _ (mkAsset (lit "0123456789") 0)); [reflexivity|by vm_compute|by repeat constructor]. Defined.
End Assets.
