(* ===== verification/Epoll.v ===== *)
(** * epoll on kqueue (epoll-shim)

    [epoll_ctl] and [epoll_wait] of epoll.c, for hosts that have [kqueue].  The flags of a
    descriptor are stored in the queue itself, one user event for each bit.  What [kevent] does
    with user events and filters is modelled; whether the host accepts a filter for a
    descriptor, the kind of a descriptor and the results of [poll] are parameters. *)

From S2P Require Import Prelude.
From Stdlib Require Import ZArith Lia.
From stdpp Require Import base gmap strings numbers list.

Open Scope Z_scope.

Module Epoll.

(** ** The queue of the host *)
Record filter := mkFilter { enabled : bool; edge : bool; udata : Z }.
(** User events by their identifiers; filters by descriptor, [true] for reading. *)
Record kqueue := mkQueue { users : gset Z; filters : gmap (Z * bool) filter }.
Definition ENOENT : Z := 2.
Definition EBADF : Z := 9.
Definition EINVAL : Z := 22.

(** ** Flags of a descriptor *)
Definition KEY_BITS : Z := 20.
Definition VAL_BITS : nat := 12.
Definition in_range (bits z : Z) : bool := bool_decide (Z.land z (Z.lnot (Z.shiftl 1 bits - 1)) = 0).
Definition kev_key (key : Z) (i : nat) : Z := Z.lor key (Z.shiftl (Z.shiftl 1 (Z.of_nat i)) KEY_BITS).
(** Each bit is added, and deleted again when it is not set. *)
Definition save_bit (key val : Z) (u : gset Z) (i : nat) : gset Z :=
  let u := {[ kev_key key i ]} ∪ u in
  if Z.testbit val (Z.of_nat i) then u else u ∖ {[ kev_key key i ]}.
(** The result, negative for an error; [None] is a descriptor that is not a queue. *)
Definition kqueue_save_state (q : option kqueue) (key val : Z) : option kqueue * Z :=
  if negb (in_range KEY_BITS key) || negb (in_range (Z.of_nat VAL_BITS) val) then (q, - EINVAL)
  else match q with
       | None => (None, - EBADF)
       | Some k => (Some (mkQueue (foldl (save_bit key val) (users k) (seq 0 VAL_BITS)) (filters k)), 0)
       end.
(** The answers for the bits: 0 for an event that exists, [ENOENT] otherwise. *)
Definition load_bits (u : gset Z) (key : Z) : Z :=
  foldl (fun v i => if decide (kev_key key i ∈ u) then Z.lor v (Z.shiftl 1 (Z.of_nat i)) else v) 0 (seq 0 VAL_BITS).
Definition kqueue_load_state (q : option kqueue) (key : Z) : Z + Z :=
  if negb (in_range KEY_BITS key) then inl (- EINVAL)
  else match q with None => inl (- EBADF) | Some k => inr (load_bits (users k) key) end.

Definition EPOLLIN : Z := 1.
Definition EPOLLPRI : Z := 2.
Definition EPOLLOUT : Z := 4.
Definition EPOLLERR : Z := 8.
Definition EPOLLHUP : Z := 16.
Definition EPOLLRDHUP : Z := 8192.
Definition EPOLLET : Z := 2 ^ 31.
Definition REGISTERED : Z := 1.
Definition S_EPOLLIN : Z := 2.
Definition S_EPOLLOUT : Z := 4.
Definition S_EPOLLRDHUP : Z := 8.
Definition S_EPOLLPRI : Z := 16.
Definition S_ISFIFO : Z := 64.
Definition S_ISSOCK : Z := 128.
Definition has (flags bit : Z) : bool := bool_decide (Z.land flags bit <> 0).
(** [SET_FLAG] of the two branches. *)
Definition or_flag (events : Z) (c : Z * Z) (flags : Z) : Z := if has events c.1 then Z.lor flags c.2 else flags.
Definition set_flag (events : Z) (c : Z * Z) (flags : Z) : Z := if has events c.1 then Z.lor flags c.2 else Z.land flags (Z.lnot c.2).
Definition flag_table : list (Z * Z) := [(EPOLLIN, S_EPOLLIN); (EPOLLOUT, S_EPOLLOUT); (EPOLLRDHUP, S_EPOLLRDHUP); (EPOLLPRI, S_EPOLLPRI)].

(** ** [epoll_ctl] *)
Inductive change := EvAdd (f : filter) | EvDelete | EvEnable (f : filter).
Inductive kind := Fifo | Sock | OtherKind.
Section Ctl.
(** The error with which the host answers the registration of a filter, how a change without
    [EV_ADD] combines with the filter that is there, and what [fstat] says. *)
Context (accepts : Z -> bool -> Z) (modify : filter -> filter -> filter) (fstat : Z -> Z + kind).

Definition apply_change (fd : Z) (rd : bool) (c : change) (fs : gmap (Z * bool) filter) : gmap (Z * bool) filter * Z :=
  match c with
  | EvAdd f => if decide (accepts fd rd = 0) then (<[(fd, rd) := f]> fs, 0) else (fs, accepts fd rd)
  | EvDelete => match fs !! (fd, rd) with Some _ => (delete (fd, rd) fs, 0) | None => (fs, ENOENT) end
  | EvEnable f => match fs !! (fd, rd) with Some old => (<[(fd, rd) := modify old f]> fs, 0) | None => (fs, ENOENT) end
  end.
Definition epoll_event : Type := Z * Z.
Definition filter_for (ev : epoll_event) (bit : Z) : filter := mkFilter (has ev.1 bit) (has ev.1 EPOLLET) ev.2.
Definition EPOLL_CTL_ADD : Z := 1.
Definition EPOLL_CTL_DEL : Z := 2.
Definition EPOLL_CTL_MOD : Z := 3.
Definition allowed_events : Z := Z.lor (Z.lor (Z.lor (Z.lor (Z.lor (Z.lor EPOLLIN EPOLLOUT) EPOLLHUP) EPOLLRDHUP) EPOLLERR) EPOLLPRI) EPOLLET.
Definition bad_call (op : Z) (ev : option epoll_event) : bool :=
  match ev with None => negb (bool_decide (op = EPOLL_CTL_DEL)) | Some ev => has ev.1 (Z.lnot allowed_events) end.
(** The changes of the two filters and the new flags, or an error. *)
Definition plan (op : Z) (ev : option epoll_event) (flags : Z) : Z + (change * change * Z) :=
  if decide (op = EPOLL_CTL_ADD) then
    match ev with
    | None => inl EINVAL
    | Some ev => inr (EvAdd (filter_for ev EPOLLIN), EvAdd (filter_for ev EPOLLOUT), foldl (fun f c => or_flag ev.1 c f) REGISTERED flag_table)
    end
  else if decide (op = EPOLL_CTL_DEL) then
    if has flags REGISTERED then inr (EvDelete, EvDelete, 0) else inl ENOENT
  else if decide (op = EPOLL_CTL_MOD) then
    if has flags REGISTERED then
      match ev with
      | None => inl EINVAL
      | Some ev => inr (EvEnable (filter_for ev EPOLLIN), EvEnable (filter_for ev EPOLLOUT), foldl (fun f c => set_flag ev.1 c f) flags flag_table)
      end
    else inl ENOENT
  else inl EINVAL.
(** [errno] after the changes of the filters; that of the second is ignored when it is [EINVAL]. *)
Definition change_error (d0 d1 : Z) : option Z := if decide (d0 <> 0) then Some d0 else if decide (d1 = EINVAL) then None else if decide (d1 <> 0) then Some d1 else None.

(** The result is [inl errno] for a return of -1. *)
Definition epoll_ctl (q : option kqueue) (op fd2 : Z) (ev : option epoll_event) : option kqueue * (Z + unit) :=
  if bad_call op ev then (q, inl EINVAL)
  else if bool_decide (fd2 < 0) || negb (in_range KEY_BITS fd2) then (q, inl EBADF)
  else match kqueue_load_state q fd2 with
       | inl e => (q, inl e)
       | inr flags =>
           match plan op ev flags with
           | inl e => (q, inl e)
           | inr (c0, c1, flags) =>
               let '(q, e) := kqueue_save_state q fd2 flags in
               if decide (e < 0) then (q, inl e)
               else match q with
                    | None => (None, inl EBADF)
                    | Some k =>
                        let '(fs, d0) := apply_change fd2 true c0 (filters k) in
                        let '(fs, d1) := apply_change fd2 false c1 fs in
                        let q := Some (mkQueue (users k) fs) in
                        match change_error d0 d1 with
                        | Some e => (q, inl e)
                        | None =>
                            match fstat fd2 with
                            | inl e => (q, inl e)
                            | inr kd =>
                                let flags := match kd with Fifo => Z.lor flags S_ISFIFO | Sock => Z.lor flags S_ISSOCK | OtherKind => flags end in
                                let '(q, e) := kqueue_save_state q fd2 flags in
                                if decide (e < 0) then (q, inl e) else (q, inr tt)
                            end
                        end
                    end
           end
       end.
End Ctl.

(** ** [epoll_wait] *)
Definition EV_EOF : Z := 32768.
Definition EV_ERROR : Z := 16384.
Definition EV_OOBAND : Z := 8192.
(** An event of the host: the filter is [Some true] for reading, [Some false] for writing. *)
Record kevent := mkEvent { ident : Z; kfilter : option bool; kflags : Z; fflags : Z; kdata : Z; kudata : Z }.
Definition POLLIN : Z := 1.
Definition POLLOUT : Z := 4.
Definition POLLHUP : Z := 16.
(** What an end of file means; [revents] is the answer of [poll]; [None] is a return of -1. *)
Definition eof_events (flags : Z) (revents : option Z) (e : kevent) (events : Z) : option Z :=
  if has flags S_ISFIFO then
    match kfilter e with
    | Some true => let events := if decide (kdata e = 0) then Z.land events (Z.lnot EPOLLIN) else events in Some (Z.lor events EPOLLHUP)
    | Some false => Some (Z.lor events EPOLLERR)
    | None => None
    end
  else if has flags S_ISSOCK then
    match kfilter e with
    | None => None
    | Some rd =>
        let x := if rd then (if has flags S_EPOLLRDHUP then Z.lor EPOLLIN EPOLLRDHUP else EPOLLIN) else EPOLLOUT in
        let x := match revents with
                 | None => x
                 | Some r =>
                     let x := if has r POLLHUP then
                                let x := if has flags S_EPOLLIN then Z.lor x EPOLLIN else x in
                                let x := if has flags S_EPOLLRDHUP then Z.lor x EPOLLRDHUP else x in
                                Z.lor x EPOLLHUP
                              else x in
                     let x := if has r POLLIN && has flags S_EPOLLIN then Z.lor x EPOLLIN else x in
                     if has r POLLOUT && has flags S_EPOLLOUT then Z.lor x EPOLLOUT else x
                 end in
        Some (Z.lor events x)
    end
  else Some (Z.lor events EPOLLHUP).
Definition translate_event (flags : Z) (revents : option Z) (e : kevent) : option epoll_event :=
  let events := if has (kflags e) EV_OOBAND && has flags S_EPOLLPRI then EPOLLPRI else 0 in
  let events := match kfilter e with Some true => Z.lor events EPOLLIN | Some false => Z.lor events EPOLLOUT | None => events end in
  let events := if has (kflags e) EV_ERROR then Z.lor events EPOLLERR else events in
  if has (kflags e) EV_EOF then
    let events := if decide (fflags e <> 0) then Z.lor events EPOLLERR else events in
    events ← eof_events flags revents e events; Some (events, kudata e)
  else Some (events, kudata e).
(** The time limit in milliseconds, as seconds and nanoseconds. *)
Definition timeout (to : Z) : option (Z * Z) := if decide (0 <= to) then Some (to / 1000, to mod 1000 * 1000 * 1000) else None.
(** At most 32 events are taken from the host at a time. *)
Definition state_of (q : option kqueue) (fd : Z) : Z := match kqueue_load_state q fd with inr f => f | inl _ => 0 end.
Definition epoll_wait (q : option kqueue) (host : Z -> option (Z * Z) -> Z + list kevent) (poll : Z -> option Z) (cnt to : Z) : Z + list epoll_event :=
  if decide (cnt < 1) then inl EINVAL
  else match host (Z.min cnt 32) (timeout to) with
       | inl e => inl e
       | inr evs => match mapM (fun e => translate_event (state_of q (ident e)) (poll (ident e)) e) evs with Some l => inr l | None => inl 0 end
       end.

(** ** What is saved is loaded *)
Definition key_ok (key : Z) : Prop := 0 <= key < 2 ^ 20.
Lemma kev_key_sum key i : key_ok key -> kev_key key i = 2 ^ Z.of_nat i * 2 ^ 20 + key.
Proof. intros H. unfold kev_key, KEY_BITS. rewrite Z.lor_comm, lor_shiftl_low by (lia || done). by rewrite Z.shiftl_1_l. Qed.
Lemma kev_key_inj key key' i i' : key_ok key -> key_ok key' -> kev_key key i = kev_key key' i' -> key = key' /\ i = i'.
Proof.
  intros H H'. rewrite !kev_key_sum by done. unfold key_ok in *. intros E.
  assert (Hk : key = key').
  { assert (Em : (2 ^ Z.of_nat i * 2 ^ 20 + key) mod 2 ^ 20 = (2 ^ Z.of_nat i' * 2 ^ 20 + key') mod 2 ^ 20) by (by rewrite E).
    rewrite !(Z.add_comm (_ * _)), !Z.mod_add, !Z.mod_small in Em by lia. done. }
  split; [done|]. subst. assert (Hp : 2 ^ Z.of_nat i = 2 ^ Z.of_nat i') by lia. apply Z.pow_inj_r in Hp; lia.
Qed.
Lemma save_bits_elem key val (u : gset Z) n k : key_ok key -> k ∈ foldl (save_bit key val) u (seq 0 n) <->
  (exists i, (i < n)%nat /\ k = kev_key key i /\ Z.testbit val (Z.of_nat i) = true) \/ (k ∈ u /\ forall i, (i < n)%nat -> k <> kev_key key i).
Proof.
  intros Hk. induction n as [|n IH]; [cbn; split; [intros H; right; split; [done|lia]|intros [(i & Hi & _)|[H _]]; [lia|done]]|].
  rewrite seq_S, foldl_app. cbn [foldl Nat.add]. unfold save_bit at 1. destruct (Z.testbit val (Z.of_nat n)) eqn:Eb.
  - rewrite elem_of_union, elem_of_singleton, IH. split.
    + intros [->|[(i & Hi & ->& Hb)|[Hu Hn]]]; [left; by exists n; auto|left; exists i; auto with lia|].
      destruct (decide (k = kev_key key n)) as [->|Hne]; [left; exists n; auto|right; split; [done|]]. intros i Hi. destruct (decide (i = n)) as [->|]; [done|apply Hn; lia].
    + intros [(i & Hi & -> & Hb)|[Hu Hn]]; [destruct (decide (i = n)) as [->|]; [by left|right; left; exists i; auto with lia]|right; right; split; [done|]; intros i Hi; apply Hn; lia].
  - rewrite elem_of_difference, elem_of_union, elem_of_singleton, IH. split.
    + intros [[->|[(i & Hi & -> & Hb)|[Hu Hn]]] Hne]; [done|left; exists i; auto with lia|right; split; [done|]]. intros i Hi. destruct (decide (i = n)) as [->|]; [done|apply Hn; lia].
    + intros [(i & Hi & -> & Hb)|[Hu Hn]].
      * destruct (decide (i = n)) as [->|Hne]; [congruence|]. split; [right; left; exists i; auto with lia|]. intros E. by apply kev_key_inj in E as [_ ?].
      * split; [right; right; split; [done|]; intros i Hi; apply Hn; lia|apply Hn; lia].
Qed.
Lemma load_bits_spec (u : gset Z) key n j : 0 <= j -> Z.testbit (foldl (fun v i => if decide (kev_key key i ∈ u) then Z.lor v (Z.shiftl 1 (Z.of_nat i)) else v) 0 (seq 0 n)) j
  = bool_decide (j < Z.of_nat n) && bool_decide (kev_key key (Z.to_nat j) ∈ u).
Proof.
  intros Hj. induction n as [|n IH]; [cbn; rewrite Z.bits_0, bool_decide_eq_false_2 by lia; done|]. rewrite seq_S, foldl_app. cbn [foldl Nat.add].
  set (v := foldl _ 0 (seq 0 n)) in *. assert (Hlor : Z.testbit (if decide (kev_key key n ∈ u) then Z.lor v (Z.shiftl 1 (Z.of_nat n)) else v) j =
    Z.testbit v j || (bool_decide (j = Z.of_nat n) && bool_decide (kev_key key n ∈ u))).
  { destruct (decide (kev_key key n ∈ u)) as [Hu|Hu]; cycle 1; [by rewrite (bool_decide_eq_false_2 _ Hu), andb_false_r, orb_false_r|]. rewrite (bool_decide_eq_true_2 _ Hu), andb_true_r, Z.lor_spec, Z.shiftl_1_l.
    f_equal. rewrite Z.pow2_bits_eqb by lia. destruct (Z.eqb_spec (Z.of_nat n) j); [by rewrite bool_decide_eq_true_2|by rewrite bool_decide_eq_false_2 by congruence]. }
  rewrite Hlor, IH. destruct (decide (j = Z.of_nat n)) as [->|Hne].
  - rewrite Nat2Z.id. rewrite (bool_decide_eq_false_2 (Z.of_nat n < Z.of_nat n)), (bool_decide_eq_true_2 (Z.of_nat n < _)), (bool_decide_eq_true_2 (Z.of_nat n = _)) by lia. done.
  - rewrite (bool_decide_eq_false_2 (j = _)) by done. rewrite andb_false_l, orb_false_r. f_equal. apply bool_decide_ext. lia.
Qed.
Lemma load_save u key val : key_ok key -> 0 <= val < 2 ^ 12 -> load_bits (foldl (save_bit key val) u (seq 0 VAL_BITS)) key = val.
Proof.
  intros Hk Hv. apply Z.bits_inj'. intros j Hj. unfold load_bits. rewrite load_bits_spec by done. unfold VAL_BITS.
  destruct (decide (j < 12)) as [Hlt|Hge].
  - rewrite bool_decide_eq_true_2 by lia. cbn [andb]. apply eq_iff_eq_true. rewrite bool_decide_eq_true, save_bits_elem by done. split.
    + intros [(i & Hi & E & Hb)|[_ Hn]]; [apply kev_key_inj in E as [_ <-]; [by rewrite Z2Nat.id in Hb by lia|done|done]|destruct (Hn (Z.to_nat j)); [lia|done]].
    + intros Hb. left. exists (Z.to_nat j). rewrite Z2Nat.id by lia. split; [lia|done].
  - rewrite bool_decide_eq_false_2 by lia. symmetry. destruct (decide (val = 0)) as [->|Hnz]; [apply Z.bits_0|].
    apply Z.bits_above_log2; [lia|]. assert (Z.log2 val < 12) by (apply Z.log2_lt_pow2; lia). lia.
Qed.
Lemma load_save_other u key key' val : key_ok key -> key_ok key' -> key' <> key -> load_bits (foldl (save_bit key val) u (seq 0 VAL_BITS)) key' = load_bits u key'.
Proof.
  intros Hk Hk' Hne. apply Z.bits_inj'. intros j Hj. unfold load_bits. rewrite !load_bits_spec by done. f_equal. apply bool_decide_ext. rewrite save_bits_elem by done. split.
  - intros [(i & _ & E & _)|[H _]]; [by apply kev_key_inj in E as [? _]|done].
  - intros H. right. split; [done|]. intros i _ E. by apply kev_key_inj in E as [? _].
Qed.
Lemma in_range_spec bits z : 0 <= bits -> 0 <= z -> in_range bits z = true <-> z < 2 ^ bits.
Proof.
  intros Hb Hz. unfold in_range. rewrite bool_decide_eq_true, Z.shiftl_1_l.
  replace (2 ^ bits - 1) with (Z.ones bits) by (rewrite Z.ones_equiv; lia). rewrite <- Z.ldiff_land, Z.ldiff_ones_r, Z.shiftl_mul_pow2, Z.shiftr_div_pow2 by done.
  pose proof (Z.pow_pos_nonneg 2 bits ltac:(lia) Hb) as Hp. split.
  - intros E. apply Z.mul_eq_0 in E as [E|E]; [|lia]. apply Z.div_small_iff in E; lia.
  - intros H. by rewrite Z.div_small by lia.
Qed.
Lemma key_in_range fd : key_ok fd -> bool_decide (fd < 0) || negb (in_range KEY_BITS fd) = false.
Proof.
  intros [H0 H1]. rewrite bool_decide_eq_false_2 by lia. cbn [orb]. apply negb_false_iff. apply in_range_spec; unfold KEY_BITS; lia.
Qed.

(** ** Registrations *)
Definition small (z : Z) : Prop := 0 <= z < 2 ^ 12.
Lemma small_bits z : small z <-> 0 <= z /\ forall j, 12 <= j -> Z.testbit z j = false.
Proof.
  split.
  - intros [H0 H1]. split; [done|]. intros j Hj. destruct (decide (z = 0)) as [->|Hnz]; [apply Z.bits_0|].
    apply Z.bits_above_log2; [done|]. assert (Z.log2 z < 12) by (apply Z.log2_lt_pow2; lia). lia.
  - intros [H0 H1]. split; [done|]. destruct (decide (z = 0)) as [->|Hnz]; [done|]. apply Z.log2_lt_pow2; [lia|].
    destruct (decide (Z.log2 z < 12)) as [|Hge]; [done|]. pose proof (Z.bit_log2 z ltac:(lia)) as Hb. by rewrite H1 in Hb by lia.
Qed.
Lemma small_lor a b : small a -> small b -> small (Z.lor a b).
Proof.
  rewrite !small_bits. intros [Ha Ha'] [Hb Hb']. split; [by apply Z.lor_nonneg|]. intros j Hj. by rewrite Z.lor_spec, Ha', Hb'.
Qed.
Lemma small_land a b : small a -> small (Z.land a b).
Proof. rewrite !small_bits. intros [Ha Ha']. split; [apply Z.land_nonneg; by left|]. intros j Hj. by rewrite Z.land_spec, Ha'. Qed.
Lemma load_small u key : small (load_bits u key).
Proof.
  assert (H : forall n, (n <= 12)%nat -> small (foldl (fun v i => if decide (kev_key key i ∈ u) then Z.lor v (Z.shiftl 1 (Z.of_nat i)) else v) 0 (seq 0 n))).
  { induction n as [|n IH]; intros Hn; [done|]. rewrite seq_S, foldl_app. cbn [foldl Nat.add]. specialize (IH ltac:(lia)). case_decide; [|done].
    apply small_lor; [done|]. rewrite Z.shiftl_1_l. split; [lia|]. apply Z.pow_lt_mono_r; lia. }
  by apply H.
Qed.
Lemma save_ok k key val : key_ok key -> small val ->
  kqueue_save_state (Some k) key val = (Some (mkQueue (foldl (save_bit key val) (users k) (seq 0 VAL_BITS)) (filters k)), 0).
Proof.
  intros Hk Hv. unfold kqueue_save_state. assert (Hr : in_range KEY_BITS key = true) by (apply in_range_spec; unfold key_ok, KEY_BITS in *; lia).
  assert (Hr' : in_range (Z.of_nat VAL_BITS) val = true) by (apply in_range_spec; unfold small, VAL_BITS in *; lia). by rewrite Hr, Hr'.
Qed.
Lemma load_ok k key : key_ok key -> kqueue_load_state (Some k) key = inr (load_bits (users k) key).
Proof. intros Hk. unfold kqueue_load_state. assert (Hr : in_range KEY_BITS key = true) by (apply in_range_spec; unfold key_ok, KEY_BITS in *; lia). by rewrite Hr. Qed.

(** The flags that stand for a set of events, read back bit by bit. *)
Definition flags_for (f : Z) (ev : epoll_event) : Prop := has f REGISTERED = true /\ Forall (fun c => has f c.2 = has ev.1 c.1) flag_table.
Lemma has_bit f i : 0 <= i -> has f (2 ^ i) = Z.testbit f i.
Proof.
  intros Hi. unfold has. rewrite Z.land_comm. destruct (Z.testbit f i) eqn:Eb.
  - apply bool_decide_eq_true_2. intros E. assert (Ht : Z.testbit (Z.land (2 ^ i) f) i = false) by (by rewrite E, Z.bits_0). by rewrite Z.land_spec, Z.pow2_bits_true, Eb in Ht.
  - apply bool_decide_eq_false_2. intros Hne. apply Hne. apply Z.bits_inj'. intros j Hj. rewrite Z.land_spec, Z.bits_0, Z.pow2_bits_eqb by done.
    destruct (Z.eqb_spec i j) as [<-|]; [by rewrite Eb|done].
Qed.
Lemma has_lor f g b : has (Z.lor f g) b = has f b || has g b.
Proof.
  unfold has. rewrite Z.land_lor_distr_l. apply eq_iff_eq_true. rewrite orb_true_iff, !bool_decide_eq_true, Z.lor_eq_0_iff.
  destruct (decide (Z.land f b = 0)), (decide (Z.land g b = 0)); naive_solver.
Qed.
Lemma has_clear f b c : has (Z.land f (Z.lnot c)) b = has f (Z.land (Z.lnot c) b).
Proof. unfold has. by rewrite <- Z.land_assoc. Qed.
Lemma set_flag_has e c f b : has (set_flag e c f) b = if has e c.1 then has f b || has c.2 b else has f (Z.land (Z.lnot c.2) b).
Proof. unfold set_flag. destruct (has e c.1); [apply has_lor|apply has_clear]. Qed.
Lemma or_flag_has e c f b : has (or_flag e c f) b = has f b || (has e c.1 && has c.2 b).
Proof. unfold or_flag. destruct (has e c.1); [apply has_lor|by rewrite orb_false_r]. Qed.
Lemma add_flags ev : flags_for (foldl (fun f c => or_flag ev.1 c f) REGISTERED flag_table) ev.
Proof.
  unfold flags_for, flag_table. cbn [foldl]. repeat rewrite or_flag_has. cbn [fst snd]. split; [done|].
  repeat (apply Forall_cons; split); [..|constructor]; cbn [fst snd]; repeat rewrite or_flag_has; cbn [fst snd];
    destruct (has ev.1 EPOLLIN), (has ev.1 EPOLLOUT), (has ev.1 EPOLLRDHUP), (has ev.1 EPOLLPRI); vm_compute; reflexivity.
Qed.
Lemma mod_flags ev f : has f REGISTERED = true -> flags_for (foldl (fun f c => set_flag ev.1 c f) f flag_table) ev.
Proof.
  intros Hr. assert (H0 : has f 0 = false) by (unfold has; by rewrite Z.land_0_r).
  unfold flags_for, flag_table. cbn [foldl]. split; [|repeat (apply Forall_cons; split); [..|constructor]]; cbn [fst snd]; repeat rewrite set_flag_has; cbn [fst snd];
    destruct (has ev.1 EPOLLIN), (has ev.1 EPOLLOUT), (has ev.1 EPOLLRDHUP), (has ev.1 EPOLLPRI);
    repeat match goal with |- context [has f (Z.land ?a ?b)] => let v := eval vm_compute in (Z.land a b) in change (Z.land a b) with v end; try (rewrite H0);
    repeat match goal with |- context [has ?a ?b] => lazymatch a with f => fail | _ => let v := eval vm_compute in (has a b) in change (has a b) with v end end;
    rewrite ?H0, ?orb_true_r, ?orb_false_r; first [done|exact Hr].
Qed.
Lemma fold_small (g : Z * Z -> Z -> Z) f : (forall c x, small c.2 -> small x -> small (g c x)) -> small f -> small (foldl (fun f c => g c f) f flag_table).
Proof. intros Hg Hf. unfold flag_table. cbn [foldl]. repeat (apply Hg; [done|]). done. Qed.
Lemma set_flag_small e c x : small c.2 -> small x -> small (set_flag e c x).
Proof. intros Hc Hx. unfold set_flag. destruct (has e c.1); [by apply small_lor|by apply small_land]. Qed.
Lemma or_flag_small e c x : small c.2 -> small x -> small (or_flag e c x).
Proof. intros Hc Hx. unfold or_flag. destruct (has e c.1); [by apply small_lor|done]. Qed.
Lemma plan_small op ev old c0 c1 f : small old -> plan op ev old = inr (c0, c1, f) -> small f.
Proof.
  intros Ho. unfold plan. repeat case_decide; repeat case_match; intros E; simplify_eq; [|done|].
  - apply fold_small; [intros; by apply or_flag_small|done].
  - apply fold_small; [intros; by apply set_flag_small|done].
Qed.
Definition kind_flag (kd : kind) : Z := match kd with Fifo => S_ISFIFO | Sock => S_ISSOCK | OtherKind => 0 end.
Lemma kind_flags f kd : match kd with Fifo => Z.lor f S_ISFIFO | Sock => Z.lor f S_ISSOCK | OtherKind => f end = Z.lor f (kind_flag kd).
Proof. destruct kd; [done|done|]. cbn [kind_flag]. by rewrite Z.lor_0_r. Qed.
Lemma kind_small kd : small (kind_flag kd).
Proof. by destruct kd. Qed.
Lemma flags_for_kind f kd ev : flags_for f ev -> flags_for (Z.lor f (kind_flag kd)) ev.
Proof.
  intros [Hr Hf]. split; [by rewrite has_lor, Hr|]. unfold flag_table in *. repeat (apply Forall_cons in Hf as [? Hf]). cbn [fst snd] in *.
  repeat (apply Forall_cons; split); [..|constructor]; cbn [fst snd]; rewrite has_lor; destruct kd; by rewrite orb_false_r.
Qed.

(** Calls on other descriptors are not affected. *)
Definition untouched (k k' : kqueue) (fd : Z) : Prop := forall fd', key_ok fd' -> fd' <> fd ->
  load_bits (users k') fd' = load_bits (users k) fd' /\ forall rd, filters k' !! (fd', rd) = filters k !! (fd', rd).
(** A filter as a call asks for it. *)
Definition armed (k : kqueue) (fd : Z) (rd : bool) (bit : Z) (ev : epoll_event) : Prop :=
  exists f, filters k !! (fd, rd) = Some f /\ enabled f = has ev.1 bit /\ udata f = ev.2.

Section Registration.
Context (accepts : Z -> bool -> Z) (modify : filter -> filter -> filter) (fstat : Z -> Z + kind).

Lemma apply_other fd rd c fs fs' e fd' rd' : apply_change accepts modify fd rd c fs = (fs', e) -> (fd', rd') <> (fd, rd) -> fs' !! (fd', rd') = fs !! (fd', rd').
Proof.
  intros H Hne. unfold apply_change in H. destruct c; [case_decide|destruct (fs !! (fd, rd))|destruct (fs !! (fd, rd))]; simplify_eq; try done.
  - by rewrite lookup_insert_ne by congruence.
  - by rewrite lookup_delete_ne by congruence.
  - by rewrite lookup_insert_ne by congruence.
Qed.
(** The whole of [epoll_ctl] when no error occurs. *)
Lemma ctl_ok k op fd ev c0 c1 f fs fs' d0 d1 kd : key_ok fd ->
  bad_call op ev = false ->
  plan op ev (load_bits (users k) fd) = inr (c0, c1, f) -> apply_change accepts modify fd true c0 (filters k) = (fs, d0) ->
  apply_change accepts modify fd false c1 fs = (fs', d1) -> change_error d0 d1 = None -> fstat fd = inr kd ->
  exists k', epoll_ctl accepts modify fstat (Some k) op fd ev = (Some k', inr tt) /\ filters k' = fs' /\ load_bits (users k') fd = Z.lor f (kind_flag kd) /\ untouched k k' fd.
Proof.
  intros Hk Hev Hp H0 H1 Hc Hs. pose proof (plan_small _ _ _ _ _ _ (load_small _ _) Hp) as Hf.
  assert (Hf' : small (Z.lor f (kind_flag kd))) by (apply small_lor; [done|apply kind_small]).
  unfold epoll_ctl. rewrite Hev, (key_in_range _ Hk), load_ok, Hp by done. rewrite (save_ok k fd f) by done. cbn [users filters decide].
  destruct (decide (0 < 0)) as [|_]; [lia|]. rewrite H0, H1, Hc, Hs, kind_flags, save_ok by done. cbn [users filters].
  destruct (decide (0 < 0)) as [|_]; [lia|]. eexists. split; [done|]. cbn [users filters]. split; [done|]. split; [by apply load_save|].
  intros fd' Hk' Hne. cbn [users filters]. split; [by rewrite !load_save_other by done|]. intros rd.
  rewrite (apply_other _ _ _ _ _ _ _ _ H1), (apply_other _ _ _ _ _ _ _ _ H0); congruence.
Qed.
Context (modify_enables : forall old f, enabled (modify old f) = enabled f) (modify_udata : forall old f, udata (modify old f) = udata f).
(** What a queue holds for a descriptor that was registered with [ev]. *)
Definition recorded (k : kqueue) (fd : Z) (ev : epoll_event) : Prop := flags_for (load_bits (users k) fd) ev /\ armed k fd true EPOLLIN ev /\ armed k fd false EPOLLOUT ev.
Lemma add_recorded k fd ev kd : key_ok fd -> bad_call EPOLL_CTL_ADD (Some ev) = false -> fstat fd = inr kd -> accepts fd true = 0 -> accepts fd false = 0 ->
  exists k', epoll_ctl accepts modify fstat (Some k) EPOLL_CTL_ADD fd (Some ev) = (Some k', inr tt) /\ recorded k' fd ev /\ untouched k k' fd.
Proof.
  intros Hk Hb Hs Hr Hw. edestruct (ctl_ok k EPOLL_CTL_ADD fd (Some ev)) as (k' & E & Hfs & Hl & Hu); [done|done|by cbn|unfold apply_change; by rewrite decide_True by done|unfold apply_change; by rewrite decide_True by done|done|done|].
  exists k'. split; [exact E|]. split; [|done]. unfold recorded, armed. rewrite Hl, Hfs. split; [apply flags_for_kind, add_flags|]. split.
  - eexists. split; [rewrite lookup_insert_ne by congruence; apply lookup_insert_eq|done].
  - eexists. split; [apply lookup_insert_eq|done].
Qed.
Lemma mod_recorded k fd ev old kd : key_ok fd -> bad_call EPOLL_CTL_MOD (Some ev) = false -> fstat fd = inr kd -> recorded k fd old ->
  exists k', epoll_ctl accepts modify fstat (Some k) EPOLL_CTL_MOD fd (Some ev) = (Some k', inr tt) /\ recorded k' fd ev /\ untouched k k' fd.
Proof.
  intros Hk Hb Hs ((Hr & _) & (f0 & H0 & _) & (f1 & H1 & _)).
  edestruct (ctl_ok k EPOLL_CTL_MOD fd (Some ev)) as (k' & E & Hfs & Hl & Hu); [done|done|unfold plan; cbn [decide]; by rewrite Hr|unfold apply_change; by rewrite H0|
    unfold apply_change; by rewrite lookup_insert_ne, H1 by congruence|done|done|].
  exists k'. split; [exact E|]. split; [|done]. unfold recorded, armed. rewrite Hl, Hfs. split; [by apply flags_for_kind, mod_flags|]. split.
  - eexists. split; [rewrite lookup_insert_ne by congruence; apply lookup_insert_eq|]. by rewrite modify_enables, modify_udata.
  - eexists. split; [apply lookup_insert_eq|]. by rewrite modify_enables, modify_udata.
Qed.
(** A descriptor without filters; its flags may be those of a descriptor of the same number that was closed. *)
Definition unrecorded (k : kqueue) (fd : Z) : Prop := forall rd, filters k !! (fd, rd) = None.
Lemma del_unrecorded k fd ev kd : key_ok fd -> fstat fd = inr kd -> recorded k fd ev ->
  exists k', epoll_ctl accepts modify fstat (Some k) EPOLL_CTL_DEL fd None = (Some k', inr tt) /\ unrecorded k' fd /\ untouched k k' fd.
Proof.
  intros Hk Hs ((Hr & _) & (f0 & H0 & _) & (f1 & H1 & _)).
  edestruct (ctl_ok k EPOLL_CTL_DEL fd None) as (k' & E & Hfs & Hl & Hu); [done|done|unfold plan; cbn [decide]; by rewrite Hr|unfold apply_change; by rewrite H0|
    unfold apply_change; by rewrite lookup_delete_ne, H1 by congruence|done|done|].
  exists k'. split; [exact E|]. split; [|done]. unfold unrecorded. rewrite Hfs.
  intros []; [rewrite lookup_delete_ne by congruence|]; apply lookup_delete_eq.
Qed.
(** An operation other than an addition is refused with [ENOENT] for a descriptor without filters, also when it has
    flags: then it is the host that does not find the filters. *)
Lemma unregistered_refused k op fd ev : key_ok fd -> op = EPOLL_CTL_MOD /\ is_Some ev \/ op = EPOLL_CTL_DEL -> bad_call op ev = false -> unrecorded k fd ->
  exists k', epoll_ctl accepts modify fstat (Some k) op fd ev = (Some k', inl ENOENT) /\ unrecorded k' fd /\ untouched k k' fd.
Proof.
  intros Hk Hop Hb Hu. unfold epoll_ctl. rewrite Hb, (key_in_range _ Hk), load_ok by done. destruct (has (load_bits (users k) fd) REGISTERED) eqn:Hr.
  2: { exists k. split; [|done]. destruct Hop as [[-> [e ->]]| ->]; unfold plan; cbn [decide]; by rewrite Hr. }
  assert (exists c0 c1 f, plan op ev (load_bits (users k) fd) = inr (c0, c1, f) /\ apply_change accepts modify fd true c0 (filters k) = (filters k, ENOENT) /\
    apply_change accepts modify fd false c1 (filters k) = (filters k, ENOENT)) as (c0 & c1 & f & Hp & E0 & E1).
  { destruct Hop as [[-> [e ->]]| ->]; unfold plan; cbn [decide]; rewrite Hr; eexists _, _, _; (split; [done|]); unfold apply_change; by rewrite !Hu. }
  pose proof (plan_small _ _ _ _ _ _ (load_small _ _) Hp) as Hf. rewrite Hp, save_ok by done. destruct (decide (0 < 0)) as [|_]; [lia|]. cbn [filters users]. rewrite E0, E1. cbn [change_error decide].
  eexists. split; [done|]. split; [exact Hu|]. intros fd' Hk' Hne. cbn [users filters]. split; [by rewrite load_save_other by done|done].
Qed.
(** The host drops the filters of a descriptor that is closed, and keeps the user events that hold its flags. *)
Definition close_fd (fd : Z) (k : kqueue) : kqueue := mkQueue (users k) (delete (fd, true) (delete (fd, false) (filters k))).
Lemma closed_unrecorded k fd : unrecorded (close_fd fd k) fd /\ untouched k (close_fd fd k) fd.
Proof.
  split; [intros []; cbn; [|rewrite lookup_delete_ne by congruence]; apply lookup_delete_eq|]. intros fd' _ Hne. split; [done|]. intros rd. cbn. rewrite !lookup_delete_ne by congruence. done.
Qed.

(** ** Sequences of calls *)
Inductive call := Add (fd : Z) (ev : epoll_event) | Mod (fd : Z) (ev : epoll_event) | Del (fd : Z) | Close (fd : Z).
Definition call_fd (c : call) : Z := match c with Add fd _ | Mod fd _ | Del fd | Close fd => fd end.
Definition run_call (q : option kqueue) (c : call) : option kqueue * (Z + unit) :=
  match c with
  | Add fd ev => epoll_ctl accepts modify fstat q EPOLL_CTL_ADD fd (Some ev)
  | Mod fd ev => epoll_ctl accepts modify fstat q EPOLL_CTL_MOD fd (Some ev)
  | Del fd => epoll_ctl accepts modify fstat q EPOLL_CTL_DEL fd None
  | Close fd => (close_fd fd <$> q, inr tt)
  end.
Fixpoint run_calls (q : option kqueue) (cs : list call) : option kqueue * list (Z + unit) :=
  match cs with [] => (q, []) | c :: cs => let '(q, r) := run_call q c in let '(q, rs) := run_calls q cs in (q, r :: rs) end.
(** The interest list of [epoll] (epoll(7), epoll_ctl(2)): a map from descriptors to events, in which a descriptor is
    added once, and which forgets a descriptor that is closed. *)
Definition EEXIST : Z := 17.
Definition interest_call (m : gmap Z epoll_event) (c : call) : gmap Z epoll_event * (Z + unit) :=
  match c with
  | Add fd ev => match m !! fd with Some _ => (m, inl EEXIST) | None => (<[fd := ev]> m, inr tt) end
  | Mod fd ev => match m !! fd with Some _ => (<[fd := ev]> m, inr tt) | None => (m, inl ENOENT) end
  | Del fd => match m !! fd with Some _ => (delete fd m, inr tt) | None => (m, inl ENOENT) end
  | Close fd => (delete fd m, inr tt)
  end.
Fixpoint interest_calls (m : gmap Z epoll_event) (cs : list call) : gmap Z epoll_event * list (Z + unit) :=
  match cs with [] => (m, []) | c :: cs => let '(m, r) := interest_call m c in let '(m, rs) := interest_calls m cs in (m, r :: rs) end.
(** The queue holds the interest list. *)
Definition holds (k : kqueue) (m : gmap Z epoll_event) : Prop :=
  forall fd, key_ok fd -> match m !! fd with Some ev => recorded k fd ev | None => unrecorded k fd end.
Definition call_ok (c : call) : Prop :=
  key_ok (call_fd c) /\
  match c with
  | Close _ => True
  | Add _ ev | Mod _ ev => has ev.1 (Z.lnot allowed_events) = false /\ (exists kd, fstat (call_fd c) = inr kd) /\ accepts (call_fd c) true = 0 /\ accepts (call_fd c) false = 0
  | Del _ => (exists kd, fstat (call_fd c) = inr kd) /\ accepts (call_fd c) true = 0 /\ accepts (call_fd c) false = 0
  end.
(** No descriptor is added while it is registered. *)
Fixpoint adds_new (m : gmap Z epoll_event) (cs : list call) : Prop :=
  match cs with
  | [] => True
  | c :: cs => match c with Add fd _ => m !! fd = None | _ => True end /\ adds_new (interest_call m c).1 cs
  end.
Lemma untouched_recorded k k' fd fd' ev : untouched k k' fd -> key_ok fd' -> fd' <> fd -> recorded k fd' ev -> recorded k' fd' ev.
Proof. intros Hu Hk Hne. destruct (Hu fd' Hk Hne) as [Hl Hf]. unfold recorded, armed. by rewrite Hl, !Hf. Qed.
Lemma untouched_unrecorded k k' fd fd' : untouched k k' fd -> key_ok fd' -> fd' <> fd -> unrecorded k fd' -> unrecorded k' fd'.
Proof. intros Hu Hk Hne. destruct (Hu fd' Hk Hne) as [Hl Hf]. intros H rd. by rewrite Hf. Qed.
Lemma holds_insert k k' m fd ev : holds k m -> untouched k k' fd -> recorded k' fd ev -> holds k' (<[fd := ev]> m).
Proof.
  intros Hh Hu Hr fd' Hk. destruct (decide (fd' = fd)) as [->|Hne]; [by rewrite lookup_insert_eq|]. rewrite lookup_insert_ne by congruence.
  specialize (Hh fd' Hk). destruct (m !! fd'); [by apply (untouched_recorded k k' fd)|by apply (untouched_unrecorded k k' fd)].
Qed.
Lemma holds_delete k k' m fd : holds k m -> untouched k k' fd -> unrecorded k' fd -> holds k' (delete fd m).
Proof.
  intros Hh Hu Hr fd' Hk. destruct (decide (fd' = fd)) as [->|Hne]; [by rewrite lookup_delete_eq|]. rewrite lookup_delete_ne by congruence.
  specialize (Hh fd' Hk). destruct (m !! fd'); [by apply (untouched_recorded k k' fd)|by apply (untouched_unrecorded k k' fd)].
Qed.
Lemma holds_none k k' m fd : holds k m -> untouched k k' fd -> unrecorded k' fd -> m !! fd = None -> holds k' m.
Proof. intros Hh Hu Hr Hm. rewrite <- (delete_id m fd) by done. by apply (holds_delete k). Qed.
Lemma call_refines k m c : holds k m -> call_ok c -> match c with Add fd _ => m !! fd = None | _ => True end ->
  exists k', run_call (Some k) c = (Some k', (interest_call m c).2) /\ holds k' (interest_call m c).1.
Proof.
  intros Hh [Hk Hc] Hnew. specialize (Hh _ Hk) as Hfd. destruct c as [fd ev|fd ev|fd|fd]; cbn [call_fd run_call interest_call] in *.
  - destruct Hc as (Hev & (kd & Hs) & Hr & Hw). rewrite Hnew. destruct (add_recorded k fd ev kd) as (k' & E & Hrec & Hu); [done..|]. exists k'. split; [exact E|]. by apply (holds_insert k).
  - destruct Hc as (Hev & (kd & Hs) & Hr & Hw). destruct (m !! fd) as [old|] eqn:Em; cbn [fst snd].
    + destruct (mod_recorded k fd ev old kd) as (k' & E & Hrec & Hu); [done..|]. exists k'. split; [exact E|]. by apply (holds_insert k).
    + destruct (unregistered_refused k EPOLL_CTL_MOD fd (Some ev)) as (k' & E & Hun & Hu); [done|left; split; [done|by eexists]|done|done|]. exists k'. split; [exact E|]. by apply (holds_none k k' m fd).
  - destruct Hc as ((kd & Hs) & Hr & Hw). destruct (m !! fd) as [old|] eqn:Em; cbn [fst snd].
    + destruct (del_unrecorded k fd old kd) as (k' & E & Hrec & Hu); [done..|]. exists k'. split; [exact E|]. by apply (holds_delete k).
    + destruct (unregistered_refused k EPOLL_CTL_DEL fd None) as (k' & E & Hun & Hu); [done|by right|done|done|]. exists k'. split; [exact E|]. by apply (holds_none k k' m fd).
  - destruct (closed_unrecorded k fd) as [Hun Hu]. exists (close_fd fd k). split; [done|]. by apply (holds_delete k).
Qed.
(** Adding a registered descriptor succeeds and replaces its events, where [epoll] answers [EEXIST] and keeps them. *)
Theorem second_add_replaces k m fd ev old : holds k m -> call_ok (Add fd ev) -> m !! fd = Some old ->
  (exists k', run_call (Some k) (Add fd ev) = (Some k', inr tt) /\ holds k' (<[fd := ev]> m)) /\ interest_call m (Add fd ev) = (m, inl EEXIST).
Proof.
  intros Hh (Hk & Hev & (kd & Hs) & Hr & Hw) Hm. split; [|cbn; by rewrite Hm]. destruct (add_recorded k fd ev kd) as (k' & E & Hrec & Hu); [done..|]. exists k'. split; [exact E|]. by apply (holds_insert k).
Qed.
End Registration.

Definition all_accepted (fd : Z) (rd : bool) : Z := 0.
Definition replace_filter (old f : filter) : filter := f.
Definition socket_stat (fd : Z) : Z + kind := inr Sock.
Lemma empty_holds : holds (mkQueue ∅ ∅) ∅.
Proof. intros fd Hk. rewrite lookup_empty. intros rd. apply lookup_empty. Qed.
Definition example_calls : list call := [Add 5 (EPOLLIN, 70); Mod 5 (Z.lor EPOLLOUT EPOLLRDHUP, 71); Del 6; Add 6 (EPOLLIN, 72); Close 5; Mod 5 (EPOLLIN, 73); Add 5 (EPOLLOUT, 74); Del 6].

(** ** Errors *)
(** The flags are saved before the filters are registered: an addition that the host refuses
    leaves the descriptor recorded as registered. *)
Theorem failed_add_registered accepts modify fstat k fd ev : key_ok fd -> bad_call EPOLL_CTL_ADD (Some ev) = false -> accepts fd true <> 0 ->
  exists k', epoll_ctl accepts modify fstat (Some k) EPOLL_CTL_ADD fd (Some ev) = (Some k', inl (accepts fd true)) /\ has (load_bits (users k') fd) REGISTERED = true.
Proof.
  intros Hk Hb Ha. set (f := foldl (fun f c => or_flag ev.1 c f) REGISTERED flag_table).
  assert (Hf : small f) by (apply fold_small; [intros; by apply or_flag_small|done]).
  unfold epoll_ctl. rewrite Hb, (key_in_range _ Hk), load_ok by done.
  assert (Hp : plan EPOLL_CTL_ADD (Some ev) (load_bits (users k) fd) = inr (EvAdd (filter_for ev EPOLLIN), EvAdd (filter_for ev EPOLLOUT), f)) by done. rewrite Hp, save_ok by done.
  destruct (decide (0 < 0)) as [|_]; [lia|]. unfold apply_change at 1. rewrite (decide_False (P := accepts fd true = 0)) by done. destruct (apply_change _ _ _ _ _ _) as [fs d1].
  unfold change_error. destruct (decide (accepts fd true <> 0)) as [_|]; [|done]. eexists. split; [done|]. cbn [users]. rewrite load_save by done. apply (add_flags ev).
Qed.
(** A call on a descriptor that is not a queue sets [errno] to the negated code. *)
Theorem bad_queue_negative_errno accepts modify fstat op fd ev : key_ok fd -> bad_call op ev = false ->
  epoll_ctl accepts modify fstat None op fd ev = (None, inl (- EBADF)).
Proof. intros Hk Hb. unfold epoll_ctl. rewrite Hb, (key_in_range _ Hk). unfold kqueue_load_state. assert (Hr : in_range KEY_BITS fd = true) by (apply in_range_spec; unfold key_ok, KEY_BITS in *; lia). by rewrite Hr. Qed.
(** A descriptor without a write filter is added, as the error is ignored, and can then neither
    be modified nor deleted. *)
Theorem no_write_filter_stuck : snd (run_calls (fun _ rd => if rd then 0 else EINVAL) replace_filter (fun _ => inr OtherKind) (Some (mkQueue ∅ ∅)) [Add 5 (EPOLLIN, 1); Mod 5 (EPOLLIN, 2); Del 5])
  = [inr tt; inl ENOENT; inl ENOENT].
Proof. by vm_compute. Qed.

(** ** Events *)
(** The time limit is never negative and its nanoseconds are less than a second. *)
Lemma timeout_ok to s ns : timeout to = Some (s, ns) -> 0 <= s /\ 0 <= ns < 10 ^ 9 /\ s * 1000 + ns / 10 ^ 6 = to.
Proof.
  unfold timeout. case_decide as H; [|done]. intros E. simplify_eq. pose proof (Z.mod_pos_bound to 1000 ltac:(lia)). pose proof (Z.div_pos to 1000 H ltac:(lia)).
  split; [done|]. split; [lia|]. replace (to mod 1000 * 1000 * 1000) with (to mod 1000 * 10 ^ 6) by lia. rewrite Z.div_mul by lia. pose proof (Z.div_mod to 1000 ltac:(lia)). lia.
Qed.
End Epoll.
