(* ===== verification/GlfwWindow.v ===== *)
(** * GLFW windows (game-window)

    [GLFWJoystickManager] (joystick_manager_glfw.cpp): which joysticks are connected, under which
    user ids, and what the windows are told of them; [GLFWGameWindow] (window_glfw.cpp): the
    callbacks of GLFW.  Both call the callbacks of the client ([WindowCallbacks]).  GLFW is not
    part of the repository: what it answers and its key constants are parameters.  No build file
    defines ENABLE_FEATURE_VERBOSE_JOYSTICKS, without which [handleMissingGamePadMapping] returns
    false: a joystick without a mapping is ignored. *)

From S2P Require Import Prelude CxxString GamepadMapping GameWindow TextInput InputQueue WindowCallbacks.
From Stdlib Require Import ZArith Ascii Lia SpecFloat.
From stdpp Require Import base list gmap strings numbers sets.

Open Scope Z_scope.

(** ** Joysticks *)
Module GlfwJoysticks.

Record JoystickInfo := mkInfo { userId : Z; oldButtonStates : list Z }.
(** Sets and maps of the library are traversed in the order of [elements] and [map_to_list]. *)
Record manager := mkManager { windows : gset nat; focusedWindow : option nat; connectedJoysticks : gmap Z JoystickInfo; userIds : gset Z }.
Definition new_manager : manager := mkManager ∅ None ∅ ∅.

Fixpoint next_id (fuel : nat) (i : Z) (ids : gset Z) : option Z :=
  match fuel with
  | O => None
  | S fuel => if decide (i ∈ ids) then next_id fuel (i + 1) ids else Some i
  end.
(** The loop looks at one id more than there are. *)
Definition nextUnassignedUserId (ids : gset Z) : outcome exn Z :=
  match next_id (S (size ids)) 0 ids with Some i => Ret i | None => Diverge end.

(** What windows are told: the window, the user id and whether it is connected. *)
Definition notice : Type := nat * Z * bool.
Definition tell (ws : gset nat) (id : Z) (connected : bool) : list notice := map (fun w => (w, id, connected)) (elements ws).

(** The callback for a new joystick; [raw] is what the memory of the new entry holds, since the
    constructor leaves [oldButtonStates] as it is. *)
Definition connected (joystick : Z) (is_gamepad : bool) (raw : list Z) (m : manager) : outcome exn (manager * list notice) :=
  if negb is_gamepad then Ret (m, [])
  else match connectedJoysticks m !! joystick with
       | Some _ => Ret (m, [])
       | None =>
           id ← nextUnassignedUserId (userIds m);
           Ret (mkManager (windows m) (focusedWindow m) (<[joystick := mkInfo id raw]> (connectedJoysticks m)) ({[ id ]} ∪ userIds m), tell (windows m) id true)
       end.
Definition disconnected (joystick : Z) (m : manager) : manager * list notice :=
  match connectedJoysticks m !! joystick with
  | None => (m, [])
  | Some info =>
      (mkManager (windows m) (focusedWindow m) (delete joystick (connectedJoysticks m)) (userIds m ∖ {[ userId info ]}), tell (windows m) (userId info) false)
  end.

(** A joystick that is present: its number, whether it is a gamepad, and the raw memory. *)
Definition present : Type := Z * bool * list Z.
Fixpoint connect_all (js : list present) (m : manager) : outcome exn (manager * list notice) :=
  match js with
  | [] => Ret (m, [])
  | (j, g, raw) :: js => '(m, n1) ← connected j g raw m; '(m, n2) ← connect_all js m; Ret (m, n1 ++ n2)
  end.
Definition addWindow (win : nat) (js : list present) (m : manager) : outcome exn (manager * list notice) :=
  let m := mkManager ({[ win ]} ∪ windows m) (focusedWindow m) (connectedJoysticks m) (userIds m) in
  if decide (size (windows m) = 1%nat) then connect_all js m
  else Ret (m, map (fun j => (win, userId j.2, true)) (map_to_list (connectedJoysticks m))).
Definition removeWindow (win : nat) (m : manager) : manager := mkManager (windows m ∖ {[ win ]}) (focusedWindow m) (connectedJoysticks m) (userIds m).
Definition onWindowFocused (win : nat) (focused : bool) (m : manager) : manager :=
  mkManager (windows m) (if focused then Some win else if decide (focusedWindow m = Some win) then None else focusedWindow m) (connectedJoysticks m) (userIds m).

(** The constants of GLFW, by the [GamepadButtonId] and [GamepadAxisId] the source pairs them with. *)
Section Inputs.
Context (GLFW_GAMEPAD_BUTTON GLFW_GAMEPAD_AXIS : Z -> Z) (BUTTON_LAST AXIS_LAST : nat).
Definition switch (f : Z -> Z) (cases : list Z) (id : Z) : Z := default (-1) (snd <$> list_find (fun k => f k = id) cases).
(** A, B, X, Y, BACK, START, GUIDE, LB, RB, LEFT_STICK, RIGHT_STICK and the directions. *)
Definition mapButtonId : Z -> Z := switch GLFW_GAMEPAD_BUTTON [0; 1; 2; 3; 6; 7; 8; 4; 5; 9; 10; 11; 12; 13; 14].
Definition mapAxisId : Z -> Z := switch GLFW_GAMEPAD_AXIS [0; 1; 2; 3; 4; 5].
(** What [glfwGetGamepadState] fills. *)
Record GLFWgamepadstate := mkState { buttons : list Z; axes : list spec_float }.
Inductive input := Button (id button : Z) (pressed : bool) | Axis (id axis : Z) (value : spec_float).
Definition button_input (id : Z) (old new : list Z) (i : nat) : option input :=
  match new !! i, old !! i with
  | Some n, Some o => if decide (n = o) then None else Some (Button id (mapButtonId (Z.of_nat i)) (bool_decide (n <> 0)))
  | _, _ => None
  end.
Definition button_inputs (id : Z) (old new : list Z) : list input := omap (button_input id old new) (seq 0 (S BUTTON_LAST)).
Definition axis_inputs (id : Z) (new : list spec_float) : list input := omap (fun i => Axis id (mapAxisId (Z.of_nat i)) <$> new !! i) (seq 0 (S AXIS_LAST)).
Definition joystick_inputs (state : Z -> GLFWgamepadstate) (j : Z * JoystickInfo) : list input :=
  button_inputs (userId j.2) (oldButtonStates j.2) (buttons (state j.1)) ++ axis_inputs (userId j.2) (axes (state j.1)).
(** The inputs go to [win]; without a window they are calls on a null pointer. *)
Definition update (win : option nat) (state : Z -> GLFWgamepadstate) (m : manager) : outcome exn (manager * list input) :=
  if decide (focusedWindow m = win) then
    let l := concat (map (joystick_inputs state) (map_to_list (connectedJoysticks m))) in
    if decide (win = None /\ l <> []) then Undef
    else Ret (mkManager (windows m) (focusedWindow m) (map_imap (fun j info => Some (mkInfo (userId info) (take (S BUTTON_LAST) (buttons (state j))))) (connectedJoysticks m)) (userIds m), l)
  else Ret (m, []).
End Inputs.

(** ** Ids *)
(** The ids in use are those of the connected joysticks, each used once. *)
Record wf (m : manager) : Prop := {
  ids_used : forall i, i ∈ userIds m <-> exists j info, connectedJoysticks m !! j = Some info /\ userId info = i;
  ids_unique : forall j j' info info', connectedJoysticks m !! j = Some info -> connectedJoysticks m !! j' = Some info' -> userId info = userId info' -> j = j' }.

Lemma next_id_spec fuel : forall i ids r, next_id fuel i ids = Some r -> i <= r /\ r ∉ ids /\ forall k, i <= k < r -> k ∈ ids.
Proof.
  induction fuel as [|fuel IH]; intros i ids r H; [done|]. cbn in H. case_decide as Hi.
  - apply IH in H as (Hr & Hn & Hk). split; [lia|]. split; [done|]. intros k Hk'. destruct (decide (k = i)) as [->|]; [done|apply Hk; lia].
  - simplify_eq. split; [lia|]. split; [done|]. lia.
Qed.
Lemma next_id_none fuel : forall i ids, next_id fuel i ids = None -> forall k, i <= k < i + Z.of_nat fuel -> k ∈ ids.
Proof.
  induction fuel as [|fuel IH]; intros i ids H k Hk; [lia|]. cbn in H. case_decide as Hi; [|done].
  destruct (decide (k = i)) as [->|]; [done|]. apply (IH (i + 1)); [done|lia].
Qed.
(** The loop ends with the least id that is not in use. *)
Lemma next_total ids : exists r, nextUnassignedUserId ids = Ret r /\ 0 <= r /\ r ∉ ids /\ forall k, 0 <= k < r -> k ∈ ids.
Proof.
  unfold nextUnassignedUserId. destruct (next_id _ 0 ids) as [r|] eqn:E; [exists r; by apply next_id_spec in E|].
  pose proof (next_id_none _ _ _ E) as Hall. exfalso.
  assert (Hs : (list_to_set (seqZ 0 (Z.of_nat (S (size ids)))) : gset Z) ⊆ ids) by (intros k Hk; apply elem_of_list_to_set, elem_of_seqZ in Hk; apply Hall; lia).
  apply subseteq_size in Hs. rewrite size_list_to_set, length_seqZ in Hs by apply NoDup_seqZ. lia.
Qed.

Lemma wf_new : wf new_manager.
Proof. unfold new_manager. split; cbn [connectedJoysticks userIds]; [|by intros ???? H; rewrite lookup_empty in H]. intros i. split; [set_solver|]. intros (j & info & H & _). by rewrite lookup_empty in H. Qed.
Lemma wf_ext m m' : connectedJoysticks m' = connectedJoysticks m -> userIds m' = userIds m -> wf m -> wf m'.
Proof. intros E1 E2 [Hu Hn]. split; [intros i; rewrite E1, E2; apply Hu|rewrite E1; apply Hn]. Qed.
Lemma connected_wf j raw m id ws f : wf m -> connectedJoysticks m !! j = None -> id ∉ userIds m ->
  wf (mkManager ws f (<[j := mkInfo id raw]> (connectedJoysticks m)) ({[ id ]} ∪ userIds m)).
Proof.
  intros [Hu Hn] Hj Hid. split; cbn [connectedJoysticks userIds].
  - intros i. rewrite elem_of_union, elem_of_singleton, Hu. split.
    + intros [->|(j' & info & H & <-)]; [exists j; eexists; split; [apply lookup_insert_eq|done]|].
      exists j', info. split; [rewrite lookup_insert_ne; congruence|done].
    + intros (j' & info & H & <-). apply lookup_insert_Some in H as [[-> <-]|[Hne H]]; [by left|right; eauto].
  - intros j1 j2 i1 i2 H1 H2 E. assert (Hids : forall j' info, connectedJoysticks m !! j' = Some info -> userId info <> id) by (intros j' info H <-; apply Hid, Hu; eauto).
    apply lookup_insert_Some in H1 as [[-> <-]|[Hne1 H1]]; apply lookup_insert_Some in H2 as [[<- <-]|[Hne2 H2]]; cbn [userId] in E; [done| | |eauto].
    + symmetry in E. by destruct (Hids _ _ H2).
    + by destruct (Hids _ _ H1).
Qed.
Lemma disconnected_wf j m info ws f : wf m -> connectedJoysticks m !! j = Some info ->
  wf (mkManager ws f (delete j (connectedJoysticks m)) (userIds m ∖ {[ userId info ]})).
Proof.
  intros [Hu Hn] Hj. split; cbn [connectedJoysticks userIds].
  - intros i. rewrite elem_of_difference, elem_of_singleton, Hu. split.
    + intros [(j' & info' & H & <-) Hne]. exists j', info'. split; [|done]. rewrite lookup_delete_ne; [done|]. intros <-. congruence.
    + intros (j' & info' & H & <-). apply lookup_delete_Some in H as [Hne H]. split; [eauto|]. intros E. by apply Hne, (Hn j j' info info').
  - intros j1 j2 i1 i2 H1 H2. apply lookup_delete_Some in H1 as [_ H1]. apply lookup_delete_Some in H2 as [_ H2]. by apply Hn.
Qed.

(** ** What the windows know *)
Section Clients.
Context (added removed : bool).
(** The callbacks of the client, by window. *)
Definition clients : Type := nat -> WindowCallbacks.callbacks.
Definition hear (w : nat) (c : WindowCallbacks.callbacks) (n : notice) : WindowCallbacks.callbacks :=
  if decide (n.1.1 = w) then fst (WindowCallbacks.onGamepadState added removed n.1.2 n.2 c) else c.
Definition told (ns : list notice) (cl : clients) : clients := fun w => foldl (hear w) (cl w) ns.
Definition known (c : WindowCallbacks.callbacks) : gset Z := dom (WindowCallbacks.gamepads c).
(** The ids that a window was not told of ([misses] below says which): the client knows all others. *)
Definition informed (m : manager) (cl : clients) (ms : nat -> gset Z) : Prop := forall w, w ∈ windows m -> ms w ⊆ userIds m /\ known (cl w) = userIds m ∖ ms w.

Lemma known_state id b c : known (fst (WindowCallbacks.onGamepadState added removed id b c)) = if b then {[ id ]} ∪ known c else known c ∖ {[ id ]}.
Proof.
  unfold known, WindowCallbacks.onGamepadState. cbn [fst WindowCallbacks.set_gamepads WindowCallbacks.gamepads]. destruct b; [|apply dom_delete_L].
  destruct (WindowCallbacks.gamepads c !! id) eqn:E; [|apply dom_insert_L]. apply elem_of_dom_2 in E. set_solver.
Qed.
Lemma hear_other w ns c : Forall (fun n => n.1.1 <> w) ns -> foldl (hear w) c ns = c.
Proof. intros H. induction H as [|n ns Hn _ IH] in c |- *; [done|]. cbn. unfold hear at 2. by rewrite decide_False by done. Qed.
Lemma told_tell ws id b cl w : w ∈ ws -> known (told (tell ws id b) cl w) = if b then {[ id ]} ∪ known (cl w) else known (cl w) ∖ {[ id ]}.
Proof.
  intros Hw. apply elem_of_elements in Hw. unfold told, tell. generalize (cl w). induction (elements ws) as [|x l IH]; intros c; [by apply elem_of_nil in Hw|].
  cbn [map foldl]. unfold hear at 2. cbn [fst snd]. destruct (decide (x = w)) as [->|Hne].
  - destruct (decide (w ∈ l)) as [Hl|Hl].
    + rewrite (IH Hl), known_state. destruct b; set_solver.
    + rewrite hear_other, known_state; [done|]. apply Forall_map, Forall_forall. intros y Hy E. cbn in E. congruence.
  - apply IH. by apply elem_of_cons in Hw as [->|].
Qed.
Lemma told_app n1 n2 cl : forall w, told (n1 ++ n2) cl w = told n2 (told n1 cl) w.
Proof. intros w. unfold told. by rewrite foldl_app. Qed.
Lemma connected_informed j g raw m cl ms : wf m -> informed m cl ms -> exists m' ns, connected j g raw m = Ret (m', ns) /\ wf m' /\ informed m' (told ns cl) ms /\ windows m' = windows m.
Proof.
  intros Hw Hi. unfold connected. destruct g; [|by exists m, []]. cbn [negb]. destruct (connectedJoysticks m !! j) as [info|] eqn:Ej; [by exists m, []|].
  destruct (next_total (userIds m)) as (id & -> & _ & Hid & _). cbn [mbind outcome_bind]. eexists _, _. split; [done|]. split; [by apply connected_wf|]. split; [|done].
  intros w Hww. cbn [windows userIds] in *. destruct (Hi w Hww) as [Hs Hk]. rewrite told_tell, Hk by done. split; set_solver.
Qed.
Lemma connect_all_informed js : forall m cl ms, wf m -> informed m cl ms -> exists m' ns, connect_all js m = Ret (m', ns) /\ wf m' /\ informed m' (told ns cl) ms /\ windows m' = windows m.
Proof.
  induction js as [|[[j g] raw] js IH]; intros m cl ms Hw Hi; [by exists m, []|]. cbn [connect_all].
  destruct (connected_informed j g raw m cl ms Hw Hi) as (m1 & n1 & -> & Hw1 & Hi1 & E1). cbn [mbind outcome_bind].
  destruct (IH m1 _ ms Hw1 Hi1) as (m2 & n2 & -> & Hw2 & Hi2 & E2). cbn [mbind outcome_bind]. eexists _, _. split; [done|]. split; [done|]. split; [|congruence].
  intros w Hww. rewrite told_app. by apply Hi2.
Qed.
Section Steps.
Context (GLFW_GAMEPAD_BUTTON GLFW_GAMEPAD_AXIS : Z -> Z) (BUTTON_LAST AXIS_LAST : nat).
Inductive op :=
| OpConnected (j : Z) (is_gamepad : bool) (raw : list Z)
| OpDisconnected (j : Z)
| OpAddWindow (win : nat) (js : list present)
| OpRemoveWindow (win : nat)
| OpFocus (win : nat) (focused : bool)
| OpUpdate (win : nat) (state : Z -> GLFWgamepadstate).
Definition perform_op (o : op) (m : manager) : outcome exn (manager * list notice) :=
  match o with
  | OpConnected j g raw => connected j g raw m
  | OpDisconnected j => Ret (disconnected j m)
  | OpAddWindow win js => addWindow win js m
  | OpRemoveWindow win => Ret (removeWindow win m, [])
  | OpFocus win f => Ret (onWindowFocused win f m, [])
  | OpUpdate win state => '(m, _) ← update GLFW_GAMEPAD_BUTTON GLFW_GAMEPAD_AXIS BUTTON_LAST AXIS_LAST (Some win) state m; Ret (m, [])
  end.
(** The client of a window that is shown for the first time knows no gamepad. *)
Definition op_ok (o : op) (m : manager) (cl : clients) : Prop :=
  match o with
  | OpAddWindow win _ => win ∈ windows m \/ known (cl win) = ∅
  | _ => True
  end.
(** The ids each window was not told of: a window that is shown while no other is misses the ids in use by then, until
    their gamepads are disconnected or the window is shown again beside another. *)
Definition misses (o : op) (m : manager) (ms : nat -> gset Z) : nat -> gset Z :=
  match o with
  | OpAddWindow win _ => fun w => if decide (w = win) then if decide (windows m = {[ win ]}) then ms w else if decide (windows m = ∅) then userIds m else ∅ else ms w
  | OpDisconnected j => fun w => match connectedJoysticks m !! j with Some info => ms w ∖ {[ userId info ]} | None => ms w end
  | _ => ms
  end.
Inductive step : manager * clients * (nat -> gset Z) -> manager * clients * (nat -> gset Z) -> Prop :=
| step_op o m cl ms m' ns : op_ok o m cl -> perform_op o m = Ret (m', ns) -> step (m, cl, ms) (m', told ns cl, misses o m ms).

Lemma update_wf win state m : wf m -> exists m' l, update GLFW_GAMEPAD_BUTTON GLFW_GAMEPAD_AXIS BUTTON_LAST AXIS_LAST (Some win) state m = Ret (m', l) /\
  wf m' /\ windows m' = windows m /\ userIds m' = userIds m.
Proof.
  intros [Hu Hn]. unfold update. destruct (decide (focusedWindow m = Some win)); [|by exists m, []]. destruct (decide (Some win = None /\ _)) as [[]|_]; [done|].
  eexists _, _. split; [done|]. split; [|done]. assert (Hl : forall j info, map_imap (fun j info => Some (mkInfo (userId info) (take (S BUTTON_LAST) (buttons (state j))))) (connectedJoysticks m) !! j = Some info ->
    exists old, connectedJoysticks m !! j = Some old /\ userId old = userId info).
  { intros j info H. rewrite map_lookup_imap in H. destruct (connectedJoysticks m !! j) as [old|]; [|done]. cbn in H. simplify_eq. by exists old. }
  split; cbn [connectedJoysticks userIds].
  - intros i. rewrite Hu. split.
    + intros (j & info & H & <-). exists j. eexists. rewrite map_lookup_imap, H. done.
    + intros (j & info & H & <-). apply Hl in H as (old & H & E). eauto.
  - intros j j' i i' H H' E. apply Hl in H as (o & H & Eo). apply Hl in H' as (o' & H' & Eo'). apply (Hn j j' o o'); congruence.
Qed.
Lemma told_nil cl : forall w, told [] cl w = cl w.
Proof. done. Qed.
Lemma alone win m : size ({[ win ]} ∪ windows m) = 1%nat <-> windows m = ∅ \/ windows m = {[ win ]}.
Proof.
  split; [|intros [->| ->]; [rewrite union_empty_r_L|rewrite union_idemp_L]; apply size_singleton]. intros Hs.
  assert (windows m ⊆ {[ win ]}) as Hsub.
  { intros x Hx. apply elem_of_singleton. destruct (decide (x = win)) as [|Hn]; [done|]. assert (({[ win; x ]} : gset nat) ⊆ {[ win ]} ∪ windows m) as H%subseteq_size by set_solver.
    rewrite size_union in H by set_solver. rewrite !size_singleton in H. lia. }
  destruct (decide (win ∈ windows m)); [right|left]; set_solver.
Qed.
Lemma told_all win (l : list (Z * JoystickInfo)) : forall c, known (foldl (hear win) c (map (fun j => (win, userId j.2, true)) l)) = list_to_set (map (fun j => userId j.2) l) ∪ known c.
Proof. induction l as [|x l IH]; intros c; [cbn; set_solver|]. cbn [map foldl list_to_set]. rewrite IH. unfold hear. cbn [fst snd]. rewrite decide_True, known_state by done. set_solver. Qed.
Lemma all_ids m : wf m -> list_to_set (map (fun j => userId j.2) (map_to_list (connectedJoysticks m))) = userIds m.
Proof.
  intros Hw. apply set_eq. intros i. rewrite (ids_used m Hw), elem_of_list_to_set, list_elem_of_In, in_map_iff. split.
  - intros ([j info] & <- & Hin). apply list_elem_of_In, elem_of_map_to_list in Hin. eauto.
  - intros (j & info & H & <-). exists (j, info). split; [done|]. by apply list_elem_of_In, elem_of_map_to_list.
Qed.
Lemma addWindow_informed win js m cl ms : wf m -> informed m cl ms -> op_ok (OpAddWindow win js) m cl ->
  exists m' ns, addWindow win js m = Ret (m', ns) /\ wf m' /\ informed m' (told ns cl) (misses (OpAddWindow win js) m ms).
Proof.
  intros Hw Hi Ho. unfold addWindow. cbn [windows focusedWindow connectedJoysticks userIds]. case_decide as Hs.
  - apply alone in Hs. set (m1 := mkManager _ _ _ _). assert (Hw1 : wf m1) by (by apply (wf_ext m)).
    assert (Hi1 : informed m1 cl (misses (OpAddWindow win js) m ms)).
    { intros w Hww. subst m1. cbn [windows userIds misses] in *. assert (w = win) as -> by set_solver. rewrite decide_True by done. destruct (decide (windows m = {[ win ]})) as [E|E]; [apply Hi; set_solver|].
      destruct Hs as [Hs|]; [|done]. rewrite decide_True by done. destruct Ho as [Ho|Ho]; [set_solver|]. rewrite Ho. set_solver. }
    destruct (connect_all_informed js m1 cl _ Hw1 Hi1) as (m' & ns & E & Hw' & Hi' & _). eauto.
  - assert (windows m <> ∅ /\ windows m <> {[ win ]}) as [Hn1 Hn2] by (split; intros E; apply Hs, alone; auto).
    eexists _, _. split; [done|]. split; [by apply (wf_ext m)|]. intros w Hww. cbn [windows userIds misses] in *. destruct (decide (w = win)) as [->|Hne].
    + rewrite !decide_False by done. unfold told. rewrite told_all, all_ids by done. split; [set_solver|].
      destruct Ho as [Ho|Ho]; [destruct (Hi win Ho) as [_ ->]|rewrite Ho]; set_solver.
    + unfold told. rewrite hear_other; [apply Hi; set_solver|]. apply Forall_map, Forall_forall. intros x _ E. cbn in E. congruence.
Qed.
Lemma perform_informed o m cl ms : wf m -> informed m cl ms -> op_ok o m cl -> exists m' ns, perform_op o m = Ret (m', ns) /\ wf m' /\ informed m' (told ns cl) (misses o m ms).
Proof.
  intros Hw Hi Ho. destruct o as [j g raw|j|win js|win|win f|win state]; cbn [perform_op].
  - destruct (connected_informed j g raw m cl ms Hw Hi) as (m' & ns & ? & ? & ? & _). eauto.
  - cbn [misses]. unfold disconnected. destruct (connectedJoysticks m !! j) as [info|] eqn:Ej; [|by eauto]. eexists _, _. split; [done|]. split; [by apply disconnected_wf|].
    intros w Hww. cbn [windows userIds] in *. destruct (Hi w Hww) as [Hs Hk]. rewrite told_tell, Hk by done. split; [set_solver|]. apply set_eq. intros i. rewrite !elem_of_difference, !elem_of_singleton. destruct (decide (i = userId info)); tauto.
  - by apply addWindow_informed.
  - eexists _, _. split; [done|]. split; [by apply (wf_ext m)|]. intros w Hww. cbn in Hww |- *. apply Hi. set_solver.
  - eexists _, _. split; [done|]. split; [by apply (wf_ext m)|]. done.
  - destruct (update_wf win state m Hw) as (m' & l & -> & Hw' & E1 & E2). cbn [mbind outcome_bind]. eexists _, _. split; [done|]. split; [done|].
    intros w Hww. rewrite E1 in Hww. rewrite E2. by apply Hi.
Qed.
Lemma reachable_informed s s' : rtc step s s' -> wf s.1.1 /\ informed s.1.1 s.1.2 s.2 -> wf s'.1.1 /\ informed s'.1.1 s'.1.2 s'.2.
Proof.
  induction 1 as [s|s1 s2 s3 H12 _ IH]; [done|]. intros [Hg1 Hg2]. apply IH. destruct H12 as [o m cl ms m1 ns Ho E]. cbn [fst snd] in *.
  destruct (perform_informed o m cl ms Hg1 Hg2 Ho) as (m2 & ns2 & E2 & ? & ?). rewrite E in E2. by injection E2 as <- <-.
Qed.
(** C21. The windows and the joystick manager agree.  From the start, with joysticks that come and go and windows
    that are shown, closed, focused and polled in any order, where the client of a window shown for the first time
    knows no gamepad yet: every operation returns, the user ids in use are those of the connected joysticks, each
    of a different one, and the client of every window knows exactly the gamepads with these ids but those it
    misses.  A window misses the gamepads that were connected already when it was shown as the only window
    ([misses], [first_window_not_told]), until they are disconnected or it is shown again beside another. *)
Theorem windows_informed cl m' cl' ms' o : rtc step (new_manager, cl, fun _ => ∅) (m', cl', ms') -> op_ok o m' cl' ->
  wf m' /\ informed m' cl' ms' /\ exists m'' ns, perform_op o m' = Ret (m'', ns) /\ wf m'' /\ informed m'' (told ns cl') (misses o m' ms').
Proof.
  intros Hs Ho. apply reachable_informed in Hs as [Hw Hi]; cbn [fst snd] in *.
  - split; [done|]. split; [done|]. by apply perform_informed.
  - split; [apply wf_new|]. intros w Hww. unfold new_manager in Hww. cbn [windows] in Hww. by apply not_elem_of_empty in Hww.
Qed.
(** A window that is shown while no other is, is not told of the joysticks that are connected
    already: their callback returns before the windows are told. *)
Theorem first_window_not_told win js m : windows m = ∅ -> Forall (fun p => p.1.2 = true -> is_Some (connectedJoysticks m !! p.1.1)) js ->
  addWindow win js m = Ret (mkManager {[ win ]} (focusedWindow m) (connectedJoysticks m) (userIds m), []).
Proof.
  intros Hw Hjs. unfold addWindow. cbn [windows focusedWindow connectedJoysticks userIds]. rewrite Hw, union_empty_r_L, size_singleton, decide_True by done.
  set (m1 := mkManager _ _ _ _). assert (Hc : Forall (fun p : present => p.1.2 = true -> is_Some (connectedJoysticks m1 !! p.1.1)) js) by done. clearbody m1. clear Hjs Hw.
  induction Hc as [|[[j g] raw] js Hj _ IH]; [done|]. cbn [connect_all]. unfold connected. destruct g; cbn [negb fst snd] in *; [destruct (Hj eq_refl) as [info ->]|]; cbn [mbind outcome_bind]; by rewrite IH.
Qed.
End Steps.
End Clients.

(** ** Buttons *)
Section Buttons.
Context (GLFW_GAMEPAD_BUTTON GLFW_GAMEPAD_AXIS : Z -> Z).
(** The numbers of the buttons in GLFW's documentation are those of [GamepadButtonId]. *)
Context (button_numbers : forall k, 0 <= k < 15 -> GLFW_GAMEPAD_BUTTON k = k).
Definition feed_one (x : input) (c : WindowCallbacks.callbacks) : outcome exn WindowCallbacks.callbacks :=
  match x with
  | Button id b p => WindowCallbacks.onGamepadButton id b p c
  | Axis id a v => WindowCallbacks.onGamepadAxis id a v c
  end.
Fixpoint feed (l : list input) (c : WindowCallbacks.callbacks) : outcome exn WindowCallbacks.callbacks :=
  match l with [] => Ret c | x :: l => c ← feed_one x c; feed l c end.
Lemma feed_app l1 : forall l2 c, feed (l1 ++ l2) c = c ← feed l1 c; feed l2 c.
Proof. induction l1 as [|x l1 IH]; intros l2 c; [done|]. cbn. destruct (feed_one x c); cbn [mbind outcome_bind]; [apply IH|done..]. Qed.
Lemma mapButtonId_same i : (i < 15)%nat -> mapButtonId GLFW_GAMEPAD_BUTTON (Z.of_nat i) = Z.of_nat i.
Proof.
  intros Hi. unfold mapButtonId, switch. assert (Hf : forall l, Forall (fun k => 0 <= k < 15) l -> list_find (fun k => GLFW_GAMEPAD_BUTTON k = Z.of_nat i) l = list_find (fun k => k = Z.of_nat i) l).
  { induction 1 as [|k l Hk _ IH]; [done|]. cbn. rewrite IH. destruct (decide (k = Z.of_nat i)) as [E|E]; [by rewrite decide_True by (by rewrite button_numbers)|by rewrite decide_False by (by rewrite button_numbers)]. }
  rewrite Hf by (repeat constructor; lia). do 15 (destruct i as [|i]; [done|]). lia.
Qed.
(** The buttons of a gamepad as the client has them. *)
Definition shows (c : WindowCallbacks.callbacks) (id : Z) (b : list bool) : Prop :=
  exists gp, WindowCallbacks.gamepads c !! id = Some gp /\ WindowCallbacks.button gp = b.
Definition down (l : list Z) : list bool := map (fun n => bool_decide (n <> 0)) l.
Lemma press_shows c id b i p old : shows c id b -> length b = 15%nat -> (i < 15)%nat -> b !! i = Some old -> exists c', WindowCallbacks.onGamepadButton id (Z.of_nat i) p c = Ret c' /\ shows c' id (<[i := p]> b).
Proof.
  intros (gp & Hgp & Hb) Hl Hi Ho. unfold WindowCallbacks.onGamepadButton. rewrite Hgp, decide_False, Nat2Z.id, Hb, Ho by lia.
  destruct (decide (old = p)) as [->|Hne]; [exists c; split; [done|]; exists gp; split; [done|]; by rewrite list_insert_id|].
  destruct (WindowCallbacks.is_dpad _); eexists; (split; [done|]); exists (WindowCallbacks.mkData (WindowCallbacks.axis gp) (<[i := p]> b)); (split; [|done]).
  - unfold WindowCallbacks.queueGamepadAxisInputIfNeeded. destruct (WindowCallbacks.needsQueueGamepadInput _); apply lookup_insert_eq.
  - apply lookup_insert_eq.
Qed.
(** What a poll reports is what the buttons did: a client that shows the buttons of the last
    poll shows those of this one after it was given the events of the poll, whatever changed. *)
Theorem buttons_shown (id : Z) (old new : list Z) (c : WindowCallbacks.callbacks) :
  length old = 15%nat -> length new = 15%nat ->  shows c id (down old) ->
  exists c', feed (button_inputs GLFW_GAMEPAD_BUTTON 14 id old new) c = Ret c' /\ shows c' id (down new).
Proof.
  intros Ho Hn Hs. assert (Hk : forall k, (k <= 15)%nat -> exists c', feed (omap (button_input GLFW_GAMEPAD_BUTTON id old new) (seq 0 k)) c = Ret c' /\ shows c' id (take k (down new) ++ drop k (down old))).
  { induction k as [|k IH]; intros Hk; [by exists c|]. destruct IH as (c1 & E1 & H1); [lia|]. rewrite seq_S, omap_app, feed_app, E1. cbn [mbind outcome_bind Nat.add omap list_omap].
    destruct (lookup_lt_is_Some_2 new k) as [n En]; [lia|]. destruct (lookup_lt_is_Some_2 old k) as [o Eo]; [lia|].
    assert (Ed : drop k (down old) = bool_decide (o <> 0) :: drop (S k) (down old)) by (apply drop_S; unfold down; by rewrite list_lookup_fmap, Eo).
    assert (Et : take (S k) (down new) = take k (down new) ++ [bool_decide (n <> 0)]) by (apply take_S_r; unfold down; by rewrite list_lookup_fmap, En).
    assert (Hlen : length (take k (down new)) = k) by (rewrite length_take; unfold down; rewrite length_map; lia).
    rewrite Ed in H1. rewrite Et, <- app_assoc. unfold button_input. rewrite En, Eo. cbn [app]. destruct (decide (n = o)) as [<-|Hno].
    - by exists c1.
    - cbn [omap list_omap]. rewrite mapButtonId_same by lia. cbn [feed feed_one].
      destruct (press_shows c1 id _ k (bool_decide (n <> 0)) (bool_decide (o <> 0)) H1) as (c2 & -> & H2).
      + rewrite length_app, Hlen. cbn [length]. rewrite length_drop. unfold down. rewrite length_map. lia.
      + lia.
      + by rewrite lookup_app_r, Hlen, Nat.sub_diag by lia.
      + cbn [mbind outcome_bind]. exists c2. split; [done|]. rewrite insert_app_r_alt, Hlen, Nat.sub_diag in H2 by (rewrite Hlen; lia). exact H2. }
  destruct (Hk 15%nat) as (c' & E & H); [lia|]. exists c'. split; [exact E|]. rewrite take_ge, drop_ge, app_nil_r in H by (unfold down; rewrite length_map; lia). done.
Qed.
End Buttons.

(** ** Examples *)
Definition gl_step : manager * clients * (nat -> gset Z) -> manager * clients * (nat -> gset Z) -> Prop := step true true id id 14 5.
Definition fresh_clients : clients := fun _ => WindowCallbacks.w_start.
Definition example_joystick : present := (0, true, repeat 0 15).
Definition shown : manager := mkManager {[ 7%nat ]} None {[ 0 := mkInfo 0 (repeat 0 15) ]} {[ 0 ]}.
Definition shown_clients : clients := told true true [(7%nat, 0, true)] fresh_clients.
Definition shown_misses : nat -> gset Z := misses (OpAddWindow 7 [example_joystick]) new_manager (fun _ => ∅).
Lemma windows_informed_witness : wf shown /\ known (shown_clients 7%nat) = {[ 0 ]} /\
  exists m' ns, perform_op id id 14 5 (OpConnected 3 true (repeat 0 15)) shown = Ret (m', ns) /\ wf m' /\ known (told true true ns shown_clients 7%nat) = {[ 0; 1 ]}.
Proof.
  assert (Hs : rtc gl_step (new_manager, fresh_clients, fun _ => ∅) (shown, shown_clients, shown_misses)).
  { apply rtc_once. apply (step_op true true id id 14 5 (OpAddWindow 7 [example_joystick])); [right; by vm_compute|vm_compute; reflexivity]. }
  destruct (windows_informed true true id id 14 5 fresh_clients shown shown_clients shown_misses (OpConnected 3 true (repeat 0 15)) Hs I) as (Hw & Hi & m' & ns & E & Hw' & Hi').
  assert (shown_misses 7%nat = ∅) as Hm by (vm_compute; reflexivity).
  split; [exact Hw|]. split; [destruct (Hi 7%nat) as [_ ->]; [unfold shown; cbn [windows]; set_solver|rewrite Hm; unfold shown; cbn [userIds]; set_solver]|]. exists m', ns. split; [exact E|]. split; [exact Hw'|].
  assert (Em : m' = mkManager {[ 7%nat ]} None (<[3 := mkInfo 1 (repeat 0 15)]> {[ 0 := mkInfo 0 (repeat 0 15) ]}) ({[ 1 ]} ∪ {[ 0 ]})) by (vm_compute in E; injection E as <- _; vm_compute; reflexivity).
  destruct (Hi' 7%nat) as [_ ->]; rewrite Em; cbn [userIds windows misses]; rewrite ?Hm; set_solver.
Defined.
Definition pressed_a : list Z := 1 :: repeat 0 14.
Definition one_pad : WindowCallbacks.callbacks := WindowCallbacks.set_gamepads {[ 0 := WindowCallbacks.new_data ]} WindowCallbacks.w_start.
Lemma buttons_shown_witness : exists c, feed (button_inputs id 14 0 (repeat 0 15) pressed_a) one_pad = Ret c /\ shows c 0 (down pressed_a).
Proof. apply (buttons_shown id (fun _ _ => eq_refl) 0 (repeat 0 15) pressed_a one_pad); [done|done|]. exists WindowCallbacks.new_data. split; [by apply lookup_singleton_Some|done]. Defined.
End GlfwJoysticks.

(** ** Windows *)
Module Glfw.

(** The keys that [getKeyMinecraft] names. *)
Inductive glfw_key : Set :=
| K_BACKSPACE | K_TAB | K_ENTER | K_LEFT_SHIFT | K_RIGHT_SHIFT | K_LEFT_CONTROL | K_RIGHT_CONTROL | K_PAUSE | K_CAPS_LOCK | K_ESCAPE
| K_PAGE_UP | K_PAGE_DOWN | K_END | K_HOME | K_LEFT | K_UP | K_RIGHT | K_DOWN | K_INSERT | K_DELETE | K_NUM_LOCK | K_SCROLL_LOCK
| K_SEMICOLON | K_EQUAL | K_COMMA | K_MINUS | K_PERIOD | K_SLASH | K_GRAVE_ACCENT | K_LEFT_BRACKET | K_BACKSLASH | K_RIGHT_BRACKET | K_APOSTROPHE
| K_LEFT_SUPER | K_RIGHT_SUPER | K_LEFT_ALT | K_RIGHT_ALT | K_F1 | K_F12 | K_V | K_UNKNOWN.
#[global] Instance glfw_key_eq_dec : EqDecision glfw_key.
Proof. solve_decision. Defined.
Definition key_cases : list (glfw_key * KeyCode) :=
  [(K_BACKSPACE, KeyCode.BACKSPACE); (K_TAB, KeyCode.TAB); (K_ENTER, KeyCode.ENTER); (K_LEFT_SHIFT, KeyCode.LEFT_SHIFT); (K_RIGHT_SHIFT, KeyCode.RIGHT_SHIFT);
   (K_LEFT_CONTROL, KeyCode.LEFT_CTRL); (K_RIGHT_CONTROL, KeyCode.RIGHT_CTRL); (K_PAUSE, KeyCode.PAUSE); (K_CAPS_LOCK, KeyCode.CAPS_LOCK); (K_ESCAPE, KeyCode.ESCAPE);
   (K_PAGE_UP, KeyCode.PAGE_UP); (K_PAGE_DOWN, KeyCode.PAGE_DOWN); (K_END, KeyCode.END); (K_HOME, KeyCode.HOME); (K_LEFT, KeyCode.LEFT); (K_UP, KeyCode.UP);
   (K_RIGHT, KeyCode.RIGHT); (K_DOWN, KeyCode.DOWN); (K_INSERT, KeyCode.INSERT); (K_DELETE, KeyCode.DELETE); (K_NUM_LOCK, KeyCode.NUM_LOCK); (K_SCROLL_LOCK, KeyCode.SCROLL_LOCK);
   (K_SEMICOLON, KeyCode.SEMICOLON); (K_EQUAL, KeyCode.EQUAL); (K_COMMA, KeyCode.COMMA); (K_MINUS, KeyCode.MINUS); (K_PERIOD, KeyCode.PERIOD); (K_SLASH, KeyCode.SLASH);
   (K_GRAVE_ACCENT, KeyCode.GRAVE); (K_LEFT_BRACKET, KeyCode.LEFT_BRACKET); (K_BACKSLASH, KeyCode.BACKSLASH); (K_RIGHT_BRACKET, KeyCode.RIGHT_BRACKET); (K_APOSTROPHE, KeyCode.APOSTROPHE);
   (K_LEFT_SUPER, KeyCode.LEFT_SUPER); (K_RIGHT_SUPER, KeyCode.RIGHT_SUPER); (K_LEFT_ALT, KeyCode.LEFT_ALT); (K_RIGHT_ALT, KeyCode.RIGHT_ALT)].

(** The part of a window that its callbacks use; positions are [double]s. *)
Record GLFWGameWindow := mkGlfw { lastMouseX : spec_float; lastMouseY : spec_float; relativeScale : Z; warnedButtons : bool; focused : bool; shouldClose : bool }.
Definition dmul (x : spec_float) (z : Z) : spec_float := SFmul 53 1024 x (WindowCallbacks.double_of_Z z).
Definition dsub : spec_float -> spec_float -> spec_float := SFsub 53 1024.

(** [floor] of an integer; the divisions are those of [int]. *)
Definition setRelativeScale (fx fy wx wy : Z) (g : GLFWGameWindow) : outcome exn GLFWGameWindow :=
  if decide (wx = 0 \/ wy = 0) then Undef
  else Ret (mkGlfw (lastMouseX g) (lastMouseY g) (Z.quot (Z.quot fx wx + Z.quot fy wy) 2) (warnedButtons g) (focused g) (shouldClose g)).

Definition glfwCursorPosCallback (disabled : bool) (x y : spec_float) (g : GLFWGameWindow) : GLFWGameWindow * list WindowCallbacks.call :=
  if disabled then
    (mkGlfw x y (relativeScale g) (warnedButtons g) (focused g) (shouldClose g),
     [WindowCallbacks.c_mouse_relative (dmul (dsub x (lastMouseX g)) (relativeScale g)) (dmul (dsub y (lastMouseY g)) (relativeScale g))])
  else (g, [WindowCallbacks.c_mouse_position (dmul x (relativeScale g)) (dmul y (relativeScale g))]).
Definition setCursorDisabled (x y : spec_float) (g : GLFWGameWindow) : GLFWGameWindow :=
  mkGlfw x y (relativeScale g) (warnedButtons g) (focused g) (shouldClose g).

Section Window.
Context (GLFW_KEY : glfw_key -> Z) (GLFW_PRESS GLFW_REPEAT GLFW_MOD_CONTROL GLFW_MOUSE_BUTTON_3 GLFW_TRUE : Z).

Definition glfwMouseButtonCallback (x y : spec_float) (button action : Z) (g : GLFWGameWindow) : list WindowCallbacks.call :=
  [WindowCallbacks.c_mouse_button (dmul x (relativeScale g)) (dmul y (relativeScale g)) (button + (if decide (GLFW_MOUSE_BUTTON_3 < button) then 5 else 1))
     (if decide (action = GLFW_PRESS) then MOUSE_PRESS else MOUSE_RELEASE)].
Definition glfwScrollCallback (cx cy x y : spec_float) : list WindowCallbacks.call := [WindowCallbacks.c_mouse_scroll cx cy x y].

Definition getKeyMinecraft (keyCode : Z) : KeyCode :=
  if decide (GLFW_KEY K_F1 <= keyCode <= GLFW_KEY K_F12) then keyCode - GLFW_KEY K_F1 + KeyCode.FN1
  else match list_find (fun c => GLFW_KEY c.1 = keyCode) key_cases with
       | Some (_, (_, code)) => code
       | None => if decide (keyCode < 256) then keyCode else KeyCode.UNKNOWN
       end.
Definition key_action (action : Z) : KeyAction := if decide (action = GLFW_PRESS) then PRESS else if decide (action = GLFW_REPEAT) then REPEAT else RELEASE.
Definition backspace_text : bytes := [to_char 8].
(** An unknown key is reported once to the error handler of the window manager, which is left out
    here.  The clipboard is null when it has no text, from which no string can be made. *)
Definition glfwKeyCallback (clipboard : option bytes) (key scancode action mods : Z) (g : GLFWGameWindow) : outcome exn (GLFWGameWindow * list WindowCallbacks.call) :=
  paste ← (if decide (action = GLFW_PRESS /\ Z.land mods GLFW_MOD_CONTROL <> 0 /\ key = GLFW_KEY K_V)
           then match clipboard with Some t => Ret [WindowCallbacks.c_paste t] | None => Undef end else Ret []);
  let text := if decide (action = GLFW_PRESS \/ action = GLFW_REPEAT) then
                (if decide (key = GLFW_KEY K_BACKSPACE) then [WindowCallbacks.c_text backspace_text] else []) ++
                (if decide (key = GLFW_KEY K_ENTER) then [WindowCallbacks.c_text WindowCallbacks.newline] else [])
              else [] in
  if decide (key <> GLFW_KEY K_UNKNOWN /\ getKeyMinecraft key <> KeyCode.UNKNOWN) then
    Ret (g, paste ++ text ++ [WindowCallbacks.c_keyboard (getKeyMinecraft key) (key_action action)])
  else Ret (mkGlfw (lastMouseX g) (lastMouseY g) (relativeScale g) true (focused g) (shouldClose g),
            paste ++ text ++ [WindowCallbacks.c_keyboard scancode (key_action action)]).

(** The library's conversion of a code point to UTF-8; it throws for what is none. *)
Definition utf8 (ch : Z) : outcome exn bytes :=
  if decide (0 <= ch < 128) then Ret [to_char ch]
  else if decide (128 <= ch < 2048) then Ret [to_char (192 + ch / 64); to_char (128 + ch mod 64)]
  else if decide (2048 <= ch < 65536 /\ ~ (55296 <= ch < 57344)) then Ret [to_char (224 + ch / 4096); to_char (128 + ch / 64 mod 64); to_char (128 + ch mod 64)]
  else if decide (65536 <= ch < 1114112) then
    Ret [to_char (240 + ch / 262144); to_char (128 + ch / 4096 mod 64); to_char (128 + ch / 64 mod 64); to_char (128 + ch mod 64)]
  else Throw (runtime_error "wstring_convert::to_bytes").
Definition glfwCharCallback (ch : Z) : outcome exn (list WindowCallbacks.call) := t ← utf8 ch; Ret [WindowCallbacks.c_text t].
(** GLFW is told not to close the window; the client decides. *)
Definition glfwWindowCloseCallback (g : GLFWGameWindow) : GLFWGameWindow * list WindowCallbacks.call :=
  (mkGlfw (lastMouseX g) (lastMouseY g) (relativeScale g) (warnedButtons g) (focused g) false, [WindowCallbacks.c_close]).
Definition glfwWindowFocusCallback (win : nat) (f : Z) (g : GLFWGameWindow) (m : GlfwJoysticks.manager) : GLFWGameWindow * GlfwJoysticks.manager :=
  (mkGlfw (lastMouseX g) (lastMouseY g) (relativeScale g) (warnedButtons g) (bool_decide (f = GLFW_TRUE)) (shouldClose g),
   GlfwJoysticks.onWindowFocused win (bool_decide (f = GLFW_TRUE)) m).
Definition glfwWindowSizeCallback (w h : Z) : list WindowCallbacks.call := [WindowCallbacks.c_size w h].
End Window.

(** ** Keys *)
(** A key of a keyboard as GLFW tells it: one of those above, a function key, or one of the
    printable keys that the client has under the same code (space, digits and letters). *)
Inductive key := Named (k : glfw_key) | Fn (i : nat) | Printable (p : Z).
Definition printables : list Z := 32 :: seqZ 48 10 ++ seqZ 65 26.
Definition all_keys : list key := map (fun c => Named c.1) key_cases ++ map Fn (seq 0 12) ++ map Printable printables.
Definition key_code (k : key) : KeyCode :=
  match k with
  | Named k => default KeyCode.UNKNOWN (snd ∘ snd <$> list_find (fun c => c.1 = k) key_cases)
  | Fn i => KeyCode.FN1 + Z.of_nat i
  | Printable p => p
  end.
Lemma key_codes_nodup : NoDup (map key_code all_keys).
Proof. vm_compute. by apply (bool_decide_unpack _). Qed.
Section Keys.
Context (GLFW_KEY : glfw_key -> Z).
Definition glfw_code (k : key) : Z := match k with Named k => GLFW_KEY k | Fn i => GLFW_KEY K_F1 + Z.of_nat i | Printable p => p end.
(** The constants of different keys differ, and the function keys are numbered in order. *)
Context (codes_differ : forall k k', k ∈ all_keys -> k' ∈ all_keys -> glfw_code k = glfw_code k' -> k = k') (F12_last : GLFW_KEY K_F12 = GLFW_KEY K_F1 + 11).

Lemma fn_in i : (i < 12)%nat -> Fn i ∈ all_keys.
Proof. intros Hi. unfold all_keys. apply elem_of_app. right. apply elem_of_app. left. apply list_elem_of_fmap. exists i. split; [done|]. apply elem_of_seq. lia. Qed.
Lemma fn_range k : k ∈ all_keys -> (forall i, k <> Fn i) -> ~ (GLFW_KEY K_F1 <= glfw_code k <= GLFW_KEY K_F12).
Proof.
  intros Hk Hne Hr. apply (Hne (Z.to_nat (glfw_code k - GLFW_KEY K_F1))). apply codes_differ; [done|apply fn_in; lia|]. cbn [glfw_code]. lia.
Qed.
Lemma case_in c : c ∈ key_cases -> Named c.1 ∈ all_keys.
Proof. intros Hc. unfold all_keys. apply elem_of_app. left. apply list_elem_of_fmap. by exists c. Qed.
Lemma find_cases (P : glfw_key * KeyCode -> Prop) (Q : glfw_key * KeyCode -> Prop) `{!forall c, Decision (P c), !forall c, Decision (Q c)} l :
  Forall (fun c => P c <-> Q c) l -> list_find P l = list_find Q l.
Proof. induction 1 as [|c l Hc _ IH]; [done|]. cbn. rewrite IH. destruct (decide (P c)), (decide (Q c)); tauto. Qed.
Lemma getKey_code k : k ∈ all_keys -> getKeyMinecraft GLFW_KEY (glfw_code k) = key_code k.
Proof.
  intros Hk. unfold getKeyMinecraft. destruct k as [n|i|p].
  - rewrite decide_False by (by apply fn_range). cbn [glfw_code key_code]. rewrite (find_cases _ (fun c => c.1 = n)).
    + assert (Hin : exists c, c ∈ key_cases /\ c.1 = n).
      { unfold all_keys in Hk. apply elem_of_app in Hk as [Hk|Hk]; [apply list_elem_of_fmap in Hk as (c & [= ->] & Hc); eauto|].
        apply elem_of_app in Hk as [Hk|Hk]; apply list_elem_of_fmap in Hk as (c & ? & _); done. }
      destruct Hin as (c & Hc & <-). destruct (list_find_elem_of (fun c' : glfw_key * KeyCode => c'.1 = c.1) key_cases c Hc eq_refl) as [[i' [n' code]] E]. by rewrite E.
    + apply Forall_forall. intros c Hc. split; [|by intros ->]. intros E. assert (H : Named c.1 = Named n); [|by injection H]. apply codes_differ; [by apply case_in|done|done].
  - assert (Hi : (i < 12)%nat).
    { unfold all_keys in Hk. apply elem_of_app in Hk as [Hk|Hk]; [apply list_elem_of_fmap in Hk as (c & ? & _); done|].
      apply elem_of_app in Hk as [Hk|Hk]; apply list_elem_of_fmap in Hk as (c & ? & Hc); [|done]. simplify_eq. apply elem_of_seq in Hc. lia. }
    cbn [glfw_code key_code]. rewrite decide_True by lia. lia.
  - rewrite decide_False by (by apply fn_range). rewrite (proj2 (list_find_None _ _)).
    + cbn [glfw_code key_code]. assert (p < 256) by (unfold all_keys in Hk; apply elem_of_app in Hk as [Hk|Hk]; [apply list_elem_of_fmap in Hk as (c & ? & _); done|];
        apply elem_of_app in Hk as [Hk|Hk]; apply list_elem_of_fmap in Hk as (c & ? & Hc); simplify_eq; unfold printables in Hc; rewrite elem_of_cons, elem_of_app, !elem_of_seqZ in Hc; lia). by rewrite decide_True.
    + apply Forall_forall. intros c Hc E. assert (H : Named c.1 = Printable p); [|done]. apply codes_differ; [by apply case_in|done|done].
Qed.
(** The translation of keys loses nothing: every key of the table, every function key, digit
    and letter is translated to its own code, and no two of them to the same. *)
Theorem keys_distinct k k' : k ∈ all_keys -> k' ∈ all_keys -> getKeyMinecraft GLFW_KEY (glfw_code k) = key_code k /\
  (getKeyMinecraft GLFW_KEY (glfw_code k) = getKeyMinecraft GLFW_KEY (glfw_code k') -> k = k').
Proof.
  intros Hk Hk'. split; [by apply getKey_code|]. rewrite !getKey_code by done. intros E.
  apply list_elem_of_lookup in Hk as [i Hi]. apply list_elem_of_lookup in Hk' as [j Hj].
  assert (i = j) as ->; [|congruence]. eapply (NoDup_lookup _ _ _ _ key_codes_nodup); [by rewrite list_lookup_fmap, Hi|]. rewrite list_lookup_fmap, Hj. cbn. by rewrite E.
Qed.
End Keys.

(** The constants of GLFW 3. *)
Definition glfw3 (k : glfw_key) : Z :=
  match k with
  | K_BACKSPACE => 259 | K_TAB => 258 | K_ENTER => 257 | K_LEFT_SHIFT => 340 | K_RIGHT_SHIFT => 344 | K_LEFT_CONTROL => 341 | K_RIGHT_CONTROL => 345
  | K_PAUSE => 284 | K_CAPS_LOCK => 280 | K_ESCAPE => 256 | K_PAGE_UP => 266 | K_PAGE_DOWN => 267 | K_END => 269 | K_HOME => 268 | K_LEFT => 263 | K_UP => 265
  | K_RIGHT => 262 | K_DOWN => 264 | K_INSERT => 260 | K_DELETE => 261 | K_NUM_LOCK => 282 | K_SCROLL_LOCK => 281 | K_SEMICOLON => 59 | K_EQUAL => 61 | K_COMMA => 44
  | K_MINUS => 45 | K_PERIOD => 46 | K_SLASH => 47 | K_GRAVE_ACCENT => 96 | K_LEFT_BRACKET => 91 | K_BACKSLASH => 92 | K_RIGHT_BRACKET => 93 | K_APOSTROPHE => 39
  | K_LEFT_SUPER => 343 | K_RIGHT_SUPER => 347 | K_LEFT_ALT => 342 | K_RIGHT_ALT => 346 | K_F1 => 290 | K_F12 => 301 | K_V => 86 | K_UNKNOWN => -1
  end.
Lemma glfw3_nodup : NoDup (map (glfw_code glfw3) all_keys).
Proof. vm_compute. by apply (bool_decide_unpack _). Qed.
Lemma glfw3_differ k k' : k ∈ all_keys -> k' ∈ all_keys -> glfw_code glfw3 k = glfw_code glfw3 k' -> k = k'.
Proof.
  intros Hk Hk' E. apply list_elem_of_lookup in Hk as [i Hi]. apply list_elem_of_lookup in Hk' as [j Hj].
  assert (i = j) as ->; [|congruence]. eapply (NoDup_lookup _ _ _ _ glfw3_nodup); [by rewrite list_lookup_fmap, Hi|]. rewrite list_lookup_fmap, Hj. cbn. by rewrite E.
Qed.
Lemma keys_distinct_witness : getKeyMinecraft glfw3 301 = KeyCode.FN12 /\ (getKeyMinecraft glfw3 301 = getKeyMinecraft glfw3 259 -> Fn 11 = Named K_BACKSPACE).
Proof.
  apply (keys_distinct glfw3 glfw3_differ eq_refl (Fn 11) (Named K_BACKSPACE)); [apply fn_in; lia|exact (case_in (K_BACKSPACE, KeyCode.BACKSPACE) ltac:(left))].
Defined.

(** ** Characters *)
(** The code point of the bytes of one character. *)
Definition code_point (t : bytes) : option Z :=
  match map uchar t with
  | [a] => Some a
  | [a; b] => Some ((a - 192) * 64 + (b - 128))
  | [a; b; c] => Some ((a - 224) * 4096 + (b - 128) * 64 + (c - 128))
  | [a; b; c; d] => Some ((a - 240) * 262144 + (b - 128) * 4096 + (c - 128) * 64 + (d - 128))
  | _ => None
  end.
Lemma char_class c : TextInput.continuation c = bool_decide (128 <= uchar c < 192) /\
  TextInput.getCharByteSize c = (if decide (224 <= uchar c < 240) then 3%nat else if decide (192 <= uchar c < 224) then 2%nat else 1%nat).
Proof. destruct c as [[] [] [] [] [] [] [] []]; vm_compute; done. Qed.
Lemma four_class c : 240 <= uchar c < 248 -> Z.land (uchar c) 248 = 240.
Proof. destruct c as [[] [] [] [] [] [] [] []]; vm_compute; intros [? ?]; congruence. Qed.
Lemma cont_char z : 128 <= z < 192 -> TextInput.continuation (to_char z) = true.
Proof. intros Hz. rewrite (proj1 (char_class _)), uchar_to_char_small by lia. by apply bool_decide_eq_true_2. Qed.
Lemma lead_char z n : 0 <= z < 128 /\ n = 1%nat \/ 192 <= z < 224 /\ n = 2%nat \/ 224 <= z < 240 /\ n = 3%nat ->
  TextInput.continuation (to_char z) = false /\ TextInput.getCharByteSize (to_char z) = n.
Proof.
  intros Hz. destruct (char_class (to_char z)) as [-> ->]. rewrite uchar_to_char_small by lia. split; [apply bool_decide_eq_false_2; lia|].
  destruct Hz as [[Hz ->]|[[Hz ->]|[Hz ->]]]; repeat (destruct (decide _); try lia); done.
Qed.
Definition scalar (ch : Z) : Prop := 0 <= ch < 1114112 /\ ~ (55296 <= ch < 57344).
(** A typed character reaches the text field as itself: the bytes of any Unicode character
    are those of its code point, and below 65536 they are a character that the text field knows. *)
Theorem typed_character (ch : Z) : scalar ch -> exists t, glfwCharCallback ch = Ret [WindowCallbacks.c_text t] /\ code_point t = Some ch /\
  (ch < 65536 -> TextInput.char_ok t) /\ (65536 <= ch -> TextInput.four_bytes t).
Proof.
  intros [Hr Hs]. unfold glfwCharCallback, utf8. destruct (decide (0 <= ch < 128)) as [H1|H1]; [|destruct (decide (128 <= ch < 2048)) as [H2|H2]; [|
    destruct (decide (2048 <= ch < 65536 /\ ~ (55296 <= ch < 57344))) as [H3|H3]; [|rewrite decide_True by lia]]]; cbn [mbind outcome_bind];
    eexists; (split; [done|]); unfold code_point, TextInput.char_ok, TextInput.four_bytes; cbn [map length]; rewrite !uchar_to_char_small by dlia; (split; [f_equal; dlia|]); (split; intros Hlt; try lia).
  - destruct (lead_char ch 1) as [Ha Hb]; [lia|]. repeat split; [done|constructor|done].
  - destruct (lead_char (192 + ch / 64) 2) as [Ha Hb]; [dlia|]. repeat split; [done| |done]. repeat constructor. apply cont_char. dlia.
  - destruct (lead_char (224 + ch / 4096) 3) as [Ha Hb]; [dlia|]. repeat split; [done| |done]. repeat constructor; apply cont_char; dlia.
  - repeat split; [rewrite <- (uchar_to_char_small (240 + ch / 262144)) at 1 by dlia; apply four_class; rewrite uchar_to_char_small; dlia|]. repeat constructor; apply cont_char; dlia.
Qed.
Lemma typed_character_witness : exists t, glfwCharCallback 8364 = Ret [WindowCallbacks.c_text t] /\ code_point t = Some 8364 /\ TextInput.char_ok t.
Proof. destruct (typed_character 8364) as (t & H1 & H2 & H3 & _); [unfold scalar; lia|]. exists t. split; [exact H1|]. split; [exact H2|]. apply H3. lia. Defined.

(** ** Errors *)
(** A key that GLFW knows and the table does not, as those of the numeric keypad, is passed on
    under the scancode of the keyboard, as if it were the key with this code. *)
Theorem unknown_key_scancode GLFW_KEY press repeat_ ctrl key scancode action mods g clip : GLFW_KEY K_UNKNOWN < 0 -> 348 < key ->
  getKeyMinecraft GLFW_KEY key = KeyCode.UNKNOWN -> key <> GLFW_KEY K_V -> key <> GLFW_KEY K_BACKSPACE -> key <> GLFW_KEY K_ENTER ->
  exists g', glfwKeyCallback GLFW_KEY press repeat_ ctrl clip key scancode action mods g = Ret (g', [WindowCallbacks.c_keyboard scancode (key_action press repeat_ action)]).
Proof.
  intros Hu Hk Hm Hv Hb He. unfold glfwKeyCallback. destruct (decide (action = press /\ _ /\ _)) as [(_ & _ & ?)|_]; [done|]. cbn [mbind outcome_bind].
  destruct (decide (key = GLFW_KEY K_BACKSPACE)); [done|]. destruct (decide (key = GLFW_KEY K_ENTER)); [done|]. destruct (decide (key <> _ /\ _)) as [[_ ?]|_]; [done|].
  eexists. by destruct (decide (action = press \/ action = repeat_)).
Qed.
(** The first side button of a mouse is the key [BACKSPACE] for the client. *)
Theorem side_button_backspace press (x y : spec_float) (g : GLFWGameWindow) (w : WindowCallbacks.callbacks) added removed :
  WindowCallbacks.perform_all added removed (glfwMouseButtonCallback press 2 x y 3 press g) w =
  WindowCallbacks.perform_all added removed [WindowCallbacks.c_keyboard KeyCode.BACKSPACE PRESS] w.
Proof. unfold glfwMouseButtonCallback. rewrite (decide_True (P := press = press)) by done. done. Qed.
(** Control and V with a clipboard that has no text makes a string of a null pointer. *)
Theorem empty_clipboard_undefined GLFW_KEY press repeat_ ctrl scancode mods g : Z.land mods ctrl <> 0 ->
  glfwKeyCallback GLFW_KEY press repeat_ ctrl None (GLFW_KEY K_V) scancode press mods g = Undef.
Proof. intros Hm. unfold glfwKeyCallback. destruct (decide (press = press /\ _ /\ _)) as [_|Hn]; [done|]. by destruct Hn. Qed.
(** The scale is computed with integers: a scale of one and a half is one. *)
Theorem scale_truncated g : exists g', setRelativeScale 1500 1500 1000 1000 g = Ret g' /\ relativeScale g' = 1.
Proof. by eexists. Qed.
End Glfw.
