(* ===== verification/Daemon.v ===== *)
(** * Services that end themselves, and their start (simple-ipc, daemon-utils)

    The service side of the sockets: the thread that waits for input
    ([epoll_io_handler]), the listening socket and its connections ([unix_service_impl]) and the
    count of clients after which a service ends ([auto_shutdown_service]); and the client side,
    which starts a service that is not running ([daemon_launcher]).  The kernel's part is the
    queue of clients that wait to be accepted and the edges that [epoll_wait] reports.  What a
    connection does with its input is the model of connections. *)

From S2P Require Import Prelude CxxString Paths.
From Stdlib Require Import ZArith Ascii Lia Relations.
From stdpp Require Import base gmap strings numbers list sets.

Open Scope Z_scope.

Module Daemon.

(** ** State *)
Inductive shutdown_policy := no_connections | never.
(** The callbacks of a descriptor are those of the listening socket or those of a connection. *)
Inductive callback_set := listener | client.
Record service := mkService {
  cbs : gmap Z callback_set;
  fd : Z; path : bytes;
  connections : gset Z;
  shutdown_mode : shutdown_policy; clients : Z; requested_shutdown : bool
}.
(** Clients that wait, and descriptors with news since the last wait. *)
Record kernel := mkKernel { backlog : list Z; edges : gmap Z Z; unread : gset Z }.
Definition world : Type := service * kernel.

Definition new_service (p : shutdown_policy) : service := mkService ∅ (-1) [] ∅ p 0 false.
Definition set_cbs (c : gmap Z callback_set) (s : service) : service := mkService c (fd s) (path s) (connections s) (shutdown_mode s) (clients s) (requested_shutdown s).
Definition set_connections (c : gset Z) (s : service) : service := mkService (cbs s) (fd s) (path s) c (shutdown_mode s) (clients s) (requested_shutdown s).
Definition set_socket (f : Z) (p : bytes) (s : service) : service := mkService (cbs s) f p (connections s) (shutdown_mode s) (clients s) (requested_shutdown s).
Definition add_socket (f : Z) (c : callback_set) (s : service) : service := set_cbs (<[f := c]> (cbs s)) s.
Definition remove_socket (f : Z) (s : service) : service := set_cbs (delete f (cbs s)) s.

(** ** [auto_shutdown_service] *)
Definition on_client_connected (s : service) : service := mkService (cbs s) (fd s) (path s) (connections s) (shutdown_mode s) (clients s + 1) (requested_shutdown s).
Definition request_stop (s : service) : service := mkService (cbs s) (fd s) (path s) (connections s) (shutdown_mode s) (clients s) true.
Definition on_client_disconnected (s : service) : service :=
  let s := mkService (cbs s) (fd s) (path s) (connections s) (shutdown_mode s) (clients s - 1) (requested_shutdown s) in
  if decide (clients s = 0) then match shutdown_mode s with no_connections => request_stop s | never => s end else s.

(** ** [unix_service_impl] *)
Definition sun_path_size : nat := 108.
(** The answers of [socket], [bind], [listen] and [close]. *)
Record answers := mkAnswers { a_socket : Z; a_bind : bool; a_listen : bool; a_close : bool }.
(** The exception of [close] comes after the descriptor is forgotten. *)
Definition close (ok : bool) (s : service) : service * option exn :=
  if decide (fd s = -1) then (s, None)
  else let s := remove_socket (fd s) s in
       if ok then (set_socket (-1) [] s, None) else (set_socket (-1) (path s) s, Some (runtime_error "Failed to close socket")).
(** The result is the service after the call and the exception it throws. *)
Definition bind (a : answers) (p : bytes) (s : service) : service * option exn :=
  if decide (fd s <> -1) then (s, Some (runtime_error "Socket already created (invalid program state)"))
  else let s := set_socket (a_socket a) (path s) s in
       if decide (a_socket a < 0) then (s, Some (runtime_error "Failed to open socket"))
       else if decide (sun_path_size <= length p)%nat then (s, Some (runtime_error "Path is too long"))
       else let s := set_socket (fd s) p s in
            if negb (a_bind a) then (fst (close (a_close a) s), Some (runtime_error "Failed to bind socket"))
            else if negb (a_listen a) then (fst (close (a_close a) s), Some (runtime_error "Failed to start listening on socket"))
            else (add_socket (fd s) listener s, None).
Definition handle_incoming (w : world) : world :=
  let '(s, k) := w in
  match backlog k with
  | [] => w
  | c :: rest => (on_client_connected (set_connections ({[ c ]} ∪ connections s) (add_socket c client s)), mkKernel rest (edges k) (unread k))
  end.
Definition connection_closed (c : Z) (s : service) : service := on_client_disconnected (set_connections (connections s ∖ {[ c ]}) (remove_socket c s)).

(** ** [epoll_io_handler] *)
Definition EPOLLIN : Z := 1.
Definition EPOLLHUP : Z := 16.
Definition EPOLLRDHUP : Z := 8192.
Definition has (events bit : Z) : bool := negb (Z.land events bit =? 0).
(** The loop's body for one event; reading takes everything there is. *)
Definition handle_event (ev : Z * Z) (w : world) : world :=
  let '(s, k) := w in
  match cbs s !! ev.1 with
  | None => w
  | Some cb =>
      if has ev.2 EPOLLRDHUP || has ev.2 EPOLLHUP then
        match cb with listener => (fst (close true s), k) | client => (connection_closed ev.1 s, k) end
      else if has ev.2 EPOLLIN then
        match cb with listener => handle_incoming w | client => (s, mkKernel (backlog k) (edges k) (unread k ∖ {[ ev.1 ]})) end
      else w
  end.
(** A turn of the loop with the events that are there, which is at most [event_count]; an edge is reported once. *)
Definition event_count : nat := 64.
Definition run_turn (w : world) : world :=
  let evs := take event_count (map_to_list (edges w.2)) in
  foldl (fun w ev => handle_event ev w) (w.1, mkKernel (backlog w.2) (foldr (fun ev m => delete ev.1 m) (edges w.2) evs) (unread w.2)) evs.

(** ** The outside *)
Definition add_edge (f e : Z) (k : kernel) : kernel := mkKernel (backlog k) (<[f := Z.lor (default 0 (edges k !! f)) e]> (edges k)) (unread k).
Inductive happening := Connects (c : Z) | Sends (c : Z) | HangsUp (c : Z).
Definition happen (h : happening) (w : world) : world :=
  match h with
  | Connects c => (w.1, add_edge (fd w.1) EPOLLIN (mkKernel (backlog w.2 ++ [c]) (edges w.2) (unread w.2)))
  | Sends c => (w.1, add_edge c EPOLLIN (mkKernel (backlog w.2) (edges w.2) ({[ c ]} ∪ unread w.2)))
  | HangsUp c => (w.1, add_edge c (Z.lor EPOLLIN EPOLLRDHUP) w.2)
  end.

(** ** Clients are counted *)
Record wf (w : world) : Prop := {
  wf_clients : forall f, cbs w.1 !! f = Some client <-> f ∈ connections w.1;
  wf_listener : forall f, cbs w.1 !! f = Some listener -> f = fd w.1 /\ fd w.1 <> -1;
  wf_socket : fd w.1 ∉ connections w.1;
  wf_nonneg : forall c, c ∈ connections w.1 -> 0 <= c;
  wf_count : clients w.1 = Z.of_nat (size (connections w.1));
  wf_backlog : NoDup (backlog w.2);
  wf_fresh : forall c, c ∈ backlog w.2 -> 0 <= c /\ c <> fd w.1 /\ c ∉ connections w.1
}.
(** The service asks to end when the last client leaves, if that is its policy. *)
Definition left_alone (s s' : service) : Prop := shutdown_mode s = no_connections /\ connections s <> ∅ /\ connections s' = ∅.
Definition stops (s s' : service) : Prop := requested_shutdown s' = true <-> requested_shutdown s = true \/ left_alone s s'.
Lemma stops_same s s' : requested_shutdown s' = requested_shutdown s -> connections s ⊆ connections s' -> stops s s'.
Proof. intros E Hc. unfold stops, left_alone. rewrite E. split; [by left|]. intros [H|(_ & H1 & H2)]; [done|]. set_solver. Qed.
Lemma handle_incoming_wf w : wf w -> wf (handle_incoming w) /\ stops w.1 (handle_incoming w).1.
Proof.
  destruct w as [s k]. intros [Hc Hl Hs0 Hp Hn Hb Hf]. cbn [fst snd] in *. unfold handle_incoming. destruct (backlog k) as [|c rest] eqn:Eb; [split; [split; cbn [fst snd]; rewrite ?Eb; done|by apply stops_same]|].
  apply NoDup_cons in Hb as [Hnew Hb]. destruct (Hf c) as (H0 & H1 & H2); [left|]. split; [|apply stops_same; cbn; [done|set_solver]].
  split; cbn [fst snd cbs fd connections clients backlog on_client_connected set_connections add_socket set_cbs].
  - intros f. destruct (decide (f = c)) as [->|Hne]; [rewrite lookup_insert_eq; set_solver|rewrite lookup_insert_ne, Hc by congruence; set_solver].
  - intros f. destruct (decide (f = c)) as [->|Hne]; [by rewrite lookup_insert_eq|rewrite lookup_insert_ne by congruence; apply Hl].
  - intros [?%elem_of_singleton|]%elem_of_union; [congruence|done].
  - intros c' [->%elem_of_singleton|]%elem_of_union; [done|by apply Hp].
  - rewrite Hn, size_union, size_singleton by set_solver. lia.
  - done.
  - intros c' Hc'. destruct (Hf c') as (? & ? & ?); [by right|]. split; [done|]. split; [done|]. intros [->%elem_of_singleton|]%elem_of_union; done.
Qed.
Lemma connection_closed_wf c s k : wf (s, k) -> c ∈ connections s -> wf (connection_closed c s, k) /\ stops s (connection_closed c s).
Proof.
  intros [Hc Hl Hs0 Hp Hn Hb Hf] Hin. cbn [fst snd] in *. unfold connection_closed, on_client_disconnected.
  set (s1 := mkService _ _ _ _ _ _ _). assert (Hs : size (connections s) = S (size (connections s ∖ {[ c ]}))).
  { rewrite size_difference by set_solver. rewrite size_singleton. assert (size (connections s) <> 0%nat); [|lia]. intros E. apply size_empty_inv in E. set_solver. }
  assert (Hw1 : wf (s1, k)).
  { subst s1. split; cbn [fst snd cbs fd connections clients backlog set_connections remove_socket set_cbs].
    - intros f. destruct (decide (f = c)) as [->|Hne]; [rewrite lookup_delete_eq; set_solver|rewrite lookup_delete_ne, Hc by congruence; set_solver].
    - intros f H. apply lookup_delete_Some in H as [_ H]. by apply Hl.
    - set_solver.
    - intros c' Hc'. apply Hp. set_solver.
    - rewrite Hn, Hs. lia.
    - done.
    - intros c' Hc'. destruct (Hf c' Hc') as (? & ? & ?). split; [done|]. split; [done|]. set_solver. }
  assert (Hz : clients s1 = 0 <-> connections s1 = ∅).
  { pose proof (wf_count _ Hw1) as Hn1. cbn [fst] in Hn1. rewrite Hn1. split; [intros E; apply leibniz_equiv, size_empty_inv; lia|intros ->; by rewrite size_empty]. }
  assert (Hne : connections s <> ∅) by set_solver. unfold stops, left_alone.
  destruct (decide (clients s1 = 0)) as [E|E]; [|split; [done|]; cbn; split; [by left|intros [|(_ & _ & H)]; [done|by apply Hz in H]]].
  destruct (shutdown_mode s1) eqn:Em; subst s1; cbn in Em.
  - split; [by destruct Hw1|]. cbn. split; [intros _; right; split; [done|]; split; [done|by apply Hz]|done].
  - split; [done|]. cbn. split; [by left|]. intros [|(H & _)]; [done|congruence].
Qed.
Lemma close_wf s k : wf (s, k) -> wf (fst (close true s), k) /\ stops s (fst (close true s)).
Proof.
  intros [Hc Hl Hs0 Hp Hn Hb Hf]. cbn [fst snd] in *. unfold close. destruct (decide (fd s = -1)) as [E|E]; [split; [by split|by apply stops_same]|]. split; [|by apply stops_same].
  split; cbn [fst snd cbs fd connections clients set_socket remove_socket set_cbs].
  - intros f. rewrite lookup_delete_Some, Hc. split; [tauto|]. intros H. split; [|done]. by intros <-.
  - intros f H. apply lookup_delete_Some in H as [Hne H]. by apply Hl in H as [-> _].
  - intros H. apply Hp in H. lia.
  - done.
  - done.
  - done.
  - intros c Hc'. destruct (Hf c Hc') as (? & ? & ?). split; [done|]. split; [lia|done].
Qed.
Lemma handle_event_wf ev w : wf w -> wf (handle_event ev w) /\ stops w.1 (handle_event ev w).1.
Proof.
  destruct w as [s k]. intros Hw. unfold handle_event. destruct (cbs s !! ev.1) as [cb|] eqn:Ec; [|split; [done|by apply stops_same]].
  destruct (has ev.2 EPOLLRDHUP || has ev.2 EPOLLHUP).
  - destruct cb; [by apply close_wf|]. apply connection_closed_wf; [done|]. by apply (wf_clients _ Hw).
  - destruct (has ev.2 EPOLLIN); [|split; [done|by apply stops_same]]. destruct cb; [by apply handle_incoming_wf|].
    split; [|by apply stops_same]. destruct Hw as [Hc Hl Hs0 Hp Hn Hb Hf]. by split.
Qed.
Definition happening_ok (h : happening) (w : world) : Prop :=
  match h with Connects c => 0 <= c /\ c <> fd w.1 /\ c ∉ connections w.1 /\ c ∉ backlog w.2 | _ => True end.
Lemma happen_wf h w : wf w -> happening_ok h w -> wf (happen h w) /\ (happen h w).1 = w.1.
Proof.
  intros [Hc Hl Hs0 Hp Hn Hb Hf] Hok. destruct h as [c|c|c]; (split; [|done]); cbn [happen]; (split; cbn [fst snd add_edge backlog]; try done).
  - apply NoDup_app. split; [done|]. split; [|apply NoDup_singleton]. intros x Hx ->%list_elem_of_singleton. by destruct Hok as (_ & _ & _ & ?).
  - intros c' [H| ->%list_elem_of_singleton]%elem_of_app; [by apply Hf|]. by destruct Hok as (? & ? & ? & _).
Qed.
Inductive step : world -> world -> Prop :=
| step_event ev w : step w (handle_event ev w)
| step_happen h w : happening_ok h w -> step w (happen h w).
Definition bound (p : shutdown_policy) (f : Z) (t : bytes) : world := (add_socket f listener (set_socket f t (new_service p)), mkKernel [] ∅ ∅).
Lemma bound_wf p f t : 0 <= f -> wf (bound p f t).
Proof.
  intros Hf. split; cbn [fst snd bound cbs fd connections clients backlog add_socket set_socket set_cbs new_service]; [| |set_solver|set_solver|done|constructor|].
  - intros g. split; [|set_solver]. intros [[_ [=]]|[_ H]]%lookup_insert_Some. by rewrite lookup_empty in H.
  - intros g [[<- _]|[_ H]]%lookup_insert_Some; [split; [done|lia]|by rewrite lookup_empty in H].
  - intros c H. by apply elem_of_nil in H.
Qed.
(** C22. The count of clients is right, and a service ends when it should: however clients connect,
    send and hang up and whatever events are handled, the count is the number of open
    connections, whose descriptors are the registered ones, and an event makes the service ask to
    end exactly when it closes the last connection and the policy is [no_connections]. *)
Theorem clients_counted p f t w ev : 0 <= f -> rtc step (bound p f t) w ->
  clients w.1 = Z.of_nat (size (connections w.1)) /\ (forall c, cbs w.1 !! c = Some client <-> c ∈ connections w.1) /\ stops w.1 (handle_event ev w).1.
Proof.
  intros Hf Hs. assert (Hw : wf w).
  { pose proof (bound_wf p f t Hf) as Hb. induction Hs as [w|w1 w2 w3 H12 _ IH]; [done|]. apply IH. destruct H12 as [ev' w|h w Hok]; [by apply handle_event_wf|by apply happen_wf]. }
  split; [apply Hw|]. split; [apply Hw|]. by apply handle_event_wf.
Qed.
Lemma clients_counted_witness : exists w, rtc step (bound no_connections 3 (lit "/run/s")) w /\ clients w.1 = 1 /\ left_alone w.1 (handle_event (5, EPOLLRDHUP) w).1.
Proof.
  set (w := handle_event (3, EPOLLIN) (happen (Connects 5) (bound no_connections 3 (lit "/run/s")))).
  assert (Hs : rtc step (bound no_connections 3 (lit "/run/s")) w).
  { eapply rtc_l; [apply (step_happen (Connects 5)); vm_compute; repeat split; [done|done|by intros ?|by intros ?%elem_of_nil]|]. apply rtc_once, step_event. }
  destruct (clients_counted no_connections 3 (lit "/run/s") w (5, EPOLLRDHUP) ltac:(lia) Hs) as (H1 & _ & H2).
  exists w. split; [exact Hs|]. split; [rewrite H1; vm_compute; reflexivity|]. destruct (proj1 H2) as [H|H]; [vm_compute; reflexivity|vm_compute in H; discriminate H|exact H].
Defined.

(** ** Turns of the loop *)
Lemma quiet_turn w : edges w.2 = ∅ -> run_turn w = w.
Proof. intros E. destruct w as [s [b e u]]. cbn [snd edges] in E. subst e. unfold run_turn. cbn [snd edges]. by rewrite map_to_list_empty. Qed.
Lemma added_there f c s : cbs (add_socket f c s) !! f = Some c.
Proof. apply lookup_insert_eq. Qed.
(** The listening socket reports an edge once for all the clients that came since, and one client
    is accepted for an edge: of two clients that connect between two turns the second waits, and
    no number of further turns accepts it. *)
Theorem second_client_waits p f t c1 c2 n : f <> c1 -> f <> c2 -> c1 <> c2 ->
  let w := Nat.iter n run_turn (run_turn (happen (Connects c2) (happen (Connects c1) (bound p f t)))) in
  backlog w.2 = [c2] /\ connections w.1 = {[ c1 ]} /\ edges w.2 = ∅.
Proof.
  intros H1 H2 H12. set (w := run_turn _). assert (Hw : backlog w.2 = [c2] /\ connections w.1 = {[ c1 ]} /\ edges w.2 = ∅).
  { subst w. unfold run_turn. cbn [happen bound fst snd fd add_socket set_socket set_cbs add_edge edges backlog unread app].
    rewrite lookup_empty, lookup_insert_eq, insert_insert_eq. cbn [default]. replace (<[f := Z.lor (Z.lor 0 EPOLLIN) EPOLLIN]> ∅ : gmap Z Z) with ({[ f := EPOLLIN ]} : gmap Z Z) by done.
    rewrite map_to_list_singleton. cbn [take event_count foldr foldl fst]. rewrite delete_singleton_eq. unfold handle_event. cbn [fst snd].
    rewrite added_there. cbn. split; [done|]. split; [set_solver|done]. }
  cbn zeta. induction n as [|n IH]; [exact Hw|]. rewrite Nat.iter_succ. destruct IH as (Hb & Hc & He). rewrite quiet_turn by done. done.
Qed.
(** A client that sends and then hangs up before the next turn is closed without its data being
    read. *)
Theorem last_data_unread p f t c : 0 <= c -> f <> c ->
  let w := run_turn (happen (HangsUp c) (happen (Sends c) (run_turn (happen (Connects c) (bound p f t))))) in
  connections w.1 = ∅ /\ unread w.2 = {[ c ]}.
Proof.
  intros Hc Hf. cbn zeta. set (w1 := run_turn (happen (Connects c) (bound p f t))).
  assert (Hw : w1 = (on_client_connected (set_connections ({[ c ]} ∪ ∅) (add_socket c client (bound p f t).1)), mkKernel [] ∅ ∅)).
  { subst w1. unfold run_turn. cbn [happen bound fst snd fd add_socket set_socket set_cbs add_edge edges backlog unread app]. rewrite lookup_empty. cbn [default].
    replace (<[f := Z.lor 0 EPOLLIN]> ∅ : gmap Z Z) with ({[ f := EPOLLIN ]} : gmap Z Z) by done.
    rewrite map_to_list_singleton. cbn [take event_count foldr foldl fst]. rewrite delete_singleton_eq. unfold handle_event. cbn [fst snd]. by rewrite added_there. }
  rewrite Hw. clear w1 Hw. unfold run_turn. cbn [happen fst snd add_edge edges backlog unread]. rewrite lookup_empty, lookup_insert_eq, insert_insert_eq. cbn [default].
  replace (<[c := Z.lor (Z.lor 0 EPOLLIN) (Z.lor EPOLLIN EPOLLRDHUP)]> ∅ : gmap Z Z) with ({[ c := Z.lor EPOLLIN EPOLLRDHUP ]} : gmap Z Z) by done.
  rewrite map_to_list_singleton. cbn [take event_count foldr foldl fst]. unfold handle_event. cbn [fst snd].
  replace (cbs (on_client_connected _) !! c) with (Some client) by (symmetry; apply added_there).
  split; [|cbn; set_solver]. unfold connection_closed, on_client_disconnected. cbn. case_decide; [|cbn; set_solver]. destruct p; cbn; set_solver.
Qed.
(** A path that is too long is found after the socket is made, which is not closed: the service
    can never be bound again. *)
Theorem long_path_leaks a a' p p' s : fd s = -1 -> 0 <= a_socket a -> (sun_path_size <= length p)%nat ->
  exists e e', snd (bind a p s) = Some e /\ bind a' p' (fst (bind a p s)) = (fst (bind a p s), Some e').
Proof.
  intros Hf Ha Hp. unfold bind at 1 3 4. rewrite (decide_False (P := fd s <> -1)) by (intros H; by apply H). rewrite (decide_False (P := a_socket a < 0)) by lia. rewrite (decide_True (P := (sun_path_size <= length p)%nat)) by done.
  cbn [fst snd]. unfold bind. rewrite decide_True by (cbn; lia). eauto.
Qed.
(** A failed [bind] or [listen] leaves the service as it was, so that it can be tried again. *)
Lemma failed_bind_undone a p s : fd s = -1 -> path s = [] -> (length p < sun_path_size)%nat -> 0 <= a_socket a -> cbs s !! a_socket a = None -> a_bind a = false \/ a_listen a = false -> a_close a = true ->
  fst (bind a p s) = s.
Proof.
  intros Hf Hp Hl Ha Hn Hb Hc. unfold bind. rewrite decide_False by (intros H; by apply H). rewrite decide_False by lia. rewrite decide_False by lia. cbn [fd path set_socket].
  assert (Hclose : fst (close (a_close a) (set_socket (a_socket a) p (set_socket (a_socket a) (path s) s))) = s).
  { unfold close. cbn [fd set_socket]. rewrite decide_False by lia. rewrite Hc. cbn. destruct s; cbn in *; subst. unfold set_socket, remove_socket, set_cbs. cbn. by rewrite delete_id. }
  destruct (a_bind a); cbn [negb]; [|done]. destruct (a_listen a); cbn [negb]; [|done]. by destruct Hb.
Qed.

(** ** [daemon_launcher] *)
Definition NUL : ascii := to_char 0.
(** [strncmp(a, b, n) == 0]; behind the end of a string there is a null character. *)
Fixpoint strncmp_eq (n : nat) (a b : bytes) : bool :=
  match n with
  | O => true
  | S n =>
      let x := default NUL (head a) in let y := default NUL (head b) in
      if decide (x = y) then if decide (x = NUL) then true else strncmp_eq n (tail a) (tail b) else false
  end.
Definition service_filename (service_path : bytes) : bytes :=
  match rfind_char "/"%char service_path with Some iof => drop (S iof) service_path | None => service_path end.
(** What the thread of the sockets sees of the signals and of the directory; a record of the
    directory is its watch and the name with the zeros that fill it up. *)
Inductive input := SignalData (waitpid : Z) | SignalClosed | WatchData (read_all : bool) (records : list (Z * bytes)) | WatchClosed.
(** [std::promise] throws when it is set again; in this thread nothing catches. *)
Definition set_value (done : bool) : outcome exn bool := if done then Throw (runtime_error "promise_already_satisfied") else Ret true.
Fixpoint records_loop (wd : Z) (name : bytes) (records : list (Z * bytes)) (done : bool) : outcome exn bool :=
  match records with
  | [] => Ret done
  | (w, n) :: records =>
      done ← (if decide (w = wd) then if strncmp_eq (length n) n name then set_value done else Ret done else Ret done);
      records_loop wd name records done
  end.
Definition handle_input (wd : Z) (name : bytes) (x : input) (done : bool) : outcome exn bool :=
  match x with
  | SignalData p => if decide (p = -1) then Ret done else set_value done
  | SignalClosed | WatchClosed => set_value done
  | WatchData read_all records => if read_all then records_loop wd name records done else Ret done
  end.
Fixpoint handle_inputs (wd : Z) (name : bytes) (l : list input) (done : bool) : outcome exn bool :=
  match l with [] => Ret done | x :: l => done ← handle_input wd name x done; handle_inputs wd name l done end.

(** What the host answers: whether the path is a socket and opening it succeeds, before and after
    the watch is made, and at the end; and what arrives until the sockets are removed. *)
Record host := mkHost { is_socket : bool; opens : bool; inotify_init : Z; inotify_add_watch : Z; is_socket2 : bool; opens2 : bool; fork : Z; inputs : list input; opens3 : bool }.
Inductive action := Opened | Started.
Definition daemon_open (h : host) (service_path : bytes) : outcome exn (list action) :=
  if is_socket h && opens h then Ret [Opened]
  else if decide (inotify_init h < 0) then Throw (runtime_error "inotify_init failed")
  else if decide (inotify_add_watch h < 0) then Throw (runtime_error "inotify_add_watch failed")
  else if is_socket2 h && opens2 h then Ret [Opened]
  else if decide (fork h < 0) then Throw (runtime_error "fork failed")
  else _ ← handle_inputs (inotify_add_watch h) (service_filename service_path) (inputs h) false;
       if opens3 h then Ret [Started; Opened] else Throw (runtime_error "Failed to connect").

Lemma strncmp_padded x y k : (0 < k)%nat -> Forall (fun c => c <> NUL) x -> Forall (fun c => c <> NUL) y ->
  strncmp_eq (length (x ++ repeat NUL k)) (x ++ repeat NUL k) y = bool_decide (x = y).
Proof.
  intros Hk Hx. revert y. induction Hx as [|a x Ha _ IH]; intros y Hy.
  - destruct k as [|k]; [lia|]. cbn. destruct y as [|b y]; cbn; [done|]. apply Forall_cons in Hy as [Hb _]. by rewrite decide_False by congruence.
  - cbn [app length strncmp_eq head default tail]. destruct y as [|b y]; cbn [head default from_option tail]; unfold id.
    + rewrite decide_False by done. done.
    + apply Forall_cons in Hy as [Hb Hy]. destruct (decide (a = b)) as [->|Hne]; [|symmetry; apply bool_decide_eq_false_2; congruence].
      rewrite decide_False by done. rewrite IH by done. apply bool_decide_ext. split; [by intros ->|by intros [=]].
Qed.
(** The wait ends when the file of the service appears, and not for another file. *)
Theorem file_recognized wd (dir name other : bytes) k : (0 < k)%nat -> Forall (fun c => c <> NUL /\ c <> "/"%char) name -> Forall (fun c => c <> NUL) other ->
  handle_input wd (service_filename (dir ++ "/"%char :: name)) (WatchData true [(wd, other ++ repeat NUL k)]) false = Ret (bool_decide (other = name)).
Proof.
  intros Hk Hn Ho. assert (Hf : service_filename (dir ++ "/"%char :: name) = name).
  { unfold service_filename. rewrite Paths.rfind_char_last; [by rewrite drop_app_ge, Nat.sub_succ_l, Nat.sub_diag by lia|]. intros H. by destruct (proj1 (Forall_forall _ _) Hn _ H). }
  rewrite Hf. cbn [handle_input records_loop]. rewrite decide_True by done. rewrite strncmp_padded; [|done|done|by eapply Forall_impl; [exact Hn|intros c []]].
  destruct (bool_decide (other = name)); done.
Qed.
Lemma file_recognized_witness : handle_input 1 (service_filename (lit "/run/msa/s")) (WatchData true [(1, lit "s" ++ repeat NUL 15)]) false = Ret true.
Proof. apply (file_recognized 1 (lit "/run/msa") (lit "s") (lit "s") 15); [lia|repeat constructor; by intros ?|by repeat constructor]. Defined.
(** A service is started only after it could not be opened, once, and then opened; opening ends
    without it when it is running. *)
Theorem daemon_opened h p l : daemon_open h p = Ret l ->
  l = [Opened] /\ (is_socket h = true /\ opens h = true \/ is_socket2 h = true /\ opens2 h = true) \/
  l = [Started; Opened] /\ ~ (is_socket h = true /\ opens h = true) /\ ~ (is_socket2 h = true /\ opens2 h = true) /\ opens3 h = true.
Proof.
  unfold daemon_open. destruct (is_socket h && opens h) eqn:E1; [intros [= <-]; left; apply andb_prop in E1; auto|]. destruct (decide (inotify_init h < 0)); [done|]. destruct (decide (inotify_add_watch h < 0)); [done|].
  destruct (is_socket2 h && opens2 h) eqn:E2; [intros [= <-]; left; apply andb_prop in E2; auto|].
  destruct (decide (fork h < 0)); [done|]. destruct (handle_inputs _ _ _ _); cbn [mbind outcome_bind]; try done. destruct (opens3 h) eqn:E3; [|done]. intros [= <-]. right.
  apply andb_false_iff in E1, E2. repeat split; try done; intros []; intuition congruence.
Qed.
(** When the file appears and the service ends, or a second record for the file arrives, before
    the waiting thread has removed the sockets, the promise is set twice and the program ends. *)
Theorem second_event_terminates wd (name : bytes) x y : handle_input wd name x false = Ret true -> (handle_input wd name y false = Ret true) ->
  exists e, handle_inputs wd name [x; y] false = Throw e.
Proof.
  intros Hx Hy. cbn [handle_inputs]. rewrite Hx. cbn [mbind outcome_bind]. assert (Hl : forall l, records_loop wd name l false = Ret true -> exists e, records_loop wd name l true = Throw e).
  { induction l as [|[w n] l IH]; [done|]. cbn [records_loop]. destruct (decide (w = wd)); [|done]. destruct (strncmp_eq _ _ _); [|done]. intros _. by eexists. }
  destruct y as [q| |b l|]; cbn [handle_input] in *; [case_decide; [done|]| |destruct b; [|done]|]; try (by eexists). destruct (Hl l Hy) as [e ->]. by eexists.
Qed.
End Daemon.
