(* ===== verification/Files.v ===== *)
(** * Files of the game (libc-shim)

    The paths of Android are rewritten to the data directory (iorewrite.h); the flags of [open]
    and the commands of [fcntl] and [ioctl] are translated (file_misc.cpp), directories are
    wrapped (dirent.cpp) and [poll] is made of [select] for hosts whose [poll] is broken.
    The host's calls and constants are parameters. *)

From S2P Require Import Prelude Network.
From Stdlib Require Import ZArith Ascii Lia.
From stdpp Require Import base gmap strings numbers list sets.

Open Scope Z_scope.

Module Files.

(** ** Paths *)
Definition starts (p s : bytes) : bool := bool_decide (take (length p) s = p).
Section Rewrite.
(** [from_android_data_dir] and [to_android_data_dir]. *)
Context (from to : bytes).
(** [memcmp] is decided at the end of a shorter path, which it may read beyond.  [rfind] at
    position 0 gives 0, which is false, when [to] starts with [from]. *)
Definition rewritten (p : bytes) : bool := starts from p && negb (starts from to).
Definition rewrite (p : bytes) : bytes := if rewritten p then to ++ drop (length from) p else p.
(** The calls; [None] is a null pointer, from which no string can be made. *)
Definition iorewrite0 (p : option bytes) : outcome exn bytes := match p with Some p => Ret (rewrite p) | None => Undef end.
Definition iorewrite1 {A} (org : option bytes -> A) (p : option bytes) : A := org (rewrite <$> p).
(** The function calls itself after the first path is rewritten. *)
Fixpoint iorewrite2 {A} (fuel : nat) (org : option bytes -> option bytes -> A) (p1 p2 : option bytes) : outcome exn A :=
  match fuel with
  | O => Diverge
  | S fuel =>
      match p1 with
      | Some p => if rewritten p then iorewrite2 fuel org (Some (rewrite p)) p2 else Ret (org p1 (rewrite <$> p2))
      | None => Ret (org p1 (rewrite <$> p2))
      end
  end.

Lemma starts_spec p s : starts p s = true <-> exists r, s = p ++ r.
Proof.
  unfold starts. rewrite bool_decide_eq_true. split; [intros E; exists (drop (length p) s); by rewrite <- E, take_drop at 1|intros [r ->]; apply take_app_length].
Qed.
Lemma rewritten_spec p : rewritten p = true <-> (exists r, p = from ++ r) /\ starts from to = false.
Proof. unfold rewritten. by rewrite andb_true_iff, starts_spec, negb_true_iff. Qed.
(** When the new directory is at least as long as the old one, no path is rewritten twice. *)
Lemma rewrite_final p : (length from <= length to)%nat -> rewritten (rewrite p) = false.
Proof.
  intros Hl. unfold rewrite. destruct (rewritten p) eqn:E; [|done]. unfold rewritten. destruct (starts from to) eqn:Et; [apply andb_false_r|].
  rewrite andb_true_r. apply not_true_iff_false. intros H. apply not_true_iff_false in Et. apply Et. unfold starts in *. rewrite bool_decide_eq_true in *. by rewrite take_app_le in H.
Qed.
Lemma rewrite_shorter p : (length to < length from)%nat -> rewritten p = true -> (length (rewrite p) < length p)%nat.
Proof. intros Hl Hr. unfold rewrite. rewrite Hr. apply rewritten_spec in Hr as [[r ->] _]. rewrite drop_app_length, !length_app. lia. Qed.
(** [rename] always calls the host: with the length of its path as fuel the recursion ends. *)
Lemma iorewrite2_total {A} (org : option bytes -> option bytes -> A) fuel : forall p1 p2, (match p1 with Some p => S (length p) < fuel | None => 0 < fuel end)%nat ->
  exists q, iorewrite2 fuel org p1 p2 = Ret (org q (rewrite <$> p2)) /\ match q with Some q => rewritten q = false | None => True end.
Proof.
  induction fuel as [|fuel IH]; intros [p|] p2 Hf; try lia; [|exists None; done]. cbn [iorewrite2]. destruct (rewritten p) eqn:E; [|by exists (Some p)].
  destruct (decide (length to < length from)%nat) as [Hl|Hl]; [apply IH; pose proof (rewrite_shorter p Hl E); lia|].
  destruct fuel as [|fuel]; [lia|]. cbn [iorewrite2]. rewrite (rewrite_final p) by lia. exists (Some (rewrite p)). split; [done|]. apply rewrite_final. lia.
Qed.
End Rewrite.
(** The game's files stay in the data directory: a path below the directory of Android
    becomes the same path below the launcher's, every other path stays, nothing is rewritten a
    second time, and the functions of two paths end with both rewritten. *)
Theorem paths_rewritten {A} from to (org : option bytes -> option bytes -> A) p1 p2 : (length from <= length to)%nat -> starts from to = false ->
  (forall r, rewrite from to (from ++ r) = to ++ r) /\ (forall p, starts from p = false -> rewrite from to p = p) /\ (forall p, rewrite from to (rewrite from to p) = rewrite from to p) /\
  iorewrite2 from to 2 org (Some p1) (Some p2) = Ret (org (Some (rewrite from to p1)) (Some (rewrite from to p2))).
Proof.
  intros Hl Ht. split; [|split; [|split]].
  - intros r. unfold rewrite. rewrite (proj2 (rewritten_spec from to (from ++ r))) by eauto. by rewrite drop_app_length.
  - intros p Hp. unfold rewrite, rewritten. by rewrite Hp.
  - intros p. unfold rewrite at 1. by rewrite rewrite_final.
  - cbn [iorewrite2]. destruct (rewritten from to p1) eqn:E; [by rewrite rewrite_final by done|]. unfold rewrite at 2. by rewrite E.
Qed.
Lemma paths_rewritten_witness : rewrite (lit "/data/data") (lit "/home/me/mc") (lit "/data/data/games") = lit "/home/me/mc/games" /\
  iorewrite2 (lit "/data/data") (lit "/home/me/mc") 2 pair (Some (lit "/data/data/a")) (Some (lit "/tmp/b")) = Ret (Some (lit "/home/me/mc/a"), Some (lit "/tmp/b")).
Proof.
  destruct (paths_rewritten (lit "/data/data") (lit "/home/me/mc") pair (lit "/data/data/a") (lit "/tmp/b")) as (H1 & H2 & _ & H4); [cbn; lia|done|].
  split; [apply (H1 (lit "/games"))|]. rewrite H4. done.
Defined.
(** The directory is compared without the separator: another directory whose name continues it
    is rewritten too. *)
Theorem sibling_rewritten : rewrite (lit "/data/data/app") (lit "/home/me/mc/data") (lit "/data/data/app2/file") = lit "/home/me/mc/data2/file".
Proof. done. Qed.

(** ** Flags of files *)
(** WRONLY, RDWR, CREAT, EXCL, NOCTTY, TRUNC, APPEND, NONBLOCK and CLOEXEC; RDONLY is 0. *)
Definition file_flags : list Z := [1; 2; 64; 128; 256; 512; 1024; 2048; 524288].
Definition KNOWN_FLAGS : Z := foldr Z.lor 0 file_flags.
Definition O_CREAT_ : Z := 64.
Definition wants (flags c : Z) : bool := bool_decide (Z.land flags c <> 0).
Lemma wants_lor a b c : wants (Z.lor a b) c = wants a c || wants b c.
Proof.
  unfold wants. rewrite Z.land_lor_distr_l. apply eq_iff_eq_true. rewrite orb_true_iff, !bool_decide_eq_true, Z.lor_eq_0_iff.
  destruct (decide (Z.land a c = 0)), (decide (Z.land b c = 0)); tauto.
Qed.
Section Flags.
(** The host's constants, by those of bionic. *)
Context (O_ : Z -> Z).
Definition to_host_file_status_flags (flags : Z) : outcome exn Z :=
  if decide (Z.land flags (Z.lnot KNOWN_FLAGS) <> 0) then Throw (runtime_error "Unsupported fd flag used")
  else Ret (foldl (fun ret c => if decide (Z.land flags c <> 0) then Z.lor ret (O_ c) else ret) 0 file_flags).
(** [open]: the mode is read only when a file may be created; the result and [errno]. *)
Definition open (linux : bool) (H : Z -> Z) (rewrite : bytes -> bytes) (sys : bytes -> Z -> Z -> Z * Z) (path : option bytes) (flags mode : Z) (s : Network.errno_state)
  : outcome exn (Z * Network.errno_state) :=
  hflags ← to_host_file_status_flags flags;
  let mode := if decide (Z.land hflags (O_ O_CREAT_) <> 0) then mode else 0 in
  match path with
  | None => Undef
  | Some p => let '(ret, err) := sys (rewrite p) hflags mode in
              Ret (ret, Network.update_errno linux H (Network.mkErrno (if decide (ret < 0) then err else Network.errno s) (Network.errno_value s)))
  end.
Inductive fcntl_call := F_SETFD (arg : Z) | F_SETFL (flags : Z) | F_SETLK (lock : list Z).
Definition fcntl (sys : fcntl_call -> Z) (cmd arg : Z) (lock : list Z) : outcome exn Z :=
  if decide (cmd = 2) then Ret (sys (F_SETFD (wraps 32 arg)))
  else if decide (cmd = 4) then f ← to_host_file_status_flags (wraps 32 arg); Ret (sys (F_SETFL f))
  else if decide (cmd = 6) then Ret (sys (F_SETLK lock))
  else Throw (runtime_error "Unsupported fcntl").

(** Constants of the host that are different bits. *)
Definition separate : Prop := forall c c', c ∈ file_flags -> c' ∈ file_flags -> wants (O_ c) (O_ c') = bool_decide (c = c').
Lemma wants_fold flags l ret c : c ∈ file_flags -> Forall (fun x => x ∈ file_flags) l -> separate ->
  wants (foldl (fun ret c => if decide (Z.land flags c <> 0) then Z.lor ret (O_ c) else ret) ret l) (O_ c) = wants ret (O_ c) || (bool_decide (c ∈ l) && wants flags c).
Proof.
  intros Hc Hl Hs. induction Hl as [|x l Hx _ IH] in ret |- *; [by rewrite orb_false_r|]. cbn [foldl]. rewrite IH.
  assert (Hx' : wants (if decide (Z.land flags x <> 0) then Z.lor ret (O_ x) else ret) (O_ c) = wants ret (O_ c) || (wants flags x && bool_decide (x = c))).
  { destruct (decide (Z.land flags x <> 0)) as [H|H]; [rewrite wants_lor, (Hs x c) by done; by replace (wants flags x) with true by (symmetry; by apply bool_decide_eq_true_2)|].
    replace (wants flags x) with false by (symmetry; by apply bool_decide_eq_false_2). by rewrite orb_false_r. }
  rewrite Hx', <- orb_assoc. f_equal. destruct (decide (x = c)) as [->|Hne].
  - rewrite (bool_decide_eq_true_2 (c = c)), (bool_decide_eq_true_2 (c ∈ c :: l)) by (done || left). by destruct (wants flags c), (bool_decide (c ∈ l)).
  - rewrite (bool_decide_eq_false_2 (x = c)) by done. rewrite andb_false_r. cbn [orb]. f_equal. apply bool_decide_ext. rewrite elem_of_cons. split; [by right|]. intros [->|]; [done|done].
Qed.
(** The flags of [open] are translated one by one: flags that bionic does not define for it are
    refused with an exception, and otherwise the host gets exactly the host's bits of the flags that are set. *)
Theorem flags_translated flags : separate ->
  (Z.land flags (Z.lnot KNOWN_FLAGS) <> 0 -> exists e, to_host_file_status_flags flags = Throw e) /\
  (Z.land flags (Z.lnot KNOWN_FLAGS) = 0 -> exists h, to_host_file_status_flags flags = Ret h /\ forall c, c ∈ file_flags -> wants h (O_ c) = wants flags c).
Proof.
  intros Hs. unfold to_host_file_status_flags. split; intros H; [rewrite decide_True by done; eauto|]. rewrite decide_False by (intros Hn; by apply Hn). eexists. split; [done|].
  intros c Hc. rewrite wants_fold; [|done|by apply Forall_forall|done]. rewrite (bool_decide_eq_true_2 (c ∈ file_flags)) by done. replace (wants 0 (O_ c)) with false; [done|]. unfold wants. by rewrite Z.land_0_l.
Qed.
End Flags.
Lemma flags_translated_witness : exists h, to_host_file_status_flags id (Z.lor 64 1) = Ret h /\ wants h 64 = true.
Proof.
  assert (Hs : separate id). { intros c c' Hc Hc'. unfold file_flags in *. rewrite !elem_of_cons, elem_of_nil in Hc, Hc'. repeat (destruct Hc as [->|Hc]); try done; repeat (destruct Hc' as [->|Hc']); done. }
  destruct (proj2 (flags_translated id (Z.lor 64 1) Hs) eq_refl) as (h & E & H). exists h. split; [exact E|]. apply (H 64). by apply (bool_decide_unpack _).
Defined.

(** ** Network interfaces *)
Section Ioctl.
Context (h : Network.host).
Notation ifreq := (bytes * Network.sockaddr)%type.
(** [strncpy] of 16 characters, the last of which is set to zero. *)
Definition copy_name (name : bytes) : bytes := take 15 name.
(** The loop over the host's interfaces; [room] is the number of the game's entries left.  Only IPv4 addresses are counted. *)
Fixpoint interfaces (room : nat) (l : list ifreq) (req : list ifreq) : outcome exn (list ifreq) :=
  match l, room, req with
  | (name, addr) :: l, S room', (_, old) :: req' =>
      if decide (Network.family addr = Network.AF_INET h) then
        a ← Network.from_host h addr old; _ ← Network.to_host h a addr; rest ← interfaces room' l req'; Ret ((copy_name name, a) :: rest)
      else interfaces (S room') l ((copy_name name, old) :: req')
  | _, _, _ => Ret []
  end.
Definition sizeof_ifreq : Z := 40.
(** [SIOCGIFCONF]: the result of the host, the interfaces and the new length in bytes. *)
Definition ioctl_interfaces (sys : nat -> Z * list ifreq) (len : Z) (req : list ifreq) : outcome exn (Z * list ifreq * Z) :=
  let cnt := Z.to_nat (len / sizeof_ifreq) in
  let '(ret, l) := sys cnt in
  if decide (ret < 0) then Ret (ret, [], len)
  else out ← interfaces cnt l req; Ret (ret, out, Z.of_nat (length out) * sizeof_ifreq).
(** [SIOCGIFNETMASK]. *)
Definition ioctl_netmask (sys : ifreq -> Z * ifreq) (buf : ifreq) : outcome exn (Z * ifreq) :=
  a ← Network.to_host h buf.2 Network.zero_addr;
  let '(ret, r) := sys (copy_name buf.1, a) in
  if decide (ret < 0) then Ret (ret, buf)
  else b ← Network.from_host h r.2 buf.2; Ret (ret, (copy_name r.1, b)).

Definition is_inet (x : ifreq) : Prop := Network.family x.2 = Network.AF_INET h.
Lemma interfaces_spec l : forall room req, Network.host_ok h -> (room <= length req)%nat ->
  exists out, interfaces room l req = Ret out /\
    Forall2 (fun o x => o.1 = copy_name x.1 /\ Network.family o.2 = 2 /\ Network.port o.2 = Network.port x.2 /\ Network.word o.2 = Network.word x.2) out (take room (filter is_inet l)).
Proof.
  induction l as [|[name addr] l IH]; intros room req Hok Hl; [destruct room; by exists []|]. destruct room as [|room]; [exists []; split; [done|by rewrite take_0]|].
  destruct req as [|[n0 old] req]; [cbn in Hl; lia|]. cbn [interfaces]. rewrite filter_cons. unfold is_inet at 1. cbn [snd]. destruct (decide (Network.family addr = Network.AF_INET h)) as [E|E].
  - destruct (Network.families_differ h Hok) as (Hd1 & Hd2 & Hd3). unfold Network.from_host. rewrite decide_False by congruence. rewrite decide_True by done. cbn [mbind outcome_bind].
    unfold Network.to_host. cbn [Network.family Network.copy]. cbn [decide]. destruct (IH room req Hok) as (out & E1 & H1); [cbn in Hl; lia|].
    rewrite E1. cbn. eexists. split; [done|]. constructor; [done|exact H1].
  - apply (IH (S room)); [done|]. exact Hl.
Qed.
(** The game gets the IPv4 interfaces of the host in order, as many as its buffer
    holds, with their names and addresses, and the length of just these. *)
Theorem interfaces_listed sys len req l ret : Network.host_ok h -> 0 <= len -> (Z.to_nat (len / sizeof_ifreq) <= length req)%nat -> sys (Z.to_nat (len / sizeof_ifreq)) = (ret, l) -> 0 <= ret ->
  exists out, ioctl_interfaces sys len req = Ret (ret, out, Z.of_nat (length out) * sizeof_ifreq) /\ Z.of_nat (length out) * sizeof_ifreq <= len /\
    Forall2 (fun o x => o.1 = copy_name x.1 /\ Network.family o.2 = 2 /\ Network.port o.2 = Network.port x.2 /\ Network.word o.2 = Network.word x.2) out (take (Z.to_nat (len / sizeof_ifreq)) (filter is_inet l)).
Proof.
  intros Hok Hlen Hreq Hsys Hret. unfold ioctl_interfaces. rewrite Hsys, decide_False by lia. destruct (interfaces_spec l (Z.to_nat (len / sizeof_ifreq)) req Hok Hreq) as (out & E & H).
  rewrite E. cbn [mbind outcome_bind]. eexists. split; [done|]. split; [|done]. apply Forall2_length in H. rewrite length_take in H. unfold sizeof_ifreq in *. pose proof (Z.mul_div_le len 40 ltac:(lia)). pose proof (Z.div_pos len 40 Hlen ltac:(lia)).
  assert (length out <= Z.to_nat (len / 40))%nat by (rewrite H; apply Nat.le_min_l). lia.
Qed.
End Ioctl.

(** ** [poll] made of [select] *)
Definition POLLIN : Z := 1.
Definition POLLPRI : Z := 2.
Definition POLLOUT : Z := 4.
Definition POLLERR : Z := 8.
Record pollfd := mkPoll { p_fd : Z; events : Z; revents : Z }.
Definition wait_time (timeout : Z) : Z * Z := (Z.quot timeout 1000, Z.rem timeout 1000 * 1000).
Definition FD_SETSIZE : Z := 1024.
(** The sets are of a fixed size. *)
Definition fds_ok (fds : list pollfd) : bool := forallb (fun f => bool_decide (0 <= p_fd f < FD_SETSIZE)) fds.
Definition fd_set_of (P : pollfd -> bool) (fds : list pollfd) : gset Z := list_to_set (map p_fd (List.filter P fds)).
Definition revents_of (r w e : gset Z) (f : pollfd) : pollfd :=
  mkPoll (p_fd f) (events f)
    (Z.lor (Z.lor (if decide (p_fd f ∈ r) then POLLIN else 0) (if decide (p_fd f ∈ w) then POLLOUT else 0)) (if decide (p_fd f ∈ e) then POLLERR else 0)).
Definition poll_via_select (select : Z -> gset Z -> gset Z -> gset Z -> Z * Z -> Z * (gset Z * gset Z * gset Z)) (fds : list pollfd) (timeout : Z) : outcome exn (Z * list pollfd) :=
  if negb (fds_ok fds) then Undef
  else
    let maxfd := foldl (fun m f => Z.max m (p_fd f)) 0 fds in
    let '(ret, (r, w, e)) := select (maxfd + 1) (fd_set_of (fun f => wants (events f) POLLIN || wants (events f) POLLPRI) fds) (fd_set_of (fun f => wants (events f) POLLOUT) fds)
                                    (fd_set_of (fun _ => true) fds) (wait_time timeout) in
    Ret (ret, map (revents_of r w e) fds).
(** A wait without a limit, which [poll] writes as a negative time, becomes a negative number of
    microseconds, which [select] refuses. *)
Theorem endless_wait_invalid : wait_time (-1) = (0, -1000).
Proof. done. Qed.
Lemma fd_set_asked P fds f : NoDup (map p_fd fds) -> f ∈ fds -> p_fd f ∈ fd_set_of P fds -> P f = true.
Proof.
  intros Hn Hf H. unfold fd_set_of in H. apply elem_of_list_to_set, list_elem_of_fmap in H as (g & E & Hg). apply list_elem_of_In, filter_In in Hg as [Hg HP].
  assert (g = f) as <-; [|done]. apply list_elem_of_In, list_elem_of_lookup in Hg as [i Hi]. apply list_elem_of_lookup in Hf as [j Hj].
  assert (i = j) as ->; [|congruence]. eapply (NoDup_lookup _ _ _ _ Hn); [by rewrite list_lookup_fmap, Hi|]. rewrite list_lookup_fmap, Hj. cbn. by rewrite E.
Qed.
(** Nothing is reported that was not asked for, on a host that only removes descriptors from
    the sets, as it is documented; urgent data is reported as data. *)
Theorem poll_reports_asked select fds timeout ret out f : NoDup (map p_fd fds) ->
  (forall n r w e t, (select n r w e t).2.1.1 ⊆ r /\ (select n r w e t).2.1.2 ⊆ w) -> poll_via_select select fds timeout = Ret (ret, out) -> f ∈ out ->
  (wants (revents f) POLLIN = true -> wants (events f) POLLIN || wants (events f) POLLPRI = true) /\ (wants (revents f) POLLOUT = true -> wants (events f) POLLOUT = true).
Proof.
  intros Hn Hsel H Hf. unfold poll_via_select in H. destruct (fds_ok fds); [|done]. cbn [negb] in H.
  specialize (Hsel (foldl (fun m f => Z.max m (p_fd f)) 0 fds + 1) (fd_set_of (fun f => wants (events f) POLLIN || wants (events f) POLLPRI) fds) (fd_set_of (fun f => wants (events f) POLLOUT) fds)
    (fd_set_of (fun _ => true) fds) (wait_time timeout)). destruct (select _ _ _ _ _) as [ret' [[r w] e]]. cbn [fst snd] in *. destruct Hsel as [Hr Hw]. injection H as <- <-.
  apply list_elem_of_fmap in Hf as (g & -> & Hg). unfold revents_of. cbn [p_fd events revents]. rewrite !wants_lor. split; intros H.
  - apply (fd_set_asked (fun f => wants (events f) POLLIN || wants (events f) POLLPRI) fds g Hn Hg), Hr. destruct (decide (p_fd g ∈ r)); [done|]. by destruct (decide (p_fd g ∈ w)), (decide (p_fd g ∈ e)).
  - apply (fd_set_asked (fun f => wants (events f) POLLOUT) fds g Hn Hg), Hw. destruct (decide (p_fd g ∈ w)); [done|]. by destruct (decide (p_fd g ∈ r)), (decide (p_fd g ∈ e)).
Qed.

(** ** Directories *)
Record dirent := mkDirent { d_ino : Z; d_off : Z; d_type : Z; d_name : bytes }.
(** A directory of the game wraps one of the host: the entries that are left, and the entry the
    last call gave out. *)
Record DIR := mkDir { wrapped : list dirent; current : option dirent }.
Notation dirs := (gmap nat DIR).
Definition opendir (host_dir : option (list dirent)) (s : dirs) : dirs * option nat :=
  match host_dir with
  | None => (s, None)
  | Some l => let p := S (list_max (map fst (map_to_list s))) in (<[p := mkDir l None]> s, Some p)
  end.
Definition closedir (p : option nat) (s : dirs) : outcome exn dirs :=
  match p with None => Ret s | Some p => match s !! p with Some _ => Ret (delete p s) | None => Undef end end.
(** The name is cut at the 255th character. *)
Definition copy_dirent (e : dirent) : dirent := mkDirent (d_ino e) (d_off e) (d_type e) (take 255 (d_name e)).
Definition readdir (p : nat) (s : dirs) : outcome exn (dirs * option dirent) :=
  match s !! p with
  | None => Undef
  | Some d => match wrapped d with
              | [] => Ret (s, None)
              | e :: l => Ret (<[p := mkDir l (Some (copy_dirent e))]> s, Some (copy_dirent e))
              end
  end.
Fixpoint read_all (fuel p : nat) (s : dirs) : outcome exn (dirs * list dirent) :=
  match fuel with
  | O => Diverge
  | S fuel => '(s, e) ← readdir p s; match e with None => Ret (s, []) | Some e => '(s, l) ← read_all fuel p s; Ret (s, e :: l) end
  end.
Lemma read_all_list l : forall p s d, s !! p = Some d -> wrapped d = l ->
  exists s', read_all (S (length l)) p s = Ret (s', map copy_dirent l) /\ is_Some (s' !! p) /\ forall q, q <> p -> s' !! q = s !! q.
Proof.
  induction l as [|e l IH]; intros p s d Hd Hw.
  - cbn [read_all length]. unfold readdir. rewrite Hd, Hw. cbn [mbind outcome_bind]. by exists s.
  - destruct (IH p (<[p := mkDir l (Some (copy_dirent e))]> s) (mkDir l (Some (copy_dirent e)))) as (s' & E & Hp & Ho); [apply lookup_insert_eq|done|].
    change (read_all (S (length (e :: l))) p s) with ('(s, x) ← readdir p s; match x with None => Ret (s, []) | Some x => '(s, l') ← read_all (S (length l)) p s; Ret (s, x :: l') end).
    unfold readdir. rewrite Hd, Hw. cbn [mbind outcome_bind]. rewrite E. cbn [mbind outcome_bind]. exists s'. split; [done|]. split; [done|]. intros q Hq. rewrite Ho by done. by apply lookup_insert_ne.
Qed.
Lemma fresh_dir (s : dirs) : s !! S (list_max (map fst (map_to_list s))) = None.
Proof.
  destruct (s !! _) as [d|] eqn:E; [|done]. apply elem_of_map_to_list, (list_elem_of_fmap_2 fst), list_elem_of_In in E. cbn [fst] in E.
  pose proof (proj1 (list_max_le (map fst (map_to_list s)) (list_max (map fst (map_to_list s)))) (le_n _)) as H. rewrite List.Forall_forall in H. apply H in E. lia.
Qed.
(** A directory is listed as it is: opening it, reading to the end and closing it gives the
    host's entries in order, with names of up to 255 characters as they are, and leaves the
    other open directories alone. *)
Theorem directory_listed l s : Forall (fun e => (length (d_name e) <= 255)%nat) l ->
  exists p s1 s2, opendir (Some l) s = (s1, Some p) /\ read_all (S (length l)) p s1 = Ret (s2, l) /\ closedir (Some p) s2 = Ret s.
Proof.
  intros Hl. unfold opendir. set (p := S _). destruct (read_all_list l p (<[p := mkDir l None]> s) (mkDir l None)) as (s2 & E & Hp & Ho); [apply lookup_insert_eq|done|].
  assert (Hc : map copy_dirent l = l).
  { clear - Hl. induction Hl as [|e l He _ IH]; [done|]. cbn [map]. f_equal; [destruct e; unfold copy_dirent; cbn [d_name d_ino d_off d_type] in *; by rewrite take_ge|exact IH]. }
  exists p. eexists _, s2. split; [done|]. split; [by rewrite E, Hc|]. unfold closedir. destruct Hp as [d Hd]. rewrite Hd. f_equal. apply map_eq. intros q.
  destruct (decide (q = p)) as [->|Hne]; [rewrite lookup_delete_eq; symmetry; apply fresh_dir|]. rewrite lookup_delete_ne, Ho by congruence. by rewrite lookup_insert_ne.
Qed.
Lemma directory_listed_witness : exists p s1 s2, opendir (Some [mkDirent 1 0 8 (lit "a"); mkDirent 2 1 4 (lit "b")]) ∅ = (s1, Some p) /\
  read_all 3 p s1 = Ret (s2, [mkDirent 1 0 8 (lit "a"); mkDirent 2 1 4 (lit "b")]) /\ closedir (Some p) s2 = Ret ∅.
Proof. apply (directory_listed [mkDirent 1 0 8 (lit "a"); mkDirent 2 1 4 (lit "b")] ∅). repeat constructor; cbn; lia. Defined.
End Files.
