(* ===== verification/LinkerUtils.v ===== *)
(** * Helpers of the linker (mcpelauncher-linker/bionic/linker)

    [linker_utils.cpp]: normal forms of paths, paths into zip files, search paths and the
    substitution of tokens in them, offsets of pages; and [linker_sleb128.h], the decoder of packed
    relocations.  Strings of C are byte strings without the terminator.  What [realpath] and
    [stat] answer is a parameter. *)

From S2P Require Import Prelude CxxString.
From Stdlib Require Import ZArith Ascii Lia.
From stdpp Require Import base list strings numbers.

Open Scope Z_scope.

Module LinkerUtils.

Definition slash : ascii := "/"%char.
Definition dot : ascii := "."%char.
Definition dollar : ascii := "$"%char.

(** ** [format_string] *)
Definition braced (t : bytes) : bytes := "{"%char :: t ++ ["}"%char].
(** The first parameter that fits behind the dollar sign: the length it takes and its replacement. *)
Fixpoint match_param (params : list (bytes * bytes)) (s : bytes) : option (nat * bytes) :=
  match params with
  | [] => None
  | (token, replacement) :: params =>
      if decide (take (length token) s = token) then Some (length token, replacement)
      else if decide (take (length token + 2) s = braced token) then Some (length token + 2, replacement)%nat
      else match_param params s
  end.
Definition string_replace (s : bytes) (pos n : nat) (r : bytes) : bytes := take pos s ++ r ++ drop (pos + n) s.
(** Every turn gets closer to the end of the text, which may change its length. *)
Fixpoint format_loop (fuel : nat) (params : list (bytes * bytes)) (str : bytes) (pos : nat) : outcome exn bytes :=
  match fuel with
  | O => Diverge
  | S fuel =>
      if decide (pos < length str)%nat then
        match find_from [dollar] str pos with
        | None => Ret str
        | Some p =>
            match match_param params (drop (S p) str) with
            | Some (n, r) => format_loop fuel params (string_replace str p (S n) r) (p + length r)
            | None => format_loop fuel params str (S p)
            end
        end
      else Ret str
  end.
Definition format_string (params : list (bytes * bytes)) (str : bytes) : outcome exn bytes := format_loop (S (length str)) params str 0.

(** ** Paths *)
Definition dirname (path : bytes) : bytes :=
  match rfind_char slash path with
  | Some O => [slash]
  | None => [dot]
  | Some i => take i path
  end.

(** [while (out_ptr > buf && *--out_ptr != '/')], on the written characters from the last one. *)
Fixpoint drop_component (out : bytes) : bytes :=
  match out with [] => [] | c :: out => if decide (c = slash) then out else drop_component out end.
(** [out] is what is written, from the last character; [len] is the size of the buffer. *)
Definition put (len : nat) (c : ascii) (out : bytes) : outcome exn bytes := if decide (length out < len)%nat then Ret (c :: out) else Undef.
Fixpoint normalize_loop (fuel len : nat) (inp out : bytes) : outcome exn bytes :=
  match fuel with
  | O => Diverge
  | S fuel =>
      match inp with
      | [] => out ← put len NUL out; Ret (tail out)
      | c :: rest =>
          let copy := out ← put len c out; normalize_loop fuel len rest out in
          if decide (c = slash) then
            c1 ← char_at inp 1;
            if decide (c1 = dot) then
              c2 ← char_at inp 2;
              if decide (c2 = slash) then normalize_loop fuel len (drop 2 inp) out
              else if decide (c2 = dot) then
                c3 ← char_at inp 3;
                if decide (c3 = slash \/ c3 = NUL) then
                  let out := drop_component out in
                  out ← (match drop 3 inp with [] => put len slash out | _ => Ret out end);
                  normalize_loop fuel len (drop 3 inp) out
                else copy
              else copy
            else if decide (c1 = slash) then normalize_loop fuel len rest out
            else copy
          else copy
      end
  end.
(** [None] is a return of false. *)
Definition normalize_path (path : bytes) : outcome exn (option bytes) :=
  match path with
  | c :: _ => if decide (c = slash) then out ← normalize_loop (S (length path)) (S (length path)) path []; Ret (Some (rev out)) else Ret None
  | [] => Ret None
  end.

(** [strncmp(haystack, needle, needle_len) == 0 && haystack[needle_len] == '/'] *)
Definition file_is_under_dir (file dir : bytes) : bool := is_prefix dir file && bool_decide (file !! length dir = Some slash).
Definition file_is_in_dir (file dir : bytes) : bool := file_is_under_dir file dir && bool_decide (slash ∉ drop (length dir + 1) file).

Definition kZipFileSeparator : bytes := lit "!/".
Definition zip_buffer : nat := 512.
Definition parse_zip_path (input_path : bytes) : outcome exn (option (bytes * bytes)) :=
  normalized ← normalize_path input_path;
  match normalized with
  | None => Ret None
  | Some path =>
      match find_str kZipFileSeparator path with
      | None => Ret None
      | Some sep => if decide (zip_buffer <= length path)%nat then Ret None else Ret (Some (take sep path, drop (sep + 2) path))
      end
  end.

(** ** Search paths *)
(** [android::base::Split]; [find_first_of] from a position. *)
Fixpoint find_first_of (delimiters s : bytes) : option nat :=
  match s with
  | [] => None
  | c :: s => if decide (c ∈ delimiters) then Some O else option_map S (find_first_of delimiters s)
  end.
Fixpoint split_loop (fuel : nat) (delimiters s : bytes) (base : nat) : outcome exn (list bytes) :=
  match fuel with
  | O => Diverge
  | S fuel =>
      match find_first_of delimiters (drop base s) with
      | None => Ret [drop base s]
      | Some n => ps ← split_loop fuel delimiters s (S (base + n)); Ret (take n (drop base s) :: ps)
      end
  end.
Definition Split (s delimiters : bytes) : outcome exn (list bytes) :=
  match delimiters with [] => Throw (runtime_error "abort") | _ => split_loop (S (length s)) delimiters s 0 end.
Definition split_path (path : option bytes) (delimiters : bytes) (paths : list bytes) : outcome exn (list bytes) :=
  match path with Some (c :: p) => Split (c :: p) delimiters | _ => Ret paths end.

Section Resolve.
(** [realpath], and whether a path names a directory: [None] when [stat] fails. *)
Context (realpath : bytes -> option bytes) (is_directory : bytes -> option bool).
(** The empty path is the answer for a path that is ignored. *)
Definition resolve_path (path : bytes) : outcome exn bytes :=
  match realpath path with
  | Some resolved => Ret (match is_directory resolved with Some true => resolved | _ => [] end)
  | None =>
      normalized ← normalize_path path;
      match normalized with
      | None => Ret []
      | Some normalized =>
          zip ← parse_zip_path normalized;
          match zip with
          | Some (zip_path, entry_path) => Ret (match realpath zip_path with Some r => r ++ kZipFileSeparator ++ entry_path | None => [] end)
          | None => Ret (match is_directory normalized with Some true => normalized | _ => [] end)
          end
      end
  end.
Fixpoint resolve_paths (paths : list bytes) : outcome exn (list bytes) :=
  match paths with
  | [] => Ret []
  | p :: paths =>
      match p with
      | [] => resolve_paths paths
      | _ => r ← resolve_path p; rs ← resolve_paths paths; Ret (match r with [] => rs | _ => r :: rs end)
      end
  end.
End Resolve.

(** ** Offsets *)
Definition PAGE_SIZE : Z := 4096.
Definition page_start (offset : Z) : Z := Z.land offset (Z.lnot (PAGE_SIZE - 1)).
Definition page_offset (offset : Z) : Z := Z.land offset (PAGE_SIZE - 1).
Definition INT64_MAX : Z := 2 ^ 63 - 1.
(** [None] is a return of false; the check aborts for a negative offset. *)
Definition safe_add (a b : Z) : outcome exn (option Z) :=
  if decide (a < 0) then Throw (runtime_error "CHECK failed: a >= 0")
  else if decide (wrapu 64 (INT64_MAX - a) < b) then Ret None else Ret (Some (a + b)).

(** ** [sleb128_decoder] *)
(** [size_t] has 64 bits; a shift by more is undefined. *)
Fixpoint sleb_loop (buffer : list Z) (value shift : Z) : outcome exn (Z * list Z) :=
  match buffer with
  | [] => Throw (runtime_error "sleb128_decoder ran out of bounds")
  | byte :: buffer =>
      if decide (64 <= shift) then Undef
      else
        let value := Z.lor value (wrapu 64 (Z.shiftl (Z.land byte 127) shift)) in
        let shift := shift + 7 in
        if decide (Z.land byte 128 <> 0) then sleb_loop buffer value shift
        else Ret (if decide (shift < 64 /\ Z.land byte 64 <> 0) then Z.lor value (wrapu 64 (- wrapu 64 (Z.shiftl 1 shift))) else value, buffer)
  end.
Definition pop_front (buffer : list Z) : outcome exn (Z * list Z) := sleb_loop buffer 0 0.

(** ** Normal forms *)
(** An absolute path is a list of components, each after a slash. *)
Definition slashed (cs : list bytes) : bytes := concat (cons slash <$> cs).
(** What the code computes, on a stack of components: the last component stays as it is, unless it goes up. *)
Fixpoint climb (stack cs : list bytes) : list bytes :=
  match cs with
  | [] => rev stack
  | [c] => if decide (c = [dot; dot]) then rev ([] :: tail stack) else rev (c :: stack)
  | c :: cs => if decide (c = [] \/ c = [dot]) then climb stack cs
               else if decide (c = [dot; dot]) then climb (tail stack) cs else climb (c :: stack) cs
  end.
Definition component (c : bytes) : Prop := slash ∉ c /\ NUL ∉ c.

Lemma drop_component_app (c out : bytes) : slash ∉ c -> drop_component (rev c ++ slash :: out) = out.
Proof.
  rewrite list_elem_of_In, in_rev, <- list_elem_of_In. induction (rev c) as [|x r IH]; cbn.
  - intros _. by rewrite decide_True.
  - intros [? ?]%not_elem_of_cons. rewrite decide_False by congruence. auto.
Qed.

(** What is written for a stack, from the last character. *)
Definition written (stack : list bytes) : bytes := rev (slashed (rev stack)).
Lemma written_cons c stack : written (c :: stack) = rev c ++ slash :: written stack.
Proof.
  unfold written, slashed. cbn [rev]. rewrite fmap_app, concat_app, rev_app_distr. cbn.
  by rewrite app_nil_r, <- app_assoc.
Qed.
Lemma drop_component_written stack : Forall component stack -> drop_component (written stack) = written (tail stack).
Proof. destruct 1 as [|c stack [? ?]]; [done|]. cbn [tail]. by rewrite written_cons, drop_component_app. Qed.
Lemma written_tail_le stack : (length (written (tail stack)) <= length (written stack))%nat.
Proof. destruct stack; [done|]. rewrite written_cons, length_app. cbn [tail length]. lia. Qed.

Lemma put_ret len c out : (length out < len)%nat -> put len c out = Ret (c :: out).
Proof. intros. unfold put. by rewrite decide_True. Qed.

(** The characters of a component are copied. *)
Lemma normalize_copy (c : bytes) : forall fuel len rest out, slash ∉ c -> (length out + length c < len)%nat ->
  normalize_loop (length c + fuel) len (c ++ rest) out = normalize_loop fuel len rest (rev c ++ out).
Proof.
  induction c as [|x c IH]; intros fuel len rest out Hn Hl; [done|].
  apply not_elem_of_cons in Hn as [? ?]. cbn [length plus app normalize_loop rev] in *. rewrite decide_False by congruence.
  rewrite put_ret by lia. cbn [mbind outcome_bind]. rewrite IH by (cbn; auto; lia). by rewrite <- app_assoc.
Qed.

(** A slash starts a component; what follows the component is the end or another slash. *)
Definition ends (rest : bytes) : Prop := rest = [] \/ exists r, rest = slash :: r.
Definition moves (c rest : bytes) : Prop := c = [dot; dot] \/ ((c = [] \/ c = [dot]) /\ rest <> []).
Lemma normalize_slash fuel len c rest out : component c -> ends rest -> ~ moves c rest -> (length out < len)%nat ->
  normalize_loop (S fuel) len (slash :: c ++ rest) out = normalize_loop fuel len (c ++ rest) (slash :: out).
Proof.
  intros [Hs Hz] He Hm Hl. cbn [normalize_loop]. rewrite decide_True by done. rewrite (put_ret len slash out) by done.
  unfold moves in Hm.
  destruct c as [|c1 c]; [destruct He as [->|[r ->]]; [done|naive_solver]|].
  apply not_elem_of_cons in Hs as [? Hs], Hz as [? Hz].
  cbn [char_at lookup list_lookup app mbind outcome_bind].
  destruct (decide (c1 = dot)) as [->|]; [|by rewrite decide_False by congruence].
  destruct c as [|c2 c]; [destruct He as [->|[r ->]]; [done|naive_solver]|].
  apply not_elem_of_cons in Hs as [? Hs], Hz as [? Hz].
  cbn [char_at lookup list_lookup app mbind outcome_bind].
  rewrite (decide_False (P := c2 = slash)) by congruence.
  destruct (decide (c2 = dot)) as [->|]; [|done].
  destruct c as [|c3 c]; [naive_solver|].
  apply not_elem_of_cons in Hs as [? Hs], Hz as [? Hz].
  cbn [char_at lookup list_lookup app mbind outcome_bind].
  rewrite decide_False; [done|]. intros [|]; congruence.
Qed.

Lemma normalize_up fuel len rest out : ends rest -> (length (drop_component out) < len)%nat ->
  normalize_loop (S fuel) len (slash :: [dot; dot] ++ rest) out =
  normalize_loop fuel len rest (match rest with [] => slash :: drop_component out | _ => drop_component out end).
Proof. intros [->|[r ->]] Hl; [|done]. cbn -[put normalize_loop]. cbn [normalize_loop]. cbn -[put normalize_loop]. by rewrite put_ret. Qed.

Lemma slashed_ends cs : ends (slashed cs).
Proof. destruct cs; [by left|right]. eexists. done. Qed.
Lemma slashed_cons c cs : slashed (c :: cs) = slash :: c ++ slashed cs.
Proof. done. Qed.

Lemma normalize_component fuel len c rest out : component c -> ends rest -> ~ moves c rest -> (length out + length c + 1 < len)%nat ->
  (length c < fuel)%nat -> normalize_loop fuel len (slash :: c ++ rest) out = normalize_loop (fuel - S (length c)) len rest (rev c ++ slash :: out).
Proof.
  intros Hc He Hm Hl Hf. destruct fuel as [|fuel]; [lia|]. rewrite normalize_slash by (auto; lia).
  replace fuel with (length c + (fuel - length c))%nat at 1 by lia. destruct Hc.
  rewrite normalize_copy by (cbn; auto; lia). done.
Qed.

Lemma climb_cons stack c d cs : climb stack (c :: d :: cs) =
  if decide (c = [] \/ c = [dot]) then climb stack (d :: cs)
  else if decide (c = [dot; dot]) then climb (tail stack) (d :: cs) else climb (c :: stack) (d :: cs).
Proof. done. Qed.

Lemma normalize_climbs cs : forall stack fuel len, Forall component cs -> Forall component stack ->
  (length (slashed cs) < fuel)%nat -> (length (written stack) + length (slashed cs) < len)%nat ->
  normalize_loop fuel len (slashed cs) (written stack) = Ret (rev (slashed (climb stack cs))).
Proof.
  induction cs as [|c cs IH]; intros stack fuel len Hcs Hst Hf Hl.
  { destruct fuel; [cbn in Hf; lia|]. cbn [slashed fmap list_fmap concat length normalize_loop] in *. rewrite put_ret by lia. done. }
  apply Forall_cons_1 in Hcs as [Hc Hcs]. rewrite slashed_cons in *. cbn [length] in Hf, Hl. rewrite length_app in Hf, Hl.
  pose proof (written_tail_le stack). assert (Forall component (tail stack)) by (destruct Hst; [constructor|done]).
  destruct (decide (c = [dot; dot])) as [->|Hup].
  - destruct fuel as [|fuel]; [lia|]. rewrite normalize_up by (auto using slashed_ends; rewrite drop_component_written by done; lia).
    rewrite drop_component_written by done. cbn [length] in *. destruct cs as [|d cs].
    + assert (component []) by (split; apply not_elem_of_nil).
      change (match slashed [] with [] => _ | _ => _ end) with (rev [] ++ slash :: written (tail stack)). rewrite <- written_cons.
      rewrite IH by (rewrite ?written_cons; auto; cbn; lia). done.
    + change (match slashed (d :: cs) with [] => _ | _ => _ end) with (written (tail stack)). rewrite IH by (auto; lia). by rewrite climb_cons.
  - destruct (decide ((c = [] \/ c = [dot]) /\ cs <> [])) as [[Hd Hn]|Hn].
    + destruct cs as [|d cs]; [done|]. destruct fuel as [|fuel]; [lia|].
      transitivity (normalize_loop fuel len (slashed (d :: cs)) (written stack)); [by destruct Hd as [-> | ->]|].
      rewrite IH by (auto; lia). by rewrite climb_cons, (decide_True _ _ Hd).
    + assert (~ moves c (slashed cs)) by (intros [?|[? ?]]; [done|apply Hn; split; [done|by intros ->]]).
      rewrite normalize_component by (auto using slashed_ends; lia).
      rewrite <- written_cons, IH by (rewrite ?written_cons, ?length_app; cbn [length]; rewrite ?length_rev; auto; lia).
      destruct cs as [|d cs]; [cbn; by rewrite decide_False|].
      rewrite climb_cons, decide_False by (intros ?; apply Hn; split; congruence). by rewrite decide_False.
Qed.

(** A component that stays where it is, wherever it is. *)
Definition plain (c : bytes) : Prop := c <> [] /\ c <> [dot] /\ c <> [dot; dot].
Definition normal (cs : list bytes) : Prop := exists init last, cs = init ++ [last] /\ Forall plain init /\ last <> [dot; dot].

Lemma climb_normal cs : forall stack, cs <> [] -> Forall plain stack -> normal (climb stack cs).
Proof.
  assert (forall st c, Forall plain st -> c <> [dot; dot] -> normal (rev (c :: st))) as Hone.
  { intros st c ? ?. exists (rev st), c. split_and!; [done| |done]. rewrite <- (Permutation_rev st). done. }
  induction cs as [|c cs IH]; [done|]. intros stack _ Hst.
  assert (Forall plain (tail stack)) by (destruct Hst; [constructor|done]).
  destruct cs as [|d cs].
  - cbn [climb]. destruct (decide _); by auto.
  - rewrite climb_cons. destruct (decide _) as [|Hd]; [by apply IH|]. destruct (decide _) as [|Hu]; [by apply IH|].
    apply IH; [done|]. constructor; [|done]. split_and!; [| |done]; intros ->; apply Hd; auto.
Qed.
Lemma climb_fixed cs : forall stack, normal cs -> climb stack cs = rev stack ++ cs.
Proof.
  intros stack (init & last & -> & Hi & Hl). revert stack. induction Hi as [|c init (Hc1 & Hc2 & Hc3) Hi IH]; intros stack.
  - cbn. by rewrite decide_False.
  - replace (climb stack ((c :: init) ++ [last])) with (climb (c :: stack) (init ++ [last])).
    + rewrite IH. cbn [rev]. by rewrite <- app_assoc.
    + cbn [app]. destruct (init ++ [last]) as [|d r] eqn:E; [by destruct init|].
      rewrite climb_cons, decide_False by (intros [|]; done). by rewrite decide_False.
Qed.
Lemma climb_component cs : forall stack, Forall component cs -> Forall component stack -> Forall component (climb stack cs).
Proof.
  induction cs as [|c cs IH]; intros stack Hcs Hst; [cbn; by rewrite <- Permutation_rev|].
  apply Forall_cons_1 in Hcs as [Hc Hcs].
  assert (Forall component (tail stack)) by (destruct Hst; [constructor|done]).
  assert (component []) by (split; apply not_elem_of_nil).
  destruct cs as [|d cs]; [cbn [climb]; destruct (decide _); rewrite <- Permutation_rev; auto|].
  rewrite climb_cons. repeat destruct (decide _); auto.
Qed.

Lemma normalize_slashed cs : cs <> [] -> Forall component cs -> normalize_path (slashed cs) = Ret (Some (slashed (climb [] cs))).
Proof.
  intros Hn Hc. destruct cs as [|c cs]; [done|]. unfold normalize_path. rewrite slashed_cons at 1. rewrite decide_True by done.
  pose proof (normalize_climbs (c :: cs) [] _ _ Hc (Forall_nil_2 _) (le_n _) (le_n _)) as H. change (written []) with (@nil ascii) in H.
  cbn [length plus] in H. rewrite H.
  cbn [mbind outcome_bind]. by rewrite rev_involutive.
Qed.

(** ** The meaning of a path *)
(** Where a path leads, as every system reads it, also at its end: an empty component and a dot stay, a double dot
    goes up (at the top, nowhere), any other component goes down. *)
Definition enter (place : list bytes) (c : bytes) : list bytes :=
  if decide (c = [] \/ c = [dot]) then place else if decide (c = [dot; dot]) then tail place else c :: place.
Definition resolve (cs : list bytes) : list bytes := rev (foldl enter [] cs).
(** What the code leaves behind a path that does not end in a name: a slash, or a slash and the dot. *)
Definition left_over (c : bytes) : list bytes :=
  if decide (c = [dot]) then [[dot]] else if decide (c = [] \/ c = [dot; dot]) then [[]] else [].
Lemma climb_resolve cs : forall stack c, climb stack (cs ++ [c]) = rev (foldl enter stack (cs ++ [c])) ++ left_over c.
Proof.
  induction cs as [|d cs IH]; intros stack c.
  - cbn. unfold enter, left_over. destruct (decide (c = [dot; dot])) as [->|Hu]; [done|]. destruct (decide (c = [])) as [->|Hn]; [done|]. destruct (decide (c = [dot])) as [->|Hd]; [done|].
    rewrite !decide_False by naive_solver. cbn. by rewrite app_nil_r.
  - cbn [app foldl]. rewrite <- IH. destruct (cs ++ [c]) as [|e r] eqn:E; [by destruct cs|]. rewrite climb_cons. unfold enter. repeat destruct (decide _); done.
Qed.
Lemma resolve_plain cs : Forall plain (resolve cs).
Proof.
  unfold resolve. apply Forall_rev. assert (forall stack, Forall plain stack -> Forall plain (foldl enter stack cs)) as H; [|by apply H].
  induction cs as [|c cs IH]; intros stack Hst; [done|]. cbn [foldl]. apply IH. unfold enter. destruct (decide _) as [|Hd]; [done|]. destruct (decide _); [by destruct Hst|].
  constructor; [split_and!; naive_solver|done].
Qed.

(** C37. Normalisation of an absolute path (one or more components without slashes and zero bytes) stays within
    its buffer, terminates, and writes the names on the way to where the path leads: every empty component, dot and
    double dot is resolved, a double dot at the top being ignored.  Behind these names it leaves what the path ended
    with when that was no name: a slash for an empty component or a double dot, and, for a dot, the dot itself, which
    the code does not resolve at the end of a path.  Normalising the result again changes nothing. *)
Theorem path_normalized (cs : list bytes) (c : bytes) : Forall component (cs ++ [c]) ->
  let normalized := slashed (resolve (cs ++ [c]) ++ left_over c) in
  normalize_path (slashed (cs ++ [c])) = Ret (Some normalized) /\ normalize_path normalized = Ret (Some normalized) /\
  Forall plain (resolve (cs ++ [c])).
Proof.
  intros Hc. cbn zeta. assert (cs ++ [c] <> []) as Hn by (by destruct cs). change (resolve (cs ++ [c])) with (rev (foldl enter [] (cs ++ [c]))) at 1 2 3. rewrite <- climb_resolve.
  pose proof (climb_normal (cs ++ [c]) [] Hn (Forall_nil_2 _)) as Hnorm. split_and!; [by apply normalize_slashed| |apply resolve_plain].
  rewrite normalize_slashed; [by rewrite (climb_fixed (climb [] _)) at 1| |by apply climb_component]. destruct Hnorm as (i & l & -> & _). by destruct i.
Qed.
Lemma path_normalized_witness :
  normalize_path (lit "/root///dir/.///dir2/somedir/../zipfile!/dir/..") = Ret (Some (lit "/root/dir/dir2/zipfile!/")).
Proof.
  assert (Forall component ((lit <$> ["root"; ""; ""; "dir"; "."; ""; ""; "dir2"; "somedir"; ".."; "zipfile!"; "dir"]%string) ++ [lit ".."])) as H
    by (repeat constructor; apply (bool_decide_unpack _); vm_compute; exact I).
  exact (proj1 (path_normalized (lit <$> ["root"; ""; ""; "dir"; "."; ""; ""; "dir2"; "somedir"; ".."; "zipfile!"; "dir"]%string) (lit "..") H)).
Defined.
(** A dot is dropped before a slash, and kept at the end. *)
Theorem final_dot_kept : normalize_path (lit "/a/.") = Ret (Some (lit "/a/.")) /\ normalize_path (lit "/a/./") = Ret (Some (lit "/a/")) /\
  resolve (lit <$> ["a"; "."]%string) = [lit "a"].
Proof. split_and!; by vm_compute. Qed.

(** ** The packed numbers *)
(** The encoding: seven bits a byte, the lowest first, until what is left is the sign. *)
Fixpoint sleb_encode (fuel : nat) (v : Z) : list Z :=
  match fuel with
  | O => []
  | S fuel =>
      let b := v mod 128 in
      if decide ((v / 128 = 0 /\ b < 64) \/ (v / 128 = -1 /\ 64 <= b)) then [b] else (b + 128) :: sleb_encode fuel (v / 128)
  end.
Definition sleb128 (v : Z) : list Z := sleb_encode 10 v.

Lemma lor_shifted_bits value b shift : 0 <= value < 2 ^ shift -> 0 <= shift < 64 ->
  Z.lor value (wrapu 64 (Z.shiftl b shift)) = (value + b * 2 ^ shift) mod 2 ^ 64.
Proof.
  intros Hv Hs. unfold wrapu. rewrite Z.shiftl_mul_pow2 by lia.
  replace (2 ^ 64) with (2 ^ (64 - shift) * 2 ^ shift) by (rewrite <- Z.pow_add_r by lia; f_equal; lia).
  rewrite Z.mul_mod_distr_r by (apply Z.pow_nonzero; lia).
  rewrite <- Z.shiftl_mul_pow2, Z.lor_comm, lor_shiftl_low by lia.
  pose proof (Z.pow_pos_nonneg 2 (64 - shift) ltac:(lia) ltac:(lia)).
  pose proof (Z.mod_pos_bound b (2 ^ (64 - shift)) ltac:(lia)). pose proof (Z.div_mod b (2 ^ (64 - shift)) ltac:(lia)) as Hb.
  apply (Z.mod_unique _ _ (b / 2 ^ (64 - shift))); [left; nia|]. rewrite Hb at 1. ring.
Qed.
Lemma low_bits v : 0 <= v mod 128 < 128 /\ Z.land (v mod 128) 127 = v mod 128 /\ Z.land (v mod 128) 128 = 0 /\
  (Z.land (v mod 128) 64 <> 0 <-> 64 <= v mod 128) /\ Z.land (v mod 128 + 128) 127 = v mod 128 /\ Z.land (v mod 128 + 128) 128 <> 0.
Proof.
  pose proof (Z.mod_pos_bound v 128 ltac:(lia)) as Hb. split; [done|]. revert Hb. generalize (v mod 128). intros b Hb.
  assert (forallb (fun b => bool_decide (Z.land b 127 = b /\ Z.land b 128 = 0 /\ (Z.land b 64 <> 0 <-> 64 <= b) /\ Z.land (b + 128) 127 = b /\ Z.land (b + 128) 128 <> 0))
    (seqZ 0 128) = true) as H by reflexivity.
  rewrite forallb_forall in H. apply (bool_decide_unpack _), Is_true_true, H, list_elem_of_In, elem_of_seqZ. lia.
Qed.

Lemma negated_shift s : 0 <= s < 64 -> wrapu 64 (- wrapu 64 (Z.shiftl 1 s)) = wrapu 64 (Z.shiftl (-1) s).
Proof. intros Hs. rewrite !Z.shiftl_mul_pow2 by lia. unfold wrapu. rewrite <- (Z.sub_0_l (_ mod _)), Zminus_mod_idemp_r. f_equal; lia. Qed.
Lemma pow_step k : 0 <= k -> 2 ^ (7 * (k + 1)) = 128 * 2 ^ (7 * k).
Proof. intros. replace (7 * (k + 1)) with (7 + 7 * k) by lia. rewrite Z.pow_add_r by lia. done. Qed.
Lemma sleb_run n : forall v k acc rest, k <= 9 -> Z.of_nat n = 10 - k -> 0 <= acc < 2 ^ (7 * k) -> 0 <= k ->
  - 2 ^ (63 - 7 * k) <= v < 2 ^ (63 - 7 * k) ->
  sleb_loop (sleb_encode n v ++ rest) acc (7 * k) = Ret ((acc + v * 2 ^ (7 * k)) mod 2 ^ 64, rest).
Proof.
  induction n as [|n IH]; intros v k acc rest Hk Hn Hacc Hk0 Hv; [lia|].
  destruct (low_bits v) as (Hb & Hl & Hz & Hs & Hc & Hc1). pose proof (Z.div_mod v 128 ltac:(lia)) as Hd.
  cbn [sleb_encode]. destruct (decide _) as [Hend|Hmore]; cbn [app sleb_loop]; rewrite decide_False by lia.
  - rewrite Hl, Hz, decide_False by (intros ?; done). rewrite lor_shifted_bits by lia. f_equal. f_equal.
    destruct (decide (7 * k + 7 < 64 /\ Z.land (v mod 128) 64 <> 0)) as [[Hw Hbit]|Hno].
    + pose proof (proj1 Hs Hbit). replace (7 * k + 7) with (7 * (k + 1)) by lia.
      pose proof (pow_step k Hk0). pose proof (Z.pow_le_mono_r 2 (7 * (k + 1)) 64 ltac:(lia) ltac:(lia)).
      rewrite (Z.mod_small (acc + _)), negated_shift, lor_shifted_bits by (try nia; lia). f_equal. rewrite pow_step by lia. nia.
    + destruct (decide (64 <= v mod 128)) as [H64|]; [|f_equal; f_equal; f_equal; lia].
      assert (k = 9) as -> by (apply Hs in H64; destruct (decide (7 * k + 7 < 64)); [by destruct Hno|lia]).
      assert (v = -1) as -> by (change (2 ^ (63 - 7 * 9)) with 1 in Hv; lia).
      change ((-1) mod 128) with 127. rewrite <- (Z.mod_add (acc + -1 * _) 64) by done. f_equal. change (2 ^ (7 * 9)) with (2 ^ 63). lia.
  - rewrite Hc, decide_True by done. rewrite lor_shifted_bits by lia.
    assert (k <> 9) by (intros ->; change (2 ^ (63 - 7 * 9)) with 1 in Hv; apply Hmore; assert (v = 0 \/ v = -1) as [-> | ->] by lia; [left|right]; by cbn).
    pose proof (pow_step k Hk0). pose proof (Z.pow_le_mono_r 2 (7 * (k + 1)) 64 ltac:(lia) ltac:(lia)).
    rewrite Z.mod_small by nia. replace (7 * k + 7) with (7 * (k + 1)) by lia.
    assert (2 ^ (63 - 7 * k) = 128 * 2 ^ (63 - 7 * (k + 1)))
      by (replace (63 - 7 * k) with (7 + (63 - 7 * (k + 1))) by lia; rewrite Z.pow_add_r by lia; done).
    rewrite IH by (try nia; lia). f_equal. f_equal. f_equal. rewrite pow_step by lia. nia.
Qed.

Lemma number_read v rest : - 2 ^ 63 <= v < 2 ^ 63 -> pop_front (sleb128 v ++ rest) = Ret (wrapu 64 v, rest).
Proof.
  intros Hv. unfold pop_front, sleb128. change 0 with (7 * 0) at 2. rewrite sleb_run by (cbn; lia). unfold wrapu. do 3 f_equal. cbn. lia.
Qed.
(** A number takes a byte at least, and reading it ends. *)
Lemma sleb_shorter buffer : forall value shift, match sleb_loop buffer value shift with Ret (_, rest) => (length rest < length buffer)%nat | Diverge => False | _ => True end.
Proof.
  induction buffer as [|b buffer IH]; intros value shift; [done|]. cbn [sleb_loop length]. destruct (decide (64 <= shift)); [done|].
  destruct (decide (Z.land b 128 <> 0)); [|lia]. specialize (IH (Z.lor value (wrapu 64 (Z.shiftl (Z.land b 127) shift))) (shift + 7)). destruct (sleb_loop buffer _ _) as [[]| | |]; [lia|done..].
Qed.

(** Every signed 64-bit number survives the packed encoding: the decoder gives back its
    64-bit pattern and stops exactly behind it; a truncated encoding is a fatal error, never a
    read behind the buffer. *)
Theorem packed_number_read (v : Z) (rest : list Z) : - 2 ^ 63 <= v < 2 ^ 63 ->
  pop_front (sleb128 v ++ rest) = Ret (wrapu 64 v, rest) /\
  (forall n, (n < length (sleb128 v))%nat -> exists e, pop_front (take n (sleb128 v)) = Throw e).
Proof.
  intros Hv. split; [by apply number_read|].
  assert (forall m w k acc n, k <= 9 -> Z.of_nat m = 10 - k -> 0 <= k -> (n < length (sleb_encode m w))%nat ->
    exists e, sleb_loop (take n (sleb_encode m w)) acc (7 * k) = Throw e) as H.
  { induction m as [|m IH]; intros w k acc n Hk Hm Hk0 Hn; [cbn in Hn; lia|].
    destruct n as [|n]; [by eexists|]. cbn [sleb_encode] in *. destruct (decide _); cbn [length] in Hn; [lia|].
    destruct (low_bits w) as (_ & _ & _ & _ & _ & Hc). cbn [take sleb_loop]. rewrite decide_False by lia. rewrite decide_True by done.
    replace (7 * k + 7) with (7 * (k + 1)) by lia. destruct m as [|m]; [cbn in Hn; lia|]. apply IH; lia. }
  intros n Hn. apply (H 10%nat v 0 0 n); try lia. done.
Qed.
Lemma packed_number_read_witness :
  pop_front (sleb128 (-624485) ++ [7]) = Ret (2 ^ 64 - 624485, [7]) /\ sleb128 (-624485) = [155; 241; 89].
Proof. split; [|reflexivity]. destruct (packed_number_read (-624485) [7]) as [E _]; [lia|]. exact E. Defined.

(** An encoding of more than ten bytes shifts by more bits than the value has. *)
Theorem long_number_undefined (a b c d e f g h i j k : Z) (rest : list Z) :
  Forall (fun x => Z.land x 128 <> 0) [a; b; c; d; e; f; g; h; i; j] -> pop_front (a :: b :: c :: d :: e :: f :: g :: h :: i :: j :: k :: rest) = Undef.
Proof.
  intros H. repeat (apply Forall_cons_1 in H as [? H]). unfold pop_front. cbn [sleb_loop]. do 10 (rewrite decide_False by lia; rewrite decide_True by done).
  by rewrite decide_True by lia.
Qed.

(** ** Substitution *)
(** The reference reads the text once, from left to right. *)
Fixpoint scan (fuel : nat) (params : list (bytes * bytes)) (s : bytes) : bytes :=
  match fuel, s with
  | S fuel, c :: s =>
      if decide (c = dollar) then
        match match_param params s with Some (n, r) => r ++ scan fuel params (drop n s) | None => c :: scan fuel params s end
      else c :: scan fuel params s
  | _, _ => []
  end.

Lemma match_param_len params s n r : match_param params s = Some (n, r) -> (n <= length s)%nat.
Proof.
  induction params as [|[t r'] params IH]; cbn; [done|]. destruct (decide _) as [Ht|]; [|destruct (decide _) as [Ht|]; [|done]]; intros [= <- <-].
  - apply (f_equal length) in Ht. rewrite length_take in Ht. lia.
  - apply (f_equal length) in Ht. rewrite length_take in Ht. unfold braced in Ht. cbn in Ht. rewrite length_app in Ht. cbn in Ht. lia.
Qed.
Lemma scan_text fuel params p s : dollar ∉ p -> scan (length p + fuel) params (p ++ s) = p ++ scan fuel params s.
Proof.
  induction p as [|c p IH]; intros Hn; [done|]. apply not_elem_of_cons in Hn as [? ?]. cbn. rewrite decide_False by congruence. by rewrite IH.
Qed.
Lemma scan_fuel params s : forall fuel fuel', (length s <= fuel)%nat -> (length s <= fuel')%nat -> scan fuel params s = scan fuel' params s.
Proof.
  induction s as [s IH] using (well_founded_induction (well_founded_ltof _ (@length ascii))). unfold ltof in IH.
  intros fuel fuel' Hf Hf'. destruct s as [|c s]; [by destruct fuel, fuel'|]. cbn in Hf, Hf'. destruct fuel, fuel'; try lia. cbn [scan].
  destruct (match_param params s) as [[n r]|]; rewrite (IH s ltac:(cbn; lia) fuel fuel') by lia; [|done].
  by rewrite (IH (drop n s) ltac:(rewrite length_drop; cbn; lia) fuel fuel') by (rewrite length_drop; lia).
Qed.

Lemma split_dollar (s : bytes) : dollar ∉ s \/ exists p r, s = p ++ dollar :: r /\ dollar ∉ p.
Proof.
  induction s as [|c s IH]; [left; apply not_elem_of_nil|]. destruct (decide (c = dollar)) as [->|].
  - right. exists [], s. split; [done|apply not_elem_of_nil].
  - destruct IH as [|(p & r & -> & ?)]; [left|right; exists (c :: p), r; split; [done|]]; apply not_elem_of_cons; auto.
Qed.

Lemma format_scan params n : forall s pre fuel, (length s <= n)%nat -> (length s < fuel)%nat ->
  format_loop fuel params (pre ++ s) (length pre) = Ret (pre ++ scan (length s) params s).
Proof.
  induction n as [|n IH]; intros s pre fuel Hn Hf; (destruct fuel as [|fuel]; [lia|]); cbn [format_loop]; rewrite length_app.
  { destruct s; [|cbn in Hn; lia]. cbn [length scan]. by rewrite decide_False by lia. }
  destruct (decide _) as [Hlt|Hge]; [|destruct s; [done|cbn in Hge; lia]].
  destruct (split_dollar s) as [Hs|(p & r & -> & Hp)].
  - rewrite find_from_none by done. pose proof (scan_text 0 params s [] Hs) as H. rewrite app_nil_r, Nat.add_0_r in H. rewrite H. cbn. by rewrite app_nil_r.
  - rewrite find_from_skip by done. rewrite length_app in Hn, Hf |- *. cbn [length] in *.
    rewrite scan_text by done. cbn [scan]. rewrite decide_True by done.
    replace (drop (S (length pre + length p)) (pre ++ p ++ dollar :: r)) with r
      by (rewrite app_assoc, <- length_app, drop_app_ge by lia; by replace (S _ - _)%nat with 1%nat by lia).
    destruct (match_param params r) as [[m rep]|] eqn:E.
    + pose proof (match_param_len _ _ _ _ E). unfold string_replace. rewrite <- length_app, (app_assoc pre p), take_app_length.
      rewrite drop_app_ge by lia. replace (length (pre ++ p) + S m - length (pre ++ p))%nat with (S m) by lia. cbn [drop].
      rewrite app_assoc, <- length_app, IH by (rewrite length_drop; lia). rewrite <- !app_assoc. do 4 f_equal. apply scan_fuel; rewrite ?length_drop; lia.
    + replace (pre ++ p ++ dollar :: r) with ((pre ++ p ++ [dollar]) ++ r) by (by rewrite <- !app_assoc).
      replace (S (length pre + length p)) with (length (pre ++ p ++ [dollar])) by (rewrite !length_app; cbn; lia).
      rewrite IH by lia. by rewrite <- !app_assoc.
Qed.

(** Substitution of tokens in a search path rewrites the text in place while it scans it; it
    terminates for all parameters and texts and is a single scan of the original text: the text of
    a replacement is never scanned again, a dollar sign before no token stays. *)
Theorem tokens_substituted (params : list (bytes * bytes)) (s : bytes) : format_string params s = Ret (scan (length s) params s).
Proof. unfold format_string. exact (format_scan params (length s) s [] (S (length s)) (le_n _) (le_n _)). Qed.

(** ** Search paths *)
Fixpoint join (d : ascii) (ps : list bytes) : bytes :=
  match ps with [] => [] | [p] => p | p :: ps => p ++ d :: join d ps end.
Lemma find_first_of_skip d p r : d ∉ p -> find_first_of [d] (p ++ d :: r) = Some (length p) /\ find_first_of [d] p = None.
Proof.
  induction p as [|c p IH]; intros Hn; cbn [find_first_of app length]; [split; [by rewrite decide_True by (by apply list_elem_of_singleton)|done]|].
  apply not_elem_of_cons in Hn as [? Hn]. destruct (IH Hn) as [-> ->].
  assert (c ∉ [d]) by (rewrite list_elem_of_singleton; congruence). by rewrite !decide_False.
Qed.
Lemma split_joined d ps : forall fuel pre, ps <> [] -> Forall (fun p => d ∉ p) ps -> (length ps <= fuel)%nat ->
  split_loop fuel [d] (pre ++ join d ps) (length pre) = Ret ps.
Proof.
  induction ps as [|p ps IH]; intros fuel pre Hn Hd Hf; [done|]. apply Forall_cons_1 in Hd as [Hp Hd]. cbn in Hf. destruct fuel as [|fuel]; [lia|].
  cbn [split_loop]. rewrite drop_app_length. destruct ps as [|q ps].
  - cbn [join]. by rewrite (proj2 (find_first_of_skip d p [] Hp)).
  - change (join d (p :: q :: ps)) with (p ++ d :: join d (q :: ps)). rewrite (proj1 (find_first_of_skip d p _ Hp)).
    replace (pre ++ p ++ d :: join d (q :: ps)) with ((pre ++ p ++ [d]) ++ join d (q :: ps)) by (by rewrite <- !app_assoc).
    replace (S (length pre + length p)) with (length (pre ++ p ++ [d])) by (rewrite !length_app; cbn; lia).
    rewrite IH by (done || lia). cbn. by rewrite take_app_length.
Qed.
Lemma join_length d ps : ps <> [] -> (length ps <= S (length (join d ps)))%nat.
Proof.
  induction ps as [|p ps IH]; [done|]. intros _. destruct ps as [|q ps]; [cbn; lia|].
  specialize (IH ltac:(done)). change (join d (p :: q :: ps)) with (p ++ d :: join d (q :: ps)). rewrite length_app. cbn [length] in *. lia.
Qed.
(** Splitting gives back the parts that were joined, the empty ones too. *)
Theorem split_join (d : ascii) (ps : list bytes) : ps <> [] -> Forall (fun p => d ∉ p) ps -> Split (join d ps) [d] = Ret ps.
Proof. intros Hn Hd. apply (split_joined d ps _ []); [done|done|by apply join_length]. Qed.

(** Every absolute path is a list of components. *)
Lemma slashed_of (t : bytes) : NUL ∉ t -> exists cs, cs <> [] /\ Forall component cs /\ slash :: t = slashed cs.
Proof.
  induction t as [|c t IH]; intros Hz.
  - exists [[]]. split_and!; [done| |done]. repeat constructor; apply not_elem_of_nil.
  - apply not_elem_of_cons in Hz as [? Hz]. destruct (IH Hz) as (cs & Hn & Hc & E). destruct (decide (c = slash)) as [->|].
    + exists ([] :: cs). split_and!; [done| |by rewrite slashed_cons, <- E]. constructor; [split; apply not_elem_of_nil|done].
    + destruct cs as [|d cs]; [done|]. rewrite slashed_cons in E. injection E as ->. apply Forall_cons_1 in Hc as [[? ?] Hc].
      exists ((c :: d) :: cs). split_and!; [done| |done]. constructor; [|done]. split; apply not_elem_of_cons; split; congruence || done.
Qed.
Lemma slashed_no_nul cs : Forall component cs -> NUL ∉ slashed cs.
Proof.
  induction 1 as [|c cs [? ?] Hc IH]; [apply not_elem_of_nil|]. rewrite slashed_cons. apply not_elem_of_cons. split; [discriminate|].
  by apply not_elem_of_app.
Qed.
Lemma normalize_total path : NUL ∉ path -> exists r, normalize_path path = Ret r /\
  match r with Some n => NUL ∉ n /\ head n = Some slash /\ head path = Some slash | None => head path <> Some slash end.
Proof.
  intros Hz. destruct path as [|c t]; [by exists None|]. unfold normalize_path at 1. destruct (decide (c = slash)) as [->|Hc].
  - apply not_elem_of_cons in Hz as [_ Hz]. destruct (slashed_of t Hz) as (cs & Hn & Hcs & E).
    pose proof (normalize_slashed cs Hn Hcs) as H. rewrite <- E in H. unfold normalize_path in H. rewrite decide_True in H by done.
    exists (Some (slashed (climb [] cs))). split; [done|]. split_and!; [|by destruct (climb_normal cs [] Hn (Forall_nil_2 _)) as ([|? ?] & ? & -> & _)|done].
    by apply slashed_no_nul, climb_component.
  - exists None. split; [done|]. cbn. congruence.
Qed.

Definition bang : ascii := "!"%char.
Lemma find_separator p r : bang ∉ p -> find_str kZipFileSeparator (p ++ kZipFileSeparator ++ r) = Some (length p).
Proof.
  induction p as [|c p IH]; intros Hn; [done|]. apply not_elem_of_cons in Hn as [? Hn].
  change ((c :: p) ++ kZipFileSeparator ++ r) with (c :: (p ++ kZipFileSeparator ++ r)). cbn [find_str]. rewrite IH by done.
  change kZipFileSeparator with [bang; slash]. cbn [is_prefix]. by rewrite decide_False by congruence.
Qed.
(** A path through a zip file, below 512 bytes, is split into the path of the file and the path inside it. *)
Theorem zip_path_parsed (dirs : list bytes) (name : bytes) (inside : list bytes) (entry : bytes) :
  Forall component (dirs ++ (name ++ [bang]) :: inside ++ [entry]) -> normal (dirs ++ (name ++ [bang]) :: inside ++ [entry]) ->
  bang ∉ slashed (dirs ++ [name]) -> (length (slashed (dirs ++ (name ++ [bang]) :: inside ++ [entry])) < zip_buffer)%nat ->
  parse_zip_path (slashed (dirs ++ (name ++ [bang]) :: inside ++ [entry])) = Ret (Some (slashed (dirs ++ [name]), tail (slashed (inside ++ [entry])))).
Proof.
  intros Hc Hn Hb Hl. unfold parse_zip_path. rewrite normalize_slashed by (done || by destruct dirs). rewrite (climb_fixed _ []) by done. cbn [mbind outcome_bind rev app].
  assert (slashed (dirs ++ (name ++ [bang]) :: inside ++ [entry]) = slashed (dirs ++ [name]) ++ kZipFileSeparator ++ tail (slashed (inside ++ [entry]))) as E.
  { unfold slashed. rewrite !fmap_app, !concat_app. cbn. rewrite fmap_app, concat_app. cbn. rewrite !app_nil_r, <- !app_assoc. do 3 f_equal. by destruct inside. }
  rewrite E, find_separator, <- E by done. rewrite decide_False by lia. rewrite E, take_app_length, drop_app_ge by lia.
  replace (_ + 2 - _)%nat with 2%nat by lia. done.
Qed.

Section ResolveSpec.
Context (realpath : bytes -> option bytes) (is_directory : bytes -> option bool).
Lemma parse_zip_total path : NUL ∉ path -> exists r, parse_zip_path path = Ret r.
Proof.
  intros Hz. destruct (normalize_total path Hz) as (r & E & _). unfold parse_zip_path. rewrite E. cbn.
  destruct r; [|by eexists]. destruct (find_str _ _); [|by eexists]. destruct (decide _); by eexists.
Qed.
Definition usable (r : bytes) : Prop :=
  is_directory r = Some true \/ exists zip dir entry, realpath zip = Some dir /\ r = dir ++ kZipFileSeparator ++ entry.
Lemma resolve_usable path : NUL ∉ path -> exists r, resolve_path realpath is_directory path = Ret r /\ (r <> [] -> usable r).
Proof.
  intros Hz. unfold resolve_path. destruct (realpath path) as [rp|].
  { eexists. split; [done|]. unfold usable. destruct (is_directory rp) as [[]|] eqn:E; [by left|done|done]. }
  destruct (normalize_total path Hz) as (n & -> & Hn). cbn [mbind outcome_bind]. destruct n as [n|]; [|by exists []].
  destruct (parse_zip_total n) as (z & ->); [tauto|]. cbn [mbind outcome_bind]. destruct z as [[zip entry]|].
  - eexists. split; [done|]. destruct (realpath zip) as [d|] eqn:E; [|done]. intros _. right. eauto.
  - eexists. split; [done|]. destruct (is_directory n) as [[]|] eqn:E; [by left|done|done].
Qed.
(** The resolved search paths are directories that exist or entries of zip files that do, whatever the
    system answers; nothing is undefined for any input. *)
Theorem search_paths_usable (paths : list bytes) : Forall (fun p => NUL ∉ p) paths ->
  exists rs, resolve_paths realpath is_directory paths = Ret rs /\ Forall usable rs /\ [] ∉ rs /\ (length rs <= length paths)%nat.
Proof.
  induction 1 as [|p ps Hp Hps (rs & E & Hu & Hn & Hl)]; [exists []; split_and!; [done|done|apply not_elem_of_nil|done]|]. cbn [resolve_paths].
  destruct p as [|c p]; [exists rs; split_and!; auto; cbn; lia|].
  destruct (resolve_usable _ Hp) as (r & -> & Hr). rewrite E. cbn [mbind outcome_bind]. eexists. split; [done|].
  destruct r as [|x r]; [split_and!; auto; cbn; lia|]. split_and!; [constructor; auto|apply not_elem_of_cons; done|cbn; lia].
Qed.
End ResolveSpec.

(** ** Directories and offsets *)
Lemma under_dir_spec file dir : file_is_under_dir file dir = true <-> exists rest, file = dir ++ slash :: rest.
Proof.
  unfold file_is_under_dir. rewrite andb_true_iff, bool_decide_eq_true. split.
  - intros [[r ->]%is_prefix_true Hs]. rewrite lookup_app_r, Nat.sub_diag in Hs by lia. destruct r as [|c r]; [done|]. injection Hs as ->. eauto.
  - intros [r ->]. split; [apply is_prefix_app|]. by rewrite list_lookup_middle.
Qed.
(** A file is in a directory when one name follows the directory, and under it when any path does. *)
Theorem in_dir_spec (file dir : bytes) : file_is_in_dir file dir = true <-> exists name, slash ∉ name /\ file = dir ++ slash :: name.
Proof.
  unfold file_is_in_dir. rewrite andb_true_iff, bool_decide_eq_true, under_dir_spec. split.
  - intros [[r ->] Hs]. exists r. split; [|done]. rewrite drop_app_ge in Hs by lia. by replace (_ + 1 - _)%nat with 1%nat in Hs by lia.
  - intros (name & Hn & ->). split; [eauto|]. rewrite drop_app_ge by lia. by replace (_ + 1 - _)%nat with 1%nat by lia.
Qed.
(** The sum of an offset and a size is refused exactly when it leaves the signed range. *)
Theorem safe_add_spec (a b : Z) : 0 <= a <= INT64_MAX -> 0 <= b < 2 ^ 64 -> safe_add a b = Ret (if decide (a + b <= INT64_MAX) then Some (a + b) else None).
Proof.
  intros Ha Hb. unfold safe_add. rewrite decide_False by lia. rewrite wrapu_small by (unfold INT64_MAX in *; lia).
  destruct (decide (INT64_MAX - a < b)), (decide (a + b <= INT64_MAX)); done || lia.
Qed.
Lemma page_offset_mod o : page_offset o = o mod PAGE_SIZE.
Proof. apply (land_low 12). lia. Qed.
Lemma page_start_sub o : page_start o = o - o mod PAGE_SIZE.
Proof.
  unfold page_start. rewrite <- page_offset_mod. unfold page_offset.
  rewrite <- Z.ldiff_land. rewrite (Z.sub_nocarry_ldiff o). 2: { apply Z.bits_inj'. intros n Hn. rewrite Z.ldiff_spec, Z.land_spec, Z.bits_0. by destruct (Z.testbit o n), (Z.testbit _ n). }
  apply Z.bits_inj'. intros n Hn. rewrite !Z.ldiff_spec, Z.land_spec. by destruct (Z.testbit o n), (Z.testbit _ n).
Qed.
End LinkerUtils.
