(* ===== verification/LinkerImage.v ===== *)
(** * Images of libraries (mcpelauncher-linker/bionic/linker)

    [ElfReader] of linker_phdr.cpp and [MappedFileFragment] of linker_mapped_file_fragment.cpp for
    64-bit files of x86-64: reading and checking the headers of a file, reserving addresses, and
    mapping the segments.  The file is its bytes and does not change while it is read; the address
    space is what every address holds and which addresses are taken.  The choices and failures of
    the kernel are parameters. *)

From S2P Require Import Prelude CxxString LinkerUtils.
From Stdlib Require Import ZArith Ascii Lia.
From stdpp Require Import base list strings numbers.

Open Scope Z_scope.

Module LinkerImage.
Import LinkerUtils.

(** ** Memory *)
(** What can be read at an address; [None] is a fault. *)
Definition memory := Z -> option Z.
Definition set_byte (a v : Z) (m : memory) : memory := fun x => if decide (x = a) then Some v else m x.
Fixpoint load (n : nat) (a : Z) (m : memory) : outcome exn Z :=
  match n with O => Ret 0 | S n => match m a with Some b => r ← load n (a + 1) m; Ret (b + 256 * r) | None => Undef end end.
Fixpoint store (n : nat) (a v : Z) (m : memory) : outcome exn memory :=
  match n with O => Ret m | S n => match m a with Some _ => store n (a + 1) (v / 256) (set_byte a (v mod 256) m) | None => Undef end end.
Definition within (a b x : Z) : bool := bool_decide (a <= x < b).
Fixpoint mapped (n : nat) (a : Z) (m : memory) : bool := match n with O => true | S n => match m a with Some _ => mapped n (a + 1) m | None => false end end.
Definition memset (n : nat) (a v : Z) (m : memory) : outcome exn memory := if mapped n a m then Ret (fun x => if within a (a + Z.of_nat n) x then Some v else m x) else Undef.

(** ** Pages *)
Definition PAGE_START (x : Z) : Z := Z.land x (wrapu 64 (Z.lnot (PAGE_SIZE - 1))).
Definition PAGE_OFFSET (x : Z) : Z := Z.land x (PAGE_SIZE - 1).
Definition PAGE_END (x : Z) : Z := PAGE_START (wrapu 64 (x + (PAGE_SIZE - 1))).
Definition align_down (p align : Z) : Z := Z.land p (wrapu 64 (Z.lnot (wrapu 64 (align - 1)))).
Definition align_up (p align : Z) : Z := Z.land (wrapu 64 (p + align - 1)) (wrapu 64 (Z.lnot (wrapu 64 (align - 1)))).
Definition kLibraryAlignment : Z := Z.shiftl 1 18.

(** ** Headers *)
Record Ehdr := mkEhdr { e_ident : list Z; e_type : Z; e_machine : Z; e_version : Z; e_phoff : Z; e_shoff : Z; e_phnum : Z; e_shentsize : Z; e_shnum : Z; e_shstrndx : Z }.
Record Phdr := mkPhdr { p_type : Z; p_flags : Z; p_offset : Z; p_vaddr : Z; p_filesz : Z; p_memsz : Z }.
Record Shdr := mkShdr { sh_type : Z; sh_offset : Z; sh_size : Z; sh_link : Z }.
Record Dyn := mkDyn { d_tag : Z; d_val : Z }.
Definition PT_LOAD : Z := 1.
Definition PT_DYNAMIC : Z := 2.
Definition PT_INTERP : Z := 3.
Definition PT_PHDR : Z := 6.
Definition PF_X : Z := 1.
Definition PF_W : Z := 2.
Definition PF_R : Z := 4.
Definition ET_DYN : Z := 3.
Definition EV_CURRENT : Z := 1.
Definition EM_X86_64 : Z := 62.
Definition ELFCLASS64 : Z := 2.
Definition ELFDATA2LSB : Z := 1.
Definition SHT_STRTAB : Z := 3.
Definition SHT_DYNAMIC : Z := 6.
Definition sizeof_Ehdr : Z := 64.
Definition sizeof_Phdr : Z := 56.
Definition sizeof_Shdr : Z := 64.
Definition sizeof_Dyn : Z := 16.
(** A little-endian number of [n] bytes at an offset. *)
Fixpoint le (l : list Z) : Z := match l with [] => 0 | b :: l => b + 256 * le l end.
Definition le_field (l : list Z) (offset n : nat) : Z := le (take n (drop offset l)).
Definition parse_Ehdr (l : list Z) : Ehdr :=
  mkEhdr (take 16 l) (le_field l 16 2) (le_field l 18 2) (le_field l 20 4) (le_field l 32 8) (le_field l 40 8) (le_field l 56 2) (le_field l 58 2) (le_field l 60 2) (le_field l 62 2).
Definition parse_Phdr (l : list Z) : Phdr := mkPhdr (le_field l 0 4) (le_field l 4 4) (le_field l 8 8) (le_field l 16 8) (le_field l 32 8) (le_field l 40 8).
Definition parse_Shdr (l : list Z) : Shdr := mkShdr (le_field l 4 4) (le_field l 24 8) (le_field l 32 8) (le_field l 40 4).
Definition parse_Dyn (l : list Z) : Dyn := mkDyn (le_field l 0 8) (le_field l 8 8).
(** The elements of an array of [n] structures. *)
Fixpoint parse_array {A} (parse : list Z -> A) (sizeof n : nat) (l : list Z) : list A :=
  match n with O => [] | S n => parse (take sizeof l) :: parse_array parse sizeof n (drop sizeof l) end.

(** ** [ElfReader::Read] *)
(** What [Read] keeps; the tables are the fragments of the file that are mapped. *)
Record ElfReader := mkElfReader { header_ : Ehdr; phdr_table_ : list Phdr; dynamic_ : list Dyn; strtab_ : list Z }.
Section Read.
(** The bytes of the file, the offset of the library in it, the version that the application targets, and the calls of the kernel that fail. *)
Context (file : list Z) (file_offset : Z) (target_sdk : Z) (pread_fails : bool) (mmap_fails : Z -> Z -> bool).
Definition file_size : Z := Z.of_nat (length file).
Definition ReadElfHeader : option Ehdr :=
  if decide (pread_fails = true \/ file_offset < 0) then None
  else let l := take 64 (drop (Z.to_nat file_offset) file) in
    if decide (Z.of_nat (length l) <> sizeof_Ehdr) then None else Some (parse_Ehdr l).
Definition VerifyElfHeader (h : Ehdr) : bool :=
  if decide (take 4 (e_ident h) <> [127; 69; 76; 70]) then false
  else if decide (e_ident h !! 4%nat <> Some ELFCLASS64) then false
  else if decide (e_ident h !! 5%nat <> Some ELFDATA2LSB) then false
  else if decide (e_type h <> ET_DYN) then false
  else if decide (e_version h <> EV_CURRENT) then false
  else if decide (e_machine h <> EM_X86_64) then false
  else if decide (e_shentsize h <> sizeof_Shdr /\ 26 <= target_sdk) then false
  else if decide (e_shstrndx h = 0 /\ 26 <= target_sdk) then false
  else true.
Definition CheckFileRange (offset size alignment : Z) : outcome exn bool :=
  if decide (offset <= 0) then Ret false
  else
    range_start ← safe_add file_offset offset;
    match range_start with
    | None => Ret false
    | Some range_start =>
        range_end ← safe_add range_start size;
        match range_end with
        | None => Ret false
        | Some range_end => Ret (bool_decide (range_start < file_size /\ range_end <= file_size /\ offset mod alignment = 0))
        end
    end.
(** A sum that is checked to fit. *)
Definition checked_add (a b : Z) : outcome exn Z := r ← safe_add a b; match r with Some s => Ret s | None => Throw (runtime_error "CHECK failed: safe_add") end.
(** [MappedFileFragment::Map]: the data behind the page that the mapping starts with.  An access behind the file is a fault. *)
Definition Map (elf_offset size : Z) : outcome exn (option (list Z)) :=
  offset ← checked_add file_offset elf_offset;
  let page_min := page_start offset in
  end_offset ← checked_add offset size;
  end_offset ← checked_add end_offset (page_offset offset);
  let map_size := wrapu 64 (end_offset - page_min) in
  if decide (map_size < size) then Throw (runtime_error "CHECK failed: map_size >= size")
  else if decide (map_size = 0 \/ mmap_fails page_min map_size = true) then Ret None
  else
    let data := take (Z.to_nat size) (drop (Z.to_nat (page_offset offset)) (drop (Z.to_nat page_min) file)) in
    if decide (Z.of_nat (length data) < size) then Undef else Ret (Some data).
Definition ReadProgramHeaders (h : Ehdr) : outcome exn (option (list Phdr)) :=
  if decide (e_phnum h < 1 \/ 65536 / sizeof_Phdr < e_phnum h) then Ret None
  else
    let size := e_phnum h * sizeof_Phdr in
    ok ← CheckFileRange (e_phoff h) size 8;
    if (ok : bool) then
      data ← Map (e_phoff h) size;
      Ret (option_map (parse_array parse_Phdr 56 (Z.to_nat (e_phnum h))) data)
    else Ret None.
Definition ReadSectionHeaders (h : Ehdr) : outcome exn (option (list Shdr)) :=
  if decide (e_shnum h = 0) then Ret None
  else
    let size := e_shnum h * sizeof_Shdr in
    ok ← CheckFileRange (e_shoff h) size 8;
    if (ok : bool) then
      data ← Map (e_shoff h) size;
      Ret (option_map (parse_array parse_Shdr 64 (Z.to_nat (e_shnum h))) data)
    else Ret None.
(** The last segment of the type counts. *)
Definition pt_dynamic (phdrs : list Phdr) : Z * Z := foldl (fun r p => if decide (p_type p = PT_DYNAMIC) then (p_offset p, p_filesz p) else r) (0, 0) phdrs.
Definition ReadDynamicSection (phdrs : list Phdr) (shdrs : list Shdr) : outcome exn (option (list Dyn * list Z)) :=
  match list_find (fun s => sh_type s = SHT_DYNAMIC) shdrs with
  | None => Ret None
  | Some (_, dynamic_shdr) =>
      if decide (fst (pt_dynamic phdrs) <> sh_offset dynamic_shdr /\ 26 <= target_sdk) then Ret None
      else if decide (snd (pt_dynamic phdrs) <> sh_size dynamic_shdr /\ 26 <= target_sdk) then Ret None
      else if decide (Z.of_nat (length shdrs) <= sh_link dynamic_shdr) then Ret None
      else
        match shdrs !! Z.to_nat (sh_link dynamic_shdr) with
        | None => Undef
        | Some strtab_shdr =>
            if decide (sh_type strtab_shdr <> SHT_STRTAB) then Ret None
            else
              ok ← CheckFileRange (sh_offset dynamic_shdr) (sh_size dynamic_shdr) 8;
              if negb ok then Ret None
              else
                dynamic ← Map (sh_offset dynamic_shdr) (sh_size dynamic_shdr);
                match dynamic with
                | None => Ret None
                | Some dynamic =>
                    ok ← CheckFileRange (sh_offset strtab_shdr) (sh_size strtab_shdr) 1;
                    if negb ok then Ret None
                    else
                      strtab ← Map (sh_offset strtab_shdr) (sh_size strtab_shdr);
                      Ret (option_map (pair (parse_array parse_Dyn 16 (Z.to_nat (sh_size dynamic_shdr / sizeof_Dyn)) dynamic)) strtab)
                end
        end
  end.
Definition Read : outcome exn (option ElfReader) :=
  match ReadElfHeader with
  | None => Ret None
  | Some h =>
      if VerifyElfHeader h then
        phdrs ← ReadProgramHeaders h;
        match phdrs with
        | None => Ret None
        | Some phdrs =>
            shdrs ← ReadSectionHeaders h;
            match shdrs with
            | None => Ret None
            | Some shdrs => d ← ReadDynamicSection phdrs shdrs; Ret (option_map (fun d => mkElfReader h phdrs (fst d) (snd d)) d)
            end
        end
      else Ret None
  end.
End Read.
(** [ElfReader::get_string] *)
Definition get_string (r : ElfReader) (index : Z) : outcome exn (list Z) :=
  if decide (Z.of_nat (length (strtab_ r)) <= index) then Throw (runtime_error "CHECK failed: index < strtab_size_") else Ret (drop (Z.to_nat index) (strtab_ r)).

(** ** [ElfReader::Load] *)
(** The memory, and the addresses that mappings take, accessible or not. *)
Record space := mkSpace { bytes_ : memory; taken : Z -> bool }.
Record address_space_params := mkParams { start_addr : Z; reserved_size : Z; must_use_address : bool }.
Definition is_load (p : Phdr) : bool := bool_decide (p_type p = PT_LOAD).
(** The least address, the greatest, both at page boundaries, and the size. *)
Definition extend (r : Z * Z * bool) (p : Phdr) : Z * Z * bool :=
  let '(min_vaddr, max_vaddr, found) := r in
  if is_load p then
    let end_ := wrapu 64 (p_vaddr p + p_memsz p) in
    ((if decide (p_vaddr p < min_vaddr) then p_vaddr p else min_vaddr), (if decide (max_vaddr < end_) then end_ else max_vaddr), true)
  else r.
Definition phdr_table_get_load_size (phdrs : list Phdr) : Z * Z * Z :=
  let '(min_vaddr, max_vaddr, found) := foldl extend (2 ^ 64 - 1, 0, false) phdrs in
  let min_vaddr := PAGE_START (if (found : bool) then min_vaddr else 0) in
  let max_vaddr := PAGE_END max_vaddr in
  (min_vaddr, max_vaddr, wrapu 64 (max_vaddr - min_vaddr)).
Section Load.
(** The bytes of the file and the offset of the library, where the kernel puts a new mapping of a size, and the fixed mappings that fail. *)
Context (file : list Z) (file_offset : Z) (place : (Z -> bool) -> Z -> option Z) (fixed_fails : Z -> Z -> bool).
(** [mmap] of inaccessible pages at an address that the kernel chooses, and [munmap], whose failures are ignored. *)
Definition mmap_reserve (size : Z) (s : space) : option (Z * space) :=
  match (if decide (size = 0) then None else place (taken s) size) with
  | None => None
  | Some a => Some (a, mkSpace (fun x => if within a (PAGE_END (a + size)) x then None else bytes_ s x) (fun x => within a (PAGE_END (a + size)) x || taken s x))
  end.
Definition munmap (a size : Z) (s : space) : space :=
  if decide (size = 0 \/ PAGE_OFFSET a <> 0) then s
  else mkSpace (fun x => if within a (PAGE_END (a + size)) x then None else bytes_ s x) (fun x => negb (within a (PAGE_END (a + size)) x) && taken s x).
Definition ReserveAligned (size align : Z) (s : space) : option (Z * space) :=
  if decide (align = PAGE_SIZE) then mmap_reserve size s
  else
    let mmap_size := wrapu 64 (align_up size align + align - PAGE_SIZE) in
    match mmap_reserve mmap_size s with
    | None => None
    | Some (mmap_ptr, s) =>
        let start := align_up mmap_ptr align in
        let s := munmap mmap_ptr (wrapu 64 (start - mmap_ptr)) s in
        Some (start, munmap (wrapu 64 (start + size)) (wrapu 64 (mmap_ptr + mmap_size - (start + size))) s)
    end.
(** Where the library starts, how long it is, what is added to its addresses, and whether the caller reserved the place. *)
Record placement := mkPlacement { load_start : Z; load_size : Z; load_bias : Z; mapped_by_caller : bool }.
Definition ReserveAddressSpace (phdrs : list Phdr) (address_space : address_space_params) (s : space) : option (placement * address_space_params * space) :=
  let '(min_vaddr, _, load_size) := phdr_table_get_load_size phdrs in
  if decide (load_size = 0) then None
  else if decide (reserved_size address_space < load_size) then
    if must_use_address address_space then None
    else
      match ReserveAligned load_size kLibraryAlignment s with
      | None => None
      | Some (start, s) => Some (mkPlacement start load_size (wrapu 64 (start - min_vaddr)) false, address_space, s)
      end
  else
    let start := start_addr address_space in
    Some (mkPlacement start load_size (wrapu 64 (start - min_vaddr)) true,
          mkParams (wrapu 64 (start + load_size)) (reserved_size address_space - load_size) (must_use_address address_space), s).
(** The end of the addresses that a process can have. *)
Definition user_end : Z := 2 ^ 47.
(** A fixed mapping replaces the pages that it touches; the rest of the last page of a file is zero, the pages behind it fault. *)
Definition file_byte (pos : Z) : option Z :=
  if decide (pos < 0) then None
  else match file !! Z.to_nat pos with Some b => Some b | None => if decide (pos < PAGE_END (Z.of_nat (length file))) then Some 0 else None end.
Definition mmap_fixed (a size : Z) (content : Z -> option Z) (s : space) : option space :=
  if decide (size = 0 \/ user_end < a + size \/ fixed_fails a size = true) then None
  else Some (mkSpace (fun x => if within a (PAGE_END (a + size)) x then content (x - a) else bytes_ s x) (fun x => within a (PAGE_END (a + size)) x || taken s x)).
Definition mmap_file (a size offset : Z) (s : space) : option space :=
  if decide (offset mod PAGE_SIZE <> 0 \/ offset < 0 \/ 2 ^ 63 <= offset) then None else mmap_fixed a size (fun j => file_byte (offset + j)) s.
(** One round of [LoadSegments]: whether it goes on, and the space as it is then. *)
Definition load_segment (bias : Z) (p : Phdr) (s : space) : outcome exn (bool * space) :=
  let seg_start := wrapu 64 (p_vaddr p + bias) in
  let seg_end := wrapu 64 (seg_start + p_memsz p) in
  let seg_page_start := PAGE_START seg_start in
  let seg_page_end := PAGE_END seg_end in
  let seg_file_end := wrapu 64 (seg_start + p_filesz p) in
  let file_end := wrapu 64 (p_offset p + p_filesz p) in
  let file_page_start := PAGE_START (p_offset p) in
  let file_length := wrapu 64 (file_end - file_page_start) in
  if decide (Z.of_nat (length file) <= 0) then Ret (false, s)
  else if decide (Z.of_nat (length file) < file_end) then Ret (false, s)
  else
    match (if decide (file_length <> 0) then mmap_file seg_page_start file_length (wraps 64 (file_offset + file_page_start)) s else Some s) with
    | None => Ret (false, s)
    | Some s =>
        m ← (if decide (Z.land (p_flags p) PF_W <> 0 /\ 0 < PAGE_OFFSET seg_file_end) then memset (Z.to_nat (PAGE_SIZE - PAGE_OFFSET seg_file_end)) seg_file_end 0 (bytes_ s) else Ret (bytes_ s));
        let s := mkSpace m (taken s) in
        let seg_file_end := PAGE_END seg_file_end in
        if decide (seg_file_end < seg_page_end) then
          match mmap_fixed seg_file_end (seg_page_end - seg_file_end) (fun _ => Some 0) s with Some s => Ret (true, s) | None => Ret (false, s) end
        else Ret (true, s)
    end.
Fixpoint LoadSegments (bias : Z) (phdrs : list Phdr) (s : space) : outcome exn (bool * space) :=
  match phdrs with
  | [] => Ret (true, s)
  | p :: phdrs =>
      if is_load p then r ← load_segment bias p s; if (fst r : bool) then LoadSegments bias phdrs (snd r) else Ret r
      else LoadSegments bias phdrs s
  end.
(** The address of the program headers in memory must be in what a segment has of the file. *)
Definition CheckPhdr (bias : Z) (phdrs : list Phdr) (loaded : Z) : option Z :=
  let loaded_end := wrapu 64 (loaded + Z.of_nat (length phdrs) * sizeof_Phdr) in
  if existsb (fun p => is_load p && (let seg_start := wrapu 64 (p_vaddr p + bias) in bool_decide (seg_start <= loaded /\ loaded_end <= wrapu 64 (p_filesz p + seg_start)))) phdrs then Some loaded else None.
Definition FindPhdr (bias : Z) (phdrs : list Phdr) (m : memory) : outcome exn (option Z) :=
  match list_find (fun p => p_type p = PT_PHDR) phdrs with
  | Some (_, p) => Ret (CheckPhdr bias phdrs (wrapu 64 (bias + p_vaddr p)))
  | None =>
      match list_find (fun p => p_type p = PT_LOAD) phdrs with
      | Some (_, p) =>
          if decide (p_offset p = 0) then
            let elf_addr := wrapu 64 (bias + p_vaddr p) in
            offset ← load 8 (elf_addr + 32) m;
            Ret (CheckPhdr bias phdrs (wrapu 64 (elf_addr + offset)))
          else Ret None
      | None => Ret None
      end
  end.
(** The placement and the address of the program headers; the parameters and the space change also when it fails later. *)
Definition Load (r_ : ElfReader) (address_space : address_space_params) (s : space) : outcome exn (option (placement * Z) * address_space_params * space) :=
  match ReserveAddressSpace (phdr_table_ r_) address_space s with
  | None => Ret (None, address_space, s)
  | Some (at_, address_space, s) =>
      r ← LoadSegments (load_bias at_) (phdr_table_ r_) s;
      if (fst r : bool) then phdr ← FindPhdr (load_bias at_) (phdr_table_ r_) (bytes_ (snd r)); Ret (option_map (pair at_) phdr, address_space, snd r)
      else Ret (None, address_space, snd r)
  end.
End Load.

(** ** Arithmetic of pages *)
Lemma land_mask k x : 0 <= k <= 64 -> 0 <= x < 2 ^ 64 -> Z.land x (2 ^ 64 - 2 ^ k) = x - x mod 2 ^ k.
Proof.
  intros Hk Hx. assert (2 ^ 64 - 2 ^ k = Z.shiftl (Z.ones (64 - k)) k) as ->.
  { rewrite Z.shiftl_mul_pow2, Z.ones_equiv by lia. unfold Z.pred. rewrite Z.mul_add_distr_r, <- Z.pow_add_r by lia. replace (64 - k + k) with 64 by lia. lia. }
  assert (x - x mod 2 ^ k = Z.shiftl (Z.shiftr x k) k) as ->.
  { rewrite Z.shiftl_mul_pow2, Z.shiftr_div_pow2 by lia. pose proof (Z.div_mod x (2 ^ k)). lia. }
  apply Z.bits_inj'. intros n Hn. rewrite Z.land_spec, !Z.shiftl_spec by lia. destruct (decide (n < k)) as [Hlt|Hge].
  - rewrite !(Z.testbit_neg_r _ (n - k)) by lia. apply andb_false_r.
  - rewrite Z.shiftr_spec by lia. replace (n - k + k) with n by lia. destruct (decide (n < 64)) as [H64|H64].
    + rewrite Z.ones_spec_low by lia. apply andb_true_r.
    + assert (Z.testbit x n = false) as -> by (rewrite <- (Z.mod_small x (2 ^ 64)) by lia; apply Z.mod_pow2_bits_high; lia). done.
Qed.
Lemma PAGE_START_mod x : 0 <= x < 2 ^ 64 -> PAGE_START x = x - x mod 4096.
Proof. intros Hx. exact (land_mask 12 x ltac:(lia) Hx). Qed.
Lemma PAGE_OFFSET_mod x : PAGE_OFFSET x = x mod 4096.
Proof. exact (Z.land_ones x 12 ltac:(lia)). Qed.
Lemma PAGE_END_mod x : 0 <= x <= 2 ^ 64 - 4096 -> PAGE_END x = x + (- x) mod 4096.
Proof.
  intros Hx. unfold PAGE_END, PAGE_SIZE. rewrite wrapu_small by lia. rewrite PAGE_START_mod by lia. pose proof (Z.mod_pos_bound (x + 4095) 4096 ltac:(lia)). pose proof (Z.mod_pos_bound (- x) 4096 ltac:(lia)).
  assert ((x + (- x) mod 4096) mod 4096 = 0). { rewrite Zplus_mod_idemp_r. by replace (x + - x) with 0 by lia. }
  apply Z.mod_divide in H1 as [q Hq]; [|done]. rewrite (Z.mod_eq (x + 4095)) by done. pose proof (Z.mul_div_le (x + 4095) 4096). pose proof (Z.mul_succ_div_gt (x + 4095) 4096). lia.
Qed.

(** ** Reading any file *)
Lemma le_range l : Forall (fun b => 0 <= b < 256) l -> 0 <= le l < 256 ^ Z.of_nat (length l).
Proof.
  induction 1 as [|b l Hb _ IH]; [done|]. cbn [le length]. rewrite Nat2Z.inj_succ, Z.pow_succ_r by lia. lia.
Qed.
Lemma field_range l o n : Forall (fun b => 0 <= b < 256) l -> 0 <= le_field l o n < 256 ^ Z.of_nat n.
Proof.
  intros Hl. unfold le_field. assert (Forall (fun b => 0 <= b < 256) (take n (drop o l))) as Ht by (by apply Forall_take, Forall_drop). apply le_range in Ht. rewrite length_take in Ht.
  assert (256 ^ Z.of_nat (n `min` length (drop o l)) <= 256 ^ Z.of_nat n) by (apply Z.pow_le_mono_r; lia). lia.
Qed.
Definition is_u64 (x : Z) : Prop := 0 <= x < 2 ^ 64.
Definition wf_Phdr (p : Phdr) : Prop := is_u64 (p_offset p) /\ is_u64 (p_vaddr p) /\ is_u64 (p_filesz p) /\ is_u64 (p_memsz p) /\ 0 <= p_flags p.
Definition wf_Shdr (s : Shdr) : Prop := is_u64 (sh_offset s) /\ is_u64 (sh_size s) /\ 0 <= sh_link s.
Lemma parse_array_length {A} (parse : list Z -> A) k n l : length (parse_array parse k n l) = n.
Proof. revert l. induction n as [|n IH]; intros l; [done|]. cbn. by rewrite IH. Qed.
Lemma parse_array_Forall {A} (parse : list Z -> A) (P : A -> Prop) k n l :
  (forall l, Forall (fun b => 0 <= b < 256) l -> P (parse l)) -> Forall (fun b => 0 <= b < 256) l -> Forall P (parse_array parse k n l).
Proof. intros HP. revert l. induction n as [|n IH]; intros l Hl; [constructor|]. cbn. constructor; [by apply HP, Forall_take|by apply IH, Forall_drop]. Qed.
Lemma wf_parse_Phdr l : Forall (fun b => 0 <= b < 256) l -> wf_Phdr (parse_Phdr l).
Proof. intros Hl. unfold wf_Phdr, is_u64. cbn [p_offset p_vaddr p_filesz p_memsz p_flags parse_Phdr]. split_and!; try (by apply (field_range l _ 8)); by apply field_range. Qed.
Lemma wf_parse_Shdr l : Forall (fun b => 0 <= b < 256) l -> wf_Shdr (parse_Shdr l).
Proof. intros Hl. unfold wf_Shdr, is_u64. cbn [sh_offset sh_size sh_link parse_Shdr]. split_and!; try (by apply (field_range l _ 8)); by apply field_range. Qed.
Section ReadSafe.
Context (file : list Z) (file_offset : Z) (target_sdk : Z) (pread_fails : bool) (mmap_fails : Z -> Z -> bool).
Hypothesis file_bytes : Forall (fun b => 0 <= b < 256) file.
Hypothesis file_small : Z.of_nat (length file) < 2 ^ 62.
Hypothesis offset_nonneg : 0 <= file_offset < 2 ^ 62.
(** [size] bytes at [offset] of the library. *)
Definition part (offset size : Z) : list Z := take (Z.to_nat size) (drop (Z.to_nat (file_offset + offset)) file).
Definition in_file (offset size : Z) : Prop := 0 < offset /\ file_offset + offset + size <= Z.of_nat (length file).
Lemma safe_add_sum a b : 0 <= a < 2 ^ 63 -> 0 <= b -> safe_add a b = Ret (if decide (a + b < 2 ^ 63) then Some (a + b) else None).
Proof.
  intros Ha Hb. unfold safe_add, INT64_MAX. rewrite decide_False by lia. rewrite wrapu_small by lia. destruct (decide (2 ^ 63 - 1 - a < b)); [by rewrite decide_False by lia|by rewrite decide_True by lia].
Qed.
Lemma checked_add_spec a b : 0 <= a -> 0 <= b -> a + b < 2 ^ 63 -> checked_add a b = Ret (a + b).
Proof. intros Ha Hb Hab. unfold checked_add. rewrite safe_add_sum by lia. by rewrite decide_True by lia. Qed.
Lemma range_checked offset size al : 0 <= offset -> 0 <= size -> exists b, CheckFileRange file file_offset offset size al = Ret b /\ (b = true -> in_file offset size).
Proof.
  intros Ho Hs. unfold CheckFileRange. destruct (decide (offset <= 0)); [by exists false|]. rewrite safe_add_sum by lia. cbn [mbind outcome_bind].
  destruct (decide (file_offset + offset < 2 ^ 63)); [|by exists false]. rewrite safe_add_sum by lia. cbn [mbind outcome_bind]. destruct (decide (file_offset + offset + size < 2 ^ 63)); [|by exists false].
  eexists. split; [done|]. intros (_ & H & _)%bool_decide_eq_true. split; [lia|]. unfold file_size in H. lia.
Qed.
Lemma Map_spec offset size : in_file offset size -> 0 <= size -> Map file file_offset mmap_fails offset size = Ret None \/ Map file file_offset mmap_fails offset size = Ret (Some (part offset size)).
Proof.
  intros [Ho Hin] Hs. unfold Map, part. rewrite checked_add_spec by lia. cbn [mbind outcome_bind]. remember (file_offset + offset) as o eqn:Eo. rewrite checked_add_spec by lia. cbn [mbind outcome_bind].
  assert (0 <= page_offset o < 4096) as Hp by (rewrite page_offset_mod; apply Z.mod_pos_bound; done). rewrite checked_add_spec by lia. cbn [mbind outcome_bind].
  assert (page_start o = o - page_offset o) as Hps by (rewrite page_start_sub, page_offset_mod; done). assert (page_offset o <= o) by (rewrite page_offset_mod; apply Z.mod_le; [lia|done]).
  rewrite wrapu_small by lia. rewrite (decide_False (P := _ < size)) by lia. destruct (decide _); [by left|right].
  rewrite drop_drop. replace (Z.to_nat (page_start o) + Z.to_nat (page_offset o))%nat with (Z.to_nat o) by lia.
  rewrite decide_False; [done|]. rewrite length_take, length_drop. lia.
Qed.
Lemma part_bytes offset size : Forall (fun b => 0 <= b < 256) (part offset size).
Proof. by apply Forall_take, Forall_drop. Qed.
Lemma fragment_read offset size al : is_u64 offset -> 0 <= size -> exists r, (ok ← CheckFileRange file file_offset offset size al; if (ok : bool) then Map file file_offset mmap_fails offset size else Ret None) = Ret r /\
  (forall d, r = Some d -> in_file offset size /\ d = part offset size).
Proof.
  intros [Ho _] Hs. destruct (range_checked offset size al Ho Hs) as (b & -> & Hb). cbn [mbind outcome_bind]. destruct b; [|by exists None].
  specialize (Hb eq_refl). destruct (Map_spec offset size Hb Hs) as [-> | ->]; eexists; (split; [done|]); [done|]. intros d [= <-]. done.
Qed.
(** What a reader holds is in the file, where the header says. *)
Definition header_of (h : Ehdr) : Prop := h = parse_Ehdr (part 0 64) /\ file_offset + 64 <= Z.of_nat (length file).
Definition well_read (e : ElfReader) : Prop :=
  let h := header_ e in
  header_of h /\ VerifyElfHeader target_sdk h = true /\ 1 <= e_phnum h <= 65536 / sizeof_Phdr /\
  in_file (e_phoff h) (e_phnum h * sizeof_Phdr) /\ phdr_table_ e = parse_array parse_Phdr 56 (Z.to_nat (e_phnum h)) (part (e_phoff h) (e_phnum h * sizeof_Phdr)) /\ Forall wf_Phdr (phdr_table_ e) /\
  (exists o n, in_file o n /\ dynamic_ e = parse_array parse_Dyn 16 (Z.to_nat (n / sizeof_Dyn)) (part o n) /\ (26 <= target_sdk -> pt_dynamic (phdr_table_ e) = (o, n))) /\
  exists o n, in_file o n /\ strtab_ e = part o n.
(** The sections: the dynamic section is the first one of its type, and the string table the section that it is linked to. *)
Definition sections_named (e : ElfReader) : Prop :=
  let h := header_ e in let shdrs := parse_array parse_Shdr 64 (Z.to_nat (e_shnum h)) (part (e_shoff h) (e_shnum h * sizeof_Shdr)) in
  in_file (e_shoff h) (e_shnum h * sizeof_Shdr) /\
  exists i dyn str, list_find (fun s => sh_type s = SHT_DYNAMIC) shdrs = Some (i, dyn) /\ shdrs !! Z.to_nat (sh_link dyn) = Some str /\ sh_type str = SHT_STRTAB /\
  in_file (sh_offset dyn) (sh_size dyn) /\ dynamic_ e = parse_array parse_Dyn 16 (Z.to_nat (sh_size dyn / sizeof_Dyn)) (part (sh_offset dyn) (sh_size dyn)) /\
  in_file (sh_offset str) (sh_size str) /\ strtab_ e = part (sh_offset str) (sh_size str).
Lemma header_read h : ReadElfHeader file file_offset pread_fails = Some h -> header_of h.
Proof.
  unfold ReadElfHeader. destruct (decide _); [done|]. destruct (decide _) as [|Hn]; [done|]. intros [= <-]. split; [unfold part; by rewrite Z.add_0_r|].
  rewrite length_take, length_drop in Hn. unfold sizeof_Ehdr in Hn. lia.
Qed.
Lemma header_ranges h : header_of h -> is_u64 (e_phoff h) /\ is_u64 (e_shoff h) /\ 0 <= e_phnum h /\ 0 <= e_shnum h.
Proof.
  intros [-> _]. pose proof (part_bytes 0 64) as Hb. unfold is_u64. cbn [e_phoff e_shoff e_phnum e_shnum parse_Ehdr]. split_and!; try (by apply (field_range _ _ 8)); by apply field_range.
Qed.
Lemma program_headers_read h : header_of h -> exists r, ReadProgramHeaders file file_offset mmap_fails h = Ret r /\ forall l, r = Some l ->
  1 <= e_phnum h <= 65536 / sizeof_Phdr /\ in_file (e_phoff h) (e_phnum h * sizeof_Phdr) /\ l = parse_array parse_Phdr 56 (Z.to_nat (e_phnum h)) (part (e_phoff h) (e_phnum h * sizeof_Phdr)) /\ Forall wf_Phdr l.
Proof.
  intros Hh. destruct (header_ranges h Hh) as (Ho & _ & Hn & _). unfold ReadProgramHeaders. destruct (decide _) as [|Hc]; [by exists None|].
  destruct (fragment_read (e_phoff h) (e_phnum h * sizeof_Phdr) 8 Ho ltac:(unfold sizeof_Phdr; lia)) as (r & E & Hr). destruct (CheckFileRange _ _ _ _ 8) as [[]| | |]; cbn [mbind outcome_bind] in *; try done.
  - rewrite E. cbn [mbind outcome_bind]. eexists. split; [done|]. intros l Hl. destruct r as [d|]; [|done]. injection Hl as <-. destruct (Hr d eq_refl) as [Hin ->].
    split_and!; [lia|lia|done|done|]. apply parse_array_Forall; [apply wf_parse_Phdr|apply part_bytes].
  - by exists None.
Qed.
Lemma section_headers_read h : header_of h -> exists r, ReadSectionHeaders file file_offset mmap_fails h = Ret r /\ forall l, r = Some l -> Forall wf_Shdr l /\
  in_file (e_shoff h) (e_shnum h * sizeof_Shdr) /\ l = parse_array parse_Shdr 64 (Z.to_nat (e_shnum h)) (part (e_shoff h) (e_shnum h * sizeof_Shdr)).
Proof.
  intros Hh. destruct (header_ranges h Hh) as (_ & Ho & _ & Hn). unfold ReadSectionHeaders. destruct (decide _) as [|Hc]; [by exists None|].
  destruct (fragment_read (e_shoff h) (e_shnum h * sizeof_Shdr) 8 Ho ltac:(unfold sizeof_Shdr; lia)) as (r & E & Hr). destruct (CheckFileRange _ _ _ _ 8) as [[]| | |]; cbn [mbind outcome_bind] in *; try done.
  - rewrite E. cbn [mbind outcome_bind]. eexists. split; [done|]. intros l Hl. destruct r as [d|]; [|done]. injection Hl as <-. destruct (Hr d eq_refl) as [Hin ->].
    split_and!; [|done|done]. apply parse_array_Forall; [apply wf_parse_Shdr|apply part_bytes].
  - by exists None.
Qed.
Lemma dynamic_read phdrs shdrs : Forall wf_Shdr shdrs -> exists r, ReadDynamicSection file file_offset target_sdk mmap_fails phdrs shdrs = Ret r /\ forall d s, r = Some (d, s) ->
  exists i dyn str, list_find (fun s => sh_type s = SHT_DYNAMIC) shdrs = Some (i, dyn) /\ shdrs !! Z.to_nat (sh_link dyn) = Some str /\ sh_type str = SHT_STRTAB /\
  in_file (sh_offset dyn) (sh_size dyn) /\ d = parse_array parse_Dyn 16 (Z.to_nat (sh_size dyn / sizeof_Dyn)) (part (sh_offset dyn) (sh_size dyn)) /\
  (26 <= target_sdk -> pt_dynamic phdrs = (sh_offset dyn, sh_size dyn)) /\ in_file (sh_offset str) (sh_size str) /\ s = part (sh_offset str) (sh_size str).
Proof.
  intros Hs. unfold ReadDynamicSection. destruct (list_find _ shdrs) as [[i dyn]|] eqn:Ei; [|by exists None]. apply list_find_Some in Ei as Hi. destruct Hi as (Hi & _ & _). pose proof (Forall_lookup_1 _ _ _ _ Hs Hi) as (Ho & Hz & Hl).
  destruct (decide (_ /\ _)) as [|Hc1]; [by exists None|]. destruct (decide (_ /\ _)) as [|Hc2]; [by exists None|]. destruct (decide (_ <= _)) as [|Hk]; [by exists None|].
  destruct (shdrs !! Z.to_nat (sh_link dyn)) as [str|] eqn:Es; [|apply lookup_ge_None in Es; lia]. pose proof (Forall_lookup_1 _ _ _ _ Hs Es) as (Ho' & Hz' & _). destruct (decide _) as [|Hstr]; [by exists None|].
  destruct (fragment_read (sh_offset dyn) (sh_size dyn) 8 Ho ltac:(apply Hz)) as (r & E & Hr). destruct (CheckFileRange _ _ _ _ 8) as [[]| | |]; cbn [mbind outcome_bind negb] in *; try done; [|by exists None].
  rewrite E. cbn [mbind outcome_bind]. destruct r as [d|]; [|by exists None]. destruct (Hr d eq_refl) as [Hin ->].
  destruct (fragment_read (sh_offset str) (sh_size str) 1 Ho' ltac:(apply Hz')) as (r' & E' & Hr'). destruct (CheckFileRange _ _ _ _ 1) as [[]| | |]; cbn [mbind outcome_bind negb] in *; try done; [|by exists None].
  rewrite E'. cbn [mbind outcome_bind]. eexists. split; [done|]. intros d s Hds. destruct r' as [s'|]; [|done]. injection Hds as <- <-. destruct (Hr' s' eq_refl) as [Hin' ->].
  exists i, dyn, str. split_and!; [done|exact Es|by apply dec_stable|exact Hin|done| |exact Hin'|done]. intros H26. rewrite (surjective_pairing (pt_dynamic phdrs)). f_equal; lia.
Qed.
Lemma read_safe : exists r, Read file file_offset target_sdk pread_fails mmap_fails = Ret r /\ forall e, r = Some e -> well_read e /\ sections_named e.
Proof.
  unfold Read. destruct (ReadElfHeader _ _ _) as [h|] eqn:Eh; [|by exists None]. apply header_read in Eh. destruct (VerifyElfHeader target_sdk h) eqn:Ev; [|by exists None].
  destruct (program_headers_read h Eh) as (rp & -> & Hp). cbn [mbind outcome_bind]. destruct rp as [phdrs|]; [|by exists None]. destruct (Hp phdrs eq_refl) as (Hn & Hin & Hph & Hwf).
  destruct (section_headers_read h Eh) as (rs & -> & Hs). cbn [mbind outcome_bind]. destruct rs as [shdrs|]; [|by exists None]. destruct (Hs shdrs eq_refl) as (Hsw & Hsin & Esh).
  destruct (dynamic_read phdrs shdrs Hsw) as (rd & -> & Hd). cbn [mbind outcome_bind]. eexists. split; [done|]. intros e He. destruct rd as [[d s]|]; [|done]. injection He as <-.
  destruct (Hd d s eq_refl) as (i & dyn & str & Ei & Es & Et & Hdin & -> & Hpt & Hstr & ->). split.
  - refine (conj Eh (conj Ev (conj Hn (conj Hin (conj Hph (conj Hwf (conj _ _))))))); eauto 10.
  - subst shdrs. split; [exact Hsin|]. exists i, dyn, str. auto 10.
Qed.
(** C26. Whatever bytes the file has, reading it ends without a failed check and without an access outside
    of the file; what is accepted has the header of a library, and the tables are those that the header names: the dynamic section
    is the first section of its type, and the string table the one that it is linked to. *)
Theorem file_read : exists r, Read file file_offset target_sdk pread_fails mmap_fails = Ret r /\ forall e, r = Some e -> well_read e /\ sections_named e.
Proof. exact read_safe. Qed.
End ReadSafe.

(** ** Mapping the segments *)
Definition up (x : Z) : Z := x + (- x) mod 4096.
Definition down (x : Z) : Z := x - x mod 4096.
Ltac pages := unfold up, down in *; Z.to_euclidean_division_equations; lia.
Lemma up_mono x y : x <= y -> up x <= up y.
Proof. intros. pages. Qed.
Lemma PAGE_END_up x : 0 <= x <= 2 ^ 64 - 4096 -> PAGE_END x = up x.
Proof. apply PAGE_END_mod. Qed.
Lemma PAGE_START_down x : 0 <= x < 2 ^ 64 -> PAGE_START x = down x.
Proof. apply PAGE_START_mod. Qed.
Lemma within_spec a b x : within a b x = true <-> a <= x < b.
Proof. apply bool_decide_eq_true. Qed.
Lemma mapped_spec n : forall a (m : memory), mapped n a m = true <-> forall x, a <= x < a + Z.of_nat n -> is_Some (m x).
Proof.
  induction n as [|n IH]; intros a m; cbn [mapped]; [split; [lia|done]|]. destruct (m a) as [b|] eqn:E.
  - rewrite IH. split; intros H x Hx; [destruct (decide (x = a)) as [->|]; [by eexists|]|]; apply H; lia.
  - split; [done|]. intros H. destruct (H a ltac:(lia)) as [b Hb]. congruence.
Qed.
Lemma memset_spec v n a (m : memory) : (forall x, a <= x < a + Z.of_nat n -> is_Some (m x)) -> exists m', memset n a v m = Ret m' /\ forall x, m' x = if within a (a + Z.of_nat n) x then Some v else m x.
Proof. intros H%mapped_spec. unfold memset. rewrite H. by eexists. Qed.
(** [d] is the distance of the library from its own addresses. *)
Definition placed (d : Z) (p : Phdr) : Prop := 0 <= p_vaddr p + d /\ p_vaddr p + d + p_memsz p <= user_end.
Lemma shifted bias d p : bias = wrapu 64 d -> placed d p -> 0 <= p_memsz p -> wrapu 64 (p_vaddr p + bias) = p_vaddr p + d.
Proof. intros -> [H1 H2] Hm. unfold wrapu. rewrite Zplus_mod_idemp_r. apply Z.mod_small. unfold user_end in H2. lia. Qed.
Section LoadSafe.
Context (file : list Z) (file_offset : Z) (fixed_fails : Z -> Z -> bool).
Hypothesis file_small : 0 < Z.of_nat (length file) < 2 ^ 62.
Hypothesis offset_aligned : 0 <= file_offset /\ file_offset mod 4096 = 0.
(** A segment as the format defines it, with its part of the file in the file. *)
Definition wf_segment (p : Phdr) : Prop :=
  wf_Phdr p /\ p_filesz p <= p_memsz p /\ p_offset p mod 4096 = p_vaddr p mod 4096 /\ file_offset + p_offset p + p_filesz p <= Z.of_nat (length file).
(** The memory holds the segment at an address; what follows the part of the file is zero, up to the next page only if the segment is writable. *)
Definition holds (m : memory) (a : Z) (p : Phdr) : Prop :=
  (forall i, 0 <= i < p_filesz p -> m (a + i) = file !! Z.to_nat (file_offset + p_offset p + i)) /\
  (forall i, p_filesz p <= i < p_memsz p -> Z.land (p_flags p) PF_W <> 0 \/ up (a + p_filesz p) <= a + i -> m (a + i) = Some 0).
Lemma file_byte_in pos : 0 <= pos < Z.of_nat (length file) -> file_byte file pos = file !! Z.to_nat pos.
Proof. intros H. unfold file_byte. rewrite decide_False by lia. destruct (file !! Z.to_nat pos) eqn:E; [done|]. apply lookup_ge_None in E. lia. Qed.
Lemma file_byte_page pos : 0 <= pos < up (Z.of_nat (length file)) -> is_Some (file_byte file pos).
Proof. intros H. unfold file_byte. rewrite decide_False by lia. destruct (file !! Z.to_nat pos); [by eexists|]. rewrite PAGE_END_up by lia. rewrite decide_True by lia. by eexists. Qed.
(** The pages of a segment change, and no others. *)
Definition framed (lo hi : Z) (s s' : space) : Prop := forall x, x < lo \/ hi <= x -> bytes_ s' x = bytes_ s x /\ taken s' x = taken s x.
Lemma mmap_fixed_spec a size content s : 0 <= a -> 0 < size -> a + size <= user_end -> exists r, mmap_fixed fixed_fails a size content s = r /\
  match r with
  | None => fixed_fails a size = true
  | Some s' => (forall x, bytes_ s' x = if within a (up (a + size)) x then content (x - a) else bytes_ s x) /\ (forall x, taken s' x = within a (up (a + size)) x || taken s x)
  end.
Proof.
  intros Ha Hs He. eexists. split; [done|]. unfold mmap_fixed. unfold user_end in *. destruct (decide _) as [Hc|Hc]; [destruct Hc as [|[|]]; (done || lia)|].
  rewrite PAGE_END_up by lia. done.
Qed.
Lemma file_mapped p a s : wf_segment p -> 0 <= a -> a mod 4096 = p_vaddr p mod 4096 -> a + p_memsz p <= user_end ->
  match (if decide (wrapu 64 (wrapu 64 (p_offset p + p_filesz p) - PAGE_START (p_offset p)) <> 0)
         then mmap_file file fixed_fails (PAGE_START a) (wrapu 64 (wrapu 64 (p_offset p + p_filesz p) - PAGE_START (p_offset p))) (wraps 64 (file_offset + PAGE_START (p_offset p))) s else Some s) with
  | None => exists b n, fixed_fails b n = true
  | Some s' => (forall x, bytes_ s' x = if within (down a) (up (a + p_filesz p)) x then file_byte file (file_offset + p_offset p + (x - a)) else bytes_ s x) /\
      (forall x, taken s' x = within (down a) (up (a + p_filesz p)) x || taken s x)
  end.
Proof.
  intros ((Ho & Hv & Hf & Hm & _) & Hle & Hmod & Hin) Ha Hamod Hend. unfold is_u64, user_end in *. destruct offset_aligned as [Hfo Hfa].
  rewrite (wrapu_small 64 (p_offset p + p_filesz p)) by lia. rewrite !PAGE_START_down by lia. rewrite wrapu_small by pages.
  assert (wraps 64 (file_offset + down (p_offset p)) = file_offset + down (p_offset p)) as -> by (unfold wraps; rewrite Z.mod_small by pages; lia).
  destruct (decide _) as [Hl|Hl].
  - unfold mmap_file. rewrite decide_False by (unfold PAGE_SIZE; pages).
    destruct (mmap_fixed_spec (down a) (p_offset p + p_filesz p - down (p_offset p)) (fun j => file_byte file (file_offset + down (p_offset p) + j)) s) as (r & -> & Hr); [pages|pages|unfold user_end; pages|].
    replace (down a + (p_offset p + p_filesz p - down (p_offset p))) with (a + p_filesz p) in Hr by pages. destruct r as [s'|]; [|by eexists _, _]. destruct Hr as [Hb Ht]. split; [|done].
    intros x. rewrite Hb. destruct (within _ _ x); [|done]. f_equal. pages.
  - assert (forall x, within (down a) (up (a + p_filesz p)) x = false) as Hw by (intros x; apply bool_decide_eq_false_2; pages). split; intros x; by rewrite Hw.
Qed.
(** The rest of the last page of the file part is cleared in a writable segment. *)
Lemma tail_cleared flags e (m : memory) : 0 <= e -> (forall x, e <= x < up e -> is_Some (m x)) ->
  exists m', (if decide (Z.land flags PF_W <> 0 /\ 0 < PAGE_OFFSET e) then memset (Z.to_nat (PAGE_SIZE - PAGE_OFFSET e)) e 0 m else Ret m) = Ret m' /\
    forall x, m' x = if decide (Z.land flags PF_W <> 0 /\ e <= x < up e) then Some 0 else m x.
Proof.
  intros He Hm. rewrite PAGE_OFFSET_mod. unfold PAGE_SIZE. destruct (decide (_ /\ 0 < _)) as [[Hw Hp]|Hn].
  - assert (Z.of_nat (Z.to_nat (4096 - e mod 4096)) = up e - e) as El by pages. destruct (memset_spec 0 (Z.to_nat (4096 - e mod 4096)) e m) as (m' & -> & Hm').
    { intros x Hx. apply Hm. lia. }
    exists m'. split; [done|]. intros x. rewrite Hm', El. unfold within. case_bool_decide; [rewrite decide_True by lia; done|rewrite decide_False by lia; done].
  - exists m. split; [done|]. intros x. rewrite decide_False; [done|]. intros [Hw Hx]. apply Hn. split; [done|]. pages.
Qed.
(** What the three steps leave. *)
Definition segment_memory (p : Phdr) (a : Z) (m : memory) (x : Z) : option Z :=
  if within (up (a + p_filesz p)) (up (a + p_memsz p)) x then Some 0
  else if decide (Z.land (p_flags p) PF_W <> 0 /\ a + p_filesz p <= x < up (a + p_filesz p)) then Some 0
  else if within (down a) (up (a + p_filesz p)) x then file_byte file (file_offset + p_offset p + (x - a)) else m x.
Lemma segment_memory_holds p a m m' : wf_segment p -> (forall x, m' x = segment_memory p a m x) -> holds m' a p.
Proof.
  intros ((Ho & Hv & Hf & Hm & _) & Hle & Hmod & Hin) Hx. unfold is_u64 in *. destruct offset_aligned as [Hfo Hfa]. split.
  - intros i Hi. rewrite Hx. unfold segment_memory, within. rewrite bool_decide_eq_false_2 by pages. rewrite decide_False by lia. rewrite bool_decide_eq_true_2 by pages.
    replace (a + i - a) with i by lia. apply file_byte_in. lia.
  - intros i Hi Hw. rewrite Hx. unfold segment_memory, within. case_bool_decide; [done|]. destruct (decide _) as [|Hn]; [done|]. destruct Hw as [Hw|Hw]; [|pages]. exfalso. apply Hn. split; [done|]. pages.
Qed.
Lemma segment_memory_frame p a (m : memory) x : p_filesz p <= p_memsz p -> 0 <= p_filesz p -> x < down a \/ up (a + p_memsz p) <= x -> segment_memory p a m x = m x.
Proof. intros Hle Hf Hx. unfold segment_memory, within. rewrite bool_decide_eq_false_2 by pages. rewrite decide_False by pages. by rewrite bool_decide_eq_false_2 by pages. Qed.
Lemma segment_loaded p a bias s : wf_segment p -> wrapu 64 (p_vaddr p + bias) = a -> a mod 4096 = p_vaddr p mod 4096 -> a + p_memsz p <= user_end ->
  exists ok s', load_segment file file_offset fixed_fails bias p s = Ret (ok, s') /\ framed (down a) (up (a + p_memsz p)) s s' /\
    (if ok then holds (bytes_ s') a p else (exists b n, fixed_fails b n = true)).
Proof.
  intros Hwf Ea Hamod Hend. pose proof Hwf as ((Ho & Hv & Hf & Hm & _) & Hle & Hmod & Hin). assert (0 <= a) as Ha by (subst a; apply wrapu_range; lia). destruct offset_aligned as [Hfo Hfa].
  unfold load_segment. rewrite Ea. cbv zeta. pose proof (file_mapped p a s Hwf Ha Hamod Hend) as Hfile. unfold is_u64, user_end in *.
  rewrite (wrapu_small 64 (a + p_memsz p)), (wrapu_small 64 (a + p_filesz p)) by lia. rewrite (PAGE_END_up (a + p_memsz p)), (PAGE_END_up (a + p_filesz p)) by lia.
  rewrite (decide_False (P := _ <= 0)) by lia. rewrite (decide_False (P := _ < wrapu 64 (p_offset p + p_filesz p))) by (rewrite wrapu_small by lia; lia).
  destruct (if decide _ then mmap_file _ _ _ _ _ s else Some s) as [s1|]; [|exists false, s; split_and!; done]. destruct Hfile as [Hb1 Ht1].
  destruct (tail_cleared (p_flags p) (a + p_filesz p) (bytes_ s1)) as (m2 & -> & Hm2); [lia| |].
  { intros x Hx. rewrite Hb1. rewrite (proj2 (within_spec _ _ _)) by pages. apply file_byte_page. pages. }
  cbn [mbind outcome_bind]. destruct (decide (up (a + p_filesz p) < up (a + p_memsz p))) as [Hz|Hz].
  - destruct (mmap_fixed_spec (up (a + p_filesz p)) (up (a + p_memsz p) - up (a + p_filesz p)) (fun _ => Some 0) (mkSpace m2 (taken s1))) as (r & -> & Hr); [pages|lia|unfold user_end; pages|].
    replace (up (up (a + p_filesz p) + (up (a + p_memsz p) - up (a + p_filesz p)))) with (up (a + p_memsz p)) in Hr by pages. cbn [bytes_ taken] in Hr. destruct r as [s'|].
    + destruct Hr as [Hb Ht]. exists true, s'. assert (forall x, bytes_ s' x = segment_memory p a (bytes_ s) x) as Hs' by (intros x; unfold segment_memory; by rewrite Hb, Hm2, Hb1).
      split_and!; [done| |by apply (segment_memory_holds p a (bytes_ s))].
      intros x Hx. rewrite Hs', segment_memory_frame by (done || lia). split; [done|]. rewrite Ht, Ht1. unfold within. rewrite !bool_decide_eq_false_2 by pages. done.
    + exists false. eexists. split_and!; [done| |by eexists _, _]. intros x Hx. cbn [bytes_ taken]. rewrite Hm2, Hb1, Ht1. unfold within. rewrite decide_False by pages. by rewrite !bool_decide_eq_false_2 by pages.
  - exists true. eexists. assert (forall x, m2 x = segment_memory p a (bytes_ s) x) as Hs' by (intros x; unfold segment_memory, within; rewrite bool_decide_eq_false_2 by lia; by rewrite Hm2, Hb1).
    split_and!; [done| |by apply (segment_memory_holds p a (bytes_ s))].
    intros x Hx. cbn [bytes_ taken]. rewrite Hs', segment_memory_frame by (done || lia). split; [done|]. rewrite Ht1. unfold within. by rewrite !bool_decide_eq_false_2 by pages.
Qed.
Lemma holds_ext m m' a p : p_filesz p <= p_memsz p -> 0 <= p_filesz p -> (forall x, a <= x < a + p_memsz p -> m' x = m x) -> holds m a p -> holds m' a p.
Proof. intros Hle Hf Hx [H1 H2]. split; intros i Hi; [rewrite Hx by lia; by apply H1|]. intros Hw. rewrite Hx by lia. by apply H2. Qed.
(** Segments without a common page. *)
Definition apart (p q : Phdr) : Prop := up (p_vaddr p + p_memsz p) <= down (p_vaddr q) \/ up (p_vaddr q + p_memsz q) <= down (p_vaddr p).
Definition loads (phdrs : list Phdr) : list Phdr := filter (fun p => p_type p = PT_LOAD) phdrs.
Definition outside (d : Z) (ps : list Phdr) (x : Z) : Prop := Forall (fun p => x < down (p_vaddr p + d) \/ up (p_vaddr p + d + p_memsz p) <= x) ps.
Lemma segments_loaded bias d phdrs : bias = wrapu 64 d -> d mod 4096 = 0 -> Forall wf_segment (loads phdrs) -> Forall (placed d) (loads phdrs) -> ForallOrdPairs apart (loads phdrs) -> forall s,
  exists ok s', LoadSegments file file_offset fixed_fails bias phdrs s = Ret (ok, s') /\ (forall x, outside d (loads phdrs) x -> bytes_ s' x = bytes_ s x /\ taken s' x = taken s x) /\
    (if ok then Forall (fun p => holds (bytes_ s') (p_vaddr p + d) p) (loads phdrs) else (exists b n, fixed_fails b n = true)).
Proof.
  intros Hb Hd. induction phdrs as [|p phdrs IH]; intros Hwf Hpl Hap s.
  { exists true, s. split_and!; [done|done|constructor]. }
  cbn [LoadSegments]. unfold loads in *. rewrite filter_cons in *. unfold is_load. destruct (decide (p_type p = PT_LOAD)) as [Hl|Hl]; [rewrite bool_decide_eq_true_2 by done|rewrite bool_decide_eq_false_2 by done; by apply IH].
  apply Forall_cons_1 in Hwf as [Hp Hwf]. apply Forall_cons_1 in Hpl as [Hpp Hpl]. inversion Hap as [|? ? Hap1 Hap2]; subst a l.
  pose proof Hp as ((_ & _ & Hf & Hm & _) & Hle & _ & _). unfold is_u64 in *.
  destruct (segment_loaded p (p_vaddr p + d) bias s Hp (shifted bias d p Hb Hpp ltac:(lia)) ltac:(rewrite Zplus_mod, Hd, Z.add_0_r; by apply Z.mod_mod) ltac:(apply Hpp)) as (ok & s1 & -> & Hfr & Hok).
  cbn [mbind outcome_bind fst snd]. destruct ok.
  - destruct (IH Hwf Hpl Hap2 s1) as (ok & s' & E & Hout & Hres). exists ok, s'. split; [done|]. split.
    + intros x [Hx Hxs]%Forall_cons_1. destruct (Hout x Hxs) as [-> ->]. apply Hfr. lia.
    + destruct ok; [|done]. constructor; [|done]. apply (holds_ext (bytes_ s1)); [lia|lia| |done]. intros x Hx. apply Hout.
      apply Forall_forall. intros q Hq. rewrite Forall_forall in Hap1. specialize (Hap1 q Hq). unfold apart in Hap1. pages.
  - exists false, s1. split; [done|]. split; [|done]. intros x [Hx _]%Forall_cons_1. apply Hfr. lia.
Qed.
End LoadSafe.

(** ** Reserving addresses *)
(** Mappings are pages, and only they can be read. *)
Definition by_pages (t : Z -> bool) : Prop := forall x, t x = t (down x).
Definition wf_space (s : space) : Prop := by_pages (taken s) /\ forall x, taken s x = false -> bytes_ s x = None.
(** The kernel puts a new mapping at a page of its own, in the addresses of the process. *)
Definition kernel_places (place : (Z -> bool) -> Z -> option Z) : Prop :=
  forall t n a, by_pages t -> place t n = Some a -> a mod 4096 = 0 /\ 0 <= a /\ a + n <= user_end /\ forall x, a <= x < up (a + n) -> t x = false.
Lemma within_pages a b : a mod 4096 = 0 -> b mod 4096 = 0 -> by_pages (within a b).
Proof. intros Ha Hb x. unfold within. apply bool_decide_ext. pages. Qed.
Lemma orb_pages t t' : by_pages t -> by_pages t' -> by_pages (fun x => t x || t' x).
Proof. intros H H' x. by rewrite (H x), (H' x). Qed.
Lemma land_align k x : 0 <= k < 64 -> 0 <= x < 2 ^ 64 -> Z.land x (wrapu 64 (Z.lnot (wrapu 64 (2 ^ k - 1)))) = x - x mod 2 ^ k.
Proof.
  intros Hk Hx. assert (2 ^ k < 2 ^ 64) by (apply Z.pow_lt_mono_r; lia). assert (0 < 2 ^ k) by (apply Z.pow_pos_nonneg; lia). rewrite (wrapu_small 64 (2 ^ k - 1)) by lia.
  assert (wrapu 64 (Z.lnot (2 ^ k - 1)) = 2 ^ 64 - 2 ^ k) as ->; [|apply land_mask; lia]. unfold wrapu. symmetry. apply (Z.mod_unique _ _ (-1)); unfold Z.lnot; lia.
Qed.
Definition round18 (x : Z) : Z := x + (- x) mod 262144.
Lemma align_up_round x : 0 <= x <= 2 ^ 63 -> align_up x 262144 = round18 x.
Proof.
  intros Hx. unfold align_up. change 262144 with (2 ^ 18) at 1 2. rewrite (wrapu_small 64 (x + 2 ^ 18 - 1)) by lia. rewrite land_align by lia.
  change (2 ^ 18) with 262144. unfold round18. Z.to_euclidean_division_equations. lia.
Qed.
Lemma munmap_spec a size s : 0 <= a -> 0 <= size -> a mod 4096 = 0 -> a + size <= user_end -> forall x,
  bytes_ (munmap a size s) x = (if within a (up (a + size)) x then None else bytes_ s x) /\ taken (munmap a size s) x = negb (within a (up (a + size)) x) && taken s x.
Proof.
  intros Ha Hs Hm He x. unfold munmap, user_end in *. rewrite PAGE_OFFSET_mod, Hm. destruct (decide _) as [Hc|Hc].
  - assert (size = 0) as -> by (destruct Hc; (done || lia)). assert (within a (up (a + 0)) x = false) as -> by (apply bool_decide_eq_false_2; pages). done.
  - rewrite PAGE_END_up by lia. done.
Qed.
Section Reserve.
Context (place : (Z -> bool) -> Z -> option Z).
Hypothesis place_ok : kernel_places place.
(** Exactly the bytes that are asked for are reserved, at a multiple of the alignment where nothing was. *)
Lemma aligned_reserved size s start s' : wf_space s -> 0 < size <= 2 ^ 46 -> size mod 4096 = 0 -> ReserveAligned place size kLibraryAlignment s = Some (start, s') ->
  start mod 262144 = 0 /\ 0 <= start /\ start + size <= user_end /\ wf_space s' /\ (forall x, start <= x < start + size -> taken s x = false) /\
  (forall x, taken s' x = within start (start + size) x || taken s x) /\ forall x, bytes_ s' x = bytes_ s x.
Proof.
  intros Hwf Hs Hm. unfold ReserveAligned. change kLibraryAlignment with 262144. rewrite decide_False by done. rewrite align_up_round by lia. unfold mmap_reserve, PAGE_SIZE.
  assert (size <= round18 size < size + 262144) as Hr by (unfold round18; pages). assert (round18 size mod 4096 = 0) as Hrm by (unfold round18; pages).
  rewrite (wrapu_small 64 (round18 size + 262144 - 4096)) by lia. remember (round18 size + 262144 - 4096) as n eqn:En. destruct (decide (n = 0)); [done|].
  destruct (place (taken s) n) as [a|] eqn:Ep; [|done]. destruct (place_ok _ _ _ (proj1 Hwf) Ep) as (Hma & Ha & He & Hfree). assert (up (a + n) = a + n) as Hup by pages. unfold user_end in *.
  assert (PAGE_END (a + n) = a + n) as -> by (rewrite <- Hup at 2; apply PAGE_END_up; lia). rewrite Hup in Hfree. rewrite align_up_round by lia.
  assert (a <= round18 a <= a + 262144 - 4096 /\ round18 a mod 262144 = 0 /\ round18 a mod 4096 = 0) as (Hst & Hst18 & Hst12) by (unfold round18; pages). remember (round18 a) as b eqn:Eb.
  rewrite (wrapu_small 64 (b - a)), (wrapu_small 64 (b + size)), (wrapu_small 64 (a + n - (b + size))) by lia.
  set (s0 := mkSpace _ _). intros [= <- <-]. assert ((b + size) mod 4096 = 0) as Hbs by pages.
  pose proof (munmap_spec a (b - a) s0 Ha ltac:(lia) Hma ltac:(unfold user_end; lia)) as H1. pose proof (munmap_spec (b + size) (a + n - (b + size)) (munmap a (b - a) s0) ltac:(lia) ltac:(lia) Hbs ltac:(unfold user_end; lia)) as H2.
  replace (up (a + (b - a))) with b in H1 by pages. replace (up (b + size + (a + n - (b + size)))) with (a + n) in H2 by pages.
  set (s2 := munmap (b + size) _ _) in *. assert (forall x, taken s2 x = within b (b + size) x || taken s x) as Ht.
  { intros x. destruct (H2 x) as [_ ->]. destruct (H1 x) as [_ ->]. cbn [taken s0]. pose proof (Hfree x). unfold within. repeat case_bool_decide; cbn [negb andb orb]; try done; try lia; symmetry; apply H; lia. }
  assert (forall x, bytes_ s2 x = bytes_ s x) as Hby.
  { intros x. destruct (H2 x) as [-> _]. destruct (H1 x) as [-> _]. cbn [bytes_ s0]. pose proof (fun H => proj2 Hwf x (Hfree x H)). unfold within. repeat case_bool_decide; try done; symmetry; apply H; lia. }
  split_and!; [done|lia|lia| | |done|done].
  - split; [intros x; rewrite !Ht; by apply (orb_pages _ _ (within_pages b (b + size) Hst12 Hbs) (proj1 Hwf))|]. intros x Hx. rewrite Hby. apply Hwf. rewrite Ht in Hx. apply orb_false_elim in Hx. apply Hx.
  - intros x Hx. apply Hfree. lia.
Qed.
End Reserve.
Definition low (p : Phdr) : Prop := wf_Phdr p /\ p_vaddr p + p_memsz p <= 2 ^ 46.
Lemma extend_spec phdrs : Forall low (loads phdrs) -> forall mn mx f, 0 <= mn -> 0 <= mx <= 2 ^ 46 -> exists mn' mx', foldl extend (mn, mx, f) phdrs = (mn', mx', f || bool_decide (loads phdrs <> [])) /\
  0 <= mn' <= mn /\ mx <= mx' <= 2 ^ 46 /\ Forall (fun p => mn' <= p_vaddr p /\ p_vaddr p + p_memsz p <= mx') (loads phdrs).
Proof.
  induction phdrs as [|p phdrs IH]; intros Hl mn mx f Hmn Hmx.
  { exists mn, mx. cbn. rewrite orb_false_r. split_and!; (done || lia). }
  cbn [foldl extend]. unfold loads, is_load in *. rewrite filter_cons in *. destruct (decide (p_type p = PT_LOAD)) as [Ht|Ht]; [rewrite bool_decide_eq_true_2 by done|rewrite bool_decide_eq_false_2 by done; by apply IH].
  apply Forall_cons_1 in Hl as [[(_ & Hv & _ & Hm & _) Hp] Hl]. unfold is_u64 in *. rewrite wrapu_small by lia.
  destruct (IH Hl (if decide (p_vaddr p < mn) then p_vaddr p else mn) (if decide (mx < p_vaddr p + p_memsz p) then p_vaddr p + p_memsz p else mx) true) as (mn' & mx' & -> & H1 & H2 & H3); [destruct (decide _); lia|destruct (decide _); lia|].
  exists mn', mx'. rewrite (bool_decide_eq_true_2 (_ :: _ <> [])) by done. rewrite orb_true_r. split; [done|]. destruct (decide (p_vaddr p < mn)), (decide (mx < p_vaddr p + p_memsz p)); (split_and!; try lia; constructor; [lia|done]).
Qed.
Lemma load_size_spec phdrs : loads phdrs <> [] -> Forall low (loads phdrs) -> exists lo hi, phdr_table_get_load_size phdrs = (down lo, up hi, up hi - down lo) /\ 0 <= lo <= hi /\ hi <= 2 ^ 46 /\
  Forall (fun p => lo <= p_vaddr p /\ p_vaddr p + p_memsz p <= hi) (loads phdrs).
Proof.
  intros Hne Hl. destruct (extend_spec phdrs Hl (2 ^ 64 - 1) 0 false) as (lo & hi & E & H1 & H2 & H3); [lia|lia|]. exists lo, hi. unfold phdr_table_get_load_size. rewrite E. rewrite bool_decide_eq_true_2 by done. cbn [orb].
  assert (lo <= hi) as Hlh. { destruct (loads phdrs) as [|p l]; [done|]. apply Forall_cons_1 in Hl as [[(_ & _ & _ & Hm & _) _] _]. apply Forall_cons_1 in H3 as [Hp _]. unfold is_u64 in Hm. lia. }
  rewrite PAGE_START_down, PAGE_END_up by lia. rewrite wrapu_small by pages. split_and!; (done || lia).
Qed.

(** ** Loading a library *)
Lemma load_le l : forall a (m : memory), (forall i x, l !! i = Some x -> m (a + Z.of_nat i) = Some x) -> load (length l) a m = Ret (le l).
Proof.
  induction l as [|b l IH]; intros a m Hm; [done|]. cbn [load length]. pose proof (Hm 0%nat b eq_refl) as H0. rewrite Z.add_0_r in H0. rewrite H0. rewrite (IH (a + 1)); [done|].
  intros i x Hi. rewrite <- (Hm (S i) x Hi). f_equal. lia.
Qed.
Lemma Forall_at {A} (P : A -> Prop) l x : Forall P l -> x ∈ l -> P x.
Proof. intros H Hx. by apply (proj1 (list.Forall_forall P l) H). Qed.
Section Library.
Context (file : list Z) (file_offset : Z) (target_sdk : Z) (place : (Z -> bool) -> Z -> option Z) (fixed_fails : Z -> Z -> bool).
Hypothesis file_small : 0 < Z.of_nat (length file) < 2 ^ 62.
Hypothesis offset_aligned : 0 <= file_offset /\ file_offset mod 4096 = 0.
Hypothesis place_ok : kernel_places place.
(** Segments of the format that share no page, with the headers of the file in the segment of its start. *)
Definition wf_program (phdrs : list Phdr) : Prop :=
  Forall (fun p => wf_segment file file_offset p /\ p_vaddr p + p_memsz p <= 2 ^ 46 /\ (p_offset p = 0 -> sizeof_Ehdr <= p_filesz p)) (loads phdrs) /\
  ForallOrdPairs apart (loads phdrs) /\ Forall (fun p => p_type p = PT_PHDR -> 0 <= p_vaddr p <= 2 ^ 46 /\ Exists (fun q => p_vaddr q <= p_vaddr p) (loads phdrs)) phdrs.
(** The table lies in what a segment has of the file. *)
Definition covered (d : Z) (phdrs : list Phdr) (a : Z) : Prop := exists p, p ∈ loads phdrs /\ p_vaddr p + d <= a /\ a + Z.of_nat (length phdrs) * sizeof_Phdr <= p_vaddr p + d + p_filesz p.
Lemma phdr_checked bias d phdrs a r : bias = wrapu 64 d -> wf_program phdrs -> Forall (placed d) (loads phdrs) -> Z.of_nat (length phdrs) <= 65536 -> 0 <= a < 2 ^ 63 -> CheckPhdr bias phdrs a = Some r -> r = a /\ covered d phdrs a.
Proof.
  intros Hb (Hwf & _ & _) Hpl Hlen Ha. unfold CheckPhdr, sizeof_Phdr. rewrite wrapu_small by lia. destruct (existsb _ phdrs) eqn:E; [|done]. intros [= <-]. split; [done|].
  apply existsb_exists in E as (p & Hp & [Hl Hc%bool_decide_eq_true]%andb_true_iff). exists p. assert (p ∈ loads phdrs) as Hin by (apply list_elem_of_filter; split; [by apply bool_decide_eq_true in Hl|by apply list_elem_of_In]).
  destruct (Forall_at _ _ p Hwf Hin) as (((_ & _ & Hf & Hm & _) & Hle & _) & _). pose proof (Forall_at _ _ p Hpl Hin) as Hpl'. unfold is_u64 in *.
  rewrite (shifted bias d p Hb Hpl') in Hc by lia. destruct Hpl' as [H1 H2]. unfold user_end in H2. rewrite wrapu_small in Hc by lia. unfold sizeof_Phdr. split; [done|]. lia.
Qed.
(** The field of the header in memory is that of the file. *)
Lemma phoff_loaded (m : memory) a p : wf_segment file file_offset p -> p_offset p = 0 -> sizeof_Ehdr <= p_filesz p -> holds file file_offset m a p -> load 8 (a + 32) m = Ret (e_phoff (parse_Ehdr (part file file_offset 0 64))).
Proof.
  intros (_ & _ & _ & Hin) Ho Hs [Hh _]. unfold sizeof_Ehdr in Hs. cbn [e_phoff parse_Ehdr]. unfold le_field, part. rewrite Z.add_0_r. change (Z.to_nat 64) with 64%nat.
  rewrite skipn_firstn_comm, drop_drop, take_take. change (8 `min` (64 - 32))%nat with 8%nat. set (l := take 8 _). assert (length l = 8%nat) as Hl by (unfold l; rewrite length_take, length_drop; lia).
  rewrite <- Hl at 1. apply load_le. intros i x Hi. pose proof (lookup_lt_Some _ _ _ Hi) as Hlt. rewrite Hl in Hlt. unfold l in Hi. rewrite lookup_take_lt, lookup_drop in Hi by lia.
  replace (a + 32 + Z.of_nat i) with (a + (32 + Z.of_nat i)) by lia. rewrite Hh by lia. rewrite <- Hi. f_equal. lia.
Qed.
Lemma first_load phdrs i p : list_find (fun p => p_type p = PT_LOAD) phdrs = Some (i, p) -> p ∈ loads phdrs.
Proof. intros (Hi & Ht & _)%list_find_Some. apply list_elem_of_filter. split; [done|by apply list_elem_of_lookup_2 in Hi]. Qed.
Lemma phdr_found bias d phdrs (m : memory) : bias = wrapu 64 d -> Z.abs d <= 2 ^ 47 -> wf_program phdrs -> Forall (placed d) (loads phdrs) -> Z.of_nat (length phdrs) <= 65536 ->
  0 <= e_phoff (parse_Ehdr (part file file_offset 0 64)) < 2 ^ 62 -> Forall (fun p => p_type p = PT_PHDR -> 0 <= p_vaddr p + d) phdrs -> Forall (fun p => holds file file_offset m (p_vaddr p + d) p) (loads phdrs) ->
  exists r, FindPhdr bias phdrs m = Ret r /\ forall a, r = Some a -> covered d phdrs a.
Proof.
  intros Hb Hd Hwf Hpl Hlen Hoff Hpos Hh. unfold FindPhdr. destruct (list_find _ phdrs) as [[i p]|] eqn:Ef.
  - apply list_find_Some in Ef as (Hi & Ht & _). eexists. split; [done|]. intros a Ha. pose proof Hwf as (Hwf1 & Hwf2 & Hwf3). pose proof (Forall_lookup_1 _ _ _ _ Hwf3 Hi Ht) as [Hv _]. pose proof (Forall_lookup_1 _ _ _ _ Hpos Hi Ht) as Hp.
    assert (wrapu 64 (bias + p_vaddr p) = p_vaddr p + d) as E by (subst bias; unfold wrapu; rewrite Zplus_mod_idemp_l; rewrite Z.mod_small by lia; lia).
    rewrite E in Ha. by destruct (phdr_checked bias d phdrs (p_vaddr p + d) a Hb Hwf Hpl Hlen ltac:(lia) Ha) as [-> Hc].
  - clear Ef. destruct (list_find _ phdrs) as [[i p]|] eqn:Ef; [|by exists None]. apply first_load in Ef. destruct (decide (p_offset p = 0)) as [Ho|Ho]; [|by exists None].
    pose proof Hwf as (Hwf1 & _ & _). destruct (Forall_at _ _ p Hwf1 Ef) as (Hs & Hv & H64). pose proof (Forall_at _ _ p Hpl Ef) as Hp. pose proof Hs as ((_ & _ & _ & Hm & _) & _). unfold is_u64 in Hm.
    rewrite (Z.add_comm bias). rewrite (shifted bias d p Hb Hp) by lia. rewrite (phoff_loaded m (p_vaddr p + d) p Hs Ho (H64 Ho) (Forall_at _ _ p Hh Ef)). cbn [mbind outcome_bind]. eexists. split; [done|]. intros a Ha.
    destruct Hp as [Hp1 Hp2]. unfold user_end in Hp2. rewrite wrapu_small in Ha by lia. by destruct (phdr_checked bias d phdrs (p_vaddr p + d + e_phoff (parse_Ehdr (part file file_offset 0 64))) a Hb Hwf Hpl Hlen ltac:(lia) Ha) as [-> Hc].
Qed.
(** Mapping a segment takes nothing back. *)
Lemma mmap_fixed_keeps a n content s s' x : mmap_fixed fixed_fails a n content s = Some s' -> taken s x = true -> taken s' x = true.
Proof. unfold mmap_fixed. destruct (decide _); [done|]. intros [= <-] Hx. cbn [taken]. rewrite Hx. apply orb_true_r. Qed.
Lemma load_segment_keeps bias p s ok s' x : load_segment file file_offset fixed_fails bias p s = Ret (ok, s') -> taken s x = true -> taken s' x = true.
Proof.
  unfold load_segment. cbv zeta. destruct (decide _); [by intros [= <- <-]|]. destruct (decide _); [by intros [= <- <-]|].
  destruct (if decide _ then mmap_file _ _ _ _ _ s else Some s) as [s1|] eqn:E1; [|by intros [= <- <-]]. intros H Hx. assert (taken s1 x = true) as Hx1.
  { clear H. unfold mmap_file in E1. repeat case_decide; simplify_eq; [by eapply mmap_fixed_keeps|done]. }
  match type of H with (?t ≫= _) = _ => destruct t as [m| | |]; [|done..] end. cbn [mbind outcome_bind] in H. case_decide; [|by simplify_eq].
  destruct (mmap_fixed _ _ _ _ _) as [s2|] eqn:E2; simplify_eq; [by eapply mmap_fixed_keeps|done].
Qed.
Lemma segments_keep bias phdrs : forall s ok s' x, LoadSegments file file_offset fixed_fails bias phdrs s = Ret (ok, s') -> taken s x = true -> taken s' x = true.
Proof.
  induction phdrs as [|p phdrs IH]; intros s ok s' x; cbn [LoadSegments]; [by intros [= <- <-]|]. destruct (is_load p); [|apply IH].
  destruct (load_segment _ _ _ bias p s) as [[[] s1]| | |] eqn:E; cbn [mbind outcome_bind fst snd]; try done; intros H Hx.
  - eapply IH; [done|]. by eapply load_segment_keeps.
  - injection H as <- <-. by eapply load_segment_keeps.
Qed.
(** Mappings stay pages, and only they can be read. *)
Lemma memset_None v n a (m : memory) m' x : memset n a v m = Ret m' -> m x = None -> m' x = None.
Proof.
  unfold memset. destruct (mapped n a m) eqn:E; [|done]. intros [= <-] Hx. destruct (within a (a + Z.of_nat n) x) eqn:Ew; [|done]. apply bool_decide_eq_true in Ew. destruct (proj1 (mapped_spec n a m) E x Ew). congruence.
Qed.
Lemma PAGE_START_page x : 0 <= x < 2 ^ 64 -> PAGE_START x mod 4096 = 0.
Proof. intros H. rewrite PAGE_START_down by done. pages. Qed.
Lemma PAGE_END_page x : PAGE_END x mod 4096 = 0.
Proof. apply PAGE_START_page. apply wrapu_range. lia. Qed.
Lemma mmap_fixed_wf a n content s s' : a mod 4096 = 0 -> wf_space s -> mmap_fixed fixed_fails a n content s = Some s' -> wf_space s'.
Proof.
  intros Ha [Hp Hn]. unfold mmap_fixed. destruct (decide _); [done|]. intros [= <-]. split; cbn [bytes_ taken].
  - apply orb_pages; [|done]. apply within_pages; [done|apply PAGE_END_page].
  - intros x [-> Hx]%orb_false_elim. by apply Hn.
Qed.
Lemma load_segment_wf bias p s ok s' : load_segment file file_offset fixed_fails bias p s = Ret (ok, s') -> wf_space s -> wf_space s'.
Proof.
  unfold load_segment. cbv zeta. destruct (decide _); [by intros [= <- <-]|]. destruct (decide _); [by intros [= <- <-]|].
  destruct (if decide _ then mmap_file _ _ _ _ _ s else Some s) as [s1|] eqn:E1; [|by intros [= <- <-]]. intros H Hs. assert (wf_space s1) as Hs1.
  { clear H. unfold mmap_file in E1. repeat case_decide; simplify_eq; [|done]. refine (mmap_fixed_wf _ _ _ _ _ _ Hs E1). apply PAGE_START_page. apply wrapu_range. lia. }
  match type of H with (?t ≫= _) = _ => destruct t as [m| | |] eqn:Em; [|done..] end. cbn [mbind outcome_bind] in H. assert (wf_space (mkSpace m (taken s1))) as Hs2.
  { split; [apply Hs1|]. cbn [bytes_ taken]. intros x Hx. apply Hs1 in Hx. clear E1 H. case_decide; [by apply (memset_None _ _ _ _ _ x Em)|by simplify_eq]. }
  clear E1 Em.
  case_decide; [|by simplify_eq]. destruct (mmap_fixed _ _ _ _ _) as [s2|] eqn:E2; simplify_eq; [|done]. refine (mmap_fixed_wf _ _ _ _ _ _ Hs2 E2). apply PAGE_END_page.
Qed.
Lemma segments_wf bias phdrs : forall s ok s', LoadSegments file file_offset fixed_fails bias phdrs s = Ret (ok, s') -> wf_space s -> wf_space s'.
Proof.
  induction phdrs as [|p phdrs IH]; intros s ok s'; cbn [LoadSegments]; [by intros [= <- <-]|]. destruct (is_load p); [|apply IH].
  destruct (load_segment _ _ _ bias p s) as [[[] s1]| | |] eqn:E; cbn [mbind outcome_bind fst snd]; try done; intros H Hx.
  - eapply IH; [done|]. by eapply load_segment_wf.
  - injection H as <- <-. by eapply load_segment_wf.
Qed.
(** What a library that is loaded promises: it starts at a multiple of the alignment, where nothing was, and its addresses hold its segments and its program headers. *)
Definition image_of (phdrs : list Phdr) (s s' : space) (at_ : placement) (phdr : Z) : Prop :=
  load_start at_ mod kLibraryAlignment = 0 /\ load_start at_ + load_size at_ <= user_end /\ (forall x, load_start at_ <= x < load_start at_ + load_size at_ -> taken s x = false /\ taken s' x = true) /\
  Forall (fun p => let a := wrapu 64 (p_vaddr p + load_bias at_) in load_start at_ <= a /\ a + p_memsz p <= load_start at_ + load_size at_ /\ holds file file_offset (bytes_ s') a p) (loads phdrs) /\
  exists p, p ∈ loads phdrs /\ let a := wrapu 64 (p_vaddr p + load_bias at_) in a <= phdr /\ phdr + Z.of_nat (length phdrs) * sizeof_Phdr <= a + p_filesz p.
Lemma no_loads phdrs : loads phdrs = [] -> phdr_table_get_load_size phdrs = (0, 0, 0).
Proof.
  intros Hn. unfold phdr_table_get_load_size. assert (foldl extend (2 ^ 64 - 1, 0, false) phdrs = (2 ^ 64 - 1, 0, false)) as ->; [|done]. revert Hn. generalize (2 ^ 64 - 1, 0, false).
  induction phdrs as [|p phdrs IH]; intros r; [done|]. unfold loads. rewrite filter_cons. destruct (decide _) as [|Ht]; [done|]. intros Hn. cbn [foldl]. assert (extend r p = r) as ->; [|by apply IH].
  unfold extend, is_load. rewrite bool_decide_eq_false_2 by done. by destruct r as [[]].
Qed.
(** The segments lie in what is reserved. *)
Lemma segments_inside lo hi d start ps : Forall (fun p => lo <= p_vaddr p /\ p_vaddr p + p_memsz p <= hi) ps -> start mod 4096 = 0 -> d = start - down lo ->
  forall x, x < start \/ start + (up hi - down lo) <= x -> outside d ps x.
Proof.
  intros Hin Hs -> x Hx. unfold outside. eapply Forall_impl; [|exact Hin]. intros p [H1 H2]. cbn in *. pages.
Qed.
Lemma segments_placed lo hi d start ps : Forall (fun p => wf_segment file file_offset p /\ p_vaddr p + p_memsz p <= 2 ^ 46 /\ (p_offset p = 0 -> sizeof_Ehdr <= p_filesz p)) ps ->
  Forall (fun p => lo <= p_vaddr p /\ p_vaddr p + p_memsz p <= hi) ps -> 0 <= start -> start + (up hi - down lo) <= user_end -> d = start - down lo -> Forall (placed d) ps.
Proof.
  intros Hwf Hin Hs He ->. apply list.Forall_forall. intros p Hp. destruct (Forall_at _ _ p Hin Hp) as [H1 H2]. split; pages.
Qed.
Lemma phoff_range e : well_read file file_offset target_sdk e -> 0 <= e_phoff (parse_Ehdr (part file file_offset 0 64)) < 2 ^ 62.
Proof. intros ((<- & _) & _ & Hn & [H1 H2] & _). unfold sizeof_Phdr in *. lia. Qed.
Lemma phdr_positive lo hi d start phdrs : wf_program phdrs -> Forall (fun p => lo <= p_vaddr p /\ p_vaddr p + p_memsz p <= hi) (loads phdrs) -> 0 <= start -> d = start - down lo -> Forall (fun p => p_type p = PT_PHDR -> 0 <= p_vaddr p + d) phdrs.
Proof.
  intros (_ & _ & Hph) Hin Hs ->. eapply Forall_impl; [|exact Hph]. intros p Hp Ht. destruct (Hp Ht) as [_ (q & Hq & Hle)%Exists_exists]. apply list_elem_of_In in Hq. destruct (Forall_at _ _ q Hin Hq). pages.
Qed.
Lemma load_safe (e : ElfReader) (s : space) : well_read file file_offset target_sdk e -> wf_program (phdr_table_ e) -> wf_space s ->
  exists r s', Load file file_offset place fixed_fails e (mkParams 0 0 false) s = Ret (r, mkParams 0 0 false, s') /\ wf_space s' /\ (forall x, taken s x = true -> bytes_ s' x = bytes_ s x /\ taken s' x = true) /\
    forall at_ phdr, r = Some (at_, phdr) -> image_of (phdr_table_ e) s s' at_ phdr.
Proof.
  intros Hr Hwf Hs. pose proof Hwf as (Hseg & Hap & Hph). unfold Load, ReserveAddressSpace. set (phdrs := phdr_table_ e) in *.
  destruct (decide (loads phdrs = [])) as [Hn|Hn]; [rewrite no_loads by done; rewrite decide_True by done; exists None, s; split_and!; done|].
  destruct (load_size_spec phdrs Hn) as (lo & hi & E & Hlo & Hhi & Hin); [eapply Forall_impl; [|exact Hseg]; intros p ((Hw & _) & Hv & _); by split|]. rewrite E. cbn [reserved_size must_use_address].
  destruct (decide (up hi - down lo = 0)) as [|Hz]; [exists None, s; split_and!; done|]. rewrite decide_True by pages.
  destruct (ReserveAligned place (up hi - down lo) kLibraryAlignment s) as [[start s1]|] eqn:Er; [|exists None, s; split_and!; done].
  destruct (aligned_reserved place place_ok (up hi - down lo) s start s1 Hs ltac:(pages) ltac:(pages) Er) as (Hal & H0 & Hend & Hs1 & Hfree & Ht1 & Hb1). cbn [load_bias].
  remember (start - down lo) as d eqn:Ed. pose proof (segments_placed lo hi d start _ Hseg Hin H0 Hend Ed) as Hpl. pose proof (segments_inside lo hi d start _ Hin ltac:(pages) Ed) as Hout.
  pose proof Hr as (Hhead & _ & Hnum & Hphoff & Htab & _). assert (Z.of_nat (length phdrs) <= 65536) as Hlen by (unfold phdrs; rewrite Htab, parse_array_length; unfold sizeof_Phdr in Hnum; change (65536 / 56) with 1170 in Hnum; lia).
  destruct (segments_loaded file file_offset fixed_fails file_small offset_aligned (wrapu 64 d) d phdrs eq_refl ltac:(pages)) with (s := s1) as (ok & s2 & El & Hframe & Hok); [eapply Forall_impl; [|exact Hseg]; by intros p [? _]|done|done|].
  pose proof (fun x => segments_keep (wrapu 64 d) phdrs s1 ok s2 x El) as Hkeep2. pose proof (segments_wf (wrapu 64 d) phdrs s1 ok s2 El Hs1) as Hs2. rewrite El. cbn [mbind outcome_bind fst snd]. assert (forall x, taken s x = true -> bytes_ s2 x = bytes_ s x /\ taken s2 x = true) as Hkeep.
  { intros x Hx. assert (x < start \/ start + (up hi - down lo) <= x) as Hx2 by (destruct (decide (start <= x < start + (up hi - down lo))) as [Hc|]; [apply Hfree in Hc; congruence|lia]).
    destruct (Hframe x (Hout x Hx2)) as [-> ->]. rewrite Hb1, Ht1, Hx. by rewrite orb_true_r. }
  destruct ok; [|by exists None, s2].
  destruct (phdr_found (wrapu 64 d) d phdrs (bytes_ s2) eq_refl) as (r & -> & Hfound); try done; [unfold user_end in Hend; pages|by apply (phoff_range e)|by apply (phdr_positive lo hi d start)|].
  cbn [mbind outcome_bind]. eexists _, s2. split; [done|]. split; [done|]. split; [done|]. intros at_ phdr Hat. destruct r as [a|]; [|done]. injection Hat as <- <-. unfold image_of. cbn [load_start load_size load_bias].
  assert (forall p, p ∈ loads phdrs -> wrapu 64 (p_vaddr p + wrapu 64 d) = p_vaddr p + d) as Ha.
  { intros p Hp. apply shifted; [done|exact (Forall_at _ _ p Hpl Hp)|]. destruct (Forall_at _ _ p Hseg Hp) as (((_ & _ & _ & Hm & _) & _) & _). apply Hm. }
  split_and!; [exact Hal|exact Hend| | |].
  - intros x Hx. split; [by apply Hfree|]. apply Hkeep2. rewrite Ht1. unfold within. by rewrite bool_decide_eq_true_2.
  - apply list.Forall_forall. intros p Hp. cbv zeta. rewrite Ha by done. destruct (Forall_at _ _ p Hin Hp). split_and!; [pages|pages|]. exact (Forall_at _ _ p Hok Hp).
  - destruct (Hfound a eq_refl) as (p & Hp & Hc). exists p. split; [done|]. cbv zeta. by rewrite Ha.
Qed.
(** C25. A library is loaded where nothing else is.  The kernel's answers decide whether loading succeeds;
    either way no mapping that existed is changed.  When it succeeds, the library starts at a multiple
    of the alignment in addresses that were free, every segment's part of the file is at its address,
    the memory behind it that the format promises is zero, and the program headers are inside. *)
Theorem library_loaded (e : ElfReader) (s : space) : well_read file file_offset target_sdk e -> wf_program (phdr_table_ e) -> wf_space s ->
  exists r s', Load file file_offset place fixed_fails e (mkParams 0 0 false) s = Ret (r, mkParams 0 0 false, s') /\ wf_space s' /\ (forall x, taken s x = true -> bytes_ s' x = bytes_ s x /\ taken s' x = true) /\
    forall at_ phdr, r = Some (at_, phdr) -> image_of (phdr_table_ e) s s' at_ phdr.
Proof. exact (load_safe e s). Qed.
End Library.

(** ** An example *)
(** A file of 568 bytes: one segment with everything, and a writable one with the dynamic section and 5000 bytes of memory. *)
Fixpoint num (n : nat) (v : Z) : list Z := match n with O => [] | S n => v mod 256 :: num n (v / 256) end.
Definition phdr_bytes (p : Phdr) : list Z := num 4 (p_type p) ++ num 4 (p_flags p) ++ num 8 (p_offset p) ++ num 8 (p_vaddr p) ++ num 8 (p_vaddr p) ++ num 8 (p_filesz p) ++ num 8 (p_memsz p) ++ num 8 4096.
Definition shdr_bytes (h : Shdr) : list Z := num 4 0 ++ num 4 (sh_type h) ++ num 16 0 ++ num 8 (sh_offset h) ++ num 8 (sh_size h) ++ num 4 (sh_link h) ++ num 20 0.
Definition small_phdrs : list Phdr := [mkPhdr PT_LOAD (PF_R + PF_X) 0 0 568 568; mkPhdr PT_LOAD (PF_R + PF_W) 232 4328 96 5000; mkPhdr PT_DYNAMIC (PF_R + PF_W) 232 4328 96 96].
(** A table of hashes, the strings, the symbols and the name of the library. *)
Definition dyn_bytes (d : Dyn) : list Z := num 8 (d_tag d) ++ num 8 (d_val d).
Definition small_dynamic : list Dyn := [mkDyn 4 336; mkDyn 5 328; mkDyn 10 8; mkDyn 6 352; mkDyn 14 1; mkDyn 0 0].
Definition small_file : list Z :=
  [127; 69; 76; 70; 2; 1; 1] ++ num 9 0 ++ num 2 ET_DYN ++ num 2 EM_X86_64 ++ num 4 1 ++ num 8 0 ++ num 8 64 ++ num 8 376 ++ num 4 0 ++ num 2 64 ++ num 2 56 ++ num 2 3 ++ num 2 64 ++ num 2 3 ++ num 2 2 ++
  (small_phdrs ≫= phdr_bytes) ++ (small_dynamic ≫= dyn_bytes) ++ [0; 108; 105; 98; 97; 46; 115; 0] ++ (num 4 1 ++ num 4 1 ++ num 8 0) ++ num 24 0 ++
  ([mkShdr 0 0 0 0; mkShdr SHT_DYNAMIC 232 96 2; mkShdr SHT_STRTAB 328 8 0] ≫= shdr_bytes).
Lemma small_bytes : Forall (fun b => 0 <= b < 256) small_file.
Proof. apply (bool_decide_unpack _). vm_compute. exact I. Qed.
Definition small_reader : ElfReader := mkElfReader (parse_Ehdr (take 64 small_file)) small_phdrs small_dynamic [0; 108; 105; 98; 97; 46; 115; 0].
Lemma small_read : Read small_file 0 28 false (fun _ _ => false) = Ret (Some small_reader).
Proof. vm_compute. reflexivity. Qed.
Lemma small_well_read : well_read small_file 0 28 small_reader.
Proof. destruct (read_safe small_file 0 28 false (fun _ _ => false) small_bytes) as (r & Er & Hr); [vm_compute; reflexivity|lia|]. apply Hr. rewrite small_read in Er. by injection Er. Qed.
Lemma file_read_witness : Read small_file 0 28 false (fun _ _ => false) = Ret (Some small_reader) /\ well_read small_file 0 28 small_reader.
Proof.
  pose proof small_read as E. split; [exact E|].
  destruct (file_read small_file 0 28 false (fun _ _ => false) small_bytes) as (r & Er & Hr); [vm_compute; reflexivity|lia|]. apply Hr. rewrite E in Er. by injection Er.
Defined.
(** A kernel that uses one place, off the alignment. *)
Fixpoint is_free (n : nat) (a : Z) (t : Z -> bool) : bool := match n with O => true | S n => negb (t a) && is_free n (a + 4096) t end.
Lemma is_free_spec n : forall a t x, by_pages t -> a mod 4096 = 0 -> is_free n a t = true -> a <= x < a + 4096 * Z.of_nat n -> t x = false.
Proof.
  induction n as [|n IH]; intros a t x Hp Ha; cbn [is_free]; [lia|]. intros [Hn%negb_true_iff Hf]%andb_true_iff Hx. destruct (decide (x < a + 4096)) as [H|H].
  - rewrite (Hp x). by replace (down x) with a by pages.
  - apply (IH (a + 4096)); [done|pages|done|lia].
Qed.
Definition one_place (t : Z -> bool) (n : Z) : option Z :=
  if decide (0 < n < 2 ^ 40 /\ is_free (Z.to_nat ((n + 4095) / 4096)) (2 ^ 40 + 12288) t = true) then Some (2 ^ 40 + 12288) else None.
Lemma one_place_ok : kernel_places one_place.
Proof.
  intros t n a Hp. unfold one_place. destruct (decide _) as [[Hn Hf]|]; [|done]. intros [= <-]. split_and!; [done|lia|unfold user_end; lia|]. intros x Hx. apply (is_free_spec (Z.to_nat ((n + 4095) / 4096)) (2 ^ 40 + 12288) t x Hp eq_refl Hf).
  rewrite Z2Nat.id by (apply Z.div_pos; lia). pages.
Qed.
Lemma small_program : wf_program small_file 0 small_phdrs.
Proof.
  assert (loads small_phdrs = take 2 small_phdrs) as E by reflexivity. unfold wf_program. rewrite E. change (take 2 small_phdrs) with [mkPhdr PT_LOAD (PF_R + PF_X) 0 0 568 568; mkPhdr PT_LOAD (PF_R + PF_W) 232 4328 96 5000].
  split_and!.
  - repeat (apply Forall_cons_2; [unfold wf_segment, wf_Phdr, is_u64, sizeof_Ehdr; cbn [p_offset p_vaddr p_filesz p_memsz p_flags]; change (Z.of_nat (length small_file)) with 568; repeat split; (lia || done)|]). constructor.
  - constructor; [|repeat constructor]. apply Forall_cons_2; [|constructor]. left. vm_compute. discriminate.
  - repeat (apply Forall_cons_2; [discriminate|]). constructor.
Qed.
Definition empty_space : space := mkSpace (fun _ => None) (fun _ => false).
Definition byte_of (s : space) (l : list Z) : list (option Z) := (fun x => bytes_ s x) <$> l.
Lemma small_checked r s' : Load small_file 0 one_place (fun _ _ => false) small_reader (mkParams 0 0 false) empty_space = Ret (r, mkParams 0 0 false, s') ->
  exists at_ phdr, r = Some (at_, phdr) /\ load_start at_ = 2 ^ 40 + 262144 /\ load_bias at_ = 2 ^ 40 + 262144 /\ phdr = wrapu 64 (load_bias at_ + 64).
Proof.
  intros E. assert (match Load small_file 0 one_place (fun _ _ => false) small_reader (mkParams 0 0 false) empty_space with | Ret (Some (at_, phdr), _, _) => bool_decide (load_start at_ = 2 ^ 40 + 262144 /\ load_bias at_ = 2 ^ 40 + 262144 /\ phdr = wrapu 64 (load_bias at_ + 64)) | _ => false end = true) as Hc by (vm_compute; reflexivity). rewrite E in Hc. clear E. destruct r as [[at_ phdr]|]; [|discriminate Hc]. apply bool_decide_eq_true in Hc. exists at_, phdr. split; [reflexivity|exact Hc].
Qed.
Lemma small_facts : 0 < Z.of_nat (length small_file) < 2 ^ 62 /\ (0 <= 0 /\ 0 mod 4096 = 0).
Proof. vm_compute. done. Qed.
Lemma small_loaded : exists at_ phdr s', load_bias at_ = 2 ^ 40 + 262144 /\ phdr = wrapu 64 (load_bias at_ + 64) /\ image_of small_file 0 (phdr_table_ small_reader) empty_space s' at_ phdr.
Proof.
  destruct (load_safe small_file 0 28 one_place (fun _ _ => false) (proj1 small_facts) (proj2 small_facts) one_place_ok small_reader empty_space) as (r & s' & E & _ & _ & Hr); [exact small_well_read|exact small_program|split; intros x; reflexivity|].
  destruct (small_checked r s' E) as (at_ & phdr & -> & _ & Hb & Hp). clear E. exists at_, phdr, s'. split; [exact Hb|]. split; [exact Hp|]. exact (Hr at_ phdr eq_refl).
Qed.
Lemma library_loaded_witness : exists at_ phdr s', Load small_file 0 one_place (fun _ _ => false) small_reader (mkParams 0 0 false) empty_space = Ret (Some (at_, phdr), mkParams 0 0 false, s') /\
  load_start at_ = 2 ^ 40 + 262144 /\ image_of small_file 0 small_phdrs empty_space s' at_ phdr.
Proof.
  destruct (library_loaded small_file 0 28 one_place (fun _ _ => false) (proj1 small_facts) (proj2 small_facts) one_place_ok small_reader empty_space) as (r & s' & E & _ & _ & Hr);
    [exact small_well_read|exact small_program|split; intros x; reflexivity|].
  destruct (small_checked r s' E) as (at_ & phdr & -> & Hs & _). exists at_, phdr, s'. split; [exact E|]. split; [exact Hs|]. exact (Hr at_ phdr eq_refl).
Defined.

(** ** Files that the checks let through *)
(** The reservation counts the memory of a segment, the mapping its part of the file, and nothing compares them:
    a segment with more file than memory is mapped over what lies behind the reservation. *)
Definition long_segment : Phdr := mkPhdr PT_LOAD (PF_R + PF_X) 0 0 5000 16.
Definition neighbour : space := mkSpace (fun x => if within (2 ^ 20 + 4096) (2 ^ 20 + 8192) x then Some 1 else None) (within (2 ^ 20) (2 ^ 20 + 8192)).
Theorem long_segment_overruns : phdr_table_get_load_size [long_segment] = (0, 4096, 4096) /\ exists s', LoadSegments (repeat 7 5000) 0 (fun _ _ => false) (2 ^ 20) [long_segment] neighbour = Ret (true, s') /\
  bytes_ neighbour (2 ^ 20 + 4096) = Some 1 /\ bytes_ s' (2 ^ 20 + 4096) = Some 7.
Proof. split; [reflexivity|]. eexists. split; [reflexivity|]. split; vm_compute; reflexivity. Qed.
(** The end of the program headers is computed modulo 2^64, so an address just below it passes the check. *)
Theorem phdr_check_wraps : CheckPhdr (2 ^ 20) [mkPhdr PT_LOAD (PF_R + PF_X) 0 0 4096 4096] (2 ^ 64 - 8) = Some (2 ^ 64 - 8) /\ ~ (2 ^ 64 - 8 < 2 ^ 20 + 4096).
Proof. split; [reflexivity|lia]. Qed.
(** The end of a segment is compared with the size of the whole file, without the offset of the library in it:
    behind that offset a segment may reach past the end, and its last pages fault. *)
Theorem archived_segment_unchecked : exists s', load_segment (repeat 7 8192) 4096 (fun _ _ => false) (2 ^ 20) (mkPhdr PT_LOAD (PF_R + PF_X) 0 0 8192 8192) empty_space = Ret (true, s') /\
  bytes_ s' (2 ^ 20) = Some 7 /\ bytes_ s' (2 ^ 20 + 4096) = None.
Proof. eexists. split; [reflexivity|]. split; vm_compute; reflexivity. Qed.
End LinkerImage.
