(* ===== verification/LinkerSymbols.v ===== *)
(** * Symbol lookup of the linker (mcpelauncher-linker/bionic/linker)

    [linker_soinfo.cpp], [linker_soinfo.h], [linker_gnu_hash.h], [linker_relocate.h] and the
    versions of [linker.cpp]: the hashes of names, the tables of a loaded library, the search in one
    library and in a list of libraries, and the libraries the launcher makes from a map of symbols.
    The tables of a library are lists; a read outside of them is undefined.  The build is the one
    for 64 bits. *)

From S2P Require Import Prelude CxxString LinkerUtils.
From Stdlib Require Import ZArith Ascii Lia.
From stdpp Require Import base list strings numbers gmap.

Open Scope Z_scope.

Module LinkerSymbols.

(** ** Hashes of names *)
(** [calculate_gnu_hash_simple]: the hash and the length of the name. *)
Definition gnu_hash_step (h : Z) (c : ascii) : Z := wrapu 32 (h + (Z.shiftl h 5 + uchar c)).
Definition calculate_gnu_hash (name : bytes) : Z * Z := (foldl gnu_hash_step 5381 name, Z.of_nat (length name)).
Definition elf_hash_step (h : Z) (c : ascii) : Z :=
  let h := wrapu 32 (wrapu 32 (Z.shiftl h 4) + uchar c) in
  let g := Z.land h 0xf0000000 in
  let h := Z.lxor h g in
  Z.lxor h (Z.shiftr g 24).
Definition calculate_elf_hash (name : bytes) : Z := foldl elf_hash_step 0 name.

(** ** Libraries *)
Record Sym := mkSym { st_name : Z; st_info : Z; st_shndx : Z; st_value : Z; st_size : Z }.
Definition ELF_ST_BIND (info : Z) : Z := Z.shiftr info 4.
Definition ELF_ST_TYPE (info : Z) : Z := Z.land info 15.
Definition STB_GLOBAL : Z := 1.
Definition STB_WEAK : Z := 2.
Definition SHN_UNDEF : Z := 0.
Definition STT_TLS : Z := 6.

(** The table of [DT_GNU_HASH]; the chain starts at the symbol [symndx]. *)
Record gnu_table := mkGnu { gnu_nbucket : Z; symndx : Z; gnu_maskwords : Z; gnu_shift2 : Z; gnu_bloom_filter : list Z; gnu_bucket : list Z; gnu_chain : list Z }.
(** The table of [DT_HASH]. *)
Record sysv_table := mkSysv { nbucket : Z; bucket : list Z; chain : list Z }.
(** The entries of [DT_VERDEF], in the order of their links, with the name of the first auxiliary entry. *)
Record Verdef := mkVerdef { vd_version : Z; vd_flags : Z; vd_ndx : Z; vd_cnt : Z; vd_hash : Z; vda_name : Z }.
Record version_info := mkVersion { vi_elf_hash : Z; vi_name : bytes }.
(** [gnu] is set with the flag [FLAG_GNU_HASH], [sysv] with [bucket_]; [symbols] are the overrides of the launcher. *)
Record soinfo := mkSoinfo { symbols : gmap bytes Sym; gnu : option gnu_table; sysv : option sysv_table; symtab : list Sym; strtab : bytes;
  versym : option (list Z); verdefs : list Verdef; load_bias : Z }.

(** An element of a table. *)
Definition elem {A} (l : list A) (i : Z) : outcome exn A :=
  if decide (i < 0) then Undef else match l !! Z.to_nat i with Some x => Ret x | None => Undef end.
Definition chain_at (t : gnu_table) (n : Z) : outcome exn Z := elem (gnu_chain t) (n - symndx t).

(** [get_string], and the comparison of the string behind it with a name. *)
Fixpoint strcmp_eq (s name : bytes) : outcome exn bool :=
  match s, name with
  | [], _ => Undef
  | c :: _, [] => Ret (bool_decide (c = NUL))
  | c :: s, d :: name => if decide (c = d) then strcmp_eq s name else Ret false
  end.
Definition get_string (si : soinfo) (index : Z) : outcome exn bytes :=
  if decide (Z.of_nat (length (strtab si)) <= index) then Throw (runtime_error "strtab out of bounds error") else Ret (drop (Z.to_nat index) (strtab si)).
Definition name_is (si : soinfo) (index : Z) (name : bytes) : outcome exn bool := s ← get_string si index; strcmp_eq s name.

Definition is_symbol_global_and_defined (s : Sym) : bool :=
  if decide (ELF_ST_BIND (st_info s) = STB_GLOBAL \/ ELF_ST_BIND (st_info s) = STB_WEAK) then bool_decide (st_shndx s <> SHN_UNDEF) else false.

(** ** Versions *)
Definition kVersymNotNeeded : Z := 0.
Definition kVersymGlobal : Z := 1.
Definition kVersymHiddenBit : Z := 0x8000.
Definition VER_FLG_BASE : Z := 1.
(** [for_each_verdef]: the functor returns true to stop; [None] is the return of false. *)
Fixpoint for_each_verdef {A} (functor : A -> Verdef -> outcome exn (bool * A)) (a : A) (vs : list Verdef) : outcome exn (option A) :=
  match vs with
  | [] => Ret (Some a)
  | v :: vs =>
      if decide (vd_version v <> 1) then Ret None
      else if decide (Z.land (vd_flags v) VER_FLG_BASE <> 0) then for_each_verdef functor a vs
      else if decide (vd_cnt v = 0) then Ret None
      else r ← functor a v; if (fst r : bool) then Ret (Some (snd r)) else for_each_verdef functor (snd r) vs
  end.
Definition find_verdef_version_index (si : soinfo) (vi : option version_info) : outcome exn Z :=
  match vi with
  | None => Ret kVersymNotNeeded
  | Some vi =>
      r ← for_each_verdef (fun result v =>
            if decide (vd_hash v = vi_elf_hash vi) then
              same ← name_is si (vda_name v) (vi_name vi); Ret (if (same : bool) then (true, vd_ndx v) else (false, result))
            else Ret (false, result)) kVersymGlobal (verdefs si);
      match r with Some result => Ret result | None => Throw (runtime_error "invalid verdef after prelinking") end
  end.
Definition validate_verdef_section (si : soinfo) : outcome exn bool :=
  r ← for_each_verdef (fun a _ => Ret (false, a)) tt (verdefs si); Ret (match r with Some _ => true | None => false end).
Definition check_symbol_version (ver_table : option (list Z)) (sym_idx verneed : Z) : outcome exn bool :=
  match ver_table with
  | None => Ret true
  | Some t =>
      verdef ← elem t sym_idx;
      Ret (if decide (verneed = kVersymNotNeeded) then bool_decide (Z.land verdef kVersymHiddenBit = 0)
           else bool_decide (verneed = Z.land verdef (Z.lnot kVersymHiddenBit)))
  end.
(** [a && b]: the second is not evaluated when the first is false. *)
Definition and_also (a b : outcome exn bool) : outcome exn bool := x ← a; if (x : bool) then b else Ret false.

(** ** The search in one library *)
Definition kBloomMaskBits : Z := 64.
Definition bloom_test (t : gnu_table) (hash : Z) : outcome exn bool :=
  let word_num := Z.land (hash / kBloomMaskBits) (gnu_maskwords t) in
  bloom_word ← elem (gnu_bloom_filter t) word_num;
  if decide (32 <= gnu_shift2 t) then Undef else
  let h1 := hash mod kBloomMaskBits in
  let h2 := (Z.shiftr hash (gnu_shift2 t)) mod kBloomMaskBits in
  Ret (bool_decide (Z.land (Z.land 1 (Z.shiftr bloom_word h1)) (Z.shiftr bloom_word h2) = 1)).

Fixpoint gnu_lookup_loop (fuel : nat) (si : soinfo) (t : gnu_table) (name : bytes) (hash verneed n : Z) : outcome exn (option Sym) :=
  match fuel with
  | O => Diverge
  | S fuel =>
      s ← elem (symtab si) n;
      c ← chain_at t n;
      hit ← and_also (Ret (bool_decide (Z.shiftr (Z.lxor c hash) 1 = 0))) (and_also (check_symbol_version (versym si) n verneed)
             (and_also (name_is si (st_name s) name) (Ret (is_symbol_global_and_defined s))));
      if (hit : bool) then Ret (Some s)
      else if decide (Z.land c 1 = 0) then gnu_lookup_loop fuel si t name hash verneed (n + 1) else Ret None
  end.
Definition gnu_lookup (si : soinfo) (t : gnu_table) (name : bytes) (vi : option version_info) : outcome exn (option Sym) :=
  let hash := fst (calculate_gnu_hash name) in
  b ← bloom_test t hash;
  if negb b then Ret None
  else
    n ← (if decide (gnu_nbucket t = 0) then Undef else elem (gnu_bucket t) (hash mod gnu_nbucket t));
    if decide (n = 0) then Ret None
    else verneed ← find_verdef_version_index si vi; gnu_lookup_loop (S (length (symtab si))) si t name hash verneed n.

Fixpoint elf_lookup_loop (fuel : nat) (si : soinfo) (t : sysv_table) (name : bytes) (verneed n : Z) : outcome exn (option Sym) :=
  match fuel with
  | O => Diverge
  | S fuel =>
      if decide (n = 0) then Ret None
      else
        s ← elem (symtab si) n;
        hit ← and_also (check_symbol_version (versym si) n verneed) (and_also (name_is si (st_name s) name) (Ret (is_symbol_global_and_defined s)));
        if (hit : bool) then Ret (Some s) else next ← elem (chain t) n; elf_lookup_loop fuel si t name verneed next
  end.
Definition elf_lookup (si : soinfo) (t : sysv_table) (name : bytes) (vi : option version_info) : outcome exn (option Sym) :=
  let hash := calculate_elf_hash name in
  verneed ← find_verdef_version_index si vi;
  n ← (if decide (nbucket t = 0) then Undef else elem (bucket t) (hash mod nbucket t));
  elf_lookup_loop (S (length (symtab si))) si t name verneed n.

Definition find_symbol_by_name (si : soinfo) (name : bytes) (vi : option version_info) : outcome exn (option Sym) :=
  match symbols si !! name with
  | Some sym => Ret (Some sym)
  | None =>
      match sysv si with
      | Some t => match gnu si with Some g => gnu_lookup si g name vi | None => elf_lookup si t name vi end
      | None => Ret None
      end
  end.

(** ** The search by address *)
Definition symbol_matches_soaddr (sym : Sym) (soaddr : Z) : bool :=
  bool_decide (st_shndx sym <> SHN_UNDEF /\ ELF_ST_TYPE (st_info sym) <> STT_TLS /\ st_value sym <= soaddr /\ soaddr < wrapu 64 (st_value sym + st_size sym)).
Fixpoint gnu_addr_chain (fuel : nat) (si : soinfo) (t : gnu_table) (soaddr n : Z) : outcome exn (option Sym) :=
  match fuel with
  | O => Diverge
  | S fuel =>
      sym ← elem (symtab si) n;
      if symbol_matches_soaddr sym soaddr then Ret (Some sym)
      else c ← chain_at t n; if decide (Z.land c 1 = 0) then gnu_addr_chain fuel si t soaddr (n + 1) else Ret None
  end.
Fixpoint gnu_addr_buckets (si : soinfo) (t : gnu_table) (soaddr : Z) (ix : list Z) : outcome exn (option Sym) :=
  match ix with
  | [] => Ret None
  | i :: ix =>
      n ← elem (gnu_bucket t) i;
      if decide (n = 0) then gnu_addr_buckets si t soaddr ix
      else r ← gnu_addr_chain (S (length (symtab si))) si t soaddr n;
           match r with Some sym => Ret (Some sym) | None => gnu_addr_buckets si t soaddr ix end
  end.
Definition gnu_addr_lookup (si : soinfo) (t : gnu_table) (addr : Z) : outcome exn (option Sym) :=
  gnu_addr_buckets si t (wrapu 64 (addr - load_bias si)) (seqZ 0 (gnu_nbucket t)).
Fixpoint elf_addr_loop (si : soinfo) (soaddr : Z) (ix : list Z) : outcome exn (option Sym) :=
  match ix with
  | [] => Ret None
  | i :: ix => sym ← elem (symtab si) i; if symbol_matches_soaddr sym soaddr then Ret (Some sym) else elf_addr_loop si soaddr ix
  end.
(** [nchain_] is the number of the entries of the chain. *)
Definition elf_addr_lookup (si : soinfo) (addr : Z) : outcome exn (option Sym) :=
  elf_addr_loop si (wrapu 64 (addr - load_bias si)) (seqZ 0 (match sysv si with Some t => Z.of_nat (length (chain t)) | None => 0 end)).
Definition find_symbol_by_address (si : soinfo) (addr : Z) : outcome exn (option Sym) :=
  match gnu si with Some t => gnu_addr_lookup si t addr | None => elf_addr_lookup si addr end.

(** ** Lists of libraries *)
(** A copy of what the search needs; the table is null for a library without it, the library for the empty first place. *)
Record SymbolLookupLib := mkLib { ll_gnu : option gnu_table; ll_strtab : bytes; ll_symtab : list Sym; ll_versym : option (list Z); ll_si : option soinfo }.
Definition empty_lib : SymbolLookupLib := mkLib None [] [] None None.
Definition get_lookup_lib (si : soinfo) : SymbolLookupLib :=
  match gnu si with
  | None => mkLib None [] [] None (Some si)
  | Some t => mkLib (Some t) (strtab si) (symtab si) (versym si) (Some si)
  end.
Definition needs_sysv_lookup (l : SymbolLookupLib) : bool :=
  match ll_si l, ll_gnu l with Some _, None => true | _, _ => false end.
Definition count (b : bool) : Z := if b then 1 else 0.
Record SymbolLookupList := mkList { libs : list SymbolLookupLib; begin_ : nat; slow_path_count : Z }.
Section Lists.
(** [is_lookup_tracing_enabled] *)
Context (tracing : bool).
(** The constructor for one library. *)
Definition sole_list (si : soinfo) : SymbolLookupList :=
  mkList [get_lookup_lib si] 0 (count tracing + count (needs_sysv_lookup (get_lookup_lib si))).
Definition add_group (l : list SymbolLookupLib * Z) (si : soinfo) : list SymbolLookupLib * Z :=
  (fst l ++ [get_lookup_lib si], snd l + count (needs_sysv_lookup (get_lookup_lib si))).
Definition group_list (global_group local_group : list soinfo) : SymbolLookupList :=
  let r := foldl add_group (foldl add_group ([empty_lib], count tracing) global_group) local_group in
  mkList (fst r) 1 (snd r).
End Lists.
Definition set_dt_symbolic_lib (lib : option soinfo) (l : SymbolLookupList) : outcome exn SymbolLookupList :=
  match libs l with
  | [] => Throw (runtime_error "CHECK failed: !libs_.empty()")
  | first :: rest =>
      let now := match lib with Some si => get_lookup_lib si | None => empty_lib end in
      Ret (mkList (now :: rest) (match lib with Some _ => 0 | None => 1 end)%nat
             (slow_path_count l - count (needs_sysv_lookup first) + count (needs_sysv_lookup now)))
  end.
Definition needs_slow_path (l : SymbolLookupList) : bool := bool_decide (0 < slow_path_count l).

(** ** [soinfo_do_lookup_impl] *)
(** The walk of one chain; the version is looked up at the first hash that fits, once. *)
Fixpoint chain_loop (fuel : nat) (lib : SymbolLookupLib) (si : soinfo) (t : gnu_table) (name : bytes) (vi : option version_info) (hash name_len : Z)
    (verneed : Z) (calculated : bool) (sym_idx : Z) : outcome exn (option Sym) :=
  match fuel with
  | O => Diverge
  | S fuel =>
      sym ← elem (ll_symtab lib) sym_idx;
      chain_value ← chain_at t sym_idx;
      r ← (if decide (Z.shiftr chain_value 1 = Z.shiftr hash 1) then
             v ← (match vi with
                  | Some _ => if calculated then Ret (verneed, true) else n ← find_verdef_version_index si vi; Ret (n, true)
                  | None => Ret (verneed, calculated)
                  end);
             hit ← and_also (check_symbol_version (ll_versym lib) sym_idx (fst v))
                     (and_also (Ret (bool_decide (st_name sym + name_len + 1 <= Z.of_nat (length (ll_strtab lib)))))
                       (Ret (bool_decide (take (S (length name)) (drop (Z.to_nat (st_name sym)) (ll_strtab lib)) = name ++ [NUL]) && is_symbol_global_and_defined sym)));
             Ret (hit, v)
           else Ret (false, (verneed, calculated)));
      if (fst r : bool) then Ret (Some sym)
      else if decide (Z.land chain_value 1 = 0) then chain_loop fuel lib si t name vi hash name_len (fst (snd r)) (snd (snd r)) (sym_idx + 1)
      else Ret None
  end.
(** One library: [None] to go on with the next. *)
Definition lookup_in (general : bool) (name : bytes) (vi : option version_info) (lib : SymbolLookupLib) : outcome exn (option Sym) :=
  let hash := fst (calculate_gnu_hash name) in
  let name_len := snd (calculate_gnu_hash name) in
  if general && needs_sysv_lookup lib then match ll_si lib with Some si => find_symbol_by_name si name vi | None => Undef end
  else
    match ll_si lib with
    | None => Undef
    | Some si =>
        match symbols si !! name with
        | Some sym => Ret (Some sym)
        | None =>
            match ll_gnu lib with
            | None => Undef
            | Some t =>
                b ← bloom_test t hash;
                if negb b then Ret None
                else
                  sym_idx ← (if decide (gnu_nbucket t = 0) then Undef else elem (gnu_bucket t) (hash mod gnu_nbucket t));
                  if decide (sym_idx = 0) then Ret None
                  else chain_loop (S (length (ll_symtab lib))) lib si t name vi hash name_len kVersymNotNeeded false sym_idx
            end
        end
    end.
(** The position of the library in what is searched, and the symbol. *)
Fixpoint soinfo_do_lookup_impl (general : bool) (name : bytes) (vi : option version_info) (k : nat) (ls : list SymbolLookupLib) : outcome exn (option (nat * Sym)) :=
  match ls with
  | [] => Ret None
  | lib :: ls => r ← lookup_in general name vi lib; match r with Some sym => Ret (Some (k, sym)) | None => soinfo_do_lookup_impl general name vi (S k) ls end
  end.
Definition soinfo_do_lookup (name : bytes) (vi : option version_info) (l : SymbolLookupList) : outcome exn (option (nat * Sym)) :=
  soinfo_do_lookup_impl (needs_slow_path l) name vi 0 (drop (begin_ l) (libs l)).

(** ** Libraries of the launcher *)
(** [soinfo::load_library]: a library without tables; symbols with a null address are left out. *)
Definition custom_sym (value : Z) : Sym := mkSym 0 0 0 value 0.
Definition load_library (syms : list (bytes * Z)) : soinfo :=
  mkSoinfo (foldl (fun m s => if decide (snd s = 0) then m else <[fst s := custom_sym (snd s)]> m) ∅ syms) None None [] [] None [] 0.

(** ** The reference: what a library defines *)
Fixpoint cut (s : bytes) : bytes := match s with [] => [] | c :: s => if decide (c = NUL) then [] else c :: cut s end.
Definition text_at (si : soinfo) (index : Z) : bytes := cut (drop (Z.to_nat index) (strtab si)).
Definition in_strtab (si : soinfo) (index : Z) : Prop := 0 <= index /\ NUL ∈ drop (Z.to_nat index) (strtab si).
Definition sym_name (si : soinfo) (s : Sym) : bytes := text_at si (st_name s).
(** The index of the version that a definition must have. *)
Definition is_version (si : soinfo) (vi : version_info) (v : Verdef) : bool :=
  bool_decide (Z.land (vd_flags v) VER_FLG_BASE = 0 /\ vd_hash v = vi_elf_hash vi /\ text_at si (vda_name v) = vi_name vi).
Definition wanted (si : soinfo) (vi : option version_info) : Z :=
  match vi with
  | None => kVersymNotNeeded
  | Some vi => match find (is_version si vi) (verdefs si) with Some v => vd_ndx v | None => kVersymGlobal end
  end.
Definition version_ok (si : soinfo) (verneed : Z) (i : nat) : bool :=
  match versym si with
  | None => true
  | Some t =>
      match t !! i with
      | None => false
      | Some v => if decide (verneed = kVersymNotNeeded) then bool_decide (Z.land v kVersymHiddenBit = 0) else bool_decide (verneed = Z.land v (Z.lnot kVersymHiddenBit))
      end
  end.
Definition defines (si : soinfo) (name : bytes) (verneed : Z) (i : nat) : bool :=
  match symtab si !! i with
  | Some s => version_ok si verneed i && (bool_decide (sym_name si s = name) && is_symbol_global_and_defined s)
  | None => false
  end.
Definition hash_of (si : soinfo) (i : nat) : Z := match symtab si !! i with Some s => fst (calculate_gnu_hash (sym_name si s)) | None => 0 end.
Definition elf_hash_of (si : soinfo) (i : nat) : Z := match symtab si !! i with Some s => calculate_elf_hash (sym_name si s) | None => 0 end.

(** ** Well-formed libraries *)
Record wf_tables (si : soinfo) : Prop := {
  names_inside : forall s, s ∈ symtab si -> in_strtab si (st_name s);
  versions_inside : forall v, v ∈ verdefs si -> in_strtab si (vda_name v) /\ vd_version v = 1 /\ (Z.land (vd_flags v) VER_FLG_BASE = 0 -> vd_cnt v <> 0);
  versym_length : forall t, versym si = Some t -> length t = length (symtab si) }.
(** The symbols from [symndx] on are grouped by bucket; a bucket holds the first of its symbols, the chain the
    hashes, with the lowest bit set at the end of a group; the filter accepts every symbol. *)
Record wf_gnu (si : soinfo) (t : gnu_table) : Prop := {
  some_bucket : 0 < gnu_nbucket t;
  bucket_length : Z.of_nat (length (gnu_bucket t)) = gnu_nbucket t;
  symndx_range : 0 < symndx t <= Z.of_nat (length (symtab si));
  chain_length : Z.of_nat (length (gnu_chain t)) = Z.of_nat (length (symtab si)) - symndx t;
  bloom_length : exists k, 0 <= k /\ gnu_maskwords t = 2 ^ k - 1 /\ Z.of_nat (length (gnu_bloom_filter t)) = 2 ^ k;
  shift_range : 0 <= gnu_shift2 t < 32;
  bloom_accepts : forall i, symndx t <= Z.of_nat i < Z.of_nat (length (symtab si)) -> bloom_test t (hash_of si i) = Ret true;
  chain_hash : forall i c, symndx t <= Z.of_nat i -> gnu_chain t !! Z.to_nat (Z.of_nat i - symndx t) = Some c ->
    Z.shiftr c 1 = Z.shiftr (hash_of si i) 1 /\
    (Z.land c 1 <> 0 <-> (S i = length (symtab si) \/ hash_of si (S i) mod gnu_nbucket t <> hash_of si i mod gnu_nbucket t));
  bucket_first : forall b n, gnu_bucket t !! b = Some n ->
    (n = 0 /\ forall i, symndx t <= Z.of_nat i < Z.of_nat (length (symtab si)) -> hash_of si i mod gnu_nbucket t <> Z.of_nat b) \/
    (symndx t <= n < Z.of_nat (length (symtab si)) /\ hash_of si (Z.to_nat n) mod gnu_nbucket t = Z.of_nat b /\
     forall i, symndx t <= Z.of_nat i < Z.of_nat (length (symtab si)) -> hash_of si i mod gnu_nbucket t = Z.of_nat b -> n <= Z.of_nat i);
  grouped : forall i j k, symndx t <= Z.of_nat i -> (i <= j <= k)%nat -> (k < length (symtab si))%nat ->
    hash_of si i mod gnu_nbucket t = hash_of si k mod gnu_nbucket t -> hash_of si j mod gnu_nbucket t = hash_of si i mod gnu_nbucket t }.
(** The symbols of a chain, to its end. *)
Inductive chained (t : sysv_table) : Z -> list nat -> Prop :=
  | chained_end : chained t 0 []
  | chained_next i next l : (0 < i)%nat -> chain t !! i = Some next -> chained t next l -> chained t (Z.of_nat i) (i :: l).
Record wf_sysv (si : soinfo) (t : sysv_table) : Prop := {
  some_elf_bucket : 0 < nbucket t;
  elf_chains : forall b, 0 <= b < nbucket t -> exists n l, bucket t !! Z.to_nat b = Some n /\ chained t n l /\ NoDup l /\
    Forall (fun i => (i < length (symtab si))%nat) l /\
    (forall i, (0 < i < length (symtab si))%nat -> elf_hash_of si i mod nbucket t = b -> i ∈ l) }.
Inductive wf_library (si : soinfo) : Prop :=
  | wf_with_gnu t : gnu si = Some t -> wf_tables si -> wf_gnu si t -> wf_library si
  | wf_with_sysv t : gnu si = None -> sysv si = Some t -> wf_tables si -> wf_sysv si t -> wf_library si
  | wf_custom : gnu si = None -> sysv si = None -> wf_library si.

(** A symbol that a library has for a name: an override of the launcher, or a definition that its hash table has. *)
Definition hashed (si : soinfo) (i : nat) : Prop :=
  match gnu si with Some t => symndx t <= Z.of_nat i | None => match sysv si with Some _ => (0 < i)%nat | None => False end end.
Definition provides (si : soinfo) (name : bytes) (vi : option version_info) (s : Sym) : Prop :=
  match symbols si !! name with
  | Some s' => s = s'
  | None => exists i, hashed si i /\ symtab si !! i = Some s /\ defines si name (wanted si vi) i = true
  end.
Definition search_result (si : soinfo) (name : bytes) (vi : option version_info) (r : option Sym) : Prop :=
  match r with Some s => provides si name vi s | None => forall s, ~ provides si name vi s end.

(** ** Reads inside the tables *)
Lemma elem_ret {A} (l : list A) i x : l !! i = Some x -> elem l (Z.of_nat i) = Ret x.
Proof. intros H. unfold elem. rewrite decide_False by lia. by rewrite Nat2Z.id, H. Qed.
Lemma strcmp_cut s name : NUL ∈ s -> NUL ∉ name -> strcmp_eq s name = Ret (bool_decide (cut s = name)).
Proof.
  revert name. induction s as [|c s IH]; intros name Hs Hn; [by apply not_elem_of_nil in Hs|].
  destruct name as [|d name]; cbn.
  - destruct (decide (c = NUL)) as [->|]; [done|]. by rewrite !bool_decide_eq_false_2 by (congruence || done).
  - apply not_elem_of_cons in Hn as [Hd Hn]. destruct (decide (c = NUL)) as [->|Hc].
    + by rewrite decide_False by congruence.
    + apply elem_of_cons in Hs as [?|Hs]; [congruence|]. destruct (decide (c = d)) as [->|]; [|by rewrite bool_decide_eq_false_2 by congruence].
      rewrite IH by done. f_equal. apply bool_decide_ext. split; congruence.
Qed.
Lemma cut_spec s name : NUL ∈ s -> NUL ∉ name -> cut s = name <-> take (S (length name)) s = name ++ [NUL].
Proof.
  revert name. induction s as [|c s IH]; intros name Hs Hn; [by apply not_elem_of_nil in Hs|].
  destruct name as [|d name]; cbn.
  - rewrite take_0. destruct (decide (c = NUL)) as [->|]; split; congruence.
  - apply not_elem_of_cons in Hn as [Hd Hn]. destruct (decide (c = NUL)) as [->|Hc]; [split; congruence|].
    apply elem_of_cons in Hs as [?|Hs]; [congruence|]. specialize (IH name Hs Hn). split; intros [= -> E]; f_equal; by apply IH.
Qed.
Lemma name_is_ret si index name : in_strtab si index -> NUL ∉ name -> name_is si index name = Ret (bool_decide (text_at si index = name)).
Proof.
  intros [H0 Hin] Hn. unfold name_is, get_string. rewrite decide_False.
  - cbn. by apply strcmp_cut.
  - intros Hle. rewrite drop_ge in Hin by lia. by apply not_elem_of_nil in Hin.
Qed.
(** The bounded comparison of the fast path. *)
Lemma memcmp_name si index name : in_strtab si index -> NUL ∉ name ->
  (bool_decide (index + Z.of_nat (length name) + 1 <= Z.of_nat (length (strtab si))) &&
   bool_decide (take (S (length name)) (drop (Z.to_nat index) (strtab si)) = name ++ [NUL])) = bool_decide (text_at si index = name).
Proof.
  intros [H0 Hin] Hn. unfold text_at. rewrite <- bool_decide_and. apply bool_decide_ext. rewrite (cut_spec _ name Hin Hn). split; [tauto|].
  intros E. split; [|done]. apply (f_equal length) in E. rewrite length_take, length_drop, length_app in E. cbn [length] in E. lia.
Qed.
Lemma version_checked si verneed i : wf_tables si -> (i < length (symtab si))%nat -> check_symbol_version (versym si) (Z.of_nat i) verneed = Ret (version_ok si verneed i).
Proof.
  intros Hw Hi. unfold check_symbol_version, version_ok. destruct (versym si) as [t|] eqn:E; [|done].
  pose proof (versym_length _ Hw _ E). destruct (lookup_lt_is_Some_2 t i ltac:(lia)) as [v Hv]. rewrite (elem_ret _ _ _ Hv), Hv. done.
Qed.
Lemma wanted_found si vi : wf_tables si -> (forall v, vi = Some v -> NUL ∉ vi_name v) -> find_verdef_version_index si vi = Ret (wanted si vi).
Proof.
  intros Hw Hvi. unfold find_verdef_version_index, wanted. destruct vi as [vi|]; [|done]. specialize (Hvi _ eq_refl).
  pose proof (versions_inside _ Hw) as Hin. induction (verdefs si) as [|v vs IH]; [done|].
  destruct (Hin v) as (Hstr & Hver & Hcnt); [by left|]. specialize (IH (fun v H => Hin v (list_elem_of_further _ _ _ H))).
  cbn [for_each_verdef find]. rewrite decide_False by lia. unfold is_version at 1.
  destruct (decide (Z.land (vd_flags v) VER_FLG_BASE <> 0)) as [Hb|Hb]; [by rewrite bool_decide_eq_false_2 by tauto|].
  rewrite decide_False by tauto. destruct (decide (vd_hash v = vi_elf_hash vi)) as [Hh|Hh]; [|by rewrite bool_decide_eq_false_2 by tauto].
  rewrite name_is_ret by done. cbn [mbind outcome_bind]. destruct (decide (text_at si (vda_name v) = vi_name vi)) as [He|He].
  - rewrite !bool_decide_eq_true_2 by (done || split_and!; tauto || lia). done.
  - rewrite !bool_decide_eq_false_2 by tauto. cbn. exact IH.
Qed.

(** ** The walk of a chain is a search of the symbol table *)
Lemma gnu_hash_range l : forall x, 0 <= x < 2 ^ 32 -> 0 <= foldl gnu_hash_step x l < 2 ^ 32.
Proof. induction l as [|c l IH]; intros x Hx; [done|]. apply IH, wrapu_range. lia. Qed.
Section GnuWalk.
Context (si : soinfo) (t : gnu_table) (name : bytes) (vi : option version_info).
Context (Hgnu : gnu si = Some t) (Hw : wf_tables si) (Hg : wf_gnu si t) (Hn : NUL ∉ name) (Hvi : forall v, vi = Some v -> NUL ∉ vi_name v).
Notation N := (length (symtab si)).
Notation h := (fst (calculate_gnu_hash name)).
Notation v := (wanted si vi).
Notation nb := (gnu_nbucket t).
Definition found_from (n : nat) : option Sym := find (defines si name v) (seq n (N - n)) ≫= (fun i => symtab si !! i).

Lemma defines_name i : defines si name v i = true -> (i < N)%nat /\ hash_of si i = h.
Proof.
  unfold defines, hash_of. destruct (symtab si !! i) as [s|] eqn:E; [|done]. intros (_ & (Hname & _)%andb_true_iff)%andb_true_iff.
  apply bool_decide_eq_true in Hname. rewrite Hname. split; [by eapply lookup_lt_Some|done].
Qed.
Lemma found_step n : (n < N)%nat -> found_from n = if defines si name v n then symtab si !! n else found_from (S n).
Proof. intros Hl. unfold found_from. replace (N - n)%nat with (S (N - S n)) by lia. cbn [seq find]. by destruct (defines si name v n). Qed.
Lemma found_none n : (forall j, (n <= j < N)%nat -> defines si name v j = false) -> found_from n = None.
Proof.
  intros H. unfold found_from. destruct (find _ _) as [i|] eqn:E; [|done]. apply find_some in E as [Hi Hd].
  apply in_seq in Hi. rewrite H in Hd by lia. done.
Qed.
Lemma found_skip n m : (n <= m <= N)%nat -> (forall j, (n <= j < m)%nat -> defines si name v j = false) -> found_from n = found_from m.
Proof.
  intros [Hle Hm]. induction Hle as [|m Hle IH]; intros H; [done|]. rewrite IH by (lia || (intros; apply H; lia)).
  rewrite found_step by lia. by rewrite H by lia.
Qed.
Lemma group_end n : symndx t <= Z.of_nat n -> (n < N)%nat -> hash_of si n mod nb = h mod nb ->
  S n = N \/ hash_of si (S n) mod nb <> hash_of si n mod nb -> found_from (S n) = None.
Proof.
  intros Hs Hl Hb He. apply found_none. intros j Hj. apply not_true_iff_false. intros (_ & Hh)%defines_name.
  destruct He as [He|He]; [lia|]. apply He. apply (grouped si t Hg n (S n) j); [done|lia|lia|]. by rewrite Hh.
Qed.
(** What the walk sees at one symbol. *)
Lemma walk_reads n : symndx t <= Z.of_nat n -> (n < N)%nat -> exists s c, elem (symtab si) (Z.of_nat n) = Ret s /\ symtab si !! n = Some s /\
  chain_at t (Z.of_nat n) = Ret c /\ in_strtab si (st_name s) /\ Z.shiftr c 1 = Z.shiftr (hash_of si n) 1 /\
  (Z.land c 1 <> 0 <-> S n = N \/ hash_of si (S n) mod nb <> hash_of si n mod nb).
Proof.
  intros Hs Hl. destruct (lookup_lt_is_Some_2 _ _ Hl) as [s Hsym]. pose proof (chain_length _ _ Hg).
  destruct (lookup_lt_is_Some_2 (gnu_chain t) (Z.to_nat (Z.of_nat n - symndx t)) ltac:(lia)) as [c Hc].
  exists s, c. destruct (chain_hash _ _ Hg n c Hs Hc). split_and!; auto using elem_ret; try tauto.
  - unfold chain_at. rewrite <- (Z2Nat.id (Z.of_nat n - symndx t)) by lia. by apply elem_ret.
  - apply (names_inside _ Hw). by eapply list_elem_of_lookup_2.
Qed.
Lemma lookup_lib_fields : ll_symtab (get_lookup_lib si) = symtab si /\ ll_strtab (get_lookup_lib si) = strtab si /\ ll_versym (get_lookup_lib si) = versym si.
Proof. unfold get_lookup_lib. by rewrite Hgnu. Qed.
Lemma chain_loop_search fuel : forall n verneed calculated, symndx t <= Z.of_nat n -> (n < N)%nat -> hash_of si n mod nb = h mod nb -> (N - n < fuel)%nat ->
  (calculated = true \/ vi = None -> verneed = v) ->
  chain_loop fuel (get_lookup_lib si) si t name vi h (Z.of_nat (length name)) verneed calculated (Z.of_nat n) = Ret (found_from n).
Proof.
  induction fuel as [|fuel IH]; intros n verneed calculated Hs Hl Hb Hf Hv; [lia|].
  destruct (walk_reads n Hs Hl) as (s & c & Hsym & Hlk & Hc & Hin & Hh & Hend).
  cbn [chain_loop]. 
  destruct lookup_lib_fields as (-> & -> & ->). rewrite Hsym, Hc. cbn [mbind outcome_bind].
  rewrite found_step by done.
  assert (forall vv cc, (cc = true \/ vi = None -> vv = v) -> (if decide (Z.land c 1 = 0) then chain_loop fuel (get_lookup_lib si) si t name vi h (Z.of_nat (length name)) vv cc (Z.of_nat n + 1) else Ret None) = Ret (found_from (S n))) as Hnext.
  { intros vv cc Hvv. destruct (decide (Z.land c 1 = 0)) as [H0|H1]; [|by rewrite group_end by tauto].
    replace (Z.of_nat n + 1) with (Z.of_nat (S n)) by lia.
    assert (~ (S n = N \/ hash_of si (S n) mod nb <> hash_of si n mod nb)) as Hgo by tauto.
    apply IH; [lia| |destruct (decide (hash_of si (S n) mod nb = hash_of si n mod nb)); [congruence|tauto]|lia|done]. lia. }
  assert (defines si name v n = version_ok si v n && (bool_decide (sym_name si s = name) && is_symbol_global_and_defined s)) as Hd by (unfold defines; by rewrite Hlk).
  destruct (decide (Z.shiftr c 1 = Z.shiftr h 1)) as [Heq|Hne].
  - assert (exists cc, match vi with Some _ => if calculated then Ret (verneed, true) else n ← find_verdef_version_index si vi; Ret (n, true)
      | None => Ret (verneed, calculated) end = Ret (E := exn) (v, cc)) as [cc ->].
    { destruct vi as [u|]; [|exists calculated; by rewrite Hv by tauto]. exists true. destruct calculated; [by rewrite Hv by tauto|].
      rewrite wanted_found by assumption. done. }
    cbn [mbind outcome_bind fst snd]. rewrite version_checked by done. unfold and_also. cbn [mbind outcome_bind].
    unfold sym_name in Hd. rewrite <- (memcmp_name si (st_name s) name Hin Hn) in Hd. rewrite Hd, Hlk.
    destruct (version_ok si v n); cbn; [|by apply Hnext].
    destruct (bool_decide (st_name s + _ + 1 <= _)); cbn; [|by apply Hnext].
    destruct (bool_decide _); cbn; [|by apply Hnext]. destruct (is_symbol_global_and_defined s); cbn; [done|by apply Hnext].
  - cbn [mbind outcome_bind fst snd]. rewrite Hnext by done. replace (defines si name v n) with false; [done|]. symmetry.
    apply not_true_iff_false. intros (_ & Hh')%defines_name. congruence.
Qed.
Lemma gnu_loop_search fuel : forall n, symndx t <= Z.of_nat n -> (n < N)%nat -> hash_of si n mod nb = h mod nb -> (N - n < fuel)%nat ->
  gnu_lookup_loop fuel si t name h v (Z.of_nat n) = Ret (found_from n).
Proof.
  induction fuel as [|fuel IH]; intros n Hs Hl Hb Hf; [lia|].
  destruct (walk_reads n Hs Hl) as (s & c & Hsym & Hlk & Hc & Hin & Hh & Hend).
  cbn [gnu_lookup_loop]. rewrite Hsym, Hc. cbn [mbind outcome_bind]. rewrite found_step by done.
  assert ((if decide (Z.land c 1 = 0) then gnu_lookup_loop fuel si t name h v (Z.of_nat n + 1) else Ret None) = Ret (found_from (S n))) as Hnext.
  { destruct (decide (Z.land c 1 = 0)) as [H0|H1]; [|by rewrite group_end by tauto].
    assert (~ (S n = N \/ hash_of si (S n) mod nb <> hash_of si n mod nb)) as Hgo by tauto.
    replace (Z.of_nat n + 1) with (Z.of_nat (S n)) by lia.
    apply IH; [lia| |destruct (decide (hash_of si (S n) mod nb = hash_of si n mod nb)); [congruence|tauto]|lia]. lia. }
  assert (defines si name v n = bool_decide (Z.shiftr (Z.lxor c h) 1 = 0) && (version_ok si v n && (bool_decide (sym_name si s = name) && is_symbol_global_and_defined s))) as ->.
  { pose proof (defines_name n) as Hdn. revert Hdn. unfold defines. rewrite Hlk. intros Hdn.
    destruct (bool_decide (Z.shiftr _ 1 = 0)) eqn:Eb; [done|]. apply bool_decide_eq_false in Eb. apply not_true_iff_false. intros (_ & Hh')%Hdn.
    apply Eb. by rewrite Z.shiftr_lxor, Hh, Hh', Z.lxor_nilpotent. }
  rewrite version_checked, name_is_ret, Hlk by done. unfold and_also. cbn [mbind outcome_bind]. fold (sym_name si s).
  destruct (bool_decide (Z.shiftr _ 1 = 0)); cbn; [|done]. destruct (version_ok si v n); cbn; [|done].
  destruct (bool_decide _); cbn; [|done]. by destruct (is_symbol_global_and_defined s).
Qed.

(** The filter and the bucket: a search that starts at the bucket misses nothing. *)
Lemma hash_range : 0 <= h < 2 ^ 32.
Proof. apply gnu_hash_range. lia. Qed.
Lemma bloom_defined x : 0 <= x -> exists b, bloom_test t x = Ret b.
Proof.
  intros Hx. unfold bloom_test. destruct (bloom_length _ _ Hg) as (k & Hk & Hm & Hl). pose proof (shift_range _ _ Hg).
  assert (0 <= Z.land (x / kBloomMaskBits) (gnu_maskwords t) < 2 ^ k) as Hr by (rewrite Hm, land_low by done; apply Z.mod_pos_bound; lia).
  destruct (lookup_lt_is_Some_2 (gnu_bloom_filter t) (Z.to_nat (Z.land (x / kBloomMaskBits) (gnu_maskwords t))) ltac:(lia)) as [w Hw'].
  apply elem_ret in Hw'. rewrite Z2Nat.id in Hw' by lia. rewrite Hw'. cbn [mbind outcome_bind]. rewrite decide_False by lia. by eexists.
Qed.
Lemma table_start (A : Type) (k : Z -> outcome exn (option A)) (r : option A) :
  (forall n, symndx t <= Z.of_nat n -> (n < N)%nat -> hash_of si n mod nb = h mod nb -> found_from (Z.to_nat (symndx t)) = found_from n -> k (Z.of_nat n) = Ret r) ->
  (found_from (Z.to_nat (symndx t)) = None -> r = None) ->
  (b ← bloom_test t h; if negb b then Ret None else
     n ← (if decide (nb = 0) then Undef else elem (gnu_bucket t) (h mod nb)); if decide (n = 0) then Ret None else k n) = Ret r.
Proof.
  intros Hk Hr. pose proof hash_range. pose proof (some_bucket _ _ Hg). pose proof (symndx_range _ _ Hg) as Hsx. pose proof (bucket_length _ _ Hg) as Hbl.
  destruct (bloom_defined h) as [b Hb]; [lia|]. rewrite Hb. cbn [mbind outcome_bind].
  destruct b; cbn [negb].
  - rewrite decide_False by lia. pose proof (Z.mod_pos_bound h nb ltac:(lia)) as Hmod.
    destruct (lookup_lt_is_Some_2 (gnu_bucket t) (Z.to_nat (h mod nb)) ltac:(lia)) as [n Hnb].
    pose proof (elem_ret _ _ _ Hnb) as He. rewrite Z2Nat.id in He by lia. rewrite He. cbn [mbind outcome_bind].
    destruct (bucket_first _ _ Hg _ _ Hnb) as [[-> Hno]|(Hrange & Hhash & Hfirst)]; rewrite Z2Nat.id in * by lia.
    + rewrite decide_True by done. f_equal. symmetry. apply Hr, found_none. intros j Hj. apply not_true_iff_false. intros (_ & Hh)%defines_name.
      apply (Hno j); [lia|]. by rewrite Hh.
    + rewrite decide_False by lia. rewrite <- (Z2Nat.id n) by lia. apply Hk; [lia|lia|done|]. apply found_skip; [lia|].
      intros j Hj. apply not_true_iff_false. intros (_ & Hh)%defines_name. specialize (Hfirst j ltac:(lia)). rewrite Hh in Hfirst. specialize (Hfirst eq_refl). lia.
  - f_equal. symmetry. apply Hr, found_none. intros j Hj. apply not_true_iff_false. intros (_ & Hh)%defines_name.
    pose proof (bloom_accepts _ _ Hg j ltac:(lia)) as Ha. rewrite Hh in Ha. congruence.
Qed.
Lemma gnu_lookup_search : gnu_lookup si t name vi = Ret (found_from (Z.to_nat (symndx t))).
Proof.
  apply table_start; [|done]. intros n Hs Hl Hh ->. rewrite wanted_found by assumption. cbn [mbind outcome_bind]. apply gnu_loop_search; auto; lia.
Qed.
Lemma lookup_in_search general : symbols si !! name = None -> lookup_in general name vi (get_lookup_lib si) = Ret (found_from (Z.to_nat (symndx t))).
Proof.
  intros Hno. unfold lookup_in. replace (needs_sysv_lookup (get_lookup_lib si)) with false by (unfold get_lookup_lib; by rewrite Hgnu).
  rewrite andb_false_r. unfold get_lookup_lib at 1 2. rewrite Hgnu. cbn [ll_si ll_gnu]. rewrite Hno.
  apply table_start; [|done]. intros n Hs Hl Hh ->. destruct lookup_lib_fields as (-> & _ & _).
  apply chain_loop_search; auto; try lia. by intros [?| ->].
Qed.
End GnuWalk.

(** ** The chains of [DT_HASH] *)
Section ElfWalk.
Context (si : soinfo) (t : sysv_table) (name : bytes) (vi : option version_info).
Context (Hw : wf_tables si) (Hn : NUL ∉ name) (Hvi : forall v, vi = Some v -> NUL ∉ vi_name v).
Notation N := (length (symtab si)).
Notation v := (wanted si vi).
Lemma elf_loop_search l : forall n fuel, chained t n l -> Forall (fun i => (i < N)%nat) l -> (length l < fuel)%nat ->
  elf_lookup_loop fuel si t name v n = Ret (find (defines si name v) l ≫= (fun i => symtab si !! i)).
Proof.
  induction l as [|i l IH]; intros n fuel Hc Hl Hf; (destruct fuel as [|fuel]; [cbn in Hf; lia|]); inversion Hc as [|i' next l' Hi Hnext Hc']; subst.
  { done. }
  apply Forall_cons_1 in Hl as [Hlt Hl]. cbn in Hf. cbn [elf_lookup_loop]. rewrite decide_False by lia.
  destruct (lookup_lt_is_Some_2 _ _ Hlt) as [s Hs]. rewrite (elem_ret _ _ _ Hs). cbn [mbind outcome_bind].
  rewrite version_checked, name_is_ret by (try apply (names_inside _ Hw), (list_elem_of_lookup_2 _ _ _ Hs); done).
  rewrite (elem_ret _ _ _ Hnext). cbn [find]. unfold defines at 1. rewrite Hs. fold (sym_name si s). unfold and_also. cbn [mbind outcome_bind].
  specialize (IH next fuel Hc' Hl ltac:(lia)). destruct (version_ok si v i); cbn; [|done]. destruct (bool_decide _); cbn; [|done].
  destruct (is_symbol_global_and_defined s); cbn; [by rewrite Hs|done].
Qed.
Lemma elf_lookup_search : wf_sysv si t -> exists l, elf_lookup si t name vi = Ret (find (defines si name v) l ≫= (fun i => symtab si !! i)) /\
  (forall i, i ∈ l -> (0 < i)%nat) /\ (forall i, (0 < i)%nat -> defines si name v i = true -> i ∈ l).
Proof.
  intros Hs. pose proof (some_elf_bucket _ _ Hs). pose proof (Z.mod_pos_bound (calculate_elf_hash name) (nbucket t) ltac:(lia)) as Hb.
  destruct (elf_chains _ _ Hs _ Hb) as (n & l & Hn' & Hc & Hnd & Hlt & Hall). exists l.
  unfold elf_lookup. rewrite wanted_found by assumption. cbn [mbind outcome_bind]. rewrite decide_False by lia.
  pose proof (elem_ret _ _ _ Hn') as He. rewrite Z2Nat.id in He by lia. rewrite He. cbn [mbind outcome_bind]. split_and!.
  - apply elf_loop_search; auto. apply Nat.lt_succ_r. rewrite <- (length_seq N 0). apply NoDup_incl_length.
    + by apply NoDup_ListNoDup.
    + intros i Hi. apply in_seq. rewrite <- list_elem_of_In in Hi. assert (i < N)%nat by exact (proj1 (Forall_forall _ _) Hlt i Hi). lia.
  - clear -Hc. induction Hc as [|i next l Hi Hn Hc IH]; intros j Hj; [by apply not_elem_of_nil in Hj|]. apply elem_of_cons in Hj as [->|]; auto.
  - intros i Hi Hd. unfold defines in Hd. destruct (symtab si !! i) as [s|] eqn:E; [|done]. apply Hall; [split; [done|by eapply lookup_lt_Some]|].
    unfold elf_hash_of. rewrite E. apply andb_true_iff in Hd as [_ Hd]. apply andb_true_iff in Hd as [Hd _]. apply bool_decide_eq_true in Hd. by rewrite Hd.
Qed.
End ElfWalk.

(** ** One library *)
Lemma find_result (si : soinfo) (P : nat -> bool) (l : list nat) :
  match find P l ≫= (fun i => symtab si !! i) with
  | Some s => exists i, i ∈ l /\ P i = true /\ symtab si !! i = Some s
  | None => forall i s, i ∈ l -> P i = true -> symtab si !! i = Some s -> (forall j, P j = true -> is_Some (symtab si !! j)) -> False
  end.
Proof.
  destruct (find P l) as [i|] eqn:E; cbn.
  - apply find_some in E as [Hi HP]. destruct (symtab si !! i) as [s|] eqn:Es.
    + exists i. by rewrite list_elem_of_In.
    + intros j s _ _ _ H. destruct (H i HP). congruence.
  - intros i s Hi HP _ _. rewrite list_elem_of_In in Hi. pose proof (find_none _ _ E i Hi). congruence.
Qed.
Lemma defines_some si name v j : defines si name v j = true -> is_Some (symtab si !! j).
Proof. unfold defines. destruct (symtab si !! j); [by eexists|done]. Qed.

(** Every well-formed library is searched completely, and what is found is what it provides. *)
Lemma library_searched general si name vi : wf_library si -> NUL ∉ name -> (forall v, vi = Some v -> NUL ∉ vi_name v) ->
  general || negb (needs_sysv_lookup (get_lookup_lib si)) = true ->
  exists r, lookup_in general name vi (get_lookup_lib si) = Ret r /\ search_result si name vi r.
Proof.
  intros Hwf Hn Hvi Hgen. unfold search_result, provides, hashed. destruct (symbols si !! name) as [cs|] eqn:Hsym.
  { exists (Some cs). split; [|done]. unfold lookup_in, find_symbol_by_name, get_lookup_lib, needs_sysv_lookup.
    destruct (gnu si); cbn [ll_si ll_gnu]; rewrite ?andb_false_r; [by rewrite Hsym|]. rewrite andb_true_r. by destruct general; rewrite Hsym. }
  destruct Hwf as [t Hg Hw Hwg|t Hg Hs Hw Hws|Hg Hs].
  - eexists. split; [by eapply lookup_in_search|]. rewrite Hg. unfold found_from.
    pose proof (symndx_range _ _ Hwg). pose proof (find_result si (defines si name (wanted si vi)) (seq (Z.to_nat (symndx t)) (length (symtab si) - Z.to_nat (symndx t)))) as H'.
    destruct (_ ≫= _) as [s|].
    + destruct H' as (i & Hi & Hd & Hl). exists i. apply list_elem_of_In, in_seq in Hi. split_and!; [lia|done|done].
    + intros s (i & Hi & Hl & Hd). eapply H'; eauto using defines_some. apply list_elem_of_In, in_seq. pose proof (lookup_lt_Some _ _ _ Hl). lia.
  - assert (needs_sysv_lookup (get_lookup_lib si) = true) as Hneeds by (unfold needs_sysv_lookup, get_lookup_lib; by rewrite Hg).
    rewrite Hneeds in Hgen. destruct general; [|done]. destruct (elf_lookup_search si t name vi Hw Hn Hvi Hws) as (l & El & Hpos & Hall).
    eexists. split. { unfold lookup_in. rewrite Hneeds. cbn. unfold get_lookup_lib, find_symbol_by_name. rewrite Hg. cbn. rewrite Hsym, Hs, Hg. exact El. }
    rewrite Hg, Hs. pose proof (find_result si (defines si name (wanted si vi)) l) as H'. destruct (_ ≫= _) as [s|].
    + destruct H' as (i & Hi & Hd & Hl). exists i. auto.
    + intros s (i & Hi & Hl & Hd). eapply H'; eauto using defines_some.
  - assert (needs_sysv_lookup (get_lookup_lib si) = true) as Hneeds by (unfold needs_sysv_lookup, get_lookup_lib; by rewrite Hg).
    rewrite Hneeds in Hgen. destruct general; [|done]. exists None. split.
    { unfold lookup_in. rewrite Hneeds. cbn. unfold get_lookup_lib, find_symbol_by_name. rewrite Hg. cbn. by rewrite Hsym, Hs. }
    rewrite Hg, Hs. by intros s (i & [] & _).
Qed.

(** ** Lists of libraries *)
Fixpoint set_all (calls : list (option soinfo)) (l : SymbolLookupList) : outcome exn SymbolLookupList :=
  match calls with [] => Ret l | c :: calls => l ← set_dt_symbolic_lib c l; set_all calls l end.
Fixpoint needing (ls : list SymbolLookupLib) : Z := match ls with [] => 0 | l :: ls => count (needs_sysv_lookup l) + needing ls end.
Lemma needing_app a b : needing (a ++ b) = needing a + needing b.
Proof. induction a as [|x a IH]; [done|]. cbn. lia. Qed.
Lemma needing_nonneg ls : 0 <= needing ls.
Proof. induction ls as [|x ls IH]; [done|]. cbn. destruct (needs_sysv_lookup x); cbn; lia. Qed.
Lemma needing_elem l ls : l ∈ ls -> needs_sysv_lookup l = true -> 0 < needing ls.
Proof.
  induction ls as [|x ls IH]; intros Hin Hl; [by apply not_elem_of_nil in Hin|]. cbn. pose proof (needing_nonneg ls) as H0.
  apply elem_of_cons in Hin as [<-|Hin]; [rewrite Hl; cbn; lia|]. specialize (IH Hin Hl). destruct (needs_sysv_lookup x); cbn; lia.
Qed.
Lemma add_group_fold g : forall l n, foldl add_group (l, n) g = (l ++ (get_lookup_lib <$> g), n + needing (get_lookup_lib <$> g)).
Proof.
  induction g as [|si g IH]; intros l n; cbn [foldl fmap list_fmap]; [by rewrite app_nil_r, Z.add_0_r|].
  unfold add_group at 2. cbn [fst snd]. rewrite IH, <- app_assoc. cbn. f_equal. lia.
Qed.
(** The state of a list for a group: the first place, the libraries behind it, where the search begins, and the count. *)
Definition group_state (tracing : bool) (first : option soinfo) (rest : list soinfo) : SymbolLookupList :=
  let f := match first with Some si => get_lookup_lib si | None => empty_lib end in
  mkList (f :: (get_lookup_lib <$> rest)) (match first with Some _ => 0 | None => 1 end) (count tracing + needing (f :: (get_lookup_lib <$> rest))).
Lemma group_list_state tracing g l : group_list tracing g l = group_state tracing None (g ++ l).
Proof.
  unfold group_list, group_state. rewrite !add_group_fold. cbn. rewrite fmap_app. f_equal.
  fold (needing ((get_lookup_lib <$> g) ++ (get_lookup_lib <$> l))). rewrite needing_app. lia.
Qed.
Lemma set_symbolic_state tracing first rest c : set_dt_symbolic_lib c (group_state tracing first rest) = Ret (group_state tracing c rest).
Proof. unfold set_dt_symbolic_lib, group_state. cbn [libs slow_path_count]. f_equal. f_equal. cbn. lia. Qed.
Lemma set_all_state tracing rest calls : forall first, set_all calls (group_state tracing first rest) = Ret (group_state tracing (default first (last calls)) rest).
Proof.
  induction calls as [|c calls IH]; intros first; [done|]. cbn [set_all]. rewrite set_symbolic_state. cbn [mbind outcome_bind]. rewrite IH.
  destruct calls as [|d calls]; [done|]. rewrite last_cons_cons. by destruct (last (d :: calls)) eqn:E; [|apply last_None in E].
Qed.

(** The first library that provides the name. *)
Definition first_provider (searched : list soinfo) (name : bytes) (vi : option version_info) (r : option (nat * Sym)) : Prop :=
  match r with
  | Some (k, s) => (exists si, searched !! k = Some si /\ provides si name vi s) /\ forall j sj s', (j < k)%nat -> searched !! j = Some sj -> ~ provides sj name vi s'
  | None => forall sj s', sj ∈ searched -> ~ provides sj name vi s'
  end.
Lemma lookup_impl_first general name vi searched : NUL ∉ name -> (forall v, vi = Some v -> NUL ∉ vi_name v) -> Forall wf_library searched ->
  (general = true \/ Forall (fun si => needs_sysv_lookup (get_lookup_lib si) = false) searched) -> forall k,
  exists r, soinfo_do_lookup_impl general name vi k (get_lookup_lib <$> searched) = Ret r /\
    first_provider searched name vi ((fun p => (p.1 - k, p.2)%nat) <$> r) /\ (forall p, r = Some p -> (k <= p.1)%nat).
Proof.
  intros Hn Hvi Hwf. induction Hwf as [|si searched Hsi Hwf IH]; intros Hgen k.
  { exists None. split_and!; [done| |done]. intros ? ? H. by apply not_elem_of_nil in H. }
  assert (general || negb (needs_sysv_lookup (get_lookup_lib si)) = true) as Hg.
  { destruct Hgen as [->|H]; [done|]. apply Forall_cons_1 in H as [-> _]. by rewrite orb_true_r. }
  destruct (library_searched general si name vi Hsi Hn Hvi Hg) as (r & Er & Hr). cbn [fmap list_fmap soinfo_do_lookup_impl]. rewrite Er. cbn [mbind outcome_bind].
  destruct r as [s|].
  - exists (Some (k, s)). split_and!; [done| |by intros ? [= <-]]. cbn. rewrite Nat.sub_diag. split; [by exists si|]. intros; lia.
  - assert (general = true \/ Forall (fun si => needs_sysv_lookup (get_lookup_lib si) = false) searched) as Hgen'
      by (destruct Hgen as [|H]; [by left|right; apply Forall_cons_1 in H; tauto]).
    destruct (IH Hgen' (S k)) as (r & -> & Hf & Hk). exists r. split; [done|].
    split; [|intros p Hp; specialize (Hk p Hp); lia]. destruct r as [[m s]|]; cbn in *.
    + specialize (Hk _ eq_refl). cbn in Hk. replace (m - k)%nat with (S (m - S k)) by lia. destruct Hf as [Hf1 Hf2]. split; [done|].
      intros [|j] sj s' Hj Hl; [injection Hl as <-; apply Hr|]. apply (Hf2 j); [lia|done].
    + intros sj s' [->|H]%elem_of_cons; [apply Hr|by apply Hf].
Qed.
Lemma slow_path_taken tracing first rest : let l := group_state tracing first rest in
  needs_slow_path l = true \/ Forall (fun si => needs_sysv_lookup (get_lookup_lib si) = false) (option_list first ++ rest).
Proof.
  cbn. destruct (needs_slow_path _) eqn:E; [by left|right]. apply bool_decide_eq_false in E. apply Forall_forall. intros si Hin.
  apply not_true_iff_false. intros Hneed. apply E. unfold group_state. cbn [slow_path_count].
  assert (0 < needing ((match first with Some si => get_lookup_lib si | None => empty_lib end) :: (get_lookup_lib <$> rest))); [|destruct tracing; cbn [count]; lia].
  eapply needing_elem, Hneed. apply elem_of_app in Hin as [Hin|Hin]; [|right; by apply list_elem_of_fmap_2].
  destruct first; cbn in Hin; [apply list_elem_of_singleton in Hin as ->; by left|by apply not_elem_of_nil in Hin].
Qed.
Lemma group_searched tracing first rest : drop (begin_ (group_state tracing first rest)) (libs (group_state tracing first rest)) = get_lookup_lib <$> (option_list first ++ rest).
Proof. by destruct first. Qed.

(** C8. Symbol lookup in a group of well-formed libraries, with GNU hash tables, SysV hash tables or symbols
    of the launcher, and any changes of the symbolic library before it, terminates without a read
    outside a table and finds exactly the first library, in the order symbolic, global group, local
    group, that provides the name in the wanted version; the bloom filters, buckets and the choice of
    the fast path never change the answer. *)
Theorem symbol_found_first (tracing : bool) (global_group local_group : list soinfo) (calls : list (option soinfo)) (name : bytes) (vi : option version_info) :
  Forall wf_library (option_list (default None (last calls)) ++ global_group ++ local_group) -> NUL ∉ name -> (forall v, vi = Some v -> NUL ∉ vi_name v) ->
  exists l r, set_all calls (group_list tracing global_group local_group) = Ret l /\ soinfo_do_lookup name vi l = Ret r /\
    first_provider (option_list (default None (last calls)) ++ global_group ++ local_group) name vi r.
Proof.
  intros Hwf Hn Hvi. rewrite group_list_state, set_all_state. eexists.
  destruct (lookup_impl_first (needs_slow_path (group_state tracing (default None (last calls)) (global_group ++ local_group))) name vi _ Hn Hvi Hwf
    (slow_path_taken _ _ _) 0) as (r & Er & Hf & _).
  exists r. split; [done|]. unfold soinfo_do_lookup. rewrite group_searched. split; [done|].
  destruct r as [[k s]|]; [|done]. cbn in Hf. by rewrite Nat.sub_0_r in Hf.
Qed.

(** A library with one symbol and a GNU hash table. *)
Definition one_name : bytes := lit "dlopen_hook".
Definition one_hash : Z := fst (calculate_gnu_hash one_name).
Definition one_sym : Sym := mkSym 1 18 7 4096 16.
Definition one_table : gnu_table := mkGnu 1 1 0 6 [2 ^ 64 - 1] [1] [Z.lor one_hash 1].
Definition one_library : soinfo := mkSoinfo ∅ (Some one_table) None [mkSym 0 0 0 0 0; one_sym] (NUL :: one_name ++ [NUL]) None [] 0.
Lemma one_library_wf : wf_library one_library.
Proof.
  eapply wf_with_gnu; [done| |].
  - split; [|intros v Hv; by apply not_elem_of_nil in Hv|done]. intros s Hs. apply (bool_decide_unpack _).
    assert (forallb (fun s => bool_decide (0 <= st_name s /\ NUL ∈ drop (Z.to_nat (st_name s)) (strtab one_library))) (symtab one_library) = true) as H by (vm_compute; reflexivity).
    rewrite forallb_forall in H. apply Is_true_true, H, list_elem_of_In, Hs.
  - split; try (cbn; lia); try done.
    + exists 0. cbn. lia.
    + intros i Hi. replace i with 1%nat by (cbn in Hi; lia). vm_compute. reflexivity.
    + intros i c Hi Hc. assert (i = 1%nat) as -> by (cbn in Hi; pose proof (lookup_lt_Some _ _ _ Hc); cbn in *; lia). vm_compute in Hc. injection Hc as <-.
      split; [vm_compute; reflexivity|]. split; [by left|]. intros _. vm_compute. discriminate.
    + intros b n Hb. assert (b = 0%nat) as -> by (pose proof (lookup_lt_Some _ _ _ Hb); cbn in *; lia). injection Hb as <-. right.
      split; [cbn; lia|]. split; [vm_compute; reflexivity|]. intros i Hi _. cbn in Hi. lia.
    + intros i j k Hi Hj Hk _. cbn in Hi, Hk. by replace j with i by lia.
Qed.
Lemma symbol_found_first_witness :
  exists l r, set_all [Some one_library; None] (group_list false [load_library [(lit "mmap", 16); (lit "free", 0)]] [one_library]) = Ret l /\
    soinfo_do_lookup one_name None l = Ret r /\ r = Some (1%nat, one_sym) /\
    first_provider [load_library [(lit "mmap", 16); (lit "free", 0)]; one_library] one_name None r.
Proof.
  destruct (symbol_found_first false [load_library [(lit "mmap", 16); (lit "free", 0)]] [one_library] [Some one_library; None] one_name None) as (l & r & El & Er & Hf).
  - apply Forall_cons_2; [by apply wf_custom|]. apply Forall_cons_2; [apply one_library_wf|constructor].
  - apply (bool_decide_unpack _). vm_compute. exact I.
  - discriminate.
  - exists l, r. split_and!; [done|done| |done]. injection El as <-. vm_compute in Er. injection Er as <-. reflexivity.
Defined.

(** [dlsym] asks one library, by [find_symbol_by_name], which looks at the SysV table first: for a
    library with a GNU table only it finds no definition at all, though relocations find it. *)
Theorem gnu_only_not_found (si : soinfo) (name : bytes) (vi : option version_info) : sysv si = None -> symbols si !! name = None -> find_symbol_by_name si name vi = Ret None.
Proof. intros Hs Hn. unfold find_symbol_by_name. by rewrite Hn, Hs. Qed.
Theorem gnu_only_divergence : find_symbol_by_name one_library one_name None = Ret None /\ soinfo_do_lookup one_name None (sole_list false one_library) = Ret (Some (0%nat, one_sym)).
Proof. split; vm_compute; reflexivity. Qed.
(** With both tables it finds what relocations find. *)
Theorem by_name_agrees (si : soinfo) (t : gnu_table) (name : bytes) (vi : option version_info) : gnu si = Some t -> is_Some (sysv si) -> wf_tables si -> wf_gnu si t ->
  NUL ∉ name -> (forall v, vi = Some v -> NUL ∉ vi_name v) -> forall general, find_symbol_by_name si name vi = lookup_in general name vi (get_lookup_lib si).
Proof.
  intros Hg [y Hs] Hw Hwg Hn Hvi general. unfold find_symbol_by_name. destruct (symbols si !! name) as [c|] eqn:E.
  - unfold lookup_in, get_lookup_lib, needs_sysv_lookup. rewrite Hg. cbn [ll_si ll_gnu]. by rewrite andb_false_r, E.
  - rewrite Hs, Hg. rewrite (gnu_lookup_search si t) by assumption. by rewrite (lookup_in_search si t) by assumption.
Qed.

(** ** Libraries of the launcher *)
Lemma load_symbols (syms : list (bytes * Z)) (name : bytes) : forall m : gmap bytes Sym, NoDup (fst <$> syms) -> (forall n, n ∈ (fst <$> syms) -> m !! n = None) ->
  foldl (fun m s => if decide (snd s = 0) then m else <[fst s := custom_sym (snd s)]> m) m syms !! name =
  match find (fun s => bool_decide (fst s = name)) syms with Some (_, v) => if decide (v = 0) then None else Some (custom_sym v) | None => m !! name end.
Proof.
  induction syms as [|[n v] syms IH]; intros m Hnd Hm; [done|]. apply NoDup_cons in Hnd as [Hn Hnd]. cbn [foldl find fst snd].
  rewrite IH; [|done|].
  - case_bool_decide as E; cbn in E.
    + subst n. replace (find _ syms) with (@None (bytes * Z)).
      * destruct (decide (v = 0)); [apply Hm; by left|by rewrite lookup_insert_eq].
      * symmetry. destruct (find _ syms) as [[n' v']|] eqn:Ef; [|done]. apply find_some in Ef as [Hin Hb]. apply bool_decide_eq_true in Hb. cbn in Hb. subst n'.
        destruct Hn. apply list_elem_of_fmap. exists (name, v'). split; [done|by apply list_elem_of_In].
    + destruct (find _ syms) as [[? ?]|]; [done|]. destruct (decide (v = 0)); [done|by rewrite lookup_insert_ne].
  - intros n' Hn'. destruct (decide (v = 0)); [apply Hm; by right|]. rewrite lookup_insert_ne by (by intros ->). apply Hm. by right.
Qed.
(** The symbols of a library of the launcher are those of its map with an address, in any version. *)
Theorem launcher_symbol_found (syms : list (bytes * Z)) (name : bytes) (vi : option version_info) : NoDup (fst <$> syms) ->
  find_symbol_by_name (load_library syms) name vi =
  Ret (match find (fun s => bool_decide (fst s = name)) syms with Some (_, v) => if decide (v = 0) then None else Some (custom_sym v) | None => None end).
Proof.
  intros Hnd. unfold find_symbol_by_name, load_library. cbn [symbols sysv]. rewrite load_symbols by (done || intros; apply lookup_empty).
  rewrite lookup_empty. by destruct (match find _ _ with Some _ => _ | None => _ end).
Qed.
End LinkerSymbols.
