(* ===== verification/LinkerGroups.v ===== *)
(** * Loaded libraries and their groups (mcpelauncher-linker/bionic/linker)

    [linker.cpp], [linker_soinfo.cpp], [linker_main.cpp] and [dlfcn.cpp]: the libraries that are loaded,
    their links, reference counts and handles, the walk of dependencies, constructors and
    destructors, unloading, and [dlsym].  The launcher never reads a configuration and gives the
    program no function that makes a namespace, so there is one namespace, the default one, and
    every library is accessible.  A library is a number; a library that is freed is no longer in the
    map and using it is undefined.  What the constructors of the program do is not followed, the
    calls are recorded in their order. *)

From S2P Require Import Prelude CxxString LinkerUtils LinkerSymbols.
From Stdlib Require Import ZArith Ascii Lia.
From stdpp Require Import base list strings numbers gmap.

Open Scope Z_scope.

Module LinkerGroups.
Import LinkerSymbols.

Definition RTLD_GLOBAL : Z := 0x100.
Definition RTLD_NODELETE : Z := 0x1000.

(** ** Libraries *)
(** [file_id] stands for the device, inode and offset of the file, 0 for none. *)
Record library := mkLibrary { tables : soinfo; lib_soname : option bytes; children : list nat; parents : list nat; linked : bool; rtld_flags : Z;
  ref_count : Z; local_group_root : nat; constructors_called : bool; target_sdk_version : Z; handle : Z; init_func : Z;
  init_array : list Z; fini_func : Z; fini_array : list Z; dt_flags_1 : Z; image_linked : bool; file_id : Z }.
Definition set_links (c p : list nat) (l : library) : library :=
  mkLibrary (tables l) (lib_soname l) c p (linked l) (rtld_flags l) (ref_count l) (local_group_root l) (constructors_called l) (target_sdk_version l) (handle l) (init_func l) (init_array l) (fini_func l) (fini_array l) (dt_flags_1 l) (image_linked l) (file_id l).
Definition set_called (l : library) : library :=
  mkLibrary (tables l) (lib_soname l) (children l) (parents l) (linked l) (rtld_flags l) (ref_count l) (local_group_root l) true (target_sdk_version l) (handle l) (init_func l) (init_array l) (fini_func l) (fini_array l) (dt_flags_1 l) (image_linked l) (file_id l).
Definition set_count (n : Z) (l : library) : library :=
  mkLibrary (tables l) (lib_soname l) (children l) (parents l) (linked l) (rtld_flags l) n (local_group_root l) (constructors_called l) (target_sdk_version l) (handle l) (init_func l) (init_array l) (fini_func l) (fini_array l) (dt_flags_1 l) (image_linked l) (file_id l).
Definition set_handle (h : Z) (l : library) : library :=
  mkLibrary (tables l) (lib_soname l) (children l) (parents l) (linked l) (rtld_flags l) (ref_count l) (local_group_root l) (constructors_called l) (target_sdk_version l) h (init_func l) (init_array l) (fini_func l) (fini_array l) (dt_flags_1 l) (image_linked l) (file_id l).
Definition set_linked (l : library) : library :=
  mkLibrary (tables l) (lib_soname l) (children l) (parents l) true (rtld_flags l) (ref_count l) (local_group_root l) (constructors_called l) (target_sdk_version l) (handle l) (init_func l) (init_array l) (fini_func l) (fini_array l) (dt_flags_1 l) (image_linked l) (file_id l).
Definition set_flags (rtld dt : Z) (l : library) : library :=
  mkLibrary (tables l) (lib_soname l) (children l) (parents l) (linked l) rtld (ref_count l) (local_group_root l) (constructors_called l) (target_sdk_version l) (handle l) (init_func l) (init_array l) (fini_func l) (fini_array l) dt (image_linked l) (file_id l).
Definition set_image (root : nat) (sdk : Z) (l : library) : library :=
  mkLibrary (tables l) (lib_soname l) (children l) (parents l) (linked l) (rtld_flags l) (ref_count l) root (constructors_called l) sdk (handle l) (init_func l) (init_array l) (fini_func l) (fini_array l) (dt_flags_1 l) true (file_id l).
Definition set_tables (t : soinfo) (l : library) : library :=
  mkLibrary t (lib_soname l) (children l) (parents l) (linked l) (rtld_flags l) (ref_count l) (local_group_root l) (constructors_called l) (target_sdk_version l) (handle l) (init_func l) (init_array l) (fini_func l) (fini_array l) (dt_flags_1 l) (image_linked l) (file_id l).

(** A call of a constructor or a destructor of a library. *)
Inductive call := Ctor (lib : nat) (function : Z) | Dtor (lib : nat) (function : Z).
(** [ns] is the list of the default namespace, [solist] the list of all libraries, [handles] is [g_soinfo_handles_map]. *)
Record state := mkState { loaded : gmap nat library; ns : list nat; solist : list nat; handles : gmap Z nat; calls : list call }.
Definition set_loaded (m : gmap nat library) (st : state) : state := mkState m (ns st) (solist st) (handles st) (calls st).
Definition put_library (i : nat) (l : library) (st : state) : state := set_loaded (<[i := l]> (loaded st)) st.
Definition record (cs : list call) (st : state) : state := mkState (loaded st) (ns st) (solist st) (handles st) (calls st ++ cs).
(** The library behind a pointer. *)
Definition get (st : state) (i : nat) : outcome exn library := match loaded st !! i with Some l => Ret l | None => Undef end.

(** ** [walk_dependencies_tree] *)
Inductive walk_action_result := kWalkStop | kWalkContinue | kWalkSkip.
Section Walk.
Context {A : Type} (st : state) (action : A -> nat -> outcome exn (walk_action_result * A)).
(** The result is false after a stop; [visited] are the libraries the action saw, in order. *)
Fixpoint walk_loop (fuel : nat) (visit_list visited : list nat) (a : A) : outcome exn (bool * list nat * A) :=
  match fuel with
  | O => Diverge
  | S fuel =>
      match visit_list with
      | [] => Ret (true, visited, a)
      | si :: visit_list =>
          if decide (si ∈ visited) then walk_loop fuel visit_list visited a
          else
            r ← action a si;
            match fst r with
            | kWalkStop => Ret (false, visited ++ [si], snd r)
            | kWalkSkip => walk_loop fuel visit_list (visited ++ [si]) (snd r)
            | kWalkContinue => l ← get st si; walk_loop fuel (visit_list ++ children l) (visited ++ [si]) (snd r)
            end
      end
  end.
(** A library is put on the list for its parent, and each library is a parent once. *)
Definition edges (m : gmap nat library) : nat := map_fold (fun _ l n => length (children l) + n)%nat 0%nat m.
Definition walk_dependencies_tree (root : nat) (a : A) : outcome exn (bool * list nat * A) := walk_loop (2 + edges (loaded st)) [root] [] a.
End Walk.

(** ** [dlsym] *)
Section Dlsym.
Context (st : state).
(** [skip] holds while the library to skip until has not been seen. *)
Definition lookup_action (skip_until : option nat) (name : bytes) (vi : option version_info) (a : bool * option (nat * Sym)) (si : nat) : outcome exn (walk_action_result * (bool * option (nat * Sym))) :=
  if fst a then Ret (kWalkContinue, (bool_decide (Some si <> skip_until), snd a))
  else
    l ← get st si;
    r ← find_symbol_by_name (tables l) name vi;
    Ret (match r with Some s => (kWalkStop, (fst a, Some (si, s))) | None => (kWalkContinue, a) end).
Definition dlsym_handle_lookup_impl (root : nat) (skip_until : option nat) (name : bytes) (vi : option version_info) : outcome exn (option (nat * Sym)) :=
  r ← walk_dependencies_tree st (lookup_action skip_until name vi) root (bool_decide (skip_until <> None), None);
  Ret (snd (snd r)).
(** The version of the root of the group, in which a library of the launcher is its own. *)
Definition get_target_sdk_version (l : library) : outcome exn Z := r ← get st (local_group_root l); Ret (target_sdk_version r).
(** The libraries of the namespace from the start of the search. *)
Fixpoint linear_loop (name : bytes) (vi : option version_info) (ls : list nat) : outcome exn (option (nat * Sym)) :=
  match ls with
  | [] => Ret None
  | si :: ls =>
      l ← get st si;
      skip ← (if decide (Z.land (rtld_flags l) RTLD_GLOBAL = 0) then v ← get_target_sdk_version l; Ret (bool_decide (23 <= v)) else Ret false);
      if (skip : bool) then linear_loop name vi ls
      else r ← find_symbol_by_name (tables l) name vi; match r with Some s => Ret (Some (si, s)) | None => linear_loop name vi ls end
  end.
Fixpoint after (si : nat) (ls : list nat) : option (list nat) :=
  match ls with [] => None | x :: ls => if decide (x = si) then Some ls else after si ls end.
Definition dlsym_linear_lookup (name : bytes) (vi : option version_info) (caller : option nat) (next : bool) : outcome exn (option (nat * Sym)) :=
  let search ls :=
    r ← linear_loop name vi ls;
    match r, caller with
    | None, Some c => l ← get st c; dlsym_handle_lookup_impl (local_group_root l) (if next then Some c else None) name vi
    | _, _ => Ret r
    end in
  if next then
    match caller with
    | None => Ret None
    | Some c => match after c (ns st) with Some ls => search ls | None => Throw (runtime_error "CHECK failed: it != soinfo_list.end()") end
    end
  else search (ns st).
(** [resolve_symbol_address]; the answer of a resolver is a parameter. *)
Definition STT_GNU_IFUNC : Z := 10.
Definition resolve_symbol_address (resolver : Z -> Z) (l : library) (s : Sym) : Z :=
  let address := wrapu 64 (st_value s + load_bias (tables l)) in
  if decide (ELF_ST_TYPE (st_info s) = STT_GNU_IFUNC) then resolver address else address.
Definition RTLD_DEFAULT : Z := 0.
Definition RTLD_NEXT : Z := 2 ^ 64 - 1.
(** [soinfo_from_handle], for the odd handles of the map. *)
Definition soinfo_from_handle (h : Z) : outcome exn (option nat) := if decide (Z.land h 1 <> 0) then Ret (handles st !! h) else Undef.
(** [None] is the return of false. *)
Definition do_dlsym (resolver : Z -> Z) (h : Z) (name : bytes) (sym_ver : option bytes) (caller : option nat) : outcome exn (option Z) :=
  let vi := (fun v => mkVersion (calculate_elf_hash v) v) <$> sym_ver in
  let answer (r : option (nat * Sym)) : outcome exn (option Z) :=
    match r with
    | None => Ret None
    | Some (found, sym) =>
        let bind := ELF_ST_BIND (st_info sym) in
        if decide ((bind = STB_GLOBAL \/ bind = STB_WEAK) /\ st_shndx sym <> 0) then
          if decide (ELF_ST_TYPE (st_info sym) = STT_TLS) then Ret None
          else l ← get st found; Ret (Some (resolve_symbol_address resolver l sym))
        else Ret None
    end in
  if decide (h = RTLD_DEFAULT \/ h = RTLD_NEXT) then r ← dlsym_linear_lookup name vi caller (bool_decide (h = RTLD_NEXT)); answer r
  else
    si ← soinfo_from_handle h;
    match si with None => Ret None | Some si => r ← dlsym_handle_lookup_impl si None name vi; answer r end.
End Dlsym.

(** ** Constructors and destructors *)
(** [call_function] leaves out null and minus one. *)
Definition callable (f : Z) : bool := bool_decide (f <> 0 /\ f <> 2 ^ 64 - 1).
Definition call_function (f : Z) : list Z := if callable f then [f] else [].
Definition call_array (functions : list Z) (reverse : bool) : list Z := (if reverse then rev functions else functions) ≫= call_function.
Definition init_calls (i : nat) (l : library) : list call := Ctor i <$> (call_function (init_func l) ++ call_array (init_array l) false).
Definition fini_calls (i : nat) (l : library) : list call := Dtor i <$> (call_array (fini_array l) true ++ call_function (fini_func l)).
Fixpoint call_constructors (fuel : nat) (i : nat) (st : state) : outcome exn state :=
  match fuel with
  | O => Diverge
  | S fuel =>
      l ← get st i;
      if constructors_called l then Ret st
      else
        st ← (fix for_each (cs : list nat) (st : state) : outcome exn state :=
                match cs with [] => Ret st | c :: cs => st ← call_constructors fuel c st; for_each cs st end)
             (children l) (put_library i (set_called l) st);
        Ret (record (init_calls i l) st)
  end.
Definition call_destructors (st : state) (i : nat) : outcome exn state :=
  l ← get st i;
  Ret (if constructors_called l then record (fini_calls i l) st else st).

(** ** Links *)
Definition add_child (i child : nat) (st : state) : outcome exn state :=
  c ← get st child;
  let st := put_library child (set_links (children c) (parents c ++ [i]) c) st in
  l ← get st i;
  Ret (put_library i (set_links (children l ++ [child]) (parents l) l) st).
Definition remove (i : nat) (l : list nat) : list nat := filter (fun x => x <> i) l.
Fixpoint untie (upd : library -> library) (is_ : list nat) (st : state) : outcome exn state :=
  match is_ with [] => Ret st | i :: is_ => l ← get st i; untie upd is_ (put_library i (upd l) st) end.
Definition without_parent (i : nat) (l : library) : library := set_links (children l) (remove i (parents l)) l.
Definition without_child (i : nat) (l : library) : library := set_links (remove i (children l)) (parents l) l.
Definition remove_all_links (i : nat) (st : state) : outcome exn state :=
  l ← get st i;
  st ← untie (without_parent i) (children l) st;
  l ← get st i;
  st ← untie (without_child i) (parents l) st;
  l ← get st i;
  let st := put_library i (set_links [] [] l) st in
  Ret (mkState (loaded st) (remove i (ns st)) (solist st) (handles st) (calls st)).
(** [solist_remove_soinfo]: the first place belongs to the linker and is never removed. *)
Definition solist_remove_soinfo (i : nat) (st : state) : outcome exn state :=
  match solist st with
  | [] => Throw (runtime_error "soinfo is not in soinfo_list (double unload?)")
  | first :: rest =>
      if decide (i = first) then Throw (runtime_error "CHECK failed: prev != nullptr")
      else if decide (i ∈ rest) then Ret (mkState (loaded st) (ns st) (first :: remove i rest) (handles st) (calls st))
      else Throw (runtime_error "soinfo is not in soinfo_list (double unload?)")
  end.
(** [soinfo_free]: the mappings of the library are not modelled. *)
Definition soinfo_free (i : nat) (st : state) : outcome exn state :=
  st ← solist_remove_soinfo i st;
  st ← remove_all_links i st;
  l ← get st i;
  Ret (mkState (delete i (loaded st)) (ns st) (solist st) (delete (handle l) (handles st)) (calls st)).

(** ** Unloading *)
Definition can_unload (l : library) : bool := negb (linked l) || bool_decide (Z.land (rtld_flags l) (Z.lor RTLD_NODELETE RTLD_GLOBAL) = 0).
(** The children of one library are taken off one after the other. *)
Fixpoint take_children (i root : nat) (cs : list nat) (local unload external : list nat) (st : state) : outcome exn (state * list nat * list nat) :=
  match cs with
  | [] => Ret (st, unload, external)
  | c :: cs =>
      l ← get st i;
      let st := put_library i (set_links cs (parents l) l) st in
      ch ← get st c;
      let st := put_library c (without_parent i ch) st in
      if decide (c ∈ local) then take_children i root cs local unload external st
      else if decide (linked ch = true /\ local_group_root ch <> root) then take_children i root cs local unload (external ++ [c]) st
      else if decide (parents (without_parent i ch) = []) then take_children i root cs local (unload ++ [c]) external st
      else take_children i root cs local unload external st
  end.
Fixpoint collect_loop (fuel : nat) (root : nat) (unload local external : list nat) (st : state) : outcome exn (state * list nat * list nat) :=
  match fuel with
  | O => Diverge
  | S fuel =>
      match unload with
      | [] => Ret (st, local, external)
      | si :: unload =>
          if decide (si ∈ local) then collect_loop fuel root unload local external st
          else
            l ← get st si;
            r ← take_children si root (children l) (local ++ [si]) unload external st;
            collect_loop fuel root (snd (fst r)) (local ++ [si]) (snd r) (fst (fst r))
      end
  end.
Fixpoint for_all (f : state -> nat -> outcome exn state) (is_ : list nat) (st : state) : outcome exn state :=
  match is_ with [] => Ret st | i :: is_ => st ← f st i; for_all f is_ st end.
(** [soinfo_unload] and [soinfo_unload_impl]; each level frees a library, so the libraries bound the levels. *)
Fixpoint soinfo_unload (fuel : nat) (unload_si : nat) (st : state) : outcome exn state :=
  match fuel with
  | O => Diverge
  | S fuel =>
      l ← get st unload_si;
      let root := if linked l then local_group_root l else unload_si in
      r ← get st root;
      let count := if linked l then wrapu 64 (ref_count r - 1) else 0 in
      let st := if linked l then put_library root (set_count count r) st else st in
      if decide (0 < count) then Ret st
      else
        r ← get st root;
        if negb (can_unload r) then Ret st
        else
          c ← collect_loop (2 + edges (loaded st)) root [root] [] [] st;
          let '(st, local, external) := c in
          st ← for_all call_destructors local st;
          st ← for_all (fun st i => soinfo_free i st) local st;
          if linked r then for_all (fun st i => soinfo_unload fuel i st) external st else Ret st
  end.
Definition do_dlclose (h : Z) (st : state) : outcome exn (Z * state) :=
  si ← soinfo_from_handle st h;
  match si with None => Ret (-1, st) | Some si => st ← soinfo_unload (S (size (loaded st))) si st; Ret (0, st) end.

(** ** Handles *)
(** The next handle that is free; every turn tries another odd number. *)
Fixpoint handle_loop (fuel : nat) (st : state) (h : Z) : outcome exn Z :=
  match fuel with
  | O => Diverge
  | S fuel =>
      let h := Z.lor (wrapu 64 (h + 2)) 1 in
      if decide (h = RTLD_DEFAULT \/ h = RTLD_NEXT \/ is_Some (handles st !! h)) then handle_loop fuel st h else Ret h
  end.
Definition generate_handle (i : nat) (st : state) : outcome exn state :=
  l ← get st i;
  if decide (handle l <> 0) then Throw (runtime_error "CHECK failed: handle_ == 0")
  else
    h ← handle_loop (2 + size (handles st)) st 0;
    let st := put_library i (set_handle h l) st in
    Ret (mkState (loaded st) (ns st) (solist st) (<[h := i]> (handles st)) (calls st)).

(** ** New libraries *)
Section NewLibraries.
(** [PATH_MAX], which the build and the system headers define differently. *)
Context (PATH_MAX : nat).
(** [soinfo_alloc], for a fresh number; [solist_add_soinfo] does nothing before there is a first library. *)
Definition soinfo_alloc (i : nat) (name : bytes) (l : library) (st : state) : outcome exn state :=
  if decide (PATH_MAX <= length name)%nat then Throw (runtime_error "library name too long")
  else
    let st := put_library i l st in
    let st := mkState (loaded st) (ns st) (match solist st with [] => [] | s => s ++ [i] end) (handles st) (calls st) in
    st ← generate_handle i st;
    Ret (mkState (loaded st) (ns st ++ [i]) (solist st) (handles st) (calls st)).
Definition basename_of (name : bytes) : bytes := match rfind_char LinkerUtils.slash name with Some p => drop (S p) name | None => name end.
(** [soinfo::load_library]: linked, its constructors called, the root of its own group, with no reference. *)
Definition launcher_library (i : nat) (name : bytes) (syms : list (bytes * Z)) : library :=
  mkLibrary (LinkerSymbols.load_library syms) (Some (basename_of name)) [] [] true 0 0 i true 0 0 0 [] 0 [] 0 false 0.
Definition load_library (i : nat) (name : bytes) (syms : list (bytes * Z)) (st : state) : outcome exn (Z * state) :=
  st ← soinfo_alloc i (basename_of name) (launcher_library i name syms) st;
  l ← get st i;
  Ret (handle l, st).
(** [solist_init]: the linker is the first library of the list.  [linker_main] is added a second time, which makes it
    its own successor until the next library follows it. *)
Definition solist_init : outcome exn state :=
  r ← load_library 0 (lit "linker.so") [] (mkState ∅ [] [] ∅ []);
  let st := mkState (loaded (snd r)) (ns (snd r)) [0%nat] (handles (snd r)) (calls (snd r)) in
  r ← load_library 1 (lit "linker_main") [] st;
  Ret (snd r).
(** [linker::init] *)
Definition init (dl_symbols : list (bytes * Z)) : outcome exn (Z * state) :=
  st ← solist_init;
  load_library 2 (lit "libdl.so") dl_symbols st.

(** ** [dlopen] *)
(** A file as the linker reads it: what [open_library], [ElfReader] and the dynamic section say of it. *)
Record file := mkFile { f_realpath : bytes; f_id : Z; f_soname : option bytes; f_needed : list bytes; f_tables : soinfo; f_flags_1 : Z;
  f_readable : bool; f_loadable : bool; f_prelinks : bool; f_init_func : Z; f_init_array : list Z; f_fini_func : Z; f_fini_array : list Z }.
Definition DF_1_GLOBAL : Z := 2.
Definition DF_1_NODELETE : Z := 8.
Definition RTLD_NOLOAD : Z := 4.
(** [set_dt_flags_1] *)
Definition set_dt_flags_1 (dt : Z) (l : library) : library :=
  let r := rtld_flags l in
  let r := if decide (Z.land dt DF_1_GLOBAL <> 0) then Z.lor r RTLD_GLOBAL else r in
  let r := if decide (Z.land dt DF_1_NODELETE <> 0) then Z.lor r RTLD_NODELETE else r in
  set_flags r dt l.
Record LoadTask := mkTask { t_name : bytes; t_needed_by : option nat; t_soinfo : nat; t_file : option file }.
Section Dlopen.
(** The files that the search paths find, the outcome of relocating a library, whether it looks into itself first, the target version, and numbers for new libraries. *)
Context (open_library : option nat -> bytes -> option file) (relocate : soinfo -> SymbolLookupList -> bool) (has_DT_SYMBOLIC : soinfo -> bool) (sdk : Z) (tracing : bool).
Definition fresh_library (st : state) : nat := fresh (dom (loaded st)).
(** The first library of the namespace for which the predicate holds. *)
Fixpoint find_if (P : library -> bool) (ls : list nat) (st : state) : outcome exn (option nat) :=
  match ls with [] => Ret None | i :: ls => l ← get st i; if P l then Ret (Some i) else find_if P ls st end.
Definition find_loaded_library_by_soname (name : bytes) (st : state) : outcome exn (option nat) :=
  if decide (LinkerUtils.slash ∈ name) then Ret None else find_if (fun l => bool_decide (lib_soname l = Some name)) (ns st) st.
Definition find_loaded_library_by_inode (id : Z) (st : state) : outcome exn (option nat) :=
  if decide (id = 0) then Ret None else find_if (fun l => bool_decide (file_id l = id)) (ns st) st.
Definition new_library (f : file) (flags : Z) : library :=
  mkLibrary (f_tables f) (f_soname f) [] [] false flags 0 0 false 0 0 (f_init_func f) (f_init_array f) (f_fini_func f) (f_fini_array f) 0 false (f_id f).
(** A library that is already loaded, or a new one with the names it needs; [None] is a failure. *)
Inductive found := Known (i : nat) | New (i : nat) (f : file).
(** [load_library] of a file: the default namespace is not isolated, so every path is accessible. *)
Definition load_file (needed_by : option nat) (name : bytes) (flags : Z) (st : state) : outcome exn (option found * state) :=
  match open_library needed_by name with
  | None => Ret (None, st)
  | Some f =>
      c ← find_loaded_library_by_inode (f_id f) st;
      match c with
      | Some i => Ret (Some (Known i), st)
      | None =>
          if decide (Z.land flags RTLD_NOLOAD <> 0) then Ret (None, st)
          else
            let i := fresh_library st in
            st ← soinfo_alloc i (f_realpath f) (new_library f flags) st;
            if f_readable f then Ret (Some (New i f), st) else st ← soinfo_free i st; Ret (None, st)
      end
  end.
(** The default namespace has no greylist and no linked namespace. *)
Definition find_library_internal (needed_by : option nat) (name : bytes) (flags : Z) (st : state) : outcome exn (option found * state) :=
  c ← find_loaded_library_by_soname name st;
  match c with Some i => Ret (Some (Known i), st) | None => load_file needed_by name flags st end.
(** Step 1: the tasks that are done, and the names that wait with the libraries that need them. *)
Fixpoint expand (fuel : nat) (start_with : option nat) (flags : Z) (pending : list (bytes * option nat)) (done : list LoadTask) (st : state) : outcome exn (bool * list LoadTask * state) :=
  match fuel with
  | O => Diverge
  | S fuel =>
      match pending with
      | [] => Ret (true, done, st)
      | (name, needed_by) :: pending =>
          r ← find_library_internal needed_by name flags st;
          match r with
          | (None, st) => Ret (false, done, st)
          | (Some f, st) =>
              let '(i, needed, file) := match f with Known i => (i, [], None) | New i f => (i, (fun n => (n, Some i)) <$> f_needed f, Some f) end in
              st ← (match needed_by with Some p => if decide (needed_by <> start_with) then add_child p i st else Ret st | None => Ret st end);
              expand fuel start_with flags (pending ++ needed) (done ++ [mkTask name needed_by i file]) st
          end
      end
  end.
(** Step 2, for the libraries that are new; the hooks are for the library that is opened. *)
Definition add_hooks (hooks : list (bytes * Z)) (t : soinfo) : soinfo :=
  mkSoinfo (foldl (fun m h => <[fst h := custom_sym (wrapu 64 (snd h - load_bias t))]> m) (symbols t) hooks)
    (gnu t) (sysv t) (symtab t) (strtab t) (versym t) (verdefs t) (load_bias t).
Fixpoint load_list (tasks : list LoadTask) (seen : list nat) (st : state) : outcome exn (list LoadTask) :=
  match tasks with
  | [] => Ret []
  | t :: tasks =>
      l ← get st (t_soinfo t);
      if decide (linked l = false /\ t_soinfo t ∉ seen) then ts ← load_list tasks (seen ++ [t_soinfo t]) st; Ret (t :: ts) else load_list tasks seen st
  end.
Definition load_task (hooks : list (bytes * Z)) (start_with : option nat) (t : LoadTask) (st : state) : outcome exn (bool * state) :=
  match t_file t with
  | None => Throw (runtime_error "CHECK failed: did_read_")
  | Some f =>
      if f_loadable f then
        l ← get st (t_soinfo t);
        Ret (true, if decide (t_needed_by t = start_with \/ t_needed_by t = None) then put_library (t_soinfo t) (set_tables (add_hooks hooks (tables l)) l) st else st)
      else Ret (false, st)
  end.
(** Step 3. *)
Definition prelink_task (t : LoadTask) (st : state) : outcome exn (bool * state) :=
  match t_file t with
  | None => Ret (true, st)
  | Some f => if f_prelinks f then l ← get st (t_soinfo t); Ret (true, put_library (t_soinfo t) (set_dt_flags_1 (f_flags_1 f) l) st) else Ret (false, st)
  end.
Fixpoint each {A} (f : A -> state -> outcome exn (bool * state)) (l : list A) (st : state) : outcome exn (bool * state) :=
  match l with
  | [] => Ret (true, st)
  | x :: l => r ← f x st; if (fst r : bool) then each f l (snd r) else Ret r
  end.
(** Step 6: [link_image] for the libraries of the group that are not linked; the list of lookups is changed in place. *)
Definition link_image (root : nat) (lookup : SymbolLookupList) (i : nat) (st : state) : outcome exn (bool * state) :=
  l ← get st i;
  if image_linked l then Ret (true, st)
  else
    let l := set_image root (if decide (i = root) then sdk else target_sdk_version l) l in
    if relocate (tables l) lookup then Ret (true, put_library i l st)
    else Ret (false, put_library i (mkLibrary (tables l) (lib_soname l) (children l) (parents l) (linked l) (rtld_flags l) (ref_count l) (local_group_root l) (constructors_called l)
      (target_sdk_version l) (handle l) (init_func l) (init_array l) (fini_func l) (fini_array l) (dt_flags_1 l) false (file_id l)) st).
Fixpoint link_loop (root : nat) (lookup : SymbolLookupList) (is_ : list nat) (st : state) : outcome exn (bool * state) :=
  match is_ with
  | [] => Ret (true, st)
  | i :: is_ =>
      l ← get st i;
      if linked l then link_loop root lookup is_ st
      else
        lookup ← set_dt_symbolic_lib (if has_DT_SYMBOLIC (tables l) then Some (tables l) else None) lookup;
        r ← link_image root lookup i st;
        if (fst r : bool) then link_loop root lookup is_ (snd r) else Ret r
  end.
Fixpoint all_tables (is_ : list nat) (st : state) : outcome exn (list soinfo) :=
  match is_ with [] => Ret [] | i :: is_ => l ← get st i; ts ← all_tables is_ st; Ret (tables l :: ts) end.
Fixpoint get_global_group (is_ : list nat) (st : state) : outcome exn (list nat) :=
  match is_ with
  | [] => Ret []
  | i :: is_ => l ← get st i; g ← get_global_group is_ st; Ret (if decide (Z.land (dt_flags_1 l) DF_1_GLOBAL <> 0) then i :: g else g)
  end.
Definition link_group (root : nat) (st : state) : outcome exn (bool * state) :=
  w ← walk_dependencies_tree st (fun _ _ => Ret (kWalkContinue, tt)) root tt;
  let local_group := snd (fst w) in
  g ← get_global_group (ns st) st;
  global_tables ← all_tables g st;
  local_tables ← all_tables local_group st;
  link_loop root (group_list tracing global_tables local_tables) local_group st.
(** Step 7: every library of a task is linked; a link between groups is a reference. *)
Definition mark_linked (st : state) (t : LoadTask) : outcome exn state := l ← get st (t_soinfo t); Ret (put_library (t_soinfo t) (set_linked l) st).
Definition increment_ref_count (i : nat) (st : state) : outcome exn state :=
  l ← get st i; r ← get st (local_group_root l); Ret (put_library (local_group_root l) (set_count (wrapu 64 (ref_count r + 1)) r) st).
Definition count_reference (start_with : option nat) (st : state) (t : LoadTask) : outcome exn state :=
  match t_needed_by t with
  | None => Ret st
  | Some p =>
      if decide (t_needed_by t = start_with) then Ret st
      else
        l ← get st (t_soinfo t);
        n ← get st p;
        if decide (local_group_root n = local_group_root l) then Ret st else increment_ref_count (t_soinfo t) st
  end.
Fixpoint over {A} (f : state -> A -> outcome exn state) (l : list A) (st : state) : outcome exn state :=
  match l with [] => Ret st | x :: l => st ← f st x; over f l st end.
(** [find_libraries] for one name, not as a child of the caller: success, and the library of the name. *)
Definition find_libraries (fuel : nat) (start_with : option nat) (name : bytes) (flags : Z) (hooks : list (bytes * Z)) (st : state) : outcome exn (bool * option nat * state) :=
  e ← expand fuel start_with flags [(name, start_with)] [] st;
  let '(ok, tasks, st) := e in
  let si := t_soinfo <$> head tasks in
  if negb ok then Ret (false, si, st)
  else
    ts ← load_list tasks [] st;
    r ← each (load_task hooks start_with) ts st;
    if negb (fst r) then Ret (false, si, snd r)
    else
      r ← each prelink_task ts (snd r);
      if negb (fst r) then Ret (false, si, snd r)
      else
        match si with
        | None => Throw (runtime_error "CHECK failed: soinfos_count == 1")
        | Some root =>
            r ← link_group root (snd r);
            if negb (fst r) then Ret (false, si, snd r)
            else st ← over mark_linked tasks (snd r); st ← over (count_reference start_with) tasks st; Ret (true, si, st)
        end.
Definition find_library (fuel : nat) (caller : option nat) (name : option bytes) (flags : Z) (hooks : list (bytes * Z)) (st : state) : outcome exn (option nat * state) :=
  match name with
  | None => Undef
  | Some name =>
      r ← find_libraries fuel caller name flags hooks st;
      match r with
      | (true, Some si, st) => st ← increment_ref_count si st; Ret (Some si, st)
      | (true, None, _) => Undef
      | (false, Some si, st) => st ← soinfo_unload (S (size (loaded st))) si st; Ret (None, st)
      | (false, None, st) => Ret (None, st)
      end
  end.
(** RTLD_LAZY, RTLD_NOW, RTLD_NOLOAD, RTLD_GLOBAL and RTLD_NODELETE. *)
Definition valid_flags : Z := Z.lor 1 (Z.lor 2 (Z.lor RTLD_NOLOAD (Z.lor RTLD_GLOBAL RTLD_NODELETE))).
(** [do_dlopen]: the handle, or null. *)
Definition do_dlopen (fuel : nat) (caller : option nat) (name : option bytes) (flags : Z) (hooks : list (bytes * Z)) (st : state) : outcome exn (option Z * state) :=
  if decide (Z.land flags (Z.lnot valid_flags) <> 0) then Ret (None, st)
  else
    r ← find_library fuel caller name flags hooks st;
    match r with
    | (None, st) => Ret (None, st)
    | (Some si, st) => l ← get st si; st ← call_constructors (S (size (loaded st))) si st; Ret (Some (handle l), st)
    end.
End Dlopen.
End NewLibraries.

End LinkerGroups.
