(* ===== verification/LinkerWalk.v ===== *)
(** * The walk of dependencies and what rests on it (mcpelauncher-linker/bionic/linker)

    Theorems on [walk_dependencies_tree], [dlsym] and [call_constructors] of LinkerGroups: the walk
    ends and sees every reachable library once, [dlsym] answers from the first library of the walk,
    constructors run once and after those of the libraries they need. *)

From S2P Require Import Prelude CxxString LinkerUtils LinkerSymbols LinkerGroups.
From Stdlib Require Import ZArith Ascii Lia.
From stdpp Require Import base list strings numbers gmap.

Open Scope Z_scope.

Module LinkerWalk.
Import LinkerSymbols LinkerGroups.

(** ** Libraries and their dependencies *)
Definition live (st : state) : Prop := forall i l, loaded st !! i = Some l -> forall c, c ∈ children l -> is_Some (loaded st !! c).
Definition needs (st : state) (i c : nat) : Prop := exists l, loaded st !! i = Some l /\ c ∈ children l.
Inductive reaches (st : state) : nat -> nat -> Prop :=
  | reaches_refl i : reaches st i i
  | reaches_step i j k : reaches st i j -> needs st j k -> reaches st i k.

Lemma get_ret st i l : loaded st !! i = Some l -> get st i = Ret l.
Proof. unfold get. by intros ->. Qed.

Lemma fold_same {V B} (f g : nat -> V -> B -> B) (b : B) (m : gmap nat V) : (forall i l x, m !! i = Some l -> f i l x = g i l x) -> map_fold f b m = map_fold g b m.
Proof.
  intros H. rewrite !map_fold_foldr. assert (forall i l x, (i, l) ∈ map_to_list m -> f i l x = g i l x) as H' by (intros i l x Hin; apply H; by apply elem_of_map_to_list).
  induction (map_to_list m) as [|[i l] r IH]; [done|]. cbn. rewrite IH by (intros; apply H'; by right). apply H'. by left.
Qed.

(** The dependencies of the libraries that the walk has not seen. *)
Definition unseen_edges (m : gmap nat library) (visited : list nat) : nat :=
  map_fold (fun i l n => (if decide (i ∈ visited) then 0 else length (children l)) + n)%nat 0%nat m.
Lemma unseen_nil m : unseen_edges m [] = edges m.
Proof. done. Qed.
Lemma unseen_visit m visited i l : m !! i = Some l -> i ∉ visited ->
  unseen_edges m visited = (length (children l) + unseen_edges m (visited ++ [i]))%nat.
Proof.
  intros Hi Hv. unfold unseen_edges.
  rewrite (map_fold_delete_L (fun i l n => (if decide (i ∈ visited) then 0 else length (children l)) + n)%nat 0%nat i l m) by (done || intros; lia).
  rewrite (map_fold_delete_L (fun j l n => (if decide (j ∈ visited ++ [i]) then 0 else length (children l)) + n)%nat 0%nat i l m) by (done || intros; lia).
  rewrite (decide_False (P := i ∈ visited)) by done. rewrite (decide_True (P := i ∈ visited ++ [i])) by (apply elem_of_app; right; by apply list_elem_of_singleton).
  cbn. f_equal. apply fold_same. intros j x n Hj. assert (j <> i) by (intros ->; by rewrite lookup_delete_eq in Hj).
  f_equal. destruct (decide (j ∈ visited)) as [Hin|Hin], (decide (j ∈ visited ++ [i])) as [Hin'|Hin']; try done.
  - destruct Hin'. apply elem_of_app. by left.
  - apply elem_of_app in Hin' as [?|?%list_elem_of_singleton]; done.
Qed.

(** ** A walk that never stops *)
Section Collect.
Context (st : state) (Hlive : live st).
Definition go_on (a : unit) (i : nat) : outcome exn (walk_action_result * unit) := Ret (kWalkContinue, tt).
(** What the walk has seen is closed under dependencies, up to what waits. *)
Definition closed_up_to (visit_list visited : list nat) : Prop := forall i c, i ∈ visited -> needs st i c -> c ∈ visited ∨ c ∈ visit_list.
Lemma walk_collects fuel : forall visit_list visited, NoDup visited -> Forall (fun i => is_Some (loaded st !! i)) visit_list ->
  (length visit_list + unseen_edges (loaded st) visited < fuel)%nat -> closed_up_to visit_list visited ->
  exists all, walk_loop st go_on fuel visit_list visited tt = Ret (true, all, tt) /\ NoDup all /\ visited `prefix_of` all /\
    (forall i, i ∈ visit_list -> i ∈ all) /\ closed_up_to [] all /\
    (forall j, j ∈ all -> j ∈ visited ∨ exists i, i ∈ visit_list /\ reaches st i j).
Proof.
  induction fuel as [|fuel IH]; intros visit_list visited Hnd Hl Hf Hc; [lia|]. destruct visit_list as [|i rest]; cbn [walk_loop].
  { exists visited. split_and!; auto; [intros i Hi; by apply not_elem_of_nil in Hi]. }
  apply Forall_cons_1 in Hl as [[l Hi] Hl]. cbn [length] in Hf. destruct (decide (i ∈ visited)) as [Hin|Hin].
  - destruct (IH rest visited) as (all & E & Hnda & Hp & Hall & Hca & Hr); auto; [lia| |].
    { intros j c Hj Hn. destruct (Hc j c Hj Hn) as [|[->|]%elem_of_cons]; auto. }
    exists all. split_and!; auto.
    + intros j [->|Hj]%elem_of_cons; [|auto]. destruct Hp as [k ->]. apply elem_of_app. by left.
    + intros j Hj. destruct (Hr j Hj) as [|(k & Hk & ?)]; [by left|right]. exists k. split; [by right|done].
  - unfold go_on at 1. cbn [mbind outcome_bind fst snd]. rewrite (get_ret _ _ _ Hi). cbn [mbind outcome_bind].
    pose proof (unseen_visit (loaded st) visited i l Hi Hin).
    destruct (IH (rest ++ children l) (visited ++ [i])) as (all & E & Hnda & Hp & Hall & Hca & Hr).
    + apply NoDup_app. split_and!; [done| |apply NoDup_singleton]. intros j Hj ->%list_elem_of_singleton. done.
    + apply Forall_app. split; [done|]. apply Forall_forall. intros c Hcc. eauto.
    + rewrite length_app. lia.
    + intros j c [Hj|Hj%list_elem_of_singleton]%elem_of_app Hn.
      * destruct (Hc j c Hj Hn) as [Hv|[->|Hv]%elem_of_cons]; [left; apply elem_of_app; by left|left; apply elem_of_app; right; by apply list_elem_of_singleton|].
        right. apply elem_of_app. by left.
      * subst j. destruct Hn as (l' & Hl' & Hcl). rewrite Hi in Hl'. injection Hl' as <-. right. apply elem_of_app. by right.
    + exists all. split_and!; auto.
      * etrans; [|exact Hp]. by apply prefix_app_r.
      * intros j [->|Hj]%elem_of_cons; [|apply Hall, elem_of_app; by left]. destruct Hp as [k ->]. apply elem_of_app. left. apply elem_of_app. right. by apply list_elem_of_singleton.
      * intros j Hj. destruct (Hr j Hj) as [[Hv|Hv%list_elem_of_singleton]%elem_of_app|(k & [Hk|Hk]%elem_of_app & Hreach)]; [by left| | |].
        -- subst j. right. exists i. split; [by left|constructor].
        -- right. exists k. split; [by right|done].
        -- right. exists i. split; [by left|]. assert (needs st i k) as Hik by (by exists l).
           clear -Hreach Hik. induction Hreach; [eapply reaches_step; [constructor|done]|]. eapply reaches_step; eauto.
Qed.
End Collect.

Lemma walk_prefix st fuel : forall visit_list visited all b, walk_loop st go_on fuel visit_list visited tt = Ret (b, all, tt) -> visited `prefix_of` all.
Proof.
  induction fuel as [|fuel IH]; intros visit_list visited all b; [done|]. destruct visit_list as [|i rest]; cbn [walk_loop].
  { by intros [= _ <-]. }
  destruct (decide (i ∈ visited)); [apply IH|]. cbn [go_on mbind outcome_bind fst snd]. unfold get. destruct (loaded st !! i); [|done].
  cbn [mbind outcome_bind]. intros E%IH. etrans; [|exact E]. by apply prefix_app_r.
Qed.

(** The walk ends with the libraries [all]. *)
Definition walked (st : state) (root : nat) (all : list nat) : Prop := walk_dependencies_tree st go_on root tt = Ret (true, all, tt).

Lemma walk_all (st : state) (root : nat) : live st -> is_Some (loaded st !! root) ->
  exists all, walked st root all /\ NoDup all /\ head all = Some root /\ forall j, j ∈ all <-> reaches st root j.
Proof.
  intros Hlive Hroot. unfold walked, walk_dependencies_tree.
  destruct (walk_collects st Hlive (2 + edges (loaded st)) [root] []) as (all & E & Hnd & _ & Hin & Hc & Hr).
  - constructor.
  - by constructor.
  - rewrite unseen_nil. cbn. lia.
  - intros i c Hi. by apply not_elem_of_nil in Hi.
  - exists all. split_and!; [done|done| |].
    + revert E. change (2 + edges (loaded st))%nat with (S (S (edges (loaded st)))). generalize (S (edges (loaded st))). intros f. cbn [walk_loop]. rewrite decide_False by apply not_elem_of_nil.
      destruct Hroot as [l Hl]. cbn [go_on mbind outcome_bind fst snd]. rewrite (get_ret _ _ _ Hl). cbn [mbind outcome_bind app]. intros E%walk_prefix.
      by destruct E as [k ->].
    + intros j. split.
      * intros Hj. destruct (Hr j Hj) as [H|(i & ->%list_elem_of_singleton & H)]; [by apply not_elem_of_nil in H|done].
      * induction 1 as [i|i j k Hij IH Hn]; [by apply Hin, list_elem_of_singleton|]. destruct (Hc j k) as [|H]; [by apply IH|done|done|by apply not_elem_of_nil in H].
Qed.
(** ** Breadth first *)
Section BreadthFirst.
Context (st : state).
Definition kids (i : nat) : list nat := match loaded st !! i with Some l => children l | None => [] end.
(** The libraries of [ls] that are not among [seen], each once, where it comes first. *)
Fixpoint newcomers (seen ls : list nat) : list nat :=
  match ls with [] => [] | i :: ls => if decide (i ∈ seen) then newcomers seen ls else i :: newcomers (seen ++ [i]) ls end.
(** Level by level: the libraries of [frontier] that were not seen, then those that they need, down to [n] levels. *)
Fixpoint levels (n : nat) (seen frontier : list nat) : list nat :=
  match n with
  | O => []
  | S n => let level := newcomers seen frontier in level ++ levels n (seen ++ level) (level ≫= kids)
  end.
(** All levels below [root], however many there are. *)
Definition breadth_first (root : nat) (all : list nat) : Prop := exists depth, forall n, (depth <= n)%nat -> levels n [] [root] = all.
Lemma breadth_first_unique root all all' : breadth_first root all -> breadth_first root all' -> all = all'.
Proof. intros [d H] [d' H']. rewrite <- (H (max d d')), <- (H' (max d d')) by lia. done. Qed.
Lemma levels_nil n : forall seen, levels n seen [] = [].
Proof. induction n as [|n IH]; intros seen; [done|]. cbn. apply IH. Qed.
(** The walk, in the middle of a level: [rest] of the level waits before [next], what its start needs. *)
Lemma walk_levels fuel : forall rest next visited all, walk_loop st go_on fuel (rest ++ next) visited tt = Ret (true, all, tt) ->
  exists depth, forall n, (depth <= n)%nat -> all = visited ++ newcomers visited rest ++ levels n (visited ++ newcomers visited rest) (next ++ (newcomers visited rest ≫= kids)).
Proof.
  induction fuel as [|fuel IH]; [done|].
  assert (forall i rest next visited all, walk_loop st go_on (S fuel) ((i :: rest) ++ next) visited tt = Ret (true, all, tt) ->
    exists depth, forall n, (depth <= n)%nat -> all = visited ++ newcomers visited (i :: rest) ++ levels n (visited ++ newcomers visited (i :: rest)) (next ++ (newcomers visited (i :: rest) ≫= kids))) as Hcons.
  { intros i rest next visited all. cbn [walk_loop newcomers app]. destruct (decide (i ∈ visited)) as [|Hvis]; [apply IH|]. cbn [go_on mbind outcome_bind fst snd]. unfold get. destruct (loaded st !! i) as [l|] eqn:Hi; [|done].
    cbn [mbind outcome_bind]. rewrite <- app_assoc. intros E. destruct (IH _ _ _ _ E) as [d Hd]. exists d. intros n Hn. rewrite (Hd n Hn) at 1. rewrite <- !app_assoc. cbn [app].
    assert (kids i = children l) as Hk by (unfold kids; by rewrite Hi). change (list_bind nat nat kids (i :: newcomers (visited ++ [i]) rest)) with (kids i ++ (newcomers (visited ++ [i]) rest ≫= kids)). by rewrite Hk. }
  intros [|i rest] next visited all E; [|by apply Hcons]. cbn [app newcomers] in *. destruct next as [|i next].
  - injection E as <-. exists 0%nat. intros n _. cbn. by rewrite levels_nil, app_nil_r.
  - rewrite <- (app_nil_r (i :: next)) in E. destruct (Hcons _ _ _ _ _ E) as [d Hd]. exists (S d). intros [|n] Hn; [lia|]. rewrite app_nil_r. cbn [levels]. cbn zeta. rewrite (Hd n) at 1 by lia. cbn [mbind list_bind app]. by rewrite app_nil_r.
Qed.
Lemma walked_breadth_first root all : walked st root all -> breadth_first root all.
Proof.
  intros E. unfold walked, walk_dependencies_tree in E. change [root] with ([] ++ [root]) in E. destruct (walk_levels _ [] [root] [] all E) as [d Hd]. exists d. intros n Hn. by rewrite (Hd n Hn).
Qed.
Lemma breadth_first_walked root all : live st -> is_Some (loaded st !! root) -> breadth_first root all -> walked st root all.
Proof. intros Hlive Hr Hb. destruct (walk_all st root Hlive Hr) as (all' & E & _). by rewrite (breadth_first_unique root all all' Hb (walked_breadth_first root all' E)). Qed.
End BreadthFirst.
(** The walk of the dependencies of a library ends, also when they are cyclic, and sees every library that can be
    reached exactly once, level by level, the library itself first. *)
Theorem walk_sees_reachable (st : state) (root : nat) : live st -> is_Some (loaded st !! root) ->
  exists all, walked st root all /\ breadth_first st root all /\ NoDup all /\ head all = Some root /\ forall j, j ∈ all <-> reaches st root j.
Proof. intros Hl Hr. destruct (walk_all st root Hl Hr) as (all & E & ?). exists all. split; [done|]. split; [by apply walked_breadth_first|done]. Qed.

(** ** [dlsym] *)
Section Lookup.
Context (st : state) (name : bytes) (vi : option version_info) (answer : nat -> option Sym).
Context (Hanswer : forall i l, loaded st !! i = Some l -> find_symbol_by_name (tables l) name vi = Ret (answer i)).
Fixpoint first_answer (ls : list nat) : option (nat * Sym) :=
  match ls with [] => None | i :: ls => match answer i with Some s => Some (i, s) | None => first_answer ls end end.
(** The libraries behind the one to skip until. *)
Definition searched (skip : bool) (skip_until : option nat) (ls : list nat) : list nat :=
  if skip then match skip_until with Some c => default [] (after c ls) | None => [] end else ls.
Lemma lookup_lockstep skip_until fuel : forall visit_list visited skip rest,
  walk_loop st go_on fuel visit_list visited tt = Ret (true, visited ++ rest, tt) ->
  exists b v k, walk_loop st (lookup_action st skip_until name vi) fuel visit_list visited (skip, None) = Ret (b, v, (k, first_answer (searched skip skip_until rest))).
Proof.
  induction fuel as [|fuel IH]; intros visit_list visited skip rest; [done|]. destruct visit_list as [|i pending]; cbn [walk_loop].
  { intros [= E]. rewrite <- (app_nil_r visited) in E at 1. apply app_inv_head in E as <-. exists true, visited, skip. do 3 f_equal. by destruct skip, skip_until. }
  destruct (decide (i ∈ visited)); [apply IH|]. cbn [go_on mbind outcome_bind fst snd]. destruct (loaded st !! i) as [l|] eqn:Hi; [|unfold get; by rewrite Hi].
  rewrite (get_ret _ _ _ Hi). cbn [mbind outcome_bind]. intros E. destruct (walk_prefix _ _ _ _ _ _ E) as [rest2 E2].
  rewrite E2 in E. rewrite <- app_assoc in E2. apply app_inv_head in E2 as ->. cbn [app]. destruct skip.
  - change (lookup_action st skip_until name vi (true, None) i) with (Ret (E := exn) (kWalkContinue, (bool_decide (Some i <> skip_until), @None (nat * Sym)))).
    cbn [mbind outcome_bind fst snd]. destruct (IH _ _ (bool_decide (Some i <> skip_until)) _ E) as (b & v & k & ->). exists b, v, k. do 4 f_equal.
    unfold searched. destruct skip_until as [c|]; [|by rewrite bool_decide_eq_true_2]. cbn [after]. destruct (decide (i = c)) as [->|].
    + by rewrite bool_decide_eq_false_2 by tauto.
    + by rewrite bool_decide_eq_true_2 by congruence.
  - assert (lookup_action st skip_until name vi (false, None) i = Ret (match answer i with Some s => (kWalkStop, (false, Some (i, s))) | None => (kWalkContinue, (false, None)) end)) as ->
      by (unfold lookup_action; cbn [fst snd]; rewrite (get_ret _ _ _ Hi); cbn [mbind outcome_bind]; by rewrite (Hanswer _ _ Hi)).
    cbn [mbind outcome_bind searched first_answer].
    destruct (answer i) as [s|]; cbn [fst snd]; [by eexists _, _, _|]. exact (IH _ _ false _ E).
Qed.
(** The answer of a handle is that of the first library that has one, in the order of the walk. *)
Lemma handle_lookup_walk root skip_until all : walked st root all ->
  dlsym_handle_lookup_impl st root skip_until name vi = Ret (first_answer (searched (bool_decide (skip_until <> None)) skip_until all)).
Proof.
  intros E. unfold dlsym_handle_lookup_impl, walk_dependencies_tree. destruct (lookup_lockstep skip_until _ [root] [] (bool_decide (skip_until <> None)) all E) as (b & v & k & ->). done.
Qed.
(** A library that a search without a handle sees. *)
Definition sdk_of (l : library) : Z := match loaded st !! local_group_root l with Some r => target_sdk_version r | None => 0 end.
Definition seen_globally (i : nat) : bool :=
  match loaded st !! i with Some l => negb (bool_decide (Z.land (rtld_flags l) RTLD_GLOBAL = 0) && bool_decide (23 <= sdk_of l)) | None => false end.
Definition rooted : Prop := forall i l, loaded st !! i = Some l -> is_Some (loaded st !! local_group_root l).
Lemma linear_loop_first ls : rooted -> Forall (fun i => is_Some (loaded st !! i)) ls -> linear_loop st name vi ls = Ret (first_answer (filter (fun i => seen_globally i = true) ls)).
Proof.
  intros Hroot. induction 1 as [|i ls [l Hi] Hls IH]; [done|]. cbn [linear_loop]. rewrite (get_ret _ _ _ Hi). cbn [mbind outcome_bind]. rewrite filter_cons, (Hanswer _ _ Hi), IH.
  assert (seen_globally i = negb (bool_decide (Z.land (rtld_flags l) RTLD_GLOBAL = 0) && bool_decide (23 <= sdk_of l))) as -> by (unfold seen_globally; by rewrite Hi).
  destruct (Hroot i l Hi) as [r Hr]. unfold get_target_sdk_version, sdk_of. rewrite (get_ret _ _ _ Hr), Hr. cbn [mbind outcome_bind].
  destruct (decide (Z.land (rtld_flags l) RTLD_GLOBAL = 0)) as [Hg|Hg]; cbn [mbind outcome_bind].
  - rewrite (bool_decide_eq_true_2 (Z.land _ _ = 0)) by done. destruct (bool_decide (23 <= target_sdk_version r)); cbn [negb andb mbind outcome_bind]; [by rewrite decide_False|]. rewrite decide_True by done. cbn. by destruct (answer i).
  - rewrite (bool_decide_eq_false_2 (Z.land _ _ = 0)) by done. cbn [negb andb mbind outcome_bind]. rewrite decide_True by done. cbn. by destruct (answer i).
Qed.
Lemma first_answer_app a b : first_answer (a ++ b) = match first_answer a with Some r => Some r | None => first_answer b end.
Proof. induction a as [|i a IH]; [done|]. cbn. by destruct (answer i). Qed.
(** What [dlsym] makes of the symbol it finds. *)
Definition resolved (resolver : Z -> Z) (r : option (nat * Sym)) : option Z :=
  match r with
  | Some (i, s) =>
      l ← loaded st !! i;
      if is_symbol_global_and_defined s && bool_decide (ELF_ST_TYPE (st_info s) <> STT_TLS) then Some (resolve_symbol_address resolver l s) else None
  | None => None
  end.
Section Dlsym.
Context (resolver : Z -> Z) (sym_ver : option bytes) (Hvi : vi = (fun v => mkVersion (calculate_elf_hash v) v) <$> sym_ver) (Hlive : live st) (Hroot : rooted) (Hns : forall i, i ∈ ns st -> is_Some (loaded st !! i)).
Lemma answers_loaded ls i s : first_answer ls = Some (i, s) -> i ∈ ls.
Proof. induction ls as [|j ls IH]; [done|]. cbn. destruct (answer j); [intros [= <- _]; by left|]. intros H. right. auto. Qed.
Lemma walked_live root all : walked st root all -> is_Some (loaded st !! root) -> forall i, i ∈ all -> is_Some (loaded st !! i).
Proof.
  intros E [l Hl]. destruct (walk_all st root Hlive) as (all' & E' & _ & _ & Hr); [by eexists|]. unfold walked in *. rewrite E in E'. injection E' as <-. intros i Hi%Hr.
  inversion Hi as [|? j ? _ (lj & Hj & Hc)]; subst; [by eexists|by eapply Hlive].
Qed.
(** The last part of [do_dlsym]. *)
Lemma answer_resolved (r : option (nat * Sym)) : (forall i s, r = Some (i, s) -> is_Some (loaded st !! i)) ->
  match r with
  | None => Ret None
  | Some (found, sym) =>
      let bind := ELF_ST_BIND (st_info sym) in
      if decide ((bind = STB_GLOBAL \/ bind = STB_WEAK) /\ st_shndx sym <> 0) then
        if decide (ELF_ST_TYPE (st_info sym) = STT_TLS) then Ret None
        else l ← get st found; Ret (Some (resolve_symbol_address resolver l sym))
      else Ret None
  end = Ret (resolved resolver r) :> outcome exn (option Z).
Proof.
  destruct r as [[i s]|]; [|done]. intros H. destruct (H i s eq_refl) as [l Hl]. cbn zeta. cbn [resolved]. rewrite Hl. cbn [mbind option_bind]. unfold is_symbol_global_and_defined.
  destruct (decide (ELF_ST_BIND (st_info s) = STB_GLOBAL \/ ELF_ST_BIND (st_info s) = STB_WEAK)) as [Hb|Hb]; [|by rewrite decide_False by tauto].
  destruct (decide (st_shndx s <> 0)) as [Hs|Hs]; [rewrite decide_True by done; rewrite (bool_decide_eq_true_2 (st_shndx s <> SHN_UNDEF)) by done|rewrite decide_False by tauto; by rewrite (bool_decide_eq_false_2 (st_shndx s <> SHN_UNDEF))].
  destruct (decide (ELF_ST_TYPE (st_info s) = STT_TLS)) as [Ht|Ht]; [by rewrite (bool_decide_eq_false_2 (ELF_ST_TYPE _ <> _)) by tauto|]. rewrite (bool_decide_eq_true_2 (ELF_ST_TYPE _ <> _)) by done. by rewrite (get_ret _ _ _ Hl).
Qed.
(** Which libraries [dlsym] searches, in order: those below the library of a handle; those that are visible
    to all and then the group of the caller; for RTLD_NEXT, of both only what comes after the caller. *)
Inductive search_order (h : Z) : option nat -> list nat -> Prop :=
  | order_handle caller i all : Z.land h 1 <> 0 -> h <> RTLD_NEXT -> handles st !! h = Some i -> breadth_first st i all -> search_order h caller all
  | order_default : h = RTLD_DEFAULT -> search_order h None (filter (fun i => seen_globally i = true) (ns st))
  | order_default_caller c l all : h = RTLD_DEFAULT -> loaded st !! c = Some l -> breadth_first st (local_group_root l) all ->
      search_order h (Some c) (filter (fun i => seen_globally i = true) (ns st) ++ all)
  | order_next c l ls all : h = RTLD_NEXT -> loaded st !! c = Some l -> after c (ns st) = Some ls -> breadth_first st (local_group_root l) all ->
      search_order h (Some c) (filter (fun i => seen_globally i = true) ls ++ default [] (after c all)).
Lemma after_in c ls rest : after c ls = Some rest -> forall i, i ∈ rest -> i ∈ ls.
Proof. induction ls as [|x ls IH]; [done|]. cbn. destruct (decide (x = c)); [intros [= ->] i ?; by right|]. intros H i Hi. right. eauto. Qed.
Lemma group_walked c l all : loaded st !! c = Some l -> breadth_first st (local_group_root l) all -> walked st (local_group_root l) all.
Proof. intros Hl. apply breadth_first_walked; eauto. Qed.
Lemma order_loaded h caller order : (forall i, handles st !! h = Some i -> is_Some (loaded st !! i)) -> search_order h caller order -> forall i, i ∈ order -> is_Some (loaded st !! i).
Proof.
  intros Hh. intros [? j all _ _ Hj E| _|c l all _ Hl E|c l ls all _ Hl Ha E] i Hi; [| |apply (group_walked c l all Hl) in E..].
  - eapply walked_live; [|eauto..]. apply breadth_first_walked; eauto.
  - apply list_elem_of_filter in Hi as [_ ?]. auto.
  - apply elem_of_app in Hi as [[_ ?]%list_elem_of_filter|Hi]; [auto|]. eapply walked_live; eauto.
  - apply elem_of_app in Hi as [[_ Hi]%list_elem_of_filter|Hi]; [apply Hns; by eapply after_in|]. destruct (after c all) as [rest|] eqn:Er; [|by apply not_elem_of_nil in Hi].
    eapply walked_live; [exact E|eauto|]. by eapply after_in.
Qed.
Lemma linear_searches c l ls skip all : loaded st !! c = Some l -> walked st (local_group_root l) all -> (forall i, i ∈ ls -> is_Some (loaded st !! i)) ->
  (r ← linear_loop st name vi ls; match r with None => l ← get st c; dlsym_handle_lookup_impl st (local_group_root l) skip name vi | Some _ => Ret r end) =
  Ret (first_answer (filter (fun i => seen_globally i = true) ls ++ searched (bool_decide (skip <> None)) skip all)).
Proof.
  intros Hl E Hls. rewrite linear_loop_first by (done || by apply Forall_forall). cbn [mbind outcome_bind]. rewrite first_answer_app. destruct (first_answer (filter _ ls)); [done|].
  rewrite (get_ret _ _ _ Hl). cbn [mbind outcome_bind]. by apply handle_lookup_walk.
Qed.
Lemma linear_default : dlsym_linear_lookup st name vi None (bool_decide (RTLD_DEFAULT = RTLD_NEXT)) = Ret (first_answer (filter (fun i => seen_globally i = true) (ns st))).
Proof. unfold dlsym_linear_lookup. rewrite bool_decide_eq_false_2 by done. rewrite linear_loop_first by (done || by apply Forall_forall). cbn [mbind outcome_bind]. by destruct (first_answer _). Qed.
Lemma linear_default_caller c l all : loaded st !! c = Some l -> walked st (local_group_root l) all ->
  dlsym_linear_lookup st name vi (Some c) (bool_decide (RTLD_DEFAULT = RTLD_NEXT)) = Ret (first_answer (filter (fun i => seen_globally i = true) (ns st) ++ all)).
Proof.
  intros Hl E. unfold dlsym_linear_lookup. rewrite bool_decide_eq_false_2 by done. pose proof (linear_searches c l (ns st) None all Hl E Hns) as Hs.
  rewrite bool_decide_eq_false_2 in Hs by tauto. cbn [searched] in Hs. rewrite <- Hs. by destruct (linear_loop st name vi (ns st)) as [[r|]| | |].
Qed.
Lemma linear_next c l ls all : loaded st !! c = Some l -> after c (ns st) = Some ls -> walked st (local_group_root l) all ->
  dlsym_linear_lookup st name vi (Some c) (bool_decide (RTLD_NEXT = RTLD_NEXT)) = Ret (first_answer (filter (fun i => seen_globally i = true) ls ++ default [] (after c all))).
Proof.
  intros Hl Ha E. unfold dlsym_linear_lookup. rewrite bool_decide_eq_true_2 by done. rewrite Ha. pose proof (linear_searches c l ls (Some c) all Hl E) as Hs.
  rewrite bool_decide_eq_true_2 in Hs by done. cbn [searched] in Hs. rewrite <- Hs by (intros; apply Hns; by eapply after_in). by destruct (linear_loop st name vi ls) as [[r|]| | |].
Qed.
Lemma dlsym_in_order h caller order : (forall i, handles st !! h = Some i -> is_Some (loaded st !! i)) -> search_order h caller order ->
  do_dlsym st resolver h name sym_ver caller = Ret (resolved resolver (first_answer order)).
Proof.
  intros Hh Ho. assert (forall i s, first_answer order = Some (i, s) -> is_Some (loaded st !! i)) as Hin by (intros i s ?%answers_loaded; by eapply order_loaded).
  unfold do_dlsym. rewrite <- Hvi. destruct Ho as [caller i all Hodd Hnx Hi E| ->|c l all -> Hl E|c l ls all -> Hl Ha E]; [| |apply (group_walked c l all Hl) in E..].
  - rewrite decide_False by (intros [->|]; [by cbn in Hodd|done]). unfold soinfo_from_handle. rewrite decide_True by done. cbn [mbind outcome_bind]. rewrite Hi, (handle_lookup_walk i None all) by (apply breadth_first_walked; eauto). cbn [mbind outcome_bind].
    by apply answer_resolved.
  - rewrite decide_True by (by left). rewrite linear_default. cbn [mbind outcome_bind]. by apply answer_resolved.
  - rewrite decide_True by (by left). rewrite (linear_default_caller c l all Hl E). cbn [mbind outcome_bind]. by apply answer_resolved.
  - rewrite decide_True by (by right). rewrite (linear_next c l ls all Hl Ha E). cbn [mbind outcome_bind]. by apply answer_resolved.
Qed.
End Dlsym.
End Lookup.
(** C34. [dlsym] takes the first symbol of the name among the libraries it searches, in the order they are searched: the
    libraries below that of the handle, level by level (breadth first, each once); for RTLD_DEFAULT the libraries
    visible to all and then the group of the caller, breadth first; for RTLD_NEXT of these only the ones after the
    caller.  It gives the address of that symbol when it is global or weak, defined and not thread-local, and an
    error otherwise, even when a later library has a better one.  What a library answers is what
    [find_symbol_by_name] finds in it: nothing in one with a GNU table only ([LinkerSymbols.gnu_only_divergence]),
    and in one of the launcher a symbol that is not global ([launcher_symbols_hidden]). *)
Theorem dlsym_searches (st : state) (name : bytes) (sym_ver : option bytes) (answer : nat -> option Sym) (resolver : Z -> Z) (h : Z) (caller : option nat) (order : list nat) :
  (forall i l, loaded st !! i = Some l -> find_symbol_by_name (tables l) name ((fun v => mkVersion (calculate_elf_hash v) v) <$> sym_ver) = Ret (answer i)) ->
  live st -> rooted st -> (forall i, i ∈ ns st -> is_Some (loaded st !! i)) -> (forall i, handles st !! h = Some i -> is_Some (loaded st !! i)) -> search_order st h caller order ->
  do_dlsym st resolver h name sym_ver caller = Ret (resolved st resolver (first_answer answer order)).
Proof. intros Ha Hl Hr Hns Hh Ho. by eapply dlsym_in_order. Qed.

(** A symbol that the launcher gave an address, by a library or by a hook, is neither global nor defined for
    [dlsym]: asking a library of the launcher for any symbol, found or not, fails. *)
Theorem launcher_symbols_hidden (st : state) (resolver : Z -> Z) (h : Z) (i : nat) (l : library) (syms : list (bytes * Z)) (name : bytes) (ver : option bytes) (caller : option nat) :
  Z.land h 1 <> 0 -> h <> RTLD_NEXT -> handles st !! h = Some i -> loaded st !! i = Some l -> tables l = LinkerSymbols.load_library syms -> children l = [] ->
  NoDup (fst <$> syms) -> do_dlsym st resolver h name ver caller = Ret None.
Proof.
  intros Hodd Hnext Hh Hi Ht Hc Hnd. unfold do_dlsym. rewrite decide_False by (intros [->|]; [by cbn in Hodd|done]).
  unfold soinfo_from_handle. rewrite decide_True by done. cbn [mbind outcome_bind]. rewrite Hh.
  generalize ((fun v => mkVersion (calculate_elf_hash v) v) <$> ver). intros vi.
  assert (exists r, find_symbol_by_name (tables l) name vi = Ret r /\ match r with Some s => st_info s = 0 | None => True end) as (r & Er & Hr).
  { rewrite Ht, launcher_symbol_found by done. eexists. split; [done|]. destruct (find _ syms) as [[n v]|]; [|done]. by destruct (decide (v = 0)). }
  assert (dlsym_handle_lookup_impl st i None name vi = Ret ((fun s => (i, s)) <$> r)) as ->.
  { unfold dlsym_handle_lookup_impl, walk_dependencies_tree. change (2 + edges (loaded st))%nat with (S (S (edges (loaded st)))). cbn [walk_loop].
    rewrite decide_False by apply not_elem_of_nil. unfold lookup_action. cbn [fst snd]. rewrite bool_decide_eq_false_2 by tauto.
    rewrite (get_ret _ _ _ Hi). cbn [mbind outcome_bind]. rewrite Er. cbn [mbind outcome_bind]. destruct r as [s|]; [done|]. cbn [fst]. by rewrite Hc. }
  destruct r as [s|]; [|done]. cbn [mbind outcome_bind fmap option_fmap option_map]. rewrite Hr. rewrite decide_False; [done|]. by intros [[|] _].
Qed.

(** ** Constructors *)
Definition constructed (st : state) (i : nat) : Prop := exists l, loaded st !! i = Some l /\ constructors_called l = true.
Definition uncalled (st : state) : nat := size (filter (fun p => constructors_called p.2 = false) (loaded st)).
Definition ctor_calls (st : state) (i : nat) : list call := match loaded st !! i with Some l => init_calls i l | None => [] end.
(** Between two states the constructors of the libraries [order] have run, in this order. *)
Record ran (st st' : state) (order : list nat) : Prop := {
  ran_loaded : forall j, loaded st' !! j = (fun l => if decide (j ∈ order) then set_called l else l) <$> loaded st !! j;
  ran_rest : ns st' = ns st /\ solist st' = solist st /\ handles st' = handles st;
  ran_calls : calls st' = calls st ++ (order ≫= ctor_calls st);
  ran_once : NoDup order;
  ran_fresh : forall j, j ∈ order -> is_Some (loaded st !! j) /\ ~ constructed st j }.
(** Every library comes after those it needs. *)
Definition after_needed (st : state) (order : list nat) : Prop :=
  forall pre j post c, order = pre ++ j :: post -> needs st j c -> c ∈ pre \/ constructed st c.
Definition ranked (st : state) (rank : nat -> nat) : Prop := forall i c, needs st i c -> (rank c < rank i)%nat.

Lemma set_called_twice l : set_called (set_called l) = set_called l.
Proof. done. Qed.
Lemma ran_nil st : ran st st [].
Proof.
  split; [|done|by rewrite app_nil_r|constructor|intros j H; by apply not_elem_of_nil in H].
  intros j. destruct (loaded st !! j); [|done]. cbn. by rewrite decide_False by apply not_elem_of_nil.
Qed.
Lemma ran_called st st' order j : ran st st' order -> constructed st' j <-> constructed st j \/ j ∈ order.
Proof.
  intros [Hl _ _ _ Hf]. unfold constructed. rewrite Hl. split.
  - intros (l & Hj & Hc). destruct (loaded st !! j) as [l0|] eqn:E; [|done]. cbn in Hj. destruct (decide (j ∈ order)) as [|Hno]; [by right|]. injection Hj as <-. left. by exists l0.
  - intros [(l & Hj & Hc)|Hin].
    + rewrite Hj. cbn. eexists. split; [done|]. by destruct (decide _).
    + destruct (Hf j Hin) as [[l ->] _]. cbn. rewrite decide_True by done. by eexists.
Qed.
Lemma ran_init st st' order j : ran st st' order -> ctor_calls st' j = ctor_calls st j.
Proof. intros [Hl _ _ _ _]. unfold ctor_calls. rewrite Hl. destruct (loaded st !! j); [|done]. cbn. by destruct (decide _). Qed.
Lemma ran_needs st st' order i c : ran st st' order -> needs st' i c <-> needs st i c.
Proof.
  intros [Hl _ _ _ _]. unfold needs. rewrite Hl. destruct (loaded st !! i) as [l|]; cbn; [|naive_solver].
  split; intros (l' & [= <-] & Hc); eexists; (split; [done|]); by destruct (decide _).
Qed.
Lemma ran_loaded_iff st st' order i : ran st st' order -> is_Some (loaded st' !! i) <-> is_Some (loaded st !! i).
Proof. intros [Hl _ _ _ _]. rewrite Hl. by rewrite fmap_is_Some. Qed.
Lemma ran_trans st st1 st2 o1 o2 : ran st st1 o1 -> ran st1 st2 o2 -> ran st st2 (o1 ++ o2).
Proof.
  intros H1 H2. split.
  - intros j. rewrite (ran_loaded _ _ _ H2), (ran_loaded _ _ _ H1). destruct (loaded st !! j); [|done]. cbn. f_equal.
    destruct (decide (j ∈ o1)), (decide (j ∈ o2)), (decide (j ∈ o1 ++ o2)) as [Hin|Hin]; rewrite ?elem_of_app in Hin; try done; tauto.
  - destruct (ran_rest _ _ _ H1) as (? & ? & ?), (ran_rest _ _ _ H2) as (? & ? & ?). split_and!; congruence.
  - rewrite (ran_calls _ _ _ H2), (ran_calls _ _ _ H1), bind_app, app_assoc. f_equal. apply list_bind_ext; [|done]. intros j. by apply (ran_init _ _ o1).
  - apply NoDup_app. split_and!; [apply H1| |apply H2]. intros j Hj1 Hj2. destruct (ran_fresh _ _ _ H2 j Hj2) as [_ Hn]. apply Hn, (ran_called _ _ _ _ H1). by right.
  - intros j [Hj|Hj]%elem_of_app; [by apply (ran_fresh _ _ _ H1)|]. destruct (ran_fresh _ _ _ H2 j Hj) as [Hs Hn].
    rewrite (ran_loaded_iff _ _ _ _ H1) in Hs. split; [done|]. intros Hc. apply Hn, (ran_called _ _ _ _ H1). by left.
Qed.

Lemma uncalled_mono st st' order : ran st st' order -> (uncalled st' <= uncalled st)%nat.
Proof.
  intros H. unfold uncalled. rewrite <- !(size_dom (D := gset nat)). apply subseteq_size. intros j. rewrite !elem_of_dom. intros [l Hl].
  apply map_lookup_filter_Some in Hl as [Hl Hc]. rewrite (ran_loaded _ _ _ H) in Hl. destruct (loaded st !! j) as [l0|] eqn:E; [|done]. cbn in Hl.
  destruct (decide (j ∈ order)); injection Hl as <-; [done|]. exists l0. by apply map_lookup_filter_Some.
Qed.
Lemma uncalled_mark st i l : loaded st !! i = Some l -> constructors_called l = false -> (uncalled (put_library i (set_called l) st) < uncalled st)%nat.
Proof.
  intros Hi Hc. unfold uncalled, put_library, set_loaded. cbn [loaded]. rewrite map_filter_insert_False by (by cbn). rewrite map_filter_delete.
  assert (filter (fun p => constructors_called p.2 = false) (loaded st) !! i = Some l) as Hf by (by apply map_lookup_filter_Some).
  rewrite map_size_delete, Hf. cbn. apply Nat.lt_pred_l. intros E%map_size_empty_inv. by rewrite E in Hf.
Qed.
(** The library itself, around what ran for its dependencies. *)
Lemma ran_wrap st st2 i l o : loaded st !! i = Some l -> constructors_called l = false -> ran (put_library i (set_called l) st) st2 o ->
  ran st (record (init_calls i l) st2) (o ++ [i]).
Proof.
  intros Hi Hc H. assert (constructed (put_library i (set_called l) st) i) as Hcalled by (exists (set_called l); split; [apply lookup_insert_eq|done]).
  assert (i ∉ o) as Hno by (intros Hin; by destruct (ran_fresh _ _ _ H i Hin)).
  assert (forall j, j <> i -> loaded (put_library i (set_called l) st) !! j = loaded st !! j) as Hne by (intros; by apply lookup_insert_ne).
  split.
  - intros j. cbn [record loaded]. rewrite (ran_loaded _ _ _ H). destruct (decide (j = i)) as [->|Hj].
    + unfold put_library, set_loaded. cbn [loaded]. rewrite lookup_insert_eq, Hi. cbn. rewrite decide_False by done.
      rewrite decide_True by (apply elem_of_app; right; by apply list_elem_of_singleton). done.
    + rewrite Hne by done. destruct (loaded st !! j); [|done]. cbn. f_equal.
      destruct (decide (j ∈ o)), (decide (j ∈ o ++ [i])) as [Hin|Hin]; rewrite elem_of_app, list_elem_of_singleton in Hin; done || tauto.
  - apply H.
  - cbn [record calls]. rewrite (ran_calls _ _ _ H), bind_app. cbn [mbind list_bind]. unfold ctor_calls at 3. rewrite Hi, app_nil_r, app_assoc. cbn [put_library set_loaded calls]. do 2 f_equal.
    apply list_bind_ext; [|done]. intros j. unfold ctor_calls. destruct (decide (j = i)) as [->|]; [|by rewrite Hne].
    unfold put_library, set_loaded. cbn [loaded]. by rewrite lookup_insert_eq, Hi.
  - apply NoDup_app. split_and!; [apply H| |apply NoDup_singleton]. by intros j Hj ->%list_elem_of_singleton.
  - intros j [Hj|Hj]%elem_of_app.
    + assert (j <> i) by (by intros ->). destruct (ran_fresh _ _ _ H j Hj) as [Hs Hn]. rewrite Hne in Hs by done. split; [done|]. intros (l' & Hl' & Hc'). apply Hn. exists l'. by rewrite Hne.
    + apply list_elem_of_singleton in Hj as ->. split; [by eexists|]. intros (l' & Hl' & Hc'). congruence.
Qed.
Lemma for_each_is_for_all fuel cs : forall st,
  (fix for_each (cs : list nat) (st : state) : outcome exn state := match cs with [] => Ret st | c :: cs => st ← call_constructors fuel c st; for_each cs st end) cs st =
  for_all (fun st c => call_constructors fuel c st) cs st.
Proof. induction cs as [|c cs IH]; intros st; [done|]. cbn. destruct (call_constructors fuel c st); [apply IH|done..]. Qed.

Lemma live_ran st st' order : ran st st' order -> live st -> live st'.
Proof.
  intros H Hl i l Hi c Hc. rewrite (ran_loaded_iff _ _ _ _ H). assert (needs st' i c) as (l0 & H0 & Hc0)%(ran_needs _ _ _ _ _ H) by (by exists l). eauto.
Qed.
Lemma live_mark st i l : loaded st !! i = Some l -> live st -> live (put_library i (set_called l) st).
Proof.
  intros Hi Hl j lj Hj c Hc. unfold put_library, set_loaded in *. cbn [loaded] in *. destruct (decide (c = i)) as [->|]; [rewrite lookup_insert_eq; by eexists|].
  rewrite lookup_insert_ne by done. destruct (decide (j = i)) as [->|]; [rewrite lookup_insert_eq in Hj; injection Hj as <-; by apply (Hl i l)|].
  rewrite lookup_insert_ne in Hj by done. by apply (Hl j lj).
Qed.
Lemma needs_mark st i l j c : loaded st !! i = Some l -> needs (put_library i (set_called l) st) j c <-> needs st j c.
Proof.
  intros Hi. unfold needs, put_library, set_loaded. cbn [loaded]. destruct (decide (j = i)) as [->|]; [|by rewrite lookup_insert_ne].
  rewrite lookup_insert_eq, Hi. split; intros (l' & [= <-] & Hc); by eexists.
Qed.
Lemma called_mark st i l j : loaded st !! i = Some l -> constructed (put_library i (set_called l) st) j <-> constructed st j \/ j = i.
Proof.
  intros Hi. unfold constructed, put_library, set_loaded. cbn [loaded]. destruct (decide (j = i)) as [->|]; [rewrite lookup_insert_eq|rewrite lookup_insert_ne by done; tauto].
  split; [by right|]. intros _. by eexists.
Qed.
Lemma after_needed_app st st1 o1 o2 : ran st st1 o1 -> after_needed st o1 -> after_needed st1 o2 -> after_needed st (o1 ++ o2).
Proof.
  intros H H1 H2 pre j post c E Hn. apply app_eq_app in E as (k & [[-> E]|[-> E]]).
  - destruct k as [|x k]; cbn in E.
    + subst. rewrite app_nil_r in H. destruct (H2 [] j post c eq_refl) as [Hin|Hc]; [by apply (ran_needs _ _ _ _ _ H)|by apply not_elem_of_nil in Hin|].
      apply (ran_called _ _ _ _ H) in Hc. tauto.
    + injection E as <- ->. destruct (H1 pre j k c eq_refl Hn); tauto.
  - destruct (H2 k j post c E) as [Hin|Hc]; [by apply (ran_needs _ _ _ _ _ H)|left; apply elem_of_app; by right|].
    apply (ran_called _ _ _ _ H) in Hc as [|]; [by right|left; apply elem_of_app; by left].
Qed.

(** What a call for one library does, and for the children of a library. *)
Definition ran_for (bound : (nat -> nat) -> nat) (st st' : state) (order : list nat) : Prop :=
  ran st st' order /\ forall rank, ranked st rank -> Forall (fun j => rank j <= bound rank)%nat order /\ after_needed st order.
Section Ctors.
Context (fuel : nat).
Context (IH : forall i st, live st -> is_Some (loaded st !! i) -> (uncalled st < fuel)%nat ->
  exists st' order, call_constructors fuel i st = Ret st' /\ ran_for (fun rank => rank i) st st' order /\ constructed st' i).
Lemma children_run cs bound : forall st, live st -> Forall (fun c => is_Some (loaded st !! c)) cs -> (uncalled st < fuel)%nat -> (forall rank, ranked st rank -> Forall (fun c => rank c <= bound rank)%nat cs) ->
  exists st' order, for_all (fun st c => call_constructors fuel c st) cs st = Ret st' /\ ran_for bound st st' order /\ Forall (constructed st') cs.
Proof.
  induction cs as [|c cs IHcs]; intros st Hl Hin Hu Hb.
  { exists st, []. split_and!; [done| |constructor]. split; [apply ran_nil|]. intros rank Hr0. split; [constructor|]. by intros [|] ? ? ? E. }
  apply Forall_cons_1 in Hin as [Hc Hcs]. destruct (IH c st Hl Hc Hu) as (st1 & o1 & E1 & [R1 K1] & C1). cbn [for_all]. rewrite E1. cbn [mbind outcome_bind].
  assert (forall rank, ranked st1 rank <-> ranked st rank) as Hrk by (intros rank; unfold ranked; split; intros H i k Hn; apply H; by apply (ran_needs _ _ _ _ _ R1)).
  destruct (IHcs st1) as (st2 & o2 & E2 & [R2 K2] & C2).
  - by eapply live_ran.
  - eapply Forall_impl; [exact Hcs|]. intros j. by rewrite (ran_loaded_iff _ _ _ _ R1).
  - pose proof (uncalled_mono _ _ _ R1). lia.
  - intros rank Hr%Hrk. specialize (Hb rank Hr). by apply Forall_cons_1 in Hb as [_ Hb].
  - exists st2, (o1 ++ o2). split_and!; [done| |constructor; [apply (ran_called _ _ _ _ R2); by left|done]]. split; [by eapply ran_trans|].
    intros rank Hr. destruct (K1 rank Hr) as [B1 A1], (K2 rank (proj2 (Hrk rank) Hr)) as [B2 A2]. specialize (Hb rank Hr). apply Forall_cons_1 in Hb as [Hb _]. split.
    + apply Forall_app. split; [|done]. eapply Forall_impl; [exact B1|]. cbn. lia.
    + by eapply after_needed_app.
Qed.
End Ctors.
Lemma constructors_ran fuel : forall i st, live st -> is_Some (loaded st !! i) -> (uncalled st < fuel)%nat ->
  exists st' order, call_constructors fuel i st = Ret st' /\ ran_for (fun rank => rank i) st st' order /\ constructed st' i.
Proof.
  induction fuel as [|fuel IH]; intros i st Hl [l Hi] Hu; [lia|]. cbn [call_constructors]. rewrite (get_ret _ _ _ Hi). cbn [mbind outcome_bind].
  destruct (constructors_called l) eqn:Hc.
  { exists st, []. split_and!; [done| |by exists l]. split; [apply ran_nil|]. intros rank Hr0. split; [constructor|]. by intros [|] ? ? ? E. }
  rewrite for_each_is_for_all. set (st1 := put_library i (set_called l) st).
  assert (forall c, c ∈ children l -> needs st i c) as Hneeds by (intros c Hcc; by exists l).
  assert (forall rank, ranked st1 rank <-> ranked st rank) as Hrk by (intros rank; unfold ranked; split; intros H j k Hn; apply H; by apply (needs_mark st i l)).
  destruct (children_run fuel IH (children l) (fun rank => pred (rank i)) st1) as (st2 & o & E & [R K] & C).
  - by apply live_mark.
  - apply Forall_forall. intros c Hcc. destruct (Hl i l Hi c Hcc) as [lc Hlc]. unfold st1, put_library, set_loaded. cbn [loaded].
    destruct (decide (c = i)) as [->|]; [rewrite lookup_insert_eq; by eexists|rewrite lookup_insert_ne by done; by eexists].
  - pose proof (uncalled_mark st i l Hi Hc). fold st1 in H. lia.
  - intros rank Hr%Hrk. apply Forall_forall. intros c Hcc. pose proof (Hr i c (Hneeds c Hcc)). lia.
  - rewrite E. cbn [mbind outcome_bind]. exists (record (init_calls i l) st2), (o ++ [i]). pose proof (ran_wrap st st2 i l o Hi Hc R) as Rw.
    split_and!; [done| |apply (ran_called _ _ _ _ Rw); right; apply elem_of_app; right; by apply list_elem_of_singleton]. split; [done|].
    intros rank Hr. destruct (K rank (proj2 (Hrk rank) Hr)) as [B A]. split.
    { apply Forall_app. split; [|by repeat constructor]. eapply Forall_impl; [exact B|]. cbn. lia. }
    intros pre j post c Eo Hn. destruct post as [|x post _] using rev_ind.
    + apply app_inj_tail in Eo as [-> ->]. destruct Hn as (l' & Hl' & Hcc). rewrite Hi in Hl'. injection Hl' as <-.
      pose proof (proj1 (Forall_forall _ _) C c Hcc) as [Hcc1|]%(ran_called _ _ _ _ R); [|by left].
      apply (called_mark st j l c Hi) in Hcc1 as [| ->]; [by right|]. pose proof (Hr j j (Hneeds j Hcc)). lia.
    + rewrite app_comm_cons, app_assoc in Eo. apply app_inj_tail in Eo as [-> ->].
      destruct (A pre j post c eq_refl) as [|Hcc]; [by apply (needs_mark st x l)|by left|]. subst st1.
      apply (called_mark st x l c Hi) in Hcc as [| ->]; [by right|]. pose proof (Hr j x Hn). apply Forall_app in B as [_ B]. apply Forall_cons_1 in B as [B _]. lia.
Qed.

Lemma constructors_run i st : live st -> is_Some (loaded st !! i) ->
  exists st' order, call_constructors (S (size (loaded st))) i st = Ret st' /\ ran st st' order /\ constructed st' i /\ forall rank, ranked st rank -> after_needed st order.
Proof.
  intros Hl Hi. assert (uncalled st < S (size (loaded st)))%nat as Hu.
  { unfold uncalled. apply Nat.lt_succ_r. rewrite <- !(size_dom (D := gset nat)). apply subseteq_size, dom_filter_subseteq. }
  destruct (constructors_ran _ i st Hl Hi Hu) as (st' & order & E & [R K] & C). exists st', order. split_and!; [done..|].
  intros rank Hr. by apply (K rank Hr).
Qed.
(** C36. The constructors of a library and its dependencies end, run at most once for every library, cyclic
    dependencies or not, leave all libraries as they are but for the mark, and, when the
    dependencies have no cycle, run for a library after those of every library it needs. *)
Theorem constructors_ordered (st : state) (i : nat) : live st -> is_Some (loaded st !! i) ->
  exists st' order, call_constructors (S (size (loaded st))) i st = Ret st' /\ ran st st' order /\ constructed st' i /\ forall rank, ranked st rank -> after_needed st order.
Proof. apply constructors_run. Qed.
End LinkerWalk.
