(* ===== verification/LinkerUnload.v ===== *)
(** * Unloading is safe (mcpelauncher-linker/bionic/linker)

    The invariant of the loaded libraries of LinkerGroups, their links, groups, reference counts and
    handles, and the proof that [soinfo_unload] keeps it and never touches a library that is freed,
    as long as the dependencies have no cycle. *)

From S2P Require Import Prelude CxxString LinkerUtils LinkerSymbols LinkerGroups LinkerWalk.
From Stdlib Require Import ZArith Ascii Lia.
From stdpp Require Import base list strings numbers gmap.

Open Scope Z_scope.

Module LinkerUnload.
Import LinkerSymbols LinkerGroups LinkerWalk.

(** ** References *)
(** A link from another group to the group [r]. *)
Definition cross (root : nat -> nat) (r i : nat) (kids : list nat) : nat := if decide (root i = r) then 0%nat else length (filter (fun c => root c = r) kids).
Definition crossings (root : nat -> nat) (kids : gmap nat (list nat)) (r : nat) : nat := map_fold (fun i cs n => cross root r i cs + n)%nat 0%nat kids.
Definition kids_of (st : state) : gmap nat (list nat) := children <$> loaded st.
Definition refs_to (root : nat -> nat) (r : nat) (refs : list nat) : nat := length (filter (fun x => root x = r) refs).

Lemma crossings_delete root kids r i cs : kids !! i = Some cs -> crossings root kids r = (cross root r i cs + crossings root (delete i kids) r)%nat.
Proof. intros H. unfold crossings. rewrite (map_fold_delete_L (fun i cs n => cross root r i cs + n)%nat 0%nat i cs kids) by (done || intros; lia). done. Qed.
Lemma refs_to_app root r a b : refs_to root r (a ++ b) = (refs_to root r a + refs_to root r b)%nat.
Proof. unfold refs_to. by rewrite filter_app, length_app. Qed.
Lemma refs_to_cons root r i refs : refs_to root r (i :: refs) = ((if decide (root i = r) then 1 else 0) + refs_to root r refs)%nat.
Proof. unfold refs_to. rewrite filter_cons. by destruct (decide (root i = r)). Qed.
Lemma crossings_zero root kids r : (forall i cs, kids !! i = Some cs -> root i <> r -> forall c, c ∈ cs -> root c <> r) -> crossings root kids r = 0%nat.
Proof.
  intros H. unfold crossings. rewrite map_fold_foldr. assert (forall p, p ∈ map_to_list kids -> cross root r p.1 p.2 = 0%nat) as Hz.
  { intros [j cs] Hp%elem_of_map_to_list. unfold cross. cbn. destruct (decide (root j = r)); [done|]. apply length_zero_iff_nil, elem_of_nil_inv. intros c [Hr Hc]%list_elem_of_filter. by apply (H j cs Hp n c). }
  induction (map_to_list kids) as [|[j cs] l IH]; [done|]. cbn. rewrite IH by (intros; apply Hz; by right). pose proof (Hz (j, cs) ltac:(by left)) as E. cbn in E. by rewrite E.
Qed.
Lemma crossings_same root root' kids r : (forall i cs, kids !! i = Some cs -> root' i = root i /\ forall c, c ∈ cs -> root' c = root c) -> crossings root' kids r = crossings root kids r.
Proof.
  intros H. unfold crossings. apply fold_same. intros i cs n Hi. destruct (H i cs Hi) as [E Hc]. f_equal. unfold cross. rewrite E. destruct (decide (root i = r)); [done|]. f_equal.
  clear -Hc. induction cs as [|c cs IH]; [done|]. rewrite !filter_cons, IH by (intros; apply Hc; by right). by rewrite (Hc c) by (by left).
Qed.
Lemma crossings_insert root kids r i cs : kids !! i = None -> crossings root (<[i := cs]> kids) r = (cross root r i cs + crossings root kids r)%nat.
Proof. intros H. rewrite (crossings_delete root (<[i := cs]> kids) r i cs) by apply lookup_insert_eq. by rewrite delete_insert_id. Qed.
Lemma refs_to_zero root r refs : refs_to root r refs = 0%nat -> forall x, x ∈ refs -> root x <> r.
Proof.
  unfold refs_to. intros H%nil_length_inv x Hx Hr. assert (x ∈ filter (fun x => root x = r) refs) as Hf by (by apply list_elem_of_filter). rewrite H in Hf. by apply not_elem_of_nil in Hf.
Qed.
(** The libraries [local] leave: their links to other groups become references that are still held. *)
Definition external_of (root : nat -> nat) (r : nat) (kids : gmap nat (list nat)) (local : list nat) : list nat :=
  local ≫= (fun m => filter (fun c => root c <> r) (default [] (kids !! m))).
Lemma crossings_leave root kids r r' local : NoDup local -> (forall m, m ∈ local -> is_Some (kids !! m) /\ root m = r) -> r <> r' -> forall kids',
  (forall j, kids' !! j = if decide (j ∈ local) then None else kids !! j) ->
  crossings root kids r' = (refs_to root r' (external_of root r kids local) + crossings root kids' r')%nat.
Proof.
  intros Hnd Hl Hr. revert kids Hl. induction Hnd as [|m local Hm Hnd IH]; intros kids Hl kids' Hk.
  { assert (kids' = kids) as ->; [|done]. apply map_eq. intros j. rewrite Hk. by rewrite decide_False by apply not_elem_of_nil. }
  destruct (Hl m) as [[cs Hcs] Hrm]; [by left|]. rewrite (crossings_delete root kids r' m cs Hcs).
  unfold external_of. cbn [mbind list_bind]. rewrite Hcs. cbn [default]. rewrite refs_to_app.
  rewrite (IH (delete m kids)) with (kids' := kids').
  - unfold cross. rewrite decide_False by congruence.
    assert (length (filter (fun c => root c = r') cs) = refs_to root r' (filter (fun c => root c <> r) (id cs))) as ->.
    { unfold refs_to, id. rewrite list_filter_filter. f_equal. apply list_filter_iff. intros c. split; [|tauto]. intros <-. split; [done|congruence]. }
    assert (external_of root r (delete m kids) local = external_of root r kids local) as ->; [|unfold external_of; lia].
    unfold external_of. clear -Hm. induction local as [|x local IH]; [done|]. apply not_elem_of_cons in Hm as [? ?]. cbn. rewrite lookup_delete_ne by done. by rewrite IH.
  - intros x Hx. destruct (Hl x) as [? ?]; [by right|]. rewrite lookup_delete_ne by (by intros ->). done.
  - intros j. rewrite Hk. destruct (decide (j = m)) as [->|Hj].
    + rewrite lookup_delete_eq. rewrite decide_True by (by left). by destruct (decide (m ∈ local)).
    + rewrite lookup_delete_ne by done. destruct (decide (j ∈ local)), (decide (j ∈ m :: local)) as [Hin|Hin]; rewrite elem_of_cons in Hin; done || tauto.
Qed.

(** ** The invariant *)
(** [root] is the root of the group of a library, [rank] orders the dependencies, [refs] are the references that
    are held from outside, one for each [dlopen] that is not closed. *)
Record inv (root rank : nat -> nat) (st : state) (refs : list nat) : Prop := {
  i_linked : forall i l, loaded st !! i = Some l -> linked l = true;
  i_root : forall i l, loaded st !! i = Some l -> local_group_root l = root i /\ root (root i) = root i /\ is_Some (loaded st !! root i);
  i_children : forall i l c, loaded st !! i = Some l -> c ∈ children l -> exists lc, loaded st !! c = Some lc /\ i ∈ parents lc;
  i_parents : forall i l p, loaded st !! i = Some l -> p ∈ parents l -> exists lp, loaded st !! p = Some lp /\ i ∈ children lp;
  i_group : forall i l, loaded st !! i = Some l -> root i <> i -> exists p, p ∈ parents l /\ root p = root i;
  i_rank : ranked st rank;
  i_refs : forall x, x ∈ refs -> is_Some (loaded st !! x);
  i_count : forall r l, loaded st !! r = Some l -> root r = r -> ref_count l = Z.of_nat (refs_to root r refs + crossings root (kids_of st) r) /\ ref_count l < 2 ^ 64;
  i_solist : exists first rest, solist st = first :: rest /\ root first = first /\ (forall i, is_Some (loaded st !! i) -> i = first \/ i ∈ rest) /\ (forall x, x ∈ first :: rest -> is_Some (loaded st !! x)) /\
    (forall x, x ∈ refs -> root x <> first) /\ (forall i l c, loaded st !! i = Some l -> c ∈ children l -> root c <> first);
  i_ns : forall x, x ∈ ns st -> is_Some (loaded st !! x);
  i_handles : forall h i, handles st !! h = Some i <-> exists l, loaded st !! i = Some l /\ handle l = h;
  i_odd : forall h i, handles st !! h = Some i -> Z.land h 1 <> 0 }.

(** ** Collecting a group *)
(** A state in which the links of the libraries are others. *)
Definition view (K P : nat -> library -> list nat) (m0 m : gmap nat library) : Prop := forall j, m !! j = (fun l => set_links (K j l) (P j l) l) <$> m0 !! j.
Lemma view_put K P K' P' m0 m i l : view K P m0 m -> m0 !! i = Some l -> (forall j lj, m0 !! j = Some lj -> j <> i -> K' j lj = K j lj /\ P' j lj = P j lj) ->
  view K' P' m0 (<[i := set_links (K' i l) (P' i l) l]> m).
Proof.
  intros H Hi Hs j. destruct (decide (j = i)) as [->|]; [by rewrite lookup_insert_eq, Hi|]. rewrite lookup_insert_ne by done. rewrite H.
  destruct (m0 !! j) as [lj|] eqn:Hj; [|done]. cbn. by destruct (Hs j lj Hj) as [-> ->].
Qed.
Lemma view_ext K P K' P' m0 m : view K P m0 m -> (forall j lj, m0 !! j = Some lj -> K' j lj = K j lj /\ P' j lj = P j lj) -> view K' P' m0 m.
Proof. intros H Hs j. rewrite H. destruct (m0 !! j) as [lj|] eqn:Hj; [|done]. cbn. by destruct (Hs j lj Hj) as [-> ->]. Qed.

Lemma filter_same (P Q : nat -> Prop) `{forall x, Decision (P x)} `{forall x, Decision (Q x)} (l : list nat) : (forall x, x ∈ l -> P x <-> Q x) -> filter P l = filter Q l.
Proof.
  induction l as [|x l IH]; intros Hpq; [done|]. rewrite !filter_cons, IH by (intros; apply Hpq; by right). specialize (Hpq x ltac:(by left)).
  destruct (decide (P x)), (decide (Q x)); done || tauto.
Qed.
Lemma filter_keeps (P : nat -> Prop) `{forall x, Decision (P x)} (l : list nat) : (forall x, P x) -> filter P l = l.
Proof. intros HP. induction l as [|x l IH]; [done|]. rewrite filter_cons, IH. by rewrite decide_True. Qed.
Lemma rank_bound (rank : nat -> nat) (m : gmap nat library) : exists B, forall i l, m !! i = Some l -> (rank i <= B)%nat.
Proof.
  assert (exists B, forall p, p ∈ map_to_list m -> (rank p.1 <= B)%nat) as [B HB].
  { induction (map_to_list m) as [|p r [B IH]]; [exists 0%nat; intros p Hp; by apply not_elem_of_nil in Hp|]. exists (max (rank p.1) B). intros q [->|Hq]%elem_of_cons; [lia|]. specialize (IH q Hq). lia. }
  exists B. intros i l Hi. apply (HB (i, l)). by apply elem_of_map_to_list.
Qed.

Section Collect.
Context (root rank : nat -> nat) (R : nat) (st0 : state).
Context (Houtside : forall i l, loaded st0 !! i = Some l -> linked l = true /\ local_group_root l <> R <-> root i <> R).
Context (Hchildren : forall i l c, loaded st0 !! i = Some l -> c ∈ children l -> exists lc, loaded st0 !! c = Some lc /\ i ∈ parents lc).
Context (Hparents : forall i l p, loaded st0 !! i = Some l -> p ∈ parents l -> exists lp, loaded st0 !! p = Some lp /\ i ∈ children lp).
Context (Hrank : ranked st0 rank).

(** The links once [local] is taken, and while the children of [i] are taken of which [done] are. *)
Definition kids_taken (local : list nat) (j : nat) (l : library) : list nat := if decide (j ∈ local) then [] else children l.
Definition parents_left (local : list nat) (j : nat) (l : library) : list nat := filter (fun p => p ∉ local) (parents l).
Definition kids_taking (local : list nat) (i : nat) (cs : list nat) (j : nat) (l : library) : list nat := if decide (j = i) then cs else kids_taken local j l.
Definition parents_taking (local : list nat) (i : nat) (done : list nat) (j : nat) (l : library) : list nat :=
  filter (fun p => p ∉ local /\ ~ (p = i /\ j ∈ done)) (parents l).

Lemma no_self i l : loaded st0 !! i = Some l -> i ∉ children l.
Proof. intros Hi Hin. assert (needs st0 i i) as H%Hrank by (by exists l). lia. Qed.
Lemma parents_taking_step local i done c l : remove i (parents_taking local i done c l) = parents_taking local i (done ++ [c]) c l.
Proof.
  unfold remove, parents_taking. rewrite list_filter_filter. apply list_filter_iff. intros p.
  assert (c ∈ done ++ [c]) by (apply elem_of_app; right; by apply list_elem_of_singleton). destruct (decide (c ∈ done)); tauto.
Qed.
Lemma parents_taking_other local i done c j l : j <> c -> parents_taking local i (done ++ [c]) j l = parents_taking local i done j l.
Proof. intros Hj. apply list_filter_iff. intros p. rewrite elem_of_app, list_elem_of_singleton. tauto. Qed.

(** One child: the links after it, and whether it is collected. *)
Lemma take_child_links local i li m done c cs lc : loaded st0 !! i = Some li -> children li = done ++ c :: cs -> loaded st0 !! c = Some lc -> c <> i ->
  view (kids_taking local i (c :: cs)) (parents_taking local i done) (loaded st0) m ->
  exists li' lc', m !! i = Some li' /\ <[i := set_links cs (parents li') li']> m !! c = Some lc' /\ parents (without_parent i lc') = parents_taking local i (done ++ [c]) c lc /\
    (linked lc' = true /\ local_group_root lc' <> R <-> root c <> R) /\
    view (kids_taking local i cs) (parents_taking local i (done ++ [c])) (loaded st0) (<[c := without_parent i lc']> (<[i := set_links cs (parents li') li']> m)).
Proof.
  intros Hi Hcs Hc Hci Hv. pose proof (Hv i) as Hmi. rewrite Hi in Hmi. cbn in Hmi. eexists _, _. split; [exact Hmi|].
  rewrite lookup_insert_ne by done. rewrite Hv, Hc. cbn [fmap option_fmap option_map]. split; [reflexivity|].
  unfold without_parent. cbn [parents set_links]. rewrite parents_taking_step. split; [done|]. split; [exact (Houtside _ _ Hc)|].
  assert (view (kids_taking local i cs) (parents_taking local i done) (loaded st0)
    (<[i := set_links cs (parents_taking local i done i li) li]> m)) as Hv1.
  { pose proof (view_put _ _ (kids_taking local i cs) (parents_taking local i done) _ _ i li Hv Hi) as H.
    replace (kids_taking local i cs i li) with cs in H by (unfold kids_taking; by rewrite decide_True). apply H. intros j lj _ Hj. unfold kids_taking. by rewrite !decide_False. }
  pose proof (view_put _ _ (kids_taking local i cs) (parents_taking local i (done ++ [c])) _ _ c lc Hv1 Hc) as H.
  replace (kids_taking local i cs c lc) with (kids_taking local i (c :: cs) c lc) in H by (unfold kids_taking; by rewrite !decide_False).
  apply H. intros j lj _ Hj. split; [done|by apply parents_taking_other].
Qed.

(** A library of the group that is not collected still has a parent that is not. *)
Definition held (local unload : list nat) (c : nat) : Prop := c ∈ local \/ c ∈ unload \/ exists lc p, loaded st0 !! c = Some lc /\ p ∈ parents lc /\ p ∉ local.
Lemma held_more local unload unload' c : unload ⊆ unload' -> held local unload c -> held local unload' c.
Proof. intros Hs [?|[?|?]]; [by left|right; left; by apply Hs|by right; right]. Qed.

Lemma take_children_spec local i li : loaded st0 !! i = Some li -> (forall x, x ∈ local ++ [i] -> root x = R) -> forall cs done m unload ext, children li = done ++ cs ->
  view (kids_taking local i cs) (parents_taking local i done) (loaded st0) m -> (forall x, x ∈ done -> root x = R -> held (local ++ [i]) unload x) ->
  exists m' unload', take_children i R cs (local ++ [i]) unload ext (set_loaded m st0) = Ret (set_loaded m' st0, unload', ext ++ filter (fun c => root c <> R) cs) /\
    view (kids_taking local i []) (parents_taking local i (children li)) (loaded st0) m' /\ unload ⊆ unload' /\ (length unload' <= length unload + length cs)%nat /\
    (forall x, x ∈ unload' -> x ∈ unload \/ (is_Some (loaded st0 !! x) /\ root x = R)) /\ (forall x, x ∈ children li -> root x = R -> held (local ++ [i]) unload' x).
Proof.
  intros Hi Hil. induction cs as [|c cs IH]; intros done m unload ext Hcs Hv Hh.
  { rewrite app_nil_r in Hcs. subst done. exists m, unload. cbn. rewrite app_nil_r. split_and!; auto. lia. }
  destruct (Hchildren i li c Hi) as (lc & Hc & Hic); [rewrite Hcs; apply elem_of_app; right; by left|].
  assert (c <> i) as Hci by (intros ->; apply (no_self i li Hi); rewrite Hcs; apply elem_of_app; right; by left).
  destruct (take_child_links local i li m done c cs lc Hi Hcs Hc Hci Hv) as (li' & lc' & Hmi & Hmc & Hp & Hout & Hv').
  cbn [take_children]. rewrite (get_ret (set_loaded m st0) i li' Hmi). cbn [mbind outcome_bind].
  rewrite (get_ret (put_library i (set_links cs (parents li') li') (set_loaded m st0)) c lc' Hmc). cbn [mbind outcome_bind].
  change (put_library c (without_parent i lc') (put_library i (set_links cs (parents li') li') (set_loaded m st0)))
    with (set_loaded (<[c := without_parent i lc']> (<[i := set_links cs (parents li') li']> m)) st0).
  assert (children li = (done ++ [c]) ++ cs) as Hcs' by (by rewrite <- app_assoc).
  assert (forall unload2, unload ⊆ unload2 -> (root c = R -> held (local ++ [i]) unload2 c) -> forall x, x ∈ done ++ [c] -> root x = R -> held (local ++ [i]) unload2 x) as Hh'.
  { intros u Hsub Hu x [Hx|Hx%list_elem_of_singleton]%elem_of_app Hr; [eapply held_more; eauto|subst x; auto]. }
  rewrite filter_cons, Hp.
  destruct (decide (c ∈ local ++ [i])) as [Hin|Hin]; [|destruct (decide (linked lc' = true /\ local_group_root lc' <> R)) as [Hx%Hout|Hx]; [|destruct (decide (parents_taking local i (done ++ [c]) c lc = [])) as [He|He]]].
  - rewrite decide_False by (intros H; by apply H, Hil). destruct (IH (done ++ [c]) _ unload ext Hcs' Hv' (Hh' unload ltac:(done) ltac:(by left))) as (m' & u' & E & V & S & L & U & H).
    exists m', u'. split_and!; auto. cbn. lia.
  - rewrite decide_True by done. destruct (IH (done ++ [c]) _ unload (ext ++ [c]) Hcs' Hv' (Hh' unload ltac:(done) ltac:(done))) as (m' & u' & E & V & S & L & U & H).
    exists m', u'. rewrite E, <- app_assoc. split_and!; auto. cbn. lia.
  - rewrite decide_False by (by rewrite <- Hout). destruct (IH (done ++ [c]) _ (unload ++ [c]) ext Hcs' Hv') as (m' & u' & E & V & S & L & U & H).
    { apply Hh'; [intros x Hx'; apply elem_of_app; by left|]. intros _. right. left. apply elem_of_app. right. by apply list_elem_of_singleton. }
    rewrite length_app in L. cbn in L. exists m', u'. split_and!; auto; [intros x Hx'; apply S, elem_of_app; by left|cbn; lia|].
    intros x Hx'. destruct (U x Hx') as [[?| ->%list_elem_of_singleton]%elem_of_app|?]; [by left| |by right]. right. split; [by eexists|]. destruct (decide (root c = R)) as [|Hn%Hout]; [done|done].
  - rewrite decide_False by (by rewrite <- Hout). destruct (IH (done ++ [c]) _ unload ext Hcs' Hv') as (m' & u' & E & V & S & L & U & H).
    { apply Hh'; [done|]. intros _. right. right. destruct (parents_taking local i (done ++ [c]) c lc) as [|q qs] eqn:Eq; [done|].
      assert (q ∈ parents_taking local i (done ++ [c]) c lc) as [Hq Hqp]%list_elem_of_filter by (rewrite Eq; by left). exists lc, q. split_and!; [done|done|].
      intros [?|?%list_elem_of_singleton]%elem_of_app; [tauto|]. apply Hq. split; [done|]. apply elem_of_app. right. by apply list_elem_of_singleton. }
    exists m', u'. split_and!; auto. cbn. lia.
Qed.

Lemma view_take local i li m : loaded st0 !! i = Some li -> i ∉ local -> view (kids_taken local) (parents_left local) (loaded st0) m ->
  view (kids_taking local i (children li)) (parents_taking local i []) (loaded st0) m.
Proof.
  intros Hi Hl H. eapply view_ext; [exact H|]. intros j lj Hj. split.
  - unfold kids_taking, kids_taken. destruct (decide (j = i)) as [->|]; [|done]. rewrite decide_False by done. congruence.
  - apply list_filter_iff. intros p. pose proof (not_elem_of_nil j). tauto.
Qed.
Lemma view_taken local i li m : loaded st0 !! i = Some li -> view (kids_taking local i []) (parents_taking local i (children li)) (loaded st0) m ->
  view (kids_taken (local ++ [i])) (parents_left (local ++ [i])) (loaded st0) m.
Proof.
  intros Hi H. eapply view_ext; [exact H|]. intros j lj Hj. split.
  - unfold kids_taking, kids_taken. destruct (decide (j = i)), (decide (j ∈ local)), (decide (j ∈ local ++ [i])) as [Hin|Hin]; try done; rewrite elem_of_app, list_elem_of_singleton in Hin; tauto.
  - apply filter_same. intros p Hp. rewrite elem_of_app, list_elem_of_singleton. split; [tauto|]. intros [Hx Hy] [?| ->]; [done|].
    apply Hy. split; [done|]. destruct (Hparents j lj i Hj Hp) as (lp & Hlp & Hxp). rewrite Hi in Hlp. by injection Hlp as <-.
Qed.
Lemma collect_spec fuel : forall unload local m, NoDup local -> (forall x, x ∈ local ++ unload -> is_Some (loaded st0 !! x) /\ root x = R) ->
  view (kids_taken local) (parents_left local) (loaded st0) m -> (forall x, is_Some (loaded st0 !! x) -> root x = R -> x <> R -> held local unload x) ->
  R ∈ local ++ unload -> (length unload + unseen_edges (loaded st0) local < fuel)%nat ->
  exists m' local', collect_loop fuel R unload local (external_of root R (kids_of st0) local) (set_loaded m st0) = Ret (set_loaded m' st0, local', external_of root R (kids_of st0) local') /\
    view (kids_taken local') (parents_left local') (loaded st0) m' /\ NoDup local' /\ (forall x, x ∈ local' -> is_Some (loaded st0 !! x) /\ root x = R) /\
    (forall x, is_Some (loaded st0 !! x) -> root x = R -> x <> R -> held local' [] x) /\ R ∈ local'.
Proof.
  induction fuel as [|fuel IH]; intros unload local m Hnd Hall Hv Hh HR Hf; [lia|]. destruct unload as [|i unload]; cbn [collect_loop].
  { rewrite app_nil_r in Hall, HR. exists m, local. split_and!; auto. }
  cbn [length] in Hf. destruct (decide (i ∈ local)) as [Hin|Hin].
  - apply IH; auto; [intros x Hx; apply Hall; rewrite elem_of_app, elem_of_cons in *; tauto| |rewrite elem_of_app, elem_of_cons in *; destruct HR as [|[->|]]; auto|lia].
    intros x Hx Hr Hne. destruct (Hh x Hx Hr Hne) as [?|[[->|?]%elem_of_cons|?]]; [by left|by left|right; by left|right; by right].
  - destruct (Hall i) as [[li Hi] Hri]; [apply elem_of_app; right; by left|].
    assert (forall x, x ∈ local ++ [i] -> root x = R) as Hloc by (intros x Hx; apply Hall; rewrite elem_of_app, list_elem_of_singleton in Hx; rewrite elem_of_app, elem_of_cons; tauto).
    assert (get (set_loaded m st0) i = Ret (set_links (children li) (parents_left local i li) li)) as ->.
    { apply get_ret. cbn [set_loaded loaded]. rewrite Hv, Hi. cbn. unfold kids_taken. by rewrite decide_False. }
    cbn [mbind outcome_bind children set_links].
    destruct (take_children_spec local i li Hi Hloc (children li) [] m unload (external_of root R (kids_of st0) local) eq_refl (view_take local i li m Hi Hin Hv)) as (m' & u' & E & V & S & L & U & H).
    { intros x Hx. by apply not_elem_of_nil in Hx. }
    rewrite E. cbn [mbind outcome_bind fst snd].
    replace (external_of root R (kids_of st0) local ++ _) with (external_of root R (kids_of st0) (local ++ [i])).
    2: { unfold external_of. rewrite bind_app. f_equal. cbn. unfold kids_of. rewrite lookup_fmap, Hi. cbn. by rewrite app_nil_r. }
    apply IH.
    + apply NoDup_app. split_and!; [done| |apply NoDup_singleton]. by intros x Hx ->%list_elem_of_singleton.
    + intros x [Hx|Hx]%elem_of_app.
      * split; [|by apply Hloc]. apply Hall. rewrite elem_of_app, list_elem_of_singleton in Hx. rewrite elem_of_app, elem_of_cons. tauto.
      * destruct (U x Hx) as [Hu|?]; [|done]. apply Hall, elem_of_app. right. by right.
    + by eapply view_taken.
    + intros x Hx Hr Hne. destruct (Hh x Hx Hr Hne) as [?|[[->|?]%elem_of_cons|(lc & q & Hlc & Hq & Hql)]].
      * left. apply elem_of_app. by left.
      * left. apply elem_of_app. right. by apply list_elem_of_singleton.
      * right. left. by apply S.
      * destruct (decide (q = i)) as [->|Hqi].
        -- apply H; [|done]. destruct (Hparents x lc i Hlc Hq) as (lp & Hlp & Hxp). rewrite Hi in Hlp. by injection Hlp as <-.
        -- right. right. exists lc, q. split_and!; [done|done|]. rewrite elem_of_app, list_elem_of_singleton. tauto.
    + rewrite elem_of_app, elem_of_cons in HR. rewrite !elem_of_app, list_elem_of_singleton. destruct HR as [|[->|HR]]; auto.
    + pose proof (unseen_visit (loaded st0) local i li Hi Hin). lia.
Qed.
(** With no link from another group, and no cycle, the whole group is collected. *)
Lemma group_collected local : (forall c lc q, loaded st0 !! c = Some lc -> root c = R -> q ∈ parents lc -> root q = R) -> R ∈ local ->
  (forall x, is_Some (loaded st0 !! x) -> root x = R -> x <> R -> held local [] x) -> forall x, is_Some (loaded st0 !! x) -> root x = R -> x ∈ local.
Proof.
  intros Hno HR Hh. destruct (rank_bound rank (loaded st0)) as [B HB].
  assert (forall k x, (B - rank x <= k)%nat -> is_Some (loaded st0 !! x) -> root x = R -> x ∈ local) as H; [|intros x; by apply (H (B - rank x)%nat)].
  induction k as [|k IH]; intros x Hk Hx Hr; (destruct (decide (x = R)) as [->|Hne]; [done|]);
    (destruct (Hh x Hx Hr Hne) as [?|[?%not_elem_of_nil|(lc & q & Hlc & Hq & Hql)]]; [done|done|]);
    destruct (Hparents x lc q Hlc Hq) as (lp & Hlp & Hxp); assert (needs st0 q x) as Hn%Hrank by (by exists lp); pose proof (HB q lp Hlp).
  - lia.
  - destruct Hql. apply IH; [lia|by eexists|exact (Hno x lc q Hlc Hr Hq)].
Qed.
End Collect.

(** ** Destructors and freeing *)
Definition dtor_calls (st : state) (i : nat) : list call := match loaded st !! i with Some l => if constructors_called l then fini_calls i l else [] | None => [] end.
Lemma destructors_ran local : forall st, Forall (fun i => is_Some (loaded st !! i)) local -> for_all call_destructors local st = Ret (record (local ≫= dtor_calls st) st).
Proof.
  induction local as [|i local IH]; intros st H.
  { cbn. unfold record. rewrite app_nil_r. by destruct st. }
  apply Forall_cons_1 in H as [[l Hi] H]. cbn [for_all].
  assert (call_destructors st i = Ret (record (dtor_calls st i) st)) as ->.
  { unfold call_destructors, dtor_calls. rewrite (get_ret _ _ _ Hi), Hi. cbn [mbind outcome_bind]. f_equal. destruct (constructors_called l); [done|]. unfold record. rewrite app_nil_r. by destruct st. }
  cbn [mbind outcome_bind].
  rewrite (IH (record (dtor_calls st i) st)) by done. cbn [mbind list_bind]. unfold record. cbn [loaded ns solist handles calls]. by rewrite app_assoc.
Qed.
Lemma free_one st i l first rest : loaded st !! i = Some l -> children l = [] -> parents l = [] -> solist st = first :: rest -> i <> first -> i ∈ rest ->
  soinfo_free i st = Ret (mkState (delete i (loaded st)) (remove i (ns st)) (first :: remove i rest) (delete (handle l) (handles st)) (calls st)).
Proof.
  intros Hi Hc Hp Hs Hf Hr. unfold soinfo_free, solist_remove_soinfo. rewrite Hs, decide_False, decide_True by done. cbn [mbind outcome_bind].
  unfold remove_all_links. assert (forall ns' so' h', get (mkState (loaded st) ns' so' h' (calls st)) i = Ret l) as Hg by (intros; by apply get_ret).
  rewrite Hg. cbn [mbind outcome_bind]. rewrite Hc. cbn [untie mbind outcome_bind]. rewrite Hg. cbn [mbind outcome_bind]. rewrite Hp. cbn [untie mbind outcome_bind]. rewrite Hg.
  cbn [mbind outcome_bind]. unfold get. cbn [loaded put_library set_loaded]. rewrite lookup_insert_eq. cbn. by rewrite delete_insert_eq.
Qed.
Lemma free_all local : forall st first rest, NoDup local -> (forall i, i ∈ local -> exists l, loaded st !! i = Some l /\ children l = [] /\ parents l = []) ->
  solist st = first :: rest -> (forall i, i ∈ local -> i <> first /\ i ∈ rest) ->
  exists st', for_all (fun st i => soinfo_free i st) local st = Ret st' /\ (forall j, loaded st' !! j = if decide (j ∈ local) then None else loaded st !! j) /\
    solist st' = first :: filter (fun i => i ∉ local) rest /\ ns st' = filter (fun i => i ∉ local) (ns st) /\ calls st' = calls st /\
    (forall h j, handles st' !! h = Some j <-> handles st !! h = Some j /\ forall i l, i ∈ local -> loaded st !! i = Some l -> handle l <> h).
Proof.
  induction local as [|i local IH]; intros st first rest Hnd Hl Hs Hr.
  { exists st. split_and!; [done| | | |done|].
    - intros j. by rewrite decide_False by apply not_elem_of_nil.
    - rewrite Hs. f_equal. symmetry. apply filter_keeps. intros; apply not_elem_of_nil.
    - symmetry. apply filter_keeps. intros; apply not_elem_of_nil.
    - intros h j. split; [|tauto]. intros H. split; [done|]. intros x l Hx. by apply not_elem_of_nil in Hx. }
  apply NoDup_cons in Hnd as [Hi Hnd]. destruct (Hl i) as (l & Hli & Hc & Hp); [by left|]. destruct (Hr i) as [Hf Hin]; [by left|].
  cbn [for_all]. rewrite (free_one st i l first rest) by done. cbn [mbind outcome_bind].
  destruct (IH (mkState (delete i (loaded st)) (remove i (ns st)) (first :: remove i rest) (delete (handle l) (handles st)) (calls st)) first (remove i rest)) as (st' & E & L & S & N & C & H).
  - done.
  - intros x Hx. cbn [loaded]. rewrite lookup_delete_ne by (by intros ->). apply Hl. by right.
  - done.
  - intros x Hx. destruct (Hr x) as [? ?]; [by right|]. split; [done|]. apply list_elem_of_filter. split; [by intros ->|done].
  - cbn [loaded ns handles calls] in *.
    assert (forall x : nat, x ∉ local /\ x <> i <-> x ∉ i :: local) as Hcons by (intros x; rewrite not_elem_of_cons; tauto).
    exists st'. split_and!; [done| | | |done|].
    + intros j. rewrite L. destruct (decide (j = i)) as [->|Hj]; [rewrite lookup_delete_eq; rewrite (decide_True (P := i ∈ i :: local)) by (by left); by destruct (decide _)|].
      rewrite lookup_delete_ne by done. destruct (decide (j ∈ local)), (decide (j ∈ i :: local)) as [Hx|Hx]; rewrite elem_of_cons in Hx; done || tauto.
    + rewrite S. f_equal. unfold remove. rewrite list_filter_filter. apply list_filter_iff. intros x. by apply Hcons.
    + rewrite N. unfold remove. rewrite list_filter_filter. apply list_filter_iff. intros x. by apply Hcons.
    + intros h j. rewrite H, lookup_delete_Some. split.
      * intros [[Hne Hh] Ha]. split; [done|]. intros x lx [->|Hx]%elem_of_cons Hlx; [congruence|]. apply (Ha x lx Hx). rewrite lookup_delete_ne by (by intros ->). done.
      * intros [Hh Ha]. split; [split; [apply (Ha i l); [by left|done]|done]|]. intros x lx Hx Hlx. apply lookup_delete_Some in Hlx as [_ Hlx]. apply (Ha x lx); [by right|done].
Qed.

(** ** A reference is given back *)
Section Decrement.
Context (root rank : nat -> nat) (st : state) (R : nat) (r : library) (n : Z) (Hr : loaded st !! R = Some r).
Notation st' := (put_library R (set_count n r) st).
Lemma counted_lookup j l' : loaded st' !! j = Some l' -> exists l, loaded st !! j = Some l /\ children l' = children l /\ parents l' = parents l /\ linked l' = linked l /\
  local_group_root l' = local_group_root l /\ handle l' = handle l /\ (j <> R -> l' = l) /\ (j = R -> l' = set_count n r).
Proof.
  unfold put_library, set_loaded. cbn [loaded]. destruct (decide (j = R)) as [->|Hj].
  - rewrite lookup_insert_eq. intros [= <-]. exists r. split_and!; done.
  - rewrite lookup_insert_ne by done. intros H. exists l'. split_and!; done.
Qed.
Lemma counted_some j l : loaded st !! j = Some l -> exists l', loaded st' !! j = Some l' /\ children l' = children l /\ parents l' = parents l /\ handle l' = handle l.
Proof.
  unfold put_library, set_loaded. cbn [loaded]. destruct (decide (j = R)) as [->|Hj]; [rewrite lookup_insert_eq; intros H; rewrite Hr in H; injection H as <-; by eexists|].
  rewrite lookup_insert_ne by done. intros H. by eexists.
Qed.
Lemma counted_live j : is_Some (loaded st' !! j) <-> is_Some (loaded st !! j).
Proof. split; intros [l H]; [apply counted_lookup in H as (l0 & H & _)|apply counted_some in H as (l0 & H & _)]; by eexists. Qed.
Lemma counted_kids : kids_of st' = kids_of st.
Proof.
  unfold kids_of, put_library, set_loaded. cbn [loaded]. rewrite fmap_insert. apply insert_id. by rewrite lookup_fmap, Hr.
Qed.
Lemma inv_counted refs refs' : inv root rank st refs -> n = Z.of_nat (refs_to root R refs' + crossings root (kids_of st) R) -> n < 2 ^ 64 -> root R = R ->
  (forall x, x ∈ refs' -> x ∈ refs \/ is_Some (loaded st !! x) /\ forall first rest, solist st = first :: rest -> root x <> first) -> (forall r', r' <> R -> refs_to root r' refs' = refs_to root r' refs) -> inv root rank st' refs'.
Proof.
  intros [Hlk Hrt Hch Hpa Hgr Hrk Hrf Hct Hso Hns Hha Hodd] Hn Hb HR Hsub Hoth. split.
  - intros j l (l0 & H0 & _ & _ & -> & _)%counted_lookup. eauto.
  - intros j l (l0 & H0 & _ & _ & _ & -> & _)%counted_lookup. rewrite counted_live. eauto.
  - intros j l c (l0 & H0 & -> & _)%counted_lookup Hc. destruct (Hch j l0 c H0 Hc) as (lc & Hlc & Hj). destruct (counted_some c lc Hlc) as (lc' & ? & _ & E & _). exists lc'. by rewrite E.
  - intros j l q (l0 & H0 & _ & -> & _)%counted_lookup Hq. destruct (Hpa j l0 q H0 Hq) as (lq & Hlq & Hj). destruct (counted_some q lq Hlq) as (lq' & ? & E & _ & _). exists lq'. by rewrite E.
  - intros j l (l0 & H0 & _ & -> & _)%counted_lookup. eauto.
  - intros j c (l & (l0 & H0 & E & _)%counted_lookup & Hc). apply Hrk. exists l0. by rewrite <- E.
  - intros x [Hx|[Hx _]]%Hsub; rewrite counted_live; auto.
  - intros j l (l0 & H0 & _ & _ & _ & _ & _ & Hne & Heq)%counted_lookup Hj. rewrite counted_kids. destruct (decide (j = R)) as [->|Hd]; [by rewrite Heq|].
    rewrite Hne by done. rewrite Hoth by done. by apply Hct.
  - destruct Hso as (first & rest & Hs & Hf & Hin & Hlv & Hx & Hc). exists first, rest. split_and!; [done|done| | |intros x [Hxr|[_ Hxr]]%Hsub; eauto|].
    + intros j. rewrite counted_live. auto.
    + intros x Hxx. rewrite counted_live. auto.
    + intros j l c (l0 & H0 & -> & _)%counted_lookup. eauto.
  - intros x Hx. rewrite counted_live. auto.
  - intros h j. cbn [handles put_library set_loaded]. rewrite Hha. split.
    + intros (l & Hl & Hh). destruct (counted_some j l Hl) as (l' & ? & _ & _ & E). exists l'. by rewrite E.
    + intros (l & (l0 & H0 & _ & _ & _ & _ & E & _)%counted_lookup & Hh). exists l0. by rewrite <- E.
  - apply Hodd.
Qed.
End Decrement.
Lemma inv_decrement root rank st refs i r : inv root rank st (i :: refs) -> loaded st !! root i = Some r -> is_Some (loaded st !! i) ->
  wrapu 64 (ref_count r - 1) = ref_count r - 1 /\ 0 <= ref_count r - 1 /\ inv root rank (put_library (root i) (set_count (ref_count r - 1) r) st) refs.
Proof.
  intros Hinv Hr [l Hi]. destruct (i_root _ _ _ _ Hinv i l Hi) as (_ & Hrr & _). destruct (i_count _ _ _ _ Hinv _ _ Hr Hrr) as [Hc Hb].
  rewrite refs_to_cons, decide_True in Hc by done. split_and!; [apply wrapu_small; lia|lia|].
  eapply inv_counted; [done|exact Hinv|lia|lia|done|intros x Hx; left; by right|]. intros q Hq. rewrite refs_to_cons. by rewrite decide_False.
Qed.

Lemma no_link_from_outside root rank st refs R : inv root rank st refs -> crossings root (kids_of st) R = 0%nat ->
  forall c lc q, loaded st !! c = Some lc -> root c = R -> q ∈ parents lc -> root q = R.
Proof.
  intros Hinv H0 c lc q Hc Hr Hq. destruct (i_parents _ _ _ _ Hinv c lc q Hc Hq) as (lq & Hlq & Hin). destruct (decide (root q = R)) as [|Hne]; [done|].
  assert (kids_of st !! q = Some (children lq)) as Hk by (unfold kids_of; by rewrite lookup_fmap, Hlq). rewrite (crossings_delete _ _ _ _ _ Hk) in H0.
  unfold cross in H0. rewrite decide_False in H0 by done. assert (c ∈ filter (fun c => root c = R) (children lq)) as Hf by (by apply list_elem_of_filter).
  destruct (filter _ (children lq)); [by apply not_elem_of_nil in Hf|cbn in H0; lia].
Qed.

(** ** A group leaves *)
Section Leave.
Context (root rank : nat -> nat) (st st2 : state) (refs local : list nat) (R : nat) (m1 : gmap nat library).
Context (Hinv : inv root rank st refs) (Hcross : crossings root (kids_of st) R = 0%nat) (Hrefs : refs_to root R refs = 0%nat).
Context (Hnd : NoDup local) (Hlocal : forall x, x ∈ local <-> is_Some (loaded st !! x) /\ root x = R).
Context (Hview : view (kids_taken local) (parents_left local) (loaded st) m1).
Context (Hloaded : forall j, loaded st2 !! j = if decide (j ∈ local) then None else m1 !! j).
Context (Hsolist : exists first rest, solist st = first :: rest /\ R <> first /\ solist st2 = first :: filter (fun i => i ∉ local) rest).
Context (Hns : ns st2 = filter (fun i => i ∉ local) (ns st)).
Context (Hhandles : forall h j, handles st2 !! h = Some j <-> handles st !! h = Some j /\ forall i l, i ∈ local -> loaded st !! i = Some l -> handle l <> h).

Lemma left_lookup j l' : loaded st2 !! j = Some l' -> exists l, loaded st !! j = Some l /\ root j <> R /\ l' = set_links (children l) (parents_left local j l) l.
Proof.
  rewrite Hloaded. destruct (decide (j ∈ local)) as [|Hj]; [done|]. rewrite Hview. destruct (loaded st !! j) as [l|] eqn:E; [|done]. cbn. intros [= <-]. exists l.
  unfold kids_taken. rewrite decide_False by done. split_and!; [done| |done]. intros Hr. apply Hj, Hlocal. split; [by eexists|done].
Qed.
Lemma left_some j l : loaded st !! j = Some l -> root j <> R -> loaded st2 !! j = Some (set_links (children l) (parents_left local j l) l).
Proof.
  intros Hj Hr. rewrite Hloaded. assert (j ∉ local) as Hn by (rewrite Hlocal; tauto). rewrite decide_False by done. rewrite Hview, Hj. cbn. unfold kids_taken. by rewrite decide_False.
Qed.
Lemma child_left j l c : loaded st !! j = Some l -> root j <> R -> c ∈ children l -> root c <> R.
Proof.
  intros Hj Hr Hc HR. destruct (i_children _ _ _ _ Hinv j l c Hj Hc) as (lc & Hlc & Hp). apply Hr. by eapply no_link_from_outside.
Qed.
Lemma inv_left : inv root rank st2 (external_of root R (kids_of st) local ++ refs).
Proof.
  assert (forall x, x ∈ external_of root R (kids_of st) local -> root x <> R /\ exists m l, loaded st !! m = Some l /\ x ∈ children l) as Hext.
  { intros x (m & Hx & Hm)%list_elem_of_bind. unfold kids_of in Hx. rewrite lookup_fmap in Hx. destruct (loaded st !! m) as [l|] eqn:E; cbn in Hx.
    - apply list_elem_of_filter in Hx as [? ?]. split; [done|]. by exists m, l.
    - by apply not_elem_of_nil in Hx. }
  assert (forall x, x ∈ external_of root R (kids_of st) local ++ refs -> is_Some (loaded st !! x) /\ root x <> R) as Hlive.
  { intros x [Hx|Hx]%elem_of_app; [|split; [by apply (i_refs _ _ _ _ Hinv)|by eapply refs_to_zero]]. destruct (Hext x Hx) as (? & m & l & Hm & Hc). split; [|done].
    destruct (i_children _ _ _ _ Hinv m l x Hm Hc) as (lc & ? & _). by eexists. }
  split.
  - intros j l (l0 & H0 & _ & ->)%left_lookup. by apply (i_linked _ _ _ _ Hinv j l0).
  - intros j l (l0 & H0 & Hr & ->)%left_lookup. destruct (i_root _ _ _ _ Hinv j l0 H0) as (? & Hrr & [lr Hlr]). split_and!; [done|done|]. eexists. apply left_some; [done|congruence].
  - intros j l c (l0 & H0 & Hr & ->)%left_lookup Hc. cbn in Hc. destruct (i_children _ _ _ _ Hinv j l0 c H0 Hc) as (lc & Hlc & Hp). eexists.
    split; [apply left_some; [done|exact (child_left j l0 c H0 Hr Hc)]|]. cbn. apply list_elem_of_filter. split; [rewrite Hlocal; tauto|done].
  - intros j l q (l0 & H0 & Hr & ->)%left_lookup Hq. cbn in Hq. apply list_elem_of_filter in Hq as [Hql Hq]. destruct (i_parents _ _ _ _ Hinv j l0 q H0 Hq) as (lq & Hlq & Hc). eexists.
    split; [apply left_some; [done|]|done]. intros HR. apply Hql, Hlocal. split; [by eexists|done].
  - intros j l (l0 & H0 & Hr & ->)%left_lookup Hne. destruct (i_group _ _ _ _ Hinv j l0 H0 Hne) as (q & Hq & Hrq). exists q. split; [|done]. cbn. apply list_elem_of_filter. split; [rewrite Hlocal; intros [_ ?]; congruence|done].
  - intros j c (l & (l0 & H0 & _ & ->)%left_lookup & Hc). apply (i_rank _ _ _ _ Hinv). by exists l0.
  - intros x [[lx Hlx] Hr]%Hlive. eexists. by apply left_some.
  - intros r l (l0 & H0 & Hr & ->)%left_lookup Hrr. cbn [ref_count set_links]. destruct (i_count _ _ _ _ Hinv r l0 H0 Hrr) as [Hc Hb]. split; [|done]. rewrite Hc, refs_to_app.
    rewrite (crossings_leave root (kids_of st) R r local Hnd) with (kids' := kids_of st2); [lia| |congruence|].
    + intros x Hx. apply Hlocal in Hx as [[lx Hlx] ?]. split; [|done]. unfold kids_of. rewrite lookup_fmap, Hlx. by eexists.
    + intros j. unfold kids_of. rewrite !lookup_fmap, Hloaded. destruct (decide (j ∈ local)) as [|Hj]; [done|]. rewrite Hview. destruct (loaded st !! j); [|done]. cbn. unfold kids_taken. by rewrite decide_False.
  - destruct Hsolist as (first & rest & Hs & HRf & Hs2). destruct (i_solist _ _ _ _ Hinv) as (first' & rest' & E & Hf & Hin & Hlv & Hx & Hc). rewrite Hs in E. injection E as <- <-.
    exists first, (filter (fun i => i ∉ local) rest). split_and!; [done|done| | | |].
    + intros j [l (l0 & H0 & Hr & _)%left_lookup]. destruct (Hin j) as [|Hj]; [by eexists|by left|right]. apply list_elem_of_filter. split; [rewrite Hlocal; tauto|done].
    + intros x Hxx. assert (x ∈ first :: rest /\ root x <> R) as [Hxr HxR].
      { apply elem_of_cons in Hxx as [->|[Hxn Hxr]%list_elem_of_filter]; [split; [by left|congruence]|]. split; [by right|]. intros Hr. apply Hxn, Hlocal. split; [apply Hlv; by right|done]. }
      destruct (Hlv x Hxr) as [lx Hlx]. eexists. by apply left_some.
    + intros x [Hx'|Hx']%elem_of_app; [|auto]. destruct (Hext x Hx') as (_ & m & l & Hm & Hxc). eauto.
    + intros j l c (l0 & H0 & _ & ->)%left_lookup Hcc. eauto.
  - intros x. rewrite Hns. intros [Hxl Hx]%list_elem_of_filter. destruct (i_ns _ _ _ _ Hinv x Hx) as [lx Hlx]. eexists. apply left_some; [exact Hlx|]. intros Hr. apply Hxl, Hlocal. split; [by eexists|done].
  - intros h j. rewrite Hhandles, (i_handles _ _ _ _ Hinv h j). split.
    + intros [(l & Hl & Hh) Ha]. eexists. split; [apply left_some; [exact Hl|]|done]. intros HR. apply (Ha j l); [apply Hlocal; split; [by eexists|done]|done|done].
    + intros (l & (l0 & H0 & Hr & ->)%left_lookup & Hh). split; [by exists l0|]. intros i li Hi Hli Hhi.
      assert (handles st !! h = Some i) as E1 by (apply (i_handles _ _ _ _ Hinv); by exists li). assert (handles st !! h = Some j) as E2 by (apply (i_handles _ _ _ _ Hinv); by exists l0).
      rewrite E1 in E2. injection E2 as ->. apply Hlocal in Hi as [_ ?]. done.
  - intros h j [Hh _]%Hhandles. by apply (i_odd _ _ _ _ Hinv h j).
Qed.
End Leave.

(** ** Unloading *)
(** Nothing is loaded that was not. *)
Definition shrinks (st st' : state) : Prop := forall j, loaded st !! j = None -> loaded st' !! j = None.
Lemma shrinks_size st st' : shrinks st st' -> (size (loaded st') <= size (loaded st))%nat.
Proof.
  intros H. rewrite <- !(size_dom (D := gset nat)). apply subseteq_size. intros j. rewrite !elem_of_dom. intros [l Hl]. destruct (loaded st !! j) eqn:E; [by eexists|]. rewrite H in Hl by done. done.
Qed.
Lemma shrinks_strict st st' j : shrinks st st' -> is_Some (loaded st !! j) -> loaded st' !! j = None -> (size (loaded st') < size (loaded st))%nat.
Proof.
  intros H Hj Hn. rewrite <- !(size_dom (D := gset nat)). apply subset_size. split.
  - intros x. rewrite !elem_of_dom. intros [l Hl]. destruct (loaded st !! x) eqn:E; [by eexists|]. rewrite H in Hl by done. done.
  - intros Hsub. specialize (Hsub j). rewrite !elem_of_dom in Hsub. specialize (Hsub Hj). rewrite Hn in Hsub. by destruct Hsub.
Qed.
(** Running constructors changes no link and no count. *)
Lemma inv_ran root rank st st' order refs : ran st st' order -> inv root rank st refs -> inv root rank st' refs.
Proof.
  intros Hran Hinv. assert (forall j l', loaded st' !! j = Some l' -> exists l, loaded st !! j = Some l /\ (l' = l \/ l' = set_called l)) as Hb.
  { intros j l' Hj. rewrite (ran_loaded _ _ _ Hran) in Hj. destruct (loaded st !! j) as [l|]; [|done]. injection Hj as <-. exists l. split; [done|]. destruct (decide _); auto. }
  assert (forall j l, loaded st !! j = Some l -> exists l', loaded st' !! j = Some l' /\ (l' = l \/ l' = set_called l)) as Hf.
  { intros j l Hj. rewrite (ran_loaded _ _ _ Hran), Hj. eexists. split; [done|]. destruct (decide _); auto. }
  assert (forall j, is_Some (loaded st' !! j) <-> is_Some (loaded st !! j)) as Hlive by (intros j; by eapply ran_loaded_iff).
  assert (kids_of st' = kids_of st) as Hkids.
  { apply map_eq. intros j. unfold kids_of. rewrite !lookup_fmap, (ran_loaded _ _ _ Hran). destruct (loaded st !! j); [|done]. cbn. by destruct (decide _). }
  destruct (ran_rest _ _ _ Hran) as (Ens & Eso & Eha). destruct Hinv as [Hlk Hrt Hch Hpa Hgr Hrk Hrf Hct Hso Hns Hha Hodd]. split.
  - intros i l' (l & Hl & [->| ->])%Hb; cbn; eauto.
  - intros i l' (l & Hl & [->| ->])%Hb; rewrite Hlive; cbn; eauto.
  - intros i l' c (l & Hl & Hd)%Hb Hc. assert (c ∈ children l) as Hc' by (by destruct Hd; subst). destruct (Hch i l c Hl Hc') as (lc & Hlc & Hp). destruct (Hf c lc Hlc) as (l2 & ? & [->| ->]); by eexists.
  - intros i l' q (l & Hl & Hd)%Hb Hq. assert (q ∈ parents l) as Hq' by (by destruct Hd; subst). destruct (Hpa i l q Hl Hq') as (lq & Hlq & Hp). destruct (Hf q lq Hlq) as (l2 & ? & [->| ->]); by eexists.
  - intros i l' (l & Hl & [->| ->])%Hb; cbn; eauto.
  - intros i c Hn%(ran_needs _ _ _ _ _ Hran). auto.
  - intros x Hx. apply Hlive. auto.
  - intros r l' (l & Hl & [->| ->])%Hb; rewrite Hkids; cbn; eauto.
  - rewrite Eso. destruct Hso as (first & rest & Hs & Hf1 & Hin & Hlv & Hx & Hc). exists first, rest. split_and!; [done|done| | |done|].
    + intros i. rewrite Hlive. auto.
    + intros x Hxx. apply Hlive. auto.
    + intros i l' c (l & Hl & [->| ->])%Hb; cbn; eauto.
  - intros x. rewrite Ens, Hlive. auto.
  - intros h i. rewrite Eha, Hha. split; [intros (l & (l2 & ? & [->| ->])%Hf & ?); by eexists|intros (l & (l2 & ? & [->| ->])%Hb & ?); by eexists].
  - intros h i. rewrite Eha. apply Hodd.
Qed.
Lemma inv_record root rank st refs cs : inv root rank st refs -> inv root rank (record cs st) refs.
Proof. intros []. by split. Qed.
(** A group that no other links to is collected, destroyed and freed. *)
Lemma group_gone root rank R st first rest :
  (forall i l, loaded st !! i = Some l -> linked l = true /\ local_group_root l <> R <-> root i <> R) ->
  (forall i l c, loaded st !! i = Some l -> c ∈ children l -> exists lc, loaded st !! c = Some lc /\ i ∈ parents lc) ->
  (forall i l p, loaded st !! i = Some l -> p ∈ parents l -> exists lp, loaded st !! p = Some lp /\ i ∈ children lp) -> ranked st rank ->
  is_Some (loaded st !! R) -> root R = R -> (forall x l, loaded st !! x = Some l -> root x = R -> x <> R -> exists q, q ∈ parents l) ->
  (forall c lc q, loaded st !! c = Some lc -> root c = R -> q ∈ parents lc -> root q = R) ->
  solist st = first :: rest -> root first <> R -> (forall i, is_Some (loaded st !! i) -> i = first \/ i ∈ rest) ->
  exists m1 local st2, collect_loop (2 + edges (loaded st)) R [R] [] [] st = Ret (set_loaded m1 st, local, external_of root R (kids_of st) local) /\
    NoDup local /\ (forall x, x ∈ local <-> is_Some (loaded st !! x) /\ root x = R) /\ view (kids_taken local) (parents_left local) (loaded st) m1 /\
    (s ← for_all call_destructors local (set_loaded m1 st); for_all (fun st i => soinfo_free i st) local s) = Ret st2 /\
    (forall j, loaded st2 !! j = if decide (j ∈ local) then None else m1 !! j) /\ solist st2 = first :: filter (fun i => i ∉ local) rest /\
    ns st2 = filter (fun i => i ∉ local) (ns st) /\ calls st2 = calls st ++ (local ≫= dtor_calls (set_loaded m1 st)) /\
    (forall h j, handles st2 !! h = Some j <-> handles st !! h = Some j /\ forall i l, i ∈ local -> loaded st !! i = Some l -> handle l <> h).
Proof.
  intros Hout Hch Hpa Hrk HR HRR Hgroup Hno Hs Hf Hin.
  assert (view (kids_taken []) (parents_left []) (loaded st) (loaded st)) as Hv0.
  { intros j. destruct (loaded st !! j) as [l|]; [|done]. cbn. unfold kids_taken, parents_left. rewrite decide_False by apply not_elem_of_nil.
    rewrite filter_keeps by (intros; apply not_elem_of_nil). by destruct l. }
  destruct (collect_spec root rank R st Hout Hch Hpa Hrk (2 + edges (loaded st)) [R] [] (loaded st)) as (m1 & local & E & V & Hnd & Hl & Hh & HRl).
  - constructor.
  - intros x ->%list_elem_of_singleton. done.
  - done.
  - intros x [lx Hx] Hr Hne. right. right. destruct (Hgroup x lx Hx) as [q Hq]; [done|done|]. exists lx, q. split_and!; [done|done|apply not_elem_of_nil].
  - by left.
  - rewrite unseen_nil. cbn. lia.
  - pose proof (group_collected root rank R st Hpa Hrk local Hno HRl Hh) as Hall.
    assert (forall x, x ∈ local <-> is_Some (loaded st !! x) /\ root x = R) as Hlocal by (intros x; split; [apply Hl|intros [? ?]; auto]).
    assert (forall i, i ∈ local -> exists l, loaded (record (local ≫= dtor_calls (set_loaded m1 st)) (set_loaded m1 st)) !! i = Some l /\ children l = [] /\ parents l = []) as Hfree.
    { intros i Hi. destruct (Hl i Hi) as [[l Hli] Hr]. cbn [record set_loaded loaded]. rewrite V, Hli. cbn. eexists. split; [done|]. cbn. unfold kids_taken. rewrite decide_True by done. split; [done|].
      destruct (parents_left local i l) as [|q qs] eqn:Eq; [done|]. assert (q ∈ parents_left local i l) as [Hql Hq]%list_elem_of_filter by (rewrite Eq; by left).
      destruct Hql. apply Hlocal. destruct (Hpa i l q Hli Hq) as (lq & ? & _). split; [by eexists|exact (Hno i l q Hli Hr Hq)]. }
    destruct (free_all local (record (local ≫= dtor_calls (set_loaded m1 st)) (set_loaded m1 st)) first rest Hnd Hfree Hs) as (st2 & E2 & L2 & S2 & N2 & C2 & H2).
    { intros i Hi. destruct (Hl i Hi) as [Hli Hr]. assert (i <> first) as Hif by congruence. split; [done|]. destruct (Hin i Hli); done. }
    exists m1, local, st2. split_and!; [by replace (set_loaded (loaded st) st) with st in E by (by destruct st)|done|done|done| |done|done|done|done|].
    + rewrite destructors_ran; [done|]. apply Forall_forall. intros i Hi. destruct (Hfree i Hi) as (l & ? & _). by eexists.
    + intros h j. rewrite H2. cbn [record set_loaded handles loaded]. split; intros [? Ha]; (split; [done|]); intros i l Hi Hli.
      * apply (Ha i (set_links (kids_taken local i l) (parents_left local i l) l)); [done|]. by rewrite V, Hli.
      * rewrite V in Hli. destruct (loaded st !! i) as [l0|] eqn:E0; [|done]. injection Hli as <-. cbn. by apply (Ha i l0).
Qed.
(** The group of [R], when nothing refers to it. *)
Lemma group_freed root rank st refs R r : inv root rank st refs -> loaded st !! R = Some r -> root R = R -> ref_count r = 0 -> (forall first rest, solist st = first :: rest -> R <> first) ->
  exists m1 local st2, collect_loop (2 + edges (loaded st)) R [R] [] [] st = Ret (set_loaded m1 st, local, external_of root R (kids_of st) local) /\
    (forall x, x ∈ local <-> is_Some (loaded st !! x) /\ root x = R) /\
    (s ← for_all call_destructors local (set_loaded m1 st); for_all (fun st i => soinfo_free i st) local s) = Ret st2 /\
    inv root rank st2 (external_of root R (kids_of st) local ++ refs) /\ shrinks st st2 /\ (forall x, root x = R -> loaded st2 !! x = None).
Proof.
  intros Hinv HR HRR H0 HRf. destruct (i_count _ _ _ _ Hinv R r HR HRR) as [Hc _]. assert (refs_to root R refs = 0 /\ crossings root (kids_of st) R = 0)%nat as [Hrefs Hcross] by lia.
  pose proof (no_link_from_outside _ _ _ _ _ Hinv Hcross) as Hno. destruct (i_solist _ _ _ _ Hinv) as (first & rest & Hs & Hf & Hin & _).
  destruct (group_gone root rank R st first rest) as (m1 & local & st2 & E & Hnd & Hlocal & V & E2 & L2 & S2 & N2 & _ & H2); [| | | | |done| |done|done| |done|].
  - intros i l Hi. rewrite (i_linked _ _ _ _ Hinv i l Hi). destruct (i_root _ _ _ _ Hinv i l Hi) as [-> _]. tauto.
  - apply Hinv.
  - apply Hinv.
  - apply Hinv.
  - by eexists.
  - intros x l Hx Hr Hne. destruct (i_group _ _ _ _ Hinv x l Hx) as (q & Hq & _); [congruence|]. by exists q.
  - rewrite Hf. intros ->. by apply (HRf R rest Hs).
  - exists m1, local, st2. split_and!; [done|done|done| | |].
    + eapply inv_left with (m1 := m1); eauto. exists first, rest. split_and!; [done|exact (HRf first rest Hs)|exact S2].
    + intros j Hj. rewrite L2. destruct (decide (j ∈ local)); [done|]. by rewrite V, Hj.
    + intros x Hr. rewrite L2. destruct (decide (x ∈ local)) as [|Hn]; [done|]. rewrite V. destruct (loaded st !! x) as [lx|] eqn:Ex; [|done].
      destruct Hn. apply Hlocal. split; [by eexists|done].
Qed.

Definition released (root rank : nat -> nat) (i : nat) (st st' : state) (refs : list nat) : Prop :=
  inv root rank st' refs /\ shrinks st st' /\
  forall r, loaded st !! root i = Some r ->
    (ref_count r <> 1 \/ can_unload r = false -> st' = put_library (root i) (set_count (ref_count r - 1) r) st) /\
    (ref_count r = 1 -> can_unload r = true -> forall x, root x = root i -> loaded st' !! x = None).
Lemma unload_all (root rank : nat -> nat) (fuel : nat)
  (IH : forall st refs i, inv root rank st (i :: refs) -> (size (loaded st) < fuel)%nat -> exists st', soinfo_unload fuel i st = Ret st' /\ released root rank i st st' refs) ext :
  forall st refs, inv root rank st (ext ++ refs) -> (size (loaded st) < fuel)%nat -> exists st', for_all (fun st i => soinfo_unload fuel i st) ext st = Ret st' /\ inv root rank st' refs /\ shrinks st st'.
Proof.
  induction ext as [|i ext IHe]; intros st refs Hinv Hs; [exists st; split_and!; [done|done|by intros j Hj]|]. destruct (IH st (ext ++ refs) i Hinv Hs) as (st1 & E & Hinv1 & Hsh & _). cbn [for_all]. rewrite E. cbn [mbind outcome_bind].
  destruct (IHe st1 refs Hinv1) as (st2 & E2 & Hinv2 & Hsh2); [pose proof (shrinks_size _ _ Hsh); lia|]. exists st2. split_and!; [done|done|]. intros j Hj. auto.
Qed.
Lemma unload_released root rank fuel : forall st refs i, inv root rank st (i :: refs) -> (size (loaded st) < fuel)%nat -> exists st', soinfo_unload fuel i st = Ret st' /\ released root rank i st st' refs.
Proof.
  induction fuel as [|fuel IH]; intros st refs i Hinv Hs; [lia|]. destruct (i_refs _ _ _ _ Hinv i) as [l Hi]; [by left|].
  destruct (i_root _ _ _ _ Hinv i l Hi) as (Hlr & Hrr & [r Hr]). destruct (inv_decrement root rank st refs i r Hinv Hr) as (Hwrap & Hpos & Hdec); [by eexists|].
  cbn [soinfo_unload]. rewrite (get_ret _ _ _ Hi). cbn [mbind outcome_bind]. rewrite (i_linked _ _ _ _ Hinv i l Hi), Hlr, (get_ret _ _ _ Hr). cbn [mbind outcome_bind]. rewrite Hwrap.
  set (st1 := put_library (root i) (set_count (ref_count r - 1) r) st) in *.
  assert (shrinks st st1) as Hsh1 by (intros j Hj; unfold st1, put_library, set_loaded; cbn [loaded]; rewrite lookup_insert_ne; [done|congruence]).
  destruct (decide (0 < ref_count r - 1)) as [Hgt|Hle].
  { exists st1. split; [done|]. split_and!; [done|done|]. intros r' Hr'. rewrite Hr in Hr'. injection Hr' as <-. split; [done|]. intros; lia. }
  assert (loaded st1 !! root i = Some (set_count (ref_count r - 1) r)) as Hr1 by apply lookup_insert_eq.
  rewrite (get_ret _ _ _ Hr1). cbn [mbind outcome_bind]. destruct (can_unload r) eqn:Hcan; change (can_unload (set_count (ref_count r - 1) r)) with (can_unload r); rewrite Hcan; cbn [negb].
  2: { exists st1. split; [done|]. split_and!; [done|done|]. intros r' Hr'. rewrite Hr in Hr'. injection Hr' as <-. split; [done|]. intros _ ?. congruence. }
  destruct (group_freed root rank st1 refs (root i) _ Hdec Hr1 Hrr) as (m1 & local & st2 & E & Hlocal & E2 & Hinv2 & Hsh2 & Hgone).
  { cbn. lia. }
  { intros first rest Hsol. destruct (i_solist _ _ _ _ Hinv) as (f' & r' & Hs' & _ & _ & _ & Hx & _). unfold st1 in Hsol. cbn in Hsol. rewrite Hs' in Hsol. injection Hsol as <- <-. apply (Hx i). by left. }
  rewrite E. cbn [mbind outcome_bind]. destruct (for_all call_destructors local (set_loaded m1 st1)) as [st1'| | |]; [|done..]. cbn [mbind outcome_bind] in *. rewrite E2. cbn [mbind outcome_bind].
  change (linked (set_count (ref_count r - 1) r)) with (linked r). rewrite (i_linked _ _ _ _ Hinv (root i) r Hr).
  assert (size (loaded st2) < fuel)%nat as Hs2.
  { pose proof (shrinks_size _ _ Hsh1). pose proof (shrinks_strict st1 st2 (root i) Hsh2 (ex_intro _ _ Hr1) (Hgone (root i) Hrr)). lia. }
  destruct (unload_all root rank fuel IH _ st2 refs Hinv2 Hs2) as (st3 & E3 & Hinv3 & Hsh3). exists st3. split; [done|]. split_and!; [done|intros j Hj; auto|].
  intros r' Hr'. rewrite Hr in Hr'. injection Hr' as <-. split; [intros [|]; [lia|congruence]|]. intros _ _ x Hx. apply Hsh3. by apply Hgone.
Qed.

Lemma close_released root rank st refs h i : inv root rank st (i :: refs) -> handles st !! h = Some i -> exists st', do_dlclose h st = Ret (0, st') /\ released root rank i st st' refs.
Proof.
  intros Hinv Hh. pose proof (i_odd _ _ _ _ Hinv h i Hh) as Hodd. destruct (unload_released root rank (S (size (loaded st))) st refs i Hinv (le_n _)) as (st' & E & Hrel). exists st'. split; [|exact Hrel].
  unfold do_dlclose, soinfo_from_handle. rewrite decide_True by done. cbn [mbind outcome_bind]. rewrite Hh, E. done.
Qed.
(** C35. Unloading is safe: while the dependencies of the loaded libraries have no cycle and every reference
    is counted, giving back a reference that is held ends, never touches a library that has been
    freed, and leaves libraries whose links, groups, handles and counts are right again.  With
    other references to the group, or a group that may not be unloaded, only the count changes;
    else the whole group is gone, and so are the groups only it referred to. *)
Theorem unload_safe (root rank : nat -> nat) (st : state) (refs : list nat) (h : Z) (i : nat) : inv root rank st (i :: refs) -> handles st !! h = Some i ->
  exists st', do_dlclose h st = Ret (0, st') /\ inv root rank st' refs /\ shrinks st st' /\
    forall r, loaded st !! root i = Some r ->
      (ref_count r <> 1 \/ can_unload r = false -> st' = put_library (root i) (set_count (ref_count r - 1) r) st) /\
      (ref_count r = 1 -> can_unload r = true -> forall x, root x = root i -> loaded st' !! x = None).
Proof. intros Hinv Hh. exact (close_released root rank st refs h i Hinv Hh). Qed.

(** ** Handles *)
Lemma odd_next k : 0 <= k < 2 ^ 62 -> Z.lor (wrapu 64 (2 * k + 3)) 1 = 2 * k + 3.
Proof.
  intros Hk. rewrite wrapu_small by lia. replace (2 * k + 3) with ((k + 1) * 2 ^ 1 + 1) by lia.
  rewrite <- (lor_shiftl_low (k + 1) 1 1) by lia. by rewrite <- Z.lor_assoc, Z.lor_diag.
Qed.
Lemma odd_bit k : Z.land (2 * k + 3) 1 = 1.
Proof. transitivity ((2 * k + 3) mod 2 ^ 1); [apply (land_low 1); lia|]. change (2 ^ 1) with 2. replace (2 * k + 3) with (1 + (k + 1) * 2) by lia. by rewrite Z.mod_add. Qed.
Lemma taken_le st (k : nat) : (forall j, (j < k)%nat -> is_Some (handles st !! (2 * Z.of_nat j + 3))) -> (k <= size (handles st))%nat.
Proof.
  intros Htaken. assert (NoDup ((fun j => 2 * Z.of_nat j + 3) <$> seq 0 k)) as Hnd by (apply NoDup_fmap_2_strong; [intros; lia|apply NoDup_seq]).
  pose proof (size_list_to_set (C := gset Z) _ Hnd) as E. rewrite length_fmap, length_seq in E.
  assert (list_to_set ((fun j => 2 * Z.of_nat j + 3) <$> seq 0 k) ⊆ dom (handles st)) as Hsub%subseteq_size.
  { intros x. rewrite elem_of_list_to_set, elem_of_dom. intros (j & -> & Hj)%list_elem_of_fmap. apply list_elem_of_In, in_seq in Hj. apply Htaken. lia. }
  rewrite size_dom in Hsub. lia.
Qed.
Lemma handle_found st fuel : forall k : nat, (size (handles st) < k + fuel)%nat -> Z.of_nat (size (handles st)) < 2 ^ 60 -> (forall j, (j < k)%nat -> is_Some (handles st !! (2 * Z.of_nat j + 3))) ->
  exists h, handle_loop fuel st (if decide (k = 0%nat) then 0 else 2 * Z.of_nat k + 1) = Ret h /\ handles st !! h = None /\ Z.land h 1 <> 0 /\ h <> RTLD_NEXT.
Proof.
  induction fuel as [|fuel IH]; intros k Hf Hs Htaken; pose proof (taken_le st k Htaken) as Hk; [lia|]. cbn [handle_loop].
  replace (Z.lor (wrapu 64 ((if decide (k = 0%nat) then 0 else 2 * Z.of_nat k + 1) + 2)) 1) with (2 * Z.of_nat k + 3).
  2: { destruct (decide (k = 0%nat)) as [->|]; [done|]. replace (2 * Z.of_nat k + 1 + 2) with (2 * Z.of_nat k + 3) by lia. symmetry. apply odd_next. lia. }
  assert (2 * Z.of_nat k + 3 <> RTLD_DEFAULT /\ 2 * Z.of_nat k + 3 <> RTLD_NEXT) as [? ?] by (unfold RTLD_DEFAULT, RTLD_NEXT; lia).
  destruct (decide (is_Some (handles st !! (2 * Z.of_nat k + 3)))) as [Ht|Hfree].
  - rewrite decide_True by tauto. destruct (IH (S k)) as (h & E & Hh); [lia|done| |].
    { intros j Hj. destruct (decide (j = k)) as [->|]; [done|]. apply Htaken. lia. }
    exists h. split; [|done]. rewrite decide_False in E by done. by replace (2 * Z.of_nat (S k) + 1) with (2 * Z.of_nat k + 3) in E by lia.
  - rewrite decide_False by tauto. eexists. split_and!; [done|by apply eq_None_not_Some|rewrite odd_bit; done|done].
Qed.

(** ** Libraries of the launcher *)
Lemma cross_to_dead root rank st refs i : inv root rank st refs -> loaded st !! i = None -> refs_to root i refs = 0%nat /\ crossings root (kids_of st) i = 0%nat.
Proof.
  intros Hinv Hi. assert (forall x, is_Some (loaded st !! x) -> root x <> i) as Hno.
  { intros x [l Hx] Hr. destruct (i_root _ _ _ _ Hinv x l Hx) as (_ & _ & Hs). rewrite Hr, Hi in Hs. by destruct Hs. }
  split.
  - unfold refs_to. apply length_zero_iff_nil, elem_of_nil_inv. intros x [Hr Hx]%list_elem_of_filter. by apply (Hno x); [apply (i_refs _ _ _ _ Hinv)|].
  - apply crossings_zero. intros j cs Hj _ c Hc. unfold kids_of in Hj. rewrite lookup_fmap in Hj. destruct (loaded st !! j) as [l|] eqn:El; [|done]. injection Hj as <-.
    apply Hno. destruct (i_children _ _ _ _ Hinv j l c El Hc) as (lc & ? & _). by eexists.
Qed.

Lemma alloc_spec PATH_MAX i name l st first rest : solist st = first :: rest -> (length name < PATH_MAX)%nat -> handle l = 0 -> Z.of_nat (size (handles st)) < 2 ^ 60 ->
  exists h, soinfo_alloc PATH_MAX i name l st = Ret (mkState (<[i := set_handle h l]> (loaded st)) (ns st ++ [i]) (first :: rest ++ [i]) (<[h := i]> (handles st)) (calls st)) /\
    handles st !! h = None /\ Z.land h 1 <> 0.
Proof.
  intros Hs Hlen Hh Hsz. unfold soinfo_alloc. rewrite decide_False by lia. cbn [put_library set_loaded solist loaded ns handles calls]. rewrite Hs.
  unfold generate_handle, get. cbn [loaded]. rewrite lookup_insert_eq. cbn [mbind outcome_bind]. rewrite decide_False by (rewrite Hh; tauto).
  destruct (handle_found (mkState (<[i := l]> (loaded st)) (ns st) (first :: rest ++ [i]) (handles st) (calls st)) (2 + size (handles st)) 0) as (h & E & Hfree & Hodd & _); [cbn; lia|done|intros; lia|].
  cbn [handles app] in E, Hfree |- *. rewrite decide_True in E by done. rewrite E. exists h. cbn. by rewrite insert_insert_eq.
Qed.
(** A library of the launcher joins the others: its handle is new, it is the root of its own group, nothing refers to it. *)
Theorem launcher_library_added (root rank : nat -> nat) (PATH_MAX : nat) (st : state) (refs : list nat) (i : nat) (name : bytes) (syms : list (bytes * Z)) :
  inv root rank st refs -> loaded st !! i = None -> root i = i -> (length (basename_of name) < PATH_MAX)%nat -> Z.of_nat (size (handles st)) < 2 ^ 60 ->
  exists h st', load_library PATH_MAX i name syms st = Ret (h, st') /\ inv root rank st' refs /\ handles st' = <[h := i]> (handles st) /\ Z.land h 1 <> 0 /\ handles st !! h = None /\
    (forall j, j <> i -> loaded st' !! j = loaded st !! j) /\ exists l, loaded st' !! i = Some l /\ tables l = LinkerSymbols.load_library syms /\ ref_count l = 0.
Proof.
  intros Hinv Hi Hri Hlen Hsz. destruct (i_solist _ _ _ _ Hinv) as (first & rest & Hs & Hf & Hin & Hlv & Hx & Hc).
  destruct (alloc_spec PATH_MAX i (basename_of name) (launcher_library i name syms) st first rest Hs Hlen eq_refl Hsz) as (h & E & Hfree & Hodd).
  unfold load_library. rewrite E. cbn [mbind outcome_bind]. unfold get. cbn [loaded]. rewrite lookup_insert_eq. cbn [mbind outcome_bind].
  eexists _, _. split; [reflexivity|]. cbn [loaded handles handle set_handle].
  assert (forall j lj, <[i := set_handle h (launcher_library i name syms)]> (loaded st) !! j = Some lj -> (j = i /\ lj = set_handle h (launcher_library i name syms)) \/ (j <> i /\ loaded st !! j = Some lj)) as Hcases.
  { intros j lj Hj. apply lookup_insert_Some in Hj as [[<- <-]|[? ?]]; auto. }
  assert (forall j lj, loaded st !! j = Some lj -> <[i := set_handle h (launcher_library i name syms)]> (loaded st) !! j = Some lj) as Hold by (intros j lj Hj; rewrite lookup_insert_ne by congruence; done).
  destruct (cross_to_dead _ _ _ _ i Hinv Hi) as [Hz1 Hz2].
  assert (forall r, crossings root (kids_of (mkState (<[i := set_handle h (launcher_library i name syms)]> (loaded st)) (ns st ++ [i]) (first :: rest ++ [i]) (<[h := i]> (handles st)) (calls st))) r = crossings root (kids_of st) r) as Hcr.
  { intros r. unfold kids_of. cbn [loaded]. rewrite fmap_insert. rewrite crossings_insert by (by rewrite lookup_fmap, Hi). unfold cross. cbn. by destruct (decide _). }
  split; [|split_and!; [done|done|done|intros; by apply lookup_insert_ne|by eexists; split_and!; [apply lookup_insert_eq|..]]].
  split; cbn [loaded solist handles].
  - intros j l [[-> ->]|[_ H]]%Hcases; [done|]. by apply (i_linked _ _ _ _ Hinv j l).
  - intros j l [[-> ->]|[_ H]]%Hcases; [rewrite Hri; split_and!; [done|done|rewrite lookup_insert_eq; by eexists]|].
    destruct (i_root _ _ _ _ Hinv j l H) as (? & ? & [lr Hlr]). split_and!; [done|done|]. eexists. by apply Hold.
  - intros j l c [[-> ->]|[_ H]]%Hcases Hcc; [by apply not_elem_of_nil in Hcc|]. destruct (i_children _ _ _ _ Hinv j l c H Hcc) as (lc & ? & ?). exists lc. auto.
  - intros j l q [[-> ->]|[_ H]]%Hcases Hq; [by apply not_elem_of_nil in Hq|]. destruct (i_parents _ _ _ _ Hinv j l q H Hq) as (lq & ? & ?). exists lq. auto.
  - intros j l [[-> ->]|[_ H]]%Hcases Hne; [done|]. by apply (i_group _ _ _ _ Hinv j l).
  - intros j c (l & [[-> ->]|[_ H]]%Hcases & Hcc); [by apply not_elem_of_nil in Hcc|]. apply (i_rank _ _ _ _ Hinv). by exists l.
  - intros x [lx Hlx]%(i_refs _ _ _ _ Hinv). exists lx. auto.
  - intros r l [[-> ->]|[_ H]]%Hcases Hr; rewrite Hcr; [rewrite Hz1, Hz2; done|]. by apply (i_count _ _ _ _ Hinv r l).
  - exists first, (rest ++ [i]). split_and!; [done|done| | |done|].
    + intros j [lj [[-> _]|[_ H]]%Hcases]; [right; apply elem_of_app; right; by apply list_elem_of_singleton|]. destruct (Hin j) as [|]; [by eexists|by left|right; apply elem_of_app; by left].
    + intros x Hxx. rewrite app_comm_cons in Hxx. apply elem_of_app in Hxx as [Hxx| ->%list_elem_of_singleton]; [|eexists; apply lookup_insert_eq].
      destruct (Hlv x Hxx) as [lx Hlx]. exists lx. auto.
    + intros j l c [[-> ->]|[_ H]]%Hcases Hcc; [by apply not_elem_of_nil in Hcc|eauto].
  - intros x [Hx'| ->%list_elem_of_singleton]%elem_of_app; [|eexists; apply lookup_insert_eq]. destruct (i_ns _ _ _ _ Hinv x Hx') as [lx Hlx]. exists lx. auto.
  - intros h' j. rewrite lookup_insert_Some, (i_handles _ _ _ _ Hinv h' j). split.
    + intros [[<- <-]|[Hne (l & Hl & Hh)]]; [eexists; split; [apply lookup_insert_eq|done]|exists l; auto].
    + intros (l & [[-> ->]|[Hji H]]%Hcases & Hh); [left; done|]. right. split; [|by exists l].
      intros <-. assert (handles st !! h = Some j) as Ej by (apply (i_handles _ _ _ _ Hinv); by exists l). congruence.
  - intros h' j [[<- _]|[_ H]]%lookup_insert_Some; [done|]. by apply (i_odd _ _ _ _ Hinv h' j).
Qed.
End LinkerUnload.
