(* ===== verification/LinkerDlopen.v ===== *)
(** * Opening libraries is safe (mcpelauncher-linker/bionic/linker)

    [find_libraries] and [do_dlopen] of LinkerGroups keep the invariant of LinkerUnload: a [dlopen] that
    succeeds adds a group of linked libraries and one reference, a [dlopen] that fails leaves the
    libraries exactly as they were.  What the files hold and whether relocation succeeds are
    parameters; the dependencies that result must have no cycle. *)

From S2P Require Import Prelude CxxString LinkerUtils LinkerSymbols LinkerGroups LinkerWalk LinkerUnload.
From Stdlib Require Import ZArith Ascii Lia.
From stdpp Require Import base list strings numbers gmap.

Open Scope Z_scope.

Module LinkerDlopen.
Import LinkerSymbols LinkerGroups LinkerWalk LinkerUnload.

(** ** One new link *)
Lemma set_links_same l : set_links (children l) (parents l) l = l.
Proof. by destruct l. Qed.
Definition linked_child (p i j : nat) (l : library) : library :=
  set_links (children l ++ (if decide (j = p) then [i] else [])) (parents l ++ (if decide (j = i) then [p] else [])) l.
Lemma add_child_spec p i st : is_Some (loaded st !! p) -> is_Some (loaded st !! i) ->
  exists m, add_child p i st = Ret (set_loaded m st) /\ forall j, m !! j = linked_child p i j <$> loaded st !! j.
Proof.
  intros [lp Hp] [li Hi]. unfold add_child. rewrite (get_ret _ _ _ Hi). cbn [mbind outcome_bind].
  set (st1 := put_library i (set_links (children li) (parents li ++ [p]) li) st).
  assert (exists lp1, loaded st1 !! p = Some lp1 /\ lp1 = if decide (p = i) then set_links (children lp) (parents lp ++ [p]) lp else lp) as (lp1 & Hp1 & Elp).
  { unfold st1, put_library, set_loaded. cbn [loaded]. destruct (decide (p = i)) as [->|]; [rewrite lookup_insert_eq; rewrite Hp in Hi; injection Hi as ->; by eexists|rewrite lookup_insert_ne by done; by eexists]. }
  rewrite (get_ret _ _ _ Hp1). cbn [mbind outcome_bind]. eexists. split; [reflexivity|]. intros j. unfold linked_child. destruct (decide (j = p)) as [->|Hjp].
  - rewrite lookup_insert_eq, Hp. cbn. rewrite Elp. destruct (decide (p = i)); cbn; [done|]. by rewrite app_nil_r.
  - rewrite lookup_insert_ne by done. unfold st1, put_library, set_loaded. cbn [loaded]. destruct (decide (j = i)) as [->|Hji].
    + rewrite lookup_insert_eq, Hi. cbn. by rewrite app_nil_r.
    + rewrite lookup_insert_ne by done. destruct (loaded st !! j); [|done]. cbn. by rewrite !app_nil_r, set_links_same.
Qed.

(** ** Counting the links *)
(** The dependencies of a new library are the tasks for it. *)
Definition kids (tasks : list LoadTask) (j : nat) : list nat := t_soinfo <$> filter (fun t => t_needed_by t = Some j) tasks.
Lemma crossings_many root0 K0 (f : nat -> list nat) r xs : NoDup xs -> (forall x, x ∈ xs -> K0 !! x = None) -> forall K, (forall j, K !! j = if decide (j ∈ xs) then Some (f j) else K0 !! j) ->
  crossings root0 K r = (list_sum ((fun x => cross root0 r x (f x)) <$> xs) + crossings root0 K0 r)%nat.
Proof.
  induction 1 as [|x xs Hx Hnd IH]; intros Hno K HK.
  { replace K with K0; [done|]. apply map_eq. intros j. rewrite HK. by rewrite decide_False by apply not_elem_of_nil. }
  rewrite (crossings_delete root0 K r x (f x)) by (rewrite HK; by rewrite decide_True by (by left)). rewrite (IH ltac:(intros; apply Hno; by right) (delete x K)); [unfold list_sum; cbn; lia|].
  intros j. destruct (decide (j = x)) as [->|Hj].
  - rewrite lookup_delete_eq, decide_False by done. symmetry. apply Hno. by left.
  - rewrite lookup_delete_ne by done. rewrite HK. destruct (decide (j ∈ xs)) as [Hin|Hin]; [by rewrite decide_True by (by right)|]. by rewrite decide_False by (intros [?|?]%elem_of_cons; done).
Qed.
Lemma kids_cons t tasks x : kids (t :: tasks) x = if decide (t_needed_by t = Some x) then t_soinfo t :: kids tasks x else kids tasks x.
Proof. unfold kids. rewrite filter_cons. by destruct (decide _). Qed.
Lemma kids_split (root0 : nat -> nat) tasks x xs r : x ∉ xs -> length (filter (fun t => t_needed_by t ∈ Some <$> x :: xs /\ root0 (t_soinfo t) = r) tasks) =
  (length (filter (fun c => root0 c = r) (kids tasks x)) + length (filter (fun t => t_needed_by t ∈ Some <$> xs /\ root0 (t_soinfo t) = r) tasks))%nat.
Proof.
  intros Hx. induction tasks as [|t tasks IH]; [done|]. rewrite kids_cons, (filter_cons _ t), (filter_cons (fun t => t_needed_by t ∈ Some <$> xs /\ _) t).
  assert (t_needed_by t = Some x -> t_needed_by t ∉ (Some <$> xs)) as Hdis by (intros -> (y & [= ->] & Hy)%list_elem_of_fmap; done).
  assert (t_needed_by t ∈ Some <$> x :: xs <-> t_needed_by t = Some x \/ t_needed_by t ∈ Some <$> xs) as Hiff by (rewrite fmap_cons, elem_of_cons; done).
  destruct (decide (t_needed_by t = Some x)) as [H1|H1]; [rewrite filter_cons|]; destruct (decide (root0 (t_soinfo t) = r)) as [H2|H2].
  - rewrite decide_True by tauto. rewrite decide_False by tauto. cbn [length]. lia.
  - rewrite !decide_False by tauto. lia.
  - destruct (decide (t_needed_by t ∈ Some <$> xs)) as [H3|H3]; [rewrite !decide_True by tauto; cbn [length]; lia|rewrite !decide_False by tauto; lia].
  - rewrite !decide_False by tauto. lia.
Qed.
Lemma crosses_sum root0 R0 tasks r xs : NoDup xs -> (forall x, x ∈ xs -> root0 x = R0) -> R0 <> r ->
  list_sum ((fun x => cross root0 r x (kids tasks x)) <$> xs) = length (filter (fun t => t_needed_by t ∈ Some <$> xs /\ root0 (t_soinfo t) = r) tasks).
Proof.
  intros Hnd Hr Hne. induction Hnd as [|x xs Hx Hnd IH].
  - cbn. induction tasks as [|t tasks IH]; [done|]. rewrite filter_cons, decide_False; [done|]. intros [H _]. by apply not_elem_of_nil in H.
  - rewrite kids_split by done. rewrite <- IH by (intros; apply Hr; by right). unfold list_sum. cbn. f_equal. unfold cross. by rewrite decide_False by (rewrite Hr; [done|by left]).
Qed.

(** ** The libraries that are found *)
Section Grown.
Context (st : state) (start_with : option nat).
(** [orphan] is a library that is allocated and has no task yet. *)
Record grown (orphan : option nat) (st1 : state) (new : list nat) (tasks : list LoadTask) : Prop := {
  g_nodup : NoDup new;
  g_old : forall j l, loaded st !! j = Some l -> exists extra, loaded st1 !! j = Some (set_links (children l) (parents l ++ extra) l) /\ Forall (fun p => p ∈ new) extra;
  g_dom : forall j, is_Some (loaded st1 !! j) -> is_Some (loaded st !! j) \/ j ∈ new;
  g_new : forall j, j ∈ new -> loaded st !! j = None /\ exists l, loaded st1 !! j = Some l /\ linked l = false /\ image_linked l = false /\ ref_count l = 0 /\ constructors_called l = false /\
    children l = kids tasks j /\ Forall (fun p => p ∈ new) (parents l) /\ (orphan = Some j \/ (t_soinfo <$> head tasks) = Some j \/ parents l <> []);
  g_children : forall j l c, loaded st1 !! j = Some l -> c ∈ children l -> exists lc, loaded st1 !! c = Some lc /\ j ∈ parents lc;
  g_parents : forall j l p, loaded st1 !! j = Some l -> p ∈ parents l -> exists lp, loaded st1 !! p = Some lp /\ j ∈ children lp;
  g_rest : ns st1 = ns st ++ new /\ solist st1 = solist st ++ new /\ calls st1 = calls st;
  g_handles : forall h i, handles st1 !! h = Some i <-> exists l, loaded st1 !! i = Some l /\ handle l = h;
  g_odd : forall h i, handles st1 !! h = Some i -> Z.land h 1 <> 0;
  g_tasks : forall t, t ∈ tasks -> is_Some (loaded st1 !! t_soinfo t) /\ (t_needed_by t = start_with \/ exists p, p ∈ new /\ t_needed_by t = Some p);
  g_first : forall pre t post, tasks = pre ++ t :: post -> t_soinfo t ∈ new -> t_soinfo t ∉ (t_soinfo <$> pre) -> is_Some (t_file t);
  g_listed : forall j, j ∈ new -> orphan = Some j \/ j ∈ (t_soinfo <$> tasks) }.

Context (root rank : nat -> nat) (refs : list nat) (Hinv : inv root rank st refs) (Hstart : forall c, start_with = Some c -> is_Some (loaded st !! c)).
Lemma grown_nil : grown None st [] [].
Proof.
  split; try (intros j Hj; by apply not_elem_of_nil in Hj).
  - constructor.
  - intros j l Hj. exists []. rewrite app_nil_r, set_links_same. split; [done|constructor].
  - by left.
  - apply Hinv.
  - apply Hinv.
  - by rewrite !app_nil_r.
  - apply Hinv.
  - apply Hinv.
  - intros [|] ? ? E; discriminate.
Qed.
Lemma grown_alloc st1 new tasks i l h : grown None st1 new tasks -> loaded st1 !! i = None -> handles st1 !! h = None -> Z.land h 1 <> 0 -> children l = [] -> parents l = [] -> linked l = false -> image_linked l = false ->
  ref_count l = 0 -> constructors_called l = false ->
  grown (Some i) (mkState (<[i := set_handle h l]> (loaded st1)) (ns st1 ++ [i]) (solist st1 ++ [i]) (<[h := i]> (handles st1)) (calls st1)) (new ++ [i]) tasks.
Proof.
  intros G Hi Hh Hodd Hc Hp H1 H2 H3 H4.
  assert (loaded st !! i = None) as Hi0. { destruct (loaded st !! i) as [l0|] eqn:E; [|done]. destruct (g_old _ _ _ _ G i l0 E) as (? & E' & _). congruence. }
  assert (i ∉ new) as Hin. { intros Hin. destruct (g_new _ _ _ _ G i Hin) as (_ & l0 & E & _). congruence. }
  assert (forall j lj, <[i := set_handle h l]> (loaded st1) !! j = Some lj -> (j = i /\ lj = set_handle h l) \/ (j <> i /\ loaded st1 !! j = Some lj)) as Hcases.
  { intros j lj Hj. apply lookup_insert_Some in Hj as [[<- <-]|[? ?]]; auto. }
  assert (forall j lj, loaded st1 !! j = Some lj -> <[i := set_handle h l]> (loaded st1) !! j = Some lj) as Hold by (intros j lj Hj; rewrite lookup_insert_ne by congruence; done).
  assert (forall ps, Forall (fun p => p ∈ new) ps -> Forall (fun p => p ∈ new ++ [i]) ps) as Hmore by (intros ps H; eapply Forall_impl; [exact H|]; intros; apply elem_of_app; by left).
  assert (kids tasks i = []) as Hkids.
  { unfold kids. destruct (filter _ tasks) as [|t ts] eqn:E; [done|]. assert (t ∈ filter (fun t => t_needed_by t = Some i) tasks) as [Ht Hin']%list_elem_of_filter by (rewrite E; by left).
    destruct (g_tasks _ _ _ _ G t Hin') as [_ [Hsw|(q & Hq & Hqe)]]; [|congruence]. rewrite Hsw in Ht. destruct (Hstart i Ht). congruence. }
  split; cbn [loaded ns solist calls handles].
  - apply NoDup_app. split_and!; [apply G| |apply NoDup_singleton]. by intros x Hx ->%list_elem_of_singleton.
  - intros j lj Hj. destruct (g_old _ _ _ _ G j lj Hj) as (extra & E & F). exists extra. split; [by apply Hold|by apply Hmore].
  - intros j [lj [[-> _]|[_ Hj]]%Hcases]; [right; apply elem_of_app; right; by apply list_elem_of_singleton|]. destruct (g_dom _ _ _ _ G j) as [Hd|Hd]; [by eexists|by left|right; apply elem_of_app; by left].
  - intros j [Hj| ->%list_elem_of_singleton]%elem_of_app.
    + destruct (g_new _ _ _ _ G j Hj) as (? & lj & E & ? & ? & ? & ? & ? & ? & Hd). split; [done|]. exists lj. split_and!; auto. destruct Hd as [|[|]]; [done|by right; left|by right; right].
    + split; [done|]. eexists. split; [apply lookup_insert_eq|]. cbn. rewrite Hc, Hp, Hkids. split_and!; auto.
  - intros j lj c [[-> ->]|[_ Hj]]%Hcases Hcc; [cbn in Hcc; rewrite Hc in Hcc; by apply not_elem_of_nil in Hcc|]. destruct (g_children _ _ _ _ G j lj c Hj Hcc) as (lc & ? & ?). exists lc. auto.
  - intros j lj q [[-> ->]|[_ Hj]]%Hcases Hcc; [cbn in Hcc; rewrite Hp in Hcc; by apply not_elem_of_nil in Hcc|]. destruct (g_parents _ _ _ _ G j lj q Hj Hcc) as (lc & ? & ?). exists lc. auto.
  - destruct (g_rest _ _ _ _ G) as (-> & -> & ->). by rewrite !app_assoc.
  - intros h' j. rewrite lookup_insert_Some, (g_handles _ _ _ _ G h' j). split.
    + intros [[<- <-]|[Hne (lj & Hl & Hhl)]]; [eexists; split; [apply lookup_insert_eq|done]|exists lj; auto].
    + intros (lj & [[-> ->]|[Hji H]]%Hcases & Hhl); [left; done|]. right. split; [|by exists lj].
      intros <-. assert (handles st1 !! h = Some j) as Ej by (apply (g_handles _ _ _ _ G); by exists lj). congruence.
  - intros h' j [[<- _]|[_ H]]%lookup_insert_Some; [done|]. by apply (g_odd _ _ _ _ G h' j).
  - intros t Ht. destruct (g_tasks _ _ _ _ G t Ht) as [[lt Hlt] Hd]. split; [exists lt; auto|]. destruct Hd as [|(q & Hq & ?)]; [by left|right]. exists q. split; [apply elem_of_app; by left|done].
  - intros pre t post E [Ht|Ht%list_elem_of_singleton]%elem_of_app; [by apply (g_first _ _ _ _ G pre t post)|]. assert (t ∈ tasks) as Hin' by (rewrite E; apply elem_of_app; right; by left).
    destruct (g_tasks _ _ _ _ G t Hin') as [[lt Hlt] _]. congruence.
  - intros j [Hj| ->%list_elem_of_singleton]%elem_of_app; [|by left]. destruct (g_listed _ _ _ _ G j Hj) as [|]; [done|by right].
Qed.

Lemma new_not_start j : loaded st !! j = None -> start_with <> Some j.
Proof. intros Hj E. destruct (Hstart j E). congruence. Qed.
Lemma grown_first o st1 new i name f : grown o st1 new [] -> is_Some (loaded st1 !! i) -> (o = None \/ o = Some i) -> (i ∈ new -> is_Some f) ->
  grown None st1 new [mkTask name start_with i f].
Proof.
  intros G Hi Ho Hf. assert (forall j, j ∈ new -> j = i) as Honly.
  { intros j Hj. destruct (g_listed _ _ _ _ G j Hj) as [E|E]; [destruct Ho as [->|Ho]; [done|congruence]|by apply not_elem_of_nil in E]. }
  split; try apply G.
  - intros j Hj. destruct (g_new _ _ _ _ G j Hj) as (Hn & lj & E & ? & ? & ? & ? & Hk & ? & _). split; [done|]. exists lj. split_and!; auto.
    + rewrite Hk. unfold kids. rewrite filter_cons. cbn [t_needed_by]. by rewrite decide_False by (by apply new_not_start).
    + right. left. cbn. f_equal. symmetry. by apply Honly.
  - intros t ->%list_elem_of_singleton. cbn. split; [done|by left].
  - intros pre t post E Ht _. destruct pre as [|x pre]; cbn in E; [injection E as <- _; by apply Hf|]. injection E as _ E. by destruct pre.
  - intros j Hj. right. cbn. apply list_elem_of_singleton. by apply Honly.
Qed.
Lemma kids_snoc tasks name p i f j : kids (tasks ++ [mkTask name (Some p) i f]) j = kids tasks j ++ (if decide (j = p) then [i] else []).
Proof.
  unfold kids. rewrite filter_app, fmap_app. f_equal. rewrite filter_cons. cbn [t_needed_by]. destruct (decide (j = p)) as [->|]; [by rewrite decide_True|by rewrite decide_False by congruence].
Qed.
Lemma grown_child o st1 new tasks p i name f m : grown o st1 new tasks -> tasks <> [] -> p ∈ new -> is_Some (loaded st1 !! i) -> (o = None \/ o = Some i) ->
  (i ∈ new -> i ∉ (t_soinfo <$> tasks) -> is_Some f) -> (forall j, m !! j = linked_child p i j <$> loaded st1 !! j) ->
  grown None (set_loaded m st1) new (tasks ++ [mkTask name (Some p) i f]).
Proof.
  intros G Hne Hp Hi Ho Hf Hm. assert (forall j, is_Some (m !! j) <-> is_Some (loaded st1 !! j)) as Hlive by (intros j; rewrite Hm; by rewrite fmap_is_Some).
  assert (forall j l', m !! j = Some l' -> exists l, loaded st1 !! j = Some l /\ l' = linked_child p i j l) as Hinvm.
  { intros j l' E. rewrite Hm in E. destruct (loaded st1 !! j) as [l|]; [|done]. injection E as <-. by exists l. }
  assert (exists lp, loaded st1 !! p = Some lp) as [lp Hlp] by (destruct (g_new _ _ _ _ G p Hp) as (_ & lp & ? & _); by exists lp).
  split; cbn [set_loaded loaded ns solist calls handles]; try apply G.
  - intros j l Hj. destruct (g_old _ _ _ _ G j l Hj) as (extra & E & F). assert (j <> p) by (intros ->; destruct (g_new _ _ _ _ G p Hp); congruence).
    exists (extra ++ (if decide (j = i) then [p] else [])). rewrite Hm, E. cbn. unfold linked_child. rewrite decide_False by done. cbn. rewrite app_nil_r, app_assoc. split; [done|].
    apply Forall_app. split; [done|]. destruct (decide (j = i)); by repeat constructor.
  - intros j. rewrite Hlive. apply G.
  - intros j Hj. destruct (g_new _ _ _ _ G j Hj) as (Hn & lj & E & ? & ? & ? & ? & Hk & Hps & Hd). split; [done|]. rewrite Hm, E. cbn. eexists. split; [done|]. cbn. split_and!; auto.
    + by rewrite kids_snoc, Hk.
    + apply Forall_app. split; [done|]. destruct (decide (j = i)); by repeat constructor.
    + right. destruct tasks as [|t0 ts]; [done|]. cbn in *. destruct Hd as [Hd|[Hd|Hd]]; [right|by left|right].
      * destruct Ho as [->|Ho]; [done|]. assert (j = i) as -> by congruence. rewrite decide_True by done. by destruct (parents lj).
      * by destruct (parents lj).
  - intros j l' c (l & Hj & ->)%Hinvm Hc. cbn in Hc. apply elem_of_app in Hc as [Hc|Hc].
    + destruct (g_children _ _ _ _ G j l c Hj Hc) as (lc & Hlc & Hpc). eexists. rewrite Hm, Hlc. split; [done|]. cbn. apply elem_of_app. by left.
    + destruct (decide (j = p)) as [->|]; [|by apply not_elem_of_nil in Hc]. apply list_elem_of_singleton in Hc as ->. destruct Hi as [li Hi]. eexists. rewrite Hm, Hi. split; [done|].
      cbn. rewrite decide_True by done. apply elem_of_app. right. by apply list_elem_of_singleton.
  - intros j l' q (l & Hj & ->)%Hinvm Hq. cbn in Hq. apply elem_of_app in Hq as [Hq|Hq].
    + destruct (g_parents _ _ _ _ G j l q Hj Hq) as (lq & Hlq & Hcq). eexists. rewrite Hm, Hlq. split; [done|]. cbn. apply elem_of_app. by left.
    + destruct (decide (j = i)) as [->|]; [|by apply not_elem_of_nil in Hq]. apply list_elem_of_singleton in Hq as ->. eexists. rewrite Hm, Hlp. split; [done|].
      cbn. rewrite decide_True by done. apply elem_of_app. right. by apply list_elem_of_singleton.
  - intros h j. rewrite (g_handles _ _ _ _ G). split; [intros (l & Hl & Hh); rewrite Hm, Hl; by eexists|intros (l & (l0 & Hl0 & ->)%Hinvm & Hh); by exists l0].
  - intros t [Ht| ->%list_elem_of_singleton]%elem_of_app; cbn; rewrite Hlive; [by apply G|]. split; [done|right; by exists p].
  - intros pre t post E Ht Hn. destruct post as [|x post _] using rev_ind.
    + apply app_inj_tail in E as [<- <-]. cbn in *. auto.
    + rewrite app_comm_cons, app_assoc in E. apply app_inj_tail in E as [E _]. by apply (g_first _ _ _ _ G pre t post).
  - intros j Hj. right. rewrite fmap_app. apply elem_of_app. destruct (g_listed _ _ _ _ G j Hj) as [Ej|]; [right|by left]. destruct Ho as [->|Ho]; [done|]. assert (j = i) as -> by congruence. cbn. by left.
Qed.

(** ** One library is found *)
Context (PATH_MAX : nat) (open_library : option nat -> bytes -> option file) (Hpath : forall needed_by name f, open_library needed_by name = Some f -> (length (f_realpath f) < PATH_MAX)%nat).
Lemma find_if_found (P : library -> bool) s ls : (forall x, x ∈ ls -> is_Some (loaded s !! x)) -> exists r, find_if P ls s = Ret r /\ forall i, r = Some i -> i ∈ ls.
Proof.
  induction ls as [|x ls IH]; intros H; [by exists None|]. cbn [find_if]. destruct (H x) as [l Hl]; [by left|]. rewrite (get_ret _ _ _ Hl). cbn [mbind outcome_bind]. destruct (P l).
  - exists (Some x). split; [done|]. intros i [= ->]. by left.
  - destruct IH as (r & E & Hr); [intros; apply H; by right|]. exists r. split; [done|]. intros i Hi. right. auto.
Qed.
Lemma grown_ns o st1 new tasks : grown o st1 new tasks -> forall x, x ∈ ns st1 -> is_Some (loaded st1 !! x).
Proof.
  intros G x. destruct (g_rest _ _ _ _ G) as (-> & _). intros [Hx|Hx]%elem_of_app.
  - destruct (i_ns _ _ _ _ Hinv x Hx) as [l Hl]. destruct (g_old _ _ _ _ G x l Hl) as (? & ? & _). by eexists.
  - destruct (g_new _ _ _ _ G x Hx) as (_ & l & ? & _). by eexists.
Qed.
Lemma grown_solist o st1 new tasks : grown o st1 new tasks -> exists first rest, solist st1 = first :: rest /\ forall x, x ∈ first :: rest -> is_Some (loaded st1 !! x).
Proof.
  intros G. destruct (g_rest _ _ _ _ G) as (_ & E & _). destruct (i_solist _ _ _ _ Hinv) as (first & rest & Hs & _ & _ & Hlv & _). exists first, (rest ++ new). rewrite E, Hs. split; [done|].
  intros x. rewrite app_comm_cons. intros [Hx|Hx]%elem_of_app.
  - destruct (Hlv x Hx) as [l Hl]. destruct (g_old _ _ _ _ G x l Hl) as (? & ? & _). by eexists.
  - destruct (g_new _ _ _ _ G x Hx) as (_ & l & ? & _). by eexists.
Qed.
(** A library that could not be read is freed again, and nothing else changes. *)
Lemma alloc_free o st1 new tasks name l : grown o st1 new tasks -> (length name < PATH_MAX)%nat -> handle l = 0 -> children l = [] -> parents l = [] -> Z.of_nat (size (handles st1)) < 2 ^ 60 ->
  exists h, soinfo_alloc PATH_MAX (fresh_library st1) name l st1 = Ret (mkState (<[fresh_library st1 := set_handle h l]> (loaded st1)) (ns st1 ++ [fresh_library st1]) (solist st1 ++ [fresh_library st1])
    (<[h := fresh_library st1]> (handles st1)) (calls st1)) /\ loaded st1 !! fresh_library st1 = None /\ handles st1 !! h = None /\ Z.land h 1 <> 0 /\
    soinfo_free (fresh_library st1) (mkState (<[fresh_library st1 := set_handle h l]> (loaded st1)) (ns st1 ++ [fresh_library st1]) (solist st1 ++ [fresh_library st1])
    (<[h := fresh_library st1]> (handles st1)) (calls st1)) = Ret st1.
Proof.
  intros G Hlen Hh Hc Hp Hsz. destruct (grown_solist _ _ _ _ G) as (first & rest & Hs & Hlv). set (i := fresh_library st1).
  assert (loaded st1 !! i = None) as Hi by (apply not_elem_of_dom; exact (is_fresh (dom (loaded st1)))).
  assert (forall ls : list nat, (forall x, x ∈ ls -> is_Some (loaded st1 !! x)) -> remove i (ls ++ [i]) = ls) as Hrem.
  { intros ls H. unfold remove. rewrite filter_app, filter_cons, decide_False by (by intros ?). rewrite app_nil_r. clear -H Hi. induction ls as [|x ls IH]; [done|]. rewrite filter_cons, decide_True.
    - f_equal. apply IH. intros; apply H; by right.
    - intros ->. destruct (H i) as [? ?]; [by left|congruence]. }
  destruct (alloc_spec PATH_MAX i name l st1 first rest Hs Hlen Hh Hsz) as (h & E & Hfree & Hodd). exists h. rewrite Hs. cbn [app]. split_and!; [done|done|done|done|].
  rewrite (free_one _ i (set_handle h l) first (rest ++ [i])); [|cbn [loaded solist]..].
  - cbn [loaded ns handles calls set_handle handle]. rewrite delete_insert_id by done. rewrite delete_insert_id by done. rewrite Hrem by apply (grown_ns _ _ _ _ G). rewrite Hrem by (intros; apply Hlv; by right).
    rewrite <- Hs. by destruct st1.
  - apply lookup_insert_eq.
  - done.
  - done.
  - done.
  - intros ->. destruct (Hlv first) as [? ?]; [by left|congruence].
  - apply elem_of_app. right. by apply list_elem_of_singleton.
Qed.

(** ** Every library is found *)
(** The files are finitely many and have an identity, so the names that still wait run out. *)
Context (files : list file) (Hfiles : forall needed_by name f, open_library needed_by name = Some f -> f ∈ files /\ f_id f <> 0).
Definition has_id (s : state) (id : Z) : Prop := exists x l, x ∈ ns s /\ loaded s !! x = Some l /\ file_id l = id.
Definition has_idb (s : state) (id : Z) : bool := existsb (fun x => match loaded s !! x with Some l => file_id l =? id | None => false end) (ns s).
Definition waiting_in (fs : list file) (s : state) : nat := list_sum ((fun f => if has_idb s (f_id f) then 0%nat else length (f_needed f)) <$> fs).
Definition waiting : state -> nat := waiting_in files.
Lemma has_id_spec s id : has_idb s id = true <-> has_id s id.
Proof.
  unfold has_idb, has_id. rewrite existsb_exists. split.
  - intros (x & Hx & Hl). destruct (loaded s !! x) as [l|] eqn:E; [|done]. exists x, l. split_and!; [by apply list_elem_of_In|done|lia].
  - intros (x & l & Hx & Hl & Hid). exists x. rewrite Hl. split; [by apply list_elem_of_In|lia].
Qed.
Lemma waiting_le fs s s' : (forall id, has_id s id -> has_id s' id) -> (waiting_in fs s' <= waiting_in fs s)%nat.
Proof.
  intros H. unfold waiting_in. induction fs as [|f fs IH]; [done|]. unfold list_sum in *. cbn. pose proof (H (f_id f)) as Hf. rewrite <- !has_id_spec in Hf.
  destruct (has_idb s (f_id f)), (has_idb s' (f_id f)); (lia || by discriminate Hf).
Qed.
Lemma waiting_less s s' f : (forall id, has_id s id -> has_id s' id) -> f ∈ files -> ~ has_id s (f_id f) -> has_id s' (f_id f) -> (length (f_needed f) + waiting s' <= waiting s)%nat.
Proof.
  intros H Hin Hn Hy. rewrite <- has_id_spec in Hn, Hy. apply not_true_is_false in Hn. unfold waiting. clear Hfiles. apply list_elem_of_split in Hin as (l1 & l2 & ->).
  pose proof (waiting_le l1 _ _ H). pose proof (waiting_le l2 _ _ H). unfold waiting_in in *. rewrite !fmap_app, !list_sum_app. unfold list_sum in *. cbn. rewrite Hn, Hy. lia.
Qed.
Lemma not_has_id s id : (forall x, x ∈ ns s -> is_Some (loaded s !! x)) -> find_if (fun l => bool_decide (file_id l = id)) (ns s) s = Ret None -> ~ has_id s id.
Proof.
  intros Hns E (x & l & Hx & Hl & Hid). revert Hns E Hx. induction (ns s) as [|y ys IH]; intros Hns E Hx; [by apply not_elem_of_nil in Hx|]. cbn [find_if] in E.
  destruct (Hns y) as [ly Hy]; [by left|]. rewrite (get_ret _ _ _ Hy) in E. cbn [mbind outcome_bind] in E. destruct (bool_decide (file_id ly = id)) eqn:Eb; [done|]. apply elem_of_cons in Hx as [->|Hx].
  - rewrite Hy in Hl. injection Hl as ->. by apply bool_decide_eq_false in Eb.
  - apply IH; [intros; apply Hns; by right|done|done].
Qed.
(** What [find_library_internal] gives: nothing, and the state is as before; a loaded library; a new library. *)
Lemma library_found o st1 new tasks nb name flags : grown o st1 new tasks -> o = None -> Z.of_nat (size (handles st1)) < 2 ^ 60 ->
  find_library_internal PATH_MAX open_library nb name flags st1 = Ret (None, st1) \/
  (exists i, find_library_internal PATH_MAX open_library nb name flags st1 = Ret (Some (Known i), st1) /\ is_Some (loaded st1 !! i)) \/
  exists i f st2, find_library_internal PATH_MAX open_library nb name flags st1 = Ret (Some (New i f), st2) /\ grown (Some i) st2 (new ++ [i]) tasks /\
    (size (handles st2) <= S (size (handles st1)))%nat /\ (length (f_needed f) + waiting st2 <= waiting st1)%nat.
Proof.
  intros G -> Hsz. pose proof (grown_ns _ _ _ _ G) as Hns. unfold find_library_internal, load_file, find_loaded_library_by_soname.
  assert (exists r, (if decide (LinkerUtils.slash ∈ name) then Ret None else find_if (fun l => bool_decide (lib_soname l = Some name)) (ns st1) st1) = Ret r /\ forall i, r = Some i -> i ∈ ns st1) as (r & -> & Hr).
  { destruct (decide (LinkerUtils.slash ∈ name)); [by exists None|by apply find_if_found]. }
  cbn [mbind outcome_bind]. destruct r as [i|]; [right; left; exists i; split; [done|by apply Hns, Hr]|]. destruct (open_library nb name) as [f|] eqn:Ef; [|by left].
  destruct (Hfiles _ _ _ Ef) as [Hin Hid]. unfold find_loaded_library_by_inode. rewrite (decide_False (P := f_id f = 0)) by done.
  destruct (find_if_found (fun l => bool_decide (file_id l = f_id f)) st1 (ns st1) Hns) as (r & Er & Hr'). rewrite Er. cbn [mbind outcome_bind].
  destruct r as [i|]; [right; left; exists i; split; [done|by apply Hns, Hr']|]. destruct (decide (Z.land flags RTLD_NOLOAD <> 0)); [by left|].
  destruct (alloc_free _ _ _ _ (f_realpath f) (new_library f flags) G (Hpath _ _ _ Ef) eq_refl eq_refl eq_refl Hsz) as (h & Ea & Hfresh & Hh & Hodd & Eb). rewrite Ea. cbn [mbind outcome_bind].
  destruct (f_readable f); [|left; rewrite Eb; done]. right. right. eexists _, f, _. split; [reflexivity|]. split_and!.
  - by apply grown_alloc.
  - cbn [handles]. rewrite map_size_insert_None by done. done.
  - apply waiting_less; [|done|by apply not_has_id|].
    + intros id (x & l & Hx & Hl & E). exists x, l. cbn [ns loaded]. rewrite lookup_insert_ne by congruence. split_and!; [apply elem_of_app; by left|done|done].
    + eexists _, _. cbn [ns loaded]. split_and!; [apply elem_of_app; right; by apply list_elem_of_singleton|apply lookup_insert_eq|done].
Qed.
Lemma waiting_child s m p i : (forall j, m !! j = linked_child p i j <$> loaded s !! j) -> (waiting (set_loaded m s) <= waiting s)%nat.
Proof. intros Hm. apply waiting_le. intros id (x & l & Hx & Hl & E). eexists x, _. cbn [set_loaded ns loaded]. rewrite Hm, Hl. by split_and!. Qed.
(** Either the name that is opened is searched for, or names that new libraries need. *)
Definition waits (new : list nat) (tasks : list LoadTask) (pending : list (bytes * option nat)) : Prop :=
  (tasks = [] /\ new = [] /\ exists name, pending = [(name, start_with)]) \/
  (tasks <> [] /\ (pending = [] \/ new <> []) /\ Forall (fun e => exists p, p ∈ new /\ snd e = Some p) pending).
Lemma waits_more new extra tasks pending needed t : (new ++ extra <> [] \/ pending ++ needed = []) -> Forall (fun e => exists p, p ∈ new /\ snd e = Some p) pending -> Forall (fun e => exists p, p ∈ extra /\ snd e = Some p) needed ->
  waits (new ++ extra) (tasks ++ [t]) (pending ++ needed).
Proof.
  intros Hd H1 H2. right. split; [by destruct tasks|]. split; [tauto|]. apply Forall_app. split; (eapply Forall_impl; [eassumption|]); intros e (p & Hp & He); exists p; (split; [apply elem_of_app; tauto|done]).
Qed.
(** One turn: the link to the library that was found, and the task for it. *)
Lemma linked_found o st1 new extra tasks pending nb name i file needed : grown o st1 (new ++ extra) tasks -> (o = None \/ o = Some i) -> is_Some (loaded st1 !! i) -> waits new tasks ((name, nb) :: pending) ->
  (i ∈ new ++ extra -> i ∉ (t_soinfo <$> tasks) -> is_Some file) -> (extra <> [] \/ needed = []) -> Forall (fun e => exists p, p ∈ extra /\ snd e = Some p) needed ->
  exists st2, (match nb with Some p => if decide (nb <> start_with) then add_child p i st1 else Ret st1 | None => Ret st1 end) = Ret st2 /\ grown None st2 (new ++ extra) (tasks ++ [mkTask name nb i file]) /\
    waits (new ++ extra) (tasks ++ [mkTask name nb i file]) (pending ++ needed) /\ (waiting st2 <= waiting st1)%nat /\ handles st2 = handles st1.
Proof.
  intros G Ho Hi [(-> & -> & n & [= -> -> ->])|(Hne & Hd & Hf)] Hfile Hneed Hfn.
  - exists st1. split_and!; [destruct start_with; [by rewrite decide_False by (by intros ?)|done]| | |done|done].
    + apply (grown_first o); [done|done|done|]. intros Hin. apply Hfile; [done|apply not_elem_of_nil].
    + apply waits_more; [|constructor|done]. destruct Hneed as [|Hneed]; [by left|by right].
  - apply Forall_cons_1 in Hf as [(p & Hp & Hnb) Hf]. cbn in Hnb. subst nb. assert (p ∈ new ++ extra) as Hp' by (apply elem_of_app; by left).
    destruct (g_new _ _ _ _ G p Hp') as (Hpn & lp & Hlp & _). rewrite decide_True by (intros E; by apply (new_not_start p Hpn)).
    destruct (add_child_spec p i st1) as (m & E & Hm); [by eexists|done|]. exists (set_loaded m st1). split_and!; [done| | |by eapply waiting_child|done].
    + by apply (grown_child o).
    + apply waits_more; [|done|done]. left. destruct new; [by apply not_elem_of_nil in Hp|done].
Qed.
Lemma expanded fuel flags : forall pending tasks st1 new, grown None st1 new tasks -> waits new tasks pending -> Z.of_nat (size (handles st1) + fuel) < 2 ^ 60 -> (length pending + waiting st1 < fuel)%nat ->
  exists ok tasks' st' new', expand PATH_MAX open_library fuel start_with flags pending tasks st1 = Ret (ok, tasks', st') /\ grown None st' new' tasks' /\
    (length tasks' <= length tasks + length pending + waiting st1)%nat /\ tasks `prefix_of` tasks' /\ (tasks' = [] -> ok = false /\ st' = st1) /\ (tasks' <> [] -> ok = true \/ new' <> []).
Proof.
  induction fuel as [|fuel IH]; intros pending tasks st1 new G W Hsz Hf; [lia|]. destruct pending as [|[name nb] pending]; cbn [expand].
  { exists true, tasks, st1, new. split_and!; [done|done|lia|done| |by left]. destruct W as [(_ & _ & ? & ?)|[? _]]; done. }
  assert (forall st2 new2 t needed, grown None st2 new2 (tasks ++ [t]) -> waits new2 (tasks ++ [t]) (pending ++ needed) -> (size (handles st2) <= S (size (handles st1)))%nat ->
    (length needed + waiting st2 <= waiting st1)%nat -> exists ok tasks' st' new', expand PATH_MAX open_library fuel start_with flags (pending ++ needed) (tasks ++ [t]) st2 = Ret (ok, tasks', st') /\
      grown None st' new' tasks' /\ (length tasks' <= length tasks + S (length pending) + waiting st1)%nat /\ tasks `prefix_of` tasks' /\ (tasks' = [] -> ok = false /\ st' = st1) /\ (tasks' <> [] -> ok = true \/ new' <> [])) as Hnext.
  { intros st2 new2 t needed G2 W2 Hs2 Hw2. cbn [length] in Hf. destruct (IH _ _ _ _ G2 W2) as (ok & tasks' & st' & new' & E & G' & L & [k P] & _ & H2); [lia|rewrite length_app; lia|].
    exists ok, tasks', st', new'. rewrite !length_app in L. cbn [length] in L. split_and!; [done|done|lia|exists ([t] ++ k); by rewrite P, <- app_assoc| |done]. intros ->. by destruct tasks. }
  destruct (library_found _ st1 new tasks nb name flags G eq_refl) as [->|[(i & -> & Hi)|(i & f & st2 & -> & G2 & Hs2 & Hw2)]]; [lia|cbn [mbind outcome_bind]..].
  - exists false, tasks, st1, new. split_and!; [done|done|lia|done|done|]. intros Hne. right. destruct W as [(? & _)|(_ & [|] & _)]; done.
  - destruct (linked_found None st1 new [] tasks pending nb name i None []) as (st2 & -> & G2 & W2 & Hw & Hh); [by rewrite app_nil_r|by left|done|done| |by right|constructor|].
    + rewrite app_nil_r. intros Hin Hn. destruct (g_listed _ _ _ _ G i Hin); done.
    + cbn [mbind outcome_bind]. by eapply Hnext; [done|done|rewrite Hh; lia|].
  - assert (i ∈ new ++ [i]) as Hin by (apply elem_of_app; right; by apply list_elem_of_singleton). destruct (g_new _ _ _ _ G2 i Hin) as (_ & l & Hl & _).
    destruct (linked_found (Some i) st2 new [i] tasks pending nb name i (Some f) ((fun n => (n, Some i)) <$> f_needed f)) as (st3 & -> & G3 & W3 & Hw & Hh); [done|by right|by eexists|done|by eexists|by left| |].
    + apply Forall_fmap, Forall_true. intros n. exists i. split; [by left|done].
    + cbn [mbind outcome_bind]. eapply Hnext; [done|done|rewrite Hh; lia|rewrite length_fmap; lia].
Qed.

(** ** Loading and linking touch the new libraries only *)
Context (R : nat).
(** Linking sets the root of the group. *)
Definition alike (l1 l2 : library) : Prop := children l2 = children l1 /\ parents l2 = parents l1 /\ linked l2 = linked l1 /\ ref_count l2 = ref_count l1 /\
  constructors_called l2 = constructors_called l1 /\ handle l2 = handle l1 /\
  (local_group_root l2 = local_group_root l1 /\ (image_linked l2 = true -> image_linked l1 = true) \/ local_group_root l2 = R).
Record tuned (new : list nat) (s1 s2 : state) : Prop := {
  t_rest : ns s2 = ns s1 /\ solist s2 = solist s1 /\ handles s2 = handles s1 /\ calls s2 = calls s1;
  t_old : forall j, j ∉ new -> loaded s2 !! j = loaded s1 !! j;
  t_new : forall j l1, loaded s1 !! j = Some l1 -> exists l2, loaded s2 !! j = Some l2 /\ alike l1 l2;
  t_live : forall j, is_Some (loaded s2 !! j) -> is_Some (loaded s1 !! j) }.
Lemma tuned_refl new s : tuned new s s.
Proof. split; [done|done| |done]. intros j l Hl. exists l. split; [done|]. unfold alike. split_and!; auto. Qed.
Lemma tuned_put new s1 s2 j l l' : tuned new s1 s2 -> loaded s2 !! j = Some l -> j ∈ new -> alike l l' -> tuned new s1 (put_library j l' s2).
Proof.
  intros [Rest O N L] Hl Hj A. split; cbn [put_library set_loaded ns solist handles calls loaded]; [done| | |].
  - intros k Hk. rewrite lookup_insert_ne by congruence. auto.
  - intros k l1 Hk. destruct (N k l1 Hk) as (l2 & H2 & A2). destruct (decide (k = j)) as [->|]; [|rewrite lookup_insert_ne by done; by exists l2]. rewrite lookup_insert_eq. exists l'. split; [done|].
    rewrite Hl in H2. injection H2 as <-. unfold alike in *. destruct A as (-> & -> & -> & -> & -> & -> & Ha), A2 as (? & ? & ? & ? & ? & ? & Hb). split_and!; auto. destruct Ha as [[-> Ha]|]; [|by right]. destruct Hb as [[-> Hb]|]; [left; auto|by right].
  - intros k. destruct (decide (k = j)) as [->|]; [intros _; apply L; by eexists|rewrite lookup_insert_ne by done; auto].
Qed.
Lemma each_tuned {A} (f : A -> state -> outcome exn (bool * state)) new s1 xs : (forall x s, x ∈ xs -> tuned new s1 s -> exists b s', f x s = Ret (b, s') /\ tuned new s1 s') ->
  forall s, tuned new s1 s -> exists b s', each f xs s = Ret (b, s') /\ tuned new s1 s'.
Proof.
  induction xs as [|x xs IH]; intros Hf s T; [by exists true, s|]. destruct (Hf x s) as (b & s' & E & T'); [by left|done|]. cbn [each]. rewrite E. cbn [mbind outcome_bind fst snd].
  destruct b; [apply IH; [intros; apply Hf; [by right|done]|done]|by exists false, s'].
Qed.
(** The libraries that are loaded are the new ones, each by its first task. *)
Lemma load_list_spec s tasks : forall before seen, (forall t, t ∈ tasks -> is_Some (loaded s !! t_soinfo t)) ->
  (forall t l, t ∈ before -> loaded s !! t_soinfo t = Some l -> linked l = false -> t_soinfo t ∈ seen) ->
  exists ts, load_list tasks seen s = Ret ts /\ forall t, t ∈ ts -> exists pre post l, before ++ tasks = pre ++ t :: post /\ t_soinfo t ∉ (t_soinfo <$> pre) /\ loaded s !! t_soinfo t = Some l /\ linked l = false.
Proof.
  induction tasks as [|t tasks IH]; intros before seen Hl Hs; [exists []; split; [done|]; by intros t ?%not_elem_of_nil|].
  destruct (Hl t) as [l Ht]; [by left|]. cbn [load_list]. rewrite (get_ret _ _ _ Ht). cbn [mbind outcome_bind].
  assert (forall seen', (linked l = false -> t_soinfo t ∈ seen') -> seen ⊆ seen' -> exists ts, load_list tasks seen' s = Ret ts /\
    forall u, u ∈ ts -> exists pre post l, before ++ t :: tasks = pre ++ u :: post /\ t_soinfo u ∉ (t_soinfo <$> pre) /\ loaded s !! t_soinfo u = Some l /\ linked l = false) as Hnext.
  { intros seen' Hin Hsub. destruct (IH (before ++ [t]) seen') as (ts & E & H); [intros; apply Hl; by right| |].
    - intros u lu [Hu| ->%list_elem_of_singleton]%elem_of_app Hlu Hlk; [apply Hsub; eauto|]. rewrite Ht in Hlu. injection Hlu as <-. auto.
    - exists ts. split; [done|]. intros u Hu. rewrite <- app_assoc in H. by apply H. }
  destruct (decide (linked l = false /\ t_soinfo t ∉ seen)) as [[Hf Hn]|Hn].
  - destruct (Hnext (seen ++ [t_soinfo t])) as (ts & E & H); [intros _; apply elem_of_app; right; by apply list_elem_of_singleton|intros x Hx; apply elem_of_app; by left|].
    rewrite E. cbn [mbind outcome_bind]. exists (t :: ts). split; [done|]. intros u [->|Hu]%elem_of_cons; [|by apply H]. exists before, tasks, l. split_and!; [done| |done|done].
    intros (v & Hv & Hv')%list_elem_of_fmap. apply Hn. rewrite Hv. apply (Hs v l); [done|by rewrite <- Hv|done].
  - apply Hnext; [|done]. intros Hf. destruct (decide (t_soinfo t ∈ seen)); tauto.
Qed.
Lemma unlinked_new o st1 new tasks j l : grown o st1 new tasks -> loaded st1 !! j = Some l -> linked l = false -> j ∈ new.
Proof.
  intros G Hj Hl. destruct (g_dom _ _ _ _ G j) as [[l0 H0]|]; [by eexists| |done]. destruct (g_old _ _ _ _ G j l0 H0) as (? & E & _). rewrite E in Hj. injection Hj as <-. cbn in Hl.
  by rewrite (i_linked _ _ _ _ Hinv j l0 H0) in Hl.
Qed.
Lemma loads_tuned hooks st1 new tasks : grown None st1 new tasks -> exists ts, load_list tasks [] st1 = Ret ts /\
  (forall s, tuned new st1 s -> exists b s', each (load_task hooks start_with) ts s = Ret (b, s') /\ tuned new st1 s') /\
  (forall s, tuned new st1 s -> exists b s', each prelink_task ts s = Ret (b, s') /\ tuned new st1 s') /\ (new = [] -> ts = []).
Proof.
  intros G. destruct (load_list_spec st1 tasks [] []) as (ts & E & H); [apply G|by intros t l ?%not_elem_of_nil|]. exists ts. split; [done|].
  assert (forall t s, t ∈ ts -> tuned new st1 s -> t_soinfo t ∈ new /\ is_Some (t_file t) /\ exists l, loaded s !! t_soinfo t = Some l) as Ht.
  { intros t s Hin T. destruct (H t Hin) as (pre & post & l & Et & Hn & Hl & Hlk). cbn in Et. pose proof (unlinked_new _ _ _ _ _ _ G Hl Hlk) as Hnew. split_and!; [done|by apply (g_first _ _ _ _ G pre t post)|].
    destruct (t_new _ _ _ T _ _ Hl) as (l2 & ? & _). by exists l2. }
  split_and!.
  - apply each_tuned. intros t s Hin T. destruct (Ht t s Hin T) as (Hnew & [f Hf] & l & Hl). unfold load_task. rewrite Hf. destruct (f_loadable f); [|by exists false, s].
    rewrite (get_ret _ _ _ Hl). cbn [mbind outcome_bind]. eexists true, _. split; [done|]. destruct (decide _); [|done]. eapply tuned_put; [done..|]. unfold alike. split_and!; auto.
  - apply each_tuned. intros t s Hin T. destruct (Ht t s Hin T) as (Hnew & [f Hf] & l & Hl). unfold prelink_task. rewrite Hf. destruct (f_prelinks f); [|by exists false, s].
    rewrite (get_ret _ _ _ Hl). cbn [mbind outcome_bind]. eexists true, _. split; [done|]. eapply tuned_put; [done..|]. unfold alike. split_and!; auto.
  - intros ->. destruct ts as [|t ts]; [done|]. destruct (Ht t st1) as [Hin _]; [by left|apply tuned_refl|]. by apply not_elem_of_nil in Hin.
Qed.

(** ** Linking the group *)
Lemma new_reached st1 new tasks rank1 : grown None st1 new tasks -> t_soinfo <$> head tasks = Some R -> ranked st1 rank1 -> forall j, j ∈ new -> R ∈ new /\ reaches st1 R j.
Proof.
  intros G HR Hrk. destruct (rank_bound rank1 (loaded st1)) as [B HB].
  assert (forall k j, (B - rank1 j <= k)%nat -> j ∈ new -> R ∈ new /\ reaches st1 R j) as H; [|intros j; by apply (H (B - rank1 j)%nat)].
  induction k as [|k IH]; intros j Hk Hj; destruct (g_new _ _ _ _ G j Hj) as (_ & l & Hl & _ & _ & _ & _ & _ & Hps & [?|[Hh|Hp]]); try done;
    (rewrite HR in Hh; injection Hh as ->; split; [done|constructor]) || (destruct (parents l) as [|q qs] eqn:Eq; [done|]; apply Forall_cons_1 in Hps as [Hq _];
    destruct (g_parents _ _ _ _ G j l q Hl) as (lq & Hlq & Hc); [rewrite Eq; by left|]; assert (needs st1 q j) as Hn by (by exists lq); pose proof (Hrk q j Hn); pose proof (HB q lq Hlq)).
  - lia.
  - destruct (IH q) as [? Hr]; [lia|done|]. split; [done|]. by econstructor.
Qed.
Lemma tuned_needs new s1 s2 i c : tuned new s1 s2 -> needs s1 i c <-> needs s2 i c.
Proof.
  intros T. split.
  - intros (l & Hl & Hc). destruct (t_new _ _ _ T i l Hl) as (l2 & Hl2 & A). exists l2. split; [done|]. destruct A as [-> _]. done.
  - intros (l2 & Hl2 & Hc). destruct (t_live _ _ _ T i) as [l Hl]; [by eexists|]. destruct (t_new _ _ _ T i l Hl) as (l2' & Hl2' & A). rewrite Hl2 in Hl2'. injection Hl2' as <-. exists l. split; [done|]. destruct A as [<- _]. done.
Qed.
Lemma tuned_reaches new s1 s2 i c : tuned new s1 s2 -> reaches s1 i c -> reaches s2 i c.
Proof. intros T. induction 1 as [|i j k _ IH Hn]; [constructor|]. econstructor; [exact IH|]. by apply (tuned_needs _ _ _ _ _ T). Qed.
Lemma tuned_some new s1 s2 j : tuned new s1 s2 -> is_Some (loaded s2 !! j) <-> is_Some (loaded s1 !! j).
Proof. intros T. split; [apply T|]. intros [l Hl]. destruct (t_new _ _ _ T j l Hl) as (l2 & ? & _). by eexists. Qed.
Lemma tuned_linked o st1 new tasks s2 j l : grown o st1 new tasks -> tuned new st1 s2 -> loaded s2 !! j = Some l -> linked l = false -> j ∈ new.
Proof.
  intros G T Hj Hl. destruct (t_live _ _ _ T j) as [l1 H1]; [by eexists|]. destruct (t_new _ _ _ T j l1 H1) as (l2 & H2 & _ & _ & A & _). rewrite Hj in H2. injection H2 as <-.
  eapply unlinked_new; [done|done|]. congruence.
Qed.
Context (relocate : soinfo -> SymbolLookupList -> bool) (symbolic : soinfo -> bool) (sdk : Z) (tracing : bool).
Definition is_done (s : state) (x : nat) : Prop := exists l, loaded s !! x = Some l /\ (linked l = true \/ image_linked l = true).
Lemma link_one o st1 new tasks lookup x l s : grown o st1 new tasks -> tuned new st1 s -> loaded s !! x = Some l -> linked l = false -> exists b s', link_image relocate sdk R lookup x s = Ret (b, s') /\ tuned new st1 s' /\
  (new = [] -> b = true) /\ (b = true -> is_done s' x /\ forall y, is_done s y -> is_done s' y).
Proof.
  intros G T Hl Hlk. unfold link_image. rewrite (get_ret _ _ _ Hl). cbn [mbind outcome_bind]. destruct (image_linked l) eqn:Him.
  { exists true, s. split_and!; [done|done|done|]. intros _. split; [|done]. exists l. split; [done|by right]. }
  pose proof (tuned_linked _ _ _ _ _ _ _ G T Hl Hlk) as Hnew. destruct (relocate _ _).
  - eexists true, _. split; [done|]. split_and!; [eapply tuned_put; [done..|]; unfold alike; split_and!; auto|done|]. intros _. split; [eexists; split; [apply lookup_insert_eq|by right]|].
    intros y (ly & Hy & Hd). destruct (decide (y = x)) as [->|]; [eexists; split; [apply lookup_insert_eq|by right]|]. exists ly. split; [|done]. cbn [put_library set_loaded loaded]. by rewrite lookup_insert_ne.
  - eexists false, _. split; [done|]. split_and!; [eapply tuned_put; [done..|]; unfold alike; cbn; split_and!; auto| |done]. intros ->. by apply not_elem_of_nil in Hnew.
Qed.
Lemma set_symbolic lib l : libs l <> [] -> exists l', set_dt_symbolic_lib lib l = Ret l' /\ libs l' <> [].
Proof. intros H. unfold set_dt_symbolic_lib. destruct (libs l) as [|first rest]; [done|]. by eexists. Qed.
Lemma link_each o st1 new tasks : grown o st1 new tasks -> forall xs lookup s, libs lookup <> [] -> tuned new st1 s -> (forall x, x ∈ xs -> is_Some (loaded st1 !! x)) ->
  exists b s', link_loop relocate symbolic sdk R lookup xs s = Ret (b, s') /\ tuned new st1 s' /\ (new = [] -> b = true) /\
    (b = true -> (forall x, x ∈ xs -> is_done s' x) /\ forall y, is_done s y -> is_done s' y).
Proof.
  intros G. induction xs as [|x xs IH]; intros lookup s Hlibs T Hxs; [exists true, s; split_and!; [done|done|done|]; intros _; split; [by intros x ?%not_elem_of_nil|done]|].
  destruct (proj2 (tuned_some _ _ _ x T)) as [l Hl]; [apply Hxs; by left|]. cbn [link_loop]. rewrite (get_ret _ _ _ Hl). cbn [mbind outcome_bind].
  assert (forall x, x ∈ xs -> is_Some (loaded st1 !! x)) as Hxs' by (intros; apply Hxs; by right). destruct (linked l) eqn:Hlk.
  { destruct (IH lookup s Hlibs T Hxs') as (b & s2 & E2 & T2 & Hb2 & Hd2). exists b, s2. split_and!; auto. intros Hbt. destruct (Hd2 Hbt) as [Hx Hy]. split; [|done].
    intros y [->|?]%elem_of_cons; [|auto]. apply Hy. exists l. split; [done|by left]. }
  destruct (set_symbolic (if symbolic (tables l) then Some (tables l) else None) lookup Hlibs) as (lookup' & -> & Hlibs'). cbn [mbind outcome_bind].
  destruct (link_one o st1 new tasks lookup' x l s G T Hl Hlk) as (b & s' & E & T' & Hb & Hd). rewrite E. cbn [mbind outcome_bind fst snd].
  destruct b; [|exists false, s'; split_and!; auto; done]. destruct (IH lookup' s' Hlibs' T' Hxs') as (b & s2 & E2 & T2 & Hb2 & Hd2). exists b, s2. split_and!; auto.
  intros Hbt. destruct (Hd eq_refl) as [Hx Hy]. destruct (Hd2 Hbt) as [Hxs2 Hy']. split; [|auto]. intros y [->|?]%elem_of_cons; auto.
Qed.
Lemma group_list_libs t gs ls : libs (group_list t gs ls) <> [].
Proof.
  assert (forall gs r, fst r <> [] -> fst (foldl add_group r gs) <> []) as H.
  { induction gs0 as [|g gs0 IH]; intros r Hr; [done|]. cbn. apply IH. cbn. by destruct (fst r). }
  unfold group_list. cbn. by apply H, H.
Qed.
Lemma group_tables s xs : (forall x, x ∈ xs -> is_Some (loaded s !! x)) -> exists ts, all_tables xs s = Ret ts.
Proof.
  induction xs as [|x xs IH]; intros H; [by eexists|]. cbn [all_tables]. destruct (H x) as [l Hl]; [by left|]. rewrite (get_ret _ _ _ Hl). cbn [mbind outcome_bind].
  destruct IH as [ts ->]; [intros; apply H; by right|]. by eexists.
Qed.
Lemma global_group s xs : (forall x, x ∈ xs -> is_Some (loaded s !! x)) -> exists g, get_global_group xs s = Ret g /\ forall x, x ∈ g -> x ∈ xs.
Proof.
  induction xs as [|x xs IH]; intros H; [exists []; done|]. cbn [get_global_group]. destruct (H x) as [l Hl]; [by left|]. rewrite (get_ret _ _ _ Hl). cbn [mbind outcome_bind].
  destruct IH as (g & -> & Hg); [intros; apply H; by right|]. cbn [mbind outcome_bind]. eexists. split; [done|]. intros y. destruct (decide _).
  - intros [->|?]%elem_of_cons; [by left|right; auto].
  - intros ?. right. auto.
Qed.
(** Once the group is linked, every new library has the root that was opened. *)
Lemma group_linked st1 new tasks rank1 s : grown None st1 new tasks -> t_soinfo <$> head tasks = Some R -> ranked st1 rank1 -> tuned new st1 s ->
  exists b s', link_group relocate symbolic sdk tracing R s = Ret (b, s') /\ tuned new st1 s' /\ (new = [] -> b = true) /\
    (b = true -> forall j, j ∈ new -> exists l, loaded s' !! j = Some l /\ local_group_root l = R).
Proof.
  intros G HR Hrk T. assert (is_Some (loaded st1 !! R)) as HRl. { destruct tasks as [|t ts]; [done|]. injection HR as <-. apply (g_tasks _ _ _ _ G). by left. }
  assert (live s) as Hlive.
  { intros i l Hi c Hc. assert (needs s i c) as (l1 & Hl1 & Hc1)%(tuned_needs _ _ _ _ _ T) by (by exists l). destruct (g_children _ _ _ _ G i l1 c Hl1 Hc1) as (lc & ? & _). apply (tuned_some _ _ _ _ T). by eexists. }
  destruct (walk_all s R Hlive) as (all & Ew & _ & _ & Hall); [by apply (tuned_some _ _ _ _ T)|]. unfold link_group. unfold walked, go_on in Ew. rewrite Ew. cbn [mbind outcome_bind fst snd].
  assert (forall x, x ∈ ns s -> is_Some (loaded s !! x)) as Hns by (intros x Hx; apply (tuned_some _ _ _ _ T), (grown_ns _ _ _ _ G); destruct (t_rest _ _ _ T) as [<- _]; done).
  assert (forall x, x ∈ all -> is_Some (loaded s !! x)) as Halls.
  { intros x Hx%Hall. inversion Hx as [|? j ? _ (lj & Hj & Hc)]; subst; [by apply (tuned_some _ _ _ _ T)|by eapply Hlive]. }
  destruct (global_group s (ns s) Hns) as (g & -> & Hg). cbn [mbind outcome_bind]. destruct (group_tables s g) as [ts1 ->]; [auto|]. cbn [mbind outcome_bind]. destruct (group_tables s all) as [ts2 ->]; [auto|].
  cbn [mbind outcome_bind]. destruct (link_each None st1 new tasks G all (group_list tracing ts1 ts2) s (group_list_libs _ _ _) T) as (b & s' & E & T' & Hb & Hd); [intros x Hx; apply (tuned_some _ _ _ _ T); auto|].
  exists b, s'. split_and!; auto. intros Hbt j Hj. destruct (new_reached _ _ _ _ G HR Hrk j Hj) as [_ Hr]. destruct (Hd Hbt) as [Hx _].
  destruct (Hx j) as (l' & Hl' & Hor); [apply Hall; by eapply tuned_reaches|]. exists l'. split; [done|]. destruct (g_new _ _ _ _ G j Hj) as (_ & l1 & Hl1 & Hlk & Him & _).
  destruct (t_new _ _ _ T' j l1 Hl1) as (l2 & Hl2 & _ & _ & Al & _ & _ & _ & Ai). rewrite Hl' in Hl2. injection Hl2 as <-. destruct Ai as [[_ Ai]|]; [|done]. destruct Hor as [|Hi%Ai]; congruence.
Qed.

(** ** A failure leaves nothing *)
Definition root' (new : list nat) (x : nat) : nat := if decide (x ∈ new) then R else root x.
Lemma root_new new x : x ∈ new -> root' new x = R.
Proof. unfold root'. intros. by rewrite decide_True. Qed.
Lemma root_old o st1 new tasks x : grown o st1 new tasks -> is_Some (loaded st !! x) -> root' new x = root x.
Proof. intros G [l Hl]. unfold root'. rewrite decide_False; [done|]. intros Hx. destruct (g_new _ _ _ _ G x Hx). congruence. Qed.
Lemma old_not_R o st1 new tasks x : grown o st1 new tasks -> R ∈ new -> is_Some (loaded st !! x) -> root x <> R.
Proof. intros G HR [l Hl] E. destruct (i_root _ _ _ _ Hinv x l Hl) as (_ & _ & [lr Hlr]). rewrite E in Hlr. destruct (g_new _ _ _ _ G R HR). congruence. Qed.
(** A library of the state is an old one with new parents, or a new one. *)
Lemma tuned_cases o st1 new tasks s j l : grown o st1 new tasks -> tuned new st1 s -> loaded s !! j = Some l ->
  (j ∉ new /\ exists l0 extra, loaded st !! j = Some l0 /\ l = set_links (children l0) (parents l0 ++ extra) l0 /\ Forall (fun p => p ∈ new) extra) \/
  (j ∈ new /\ loaded st !! j = None /\ children l = kids tasks j /\ linked l = false /\ ref_count l = 0 /\ constructors_called l = false /\ Forall (fun p => p ∈ new) (parents l)).
Proof.
  intros G T Hj. destruct (decide (j ∈ new)) as [Hn|Hn].
  - right. destruct (g_new _ _ _ _ G j Hn) as (? & l1 & Hl1 & ? & ? & ? & ? & ? & ? & _). destruct (t_new _ _ _ T j l1 Hl1) as (l2 & Hl2 & A). rewrite Hj in Hl2. injection Hl2 as <-.
    destruct A as (-> & -> & -> & -> & -> & _). done.
  - left. split; [done|]. rewrite (t_old _ _ _ T j Hn) in Hj. destruct (g_dom _ _ _ _ G j) as [[l0 H0]|]; [by eexists| |done]. destruct (g_old _ _ _ _ G j l0 H0) as (extra & E & F). exists l0, extra.
    rewrite E in Hj. injection Hj as <-. done.
Qed.
Lemma tuned_children o st1 new tasks s i l c : grown o st1 new tasks -> tuned new st1 s -> loaded s !! i = Some l -> c ∈ children l -> exists lc, loaded s !! c = Some lc /\ i ∈ parents lc.
Proof.
  intros G T Hi Hc. assert (needs s i c) as (l1 & Hl1 & Hc1)%(tuned_needs _ _ _ _ _ T) by (by exists l). destruct (g_children _ _ _ _ G i l1 c Hl1 Hc1) as (lc & Hlc & Hp).
  destruct (t_new _ _ _ T c lc Hlc) as (l2 & Hl2 & _ & Ep & _). exists l2. by rewrite Ep.
Qed.
Lemma tuned_parents o st1 new tasks s i l p : grown o st1 new tasks -> tuned new st1 s -> loaded s !! i = Some l -> p ∈ parents l -> exists lp, loaded s !! p = Some lp /\ i ∈ children lp.
Proof.
  intros G T Hi Hp. destruct (t_live _ _ _ T i) as [l1 Hl1]; [by eexists|]. destruct (t_new _ _ _ T i l1 Hl1) as (l2 & Hl2 & _ & Ep & _). rewrite Hi in Hl2. injection Hl2 as <-. rewrite Ep in Hp.
  destruct (g_parents _ _ _ _ G i l1 p Hl1 Hp) as (lp & Hlp & Hc). destruct (t_new _ _ _ T p lp Hlp) as (l2 & Hl2 & Ec & _). exists l2. by rewrite Ec.
Qed.
Lemma old_kept o st1 new tasks local m j : grown o st1 new tasks -> (forall x, x ∈ local <-> x ∈ new) -> forall s, tuned new st1 s -> view (kids_taken local) (parents_left local) (loaded s) m ->
  (if decide (j ∈ local) then None else m !! j) = loaded st !! j.
Proof.
  intros G Hlocal s T V. destruct (decide (j ∈ local)) as [Hin|Hin].
  - apply Hlocal in Hin. by destruct (g_new _ _ _ _ G j Hin) as [-> _].
  - rewrite V. destruct (loaded s !! j) as [l|] eqn:Hj; cbn.
    + destruct (tuned_cases _ _ _ _ _ _ _ G T Hj) as [(_ & l0 & extra & H0 & -> & F)|(Hn & _)]; [|by apply Hlocal in Hn]. rewrite H0. f_equal. unfold kids_taken, parents_left. rewrite decide_False by done. cbn.
      rewrite filter_app. assert (filter (fun p => p ∉ local) extra = []) as ->.
      { clear -F Hlocal. induction F as [|p ps Hp _ IH]; [done|]. rewrite filter_cons, decide_False; [done|]. intros Hn. by apply Hn, Hlocal. }
      rewrite app_nil_r, (filter_same (fun p => p ∉ local) (fun _ => True)).
      * rewrite filter_keeps by done. by destruct l0.
      * intros p Hp. split; [done|]. intros _ Hpl%Hlocal. destruct (i_parents _ _ _ _ Hinv j l0 p H0 Hp) as (lp & Hlp & _). destruct (g_new _ _ _ _ G p Hpl). congruence.
    + destruct (loaded st !! j) as [l0|] eqn:H0; [|done]. destruct (g_old _ _ _ _ G j l0 H0) as (extra & E & _). destruct (t_new _ _ _ T j _ E) as (? & ? & _). congruence.
Qed.
Lemma filter_new (xs new local : list nat) : (forall x, x ∈ local <-> x ∈ new) -> (forall x, x ∈ xs -> x ∉ new) -> filter (fun i => i ∉ local) (xs ++ new) = xs.
Proof.
  intros Hl Hx. rewrite filter_app. assert (filter (fun i => i ∉ local) new = []) as ->.
  { assert (forall ys, (forall y, y ∈ ys -> y ∈ local) -> filter (fun i => i ∉ local) ys = []) as H; [|apply H; intros; by apply Hl].
    induction ys as [|y ys IH]; intros H; [done|]. rewrite filter_cons, decide_False; [apply IH; intros; apply H; by right|]. intros Hn. apply Hn, H. by left. }
  rewrite app_nil_r, (filter_same (fun p => p ∉ local) (fun _ => True)); [by rewrite filter_keeps|]. intros x Hin. split; [done|]. intros _ Hxl%Hl. by apply (Hx x).
Qed.
Lemma no_dtors o st1 new tasks s m1 K P : grown o st1 new tasks -> tuned new st1 s -> view K P (loaded s) m1 -> forall local, (forall x, x ∈ local -> x ∈ new) -> local ≫= dtor_calls (set_loaded m1 s) = [].
Proof.
  intros G T V. induction local as [|x xs IH]; intros H; [done|]. cbn. rewrite IH by (intros; apply H; by right). rewrite app_nil_r. unfold dtor_calls. cbn [set_loaded loaded]. rewrite V.
  destruct (loaded s !! x) as [l|] eqn:El; [|done]. cbn. assert (x ∈ new) by (apply H; by left). destruct (tuned_cases _ _ _ _ _ _ _ G T El) as [(Hn & _)|(_ & _ & _ & _ & _ & -> & _)]; done.
Qed.
Lemma handles_back st1 new tasks s (local : list nat) h j : grown None st1 new tasks -> tuned new st1 s -> (forall x, x ∈ local <-> x ∈ new) ->
  handles s !! h = Some j /\ (forall i l, i ∈ local -> loaded s !! i = Some l -> handle l <> h) <-> handles st !! h = Some j.
Proof.
  intros G T Hln. destruct (t_rest _ _ _ T) as (_ & _ & -> & _). rewrite (g_handles _ _ _ _ G), (i_handles _ _ _ _ Hinv). split.
  - intros [(l1 & Hl1 & Hh) Hno]. destruct (t_new _ _ _ T j l1 Hl1) as (l2 & Hl2 & _ & _ & _ & _ & _ & Ah & _). destruct (g_dom _ _ _ _ G j) as [[l0 H0]|Hn]; [by eexists| |].
    + destruct (g_old _ _ _ _ G j l0 H0) as (extra & E & _). rewrite E in Hl1. injection Hl1 as <-. by exists l0.
    + destruct (Hno j l2); [by apply Hln|done|congruence].
  - intros (l0 & H0 & Hh). destruct (g_old _ _ _ _ G j l0 H0) as (extra & E & _). split; [by eexists|]. intros i l Hi%Hln Hl Hhl. destruct (g_new _ _ _ _ G i Hi) as (Hin & l1 & Hl1 & _).
    destruct (t_new _ _ _ T i l1 Hl1) as (l2 & Hl2 & _ & _ & _ & _ & _ & Ah & _). rewrite Hl in Hl2. injection Hl2 as <-.
    assert (handles st1 !! h = Some i) as E1 by (apply (g_handles _ _ _ _ G); exists l1; split; [done|congruence]). assert (handles st1 !! h = Some j) as E2 by (apply (g_handles _ _ _ _ G); by eexists). congruence.
Qed.
Lemma failure_restores st1 new tasks rank1 s fuel : grown None st1 new tasks -> t_soinfo <$> head tasks = Some R -> ranked st1 rank1 -> tuned new st1 s -> R ∈ new -> soinfo_unload (S fuel) R s = Ret st.
Proof.
  intros G HR Hrk T HRn. destruct (g_new _ _ _ _ G R HRn) as (HRst & lR1 & HlR1 & HlkR & _). destruct (t_new _ _ _ T R lR1 HlR1) as (lR & HlR & _ & _ & AlR & _).
  destruct (i_solist _ _ _ _ Hinv) as (first & rest & Hs & Hf & Hin & Hlv & _). destruct (t_rest _ _ _ T) as (Tns & Tso & Tha & Tca). destruct (g_rest _ _ _ _ G) as (Gns & Gso & Gca).
  assert (first ∈ first :: rest) as Hfst by (by left). pose proof (old_not_R _ _ _ _ first G HRn (Hlv first Hfst)) as HfR.
  destruct (group_gone (root' new) rank1 R s first (rest ++ new)) as (m1 & local & st2 & E & Hnd & Hlocal & V & E2 & L2 & S2 & N2 & C2 & H2).
  - intros i l Hi. destruct (tuned_cases _ _ _ _ _ _ _ G T Hi) as [(Hn & l0 & extra & H0 & -> & _)|(Hn & _ & _ & -> & _)].
    + rewrite (root_old _ _ _ _ i G) by (by eexists). cbn. destruct (i_root _ _ _ _ Hinv i l0 H0) as (-> & _). rewrite (i_linked _ _ _ _ Hinv i l0 H0). tauto.
    + rewrite root_new by done. split; [by intros [? _]|done].
  - intros i l c. by eapply tuned_children.
  - intros i l q. by eapply tuned_parents.
  - intros i c Hn. apply Hrk. by apply (tuned_needs _ _ _ _ _ T).
  - by eexists.
  - by apply root_new.
  - intros x l Hx Hr Hne. destruct (tuned_cases _ _ _ _ _ _ _ G T Hx) as [(_ & l0 & _ & H0 & _)|(Hn & _)].
    + rewrite (root_old _ _ _ _ x G) in Hr by (by eexists). by destruct (old_not_R _ _ _ _ x G HRn ltac:(by eexists)).
    + destruct (g_new _ _ _ _ G x Hn) as (_ & l1 & Hl1 & _ & _ & _ & _ & _ & _ & [?|[Hh|Hp]]); [done|congruence|]. destruct (t_new _ _ _ T x l1 Hl1) as (l2 & Hl2 & _ & Ep & _). rewrite Hx in Hl2. injection Hl2 as <-.
      destruct (parents l1) as [|q qs]; [done|]. exists q. rewrite Ep. by left.
  - intros c lc q Hc Hr Hq. destruct (tuned_cases _ _ _ _ _ _ _ G T Hc) as [(_ & l0 & _ & H0 & _)|(_ & _ & _ & _ & _ & _ & F)].
    + rewrite (root_old _ _ _ _ c G) in Hr by (by eexists). by destruct (old_not_R _ _ _ _ c G HRn ltac:(by eexists)).
    + apply root_new. rewrite Forall_forall in F. auto.
  - by rewrite Tso, Gso, Hs.
  - by rewrite (root_old _ _ _ _ first G) by auto.
  - intros i Hi%(tuned_some _ _ _ _ T). destruct (g_dom _ _ _ _ G i Hi) as [Hd|Hd]; [|right; apply elem_of_app; by right]. destruct (Hin i Hd) as [|]; [by left|right; apply elem_of_app; by left].
  - assert (forall x, x ∈ local <-> x ∈ new) as Hln.
    { intros x. rewrite Hlocal. split.
      - intros [[l Hx] Hr]. destruct (tuned_cases _ _ _ _ _ _ _ G T Hx) as [(_ & l0 & _ & H0 & _)|(Hn & _)]; [|done]. rewrite (root_old _ _ _ _ x G) in Hr by (by eexists). by destruct (old_not_R _ _ _ _ x G HRn ltac:(by eexists)).
      - intros Hn. split; [|by apply root_new]. apply (tuned_some _ _ _ _ T). destruct (g_new _ _ _ _ G x Hn) as (_ & l1 & ? & _). by eexists. }
    assert (forall x, is_Some (loaded st !! x) -> x ∉ new) as Hold by (intros x [l Hl] Hn; destruct (g_new _ _ _ _ G x Hn); congruence).
    assert (st2 = st) as ->.
    { assert (loaded st2 = loaded st) as E1 by (apply map_eq; intros j; rewrite L2; by eapply old_kept).
      assert (ns st2 = ns st) as E3 by (rewrite N2, Tns, Gns; apply filter_new; [done|]; intros x Hx; apply Hold, (i_ns _ _ _ _ Hinv x Hx)).
      assert (solist st2 = solist st) as E4 by (rewrite S2, Hs; f_equal; apply filter_new; [done|]; intros x Hx; apply Hold, Hlv; by right).
      assert (calls st2 = calls st) as E5 by (rewrite C2, Tca, Gca, (no_dtors _ _ _ _ _ _ _ _ G T V) by (intros; by apply Hln); by rewrite app_nil_r).
      assert (handles st2 = handles st) as E6 by (apply map_eq; intros h; apply option_eq; intros j; rewrite H2; by rewrite (handles_back _ _ _ _ _ _ _ G T Hln)).
      destruct st2, st. cbn in *. congruence. }
    cbn [soinfo_unload]. rewrite (get_ret _ _ _ HlR). cbn [mbind outcome_bind]. rewrite AlR, HlkR, (get_ret _ _ _ HlR). cbn [mbind outcome_bind]. unfold can_unload. rewrite AlR, HlkR. cbn [negb orb]. rewrite decide_False by lia. rewrite E. cbn [mbind outcome_bind].
    destruct (for_all call_destructors local (set_loaded m1 s)) as [s1| | |]; try done. cbn [mbind outcome_bind] in *. by rewrite E2.
Qed.

(** ** A success links the group *)
Lemma mark_all ts : forall s, (forall t, t ∈ ts -> is_Some (loaded s !! t_soinfo t)) ->
  exists m, over mark_linked ts s = Ret (set_loaded m s) /\ forall j, m !! j = (fun l => if decide (j ∈ (t_soinfo <$> ts)) then set_linked l else l) <$> loaded s !! j.
Proof.
  induction ts as [|t ts IH]; intros s H.
  { exists (loaded s). split; [by destruct s|]. intros j. destruct (loaded s !! j); [|done]. cbn. by rewrite decide_False by apply not_elem_of_nil. }
  destruct (H t) as [l Hl]; [by left|]. cbn [over]. assert (mark_linked s t = Ret (put_library (t_soinfo t) (set_linked l) s)) as -> by (unfold mark_linked; by rewrite (get_ret _ _ _ Hl)). cbn [mbind outcome_bind].
  destruct (IH (put_library (t_soinfo t) (set_linked l) s)) as (m & E & Hm).
  { intros u Hu. cbn [put_library set_loaded loaded]. destruct (decide (t_soinfo u = t_soinfo t)) as [->|]; [rewrite lookup_insert_eq; by eexists|rewrite lookup_insert_ne by done; apply H; by right]. }
  exists m. split; [done|]. intros j. rewrite Hm. cbn [put_library set_loaded loaded fmap list_fmap]. destruct (decide (j = t_soinfo t)) as [->|Hj].
  - rewrite lookup_insert_eq, Hl. cbn. rewrite (decide_True (P := t_soinfo t ∈ t_soinfo t :: _)) by (by left). by destruct (decide _).
  - rewrite lookup_insert_ne by done. destruct (loaded s !! j); [|done]. cbn. destruct (decide (j ∈ (t_soinfo <$> ts))) as [Hd|Hd].
    + by rewrite decide_True by (by right).
    + by rewrite decide_False by (intros [?|?]%elem_of_cons; done).
Qed.
(** The links from new libraries to the group [r]. *)
Definition crosses (new : list nat) (ts : list LoadTask) (r : nat) : nat := length (filter (fun t => t_needed_by t ∈ Some <$> new /\ root' new (t_soinfo t) = r) ts).
Definition bonus (new : list nat) (ts : list LoadTask) (j : nat) : Z := if decide (j = R) then 0 else Z.of_nat (crosses new ts j).
Lemma bonus_cons new t ts j : bonus new (t :: ts) j = (if decide (j <> R /\ t_needed_by t ∈ Some <$> new /\ root' new (t_soinfo t) = j) then 1 else 0) + bonus new ts j.
Proof.
  unfold bonus, crosses. rewrite filter_cons. destruct (decide (j = R)) as [->|Hj]; [by rewrite decide_False by tauto|].
  destruct (decide (t_needed_by t ∈ Some <$> new /\ root' new (t_soinfo t) = j)) as [Hd|Hd]; [rewrite decide_True by tauto|rewrite decide_False by tauto]; cbn [length]; lia.
Qed.
Lemma crosses_nil ts r : crosses [] ts r = 0%nat.
Proof. unfold crosses. induction ts as [|t ts IH]; [done|]. rewrite filter_cons, decide_False; [done|]. intros [H _]. by apply not_elem_of_nil in H. Qed.
Lemma set_count_same l n : n = ref_count l -> set_count n l = l.
Proof. intros ->. by destruct l. Qed.
Lemma count_all new ts : (forall p, start_with = Some p -> p ∉ new) -> forall s,
  (forall j l, loaded s !! j = Some l -> local_group_root l = root' new j /\ is_Some (loaded s !! root' new j) /\ root' new (root' new j) = root' new j /\ (root' new j = j -> 0 <= ref_count l /\ ref_count l + Z.of_nat (length ts) < 2 ^ 64)) ->
  (forall p, p ∈ new -> is_Some (loaded s !! p)) -> (forall t, t ∈ ts -> is_Some (loaded s !! t_soinfo t) /\ (t_needed_by t = start_with \/ exists p, p ∈ new /\ t_needed_by t = Some p)) ->
  exists m, over (count_reference start_with) ts s = Ret (set_loaded m s) /\ forall j, m !! j = (fun l => set_count (ref_count l + bonus new ts j) l) <$> loaded s !! j.
Proof.
  intros Hsw. induction ts as [|t ts IH]; intros s Hs Hnew Ht.
  { exists (loaded s). split; [by destruct s|]. intros j. destruct (loaded s !! j) as [l|]; [|done]. cbn. rewrite set_count_same; [done|]. unfold bonus, crosses. cbn. by destruct (decide _); lia. }
  destruct (Ht t) as [[l Hl] Hnb]; [by left|]. cbn [over length] in *.
  assert (forall s2, (forall j, loaded s2 !! j = (fun l => set_count (ref_count l + if decide (j <> R /\ t_needed_by t ∈ Some <$> new /\ root' new (t_soinfo t) = j) then 1 else 0) l) <$> loaded s !! j) -> (exists m2, s2 = set_loaded m2 s) ->
    exists m, over (count_reference start_with) ts s2 = Ret (set_loaded m s) /\ forall j, m !! j = (fun l => set_count (ref_count l + bonus new (t :: ts) j) l) <$> loaded s !! j) as Hnext.
  { intros s2 H2 [m2 ->]. destruct (IH (set_loaded m2 s)) as (m & E & Hm).
    - intros j lj Hj. rewrite H2 in Hj. destruct (loaded s !! j) as [l0|] eqn:H0; [|done]. injection Hj as <-. destruct (Hs j l0 H0) as (? & [lr Hr] & ? & Hb). rewrite H2, Hr. cbn. split_and!; [done|by eexists|done|]. intros [? ?]%Hb. destruct (decide _); lia.
    - intros p Hp. rewrite H2. destruct (Hnew p Hp) as [? ->]. by eexists.
    - intros u Hu. rewrite H2. destruct (Ht u) as [[? ->] ?]; [by right|]. split; [by eexists|done].
    - exists m. split; [done|]. intros j. rewrite Hm, H2. destruct (loaded s !! j) as [l0|]; [|done]. cbn. f_equal. rewrite bonus_cons. unfold set_count. cbn. f_equal. lia. }
  assert (forall P, (forall j, ~ (j <> R /\ t_needed_by t ∈ Some <$> new /\ root' new (t_soinfo t) = j)) -> (P : outcome exn state) = Ret s ->
    exists m, (s ← P; over (count_reference start_with) ts s) = Ret (set_loaded m s) /\ forall j, m !! j = (fun l => set_count (ref_count l + bonus new (t :: ts) j) l) <$> loaded s !! j) as Hskip.
  { intros P Hno ->. cbn [mbind outcome_bind]. apply Hnext; [|exists (loaded s); by destruct s]. intros j. destruct (loaded s !! j) as [l0|]; [|done]. cbn. rewrite decide_False by auto. rewrite set_count_same by lia. done. }
  destruct (decide (t_needed_by t = start_with)) as [Heq|Hne].
  - apply Hskip; [|unfold count_reference; destruct (t_needed_by t); [by rewrite decide_True|done]]. intros j (_ & (p & Hp & Hin)%list_elem_of_fmap & _). apply (Hsw p); congruence.
  - destruct Hnb as [|(p & Hp & Hnb)]; [done|]. destruct (Hnew p Hp) as [lp Hlp]. destruct (Hs _ _ Hl) as (Hr & [lr Hlr] & Hrr & _). destruct (Hs _ _ Hlp) as (Hrp & _). rewrite root_new in Hrp by done.
    destruct (decide (R = root' new (t_soinfo t))) as [HR|HR].
    + apply Hskip; [intros j (HjR & _ & Hj); congruence|]. unfold count_reference. rewrite Hnb, decide_False by congruence. rewrite (get_ret _ _ _ Hl), (get_ret _ _ _ Hlp). cbn [mbind outcome_bind]. by rewrite decide_True by congruence.
    + assert (count_reference start_with s t = Ret (put_library (root' new (t_soinfo t)) (set_count (wrapu 64 (ref_count lr + 1)) lr) s)) as ->.
      { unfold count_reference. rewrite Hnb, decide_False by congruence. rewrite (get_ret _ _ _ Hl), (get_ret _ _ _ Hlp). cbn [mbind outcome_bind]. rewrite decide_False by congruence.
        unfold increment_ref_count. rewrite (get_ret _ _ _ Hl). cbn [mbind outcome_bind]. by rewrite Hr, (get_ret _ _ _ Hlr). }
      cbn [mbind outcome_bind]. apply Hnext; [|by eexists].
      destruct (Hs _ _ Hlr) as (_ & _ & _ & Hb). destruct (Hb Hrr) as [? ?]. rewrite wrapu_small by lia. intros j. cbn [put_library set_loaded loaded]. destruct (decide (j = root' new (t_soinfo t))) as [->|Hj].
      * rewrite lookup_insert_eq, Hlr. cbn. rewrite decide_True; [done|]. split_and!; [done| |done]. rewrite Hnb. apply list_elem_of_fmap. by exists p.
      * rewrite lookup_insert_ne by done. destruct (loaded s !! j) as [l0|]; [|done]. cbn. rewrite decide_False by (intros (_ & _ & ?); done). rewrite set_count_same by lia. done.
Qed.

Lemma settled st1 new tasks rank1 s : grown None st1 new tasks -> t_soinfo <$> head tasks = Some R -> ranked st1 rank1 -> tuned new st1 s ->
  (forall j, j ∈ new -> exists l, loaded s !! j = Some l /\ local_group_root l = R) -> (forall j l, loaded st !! j = Some l -> ref_count l + Z.of_nat (length tasks) < 2 ^ 64) ->
  exists m, (st ← over mark_linked tasks s; over (count_reference start_with) tasks st) = Ret (set_loaded m s) /\
    forall j, m !! j = (fun l => set_count (ref_count l + bonus new tasks j) (set_linked l)) <$> loaded s !! j.
Proof.
  intros G HR Hrk T Hroots Hb. destruct (mark_all tasks s) as (m1 & -> & Hm1); [intros t Ht; apply (tuned_some _ _ _ _ T); by apply (g_tasks _ _ _ _ G)|]. cbn [mbind outcome_bind].
  assert (forall j, m1 !! j = set_linked <$> loaded s !! j) as Hm1'.
  { intros j. rewrite Hm1. destruct (loaded s !! j) as [l|] eqn:Hj; [|done]. cbn. f_equal. destruct (decide (j ∈ (t_soinfo <$> tasks))) as [|Hn]; [done|]. destruct (linked l) eqn:Hl; [by destruct l; cbn in *; subst|].
    pose proof (tuned_linked _ _ _ _ _ _ _ G T Hj Hl) as Hnew. destruct (g_listed _ _ _ _ G j Hnew); done. }
  destruct (count_all new tasks) with (s := set_loaded m1 s) as (m & -> & Hm).
  - intros p Hp Hn. destruct (g_new _ _ _ _ G p Hn) as [Hnone _]. by apply (new_not_start p Hnone).
  - intros j l Hj. cbn [set_loaded loaded] in *. rewrite Hm1' in Hj. destruct (loaded s !! j) as [ls|] eqn:Hs; [|done]. injection Hj as <-. cbn. destruct (tuned_cases _ _ _ _ _ _ _ G T Hs) as [(Hn & l0 & extra & H0 & -> & _)|(Hn & _ & _ & _ & Hc & _)].
    + rewrite (root_old _ _ _ _ j G) by (by eexists). destruct (i_root _ _ _ _ Hinv j l0 H0) as (Hr & Hrr & Hrs). rewrite (root_old _ _ _ _ (root j) G) by done. cbn. split_and!; [done| |done|].
      * rewrite Hm1', fmap_is_Some, (tuned_some _ _ _ _ T). destruct Hrs as [lr Hlr]. destruct (g_old _ _ _ _ G _ lr Hlr) as (? & ? & _). by eexists.
      * intros Hjj. destruct (i_count _ _ _ _ Hinv j l0 H0 Hjj) as [? _]. split; [lia|eauto].
    + destruct (new_reached _ _ _ _ G HR Hrk j Hn) as [HRn _]. rewrite (root_new new j) by done. rewrite (root_new new R) by done. destruct (Hroots j Hn) as (l' & Hl' & Hr). rewrite Hs in Hl'. injection Hl' as <-. split_and!; [done| |done|].
      * rewrite Hm1', fmap_is_Some. destruct (Hroots R HRn) as (lR & -> & _). by eexists.
      * intros _. rewrite Hc. split; [done|]. destruct (i_solist _ _ _ _ Hinv) as (first & rest & _ & Hf & _ & Hlv & _). destruct (Hlv first) as [lf Hlf]; [by left|]. pose proof (Hb first lf Hlf).
        destruct (i_count _ _ _ _ Hinv first lf Hlf Hf) as [? _]. lia.
  - intros p Hp. cbn [set_loaded loaded]. rewrite Hm1', fmap_is_Some. destruct (Hroots p Hp) as (l & -> & _). by eexists.
  - intros t Ht. cbn [set_loaded loaded]. rewrite Hm1', fmap_is_Some, (tuned_some _ _ _ _ T). by apply (g_tasks _ _ _ _ G).
  - exists m. split; [done|]. intros j. rewrite Hm. cbn [set_loaded loaded]. rewrite Hm1'. by destruct (loaded s !! j).
Qed.

(** The state once the group is linked and its references to other groups are counted. *)
Section Opened.
Context (st1 s : state) (new : list nat) (tasks : list LoadTask) (rank1 : nat -> nat) (m : gmap nat library).
Context (G : grown None st1 new tasks) (HR : t_soinfo <$> head tasks = Some R) (Hrk : ranked st1 rank1) (T : tuned new st1 s).
Context (Hroots : forall j, j ∈ new -> exists l, loaded s !! j = Some l /\ local_group_root l = R).
Context (Hm : forall j, m !! j = (fun l => set_count (ref_count l + bonus new tasks j) (set_linked l)) <$> loaded s !! j).
Context (Hfirst : forall t, t ∈ tasks -> head (solist st) <> Some (t_soinfo t)).
Context (Hbound : forall j l, loaded st !! j = Some l -> ref_count l + Z.of_nat (length tasks) < 2 ^ 64).
Lemma opened_cases j l : m !! j = Some l -> exists ls, loaded s !! j = Some ls /\ children l = children ls /\ parents l = parents ls /\ handle l = handle ls /\ linked l = true /\
  ((j ∉ new /\ exists l0 extra, loaded st !! j = Some l0 /\ children l = children l0 /\ parents l = parents l0 ++ extra /\ local_group_root l = root j /\ ref_count l = ref_count l0 + bonus new tasks j) \/
   (j ∈ new /\ R ∈ new /\ children l = kids tasks j /\ Forall (fun p => p ∈ new) (parents l) /\ local_group_root l = R /\ ref_count l = bonus new tasks j)).
Proof.
  intros Hj. rewrite Hm in Hj. destruct (loaded s !! j) as [ls|] eqn:Hs; [|done]. injection Hj as <-. exists ls. split_and!; [done..|]. cbn. destruct (tuned_cases _ _ _ _ _ _ _ G T Hs) as [(Hn & l0 & extra & H0 & -> & F)|(Hn & _ & Hc & _ & Hcount & _ & F)].
  - left. split; [done|]. exists l0, extra. cbn. destruct (i_root _ _ _ _ Hinv j l0 H0) as (-> & _). done.
  - right. destruct (new_reached _ _ _ _ G HR Hrk j Hn) as [HRn _]. destruct (Hroots j Hn) as (l' & Hl' & Hr). rewrite Hs in Hl'. injection Hl' as <-. rewrite Hcount. split_and!; done.
Qed.
Lemma opened_live j : is_Some (m !! j) <-> is_Some (loaded st !! j) \/ j ∈ new.
Proof.
  rewrite Hm, fmap_is_Some, (tuned_some _ _ _ _ T). split; [apply G|]. intros [[l Hl]|Hn]; [destruct (g_old _ _ _ _ G j l Hl) as (? & ? & _)|destruct (g_new _ _ _ _ G j Hn) as (_ & ? & ? & _)]; by eexists.
Qed.
Lemma opened_some j ls : loaded s !! j = Some ls -> exists l, m !! j = Some l /\ children l = children ls /\ parents l = parents ls /\ handle l = handle ls.
Proof. intros Hs. eexists. rewrite Hm, Hs. by split_and!. Qed.
(** A library of the group of the first library is that library, which no task found. *)
Lemma opened_not_first first rest c : solist st = first :: rest -> c ∈ (t_soinfo <$> tasks) -> root' new c <> first.
Proof.
  intros Hs (t & -> & Ht)%list_elem_of_fmap Hr. destruct (i_solist _ _ _ _ Hinv) as (first' & rest' & E & Hf & _ & Hlv & _ & Hc). rewrite Hs in E. injection E as <- <-.
  assert (is_Some (loaded st !! first)) as Hfl by (apply Hlv; by left). destruct (g_tasks _ _ _ _ G t Ht) as [Hl _]. unfold root' in Hr. destruct (decide (t_soinfo t ∈ new)) as [Hn|Hn].
  - subst first. destruct (new_reached _ _ _ _ G HR Hrk _ Hn) as [HRn _]. destruct (g_new _ _ _ _ G R HRn) as [E _]. rewrite E in Hfl. by destruct Hfl.
  - destruct (g_dom _ _ _ _ G _ Hl) as [[l0 H0]|]; [|done]. destruct (decide (t_soinfo t = first)) as [Hx|Hx]; [apply (Hfirst t Ht); rewrite Hs; cbn; congruence|].
    destruct (i_group _ _ _ _ Hinv _ _ H0) as (p & Hp & _); [congruence|]. destruct (i_parents _ _ _ _ Hinv _ _ _ H0 Hp) as (lp & Hlp & Hcp). by apply (Hc p lp (t_soinfo t)).
Qed.
Lemma kids_are_tasks j c : c ∈ kids tasks j -> c ∈ (t_soinfo <$> tasks).
Proof. intros (t & -> & [_ Ht]%list_elem_of_filter)%list_elem_of_fmap. apply list_elem_of_fmap. by exists t. Qed.
Lemma opened_kids : forall j, (children <$> m) !! j = if decide (j ∈ new) then Some (kids tasks j) else kids_of st !! j.
Proof.
  intros j. rewrite lookup_fmap. unfold kids_of. rewrite lookup_fmap. destruct (m !! j) as [l|] eqn:Hj; cbn.
  - destruct (opened_cases j l Hj) as (ls & _ & _ & _ & _ & _ & [(Hn & l0 & extra & H0 & -> & _)|(Hn & _ & -> & _)]); [rewrite decide_False by done; by rewrite H0|by rewrite decide_True].
  - assert (~ (is_Some (loaded st !! j) \/ j ∈ new)) as Hno by (rewrite <- opened_live, Hj; by intros [? ?]). rewrite decide_False by tauto. destruct (loaded st !! j) as [l0|]; [|done]. destruct Hno. left. by eexists.
Qed.
Lemma opened_crossings r : r <> R \/ new = [] -> crossings (root' new) (children <$> m) r = (crossings root (kids_of st) r + crosses new tasks r)%nat.
Proof.
  intros Hr. rewrite (crossings_many (root' new) (kids_of st) (kids tasks) r new (g_nodup _ _ _ _ G)) with (K := children <$> m) by (apply opened_kids || (intros x Hx; unfold kids_of; rewrite lookup_fmap; by destruct (g_new _ _ _ _ G x Hx) as [-> _])).
  rewrite (crossings_same root).
  - destruct Hr as [Hr| ->]; [rewrite (crosses_sum _ R tasks r new (g_nodup _ _ _ _ G) (root_new new) (not_eq_sym Hr)); unfold crosses; lia|]. rewrite crosses_nil. cbn. lia.
  - intros i cs Hi. unfold kids_of in Hi. rewrite lookup_fmap in Hi. destruct (loaded st !! i) as [l|] eqn:El; [|done]. injection Hi as <-. split; [apply (root_old _ _ _ _ _ G); by eexists|].
    intros c Hc. apply (root_old _ _ _ _ _ G). destruct (i_children _ _ _ _ Hinv i l c El Hc) as (lc & ? & _). by eexists.
Qed.
Lemma opened_root j l : m !! j = Some l -> local_group_root l = root' new j /\ root' new (root' new j) = root' new j /\ is_Some (m !! root' new j).
Proof.
  intros (ls & _ & _ & _ & _ & _ & [(Hn & l0 & extra & H0 & _ & _ & Hr & _)|(Hn & HRn & _ & _ & Hr & _)])%opened_cases.
  - rewrite (root_old _ _ _ _ j G) by (by eexists). destruct (i_root _ _ _ _ Hinv j l0 H0) as (_ & Hrr & Hs). rewrite (root_old _ _ _ _ (root j) G) by done. split_and!; [done|done|]. apply opened_live. by left.
  - rewrite (root_new new j) by done. rewrite root_new by done. split_and!; [done|done|]. apply opened_live. by right.
Qed.
Lemma opened_count r l : m !! r = Some l -> root' new r = r -> ref_count l = Z.of_nat (refs_to (root' new) r refs + crossings (root' new) (children <$> m) r) /\ ref_count l < 2 ^ 64.
Proof.
  assert (forall q, refs_to (root' new) q refs = refs_to root q refs) as Hrefs.
  { intros q. unfold refs_to. f_equal. apply filter_same. intros x Hx. by rewrite (root_old _ _ _ _ x G) by (by apply (i_refs _ _ _ _ Hinv)). }
  assert (forall q, (crosses new tasks q <= length tasks)%nat) as Hle by (intros q; apply length_filter).
  rewrite Hrefs. intros (ls & _ & _ & _ & _ & _ & [(Hn & l0 & extra & H0 & _ & _ & _ & Hc)|(Hn & HRn & _ & _ & _ & Hc)])%opened_cases Hr.
  - rewrite (root_old _ _ _ _ r G) in Hr by (by eexists). destruct (i_count _ _ _ _ Hinv r l0 H0 Hr) as [Hc0 Hb]. rewrite Hc. unfold bonus. pose proof (Hbound r l0 H0). pose proof (Hle r).
    assert (r <> R \/ new = []) as Hor. { destruct (decide (r = R)) as [->|]; [right|by left]. destruct new as [|x xs]; [done|]. destruct (new_reached _ _ _ _ G HR Hrk x) as [HRn _]; [by left|done]. }
    rewrite opened_crossings by done. destruct (decide (r = R)) as [E|]; [|lia]. destruct Hor as [|Hnil]; [done|]. rewrite Hnil, crosses_nil. lia.
  - rewrite root_new in Hr by done. subst r. rewrite Hc. unfold bonus. rewrite decide_True by done. assert (forall x, is_Some (loaded st !! x) -> root' new x <> R) as Hno.
    { intros x Hx. rewrite (root_old _ _ _ _ x G) by done. by apply (old_not_R _ _ _ _ x G). }
    assert (refs_to root R refs = 0%nat) as ->.
    { rewrite <- Hrefs. apply length_zero_iff_nil, elem_of_nil_inv. intros x [Hx Hin]%list_elem_of_filter. apply (Hno x); [|done]. by apply (i_refs _ _ _ _ Hinv). }
    rewrite crossings_zero; [lia|]. intros i cs Hi Hne c Hcc. rewrite opened_kids in Hi. destruct (decide (i ∈ new)) as [Hin|Hin]; [by rewrite root_new in Hne|]. unfold kids_of in Hi. rewrite lookup_fmap in Hi.
    destruct (loaded st !! i) as [l0|] eqn:El; [|done]. injection Hi as <-. apply Hno. destruct (i_children _ _ _ _ Hinv i l0 c El Hcc) as (lc & ? & _). by eexists.
Qed.
Lemma opened_solist : exists first rest, solist s = first :: rest /\ root' new first = first /\ (forall i, is_Some (m !! i) -> i = first \/ i ∈ rest) /\ (forall x, x ∈ first :: rest -> is_Some (m !! x)) /\
  (forall x, x ∈ refs -> root' new x <> first) /\ (forall i l c, m !! i = Some l -> c ∈ children l -> root' new c <> first).
Proof.
  destruct (i_solist _ _ _ _ Hinv) as (first & rest & Hs & Hf & Hin & Hlv & Hx & Hc). destruct (t_rest _ _ _ T) as (_ & -> & _). destruct (g_rest _ _ _ _ G) as (_ & -> & _). rewrite Hs. exists first, (rest ++ new). split_and!.
  - done.
  - rewrite (root_old _ _ _ _ first G); [done|]. apply Hlv. by left.
  - intros i [Hi|Hi]%opened_live; [destruct (Hin i Hi); [by left|right; apply elem_of_app; by left]|right; apply elem_of_app; by right].
  - intros x. rewrite app_comm_cons, opened_live. intros [?|?]%elem_of_app; auto.
  - intros x Hxr. rewrite (root_old _ _ _ _ x G) by (by apply (i_refs _ _ _ _ Hinv)). auto.
  - intros i l c (ls & _ & _ & _ & _ & _ & [(_ & l0 & _ & H0 & -> & _)|(_ & _ & -> & _)])%opened_cases Hcc.
    + rewrite (root_old _ _ _ _ c G); [eauto|]. destruct (i_children _ _ _ _ Hinv i l0 c H0 Hcc) as (lc & ? & _). by eexists.
    + eapply opened_not_first; [done|]. by eapply kids_are_tasks.
Qed.
Lemma opened_inv : inv (root' new) rank1 (set_loaded m s) refs.
Proof.
  split; cbn [set_loaded loaded ns solist handles].
  - intros i l (ls & _ & _ & _ & _ & ? & _)%opened_cases. done.
  - apply opened_root.
  - intros i l c (ls & Hs & -> & _)%opened_cases Hc. destruct (tuned_children _ _ _ _ _ _ _ _ G T Hs Hc) as (lc & Hlc & Hp). destruct (opened_some c lc Hlc) as (l' & ? & _ & E & _). exists l'. by rewrite E.
  - intros i l p (ls & Hs & _ & -> & _)%opened_cases Hp. destruct (tuned_parents _ _ _ _ _ _ _ _ G T Hs Hp) as (lp & Hlp & Hc). destruct (opened_some p lp Hlp) as (l' & ? & E & _). exists l'. by rewrite E.
  - intros i l Hi Hne. destruct (opened_cases i l Hi) as (ls & Hs & _ & Ep & _ & _ & [(Hn & l0 & extra & H0 & _ & Hp & _)|(Hn & _ & _ & F & _)]).
    + rewrite (root_old _ _ _ _ i G) in * by (by eexists). destruct (i_group _ _ _ _ Hinv i l0 H0 Hne) as (p & Hpp & Hpr). exists p. rewrite Hp. split; [apply elem_of_app; by left|].
      rewrite (root_old _ _ _ _ p G); [done|]. destruct (i_parents _ _ _ _ Hinv i l0 p H0 Hpp) as (lp & ? & _). by eexists.
    + rewrite root_new in * by done. destruct (g_new _ _ _ _ G i Hn) as (_ & l1 & Hl1 & _ & _ & _ & _ & _ & _ & [?|[Hh|Hp]]); [done|congruence|]. destruct (t_new _ _ _ T i l1 Hl1) as (l2 & Hl2 & _ & Ep2 & _).
      rewrite Hs in Hl2. injection Hl2 as <-. rewrite Ep in *. rewrite Ep2 in *. destruct (parents l1) as [|q qs]; [done|]. exists q. split; [by left|]. apply root_new. by apply Forall_cons_1 in F as [? _].
  - intros i c (l & (ls & Hs & Ec & _)%opened_cases & Hc). apply Hrk. apply (tuned_needs _ _ _ _ _ T). exists ls. by rewrite <- Ec.
  - intros x Hx. apply opened_live. left. by apply (i_refs _ _ _ _ Hinv).
  - apply opened_count.
  - apply opened_solist.
  - intros x. destruct (t_rest _ _ _ T) as (-> & _). destruct (g_rest _ _ _ _ G) as (-> & _). rewrite opened_live. intros [Hx|Hx]%elem_of_app; [left; by apply (i_ns _ _ _ _ Hinv)|by right].
  - intros h i. destruct (t_rest _ _ _ T) as (_ & _ & -> & _). rewrite (g_handles _ _ _ _ G). split.
    + intros (l1 & Hl1 & Hh). destruct (t_new _ _ _ T i l1 Hl1) as (l2 & Hl2 & _ & _ & _ & _ & _ & Ah & _). destruct (opened_some i l2 Hl2) as (l' & ? & _ & _ & E). exists l'. split; [done|congruence].
    + intros (l & (ls & Hs & _ & _ & E & _)%opened_cases & Hh). destruct (t_live _ _ _ T i) as [l1 Hl1]; [by eexists|]. destruct (t_new _ _ _ T i l1 Hl1) as (l2 & Hl2 & _ & _ & _ & _ & _ & Ah & _).
      rewrite Hs in Hl2. injection Hl2 as <-. exists l1. split; [done|congruence].
  - destruct (t_rest _ _ _ T) as (_ & _ & -> & _). apply G.
Qed.
End Opened.
End Grown.

(** ** [find_library] and [do_dlopen] *)
Section Open.
Context (st : state) (caller : option nat) (root rank : nat -> nat) (refs : list nat) (Hinv : inv root rank st refs) (Hcaller : forall c, caller = Some c -> is_Some (loaded st !! c)).
Context (PATH_MAX : nat) (open_library : option nat -> bytes -> option file) (relocate : soinfo -> SymbolLookupList -> bool) (symbolic : soinfo -> bool) (sdk : Z) (tracing : bool).
Context (Hpath : forall needed_by name f, open_library needed_by name = Some f -> (length (f_realpath f) < PATH_MAX)%nat).
Context (files : list file) (Hfiles : forall needed_by name f, open_library needed_by name = Some f -> f ∈ files /\ f_id f <> 0).
Context (fuel : nat) (name : bytes) (flags : Z) (hooks : list (bytes * Z)).
Context (Hfuel : (1 + waiting files st < fuel)%nat) (Hhandles : Z.of_nat (size (handles st) + fuel) < 2 ^ 60) (Hcounts : forall j l, loaded st !! j = Some l -> ref_count l + Z.of_nat fuel < 2 ^ 64).
(** What the search finds has no cycle, and is not the linker itself. *)
Definition fit (ok : bool) (tasks : list LoadTask) (st1 : state) : Prop := (exists rank1, ranked st1 rank1) /\ forall t, t ∈ tasks -> head (solist st) <> Some (t_soinfo t).
Context (Hfit : forall ok tasks st1, expand PATH_MAX open_library fuel caller flags [(name, caller)] [] st = Ret (ok, tasks, st1) -> fit ok tasks st1).

Lemma counted_open R st1 s new tasks rank1 m : grown st caller None st1 new tasks -> t_soinfo <$> head tasks = Some R -> ranked st1 rank1 -> tuned R new st1 s ->
  (forall j, j ∈ new -> exists l, loaded s !! j = Some l /\ local_group_root l = R) ->
  (forall j, m !! j = (fun l => set_count (ref_count l + bonus root R new tasks j) (set_linked l)) <$> loaded s !! j) ->
  (forall t, t ∈ tasks -> head (solist st) <> Some (t_soinfo t)) -> (length tasks < fuel)%nat ->
  exists st', increment_ref_count R (set_loaded m s) = Ret st' /\ inv (root' root R new) rank1 st' (R :: refs).
Proof.
  intros G HR Hrk T Hroots Hm Hfirst Hlen. assert (forall j l, loaded st !! j = Some l -> ref_count l + Z.of_nat (length tasks) < 2 ^ 64) as Hb by (intros j l Hj; pose proof (Hcounts j l Hj); lia).
  pose proof (opened_inv st caller root rank refs Hinv R st1 s new tasks rank1 m G HR Hrk T Hroots Hm Hfirst Hb) as Hinv'.
  assert (R ∈ (t_soinfo <$> tasks)) as HRt by (destruct tasks; [done|]; injection HR as <-; by left).
  assert (is_Some (m !! R)) as [l Hl]. { rewrite Hm, fmap_is_Some. apply (tuned_some _ _ _ _ _ T). apply list_elem_of_fmap in HRt as (t & -> & Ht). by apply (g_tasks _ _ _ _ _ _ G). }
  destruct (i_root _ _ _ _ Hinv' R l Hl) as (Hlr & Hrr & [r Hr]). cbn [set_loaded loaded] in Hr. destruct (i_count _ _ _ _ Hinv' _ r Hr Hrr) as [Hc _].
  unfold increment_ref_count. rewrite (get_ret (set_loaded m s) R l Hl). cbn [mbind outcome_bind]. rewrite Hlr, (get_ret (set_loaded m s) _ r Hr). cbn [mbind outcome_bind]. eexists. split; [reflexivity|].
  assert (0 <= ref_count r /\ ref_count r + 1 < 2 ^ 64) as [H0 H1].
  { split; [lia|]. assert (forall q, (crosses root R new tasks q <= length tasks)%nat) as Hle by (intros q; apply length_filter).
    destruct (opened_cases st caller root rank refs Hinv R st1 s new tasks rank1 m G HR Hrk T Hroots Hm _ r Hr) as (ls & _ & _ & _ & _ & _ & [(_ & l0 & _ & Hl0 & _ & _ & _ & ->)|(Hn & HRn & _ & _ & _ & ->)]).
    - pose proof (Hcounts _ l0 Hl0). unfold bonus. pose proof (Hle (root' root R new R)). destruct (decide _); lia.
    - rewrite (root_new root R new R) by done. unfold bonus. by rewrite decide_True. }
  rewrite wrapu_small by lia. eapply inv_counted; [done|exact Hinv'| |done|done| |].
  - rewrite refs_to_cons, decide_True by done. lia.
  - intros x [->|Hx]%elem_of_cons; [right|by left]. split; [by eexists|]. intros first rest Hs. cbn [set_loaded solist] in Hs.
    destruct (i_solist _ _ _ _ Hinv) as (first' & rest' & Hs' & _). destruct (t_rest _ _ _ _ T) as (_ & Tso & _). destruct (g_rest _ _ _ _ _ _ G) as (_ & Gso & _). rewrite Tso, Gso, Hs' in Hs. injection Hs as <- _.
    by eapply opened_not_first.
  - intros q Hq. rewrite refs_to_cons. by rewrite decide_False.
Qed.
Lemma library_opened : find_library PATH_MAX open_library relocate symbolic sdk tracing fuel caller (Some name) flags hooks st = Ret (None, st) \/
  exists si root1 rank1 st', find_library PATH_MAX open_library relocate symbolic sdk tracing fuel caller (Some name) flags hooks st = Ret (Some si, st') /\ inv root1 rank1 st' (si :: refs).
Proof.
  destruct (expanded st caller root rank refs Hinv Hcaller PATH_MAX open_library Hpath files Hfiles fuel flags [(name, caller)] [] st []) as (ok & tasks & st1 & new & E & G & L & _ & H1 & H2).
  { by eapply grown_nil. }
  { left. split_and!; [done|done|by eexists]. }
  { done. }
  { cbn [length]. lia. }
  destruct (Hfit _ _ _ E) as [[rank1 Hrk] Hfirst]. unfold find_library, find_libraries. rewrite E. cbn [mbind outcome_bind]. destruct tasks as [|t ts'] eqn:Et.
  { destruct (H1 eq_refl) as [-> ->]. by left. }
  rewrite <- Et in *. assert (t_soinfo <$> head tasks = Some (t_soinfo t)) as HR by (by rewrite Et). set (R := t_soinfo t) in *. rewrite HR. cbn [length] in L.
  assert (forall s, new <> [] -> tuned R new st1 s -> (st ← soinfo_unload (S (size (loaded s))) R s; Ret (@None nat, st)) = Ret (None, st)) as Hfail.
  { intros s Hne T. destruct new as [|x xs] eqn:Enew; [done|]. rewrite <- Enew in *. destruct (new_reached st caller R st1 new tasks rank1 G HR Hrk x) as [HRn _]; [rewrite Enew; by left|].
    by rewrite (failure_restores st caller root rank refs Hinv Hcaller R st1 new tasks rank1 s _ G HR Hrk T HRn). }
  destruct ok; cbn [negb].
  2: { left. cbn [mbind outcome_bind]. apply Hfail; [destruct H2; [by rewrite Et|done|done]|apply tuned_refl]. }
  destruct (loads_tuned st caller root rank refs Hinv R hooks st1 new tasks G) as (ts & -> & Hload & Hpre & Hnil). cbn [mbind outcome_bind].
  destruct (Hload st1 (tuned_refl R new st1)) as (b1 & s1 & E1 & T1). destruct (Hpre s1 T1) as (b2 & s2 & E2 & T2). rewrite E1. cbn [mbind outcome_bind fst snd]. destruct b1; cbn [negb].
  2: { left. apply Hfail; [|done]. intros Hn. rewrite (Hnil Hn) in E1. done. }
  rewrite E2. cbn [mbind outcome_bind fst snd]. destruct b2; cbn [negb].
  2: { left. apply Hfail; [|done]. intros Hn. rewrite (Hnil Hn) in E2. done. }
  destruct (group_linked st caller root rank refs Hinv R relocate symbolic sdk tracing st1 new tasks rank1 s2 G HR Hrk T2) as (b3 & s3 & -> & T3 & Hb3 & Hroots). cbn [mbind outcome_bind fst snd]. destruct b3; cbn [negb].
  2: { left. apply Hfail; [|done]. intros Hn. by specialize (Hb3 Hn). }
  destruct (settled st caller root rank refs Hinv Hcaller R st1 new tasks rank1 s3 G HR Hrk T3 (Hroots eq_refl)) as (m & Em & Hm); [intros j l Hj; pose proof (Hcounts j l Hj); lia|].
  destruct (counted_open R st1 s3 new tasks rank1 m G HR Hrk T3 (Hroots eq_refl) Hm Hfirst) as (st' & Ei & Hinv'); [lia|].
  right. exists R, (root' root R new), rank1, st'. split; [|done]. destruct (over mark_linked tasks s3) as [s4| | |]; try done. cbn [mbind outcome_bind] in *. rewrite Em. cbn [mbind outcome_bind]. by rewrite Ei.
Qed.
Lemma dlopen_opened : do_dlopen PATH_MAX open_library relocate symbolic sdk tracing fuel caller (Some name) flags hooks st = Ret (None, st) \/
  exists h si root1 rank1 st', do_dlopen PATH_MAX open_library relocate symbolic sdk tracing fuel caller (Some name) flags hooks st = Ret (Some h, st') /\ inv root1 rank1 st' (si :: refs) /\
    handles st' !! h = Some si /\ constructed st' si /\ exists st2, do_dlclose h st' = Ret (0, st2) /\ inv root1 rank1 st2 refs.
Proof.
  unfold do_dlopen. destruct (decide (Z.land flags (Z.lnot valid_flags) <> 0)); [by left|]. destruct library_opened as [->|(si & root1 & rank1 & st1 & -> & Hinv1)]; [by left|]. cbn [mbind outcome_bind]. right.
  destruct (i_refs _ _ _ _ Hinv1 si) as [l Hl]; [by left|]. rewrite (get_ret _ _ _ Hl). cbn [mbind outcome_bind].
  assert (live st1) as Hlive by (intros i li Hi c Hc; destruct (i_children _ _ _ _ Hinv1 i li c Hi Hc) as (lc & ? & _); by eexists).
  destruct (constructors_run si st1 Hlive) as (st2 & order & -> & Hran & Hcalled & _); [by eexists|]. cbn [mbind outcome_bind]. pose proof (inv_ran _ _ _ _ _ _ Hran Hinv1) as Hinv2.
  assert (handles st2 !! handle l = Some si) as Hh. { destruct (ran_rest _ _ _ Hran) as (_ & _ & ->). apply (i_handles _ _ _ _ Hinv1). by exists l. }
  destruct (close_released _ _ _ _ _ _ Hinv2 Hh) as (st3 & E3 & Hinv3 & _). exists (handle l), si, root1, rank1, st2. split_and!; try done. by exists st3.
Qed.
End Open.
End LinkerDlopen.
