(* ===== verification/LinkerSession.v ===== *)
(** * A session with the linker (mcpelauncher-linker)

    [linker::init], [linker::load_library], [dlopen] and [dlclose] in any order: as long as only open
    handles are closed, the dependencies have no cycle and the linker itself is not opened, every
    library that is held stays loaded, every operation ends, and no freed library is touched. *)

From S2P Require Import Prelude CxxString LinkerUtils LinkerSymbols LinkerGroups LinkerWalk LinkerUnload LinkerDlopen.
From Stdlib Require Import ZArith Ascii Lia.
From stdpp Require Import base list strings numbers gmap.

Open Scope Z_scope.

Module LinkerSession.
Import LinkerSymbols LinkerGroups LinkerWalk LinkerUnload LinkerDlopen.

(** ** The invariant does not depend on the order of the references, nor on numbers that are not used *)
Lemma inv_perm root rank st refs refs' : refs ≡ₚ refs' -> inv root rank st refs -> inv root rank st refs'.
Proof.
  intros Hp [Hlk Hrt Hch Hpa Hgr Hrk Hrf Hct Hso Hns Hha Hodd]. split; try done.
  - intros x. rewrite <- Hp. auto.
  - intros r l Hr Hrr. assert (refs_to root r refs' = refs_to root r refs) as -> by (unfold refs_to; by rewrite Hp). auto.
  - destruct Hso as (first & rest & ? & ? & ? & ? & Hx & ?). exists first, rest. split_and!; try done. intros x. rewrite <- Hp. auto.
Qed.
Lemma inv_rename root rank st refs i : loaded st !! i = None -> inv root rank st refs -> inv (fun x => if decide (x = i) then i else root x) rank st refs.
Proof.
  intros Hi Hinv. set (root2 := fun x => if decide (x = i) then i else root x).
  assert (forall x, is_Some (loaded st !! x) -> root2 x = root x) as Hsame by (intros x [l Hl]; unfold root2; rewrite decide_False by congruence; done).
  destruct Hinv as [Hlk Hrt Hch Hpa Hgr Hrk Hrf Hct Hso Hns Hha Hodd]. split; try done.
  - intros j l Hj. rewrite (Hsame j) by (by eexists). destruct (Hrt j l Hj) as (? & ? & ?). by rewrite (Hsame (root j)).
  - intros j l Hj. rewrite (Hsame j) by (by eexists). intros Hne. destruct (Hgr j l Hj Hne) as (p & Hp & Hr). exists p. split; [done|]. rewrite Hsame; [done|]. destruct (Hpa j l p Hj Hp) as (lp & ? & _). by eexists.
  - intros r l Hr Hrr. rewrite (Hsame r) in Hrr by (by eexists). destruct (Hct r l Hr Hrr) as [-> Hb]. split; [|lia]. f_equal. f_equal.
    + unfold refs_to. f_equal. apply filter_same. intros x Hx. by rewrite Hsame by auto.
    + symmetry. apply crossings_same. intros j cs Hj. unfold kids_of in Hj. rewrite lookup_fmap in Hj. destruct (loaded st !! j) as [lj|] eqn:El; [|done]. injection Hj as <-. split; [apply Hsame; by eexists|].
      intros c Hc. apply Hsame. destruct (Hch j lj c El Hc) as (lc & ? & _). by eexists.
  - destruct Hso as (first & rest & Hs & Hf & Hin & Hlv & Hx & Hc). exists first, rest. split_and!; try done.
    + rewrite Hsame; [done|]. apply Hlv. by left.
    + intros x Hxr. rewrite Hsame; auto.
    + intros j l c Hj Hcc. rewrite Hsame; [eauto|]. destruct (Hch j l c Hj Hcc) as (lc & ? & _). by eexists.
Qed.
(** ** The start *)
Lemma inv_single l h : children l = [] -> parents l = [] -> linked l = true -> local_group_root l = 0%nat -> ref_count l = 0 -> handle l = h -> Z.land h 1 <> 0 ->
  inv (fun x => x) (fun _ => 0%nat) (mkState {[0%nat := l]} [0%nat] [0%nat] {[h := 0%nat]} []) [].
Proof.
  intros Hc Hp Hlk Hr Hn Hh Hodd. assert (forall i l', ({[0%nat := l]} : gmap nat library) !! i = Some l' -> i = 0%nat /\ l' = l) as Hone by (intros i l' [-> ->]%lookup_singleton_Some; done).
  assert (is_Some (({[0%nat := l]} : gmap nat library) !! 0%nat)) as H0 by (rewrite lookup_singleton_eq; by eexists).
  split; cbn [loaded ns solist handles].
  - by intros i l' [-> ->]%Hone.
  - intros i l' [-> ->]%Hone. done.
  - intros i l' c [-> ->]%Hone H. rewrite Hc in H. by apply not_elem_of_nil in H.
  - intros i l' c [-> ->]%Hone H. rewrite Hp in H. by apply not_elem_of_nil in H.
  - done.
  - intros i c (l' & [-> ->]%Hone & H). rewrite Hc in H. by apply not_elem_of_nil in H.
  - by intros x H%not_elem_of_nil.
  - intros r l' [-> ->]%Hone _. rewrite crossings_zero; [rewrite Hn; done|]. intros i cs Hi _ c H. unfold kids_of in Hi. cbn [loaded] in Hi. rewrite lookup_fmap in Hi.
    destruct (_ !! i) as [l'|] eqn:E; [|done]. apply Hone in E as [-> ->]. injection Hi as <-. rewrite Hc in H. by apply not_elem_of_nil in H.
  - exists 0%nat, []. split_and!; [done|done| | | |].
    + intros i [l' [-> _]%Hone]. by left.
    + by intros x ->%list_elem_of_singleton.
    + by intros x H%not_elem_of_nil.
    + intros i l' c [-> ->]%Hone H. rewrite Hc in H. by apply not_elem_of_nil in H.
  - by intros x ->%list_elem_of_singleton.
  - intros h' i. split; [intros [<- <-]%lookup_singleton_Some; exists l; split; [apply lookup_singleton_eq|done]|]. intros (l' & [-> ->]%Hone & <-). rewrite Hh. apply lookup_singleton_eq.
  - by intros h' i [<- _]%lookup_singleton_Some.
Qed.
Lemma init_inv PATH_MAX dl_symbols : (11 < PATH_MAX)%nat -> exists h st, init PATH_MAX dl_symbols = Ret (h, st) /\ inv (fun x => x) (fun _ => 0%nat) st [].
Proof.
  intros Hmax. unfold init, solist_init.
  assert (load_library PATH_MAX 0 (lit "linker.so") [] (mkState ∅ [] [] ∅ []) = Ret (3, mkState {[0%nat := set_handle 3 (launcher_library 0 (lit "linker.so") [])]} [0%nat] [] {[3 := 0%nat]} [])) as ->.
  { unfold load_library, soinfo_alloc. rewrite decide_False by (vm_compute length; lia). vm_compute. done. }
  cbn [mbind outcome_bind snd loaded ns handles calls].
  set (st0 := mkState {[0%nat := set_handle 3 (launcher_library 0 (lit "linker.so") [])]} [0%nat] [0%nat] {[3 := 0%nat]} []).
  assert (inv (fun x => x) (fun _ => 0%nat) st0 []) as Hinv0 by (by apply inv_single).
  destruct (launcher_library_added (fun x => x) (fun _ => 0%nat) PATH_MAX st0 [] 1 (lit "linker_main") []) as (h1 & st1 & -> & Hinv1 & Hha & _ & Hno & Hsame & _); [done|done|done|vm_compute length; lia|done|].
  cbn [mbind outcome_bind snd].
  destruct (launcher_library_added (fun x => x) (fun _ => 0%nat) PATH_MAX st1 [] 2 (lit "libdl.so") dl_symbols) as (h2 & st2 & -> & Hinv2 & _); [done|by rewrite Hsame|done|vm_compute length; lia| |by exists h2, st2].
  rewrite Hha. rewrite map_size_insert_None by done. done.
Qed.

(** ** Any sequence of operations *)
(** What a [dlopen] of [name] relies on: paths and numbers within their bounds, finitely many files with an identity,
    no cycle among the libraries it finds, and that it does not find the linker itself. *)
Record request (PATH_MAX : nat) (open_library : option nat -> bytes -> option file) (fuel : nat) (caller : option nat) (name : bytes) (flags : Z) (st : state) : Prop := {
  r_caller : forall c, caller = Some c -> is_Some (loaded st !! c);
  r_path : forall needed_by name f, open_library needed_by name = Some f -> (length (f_realpath f) < PATH_MAX)%nat;
  r_files : exists files, (forall needed_by name f, open_library needed_by name = Some f -> f ∈ files /\ f_id f <> 0) /\ (1 + waiting files st < fuel)%nat;
  r_handles : Z.of_nat (size (handles st) + fuel) < 2 ^ 60;
  r_counts : forall j l, loaded st !! j = Some l -> ref_count l + Z.of_nat fuel < 2 ^ 64;
  r_fit : forall ok tasks st1, expand PATH_MAX open_library fuel caller flags [(name, caller)] [] st = Ret (ok, tasks, st1) -> fit st ok tasks st1 }.
Section Session.
Context (PATH_MAX : nat) (Hmax : (11 < PATH_MAX)%nat).
(** The states a process can be in, with the libraries that are held: one entry for each [dlopen] that is not closed.
    The files, the outcome of relocation and the caller may be others at each call. *)
Inductive session : state -> list nat -> Prop :=
  | session_init dl_symbols h st : init PATH_MAX dl_symbols = Ret (h, st) -> session st []
  | session_load st refs i name syms h st' : session st refs -> loaded st !! i = None -> (length (basename_of name) < PATH_MAX)%nat -> Z.of_nat (size (handles st)) < 2 ^ 60 ->
      load_library PATH_MAX i name syms st = Ret (h, st') -> session st' refs
  | session_open st refs open_library relocate symbolic sdk tracing fuel caller name flags hooks h si st' : session st refs -> request PATH_MAX open_library fuel caller name flags st ->
      do_dlopen PATH_MAX open_library relocate symbolic sdk tracing fuel caller (Some name) flags hooks st = Ret (Some h, st') -> handles st' !! h = Some si -> session st' (si :: refs)
  | session_failed st refs open_library relocate symbolic sdk tracing fuel caller name flags hooks st' : session st refs -> request PATH_MAX open_library fuel caller name flags st ->
      do_dlopen PATH_MAX open_library relocate symbolic sdk tracing fuel caller (Some name) flags hooks st = Ret (None, st') -> session st' refs
  | session_close st refs refs' h si r st' : session st refs -> refs ≡ₚ si :: refs' -> handles st !! h = Some si -> do_dlclose h st = Ret (r, st') -> session st' refs'.
Lemma request_safe root rank st refs open_library relocate symbolic sdk tracing fuel caller name flags hooks : inv root rank st refs -> request PATH_MAX open_library fuel caller name flags st ->
  do_dlopen PATH_MAX open_library relocate symbolic sdk tracing fuel caller (Some name) flags hooks st = Ret (None, st) \/
  exists h si root1 rank1 st', do_dlopen PATH_MAX open_library relocate symbolic sdk tracing fuel caller (Some name) flags hooks st = Ret (Some h, st') /\ inv root1 rank1 st' (si :: refs) /\
    handles st' !! h = Some si /\ constructed st' si /\ exists st2, do_dlclose h st' = Ret (0, st2) /\ inv root1 rank1 st2 refs.
Proof.
  intros Hinv [Hc Hp (files & Hf & Hfuel) Hh Hn Hfit]. exact (dlopen_opened st caller root rank refs Hinv Hc PATH_MAX open_library relocate symbolic sdk tracing Hp files Hf fuel name flags hooks Hfuel Hh Hn Hfit).
Qed.
(** C9. When the libraries that it reaches have no cyclic dependency and the linker itself is not among them
    ([request]), [dlopen] of a name ends, and either fails, in whichever of its phases, and leaves the libraries
    exactly as they were, or gives a handle of a library whose constructors have run and holds one more
    reference, which [dlclose] of the handle gives back; no library that was freed is touched. On a cycle a
    [dlopen] that fails leaves libraries behind ([cycle_failure_leaks]). *)
Theorem dlopen_safe (root rank : nat -> nat) (st : state) (refs : list nat) (open_library : option nat -> bytes -> option file) (relocate : soinfo -> SymbolLookupList -> bool) (symbolic : soinfo -> bool)
  (sdk : Z) (tracing : bool) (fuel : nat) (caller : option nat) (name : bytes) (flags : Z) (hooks : list (bytes * Z)) : inv root rank st refs -> request PATH_MAX open_library fuel caller name flags st ->
  do_dlopen PATH_MAX open_library relocate symbolic sdk tracing fuel caller (Some name) flags hooks st = Ret (None, st) \/
  exists h si root1 rank1 st', do_dlopen PATH_MAX open_library relocate symbolic sdk tracing fuel caller (Some name) flags hooks st = Ret (Some h, st') /\ inv root1 rank1 st' (si :: refs) /\
    handles st' !! h = Some si /\ constructed st' si /\ exists st2, do_dlclose h st' = Ret (0, st2) /\ inv root1 rank1 st2 refs.
Proof. apply request_safe. Qed.
Lemma session_inv st refs : session st refs -> exists root rank, inv root rank st refs.
Proof.
  induction 1 as [dl h st E|st refs i name syms h st' _ (root & rank & Hinv) Hi Hlen Hsz E|st refs ol re sy sdk tr fuel caller name flags hooks h si st' _ (root & rank & Hinv) Hreq E Hh|
    st refs ol re sy sdk tr fuel caller name flags hooks st' _ (root & rank & Hinv) Hreq E|st refs refs' h si r st' _ (root & rank & Hinv) Hp Hh E].
  - destruct (init_inv PATH_MAX dl Hmax) as (h' & st' & E' & Hinv). rewrite E in E'. injection E' as <- <-. eauto.
  - pose proof (inv_rename _ _ _ _ i Hi Hinv) as Hinv'. destruct (launcher_library_added _ _ PATH_MAX st refs i name syms Hinv' Hi) as (h' & st2 & E' & Hinv2 & _); [by rewrite decide_True|done|done|].
    rewrite E in E'. injection E' as <- <-. eauto.
  - destruct (request_safe _ _ _ _ ol re sy sdk tr _ _ _ _ hooks Hinv Hreq) as [E'|(h' & si' & root1 & rank1 & st2 & E' & Hinv2 & Hh2 & _)]; rewrite E in E'; [done|]. injection E' as <- <-.
    rewrite Hh in Hh2. injection Hh2 as <-. eauto.
  - destruct (request_safe _ _ _ _ ol re sy sdk tr _ _ _ _ hooks Hinv Hreq) as [E'|(h' & si' & root1 & rank1 & st2 & E' & _)]; rewrite E in E'; [|done]. injection E' as <-. eauto.
  - destruct (close_released root rank st refs' h si) as (st2 & E' & Hinv2 & _); [by eapply inv_perm|done|]. rewrite E in E'. injection E' as -> ->. eauto.
Qed.
(** C2. In a process that loads libraries of the launcher, opens libraries by name and closes handles it holds, in
    any order, where no [dlopen] meets a cyclic dependency or the linker itself ([session], [request]): every
    library that is still held is loaded, with its handle and with every library it depends on, directly or
    not; closing it ends with success, and the next such [dlopen] ends, with a library or with nothing changed.
    The three conditions are needed: [cycle_use_after_free], [linker_closed_aborts], [dlopen_null]. *)
Theorem session_safe (st : state) (refs : list nat) : session st refs ->
  (forall si, si ∈ refs -> (forall j, reaches st si j -> exists l, loaded st !! j = Some l /\ linked l = true) /\ exists h st', handles st !! h = Some si /\ do_dlclose h st = Ret (0, st')) /\
  (forall open_library relocate symbolic sdk tracing fuel caller name flags hooks, request PATH_MAX open_library fuel caller name flags st ->
    exists r st', do_dlopen PATH_MAX open_library relocate symbolic sdk tracing fuel caller (Some name) flags hooks st = Ret (r, st') /\ (r = None -> st' = st)).
Proof.
  intros (root & rank & Hinv)%session_inv. split.
  - intros si Hsi. destruct (i_refs _ _ _ _ Hinv si Hsi) as [l Hl]. split.
    + induction 1 as [i|i j k _ IH (lj & Hj & Hc)]; [exists l; split; [done|by apply (i_linked _ _ _ _ Hinv i l)]|]. destruct (i_children _ _ _ _ Hinv j lj k Hj Hc) as (lk & Hk & _). exists lk. split; [done|by apply (i_linked _ _ _ _ Hinv k lk)].
    + assert (handles st !! handle l = Some si) as Hh by (apply (i_handles _ _ _ _ Hinv); by exists l). apply elem_of_Permutation in Hsi as [refs' Hp].
      destruct (close_released root rank st refs' (handle l) si) as (st' & E & _); [by eapply inv_perm|done|]. by exists (handle l), st'.
  - intros ol re sy sdk tr fuel caller name flags hooks Hreq. destruct (request_safe _ _ _ _ ol re sy sdk tr _ _ _ _ hooks Hinv Hreq) as [E|(h & si & root1 & rank1 & st' & E & _)].
    + by exists None, st.
    + by exists (Some h), st'.
Qed.
End Session.

(** ** A session, and what goes wrong outside *)
Section Examples.
Definition some_file (id : Z) (name : string) (needed : list string) : file :=
  mkFile (lit ("/data/" ++ name)) id (Some (lit name)) (lit <$> needed) (LinkerSymbols.load_library []) 0 true true true 0 [] 0 [].
Definition directory (fs : list file) (needed_by : option nat) (name : bytes) : option file := list_find (fun f => f_soname f = Some name) fs ≫= (fun p => Some p.2).
Definition game : list file := [some_file 1 "libminecraftpe.so" ["libfmod.so"; "libdl.so"]; some_file 2 "libfmod.so" ["libdl.so"]].
Definition knot : list file := [some_file 1 "liba.so" ["libb.so"]; some_file 2 "libb.so" ["libc.so"]; some_file 3 "libc.so" ["libb.so"]].
Definition torn : list file := [some_file 1 "liba.so" ["libb.so"]; some_file 2 "libb.so" ["libc.so"]; some_file 3 "libc.so" ["libb.so"; "libmissing.so"]].
Definition started : state := match init 4096 [] with Ret (_, st) => st | _ => mkState ∅ [] [] ∅ [] end.
Definition dlopen (fs : list file) (name : string) (st : state) : outcome exn (option Z * state) := do_dlopen 4096 (directory fs) (fun _ _ => true) (fun _ => false) 21 false 20 None (Some (lit name)) 1 [] st.
Definition reopen (fs : list file) (name again : string) : outcome exn (option Z * state) :=
  r ← dlopen fs name started;
  match r with (Some h, st) => r ← do_dlclose h st; dlopen fs again (snd r) | (None, _) => Undef end.
Definition opened : Z * nat * state := match dlopen game "libminecraftpe.so" started with Ret (Some h, st) => (h, default 0%nat (handles st !! h), st) | _ => (0, 0%nat, started) end.

Lemma directory_in fs nb name f : directory fs nb name = Some f -> f ∈ fs.
Proof. unfold directory. destruct (list_find _ fs) as [[n g]|] eqn:E; [|done]. cbn. intros [= <-]. apply list_find_Some in E as (E & _). by eapply list_elem_of_lookup_2. Qed.
Lemma ranked_check rank st : map_Forall (fun i l => Forall (fun c => (rank c < rank i)%nat) (children l)) (loaded st) -> ranked st rank.
Proof. intros H i c (l & Hl & Hc). specialize (H i l Hl). cbn in H. rewrite Forall_forall in H. auto. Qed.
Definition fits (rank : nat -> nat) (st : state) (r : outcome exn (bool * list LoadTask * state)) : bool :=
  match r with
  | Ret (_, tasks, st1) => bool_decide (map_Forall (fun i l => Forall (fun c => (rank c < rank i)%nat) (children l)) (loaded st1)) && bool_decide (Forall (fun t => head (solist st) <> Some (t_soinfo t)) tasks)
  | _ => true
  end.
Lemma fit_check rank st r : fits rank st r = true -> forall ok tasks st1, r = Ret (ok, tasks, st1) -> fit st ok tasks st1.
Proof.
  intros H ok tasks st1 ->. apply andb_true_iff in H as [H1%bool_decide_eq_true H2%bool_decide_eq_true]. split; [exists rank; by apply ranked_check|]. by apply Forall_forall.
Qed.
Lemma game_files nb n f : directory game nb n = Some f -> f ∈ game /\ f_id f <> 0.
Proof. intros Hf%directory_in. split; [done|]. apply elem_of_cons in Hf as [->|[->|[]%not_elem_of_nil]%elem_of_cons]; done. Qed.
Lemma game_fuel : (1 + waiting game started < 20)%nat.
Proof. vm_compute. lia. Qed.
Lemma game_request : request 4096 (directory game) 20 None (lit "libminecraftpe.so") 1 started.
Proof.
  split.
  - done.
  - intros nb n f [->|[->|[]%not_elem_of_nil]%elem_of_cons]%directory_in%elem_of_cons; vm_compute f_realpath; cbn; lia.
  - exists game. split; [exact game_files|exact game_fuel].
  - done.
  - intros j l Hl. assert (map_Forall (fun _ l => ref_count l = 0) (loaded started)) as H by (apply (bool_decide_unpack _); vm_compute; done). rewrite (H j l Hl). lia.
  - apply (fit_check (fun i => match i with 3 => 2 | 4 => 1 | _ => 0 end%nat)). vm_compute. done.
Qed.
Lemma game_opened : session 4096 (snd opened) [snd (fst opened)].
Proof.
  assert (init 4096 [] = Ret (7, started)) as E by (vm_compute; done). apply (session_open 4096 started [] (directory game) (fun _ _ => true) (fun _ => false) 21 false 20 None (lit "libminecraftpe.so") 1 [] (fst (fst opened)));
    [exact (session_init 4096 [] _ _ E)|exact game_request|vm_compute; done|vm_compute; done].
Qed.
Lemma session_safe_witness : exists h st', handles (snd opened) !! h = Some (snd (fst opened)) /\ do_dlclose h (snd opened) = Ret (0, st').
Proof. destruct (session_safe 4096 ltac:(lia) (snd opened) [snd (fst opened)] game_opened) as [H _]. apply (H (snd (fst opened))). by left. Defined.
Lemma start_inv : inv (fun x => x) (fun _ => 0%nat) started [].
Proof. unfold started. destruct (init_inv 4096 [] ltac:(lia)) as (h & st & -> & Hinv). done. Qed.
Lemma dlopen_safe_witness : exists r st', dlopen game "libminecraftpe.so" started = Ret (r, st') /\ (r = None -> st' = started).
Proof.
  unfold dlopen. pose proof (dlopen_safe 4096 (fun x => x) (fun _ => 0%nat) started [] (directory game) (fun _ _ => true) (fun _ => false) 21 false 20 None (lit "libminecraftpe.so") 1 [] start_inv game_request) as H.
  destruct H as [E|(h & si & root1 & rank1 & st' & E & _)]; [exists None, started; split; [exact E|reflexivity]|exists (Some h), st'; split; [exact E|discriminate]].
Defined.
Lemma game_live : live (snd opened).
Proof. destruct (session_inv 4096 ltac:(lia) _ _ game_opened) as (root & rank & Hinv). intros i l Hi c Hc. destruct (i_children _ _ _ _ Hinv i l c Hi Hc) as (lc & ? & _). by eexists. Qed.
Lemma unload_safe_witness : exists st', do_dlclose (fst (fst opened)) (snd opened) = Ret (0, st').
Proof.
  destruct (session_inv 4096 ltac:(lia) _ _ game_opened) as (root & rank & Hinv). destruct (unload_safe root rank (snd opened) [] (fst (fst opened)) (snd (fst opened)) Hinv) as (st' & E & _); [vm_compute; done|by exists st'].
Defined.
Lemma walk_sees_reachable_witness : exists all, breadth_first (snd opened) 3 all /\ NoDup all /\ head all = Some 3%nat.
Proof. destruct (walk_sees_reachable (snd opened) 3 game_live) as (all & _ & ? & ? & ? & _); [vm_compute; by eexists|exists all; repeat split; assumption]. Defined.
Lemma constructors_ordered_witness : exists st', call_constructors (S (size (loaded (snd opened)))) 3 (snd opened) = Ret st' /\ constructed st' 3.
Proof. destruct (constructors_ordered (snd opened) 3 game_live) as (st' & order & E & _ & Hc & _); [vm_compute; by eexists|exists st'; split; assumption]. Defined.
Definition answers_none (st : state) (name : bytes) : bool := forallb (fun p => match find_symbol_by_name (tables p.2) name None with Ret None => true | _ => false end) (map_to_list (loaded st)).
Lemma answers_none_spec st name : answers_none st name = true -> forall i l, loaded st !! i = Some l -> find_symbol_by_name (tables l) name None = Ret None.
Proof.
  intros H i l Hl%elem_of_map_to_list. unfold answers_none in H. rewrite forallb_forall in H. specialize (H (i, l) (proj1 (list_elem_of_In _ _) Hl)). cbn in H.
  by destruct (find_symbol_by_name (tables l) name None) as [[|]| | |].
Qed.
Lemma main_missing : answers_none (snd opened) (lit "main") = true.
Proof. vm_compute. reflexivity. Qed.
Lemma session_rooted st refs : session 4096 st refs -> rooted st /\ (forall i, i ∈ ns st -> is_Some (loaded st !! i)) /\ forall h i, handles st !! h = Some i -> is_Some (loaded st !! i).
Proof.
  intros (root & rank & Hinv)%session_inv; [|lia]. split_and!; [|apply Hinv|].
  - intros i l Hl. destruct (i_root _ _ _ _ Hinv i l Hl) as (-> & _ & ?). done.
  - intros h i (l & Hl & _)%(i_handles _ _ _ _ Hinv). by eexists.
Qed.
Lemma opened_order : search_order (snd opened) (fst (fst opened)) None [3; 4; 2]%nat.
Proof. apply (order_handle _ _ _ 3%nat); [vm_compute; discriminate|vm_compute; discriminate|vm_compute; reflexivity|apply walked_breadth_first; vm_compute; reflexivity]. Qed.
Lemma dlsym_searches_witness : do_dlsym (snd opened) (fun a => a) (fst (fst opened)) (lit "main") None None = Ret (resolved (snd opened) (fun a => a) (first_answer (fun _ => None) [3; 4; 2]%nat)).
Proof.
  exact (dlsym_searches (snd opened) (lit "main") None (fun _ => None) (fun a => a) (fst (fst opened)) None [3; 4; 2]%nat (answers_none_spec _ _ main_missing) game_live
    (proj1 (session_rooted _ _ game_opened)) (proj1 (proj2 (session_rooted _ _ game_opened))) (proj2 (proj2 (session_rooted _ _ game_opened)) _) opened_order).
Defined.

(** A library of the launcher has no reference of its own: the first [dlopen] and [dlclose] unloads it, and the game
    that depends on it can no longer be loaded. *)
Theorem launcher_library_lost : exists st, (r ← dlopen [] "libdl.so" started; do_dlclose (default 0 (fst r)) (snd r)) = Ret (0, st) /\ loaded st !! 2%nat = None /\
  dlopen game "libminecraftpe.so" st = Ret (None, st) /\ exists h st', dlopen game "libminecraftpe.so" started = Ret (Some h, st').
Proof. eexists. split; [vm_compute; reflexivity|]. split; [done|]. split; [vm_compute; done|]. eexists _, _. vm_compute. reflexivity. Qed.
(** A cycle below the library that is opened survives its [dlclose]; the libraries of the cycle keep the freed library
    as the root of their group, and the next [dlopen] of one of them uses it after it is freed. *)
Theorem cycle_use_after_free : reopen knot "liba.so" "libb.so" = Undef.
Proof. vm_compute. done. Qed.
(** A [dlopen] that fails leaves a cycle that it had loaded by then: the two libraries of the cycle hold each other,
    and stay loaded although the name was not opened. *)
Theorem cycle_failure_leaks : exists st, dlopen torn "liba.so" started = Ret (None, st) /\ size (loaded started) = 3%nat /\ size (loaded st) = 5%nat /\ loaded st !! 3%nat = None /\
  kids_of st !! 4%nat = Some [5%nat] /\ kids_of st !! 5%nat = Some [4%nat].
Proof. eexists. split; [vm_compute; reflexivity|]. vm_compute. split_and!; reflexivity. Qed.
(** Closing the linker itself aborts. *)
Theorem linker_closed_aborts : (r ← dlopen [] "linker.so" started; do_dlclose (default 0 (fst r)) (snd r)) = Throw (runtime_error "CHECK failed: prev != nullptr").
Proof. vm_compute. done. Qed.
(** [dlopen] of the main program dereferences a pointer that is never set. *)
Theorem dlopen_null PATH_MAX open_library relocate symbolic sdk tracing fuel caller hooks st : do_dlopen PATH_MAX open_library relocate symbolic sdk tracing fuel caller None 1 hooks st = Undef.
Proof. done. Qed.
End Examples.
End LinkerSession.
