(* ===== verification/LinkerRelocate.v ===== *)
(** * Relocation (mcpelauncher-linker/bionic/linker)

    [soinfo::relocate] of linker_relocate.cpp on x86-64: plain relocations, the packed ones of
    linker_reloc_iterators.h, the bitmaps of [relocate_relr], and the versions of symbols of
    [VersionTracker].  The image is the memory of LinkerImage; a write outside of it is
    undefined.  The fast paths, the cache of the last symbol and the encodings are proved to give
    what a direct application of every relocation gives.  The tables of relocations, symbols and strings are read
    before: relocations that write into these tables, which no linker makes, are not modelled. *)

From S2P Require Import Prelude CxxString LinkerUtils LinkerImage LinkerSymbols LinkerGroups.
From Stdlib Require Import ZArith Ascii Lia.
From stdpp Require Import base list strings numbers gmap.

Open Scope Z_scope.

Module LinkerRelocate.
Import LinkerSymbols.

(** ** The image *)
Notation memory := LinkerImage.memory.
Notation load := LinkerImage.load.
Notation store := LinkerImage.store.

(** ** [VersionTracker] *)
Record Vernaux := mkVernaux { vna_hash : Z; vna_name : Z; vna_other : Z }.
Record Verneed := mkVerneed { vn_version : Z; vn_file : Z; vn_aux : list Vernaux }.
Definition c_string (s : bytes) : outcome exn bytes := if decide (NUL ∈ s) then Ret (cut s) else Undef.
Definition get_version_info (infos : list (option version_info)) (source_symver : Z) : option version_info :=
  if decide (source_symver < 2 \/ Z.of_nat (length infos) <= source_symver) then None else default None (infos !! Z.to_nat source_symver).
Definition add_version_info (source_index : Z) (v : version_info) (infos : list (option version_info)) : list (option version_info) :=
  let i := Z.to_nat source_index in
  let infos := if decide (length infos <= i)%nat then infos ++ repeat None (S i - length infos) else infos in
  <[i := Some v]> infos.
Fixpoint init_vernaux (si : soinfo) (aux : list Vernaux) (infos : list (option version_info)) : outcome exn (list (option version_info)) :=
  match aux with
  | [] => Ret infos
  | a :: aux => s ← get_string si (vna_name a); name ← c_string s; init_vernaux si aux (add_version_info (vna_other a) (mkVersion (vna_hash a) name) infos)
  end.
(** The names of the dependencies; a name that needs none of them is an error. *)
Fixpoint init_verneed (si : soinfo) (sonames : list (option bytes)) (needs : list Verneed) (infos : list (option version_info)) : outcome exn (bool * list (option version_info)) :=
  match needs with
  | [] => Ret (true, infos)
  | n :: needs =>
      if decide (vn_version n <> 1) then Ret (false, infos)
      else
        s ← get_string si (vn_file n);
        target_soname ← c_string s;
        if decide (Some target_soname ∈ sonames) then infos ← init_vernaux si (vn_aux n) infos; init_verneed si sonames needs infos
        else Ret (false, infos)
  end.
Definition init_verdef (si : soinfo) (infos : list (option version_info)) : outcome exn (bool * list (option version_info)) :=
  r ← for_each_verdef (fun infos v => s ← get_string si (vda_name v); name ← c_string s; Ret (false, add_version_info (vd_ndx v) (mkVersion (vd_hash v) name) infos)) infos (verdefs si);
  Ret (match r with Some infos => (true, infos) | None => (false, infos) end).
Definition init (si : soinfo) (sonames : list (option bytes)) (needs : list Verneed) : outcome exn (bool * list (option version_info)) :=
  r ← init_verneed si sonames needs [];
  if (fst r : bool) then init_verdef si (snd r) else Ret r.
(** [None] is the return of false; the symbols of the first two indexes are local and global. *)
Definition lookup_version_info (si : soinfo) (infos : list (option version_info)) (sym : Z) : outcome exn (option (option version_info)) :=
  sym_ver ← (match versym si with Some t => elem t sym | None => Ret 0 end);
  if decide (sym_ver <> 0 /\ sym_ver <> 1) then Ret (Some <$> get_version_info infos sym_ver) else Ret (Some None).

(** ** Relocations *)
Record rela := mkRela { r_offset : Z; r_info : Z; r_addend : Z }.
Definition R_TYPE (info : Z) : Z := wrapu 32 info.
Definition R_SYM (info : Z) : Z := wrapu 32 (Z.shiftr info 32).
Definition R_GENERIC_NONE : Z := 0.
Definition R_GENERIC_ABSOLUTE : Z := 1.
Definition R_X86_64_PC32 : Z := 2.
Definition R_GENERIC_COPY : Z := 5.
Definition R_GENERIC_GLOB_DAT : Z := 6.
Definition R_GENERIC_JUMP_SLOT : Z := 7.
Definition R_GENERIC_RELATIVE : Z := 8.
Definition R_X86_64_32 : Z := 10.
Definition R_GENERIC_TLS_DTPMOD : Z := 16.
Definition R_GENERIC_TLS_DTPREL : Z := 17.
Definition R_GENERIC_TLS_TPREL : Z := 18.
Definition R_GENERIC_TLSDESC : Z := 36.
Definition R_GENERIC_IRELATIVE : Z := 37.
Definition is_tls_reloc (type : Z) : bool := bool_decide (type ∈ [R_GENERIC_TLS_DTPMOD; R_GENERIC_TLS_DTPREL; R_GENERIC_TLS_TPREL; R_GENERIC_TLSDESC]).
Inductive RelocMode := JumpTable | Typical | General.

Section Relocator.
(** The library, the libraries its symbols are looked up in, their versions, the libraries with a TLS segment, the answers of resolvers, and whether the library is the linker. *)
Context (si : soinfo) (lookup_list : SymbolLookupList) (infos : list (option version_info)) (has_tls : soinfo -> bool) (resolver : Z -> Z) (is_linker : bool).
(** The key 0 is no symbol. *)
Record Relocator := mkRelocator { cache_sym_val : Z; cache : option (soinfo * Sym); image : memory }.
Definition set_cache (k : Z) (v : option (soinfo * Sym)) (r : Relocator) : Relocator := mkRelocator k v (image r).
Definition set_memory (m : memory) (r : Relocator) : Relocator := mkRelocator (cache_sym_val r) (cache r) m.
(** [soinfo_do_lookup], with the library in place of its position. *)
Definition do_lookup (name : bytes) (vi : option version_info) : outcome exn (option (soinfo * Sym)) :=
  r ← soinfo_do_lookup name vi lookup_list;
  match r with
  | None => Ret None
  | Some (k, s) => match drop (begin_ lookup_list) (libs lookup_list) !! k ≫= ll_si with Some found_in => Ret (Some (found_in, s)) | None => Undef end
  end.
(** What the symbol is bound to; [None] when the return is false. *)
Definition lookup_symbol (r : Relocator) (r_sym : Z) (sym_name : bytes) : outcome exn (option (option (soinfo * Sym)) * Relocator) :=
  v ← (if decide (r_sym = cache_sym_val r) then Ret (Some (cache r), r)
       else
         vi ← lookup_version_info si infos r_sym;
         match vi with
         | None => Ret (None, r)
         | Some vi => name ← c_string sym_name; found ← do_lookup name vi; Ret (Some found, set_cache r_sym found r)
         end);
  match v with
  | (Some None, r) => s ← elem (symtab si) r_sym; Ret (if decide (ELF_ST_BIND (st_info s) <> STB_WEAK) then None else Some None, r)
  | v => Ret v
  end.
Definition rel_target (reloc : rela) : Z := wrapu 64 (r_offset reloc + load_bias si).
Definition symbol_address (found_in : soinfo) (s : Sym) : Z :=
  let address := wrapu 64 (st_value s + load_bias found_in) in
  if decide (ELF_ST_TYPE (st_info s) = LinkerGroups.STT_GNU_IFUNC) then resolver address else address.
(** The address of the symbol of a relocation. *)
Definition resolve_reloc (general : bool) (r : Relocator) (reloc : rela) (sym_name : bytes) : outcome exn (option Z * Relocator) :=
  let r_type := R_TYPE (r_info reloc) in
  let r_sym := R_SYM (r_info reloc) in
  if general && is_tls_reloc r_type then
    v ← (if decide (r_sym = 0) then Ret (Some (Some (si, None)), r)
         else
           s ← elem (symtab si) r_sym;
           if decide (ELF_ST_BIND (st_info s) = 0) then Ret (None, r)
           else v ← lookup_symbol r r_sym sym_name; Ret (match fst v with None => None | Some f => Some (option_map (fun p : soinfo * Sym => (fst p, Some (snd p))) f) end, snd v));
    Ret (match fst v with
         | None => None
         | Some None => Some 0
         | Some (Some (found_in, sym)) =>
             if negb (has_tls found_in) then None
             else match sym with None => Some 0 | Some s => if decide (ELF_ST_TYPE (st_info s) <> STT_TLS) then None else Some (st_value s) end
         end, snd v)
  else if decide (r_sym = 0) then Ret (Some 0, r)
  else
    v ← lookup_symbol r r_sym sym_name;
    Ret (match fst v with
         | None => None
         | Some (Some (found_in, s)) => Some (symbol_address found_in s)
         | Some None => Some (if general && bool_decide (r_type = R_X86_64_PC32) then rel_target reloc else 0)
         end, snd v).
(** The relocations that a mode handles itself: the value that is written. *)
Definition handled (jump typical : bool) (reloc : rela) (sym_addr : Z) : option Z :=
  let r_type := R_TYPE (r_info reloc) in
  if jump && bool_decide (r_type = R_GENERIC_JUMP_SLOT) then Some (wrapu 64 (sym_addr + r_addend reloc))
  else if typical && bool_decide (r_type = R_GENERIC_ABSOLUTE) then Some (wrapu 64 (sym_addr + r_addend reloc))
  else if typical && bool_decide (r_type = R_GENERIC_GLOB_DAT) then Some (wrapu 64 (sym_addr + r_addend reloc))
  else if typical && bool_decide (r_type = R_GENERIC_RELATIVE) then Some (wrapu 64 (load_bias si + r_addend reloc))
  else None.
Definition write (n : nat) (reloc : rela) (v : Z) (r : Relocator) : outcome exn (bool * Relocator) := m ← store n (rel_target reloc) v (image r); Ret (true, set_memory m r).
(** [process_relocation_impl]; [rest] is what follows the types that the mode handles. *)
Definition process_relocation_impl (jump typical general : bool) (rest : Z -> Relocator -> rela -> outcome exn (bool * Relocator)) (r : Relocator) (reloc : rela) : outcome exn (bool * Relocator) :=
  sym_name ← (if decide (R_SYM (r_info reloc) = 0) then Ret [] else s ← elem (symtab si) (R_SYM (r_info reloc)); get_string si (st_name s));
  if decide (R_TYPE (r_info reloc) = R_GENERIC_NONE) then Ret (true, r)
  else
    a ← resolve_reloc general r reloc sym_name;
    match a with
    | (None, r) => Ret (false, r)
    | (Some sym_addr, r) => match handled jump typical reloc sym_addr with Some v => write 8 reloc v r | None => rest sym_addr r reloc end
    end.
(** The switch over the remaining types; the cases of TLS are not compiled. *)
Definition other_types (sym_addr : Z) (r : Relocator) (reloc : rela) : outcome exn (bool * Relocator) :=
  let r_type := R_TYPE (r_info reloc) in
  if decide (r_type = R_GENERIC_IRELATIVE) then (if is_linker then Ret (true, r) else write 8 reloc (resolver (wrapu 64 (load_bias si + r_addend reloc))) r)
  else if decide (r_type = R_GENERIC_COPY) then Ret (false, r)
  else if decide (r_type = R_X86_64_32) then write 4 reloc (wrapu 32 (sym_addr + r_addend reloc)) r
  else if decide (r_type = R_X86_64_PC32) then write 4 reloc (wrapu 32 (sym_addr + r_addend reloc - rel_target reloc)) r
  else Ret (false, r).
Definition process_relocation_general : Relocator -> rela -> outcome exn (bool * Relocator) := process_relocation_impl true true true other_types.
Definition process_relocation (mode : RelocMode) (r : Relocator) (reloc : rela) : outcome exn (bool * Relocator) :=
  match mode with
  | General => process_relocation_general r reloc
  | JumpTable => process_relocation_impl true false false (fun _ => process_relocation_general) r reloc
  | Typical => process_relocation_impl false true false (fun _ => process_relocation_general) r reloc
  end.
Fixpoint plain_relocate_impl (mode : RelocMode) (rels : list rela) (r : Relocator) : outcome exn (bool * Relocator) :=
  match rels with [] => Ret (true, r) | x :: rels => v ← process_relocation mode r x; if (fst v : bool) then plain_relocate_impl mode rels (snd v) else Ret v end.

(** *** Packed relocations *)
Definition RELOCATION_GROUPED_BY_INFO_FLAG : Z := 1.
Definition RELOCATION_GROUPED_BY_OFFSET_DELTA_FLAG : Z := 2.
Definition RELOCATION_GROUPED_BY_ADDEND_FLAG : Z := 4.
Definition RELOCATION_GROUP_HAS_ADDEND_FLAG : Z := 8.
Definition has (flags flag : Z) : bool := bool_decide (Z.land flags flag <> 0).
Definition pop_if (b : bool) (otherwise : Z) (decoder : list Z) : outcome exn (Z * list Z) := if b then LinkerUtils.pop_front decoder else Ret (otherwise, decoder).
(** Every relocation of the group has an addend, or all have the same. *)
Definition each_addend (flags : Z) : bool := bool_decide (Z.land flags 12 = RELOCATION_GROUP_HAS_ADDEND_FLAG).
Definition same_addend (flags : Z) : bool := bool_decide (Z.land flags 12 = 12).
Section Packed.
Context {R : Type} (callback : R -> rela -> outcome exn (bool * R)).
Fixpoint packed_members (n : nat) (flags delta : Z) (reloc : rela) (decoder : list Z) (r : R) : outcome exn (bool * (rela * list Z * R)) :=
  match n with
  | O => Ret (true, (reloc, decoder, r))
  | S n =>
      o ← pop_if (negb (has flags RELOCATION_GROUPED_BY_OFFSET_DELTA_FLAG)) delta decoder;
      i ← pop_if (negb (has flags RELOCATION_GROUPED_BY_INFO_FLAG)) (r_info reloc) (snd o);
      a ← pop_if (each_addend flags) 0 (snd i);
      let reloc := mkRela (wrapu 64 (r_offset reloc + fst o)) (fst i) (wrapu 64 (r_addend reloc + fst a)) in
      v ← callback r reloc;
      if (fst v : bool) then packed_members n flags delta reloc (snd a) (snd v) else Ret (false, (reloc, snd a, snd v))
  end.
(** A group takes two numbers at least, so the bytes bound the groups; the sizes are added modulo 2^64. *)
Fixpoint packed_groups (fuel : nat) (num_relocs idx : Z) (reloc : rela) (decoder : list Z) (r : R) : outcome exn (bool * R) :=
  if decide (num_relocs <= idx) then Ret (true, r)
  else
    match fuel with
    | O => Diverge
    | S fuel =>
        size ← LinkerUtils.pop_front decoder;
        f ← LinkerUtils.pop_front (snd size);
        let flags := fst f in
        delta ← pop_if (has flags RELOCATION_GROUPED_BY_OFFSET_DELTA_FLAG) 0 (snd f);
        info ← pop_if (has flags RELOCATION_GROUPED_BY_INFO_FLAG) (r_info reloc) (snd delta);
        addend ← pop_if (same_addend flags) 0 (snd info);
        let reloc := mkRela (r_offset reloc) (fst info) (if each_addend flags then r_addend reloc else if same_addend flags then wrapu 64 (r_addend reloc + fst addend) else 0) in
        v ← packed_members (Z.to_nat (fst size)) flags (fst delta) reloc (snd addend) r;
        let '(ok, (reloc, decoder, r)) := v in
        if (ok : bool) then packed_groups fuel num_relocs (wrapu 64 (idx + fst size)) reloc decoder r else Ret (false, r)
    end.
Definition for_all_packed_relocs (decoder : list Z) (r : R) : outcome exn (bool * R) :=
  n ← LinkerUtils.pop_front decoder;
  o ← LinkerUtils.pop_front (snd n);
  packed_groups (length decoder) (fst n) 0 (mkRela (fst o) 0 0) (snd o) r.
End Packed.

(** *** Bitmaps of relative relocations *)
Definition apply_relr_reloc (offset : Z) (r : Relocator) : outcome exn Relocator :=
  let address := wrapu 64 (offset + load_bias si) in
  v ← load 8 address (image r);
  m ← store 8 address (wrapu 64 (v + load_bias si)) (image r);
  Ret (set_memory m r).
Fixpoint relr_bits (fuel : nat) (entry offset : Z) (r : Relocator) : outcome exn Relocator :=
  if decide (entry = 0) then Ret r
  else
    match fuel with
    | O => Diverge
    | S fuel =>
        let entry := Z.shiftr entry 1 in
        r ← (if decide (Z.land entry 1 <> 0) then apply_relr_reloc offset r else Ret r);
        relr_bits fuel entry (wrapu 64 (offset + 8)) r
    end.
Fixpoint relocate_relr (entries : list Z) (base : Z) (r : Relocator) : outcome exn Relocator :=
  match entries with
  | [] => Ret r
  | entry :: entries =>
      if decide (Z.land entry 1 = 0) then r ← apply_relr_reloc entry r; relocate_relr entries (wrapu 64 (entry + 8)) r
      else r ← relr_bits 64 entry base r; relocate_relr entries (wrapu 64 (base + 63 * 8)) r
  end.

(** *** [soinfo::relocate] *)
(** The tables of the dynamic section. *)
Record tables := mkTables { android_relocs : option (list Z); relr : option (list Z); rela_ : option (list rela); plt_rela : option (list rela) }.
(** [needs_slow_relocate_loop] *)
Context (tracing : bool).
Definition opt_mode (m : RelocMode) : RelocMode := if tracing then General else m.
Definition packed_relocate (mode : RelocMode) (decoder : list Z) (r : Relocator) : outcome exn (bool * Relocator) := for_all_packed_relocs (process_relocation (opt_mode mode)) decoder r.
Definition plain_relocate (mode : RelocMode) (rels : list rela) (r : Relocator) : outcome exn (bool * Relocator) := plain_relocate_impl (opt_mode mode) rels r.
Definition and_then (a : outcome exn (bool * Relocator)) (f : Relocator -> outcome exn (bool * Relocator)) : outcome exn (bool * Relocator) := v ← a; if (fst v : bool) then f (snd v) else Ret v.
Definition relocate_tables (t : tables) (r : Relocator) : outcome exn (bool * Relocator) :=
  and_then (match android_relocs t with
            | None => Ret (true, r)
            | Some b => if decide (take 4 b = [65; 80; 83; 50]) then packed_relocate Typical (drop 4 b) r else Ret (false, r)
            end) (fun r =>
  and_then (match relr t with None => Ret (true, r) | Some e => r ← relocate_relr e 0 r; Ret (true, r) end) (fun r =>
  and_then (match rela_ t with None => Ret (true, r) | Some l => plain_relocate Typical l r end) (fun r =>
  match plt_rela t with None => Ret (true, r) | Some l => plain_relocate JumpTable l r end))).
End Relocator.
Definition relocate (si : soinfo) (sonames : list (option bytes)) (needs : list Verneed) (has_tls : soinfo -> bool) (resolver : Z -> Z) (is_linker : bool) (tracing : bool) (t : tables) (lookup_list : SymbolLookupList) (m : memory) :
  outcome exn (bool * memory) :=
  v ← init si sonames needs;
  if (fst v : bool) then r ← relocate_tables si lookup_list (snd v) has_tls resolver is_linker tracing t (mkRelocator 0 None m); Ret (fst r, image (snd r)) else Ret (false, m).
(** ** The reference: every relocation on its own *)
Section Reference.
Context (si : soinfo) (lookup_list : SymbolLookupList) (infos : list (option version_info)) (has_tls : soinfo -> bool) (resolver : Z -> Z) (is_linker : bool).
(** What the symbol of a relocation is bound to: [None] when its version is unknown. *)
Definition bound (k : Z) : outcome exn (option (option (soinfo * Sym))) :=
  s ← elem (symtab si) k;
  sym_name ← get_string si (st_name s);
  vi ← lookup_version_info si infos k;
  match vi with None => Ret None | Some vi => name ← c_string sym_name; found ← do_lookup lookup_list name vi; Ret (Some found) end.
(** A symbol that is found nowhere must be weak; it has the address 0, or the place itself for a distance. *)
Definition address_of (reloc : rela) : outcome exn (option Z) :=
  if decide (R_SYM (r_info reloc) = 0) then Ret (Some 0)
  else
    b ← bound (R_SYM (r_info reloc));
    match b with
    | None => Ret None
    | Some (Some (found_in, s)) => Ret (Some (symbol_address resolver found_in s))
    | Some None =>
        s ← elem (symtab si) (R_SYM (r_info reloc));
        Ret (if decide (ELF_ST_BIND (st_info s) = STB_WEAK) then Some (if decide (R_TYPE (r_info reloc) = R_X86_64_PC32) then rel_target si reloc else 0) else None)
    end.
(** The width and the value that is written, as the processor supplement of the ABI defines it. *)
Definition value_of (reloc : rela) (sym_addr : Z) : option (nat * Z) :=
  let t := R_TYPE (r_info reloc) in
  if decide (t ∈ [R_GENERIC_JUMP_SLOT; R_GENERIC_ABSOLUTE; R_GENERIC_GLOB_DAT]) then Some (8%nat, wrapu 64 (sym_addr + r_addend reloc))
  else if decide (t = R_GENERIC_RELATIVE) then Some (8%nat, wrapu 64 (load_bias si + r_addend reloc))
  else if decide (t = R_GENERIC_IRELATIVE) then Some (if is_linker then (0%nat, 0) else (8%nat, resolver (wrapu 64 (load_bias si + r_addend reloc))))
  else if decide (t = R_X86_64_32) then Some (4%nat, wrapu 32 (sym_addr + r_addend reloc))
  else if decide (t = R_X86_64_PC32) then Some (4%nat, wrapu 32 (sym_addr + r_addend reloc - rel_target si reloc))
  else None.
Definition apply_rela (reloc : rela) (m : memory) : outcome exn (option memory) :=
  if decide (R_TYPE (r_info reloc) = R_GENERIC_NONE) then Ret (Some m)
  else
    a ← address_of reloc;
    match a ≫= value_of reloc with None => Ret None | Some (n, v) => m ← store n (rel_target si reloc) v m; Ret (Some m) end.
(** The tables answer for the symbol of the relocation. *)
Definition answered (reloc : rela) : Prop := R_SYM (r_info reloc) <> 0 -> exists b, bound (R_SYM (r_info reloc)) = Ret b.

Definition wf_cache (r : Relocator) : Prop := cache_sym_val r <> 0 -> bound (cache_sym_val r) = Ret (Some (cache r)).
Definition final (k : Z) (b : option (option (soinfo * Sym))) : outcome exn (option (option (soinfo * Sym))) :=
  match b with Some None => s ← elem (symtab si) k; Ret (if decide (ELF_ST_BIND (st_info s) <> STB_WEAK) then None else Some None) | b => Ret b end.
Lemma lookup_bound r k s name b : wf_cache r -> k <> 0 -> elem (symtab si) k = Ret s -> get_string si (st_name s) = Ret name -> bound k = Ret b ->
  exists r', wf_cache r' /\ image r' = image r /\ lookup_symbol si lookup_list infos r k name = (v ← final k b; Ret (v, r')).
Proof.
  intros Hwf Hk Hs Hname Hb. unfold lookup_symbol. destruct (decide (k = cache_sym_val r)) as [E|E].
  - assert (b = Some (cache r)) as ->. { assert (cache_sym_val r <> 0) as Hc%Hwf by congruence. rewrite <- E, Hb in Hc. by injection Hc. }
    exists r. split_and!; [done|done|]. cbn [mbind outcome_bind]. unfold final. destruct (cache r); [done|]. by rewrite Hs.
  - unfold bound in Hb. rewrite Hs in Hb. cbn [mbind outcome_bind] in Hb. rewrite Hname in Hb. cbn [mbind outcome_bind] in Hb.
    destruct (lookup_version_info si infos k) as [[vi|]| | |] eqn:Ev; cbn [mbind outcome_bind] in Hb |- *; try done.
    + destruct (c_string name) as [nm| | |] eqn:En; cbn [mbind outcome_bind] in Hb |- *; try done. destruct (do_lookup lookup_list nm vi) as [found| | |] eqn:Ed; cbn [mbind outcome_bind] in Hb |- *; try done.
      injection Hb as <-. exists (set_cache k found r). split_and!; [|done|].
      * intros _. cbn. unfold bound. rewrite Hs. cbn [mbind outcome_bind]. rewrite Hname. cbn [mbind outcome_bind]. rewrite Ev. cbn [mbind outcome_bind]. rewrite En. cbn [mbind outcome_bind]. by rewrite Ed.
      * unfold final. destruct found; [done|]. by rewrite Hs.
    + injection Hb as <-. exists r. done.
Qed.
Lemma bound_name k b : bound k = Ret b -> exists s name, elem (symtab si) k = Ret s /\ get_string si (st_name s) = Ret name.
Proof.
  unfold bound. destruct (elem (symtab si) k) as [s| | |]; cbn; try done. destruct (get_string si (st_name s)) as [name| | |] eqn:E; cbn; try done. intros _. by exists s, name.
Qed.
(** The name of the symbol, which is read first. *)
Definition name_of (reloc : rela) : outcome exn bytes := if decide (R_SYM (r_info reloc) = 0) then Ret [] else s ← elem (symtab si) (R_SYM (r_info reloc)); get_string si (st_name s).
Lemma name_answered reloc : answered reloc -> exists name, name_of reloc = Ret name.
Proof.
  intros Ha. unfold name_of. destruct (decide _) as [|Hn]; [by exists []|]. destruct (Ha Hn) as [b Hb]. destruct (bound_name _ _ Hb) as (s & name & -> & E). by exists name.
Qed.
(** The address without a special case for distances, which the fast paths compute. *)
Lemma resolve_fast r reloc name : wf_cache r -> answered reloc -> name_of reloc = Ret name ->
  exists a r', wf_cache r' /\ image r' = image r /\ resolve_reloc si lookup_list infos has_tls resolver false r reloc name = Ret (a, r') /\
    (exists a', address_of reloc = Ret a' /\ (a = None <-> a' = None) /\ (R_TYPE (r_info reloc) <> R_X86_64_PC32 -> a = a')).
Proof.
  intros Hwf Ha Hname. unfold resolve_reloc, address_of, name_of in *. cbn [andb]. destruct (decide (R_SYM (r_info reloc) = 0)) as [|Hn]; [exists (Some 0), r; split_and!; try done; by exists (Some 0)|].
  destruct (Ha Hn) as [b Hb]. destruct (bound_name _ _ Hb) as (s & nm & Hs & E). rewrite Hs in Hname. cbn [mbind outcome_bind] in Hname. rewrite E in Hname. injection Hname as ->.
  destruct (lookup_bound r _ s name b Hwf Hn Hs E Hb) as (r' & Hwf' & Him & ->). rewrite Hb, Hs. cbn [mbind outcome_bind]. destruct b as [[[l sy]|]|]; cbn [final mbind outcome_bind fst snd].
  - eexists _, r'. split_and!; [done|done|done|]. by eexists.
  - rewrite Hs. cbn [mbind outcome_bind fst snd]. destruct (decide (ELF_ST_BIND (st_info s) <> STB_WEAK)) as [Hw|Hw].
    + eexists _, r'. split_and!; [done|done|done|]. rewrite (decide_False (P := _ = STB_WEAK)) by done. by eexists.
    + eexists _, r'. split_and!; [done|done|done|]. rewrite (decide_True (P := _ = STB_WEAK)) by (destruct (decide (ELF_ST_BIND (st_info s) = STB_WEAK)); tauto). eexists. split; [done|]. split; [done|].
      intros Ht. by rewrite decide_False.
  - eexists _, r'. split_and!; [done|done|done|]. by eexists.
Qed.
Lemma resolve_general r reloc name : wf_cache r -> answered reloc -> name_of reloc = Ret name ->
  exists a r', wf_cache r' /\ image r' = image r /\ resolve_reloc si lookup_list infos has_tls resolver true r reloc name = Ret (a, r') /\ (is_tls_reloc (R_TYPE (r_info reloc)) = false -> address_of reloc = Ret a).
Proof.
  intros Hwf Ha Hname. unfold resolve_reloc, address_of, name_of in *. cbn [andb]. destruct (decide (R_SYM (r_info reloc) = 0)) as [|Hn].
  { destruct (is_tls_reloc _); cbn [mbind outcome_bind fst snd]; eexists _, r; split_and!; done. }
  destruct (Ha Hn) as [b Hb]. destruct (bound_name _ _ Hb) as (s & nm & Hs & E). rewrite Hs in Hname. cbn [mbind outcome_bind] in Hname. rewrite E in Hname. injection Hname as ->.
  destruct (lookup_bound r _ s name b Hwf Hn Hs E Hb) as (r' & Hwf' & Him & El). rewrite Hs, Hb. destruct (is_tls_reloc _); cbn [mbind outcome_bind].
  - destruct (decide (ELF_ST_BIND (st_info s) = 0)); [eexists _, r; split_and!; done|]. rewrite El. assert (exists v, final (R_SYM (r_info reloc)) b = Ret v) as [v ->] by (unfold final; rewrite Hs; destruct b as [[|]|]; by eexists).
    cbn [mbind outcome_bind fst snd]. eexists _, r'. split_and!; done.
  - rewrite El. destruct b as [[[l sy]|]|]; cbn [final mbind outcome_bind fst snd]; [eexists _, r'; split_and!; done| |eexists _, r'; split_and!; done].
    rewrite Hs. cbn [mbind outcome_bind fst snd]. eexists _, r'. split_and!; [done|done|done|]. intros _. f_equal. destruct (decide (ELF_ST_BIND (st_info s) <> STB_WEAK)) as [Hw|Hw].
    + by rewrite decide_False.
    + rewrite decide_True by (destruct (decide (ELF_ST_BIND (st_info s) = STB_WEAK)); tauto). destruct (decide (R_TYPE (r_info reloc) = R_X86_64_PC32)); [by rewrite bool_decide_eq_true_2|by rewrite bool_decide_eq_false_2].
Qed.
(** The result of the reference as the code gives it. *)
Definition as_result (r : Relocator) (v : outcome exn (option memory)) : outcome exn (bool * Relocator) :=
  match v with Ret (Some m) => Ret (true, set_memory m r) | Ret None => Ret (false, r) | Throw e => Throw e | Undef => Undef | Diverge => Diverge end.
Lemma write_result n reloc v r m : image r = m -> write si n reloc v r = as_result r (m ← store n (rel_target si reloc) v m; Ret (Some m)).
Proof. intros <-. unfold write. by destruct (store n (rel_target si reloc) v (image r)). Qed.
Lemma tls_value reloc a : is_tls_reloc (R_TYPE (r_info reloc)) = true -> value_of reloc a = None /\ handled si true true reloc a = None /\ handled si true false reloc a = None /\ handled si false true reloc a = None /\
  (forall r, other_types si resolver is_linker a r reloc = Ret (false, r)) /\ R_TYPE (r_info reloc) <> R_GENERIC_NONE.
Proof.
  intros Ht%bool_decide_eq_true. unfold value_of, handled, other_types. repeat (apply elem_of_cons in Ht as [->|Ht]; [done|]). by apply not_elem_of_nil in Ht.
Qed.
Lemma handled_value jump typical reloc a v : handled si jump typical reloc a = Some v -> value_of reloc a = Some (8%nat, v) /\ R_TYPE (r_info reloc) <> R_X86_64_PC32.
Proof.
  unfold handled, value_of.
  destruct (decide (R_TYPE (r_info reloc) = R_GENERIC_JUMP_SLOT)) as [->|H1]; [destruct jump; cbn; [by intros [= <-]|]; destruct typical; done|].
  rewrite (bool_decide_eq_false_2 (_ = R_GENERIC_JUMP_SLOT)) by done. rewrite andb_false_r. destruct typical; [cbn [andb]|done].
  destruct (decide (R_TYPE (r_info reloc) = R_GENERIC_ABSOLUTE)) as [->|H2]; [by intros [= <-]|]. rewrite (bool_decide_eq_false_2 (_ = R_GENERIC_ABSOLUTE)) by done.
  destruct (decide (R_TYPE (r_info reloc) = R_GENERIC_GLOB_DAT)) as [->|H3]; [by intros [= <-]|]. rewrite (bool_decide_eq_false_2 (_ = R_GENERIC_GLOB_DAT)) by done.
  destruct (decide (R_TYPE (r_info reloc) = R_GENERIC_RELATIVE)) as [->|H4]; [by intros [= <-]|]. by rewrite (bool_decide_eq_false_2 (_ = R_GENERIC_RELATIVE)) by done.
Qed.
Lemma general_value r reloc a m : image r = m -> match handled si true true reloc a with Some v => write si 8 reloc v r | None => other_types si resolver is_linker a r reloc end =
  as_result r (match value_of reloc a with None => Ret None | Some (n, v) => m ← store n (rel_target si reloc) v m; Ret (Some m) end).
Proof.
  intros Hm. destruct (handled si true true reloc a) as [v|] eqn:Eh; [apply handled_value in Eh as [-> _]; by apply write_result|]. unfold handled in Eh. cbn [andb] in Eh.
  do 4 (case_bool_decide; [done|]). unfold value_of, other_types. rewrite (decide_False (P := _ ∈ _)) by (rewrite !elem_of_cons; intros [|[|[|?%not_elem_of_nil]]]; done). rewrite (decide_False (P := _ = R_GENERIC_RELATIVE)) by done.
  destruct (decide (_ = R_GENERIC_IRELATIVE)); [destruct is_linker; [subst; by destruct r|by apply write_result]|]. destruct (decide (_ = R_GENERIC_COPY)) as [->|]; [done|]. destruct (decide (_ = R_X86_64_32)); [by apply write_result|].
  destruct (decide (_ = R_X86_64_PC32)); [by apply write_result|done].
Qed.
Lemma process_general r reloc : wf_cache r -> answered reloc -> exists r', wf_cache r' /\ image r' = image r /\
  process_relocation_general si lookup_list infos has_tls resolver is_linker r reloc = as_result r' (apply_rela reloc (image r)).
Proof.
  intros Hwf Ha. destruct (name_answered reloc Ha) as [name Hname]. unfold process_relocation_general, process_relocation_impl. fold (name_of reloc). rewrite Hname. cbn [mbind outcome_bind]. unfold apply_rela.
  destruct (decide (R_TYPE (r_info reloc) = R_GENERIC_NONE)); [exists r; split_and!; [done|done|by destruct r]|].
  destruct (resolve_general r reloc name Hwf Ha Hname) as (a & r' & Hwf' & Him & -> & Haddr). exists r'. split_and!; [done|done|]. cbn [mbind outcome_bind].
  destruct (is_tls_reloc (R_TYPE (r_info reloc))) eqn:Et.
  - destruct (resolve_fast r reloc name Hwf Ha Hname) as (_ & _ & _ & _ & _ & a' & -> & _). cbn [mbind outcome_bind]. assert (a' ≫= value_of reloc = None) as -> by (destruct a'; [apply (tls_value reloc _ Et)|done]).
    destruct a as [a|]; [|done]. destruct (tls_value reloc a Et) as (_ & -> & _ & _ & Ho & _). by rewrite Ho.
  - rewrite Haddr by done. cbn [mbind outcome_bind]. destruct a as [a|]; [|done]. cbn [mbind option_bind]. by apply general_value.
Qed.
(** Whatever the mode, and whatever the cache holds, a relocation does what the reference does. *)
Lemma process_spec mode r reloc : wf_cache r -> answered reloc -> exists r', wf_cache r' /\ image r' = image r /\ process_relocation si lookup_list infos has_tls resolver is_linker mode r reloc = as_result r' (apply_rela reloc (image r)).
Proof.
  intros Hwf Ha. assert (forall jump typical, exists r', wf_cache r' /\ image r' = image r /\
    process_relocation_impl si lookup_list infos has_tls resolver jump typical false (fun _ => process_relocation_general si lookup_list infos has_tls resolver is_linker) r reloc = as_result r' (apply_rela reloc (image r))) as Hfast;
    [|destruct mode; [apply Hfast|apply Hfast|by apply process_general]].
  intros jump typical. destruct (name_answered reloc Ha) as [name Hname]. unfold process_relocation_impl. fold (name_of reloc). rewrite Hname. cbn [mbind outcome_bind].
  destruct (decide (R_TYPE (r_info reloc) = R_GENERIC_NONE)) as [Ez|Ez]; [exists r; split_and!; [done|done|]; unfold apply_rela; rewrite decide_True by done; by destruct r|].
  destruct (resolve_fast r reloc name Hwf Ha Hname) as (a & r' & Hwf' & Him & -> & a' & Haddr & Hnone & Hsame). cbn [mbind outcome_bind]. destruct a as [a|].
  - destruct (handled si jump typical reloc a) as [v|] eqn:Eh.
    + apply handled_value in Eh as [Hv Hpc]. exists r'. split_and!; [done|done|]. unfold apply_rela. rewrite decide_False by done. rewrite Haddr, <- Hsame by done. cbn [mbind outcome_bind option_bind]. rewrite Hv. by apply write_result.
    + destruct (process_general r' reloc Hwf' Ha) as (r2 & ? & ? & E). exists r2. rewrite E, Him. split_and!; [done|congruence|done].
  - exists r'. split_and!; [done|done|]. unfold apply_rela. rewrite decide_False by done. rewrite Haddr. assert (a' = None) as -> by (by apply Hnone). done.
Qed.
(** A list of relocations; those before the one that fails stay applied. *)
Fixpoint apply_all (rels : list rela) (m : memory) : outcome exn (bool * memory) :=
  match rels with [] => Ret (true, m) | x :: rels => v ← apply_rela x m; match v with Some m => apply_all rels m | None => Ret (false, m) end end.
Definition carried (r : Relocator) (v : outcome exn (bool * memory)) : outcome exn (bool * Relocator) := v ← v; Ret (fst v, set_memory (snd v) r).
Lemma wf_memory r m : wf_cache (set_memory m r) <-> wf_cache r.
Proof. done. Qed.
Lemma run_spec mode rels : Forall answered rels -> forall r, wf_cache r -> exists r', wf_cache r' /\ plain_relocate_impl si lookup_list infos has_tls resolver is_linker mode rels r = carried r' (apply_all rels (image r)).
Proof.
  induction 1 as [|x rels Hx _ IH]; intros r Hwf; [exists r; split; [done|by destruct r]|]. destruct (process_spec mode r x Hwf Hx) as (r1 & Hwf1 & Him & E). cbn [plain_relocate_impl apply_all]. rewrite E.
  destruct (apply_rela x (image r)) as [[m|]| | |]; cbn [as_result mbind outcome_bind fst snd]; [|exists r1; split; [done|]; rewrite <- Him; by destruct r1|by exists r1..].
  destruct (IH (set_memory m r1)) as (r2 & Hwf2 & E2); [done|]. exists r2. done.
Qed.
End Reference.

(** ** Packed relocations are read back *)
Definition fits (v : Z) : Prop := - 2 ^ 63 <= v < 2 ^ 63.
Definition number_if (b : bool) (v : Z) : list Z := if b then LinkerUtils.sleb128 v else [].
Lemma pop_if_read b otherwise v rest : fits v -> pop_if b otherwise (number_if b v ++ rest) = Ret (if b then wrapu 64 v else otherwise, rest).
Proof. intros Hv. destruct b; [by apply LinkerUtils.number_read|done]. Qed.
(** A group with its flags, the fields that its relocations share, and for each the distance to the last offset, the info and the difference of the addends. *)
Record group := mkGroup { g_flags : Z; g_delta : Z; g_info : Z; g_addend : Z; g_members : list (Z * Z * Z) }.
Definition encode_member (flags : Z) (e : Z * Z * Z) : list Z :=
  number_if (negb (has flags RELOCATION_GROUPED_BY_OFFSET_DELTA_FLAG)) (fst (fst e)) ++ number_if (negb (has flags RELOCATION_GROUPED_BY_INFO_FLAG)) (snd (fst e)) ++ number_if (each_addend flags) (snd e).
Definition encode_group (g : group) : list Z :=
  LinkerUtils.sleb128 (Z.of_nat (length (g_members g))) ++ LinkerUtils.sleb128 (g_flags g) ++ number_if (has (g_flags g) RELOCATION_GROUPED_BY_OFFSET_DELTA_FLAG) (g_delta g) ++
  number_if (has (g_flags g) RELOCATION_GROUPED_BY_INFO_FLAG) (g_info g) ++ number_if (same_addend (g_flags g)) (g_addend g) ++ (g_members g ≫= encode_member (g_flags g)).
Definition total (gs : list group) : Z := Z.of_nat (list_sum ((fun g => length (g_members g)) <$> gs)).
Definition pack (first : Z) (gs : list group) : list Z := LinkerUtils.sleb128 (total gs) ++ LinkerUtils.sleb128 first ++ (gs ≫= encode_group).
(** The relocations that the groups stand for, after [last]. *)
Definition next_reloc (flags delta : Z) (last : rela) (e : Z * Z * Z) : rela :=
  mkRela (wrapu 64 (r_offset last + (if has flags RELOCATION_GROUPED_BY_OFFSET_DELTA_FLAG then delta else wrapu 64 (fst (fst e)))))
    (if has flags RELOCATION_GROUPED_BY_INFO_FLAG then r_info last else wrapu 64 (snd (fst e)))
    (wrapu 64 (r_addend last + (if each_addend flags then wrapu 64 (snd e) else 0))).
Fixpoint unpack_members (flags delta : Z) (last : rela) (es : list (Z * Z * Z)) : list rela * rela :=
  match es with
  | [] => ([], last)
  | e :: es => let x := next_reloc flags delta last e in let v := unpack_members flags delta x es in (x :: fst v, snd v)
  end.
Definition group_start (last : rela) (g : group) : rela :=
  mkRela (r_offset last) (if has (g_flags g) RELOCATION_GROUPED_BY_INFO_FLAG then wrapu 64 (g_info g) else r_info last)
    (if each_addend (g_flags g) then r_addend last else if same_addend (g_flags g) then wrapu 64 (r_addend last + wrapu 64 (g_addend g)) else 0).
Fixpoint unpack (last : rela) (gs : list group) : list rela :=
  match gs with
  | [] => []
  | g :: gs =>
      let v := unpack_members (g_flags g) (if has (g_flags g) RELOCATION_GROUPED_BY_OFFSET_DELTA_FLAG then wrapu 64 (g_delta g) else 0) (group_start last g) (g_members g) in
      fst v ++ unpack (snd v) gs
  end.
Definition wf_group (g : group) : Prop :=
  0 <= g_flags g < 2 ^ 63 /\ fits (g_delta g) /\ fits (g_info g) /\ fits (g_addend g) /\ g_members g <> [] /\ Forall (fun e => fits (fst (fst e)) /\ fits (snd (fst e)) /\ fits (snd e)) (g_members g).
Section Read.
Context {R : Type} (callback : R -> rela -> outcome exn (bool * R)).
Fixpoint run (rels : list rela) (r : R) : outcome exn (bool * R) :=
  match rels with [] => Ret (true, r) | x :: rels => v ← callback r x; if (fst v : bool) then run rels (snd v) else Ret v end.
Lemma run_app a b r : run (a ++ b) r = (v ← run a r; if (fst v : bool) then run b (snd v) else Ret v).
Proof. revert r. induction a as [|x a IH]; intros r; [done|]. cbn [app run]. destruct (callback r x) as [[[] r']| | |]; cbn; [apply IH|done..]. Qed.
Lemma members_read flags delta es rest : Forall (fun e => fits (fst (fst e)) /\ fits (snd (fst e)) /\ fits (snd e)) es -> forall last r,
  match run (fst (unpack_members flags delta last es)) r with
  | Ret (true, r') => packed_members callback (length es) flags delta last ((es ≫= encode_member flags) ++ rest) r = Ret (true, (snd (unpack_members flags delta last es), rest, r'))
  | Ret (false, r') => exists x, packed_members callback (length es) flags delta last ((es ≫= encode_member flags) ++ rest) r = Ret (false, (x, r'))
  | Throw e => packed_members callback (length es) flags delta last ((es ≫= encode_member flags) ++ rest) r = Throw e
  | Undef => packed_members callback (length es) flags delta last ((es ≫= encode_member flags) ++ rest) r = Undef
  | Diverge => packed_members callback (length es) flags delta last ((es ≫= encode_member flags) ++ rest) r = Diverge
  end.
Proof.
  induction 1 as [|e es (H1 & H2 & H3) _ IH]; intros last r; [done|].
  assert (packed_members callback (length (e :: es)) flags delta last (((e :: es) ≫= encode_member flags) ++ rest) r =
    (v ← callback r (next_reloc flags delta last e);
     if (fst v : bool) then packed_members callback (length es) flags delta (next_reloc flags delta last e) ((es ≫= encode_member flags) ++ rest) (snd v)
     else Ret (false, (next_reloc flags delta last e, (es ≫= encode_member flags) ++ rest, snd v)))) as ->.
  { cbn [packed_members length mbind list_bind]. unfold encode_member at 1. rewrite <- !app_assoc. rewrite pop_if_read by done. cbn [mbind outcome_bind fst snd]. rewrite pop_if_read by done. cbn [mbind outcome_bind fst snd].
    rewrite pop_if_read by done. cbn [mbind outcome_bind fst snd]. unfold next_reloc. by destruct (has flags RELOCATION_GROUPED_BY_OFFSET_DELTA_FLAG), (has flags RELOCATION_GROUPED_BY_INFO_FLAG). }
  cbn [unpack_members fst snd run]. destruct (callback r (next_reloc flags delta last e)) as [[[] r']| | |]; cbn [mbind outcome_bind fst snd]; [apply IH|by eexists|done..].
Qed.
Lemma sleb_nonempty v : (1 <= length (LinkerUtils.sleb128 v))%nat.
Proof. unfold LinkerUtils.sleb128. cbn [LinkerUtils.sleb_encode]. destruct (decide _); cbn; lia. Qed.
Lemma groups_read gs : Forall wf_group gs -> forall fuel num idx last r, 0 <= idx -> idx + total gs = num -> num < 2 ^ 63 -> (length gs <= fuel)%nat ->
  packed_groups callback fuel num idx last (gs ≫= encode_group) r = run (unpack last gs) r.
Proof.
  induction 1 as [|g gs (Hf & Hd & Hi & Ha & Hne & Hm) _ IH]; intros fuel num idx last r H0 Hnum Hb Hfuel.
  { unfold total in Hnum. cbn in Hnum. destruct fuel; cbn [packed_groups]; by rewrite decide_True by lia. }
  assert (total (g :: gs) = Z.of_nat (length (g_members g)) + total gs) as Ht by (unfold total, list_sum; cbn; lia).
  assert (0 < Z.of_nat (length (g_members g)) /\ 0 <= total gs) as [Hpos Htot] by (split; [destruct (g_members g); [done|cbn; lia]|unfold total; lia]).
  cbn [length] in Hfuel. destruct fuel as [|fuel]; [lia|]. cbn [packed_groups]. rewrite decide_False by lia. cbn [mbind list_bind]. unfold encode_group at 1. rewrite <- !app_assoc.
  rewrite LinkerUtils.number_read by (unfold fits; lia). cbn [mbind outcome_bind fst snd]. rewrite LinkerUtils.number_read by (unfold fits; lia). cbn [mbind outcome_bind fst snd]. rewrite (wrapu_small 64 (g_flags g)) by lia.
  rewrite pop_if_read by done. cbn [mbind outcome_bind fst snd]. rewrite pop_if_read by done. cbn [mbind outcome_bind fst snd]. rewrite pop_if_read by done. cbn [mbind outcome_bind fst snd].
  rewrite (wrapu_small 64 (Z.of_nat (length (g_members g)))) by lia. rewrite Nat2Z.id. cbn [unpack]. rewrite run_app.
  set (delta := if has (g_flags g) RELOCATION_GROUPED_BY_OFFSET_DELTA_FLAG then wrapu 64 (g_delta g) else 0).
  replace (mkRela (r_offset last) _ _) with (group_start last g) by (unfold group_start; by destruct (same_addend (g_flags g))).
  pose proof (members_read (g_flags g) delta (g_members g) (gs ≫= encode_group) Hm (group_start last g) r) as Hrun.
  destruct (run (fst (unpack_members _ _ _ _)) r) as [[[] r']| | |]; cbn [mbind outcome_bind fst snd].
  - rewrite Hrun. cbn [mbind outcome_bind fst snd]. rewrite (wrapu_small 64 (idx + _)) by lia. apply IH; lia.
  - destruct Hrun as [[x y] ->]. done.
  - by rewrite Hrun.
  - by rewrite Hrun.
  - by rewrite Hrun.
Qed.
Lemma packed_read first gs r : fits first -> Forall wf_group gs -> total gs < 2 ^ 63 -> for_all_packed_relocs callback (pack first gs) r = run (unpack (mkRela (wrapu 64 first) 0 0) gs) r.
Proof.
  intros Hf Hgs Ht. unfold for_all_packed_relocs. assert (length gs <= length (pack first gs))%nat as Hlen.
  { unfold pack. rewrite !length_app. enough (length gs <= length (gs ≫= encode_group))%nat by lia. clear -Hgs. induction gs as [|g gs IH]; [done|]. cbn [mbind list_bind]. rewrite length_app. apply Forall_cons_1 in Hgs as [_ Hgs].
    specialize (IH Hgs). pose proof (sleb_nonempty (Z.of_nat (length (g_members g)))). unfold encode_group at 1. rewrite length_app. cbn [length]. lia. }
  generalize dependent (length (pack first gs)). intros fuel Hlen. unfold pack. assert (0 <= total gs) by (unfold total; lia). rewrite LinkerUtils.number_read by (unfold fits; lia). cbn [mbind outcome_bind fst snd]. rewrite LinkerUtils.number_read by done. cbn [mbind outcome_bind fst snd].
  rewrite (wrapu_small 64 (total gs)) by lia. by apply groups_read.
Qed.
(** Reading ends on any bytes. *)
Lemma pop_ends decoder : match LinkerUtils.pop_front decoder with Ret (_, rest) => (length rest < length decoder)%nat | Diverge => False | _ => True end.
Proof. apply LinkerUtils.sleb_shorter. Qed.
Lemma pop_if_ends b otherwise decoder : match pop_if b otherwise decoder with Ret (_, rest) => (length rest <= length decoder)%nat | Diverge => False | _ => True end.
Proof. destruct b; cbn [pop_if]; [|lia]. pose proof (pop_ends decoder) as H. destruct (LinkerUtils.pop_front decoder) as [[]| | |]; [lia|done..]. Qed.
Hypothesis callback_ends : forall r x, callback r x <> Diverge.
Lemma members_end n flags delta : forall reloc decoder r,
  match packed_members callback n flags delta reloc decoder r with Ret (_, (_, rest, _)) => (length rest <= length decoder)%nat | Diverge => False | _ => True end.
Proof.
  induction n as [|n IH]; intros reloc decoder r; cbn [packed_members]; [lia|].
  pose proof (pop_if_ends (negb (has flags RELOCATION_GROUPED_BY_OFFSET_DELTA_FLAG)) delta decoder) as H1. destruct (pop_if _ delta decoder) as [[o d1]| | |]; [|done..]. cbn [mbind outcome_bind fst snd].
  pose proof (pop_if_ends (negb (has flags RELOCATION_GROUPED_BY_INFO_FLAG)) (r_info reloc) d1) as H2. destruct (pop_if _ _ d1) as [[i d2]| | |]; [|done..]. cbn [mbind outcome_bind fst snd].
  pose proof (pop_if_ends (each_addend flags) 0 d2) as H3. destruct (pop_if _ _ d2) as [[a d3]| | |]; [|done..]. cbn [mbind outcome_bind fst snd].
  match goal with |- context [callback r ?x] => pose proof (callback_ends r x); destruct (callback r x) as [[[] r']| | |] end; cbn [mbind outcome_bind fst snd]; [|lia|done..].
  match goal with |- context [packed_members _ n _ _ ?x d3 r'] => specialize (IH x d3 r'); destruct (packed_members callback n flags delta x d3 r') as [[? [[] ?]]| | |] end; [lia|done..].
Qed.
Lemma groups_end fuel : forall num idx reloc decoder r, (length decoder < fuel)%nat -> packed_groups callback fuel num idx reloc decoder r <> Diverge.
Proof.
  induction fuel as [|fuel IH]; intros num idx reloc decoder r Hf; [lia|]. cbn [packed_groups]. destruct (decide (num <= idx)); [done|].
  pose proof (pop_ends decoder) as H1. destruct (LinkerUtils.pop_front decoder) as [[size d1]| | |]; [|done..]. cbn [mbind outcome_bind fst snd].
  pose proof (pop_ends d1) as H2. destruct (LinkerUtils.pop_front d1) as [[flags d2]| | |]; [|done..]. cbn [mbind outcome_bind fst snd].
  pose proof (pop_if_ends (has flags RELOCATION_GROUPED_BY_OFFSET_DELTA_FLAG) 0 d2) as H3. destruct (pop_if _ _ d2) as [[delta d3]| | |]; [|done..]. cbn [mbind outcome_bind fst snd].
  pose proof (pop_if_ends (has flags RELOCATION_GROUPED_BY_INFO_FLAG) (r_info reloc) d3) as H4. destruct (pop_if _ _ d3) as [[info d4]| | |]; [|done..]. cbn [mbind outcome_bind fst snd].
  pose proof (pop_if_ends (same_addend flags) 0 d4) as H5. destruct (pop_if _ _ d4) as [[addend d5]| | |]; [|done..]. cbn [mbind outcome_bind fst snd].
  match goal with |- context [packed_members _ ?n ?f ?d ?x d5 r] => pose proof (members_end n f d x d5 r) as H6; destruct (packed_members callback n f d x d5 r) as [[[] [[] ?]]| | |] end; [|done..].
  cbn [mbind outcome_bind fst snd]. apply IH. lia.
Qed.
Lemma packed_ends decoder r : for_all_packed_relocs callback decoder r <> Diverge.
Proof.
  unfold for_all_packed_relocs. pose proof (pop_ends decoder) as H1. destruct (LinkerUtils.pop_front decoder) as [[n d1]| | |]; [|done..]. cbn [mbind outcome_bind fst snd].
  pose proof (pop_ends d1) as H2. destruct (LinkerUtils.pop_front d1) as [[o d2]| | |]; [|done..]. cbn [mbind outcome_bind fst snd]. apply groups_end. lia.
Qed.
End Read.
(** ** Bitmaps *)
(** The offsets that the words stand for: an even word is an offset, the bits of an odd one the 63 words behind the last. *)
Fixpoint relr_offsets (entries : list Z) (base : Z) : list Z :=
  match entries with
  | [] => []
  | entry :: entries =>
      if Z.even entry then entry :: relr_offsets entries (entry + 8)
      else ((fun k => wrapu 64 (base + 8 * k)) <$> filter (fun k => Z.testbit entry (k + 1) = true) (seqZ 0 63)) ++ relr_offsets entries (base + 63 * 8)
  end.
Section Bitmaps.
Context (si : soinfo).
(** Every word at an offset moves by the address of the library. *)
Definition rebase (offset : Z) (m : memory) : outcome exn memory :=
  v ← load 8 (wrapu 64 (offset + load_bias si)) m;
  store 8 (wrapu 64 (offset + load_bias si)) (wrapu 64 (v + load_bias si)) m.
Fixpoint rebase_all (offsets : list Z) (m : memory) : outcome exn memory := match offsets with [] => Ret m | o :: offsets => m ← rebase o m; rebase_all offsets m end.
Definition on_image (r : Relocator) (v : outcome exn memory) : outcome exn Relocator := m ← v; Ret (set_memory m r).
Lemma rebase_app a b m : rebase_all (a ++ b) m = (m ← rebase_all a m; rebase_all b m).
Proof. revert m. induction a as [|o a IH]; intros m; [done|]. cbn [rebase_all app]. destruct (rebase o m); cbn [mbind outcome_bind]; [apply IH|done..]. Qed.
Lemma apply_relr o r : apply_relr_reloc si o r = on_image r (rebase o (image r)).
Proof. unfold apply_relr_reloc, rebase, on_image. by destruct (load 8 _ (image r)). Qed.
Lemma seqZ_succ (n : nat) : seqZ 0 (Z.of_nat (S n)) = 0 :: (Z.succ <$> seqZ 0 (Z.of_nat n)).
Proof. rewrite (seqZ_cons 0) by lia. replace (Z.pred (Z.of_nat (S n))) with (Z.of_nat n) by lia. f_equal. change (Z.succ 0) with (1 + 0). rewrite <- (fmap_add_seqZ 1 0). apply list_fmap_ext. intros. lia. Qed.
Lemma Forall_seqZ_nonneg (n : nat) : Forall (fun k => 0 <= k) (seqZ 0 (Z.of_nat n)).
Proof. apply Forall_seqZ. lia. Qed.
Lemma filter_succ e (f : Z -> Z) l : Forall (fun k => 0 <= k) l ->
  f <$> filter (fun k => Z.testbit e (k + 1) = true) (Z.succ <$> l) = (fun k => f (Z.succ k)) <$> filter (fun k => Z.testbit (Z.shiftr e 1) (k + 1) = true) l.
Proof.
  induction 1 as [|k l Hk _ IH]; [done|]. rewrite fmap_cons, !filter_cons. rewrite (Z.shiftr_spec e 1) by lia. replace (k + 1 + 1) with (Z.succ k + 1) by lia.
  destruct (decide _); [by rewrite !fmap_cons, IH|done].
Qed.
Lemma bits_spec base n : forall fuel e j r, 0 <= e < 2 ^ (Z.of_nat n + 1) -> (n < fuel)%nat ->
  relr_bits si fuel e (wrapu 64 (base + 8 * j)) r = on_image r (rebase_all ((fun k => wrapu 64 (base + 8 * (j + k))) <$> filter (fun k => Z.testbit e (k + 1) = true) (seqZ 0 (Z.of_nat n))) (image r)).
Proof.
  induction n as [|n IH]; intros fuel e j r He Hf; (destruct fuel as [|fuel]; [lia|]); cbn [relr_bits].
  - destruct (decide (e = 0)); [by destruct r|]. assert (e = 1) as -> by (cbn in He; lia). cbn. destruct fuel; by destruct r.
  - assert (forall r2, relr_bits si fuel (Z.shiftr e 1) (wrapu 64 (wrapu 64 (base + 8 * j) + 8)) r2 =
      on_image r2 (rebase_all ((fun k => wrapu 64 (base + 8 * (j + k))) <$> filter (fun k => Z.testbit e (k + 1) = true) (Z.succ <$> seqZ 0 (Z.of_nat n))) (image r2))) as Hnext.
    { intros r2. replace (wrapu 64 (wrapu 64 (base + 8 * j) + 8)) with (wrapu 64 (base + 8 * (j + 1))) by (unfold wrapu; rewrite Zplus_mod_idemp_l; f_equal; lia).
      rewrite IH; [|rewrite Z.shiftr_div_pow2 by lia; split; [apply Z.div_pos; lia|apply Z.div_lt_upper_bound; [lia|]; rewrite <- Z.pow_add_r by lia; replace (1 + (Z.of_nat n + 1)) with (Z.of_nat (S n) + 1) by lia; lia]|lia].
      f_equal. f_equal. rewrite filter_succ by apply Forall_seqZ_nonneg. apply list_fmap_ext. intros. f_equal. lia. }
    rewrite seqZ_succ, filter_cons. assert (Z.land (Z.shiftr e 1) 1 <> 0 <-> Z.testbit e (0 + 1) = true) as Hbit.
    { rewrite <- (Z.shiftr_spec e 1 0), Z.bit0_odd by lia. rewrite (Z.land_ones _ 1) by lia. rewrite Zmod_odd. by destruct (Z.odd _). }
    destruct (decide (e = 0)) as [->|Hz].
    { rewrite decide_False by done. rewrite <- Hnext. destruct fuel; by destruct r. }
    destruct (decide (Z.testbit e (0 + 1) = true)) as [Hb|Hb].
    + rewrite decide_True by (by apply Hbit). rewrite apply_relr. replace (base + 8 * j) with (base + 8 * (j + 0)) at 1 by lia. cbn [fmap list_fmap rebase_all]. unfold on_image at 1 2.
      destruct (rebase _ (image r)); cbn [mbind outcome_bind]; [|done..]. by rewrite Hnext.
    + rewrite decide_False by (by rewrite Hbit). apply Hnext.
Qed.
(** The loop over the words rebases exactly the offsets that they stand for, and always ends. *)
Lemma relr_spec entries : Forall (fun e => 0 <= e < 2 ^ 64) entries -> forall base r, relocate_relr si entries (wrapu 64 base) r = on_image r (rebase_all (relr_offsets entries base) (image r)).
Proof.
  induction 1 as [|e entries He _ IH]; intros base r; [by destruct r|]. cbn [relocate_relr relr_offsets].
  assert (Z.land e 1 = 0 <-> Z.even e = true) as Hev by (rewrite (Z.land_ones _ 1), Zmod_even by lia; by destruct (Z.even e)).
  destruct (Z.even e).
  - rewrite decide_True by (by apply Hev). rewrite apply_relr. cbn [rebase_all]. unfold on_image at 1 2. destruct (rebase e (image r)); cbn [mbind outcome_bind]; [|done..]. by rewrite IH.
  - rewrite decide_False by (rewrite Hev; done). rewrite rebase_app. replace (wrapu 64 base) with (wrapu 64 (base + 8 * 0)) at 1 by (f_equal; lia).
    rewrite (bits_spec base 63 64) by (cbn; lia). unfold on_image at 1 2. change (Z.of_nat 63) with 63.
    replace (fun k => wrapu 64 (base + 8 * (0 + k))) with (fun k => wrapu 64 (base + 8 * k)) by done.
    destruct (rebase_all _ (image r)); cbn [mbind outcome_bind]; [|done..]. replace (wrapu 64 (wrapu 64 base + 63 * 8)) with (wrapu 64 (base + 63 * 8)) by (unfold wrapu; by rewrite Zplus_mod_idemp_l). by rewrite IH.
Qed.
End Bitmaps.
(** ** All tables *)
(** Relocations given in the packed form. *)
Definition packed (p : Z * list group) : list Z := [65; 80; 83; 50] ++ pack (fst p) (snd p).
Definition unpacked (p : Z * list group) : list rela := unpack (mkRela (wrapu 64 (fst p)) 0 0) (snd p).
Definition wf_packed (p : Z * list group) : Prop := fits (fst p) /\ Forall wf_group (snd p) /\ total (snd p) < 2 ^ 63.
Definition then_ (a : outcome exn (bool * memory)) (f : memory -> outcome exn (bool * memory)) : outcome exn (bool * memory) := v ← a; if (fst v : bool) then f (snd v) else Ret v.
Lemma plain_run si ll infos has_tls resolver is_linker mode rels r : plain_relocate_impl si ll infos has_tls resolver is_linker mode rels r = run (process_relocation si ll infos has_tls resolver is_linker mode) rels r.
Proof. revert r. induction rels as [|x rels IH]; intros r; [done|]. cbn [plain_relocate_impl run]. destruct (process_relocation _ _ _ _ _ _ _ r x) as [[[] r']| | |]; cbn; [apply IH|done..]. Qed.
Section Tables.
Context (si : soinfo) (lookup_list : SymbolLookupList) (infos : list (option version_info)) (has_tls : soinfo -> bool) (resolver : Z -> Z) (is_linker : bool) (tracing : bool).
Notation wf := (wf_cache si lookup_list infos).
Notation all := (apply_all si lookup_list infos resolver is_linker).
Notation known := (answered si lookup_list infos).
Lemma apply_all_app a b m : all (a ++ b) m = then_ (all a m) (all b).
Proof. revert m. induction a as [|x a IH]; intros m; [done|]. cbn [app apply_all]. destruct (apply_rela _ _ _ _ _ x m) as [[m'|]| | |]; cbn [mbind outcome_bind]; [apply IH|done..]. Qed.
(** What a step of the code does to the image, for some state of the cache. *)
Definition does (f : Relocator -> outcome exn (bool * Relocator)) (g : memory -> outcome exn (bool * memory)) : Prop :=
  forall r, wf r -> exists r', wf r' /\ f r = carried r' (g (image r)).
Lemma does_nothing : does (fun r => Ret (true, r)) (fun m => Ret (true, m)).
Proof. intros r Hr. exists r. split; [done|by destruct r]. Qed.
Lemma does_then f f' g g' : does f g -> does f' g' -> does (fun r => and_then (f r) f') (fun m => then_ (g m) g').
Proof.
  intros Hf Hf' r Hr. destruct (Hf r Hr) as (r1 & Hr1 & ->). destruct (g (image r)) as [[[] m]| | |]; cbn [carried and_then then_ mbind outcome_bind fst snd]; [|by exists r1..].
  destruct (Hf' (set_memory m r1)) as (r2 & Hr2 & E); [done|]. exists r2. done.
Qed.
Lemma does_plain mode rels : Forall known rels -> does (plain_relocate si lookup_list infos has_tls resolver is_linker tracing mode rels) (all rels).
Proof. intros Hk r Hr. by apply run_spec. Qed.
Lemma does_packed p : wf_packed p -> Forall known (unpacked p) -> does (packed_relocate si lookup_list infos has_tls resolver is_linker tracing Typical (drop 4 (packed p))) (all (unpacked p)).
Proof. intros (Hf & Hg & Ht) Hk r Hr. unfold packed_relocate. change (drop 4 (packed p)) with (pack (fst p) (snd p)). rewrite packed_read by done. rewrite <- plain_run. by apply run_spec. Qed.
Lemma does_relr entries : Forall (fun e => 0 <= e < 2 ^ 64) entries ->
  does (fun r => r ← relocate_relr si entries 0 r; Ret (true, r)) (fun m => m ← rebase_all si (relr_offsets entries 0) m; Ret (true, m)).
Proof.
  intros He r Hr. exists r. split; [done|]. change (relocate_relr si entries 0 r) with (relocate_relr si entries (wrapu 64 0) r). rewrite (relr_spec si entries He 0 r). unfold on_image, carried. by destruct (rebase_all _ _ (image r)).
Qed.
Lemma does_option {A} (o : option A) f g : (forall x, o = Some x -> does (f x) (g x)) ->
  does (fun r => match o with None => Ret (true, r) | Some x => f x r end) (fun m => match o with None => Ret (true, m) | Some x => g x m end).
Proof. intros H. destruct o; [by apply H|apply does_nothing]. Qed.
End Tables.
(** Every table in turn: the relocations that it stands for, one by one. *)
Definition relocated (si : soinfo) (lookup_list : SymbolLookupList) (infos : list (option version_info)) (resolver : Z -> Z) (is_linker : bool) (p : option (Z * list group)) (words : option (list Z)) (rels plt : option (list rela)) (m : memory) :
  outcome exn (bool * memory) :=
  then_ (apply_all si lookup_list infos resolver is_linker (from_option unpacked [] p) m) (fun m =>
  m ← rebase_all si (relr_offsets (default [] words) 0) m;
  apply_all si lookup_list infos resolver is_linker (default [] rels ++ default [] plt) m).
Lemma tables_spec si ll infos has_tls resolver is_linker tracing p words rels plt :
  from_option wf_packed True p -> Forall (fun e => 0 <= e < 2 ^ 64) (default [] words) -> Forall (answered si ll infos) (from_option unpacked [] p ++ default [] rels ++ default [] plt) ->
  does si ll infos (relocate_tables si ll infos has_tls resolver is_linker tracing (mkTables (packed <$> p) words rels plt)) (relocated si ll infos resolver is_linker p words rels plt).
Proof.
  intros Hp Hw (Hkp & (Hkr & Hkl)%Forall_app)%Forall_app r Hr. unfold relocate_tables. cbn [android_relocs relr rela_ plt_rela].
  assert (does si ll infos (fun r => match packed <$> p with None => Ret (true, r) | Some b => if decide (take 4 b = [65; 80; 83; 50]) then packed_relocate si ll infos has_tls resolver is_linker tracing Typical (drop 4 b) r else Ret (false, r) end) (apply_all si ll infos resolver is_linker (from_option unpacked [] p))) as D1 by (destruct p; [by apply does_packed|apply does_nothing]).
  assert (does si ll infos (fun r => match words with None => Ret (true, r) | Some e => r ← relocate_relr si e 0 r; Ret (true, r) end) (fun m => m ← rebase_all si (relr_offsets (default [] words) 0) m; Ret (true, m))) as D2
    by (destruct words; [by apply does_relr|apply does_nothing]).
  assert (forall mode l, Forall (answered si ll infos) (default [] l) -> does si ll infos (fun r => match l with None => Ret (true, r) | Some l => plain_relocate si ll infos has_tls resolver is_linker tracing mode l r end) (apply_all si ll infos resolver is_linker (default [] l))) as D3
    by (intros mode [l|] Hl; [by apply does_plain|apply does_nothing]).
  destruct (does_then _ _ _ _ _ _ _ D1 (does_then _ _ _ _ _ _ _ D2 (does_then _ _ _ _ _ _ _ (D3 Typical rels Hkr) (D3 JumpTable plt Hkl))) r Hr) as (r' & Hr' & E). exists r'. split; [done|]. rewrite E. f_equal. unfold relocated.
  destruct (apply_all _ _ _ _ _ _ (image r)) as [[[] m]| | |]; [|done..]. cbn [then_ mbind outcome_bind fst snd]. destruct (rebase_all _ _ m) as [m'| | |]; [|done..]. cbn [then_ mbind outcome_bind fst snd]. by rewrite apply_all_app.
Qed.
(** C38. Relocation does what the tables stand for.  A library may have relocations that are packed
    in groups, bitmaps of words that move with it, a plain table and a table of jumps; the code walks
    them with a fast path for each and keeps the last symbol it looked up.  The result, success or
    failure, and every byte of the image are those of applying the relocations one by one. *)
Theorem tables_relocated (si : soinfo) (sonames : list (option bytes)) (needs : list Verneed) (infos : list (option version_info)) (lookup_list : SymbolLookupList) (has_tls : soinfo -> bool) (resolver : Z -> Z) (is_linker : bool) (tracing : bool)
  (p : option (Z * list group)) (words : option (list Z)) (rels plt : option (list rela)) (m : memory) :
  init si sonames needs = Ret (true, infos) -> from_option wf_packed True p -> Forall (fun e => 0 <= e < 2 ^ 64) (default [] words) ->
  Forall (answered si lookup_list infos) (from_option unpacked [] p ++ default [] rels ++ default [] plt) ->
  relocate si sonames needs has_tls resolver is_linker tracing (mkTables (packed <$> p) words rels plt) lookup_list m = relocated si lookup_list infos resolver is_linker p words rels plt m.
Proof.
  intros Hi Hp Hw Hk. unfold relocate. rewrite Hi. cbn [mbind outcome_bind fst snd]. destruct (tables_spec si lookup_list infos has_tls resolver is_linker tracing p words rels plt Hp Hw Hk (mkRelocator 0 None m)) as (r' & _ & ->); [by intros []|].
  cbn [image]. by destruct (relocated _ _ _ _ _ _ _ _ _ m) as [[[] m']| | |].
Qed.
(** *** An example *)
(** A library at 4096 that takes the address of "mmap" from the launcher. *)
Definition client : soinfo := mkSoinfo ∅ None None [mkSym 0 0 0 0 0; mkSym 1 16 0 0 0] (NUL :: lit "mmap" ++ [NUL]) None [] 4096.
Definition client_list : SymbolLookupList := group_list false [load_library [(lit "mmap", 16)]] [].
Definition client_image : memory := fun a => if decide (4096 <= a < 4160) then Some 0 else None.
Definition client_groups : Z * list group := (-8, [mkGroup 11 8 8 0 [(0, 0, 5); (0, 0, 2)]; mkGroup 1 0 (2 ^ 32 + 6) 0 [(24, 0, 0)]]).
Definition client_plt : list rela := [mkRela 48 (2 ^ 32 + 7) 0].
Definition words_at (m : memory) : outcome exn (list Z) :=
  foldr (fun a r => v ← load 8 a m; l ← r; Ret (v :: l)) (Ret []) [4096; 4104; 4112; 4120; 4128; 4136; 4144; 4152].
Lemma client_known : bound client client_list [] 1 = Ret (Some (Some (load_library [(lit "mmap", 16)], custom_sym 16))).
Proof. vm_compute. reflexivity. Qed.
Lemma client_answered reloc : bool_decide (R_SYM (r_info reloc) = 0 \/ R_SYM (r_info reloc) = 1) = true -> answered client client_list [] reloc.
Proof. intros [E|E]%bool_decide_eq_true Hn; [done|]. rewrite E. eexists. apply client_known. Qed.
Lemma client_groups_wf : wf_packed client_groups.
Proof.
  unfold wf_packed, client_groups. cbn [fst snd]. split; [unfold fits; lia|]. split; [|reflexivity].
  apply Forall_cons_2; [|apply Forall_cons_2; [|apply Forall_nil_2]]; unfold wf_group, fits; cbn [g_flags g_delta g_info g_addend g_members];
    (split_and!; try lia; [discriminate|]); repeat (apply Forall_cons_2; [cbn [fst snd]; lia|]); apply Forall_nil_2.
Qed.
Lemma tables_relocated_witness :
  exists m, relocate client [] [] (fun _ => false) id false false (mkTables (Some (packed client_groups)) (Some [16; 7]) None (Some client_plt)) client_list client_image = Ret (true, m) /\
    words_at m = Ret [4101; 4103; 4096; 4096; 4112; 0; 16; 0].
Proof.
  assert (exists m, relocated client client_list [] id false (Some client_groups) (Some [16; 7]) None (Some client_plt) client_image = Ret (true, m) /\ words_at m = Ret [4101; 4103; 4096; 4096; 4112; 0; 16; 0]) as (m & E & Hm)
    by (eexists; split; vm_compute; reflexivity).
  exists m. split; [|exact Hm]. rewrite <- E. apply (tables_relocated client [] [] [] client_list (fun _ => false) id false false (Some client_groups) (Some [16; 7]) None (Some client_plt) client_image).
  - reflexivity.
  - apply client_groups_wf.
  - repeat (apply Forall_cons_2; [lia|]). apply Forall_nil_2.
  - repeat (apply Forall_cons_2; [apply client_answered; reflexivity|]). apply Forall_nil_2.
Defined.
End LinkerRelocate.
