(* ===== verification/LinkerDynamic.v ===== *)
(** * The dynamic section (mcpelauncher-linker/bionic/linker)

    [soinfo::prelink_image] of linker.cpp on x86-64: what a loaded library says about itself, read
    from the memory that LinkerImage maps.  The members of [soinfo] that the entries set are words,
    so the library is a function from members to words.  The entries may come in any order. *)

From S2P Require Import Prelude CxxString LinkerUtils LinkerImage LinkerSymbols LinkerGroups LinkerRelocate.
From Stdlib Require Import ZArith Ascii Lia.
From stdpp Require Import base list strings numbers.

Open Scope Z_scope.

Module LinkerDynamic.
Import LinkerImage.

(** ** Tags *)
Definition DT_NULL : Z := 0.
Definition DT_NEEDED : Z := 1.
Definition DT_PLTRELSZ : Z := 2.
Definition DT_HASH : Z := 4.
Definition DT_STRTAB : Z := 5.
Definition DT_SYMTAB : Z := 6.
Definition DT_RELA : Z := 7.
Definition DT_RELASZ : Z := 8.
Definition DT_RELAENT : Z := 9.
Definition DT_STRSZ : Z := 10.
Definition DT_SYMENT : Z := 11.
Definition DT_INIT : Z := 12.
Definition DT_FINI : Z := 13.
Definition DT_SONAME : Z := 14.
Definition DT_SYMBOLIC : Z := 16.
Definition DT_REL : Z := 17.
Definition DT_RELSZ : Z := 18.
Definition DT_PLTREL : Z := 20.
Definition DT_DEBUG : Z := 21.
Definition DT_TEXTREL : Z := 22.
Definition DT_JMPREL : Z := 23.
Definition DT_INIT_ARRAY : Z := 25.
Definition DT_FINI_ARRAY : Z := 26.
Definition DT_INIT_ARRAYSZ : Z := 27.
Definition DT_FINI_ARRAYSZ : Z := 28.
Definition DT_RUNPATH : Z := 29.
Definition DT_FLAGS : Z := 30.
Definition DT_PREINIT_ARRAY : Z := 32.
Definition DT_PREINIT_ARRAYSZ : Z := 33.
Definition DT_RELRSZ : Z := 35.
Definition DT_RELR : Z := 36.
Definition DT_RELRENT : Z := 37.
Definition DT_ANDROID_REL : Z := 0x6000000f.
Definition DT_ANDROID_RELSZ : Z := 0x60000010.
Definition DT_ANDROID_RELA : Z := 0x60000011.
Definition DT_ANDROID_RELASZ : Z := 0x60000012.
Definition DT_GNU_HASH : Z := 0x6ffffef5.
Definition DT_VERSYM : Z := 0x6ffffff0.
Definition DT_FLAGS_1 : Z := 0x6ffffffb.
Definition DT_VERDEF : Z := 0x6ffffffc.
Definition DT_VERDEFNUM : Z := 0x6ffffffd.
Definition DT_VERNEED : Z := 0x6ffffffe.
Definition DT_VERNEEDNUM : Z := 0x6fffffff.
Definition DF_SYMBOLIC : Z := 2.
Definition DF_TEXTREL : Z := 4.
Definition DF_1_GLOBAL : Z := 2.
Definition DF_1_NODELETE : Z := 8.

(** ** Members *)
(** [in_GNU_HASH] and [in_PRELINKED] are flags of [flags_], [in_GLOBAL] and [in_NODELETE] are flags of [rtld_flags_]. *)
Inductive member :=
| nbucket_ | nchain_ | bucket_ | chain_ | gnu_nbucket_ | gnu_maskwords_ | gnu_shift2_ | gnu_bloom_filter_ | gnu_bucket_ | gnu_chain_ | in_GNU_HASH
| strtab | strtab_size_ | symtab_ | plt_rela_ | plt_rela_count_ | rela_ | rela_count_ | android_relocs_ | android_relocs_size_ | relr_ | relr_count_
| init_func_ | fini_func_ | init_array_ | init_array_count_ | fini_array_ | fini_array_count_ | preinit_array_ | preinit_array_count_
| has_DT_SYMBOLIC | in_GLOBAL | in_NODELETE | dt_flags_1_ | versym_ | verdef_ptr_ | verdef_cnt_ | verneed_ptr_ | verneed_cnt_ | needed_count | soname_ | dt_runpath_ | in_PRELINKED.
#[export] Instance member_eq_dec : EqDecision member.
Proof. solve_decision. Defined.
Definition members := member -> Z.
Definition assign (us : list (member * Z)) (st : members) : members := fun x => match list_find (fun u => fst u = x) us with Some (_, u) => snd u | None => st x end.

(** ** Memory *)
Fixpoint read_bytes (n : nat) (a : Z) (m : memory) : outcome exn (list Z) :=
  match n with O => Ret [] | S n => match m a with Some b => l ← read_bytes n (a + 1) m; Ret (b :: l) | None => Undef end end.
(** Entries up to the one that ends the table; the fuel bounds their number. *)
Fixpoint read_dynamic (fuel : nat) (a : Z) (m : memory) : outcome exn (list Dyn) :=
  match fuel with
  | O => Diverge
  | S fuel =>
      tag ← load 8 a m;
      if decide (tag = DT_NULL) then Ret [] else v ← load 8 (a + 8) m; es ← read_dynamic fuel (a + 16) m; Ret (mkDyn tag v :: es)
  end.
(** [phdr_table_get_dynamic_section]: the address and the flags of the first segment of the type. *)
Fixpoint get_dynamic_section (load_bias : Z) (phnum : nat) (phdr : Z) (m : memory) : outcome exn (option (Z * Z)) :=
  match phnum with
  | O => Ret None
  | S phnum =>
      l ← read_bytes 56 phdr m;
      let p := parse_Phdr l in
      if decide (p_type p = PT_DYNAMIC) then Ret (Some (wrapu 64 (load_bias + p_vaddr p), p_flags p)) else get_dynamic_section load_bias phnum (phdr + 56) m
  end.

(** ** The first pass *)
Section Prelink.
Context (load_bias : Z) (m : memory).
Definition ptr (d : Dyn) : Z := wrapu 64 (load_bias + d_val d).
Definition powerof2 (x : Z) : bool := bool_decide (Z.land x (wrapu 32 (x - 1)) = 0).
Definition words_of (d : Dyn) : Z := wrapu 32 (d_val d) / 8.
(** What an entry sets; [None] is a return of false.  Functions, flags and versions: *)
Definition other_entry (d : Dyn) : option (list (member * Z)) :=
  let t := d_tag d in
  if decide (t = DT_INIT) then Some [(init_func_, ptr d)]
  else if decide (t = DT_FINI) then Some [(fini_func_, ptr d)]
  else if decide (t = DT_INIT_ARRAY) then Some [(init_array_, ptr d)]
  else if decide (t = DT_INIT_ARRAYSZ) then Some [(init_array_count_, words_of d)]
  else if decide (t = DT_FINI_ARRAY) then Some [(fini_array_, ptr d)]
  else if decide (t = DT_FINI_ARRAYSZ) then Some [(fini_array_count_, words_of d)]
  else if decide (t = DT_PREINIT_ARRAY) then Some [(preinit_array_, ptr d)]
  else if decide (t = DT_PREINIT_ARRAYSZ) then Some [(preinit_array_count_, words_of d)]
  else if decide (t = DT_TEXTREL) then None
  else if decide (t = DT_SYMBOLIC) then Some [(has_DT_SYMBOLIC, 1)]
  else if decide (t = DT_FLAGS) then
    (if decide (Z.land (d_val d) DF_TEXTREL <> 0) then None else Some (if decide (Z.land (d_val d) DF_SYMBOLIC <> 0) then [(has_DT_SYMBOLIC, 1)] else []))
  else if decide (t = DT_FLAGS_1) then
    Some ([(dt_flags_1_, wrapu 32 (d_val d))] ++ (if decide (Z.land (d_val d) DF_1_GLOBAL <> 0) then [(in_GLOBAL, 1)] else []) ++ (if decide (Z.land (d_val d) DF_1_NODELETE <> 0) then [(in_NODELETE, 1)] else []))
  else if decide (t = DT_VERSYM) then Some [(versym_, ptr d)]
  else if decide (t = DT_VERDEF) then Some [(verdef_ptr_, ptr d)]
  else if decide (t = DT_VERDEFNUM) then Some [(verdef_cnt_, d_val d)]
  else if decide (t = DT_VERNEED) then Some [(verneed_ptr_, ptr d)]
  else if decide (t = DT_VERNEEDNUM) then Some [(verneed_cnt_, d_val d)]
  else Some [].
(** Strings, symbols and relocations: *)
Definition table_entry (d : Dyn) : option (list (member * Z)) :=
  let t := d_tag d in
  if decide (t = DT_STRTAB) then Some [(strtab, ptr d)]
  else if decide (t = DT_STRSZ) then Some [(strtab_size_, d_val d)]
  else if decide (t = DT_SYMTAB) then Some [(symtab_, ptr d)]
  else if decide (t = DT_SYMENT) then (if decide (d_val d <> 24) then None else Some [])
  else if decide (t = DT_PLTREL) then (if decide (d_val d <> DT_RELA) then None else Some [])
  else if decide (t = DT_JMPREL) then Some [(plt_rela_, ptr d)]
  else if decide (t = DT_PLTRELSZ) then Some [(plt_rela_count_, d_val d / 24)]
  else if decide (t = DT_RELA) then Some [(rela_, ptr d)]
  else if decide (t = DT_RELASZ) then Some [(rela_count_, d_val d / 24)]
  else if decide (t = DT_ANDROID_RELA) then Some [(android_relocs_, ptr d)]
  else if decide (t = DT_ANDROID_RELASZ) then Some [(android_relocs_size_, d_val d)]
  else if decide (t = DT_ANDROID_REL \/ t = DT_ANDROID_RELSZ \/ t = DT_REL \/ t = DT_RELSZ) then None
  else if decide (t = DT_RELAENT) then (if decide (d_val d <> 24) then None else Some [])
  else other_entry d.
(** Hash tables, whose sizes are read from memory: *)
Definition dyn_entry (d : Dyn) : outcome exn (option (list (member * Z))) :=
  let t := d_tag d in
  if decide (t = DT_HASH) then
    nb ← load 4 (ptr d) m; nc ← load 4 (ptr d + 4) m;
    Ret (Some [(nbucket_, nb); (nchain_, nc); (bucket_, wrapu 64 (ptr d + 8)); (chain_, wrapu 64 (ptr d + 8 + nb * 4))])
  else if decide (t = DT_GNU_HASH) then
    nb ← load 4 (ptr d) m; words ← load 4 (ptr d + 8) m; shift ← load 4 (ptr d + 12) m; symndx ← load 4 (ptr d + 4) m;
    let filter := wrapu 64 (ptr d + 16) in
    let bucket := wrapu 64 (filter + words * 8) in
    Ret (if powerof2 words then
           Some [(gnu_nbucket_, nb); (gnu_maskwords_, wrapu 32 (words - 1)); (gnu_shift2_, shift); (gnu_bloom_filter_, filter); (gnu_bucket_, bucket);
                 (gnu_chain_, wrapu 64 (bucket + nb * 4 - symndx * 4)); (in_GNU_HASH, 1)]
         else None)
  else Ret (table_entry d).
Definition count_needed (d : Dyn) (st : members) : members := if decide (d_tag d = DT_NEEDED) then assign [(needed_count, wrapu 32 (st needed_count + 1))] st else st.
Fixpoint first_pass (es : list Dyn) (st : members) : outcome exn (option members) :=
  match es with
  | [] => Ret (Some st)
  | d :: es => us ← dyn_entry d; match us with None => Ret None | Some us => first_pass es (count_needed d (assign us st)) end
  end.

(** ** The second pass *)
(** [get_string]: an address in the table of strings. *)
Definition get_string_ptr (st : members) (index : Z) : outcome exn Z :=
  if decide (st strtab_size_ <= wrapu 32 index) then Throw (runtime_error "strtab out of bounds error") else Ret (wrapu 64 (st strtab + wrapu 32 index)).
Fixpoint second_pass (es : list Dyn) (st : members) : outcome exn members :=
  match es with
  | [] => Ret st
  | d :: es =>
      st ← (if decide (d_tag d = DT_SONAME) then s ← get_string_ptr st (d_val d); Ret (assign [(soname_, s)] st)
            else if decide (d_tag d = DT_RUNPATH) then s ← get_string_ptr st (d_val d); Ret (assign [(dt_runpath_, s)] st)
            else Ret st);
      second_pass es st
  end.
(** [validate_verdef_section] over the links of the table. *)
Fixpoint validate_verdefs (n : nat) (a : Z) : outcome exn bool :=
  match n with
  | O => Ret true
  | S n =>
      next ← load 4 (a + 16) m;
      version ← load 2 a m;
      if decide (version <> 1) then Ret false
      else
        flags ← load 2 (a + 2) m;
        if decide (Z.land flags LinkerSymbols.VER_FLG_BASE <> 0) then validate_verdefs n (wrapu 64 (a + next))
        else cnt ← load 2 (a + 6) m; if decide (cnt = 0) then Ret false else validate_verdefs n (wrapu 64 (a + next))
  end.
Definition sane (is_linker : bool) (st : members) : bool :=
  if decide (is_linker = true /\ st needed_count <> 0) then false
  else if decide (st nbucket_ = 0 /\ st gnu_nbucket_ = 0) then false
  else if decide (st strtab = 0) then false
  else if decide (st symtab_ = 0) then false
  else true.
(** The name of the file, at [basename], stands in for a missing name of the library in old applications. *)
Definition prelink_entries (is_linker is_somain : bool) (target_sdk basename : Z) (es : list Dyn) (st : members) : outcome exn (option members) :=
  r ← first_pass es st;
  match r with
  | None => Ret None
  | Some st =>
      if sane is_linker st then
        st ← second_pass es st;
        let st := if decide (st soname_ = 0 /\ is_somain = false /\ is_linker = false /\ target_sdk < 23) then assign [(soname_, basename)] st else st in
        ok ← (if decide (st verdef_ptr_ = 0) then Ret true else validate_verdefs (Z.to_nat (st verdef_cnt_)) (st verdef_ptr_));
        Ret (if (ok : bool) then Some (assign [(in_PRELINKED, 1)] st) else None)
      else Ret None
  end.
End Prelink.
(** The value of an entry for the debugger becomes the address of its data when the section is writable; nothing reads it again. *)
Fixpoint debug_entries (dynamic r_debug : Z) (es : list Dyn) (m : memory) : outcome exn memory :=
  match es with
  | [] => Ret m
  | d :: es => m ← (if decide (d_tag d = DT_DEBUG) then store 8 (dynamic + 8) r_debug m else Ret m); debug_entries (dynamic + 16) r_debug es m
  end.
Definition prelink_image (fuel : nat) (load_bias phdr : Z) (phnum : nat) (is_linker is_somain : bool) (target_sdk basename r_debug : Z) (m : memory) (st : members) : outcome exn (option (members * memory)) :=
  if decide (st in_PRELINKED <> 0) then Ret (Some (st, m))
  else
    found ← get_dynamic_section load_bias phnum phdr m;
    match found with
    | None => Ret None
    | Some (dynamic, flags) =>
        es ← read_dynamic fuel dynamic m;
        m ← (if decide (Z.land flags PF_W <> 0) then debug_entries dynamic r_debug es m else Ret m);
        r ← prelink_entries load_bias m is_linker is_somain target_sdk basename es st;
        Ret (option_map (fun st => (st, m)) r)
    end.

(** ** The tables of relocations *)
Fixpoint read_relas (n : nat) (a : Z) (m : memory) : outcome exn (list LinkerRelocate.rela) :=
  match n with
  | O => Ret []
  | S n => o ← load 8 a m; i ← load 8 (a + 8) m; d ← load 8 (a + 16) m; l ← read_relas n (a + 24) m; Ret (LinkerRelocate.mkRela o i d :: l)
  end.
Fixpoint read_words (n : nat) (a : Z) (m : memory) : outcome exn (list Z) := match n with O => Ret [] | S n => w ← load 8 a m; l ← read_words n (a + 8) m; Ret (w :: l) end.
Definition unless_null {A} (p : Z) (read : outcome exn A) : outcome exn (option A) := if decide (p = 0) then Ret None else v ← read; Ret (Some v).
(** What [soinfo::relocate] finds at the members that [prelink_image] set. *)
Definition image_tables (st : members) (m : memory) : outcome exn LinkerRelocate.tables :=
  packed ← unless_null (st android_relocs_) (read_bytes (Z.to_nat (st android_relocs_size_)) (st android_relocs_) m);
  words ← unless_null (st relr_) (read_words (Z.to_nat (st relr_count_)) (st relr_) m);
  rels ← unless_null (st rela_) (read_relas (Z.to_nat (st rela_count_)) (st rela_) m);
  plt ← unless_null (st plt_rela_) (read_relas (Z.to_nat (st plt_rela_count_)) (st plt_rela_) m);
  Ret (LinkerRelocate.mkTables packed words rels plt).

(** ** Any order *)
(** Libraries with the same members. *)
Definition same (st st' : members) : Prop := forall x, st x = st' x.
#[export] Instance same_equivalence : Equivalence same.
Proof. split; [by intros ? ?|by intros ? ? H x|intros ? ? ? H1 H2 x; by rewrite H1]. Qed.
#[export] Instance assign_proper us : Proper (same ==> same) (assign us).
Proof. intros st st' H x. unfold assign. by destruct (list_find _ us) as [[]|]. Qed.
#[export] Instance count_needed_proper d : Proper (same ==> same) (count_needed d).
Proof. intros st st' H. unfold count_needed. destruct (decide _); [|done]. rewrite (H needed_count). by apply assign_proper. Qed.
(** The tag whose entries set a member. *)
Definition owner (x : member) : Z :=
  match x with
  | nbucket_ | nchain_ | bucket_ | chain_ => DT_HASH
  | gnu_nbucket_ | gnu_maskwords_ | gnu_shift2_ | gnu_bloom_filter_ | gnu_bucket_ | gnu_chain_ | in_GNU_HASH => DT_GNU_HASH
  | strtab => DT_STRTAB | strtab_size_ => DT_STRSZ | symtab_ => DT_SYMTAB | plt_rela_ => DT_JMPREL | plt_rela_count_ => DT_PLTRELSZ | rela_ => DT_RELA | rela_count_ => DT_RELASZ
  | android_relocs_ => DT_ANDROID_RELA | android_relocs_size_ => DT_ANDROID_RELASZ | relr_ => DT_RELR | relr_count_ => DT_RELRSZ
  | init_func_ => DT_INIT | fini_func_ => DT_FINI | init_array_ => DT_INIT_ARRAY | init_array_count_ => DT_INIT_ARRAYSZ | fini_array_ => DT_FINI_ARRAY | fini_array_count_ => DT_FINI_ARRAYSZ
  | preinit_array_ => DT_PREINIT_ARRAY | preinit_array_count_ => DT_PREINIT_ARRAYSZ | has_DT_SYMBOLIC => DT_SYMBOLIC | in_GLOBAL | in_NODELETE | dt_flags_1_ => DT_FLAGS_1
  | versym_ => DT_VERSYM | verdef_ptr_ => DT_VERDEF | verdef_cnt_ => DT_VERDEFNUM | verneed_ptr_ => DT_VERNEED | verneed_cnt_ => DT_VERNEEDNUM
  | needed_count => DT_NEEDED | soname_ => DT_SONAME | dt_runpath_ => DT_RUNPATH | in_PRELINKED => DT_NULL
  end.
Definition owned (t : Z) (u : member * Z) : Prop := owner (fst u) = t /\ fst u <> has_DT_SYMBOLIC \/ u = (has_DT_SYMBOLIC, 1).
Ltac run_load H := match type of H with (?t ≫= _) = _ => destruct t; cbn [mbind outcome_bind] in H; [|done..] end.
Lemma entry_owned load_bias m d us : dyn_entry load_bias m d = Ret (Some us) -> Forall (owned (d_tag d)) us.
Proof.
  unfold dyn_entry. destruct (decide (d_tag d = DT_HASH)) as [->|_].
  { intros H. do 2 run_load H. injection H as <-. repeat (apply Forall_cons_2; [by left; split|]). constructor. }
  destruct (decide (d_tag d = DT_GNU_HASH)) as [->|_].
  { intros H. do 4 run_load H. destruct (powerof2 _); [|done]. injection H as <-. repeat (apply Forall_cons_2; [by left; split|]). constructor. }
  intros [= H]. revert H. unfold table_entry, other_entry. repeat (destruct (decide (d_tag d = _)) as [->|_]; [repeat (destruct (decide _)); try done; intros [= <-]; repeat (apply Forall_cons_2; [first [by left; split|by right]|]); constructor|]).
  destruct (decide _); [done|]. intros [= <-]. constructor.
Qed.
(** What an entry does to a library, once it is accepted. *)
Definition entry_step (load_bias : Z) (m : memory) (d : Dyn) (st : members) : members :=
  match dyn_entry load_bias m d with Ret (Some us) => count_needed d (assign us st) | _ => st end.
Definition accepted (load_bias : Z) (m : memory) (d : Dyn) : Prop := exists us, dyn_entry load_bias m d = Ret (Some us).
#[export] Instance entry_step_proper load_bias m d : Proper (same ==> same) (entry_step load_bias m d).
Proof. intros st st' H. unfold entry_step. destruct (dyn_entry _ _ d) as [[us|]| | |]; [by rewrite H|done..]. Qed.
(** An entry keeps a member, sets it, or counts it. *)
Inductive effect := Keep | Put (v : Z) | Count.
Definition run (e : effect) (v : Z) : Z := match e with Keep => v | Put w => w | Count => wrapu 32 (v + 1) end.
Definition allowed (t : Z) (x : member) (e : effect) : Prop :=
  match e with Keep => True | Put v => owner x = t /\ x <> has_DT_SYMBOLIC /\ t <> DT_NEEDED \/ x = has_DT_SYMBOLIC /\ v = 1 | Count => t = DT_NEEDED /\ x = needed_count end.
Lemma needed_entry load_bias m d us : dyn_entry load_bias m d = Ret (Some us) -> d_tag d = DT_NEEDED -> us = [].
Proof. intros E Hn. unfold dyn_entry, table_entry, other_entry in E. rewrite Hn in E. by injection E. Qed.
Lemma entry_effect load_bias m d x : exists e, allowed (d_tag d) x e /\ forall st, entry_step load_bias m d st x = run e (st x).
Proof.
  unfold entry_step. destruct (dyn_entry load_bias m d) as [[us|]| | |] eqn:E; [|by exists Keep..]. unfold count_needed. destruct (decide (d_tag d = DT_NEEDED)) as [Hn|Hn].
  - rewrite (needed_entry _ _ _ _ E Hn). destruct (decide (x = needed_count)) as [->|Hx]; [by exists Count|]. exists Keep. split; [done|]. intros st. unfold assign. cbn. by rewrite decide_False.
  - apply entry_owned in E. unfold assign. destruct (list_find _ us) as [[i u]|] eqn:Ef; [|by exists Keep]. apply list_find_Some in Ef as (Hi & Hu & _). exists (Put (snd u)). split; [|done].
    destruct (Forall_lookup_1 _ _ _ _ E Hi) as [[Ho Hs]| ->]; [left|right]; subst x; done.
Qed.
(** Entries with different tags, and entries that are counted, do the same in either order. *)
Definition once (d d' : Dyn) : Prop := d_tag d = d_tag d' -> d_tag d = DT_NEEDED.
Lemma entries_commute load_bias m d d' st : once d d' -> same (entry_step load_bias m d (entry_step load_bias m d' st)) (entry_step load_bias m d' (entry_step load_bias m d st)).
Proof.
  intros Ho x. destruct (entry_effect load_bias m d x) as (e & He & Hd). destruct (entry_effect load_bias m d' x) as (e' & He' & Hd'). rewrite !Hd, !Hd', Hd.
  unfold once in Ho. destruct e, e'; cbn [run allowed] in *; try done.
  - destruct He as [(H1 & H2 & H3)|[H1 ->]], He' as [(H1' & H2' & H3')|[H1' ->]]; try done. destruct H3. apply Ho. congruence.
  - destruct He as [(H1 & H2 & H3)|[H1 ->]], He' as [H1' H2']; subst x; done.
  - destruct He' as [(H1 & H2 & H3)|[H1 ->]], He as [H1' H2']; subst x; done.
Qed.
Lemma first_pass_steps load_bias m es : forall st, match first_pass load_bias m es st with Ret (Some st') => Forall (accepted load_bias m) es /\ st' = foldl (fun st d => entry_step load_bias m d st) st es | _ => ~ Forall (accepted load_bias m) es end.
Proof.
  induction es as [|d es IH]; intros st; [done|]. cbn [first_pass foldl]. unfold entry_step at 2.
  destruct (dyn_entry load_bias m d) as [[us|]| | |] eqn:E; cbn [mbind outcome_bind]; try (intros [[us' E'] _]%Forall_cons_1; congruence).
  specialize (IH (count_needed d (assign us st))). destruct (first_pass load_bias m es _) as [[st'|]| | |]; [|intros [_ H]%Forall_cons_1; by apply IH..].
  destruct IH as [H1 H2]. split; [|done]. constructor; [by eexists|done].
Qed.
(** The tags that may come once. *)
Definition single_tags (es : list Dyn) : list Z := filter (fun t => t <> DT_NEEDED) (d_tag <$> es).
Lemma single_once d d' es : NoDup (single_tags (d :: d' :: es)) -> once d d'.
Proof.
  unfold single_tags, once. rewrite !fmap_cons, !filter_cons. intros Hn E. destruct (decide (d_tag d <> DT_NEEDED)) as [H|H]; [|by destruct (decide (d_tag d = DT_NEEDED))].
  rewrite (decide_True (P := d_tag d' <> DT_NEEDED)) in Hn by congruence. apply list.NoDup_cons in Hn as [Hn _]. exfalso. apply Hn. rewrite E. left.
Qed.
Lemma single_tail d es : NoDup (single_tags (d :: es)) -> NoDup (single_tags es).
Proof. unfold single_tags. rewrite fmap_cons, filter_cons. destruct (decide _); [|done]. by intros [_ H]%list.NoDup_cons. Qed.
Lemma single_perm es es' : es ≡ₚ es' -> NoDup (single_tags es) -> NoDup (single_tags es').
Proof. intros Hp. unfold single_tags. by rewrite Hp. Qed.
(** Steps that commute for entries with different tags give the same in any order. *)
Lemma fold_any_order (step : Dyn -> members -> members) es es' : (forall d, Proper (same ==> same) (step d)) -> (forall d d' st, once d d' -> same (step d (step d' st)) (step d' (step d st))) ->
  es ≡ₚ es' -> NoDup (single_tags es) -> forall st st', same st st' -> same (foldl (fun st d => step d st) st es) (foldl (fun st d => step d st) st' es').
Proof.
  intros Hproper Hcomm. induction 1 as [|d es es' Hp IH|d d' es|es1 es2 es3 H12 IH1 H23 IH2]; intros Hn st st' Hs; cbn [foldl].
  - done.
  - apply IH; [by eapply single_tail|]. by apply Hproper.
  - revert st st' Hs. assert (forall l st st', same st st' -> same (foldl (fun st d => step d st) st l) (foldl (fun st d => step d st) st' l)) as Hl.
    { induction l as [|e l IHl]; intros s1 s2 H12; [done|]. cbn [foldl]. apply IHl. by apply Hproper. }
    intros st st' Hs. apply Hl. etransitivity; [apply Hcomm|by repeat apply Hproper]. apply (single_once _ _ es). eapply single_perm; [apply perm_swap|exact Hn].
  - etransitivity; [by apply (IH1 Hn st st)|]. apply IH2; [by eapply single_perm|done].
Qed.
(** The second pass does not change where the strings are. *)
Definition string_step (base : Z) (d : Dyn) (st : members) : members :=
  if decide (d_tag d = DT_SONAME) then assign [(soname_, wrapu 64 (base + wrapu 32 (d_val d)))] st
  else if decide (d_tag d = DT_RUNPATH) then assign [(dt_runpath_, wrapu 64 (base + wrapu 32 (d_val d)))] st
  else st.
Definition string_ok (size : Z) (d : Dyn) : Prop := d_tag d = DT_SONAME \/ d_tag d = DT_RUNPATH -> wrapu 32 (d_val d) < size.
#[export] Instance string_step_proper base d : Proper (same ==> same) (string_step base d).
Proof. intros st st' H. unfold string_step. repeat destruct (decide _); by rewrite ?H. Qed.
Lemma string_step_other base d st x : x <> soname_ -> x <> dt_runpath_ -> string_step base d st x = st x.
Proof. intros H1 H2. unfold string_step, assign. repeat destruct (decide _); cbn; try rewrite decide_False by done; done. Qed.
Lemma strings_commute base d d' st : once d d' -> same (string_step base d (string_step base d' st)) (string_step base d' (string_step base d st)).
Proof.
  intros Ho x. unfold once in Ho. unfold string_step, assign.
  destruct (decide (d_tag d = DT_SONAME)) as [E1|]; destruct (decide (d_tag d' = DT_SONAME)) as [E2|].
  all: try (exfalso; rewrite E1, E2 in Ho; by specialize (Ho eq_refl)).
  all: destruct (decide (d_tag d = DT_RUNPATH)) as [E3|]; destruct (decide (d_tag d' = DT_RUNPATH)) as [E4|]; try done.
  all: try (exfalso; rewrite E3, E4 in Ho; by specialize (Ho eq_refl)).
  all: cbn; repeat destruct (decide _); congruence.
Qed.
Lemma second_pass_steps es : forall st, match second_pass es st with
  | Ret st' => Forall (string_ok (st strtab_size_)) es /\ st' = foldl (fun s d => string_step (st strtab) d s) st es
  | _ => ~ Forall (string_ok (st strtab_size_)) es end.
Proof.
  induction es as [|d es IH]; intros st; [done|]. cbn [second_pass foldl].
  assert ((if decide (d_tag d = DT_SONAME) then s ← get_string_ptr st (d_val d); Ret (assign [(soname_, s)] st)
            else if decide (d_tag d = DT_RUNPATH) then s ← get_string_ptr st (d_val d); Ret (assign [(dt_runpath_, s)] st) else Ret st) =
    (if decide ((d_tag d = DT_SONAME \/ d_tag d = DT_RUNPATH) /\ st strtab_size_ <= wrapu 32 (d_val d)) then Throw (runtime_error "strtab out of bounds error") else Ret (string_step (st strtab) d st))) as ->.
  { unfold get_string_ptr, string_step. destruct (decide (d_tag d = DT_SONAME)) as [E1|E1], (decide (d_tag d = DT_RUNPATH)) as [E2|E2]; destruct (decide (st strtab_size_ <= wrapu 32 (d_val d))); cbn [mbind outcome_bind];
      first [rewrite decide_True by tauto; done|rewrite decide_False by tauto; done]. }
  destruct (decide _) as [[Ht Hs]|Hn]; cbn [mbind outcome_bind].
  - intros [Hd _]%Forall_cons_1. specialize (Hd Ht). lia.
  - specialize (IH (string_step (st strtab) d st)). rewrite !string_step_other in IH by done. destruct (second_pass es _) as [st'| | |]; [|intros [_ H]%Forall_cons_1; by apply IH..].
    destruct IH as [H1 H2]. split; [|done]. constructor; [|done]. intros Ht. destruct (decide (st strtab_size_ <= wrapu 32 (d_val d))); [tauto|lia].
Qed.
Lemma sane_proper is_linker st st' : same st st' -> sane is_linker st = sane is_linker st'.
Proof. intros H. unfold sane. by rewrite !H. Qed.
(** C28. The dynamic section may be in any order.  The comment in the code relies on the format for this;
    it holds because every tag sets members of its own, except that two tags set the same flag to the
    same value, and because names are looked up only after the table of strings is known. *)
Theorem dynamic_any_order (load_bias : Z) (m : memory) (is_linker is_somain : bool) (target_sdk basename : Z) (es es' : list Dyn) (st r : members) :
  es ≡ₚ es' -> NoDup (single_tags es) -> prelink_entries load_bias m is_linker is_somain target_sdk basename es st = Ret (Some r) ->
  exists r', prelink_entries load_bias m is_linker is_somain target_sdk basename es' st = Ret (Some r') /\ same r r'.
Proof.
  intros Hp Hn. unfold prelink_entries. pose proof (first_pass_steps load_bias m es st) as H1. pose proof (first_pass_steps load_bias m es' st) as H1'.
  destruct (first_pass load_bias m es st) as [[s1|]| | |]; cbn [mbind outcome_bind]; try done. destruct H1 as [Hacc ->]. rewrite Hp in Hacc.
  destruct (first_pass load_bias m es' st) as [[s1'|]| | |]; cbn [mbind outcome_bind]; try done. destruct H1' as [_ ->].
  pose proof (fold_any_order (entry_step load_bias m) es es' _ (entries_commute load_bias m) Hp Hn st st ltac:(reflexivity)) as Hs. set (s1 := foldl _ st es) in *. set (s1' := foldl _ st es') in *.
  rewrite (sane_proper is_linker s1 s1' Hs). destruct (sane is_linker s1'); [|done].
  pose proof (second_pass_steps es s1) as H2. pose proof (second_pass_steps es' s1') as H2'. destruct (second_pass es s1) as [s2| | |]; cbn [mbind outcome_bind]; try done. destruct H2 as [Hok ->]. rewrite Hp, (Hs strtab_size_) in Hok.
  destruct (second_pass es' s1') as [s2'| | |]; cbn [mbind outcome_bind]; try done. destruct H2' as [_ ->]. rewrite (Hs strtab).
  pose proof (fold_any_order (string_step (s1' strtab)) es es' _ (strings_commute (s1' strtab)) Hp Hn s1 s1' Hs) as Hs2. set (s2 := foldl _ s1 es) in *. set (s2' := foldl _ s1' es') in *. rewrite (Hs2 soname_).
  set (t := if decide _ then assign [(soname_, basename)] s2 else s2). set (t' := if decide _ then assign [(soname_, basename)] s2' else s2').
  assert (same t t') as Ht by (unfold t, t'; destruct (decide _); [by apply assign_proper|done]). rewrite (Ht verdef_ptr_), (Ht verdef_cnt_).
  destruct (if decide _ then Ret true else _) as [[]| | |]; cbn [mbind outcome_bind]; try done. intros [= <-]. eexists. split; [done|]. by apply assign_proper.
Qed.

(** ** The section of the file is the section in memory *)
Lemma read_bytes_at l : forall a (m : memory), (forall i x, l !! i = Some x -> m (a + Z.of_nat i) = Some x) -> read_bytes (length l) a m = Ret l.
Proof.
  induction l as [|b l IH]; intros a m Hm; [done|]. cbn [read_bytes length]. pose proof (Hm 0%nat b eq_refl) as H0. rewrite Z.add_0_r in H0. rewrite H0. rewrite (IH (a + 1)); [done|].
  intros i x Hi. rewrite <- (Hm (S i) x Hi). f_equal. lia.
Qed.
Lemma parse_array_lookup {A} (parse : list Z -> A) k n : forall l i, (i < n)%nat -> parse_array parse k n l !! i = Some (parse (take k (drop (i * k) l))).
Proof.
  induction n as [|n IH]; intros l i Hi; [lia|]. cbn [parse_array]. destruct i as [|i]; [done|]. cbn [lookup list_lookup]. rewrite IH by lia. by rewrite drop_drop.
Qed.
Section InMemory.
Context (file : list Z) (file_offset : Z).
Hypothesis offset_nonneg : 0 <= file_offset.
(** The memory has [size] bytes of the library, which are at [offset] of the file, at [a]. *)
Definition at_address (m : memory) (a offset size : Z) : Prop :=
  0 <= offset /\ 0 <= size /\ file_offset + offset + size <= Z.of_nat (length file) /\ forall i, 0 <= i < size -> m (a + i) = file !! Z.to_nat (file_offset + offset + i).
Lemma bytes_in_memory m a offset size i n : at_address m a offset size -> (i + n <= Z.to_nat size)%nat ->
  let l := take n (drop i (part file file_offset offset size)) in length l = n /\ forall j x, l !! j = Some x -> m (a + Z.of_nat i + Z.of_nat j) = Some x.
Proof.
  intros (Ho & Hs & Hin & Hm) Hn. cbv zeta. unfold part. split; [rewrite length_take, length_drop, length_take, length_drop; lia|]. intros j x Hj. pose proof (lookup_lt_Some _ _ _ Hj) as Hlt. rewrite length_take in Hlt.
  rewrite lookup_take_lt, lookup_drop, lookup_take_lt, lookup_drop in Hj by lia. replace (a + Z.of_nat i + Z.of_nat j) with (a + (Z.of_nat i + Z.of_nat j)) by lia. rewrite Hm by lia. rewrite <- Hj. f_equal. lia.
Qed.
Lemma read_in_memory m a offset size i n : at_address m a offset size -> (i + n <= Z.to_nat size)%nat -> read_bytes n (a + Z.of_nat i) m = Ret (take n (drop i (part file file_offset offset size))).
Proof. intros H Hn. destruct (bytes_in_memory m a offset size i n H Hn) as [Hl Hb]. rewrite <- Hl at 1. by apply read_bytes_at. Qed.
Lemma load_in_memory m a offset size i n : at_address m a offset size -> (i + n <= Z.to_nat size)%nat -> load n (a + Z.of_nat i) m = Ret (le_field (part file file_offset offset size) i n).
Proof. intros H Hn. destruct (bytes_in_memory m a offset size i n H Hn) as [Hl Hb]. rewrite <- Hl at 1. by apply load_le. Qed.
(** Where a segment is, its part of the file is. *)
Lemma segment_at m a p offset size : wf_segment file file_offset p -> holds file file_offset m a p -> 0 <= p_offset p <= offset -> 0 <= size -> offset + size <= p_offset p + p_filesz p -> at_address m (a + (offset - p_offset p)) offset size.
Proof.
  intros (_ & _ & _ & Hin) [Hh _] Ho Hs He. split_and!; [lia|lia|lia|]. intros i Hi. replace (a + (offset - p_offset p) + i) with (a + (offset - p_offset p + i)) by lia. rewrite Hh by lia. do 2 f_equal. lia.
Qed.
Lemma dynamic_read_back m a offset size es d rest fuel : at_address m a offset size -> parse_array parse_Dyn 16 (Z.to_nat (size / 16)) (part file file_offset offset size) = es ++ d :: rest ->
  d_tag d = DT_NULL -> Forall (fun d => d_tag d <> DT_NULL) es -> (length es < fuel)%nat -> read_dynamic fuel a m = Ret es.
Proof.
  intros Hat Ht Hd Hes Hf. pose proof Hat as (_ & Hs & _ & _). assert (forall k e, (es ++ d :: rest) !! k = Some e -> load 8 (a + 16 * Z.of_nat k) m = Ret (d_tag e) /\ load 8 (a + 16 * Z.of_nat k + 8) m = Ret (d_val e)) as Hk.
  { intros k e Hk. rewrite <- Ht in Hk. pose proof (lookup_lt_Some _ _ _ Hk) as Hlt. rewrite parse_array_length in Hlt. rewrite parse_array_lookup in Hk by done. injection Hk as <-. cbn [parse_Dyn d_tag d_val].
    assert (forall o n, (o + n <= 16)%nat -> le_field (take 16 (drop (k * 16) (part file file_offset offset size))) o n = le_field (part file file_offset offset size) (k * 16 + o) n) as Hfield.
    { intros o n Hon. unfold le_field. rewrite skipn_firstn_comm, drop_drop, take_take. do 2 f_equal. lia. }
    assert (Z.of_nat (Z.to_nat (size / 16)) * 16 <= size) by (rewrite Z2Nat.id by (apply Z.div_pos; lia); pose proof (Z.mul_div_le size 16); lia).
    split; [replace (a + 16 * Z.of_nat k) with (a + Z.of_nat (k * 16 + 0)) by lia|replace (a + 16 * Z.of_nat k + 8) with (a + Z.of_nat (k * 16 + 8)) by lia]; rewrite (load_in_memory m a offset size) by (done || lia); f_equal; symmetry; apply Hfield; lia. }
  clear Ht Hat. revert a fuel Hf Hk. induction es as [|e es IH]; intros a fuel Hf Hk; (destruct fuel as [|fuel]; [cbn in Hf; lia|]); cbn [read_dynamic].
  - destruct (Hk 0%nat d eq_refl) as [H1 _]. rewrite Z.mul_0_r, Z.add_0_r in H1. rewrite H1. cbn [mbind outcome_bind]. by rewrite decide_True.
  - apply Forall_cons_1 in Hes as [He Hes]. destruct (Hk 0%nat e eq_refl) as [H1 H2]. rewrite Z.mul_0_r, Z.add_0_r in H1, H2. rewrite H1. cbn [mbind outcome_bind]. rewrite decide_False by done. rewrite H2. cbn [mbind outcome_bind].
    rewrite (IH Hes (a + 16)); [by destruct e|cbn in Hf; lia|]. intros k e' Hk'. destruct (Hk (S k) e' Hk') as [H3 H4]. split; [rewrite <- H3|rewrite <- H4]; f_equal; lia.
Qed.
Lemma section_found load_bias (m : memory) n : forall l phdr, length l = (n * 56)%nat -> (forall i x, l !! i = Some x -> m (phdr + Z.of_nat i) = Some x) ->
  get_dynamic_section load_bias n phdr m = Ret (option_map (fun r => (wrapu 64 (load_bias + p_vaddr (snd r)), p_flags (snd r))) (list_find (fun p => p_type p = PT_DYNAMIC) (parse_array parse_Phdr 56 n l))).
Proof.
  induction n as [|n IH]; intros l phdr Hl Hm; [done|]. cbn [get_dynamic_section parse_array]. assert (length (take 56 l) = 56%nat) as H56 by (rewrite length_take; lia).
  assert (read_bytes 56 phdr m = Ret (take 56 l)) as ->. { rewrite <- H56 at 1. apply read_bytes_at. intros i x Hi. apply Hm. apply lookup_take_Some in Hi. apply Hi. }
  cbn [mbind outcome_bind list_find]. destruct (decide _) as [E|E]; [done|]. rewrite (IH (drop 56 l)); [|rewrite length_drop; lia|].
  - by destruct (list_find _ (parse_array _ _ _ _)) as [[]|].
  - intros i x Hi. rewrite lookup_drop in Hi. rewrite <- (Hm _ _ Hi). f_equal. lia.
Qed.
Lemma one_dynamic p phdrs : filter (fun p => p_type p = PT_DYNAMIC) phdrs = [p] -> option_map snd (list_find (fun p => p_type p = PT_DYNAMIC) phdrs) = Some p /\ pt_dynamic phdrs = (p_offset p, p_filesz p).
Proof.
  unfold pt_dynamic. generalize (0, 0). induction phdrs as [|q phdrs IH]; intros r; [done|]. rewrite filter_cons. cbn [list_find foldl]. destruct (decide (p_type q = PT_DYNAMIC)) as [Hq|Hq].
  - intros [= -> Hn]. split; [done|]. clear -Hn. generalize (p_offset p, p_filesz p). induction phdrs as [|q phdrs IH]; intros r; [done|]. rewrite filter_cons in Hn. cbn [foldl]. destruct (decide _); [done|]. by apply IH.
  - intros Hf. destruct (IH r Hf) as [H1 H2]. split; [|done]. by destruct (list_find _ phdrs) as [[]|].
Qed.
End InMemory.
(** A segment of the file lies in a loadable one. *)
Definition inside (offset size vaddr : Z) (q : Phdr) : Prop := p_offset q <= offset /\ offset + size <= p_offset q + p_filesz q /\ vaddr = p_vaddr q + (offset - p_offset q).
Section Prelinked.
Context (file : list Z) (file_offset target_sdk : Z) (e : ElfReader) (s s' : space) (at_ : placement) (phdr : Z).
Hypothesis offset_nonneg : 0 <= file_offset.
Hypothesis read : well_read file file_offset target_sdk e.
Hypothesis program : wf_program file file_offset (phdr_table_ e).
Hypothesis loaded : image_of file file_offset (phdr_table_ e) s s' at_ phdr.
Hypothesis new_application : 26 <= target_sdk.
Lemma segment_in_memory offset size vaddr q : q ∈ loads (phdr_table_ e) -> 0 <= size -> inside offset size vaddr q ->
  at_address file file_offset (bytes_ s') (wrapu 64 (load_bias at_ + vaddr)) offset size.
Proof.
  intros Hq Hs (H1 & H2 & ->). destruct loaded as (_ & Hend & _ & Hseg & _). destruct program as (Hwf & _ & _). pose proof (Forall_at _ _ q Hseg Hq) as (Ha1 & Ha2 & Hh). destruct (Forall_at _ _ q Hwf Hq) as (Hsq & Hv & _).
  pose proof Hsq as ((Ho & Hv' & Hf & Hm & _) & Hle & _ & _). unfold is_u64, user_end in *.
  replace (wrapu 64 (load_bias at_ + (p_vaddr q + (offset - p_offset q)))) with (wrapu 64 (p_vaddr q + load_bias at_) + (offset - p_offset q)); [apply (segment_at file file_offset _ _ _ _ _ Hsq Hh); lia|].
  pose proof (wrapu_range 64 (p_vaddr q + load_bias at_) ltac:(lia)). unfold wrapu in *. rewrite <- (Z.mod_small ((p_vaddr q + load_bias at_) mod 2 ^ 64 + (offset - p_offset q)) (2 ^ 64)) by lia.
  rewrite Zplus_mod_idemp_l. f_equal. lia.
Qed.
Lemma debug_none dynamic r_debug es m : Forall (fun d => d_tag d <> DT_DEBUG) es -> debug_entries dynamic r_debug es m = Ret m.
Proof. intros H. revert dynamic. induction H as [|d es Hd _ IH]; intros a; [done|]. cbn [debug_entries]. rewrite decide_False by done. apply IH. Qed.
(** C27. What [prelink_image] finds in memory, through the loaded program headers and the segment of the
    dynamic section, are the entries that [ElfReader::Read] found in the file through the section
    headers, so the dependencies that were loaded are those of the library that is linked. *)
Theorem prelinked_as_read (p q q' : Phdr) (vaddr : Z) (es rest : list Dyn) (d : Dyn) (fuel : nat) (is_linker is_somain : bool) (basename r_debug : Z) (st : members) :
  filter (fun p => p_type p = PT_DYNAMIC) (phdr_table_ e) = [p] -> q ∈ loads (phdr_table_ e) -> inside (p_offset p) (p_filesz p) (p_vaddr p) q ->
  phdr = wrapu 64 (load_bias at_ + vaddr) -> q' ∈ loads (phdr_table_ e) -> inside (e_phoff (header_ e)) (e_phnum (header_ e) * sizeof_Phdr) vaddr q' ->
  dynamic_ e = es ++ d :: rest -> d_tag d = DT_NULL -> Forall (fun d => d_tag d <> DT_NULL /\ d_tag d <> DT_DEBUG) es -> (length es < fuel)%nat -> st in_PRELINKED = 0 ->
  prelink_image fuel (load_bias at_) phdr (length (phdr_table_ e)) is_linker is_somain target_sdk basename r_debug (bytes_ s') st =
    (r ← prelink_entries (load_bias at_) (bytes_ s') is_linker is_somain target_sdk basename es st; Ret (option_map (fun st => (st, bytes_ s')) r)).
Proof.
  intros Hp Hq Hin Hphdr Hq' Hin' Hd Hnull Hes Hfuel Hst. pose proof read as (_ & _ & Hnum & _ & Htab & Hwf & (o & n & Hfile & Hdyn & Hpt) & _). destruct (one_dynamic p _ Hp) as [Hfind Hdp].
  rewrite (Hpt new_application) in Hdp. injection Hdp as -> ->. assert (p ∈ phdr_table_ e) as Hpe by (eapply (proj1 (list_elem_of_filter _ _ p)); rewrite Hp; left). destruct (Forall_at _ _ p Hwf Hpe) as (_ & _ & Hz & _). unfold is_u64 in Hz.
  pose proof (segment_in_memory (p_offset p) (p_filesz p) (p_vaddr p) q Hq ltac:(lia) Hin) as Hd1.
  pose proof (segment_in_memory (e_phoff (header_ e)) (e_phnum (header_ e) * sizeof_Phdr) vaddr q' Hq' ltac:(unfold sizeof_Phdr; lia) Hin') as Hd2. rewrite <- Hphdr in Hd2.
  unfold prelink_image. rewrite decide_False by lia. set (size := e_phnum (header_ e) * sizeof_Phdr) in *.
  assert (get_dynamic_section (load_bias at_) (length (phdr_table_ e)) phdr (bytes_ s') = Ret (Some (wrapu 64 (load_bias at_ + p_vaddr p), p_flags p))) as ->.
  { destruct (bytes_in_memory file file_offset offset_nonneg _ _ _ _ 0 (Z.to_nat size) Hd2 ltac:(lia)) as [Hl Hb]. rewrite drop_0, take_ge in Hl, Hb by (unfold part; rewrite length_take; lia).
    assert (length (phdr_table_ e) = Z.to_nat (e_phnum (header_ e))) as Hlen by (rewrite Htab; apply parse_array_length). rewrite Hlen.
    rewrite (section_found (load_bias at_) (bytes_ s') _ (part file file_offset (e_phoff (header_ e)) size)); [|rewrite Hl; unfold size, sizeof_Phdr; lia|].
    - rewrite <- Htab. destruct (list_find _ _) as [[i r]|]; [|done]. injection Hfind as ->. done.
    - intros i x Hi. rewrite <- (Hb i x Hi). f_equal. lia. }
  cbn [mbind outcome_bind]. rewrite (dynamic_read_back file file_offset offset_nonneg _ _ _ _ es d rest fuel Hd1); [|by rewrite <- Hd, Hdyn|done|eapply Forall_impl; [|exact Hes]; by intros x []|done]. cbn [mbind outcome_bind].
  rewrite debug_none by (eapply Forall_impl; [|exact Hes]; by intros x []). by destruct (decide _).
Qed.
End Prelinked.

(** ** Bitmaps of relocations *)
(** No entry sets the members of the bitmaps: the cases of their tags are not compiled.  A library that
    has them is accepted and none of its bitmaps is applied. *)
Lemma entry_keeps_relr load_bias m d st : entry_step load_bias m d st relr_ = st relr_.
Proof.
  unfold entry_step. destruct (dyn_entry load_bias m d) as [[us|]| | |] eqn:E; [|done..]. assert (assign us st relr_ = st relr_) as Hus.
  { destruct (decide (d_tag d = DT_RELR)) as [Ht|Ht]; [unfold dyn_entry, table_entry, other_entry in E; rewrite Ht in E; injection E as <-; done|]. unfold assign. destruct (list_find _ us) as [[i u]|] eqn:Ef; [|done].
    apply list_find_Some in Ef as (Hi & Hu & _). apply entry_owned in E. destruct (Forall_lookup_1 _ _ _ _ E Hi) as [[Ho _]| ->]; [|done]. rewrite Hu in Ho. by destruct Ht. }
  unfold count_needed. destruct (decide _); [|done]. unfold assign at 1. cbn. done.
Qed.
Lemma folds_keep (step : Dyn -> members -> members) x es : (forall d st, step d st x = st x) -> forall st, foldl (fun st d => step d st) st es x = st x.
Proof. intros H. induction es as [|d es IH]; intros st; [done|]. cbn [foldl]. by rewrite IH, H. Qed.
Theorem relr_never_set (load_bias : Z) (m : memory) (is_linker is_somain : bool) (target_sdk basename : Z) (es : list Dyn) (st r : members) :
  prelink_entries load_bias m is_linker is_somain target_sdk basename es st = Ret (Some r) -> r relr_ = st relr_.
Proof.
  unfold prelink_entries. pose proof (first_pass_steps load_bias m es st) as H1. destruct (first_pass load_bias m es st) as [[s1|]| | |]; cbn [mbind outcome_bind]; try done. destruct H1 as [_ ->].
  destruct (sane _ _); [|done]. set (s1 := foldl _ st es). pose proof (second_pass_steps es s1) as H2. destruct (second_pass es s1) as [s2| | |]; cbn [mbind outcome_bind]; try done. destruct H2 as [_ ->].
  set (s2 := foldl _ s1 es). destruct (if decide _ then Ret true else _) as [[]| | |]; cbn [mbind outcome_bind]; try done. intros [= <-].
  transitivity (s2 relr_); [destruct (decide _); done|]. unfold s2, s1. rewrite (folds_keep (string_step _)) by (intros; by apply string_step_other). apply (folds_keep (entry_step load_bias m)). intros. apply entry_keeps_relr.
Qed.
(** A library with one bitmap, of the word at 64, which is left as it is in the file. *)
Definition relr_dynamic : list Dyn := [mkDyn DT_HASH 0; mkDyn DT_STRTAB 16; mkDyn DT_SYMTAB 32; mkDyn DT_RELR 56; mkDyn DT_RELRSZ 8; mkDyn DT_RELRENT 8].
Definition relr_image : memory := fun a => if decide (4096 <= a < 4224) then Some (if decide (a = 4096 \/ a = 4100) then 1 else if decide (a = 4152) then 64 else 0) else None.
Theorem relr_not_applied : exists r t, prelink_entries 4096 relr_image false false 28 0 relr_dynamic (fun _ => 0) = Ret (Some r) /\ image_tables r relr_image = Ret t /\ LinkerRelocate.relr t = None /\
  load 8 (4096 + 56) relr_image = Ret 64 /\ LinkerRelocate.relr_offsets [64] 0 = [64] /\ load 8 (4096 + 64) relr_image = Ret 0.
Proof. eexists _, _. split; [vm_compute; reflexivity|]. split; [vm_compute; reflexivity|]. done. Qed.

(** ** Examples *)
Definition plain_dynamic : list Dyn := [mkDyn DT_HASH 0; mkDyn DT_NEEDED 1; mkDyn DT_STRTAB 16; mkDyn DT_SYMTAB 32; mkDyn DT_NEEDED 2; mkDyn DT_STRSZ 16; mkDyn DT_SONAME 3].
Lemma dynamic_any_order_witness : exists r r', prelink_entries 4096 relr_image false false 28 0 plain_dynamic (fun _ => 0) = Ret (Some r) /\
  prelink_entries 4096 relr_image false false 28 0 (reverse plain_dynamic) (fun _ => 0) = Ret (Some r') /\ same r r' /\ r soname_ = 4115 /\ r needed_count = 2.
Proof.
  assert (exists r, prelink_entries 4096 relr_image false false 28 0 plain_dynamic (fun _ => 0) = Ret (Some r) /\ r soname_ = 4115 /\ r needed_count = 2) as (r & E & H1 & H2) by (eexists; split; [vm_compute; reflexivity|]; split; reflexivity).
  destruct (dynamic_any_order 4096 relr_image false false 28 0 plain_dynamic (reverse plain_dynamic) (fun _ => 0) r) as (r' & E' & Hs); [by rewrite reverse_Permutation|apply (bool_decide_unpack _); vm_compute; exact I|exact E|].
  exists r, r'. split; [exact E|]. split; [exact E'|]. split; [exact Hs|]. split; [exact H1|exact H2].
Defined.
Lemma prelinked_as_read_witness : exists at_ phdr s', load_bias at_ = 2 ^ 40 + 262144 /\
  prelink_image 6 (load_bias at_) phdr 3 false false 28 0 0 (bytes_ s') (fun _ => 0) =
    (r ← prelink_entries (load_bias at_) (bytes_ s') false false 28 0 (take 5 small_dynamic) (fun _ => 0); Ret (option_map (fun st => (st, bytes_ s')) r)).
Proof.
  destruct small_loaded as (at_ & phdr & s' & Hb & Hp & Him). exists at_, phdr, s'. split; [exact Hb|].
  apply (prelinked_as_read small_file 0 28 small_reader empty_space s' at_ phdr ltac:(lia) small_well_read small_program Him ltac:(lia)
    (mkPhdr PT_DYNAMIC (PF_R + PF_W) 232 4328 96 96) (mkPhdr PT_LOAD (PF_R + PF_W) 232 4328 96 5000) (mkPhdr PT_LOAD (PF_R + PF_X) 0 0 568 568) 64 (take 5 small_dynamic) [] (mkDyn 0 0)).
  - reflexivity.
  - right. left.
  - unfold inside. cbn. lia.
  - exact Hp.
  - left.
  - apply (bool_decide_unpack _). vm_compute. exact I.
  - reflexivity.
  - reflexivity.
  - repeat (apply Forall_cons_2; [split; discriminate|]). apply Forall_nil_2.
  - cbn. lia.
  - reflexivity.
Defined.

(** A filter of no words passes the check for powers of two, and its mask becomes the largest word. *)
Theorem empty_filter_accepted : exists us, dyn_entry 0 (fun a => if decide (0 <= a < 16) then Some 0 else None) (mkDyn DT_GNU_HASH 0) = Ret (Some us) /\ assign us (fun _ => 0) gnu_maskwords_ = 2 ^ 32 - 1.
Proof. eexists. split; reflexivity. Qed.
End LinkerDynamic.
