(* ===== verification/LinkerAlloc.v ===== *)
(** * mcpelauncher-linker: linker_block_allocator.cpp, linked_list.h

    The allocator of the linker, which cuts large pages into blocks of one size and
    keeps the free ones in a list of runs inside the blocks themselves, and the linked
    lists of the linker, whose entries come from it.  A pointer is an address, 0 for
    null.  The headers of free blocks and the entries in allocated ones are kept in two
    maps: the theorems show that no block is both.  The calls of [mmap] are a parameter. *)

From S2P Require Import Prelude.
From Stdlib Require Import ZArith Lia.
From stdpp Require Import base list gmap numbers.

Open Scope Z_scope.

Module LinkerAlloc.

(** [abort()]. *)
Inductive aborted := Abort.
Notation result A := (outcome aborted A).

(** ** linker_block_allocator.cpp *)

Definition kAllocateSize : Z := 4096 * 100.
(** The offset of [bytes] in [LinkerBlockAllocatorPage], and its size. *)
Definition bytes_offset : Z := 16.
Definition bytes_size : Z := kAllocateSize - 16.
Definition round_up (size multiplier : Z) : Z := Z.land (wrapu 64 (size + (multiplier - 1))) (wrapu 64 (Z.lnot (multiplier - 1))).

(** [infos] holds the headers [FreeBlockInfo]: the next block and the number of free blocks. *)
Record LinkerBlockAllocator := mkAllocator {
  block_size_ : Z;
  page_list_ : list Z;
  free_block_list_ : Z;
  allocated_ : Z;
  infos : gmap Z (Z * Z)
}.
Definition new_allocator (block_size : Z) : LinkerBlockAllocator :=
  mkAllocator (round_up (if decide (block_size < 16) then 16 else block_size) 16) [] 0 0 ∅.

Section allocator.
(** The address of a new mapping, given those in use; [None] is [MAP_FAILED]. *)
Context (mmap : list Z -> option Z).

Definition create_new_page (a : LinkerBlockAllocator) : result LinkerBlockAllocator :=
  match mmap a.(page_list_) with
  | None => Throw Abort
  | Some page =>
      let first_block := page + bytes_offset in
      Ret (mkAllocator a.(block_size_) (page :: a.(page_list_)) first_block a.(allocated_)
             (<[first_block := (a.(free_block_list_), bytes_size / a.(block_size_))]> a.(infos)))
  end.

(** The block is cleared, its header with it. *)
Definition block_alloc (a : LinkerBlockAllocator) : result (Z * LinkerBlockAllocator) :=
  a ← (if decide (a.(free_block_list_) = 0) then create_new_page a else Ret a);
  let block := a.(free_block_list_) in
  match a.(infos) !! block with
  | None => Undef
  | Some (next_block, num_free_blocks) =>
      let next_info := block + a.(block_size_) in
      let '(free, i) := if decide (1 < num_free_blocks) then (next_info, <[next_info := (next_block, num_free_blocks - 1)]> a.(infos))
                        else (next_block, a.(infos)) in
      Ret (block, mkAllocator a.(block_size_) a.(page_list_) free (wrapu 64 (a.(allocated_) + 1)) (delete block i))
  end.

Definition find_page (a : LinkerBlockAllocator) (block : Z) : result Z :=
  match list_find (fun page => page + 8 <= block < page + kAllocateSize) a.(page_list_) with
  | Some (_, page) => Ret page
  | None => Throw Abort
  end.
Definition block_free (block : Z) (a : LinkerBlockAllocator) : result LinkerBlockAllocator :=
  if decide (block = 0) then Ret a
  else
    page ← find_page a block;
    if decide (wrapu 64 (block - (page + bytes_offset)) mod a.(block_size_) = 0) then
      Ret (mkAllocator a.(block_size_) a.(page_list_) block (wrapu 64 (a.(allocated_) - 1)) (<[block := (a.(free_block_list_), 1)]> a.(infos)))
    else Throw Abort.
(** The mappings given back, and the allocator without them. *)
Definition purge (a : LinkerBlockAllocator) : list Z * LinkerBlockAllocator :=
  if decide (a.(allocated_) = 0) then (a.(page_list_), mkAllocator a.(block_size_) [] 0 0 ∅) else ([], a).

(** ** The blocks *)

Definition run_blocks (bs : Z) (run : Z * Z) : list Z := (fun k => run.1 + k * bs) <$> seqZ 0 run.2.
Definition page_blocks (bs page : Z) : list Z := run_blocks bs (page + bytes_offset, bytes_size / bs).

(** The list of runs from a free block on. *)
Fixpoint chain (i : gmap Z (Z * Z)) (p : Z) (runs : list (Z * Z)) : Prop :=
  match runs with
  | [] => p = 0
  | (x, n) :: runs => p = x /\ 1 <= n /\ exists q, i !! x = Some (q, n) /\ chain i q runs
  end.

Definition apart (p q : Z) : Prop := p + kAllocateSize <= q \/ q + kAllocateSize <= p.
(** The kernel may refuse a mapping. *)
Definition memory_ends : Prop := exists ps, mmap ps = None.
(** What is known of [mmap]: a new mapping is at a page in user space, and touches no other. *)
Definition maps_apart : Prop := forall ps p, mmap ps = Some p -> 0 < p /\ p mod 4096 = 0 /\ p + kAllocateSize <= 2 ^ 47 /\ Forall (apart p) ps.

(** The allocator has given out the blocks [L]: they and the free ones are the blocks of its pages. *)
Record owns (a : LinkerBlockAllocator) (L : list Z) : Prop := {
  owns_size : 16 <= a.(block_size_) <= bytes_size /\ a.(block_size_) mod 16 = 0;
  owns_pages : Forall (fun p => 0 < p /\ p mod 4096 = 0 /\ p + kAllocateSize <= 2 ^ 47) a.(page_list_) /\ ForallOrdPairs apart a.(page_list_);
  owns_runs : exists runs, chain a.(infos) a.(free_block_list_) runs /\ (runs ≫= run_blocks a.(block_size_)) ++ L ≡ₚ a.(page_list_) ≫= page_blocks a.(block_size_);
  owns_count : a.(allocated_) = wrapu 64 (Z.of_nat (length L))
}.

Lemma run_cons bs x n : 1 <= n -> run_blocks bs (x, n) = x :: run_blocks bs (x + bs, n - 1).
Proof.
  intros Hn. unfold run_blocks. cbn [fst snd]. rewrite (seqZ_cons 0 n) by lia. rewrite fmap_cons. f_equal; [lia|]. change (Z.succ 0) with (1 + 0). rewrite <- (fmap_add_seqZ 1 0), <- list_fmap_compose. replace (Z.pred n) with (n - 1) by lia. apply list_fmap_ext. intros i k _. cbn. lia.
Qed.
Lemma run_elem bs x n y : y ∈ run_blocks bs (x, n) <-> exists k, y = x + k * bs /\ 0 <= k < n.
Proof. unfold run_blocks. rewrite list_elem_of_fmap. setoid_rewrite elem_of_seqZ. cbn. split; intros (k & ? & ?); exists k; split; lia || done. Qed.
Lemma run_NoDup bs x n : 0 < bs -> NoDup (run_blocks bs (x, n)).
Proof. intros Hbs. unfold run_blocks. apply NoDup_fmap_2_strong; [|apply NoDup_seqZ]. intros i j _ _ H. cbn in H. nia. Qed.
(** A block lies inside its page. *)
Lemma page_block_bounds bs p y : 16 <= bs -> y ∈ page_blocks bs p -> exists k, y = p + 16 + k * bs /\ 0 <= k /\ p + 16 <= y /\ y + bs <= p + kAllocateSize.
Proof.
  intros Hbs (k & -> & Hk)%run_elem. exists k. unfold bytes_offset in *. split; [lia|]. split; [lia|]. assert (k * bs + bs <= bytes_size); [|unfold bytes_size in *; nia]. pose proof (Z.mul_div_le bytes_size bs ltac:(lia)). nia.
Qed.
Lemma blocks_NoDup bs ps : 16 <= bs -> ForallOrdPairs apart ps -> NoDup (ps ≫= page_blocks bs).
Proof.
  intros Hbs. induction 1 as [|p ps Hp _ IH]; [constructor|]. change ((p :: ps) ≫= page_blocks bs) with (page_blocks bs p ++ (ps ≫= page_blocks bs)). apply list.NoDup_app. split; [apply run_NoDup; lia|]. split; [|done].
  intros y Hy (q & Hq & Hin)%list_elem_of_bind. destruct (page_block_bounds bs p y Hbs Hy) as (_ & _ & _ & ? & ?). destruct (page_block_bounds bs q y Hbs Hq) as (_ & _ & _ & ? & ?). pose proof (proj1 (list.Forall_forall _ _) Hp q Hin) as [?|?]; lia.
Qed.
(** A chain is kept where none of its heads is written. *)
Lemma chain_kept i i' runs : forall p, chain i p runs -> (forall x, x ∈ runs.*1 -> i' !! x = i !! x) -> chain i' p runs.
Proof.
  induction runs as [|[x n] runs IH]; intros p H Hi; [done|]. cbn [chain] in *. destruct H as (-> & Hn & q & Hq & H). split; [done|]. split; [done|]. exists q. split; [rewrite Hi by left; done|]. apply IH; [done|]. intros y Hy. apply Hi. by right.
Qed.
Lemma heads_in bs i p runs : chain i p runs -> forall x, x ∈ runs.*1 -> x ∈ runs ≫= run_blocks bs.
Proof.
  revert p. induction runs as [|[x n] runs IH]; intros p H y Hy; [by apply elem_of_nil in Hy|]. destruct H as (-> & Hn & q & _ & H). change (((x, n) :: runs) ≫= run_blocks bs) with (run_blocks bs (x, n) ++ (runs ≫= run_blocks bs)). apply elem_of_app. cbn in Hy. apply elem_of_cons in Hy as [->|Hy]; [left; rewrite run_cons by done; left|right; by eapply IH].
Qed.

Section steps.
Context (a : LinkerBlockAllocator) (L : list Z) (Hown : owns a L).

Lemma owned_NoDup runs : (runs ≫= run_blocks a.(block_size_)) ++ L ≡ₚ a.(page_list_) ≫= page_blocks a.(block_size_) -> NoDup ((runs ≫= run_blocks a.(block_size_)) ++ L).
Proof. intros ->. apply blocks_NoDup; [|apply Hown]. pose proof (owns_size _ _ Hown). lia. Qed.
Lemma block_positive x runs : (runs ≫= run_blocks a.(block_size_)) ++ L ≡ₚ a.(page_list_) ≫= page_blocks a.(block_size_) -> x ∈ (runs ≫= run_blocks a.(block_size_)) ++ L -> 0 < x.
Proof.
  intros Hperm Hx. rewrite Hperm in Hx. apply list_elem_of_bind in Hx as (p & Hp & Hin). destruct (page_block_bounds _ _ _ (proj1 (proj1 (owns_size _ _ Hown))) Hp) as (_ & _ & _ & ? & _). pose proof (proj1 (list.Forall_forall _ _) (proj1 (owns_pages _ _ Hown)) p Hin). cbn in *. lia.
Qed.
Lemma new_page_ok : maps_apart -> create_new_page a = Throw Abort /\ memory_ends \/ exists a', create_new_page a = Ret a' /\ owns a' L /\ a'.(free_block_list_) ≠ 0.
Proof.
  intros Hmap. unfold create_new_page. destruct (mmap a.(page_list_)) as [p|] eqn:E; [right|left; split; [done|by eexists]]. destruct (Hmap _ _ E) as (Hp & Hal & Hend & Hap). eexists. split; [done|]. split; [|cbn; unfold bytes_offset; lia].
  destruct Hown as [Hsz [Hpg Hpairs] (runs & Hch & Hperm) Hcnt]. split; cbn [block_size_ page_list_ free_block_list_ allocated_ infos]; [done| | |done].
  - split; [by constructor|by constructor].
  - exists ((p + bytes_offset, bytes_size / a.(block_size_)) :: runs). split.
    + split; [done|]. split; [apply Z.div_le_lower_bound; lia|]. exists a.(free_block_list_). split; [by rewrite lookup_insert_eq|]. eapply chain_kept; [exact Hch|]. intros x Hx. rewrite lookup_insert_ne; [done|]. intros <-.
      assert (p + bytes_offset ∈ a.(page_list_) ≫= page_blocks a.(block_size_)) as Hin by (rewrite <- Hperm; apply elem_of_app; left; by eapply heads_in). apply list_elem_of_bind in Hin as (q & Hq & Hin). destruct (page_block_bounds _ _ _ (proj1 (proj1 Hsz)) Hq) as (_ & _ & _ & ? & ?). pose proof (proj1 (list.Forall_forall _ _) Hap q Hin) as [?|?]; unfold bytes_offset, kAllocateSize in *; lia.
    + change (((p + bytes_offset, bytes_size / a.(block_size_)) :: runs) ≫= run_blocks a.(block_size_)) with (page_blocks a.(block_size_) p ++ (runs ≫= run_blocks a.(block_size_))). change ((p :: a.(page_list_)) ≫= page_blocks a.(block_size_)) with (page_blocks a.(block_size_) p ++ (a.(page_list_) ≫= page_blocks a.(block_size_))). rewrite <- app_assoc. by rewrite Hperm.
Qed.

Lemma take_block_ok : a.(free_block_list_) ≠ 0 -> exists q n, a.(infos) !! a.(free_block_list_) = Some (q, n) /\ 0 < a.(free_block_list_) /\ a.(free_block_list_) ∉ L /\
  let '(free, i) := if decide (1 < n) then (a.(free_block_list_) + a.(block_size_), <[a.(free_block_list_) + a.(block_size_) := (q, n - 1)]> a.(infos)) else (q, a.(infos)) in
  owns (mkAllocator a.(block_size_) a.(page_list_) free (wrapu 64 (a.(allocated_) + 1)) (delete a.(free_block_list_) i)) (a.(free_block_list_) :: L).
Proof.
  intros Hfree. pose proof Hown as [Hsz Hpg (runs & Hch & Hperm) Hcnt]. destruct runs as [|[x n] runs]; [done|]. destruct Hch as (Ex & Hn & q & Hq & Hch). pose proof (owned_NoDup _ Hperm) as Hnd. pose proof (block_positive x _ Hperm) as Hpos.
  change (((x, n) :: runs) ≫= run_blocks a.(block_size_)) with (run_blocks a.(block_size_) (x, n) ++ (runs ≫= run_blocks a.(block_size_))) in *. rewrite run_cons in * by done. cbn [app] in *. apply list.NoDup_cons in Hnd as [Hx Hnd]. rewrite !not_elem_of_app in Hx. destruct Hx as [[Hx1 Hx2] Hx3].
  rewrite Ex in *. exists q, n. split; [done|]. split; [apply Hpos; left|]. split; [done|]. assert (forall y, y ∈ runs.*1 -> y ≠ x) as Hne by (intros y Hy ->; by apply Hx2, (heads_in a.(block_size_) _ _ _ Hch)).
  assert (wrapu 64 (a.(allocated_) + 1) = wrapu 64 (Z.of_nat (length (x :: L)))) as Hcnt' by (rewrite Hcnt; unfold wrapu; rewrite Zplus_mod_idemp_l; cbn [length]; f_equal; lia).
  destruct (decide (1 < n)) as [H1|H1]; (split; cbn [block_size_ page_list_ free_block_list_ allocated_ infos]; [done|done| |done]).
  - exists ((x + a.(block_size_), n - 1) :: runs). split.
    + split; [done|]. split; [lia|]. exists q. split; [rewrite lookup_delete_ne by lia; by rewrite lookup_insert_eq|]. eapply chain_kept; [exact Hch|]. intros y Hy. rewrite lookup_delete_ne by (symmetry; by apply Hne). rewrite lookup_insert_ne; [done|]. intros <-.
      rewrite run_cons in Hnd by lia. apply list.NoDup_cons in Hnd as [Hnd _]. apply Hnd. rewrite !elem_of_app. left. right. by eapply heads_in.
    + change (((x + a.(block_size_), n - 1) :: runs) ≫= run_blocks a.(block_size_)) with (run_blocks a.(block_size_) (x + a.(block_size_), n - 1) ++ (runs ≫= run_blocks a.(block_size_))). rewrite <- Permutation_middle. exact Hperm.
  - exists runs. replace n with 1 in * by lia. split; [eapply chain_kept; [exact Hch|]; intros y Hy; rewrite lookup_delete_ne by (symmetry; by apply Hne); done|]. rewrite <- Permutation_middle. exact Hperm.
Qed.
Lemma find_page_ok b : b ∈ L -> exists p, find_page a b = Ret p /\ wrapu 64 (b - (p + bytes_offset)) mod a.(block_size_) = 0.
Proof.
  intros Hb. pose proof Hown as [Hsz [Hpg Hpairs] (runs & Hch & Hperm) Hcnt]. assert (b ∈ a.(page_list_) ≫= page_blocks a.(block_size_)) as Hin by (rewrite <- Hperm; apply elem_of_app; by right). apply list_elem_of_bind in Hin as (p & Hp & Hin). destruct (page_block_bounds _ _ _ (proj1 (proj1 Hsz)) Hp) as (k & Ek & Hk & Hlo & Hhi).
  assert (forall q, q ∈ a.(page_list_) -> q + 8 <= b < q + kAllocateSize -> q = p) as Huniq.
  { intros q Hq Hr. destruct (decide (q = p)) as [|Hne]; [done|]. assert (apart q p \/ apart p q) as [[?|?]|[?|?]] by (destruct (ForallOrdPairs_In Hpairs q p) as [?|[?|?]]; [by apply list_elem_of_In|by apply list_elem_of_In|done|by left|by right]); lia. }
  unfold find_page. destruct (list_find _ a.(page_list_)) as [[j q]|] eqn:Ef.
  - apply list_find_Some in Ef as (Hj & Hr & _). apply list_elem_of_lookup_2 in Hj. rewrite (Huniq q Hj Hr). exists p. split; [done|]. pose proof (proj1 (list.Forall_forall _ _) Hpg p Hin) as (? & ? & ?). unfold bytes_offset. rewrite wrapu_small by (unfold kAllocateSize in *; lia). rewrite Ek. replace (p + 16 + k * a.(block_size_) - (p + 16)) with (k * a.(block_size_)) by lia. apply Z.mod_mul. lia.
  - apply list_find_None in Ef. pose proof (proj1 (list.Forall_forall _ _) Ef p Hin) as Hn. cbn in Hn. exfalso. apply Hn. lia.
Qed.
End steps.

Lemma owns_perm a L L' : L ≡ₚ L' -> owns a L -> owns a L'.
Proof. intros HL [Hsz Hpg (runs & Hch & Hperm) Hcnt]. split; [done|done| |by rewrite Hcnt, HL]. exists runs. split; [done|]. by rewrite <- HL. Qed.

(** Allocating fails for want of memory only, and returns a block that is not in use. *)
Lemma block_alloc_ok a L : maps_apart -> owns a L -> block_alloc a = Throw Abort /\ memory_ends \/ exists b a', block_alloc a = Ret (b, a') /\ owns a' (b :: L) /\ b ∉ L /\ 0 < b.
Proof.
  intros Hmap Hown. assert (forall a, owns a L -> a.(free_block_list_) ≠ 0 -> exists b a', (match a.(infos) !! a.(free_block_list_) with None => Undef | Some (next_block, num_free_blocks) => let '(free, i) := if decide (1 < num_free_blocks) then (a.(free_block_list_) + a.(block_size_), <[a.(free_block_list_) + a.(block_size_) := (next_block, num_free_blocks - 1)]> a.(infos)) else (next_block, a.(infos)) in Ret (a.(free_block_list_), mkAllocator a.(block_size_) a.(page_list_) free (wrapu 64 (a.(allocated_) + 1)) (delete a.(free_block_list_) i)) end : result _) = Ret (b, a') /\ owns a' (b :: L) /\ b ∉ L /\ 0 < b) as Htake.
  { intros a0 H0 Hf. destruct (take_block_ok a0 L H0 Hf) as (q & n & -> & Hpos & Hnin & Ho). destruct (decide (1 < n)); eexists _, _; (split; [done|done]). }
  unfold block_alloc. case_decide as Hf; [|right; by apply Htake]. destruct (new_page_ok a L Hown Hmap) as [[-> ?]|(a' & -> & Ho & Hf')]; [by left|right]. by apply Htake.
Qed.
(** Freeing a block in use succeeds. *)
Lemma block_free_ok a L b : owns a (b :: L) -> 0 < b -> exists a', block_free b a = Ret a' /\ owns a' L.
Proof.
  intros Hown Hb. unfold block_free. rewrite decide_False by lia. destruct (find_page_ok a (b :: L) Hown b ltac:(left)) as (p & -> & Hmod). cbn [mbind outcome_bind]. rewrite decide_True by done. eexists. split; [done|]. pose proof Hown as [Hsz Hpg (runs & Hch & Hperm) Hcnt]. pose proof (owned_NoDup a _ Hown _ Hperm) as Hnd.
  split; cbn [block_size_ page_list_ free_block_list_ allocated_ infos]; [done|done| |].
  - exists ((b, 1) :: runs). split.
    + split; [done|]. split; [lia|]. eexists. split; [apply lookup_insert_eq|]. eapply chain_kept; [exact Hch|]. intros x Hx. rewrite lookup_insert_ne; [done|]. intros <-. apply list.NoDup_app in Hnd as (_ & Hdis & _). eapply (Hdis b); [by eapply heads_in|left].
    + change (((b, 1) :: runs) ≫= run_blocks a.(block_size_)) with (run_blocks a.(block_size_) (b, 1) ++ (runs ≫= run_blocks a.(block_size_))). rewrite run_cons by lia. change (run_blocks a.(block_size_) (b + a.(block_size_), 1 - 1)) with (@nil Z). cbn [app]. rewrite <- Hperm. apply Permutation_middle.
  - rewrite Hcnt. unfold wrapu. rewrite Zminus_mod_idemp_l. cbn [length]. f_equal. lia.
Qed.

End allocator.

(** ** What a list asks of its allocator *)

Class Allocator (S : Type) := {
  alloc : S -> result (Z * S);
  free : Z -> S -> result S;
  in_use : S -> list Z -> Prop;
  exhausted : Prop;
  alloc_fresh s L : in_use s L -> alloc s = Throw Abort /\ exhausted \/ exists b s', alloc s = Ret (b, s') /\ in_use s' (b :: L) /\ 0 < b;
  free_used s L b : in_use s (b :: L) -> exists s', free b s = Ret s' /\ in_use s' L;
  in_use_perm s L L' : L ≡ₚ L' -> in_use s L -> in_use s L';
  in_use_distinct s L : in_use s L -> NoDup L;
}.

(** The allocator of blocks is one. *)
Lemma owns_distinct a L : owns a L -> NoDup L.
Proof. intros H. pose proof H as [_ _ (runs & _ & Hperm) _]. by apply (owned_NoDup a L H runs), list.NoDup_app in Hperm as (_ & _ & ?). Qed.
Lemma owns_positive a L b : owns a L -> b ∈ L -> 0 < b.
Proof. intros H Hb. pose proof H as [_ _ (runs & _ & Hperm) _]. apply (block_positive a L H b runs Hperm), elem_of_app. by right. Qed.
Lemma block_free_used a L b : owns a (b :: L) -> exists a', block_free b a = Ret a' /\ owns a' L.
Proof. intros H. apply block_free_ok; [done|]. apply (owns_positive a (b :: L)); [done|left]. Qed.
Lemma block_alloc_fresh mmap a L : maps_apart mmap -> owns a L -> block_alloc mmap a = Throw Abort /\ memory_ends mmap \/ exists b a', block_alloc mmap a = Ret (b, a') /\ owns a' (b :: L) /\ 0 < b.
Proof. intros Hm H. destruct (block_alloc_ok mmap a L Hm H) as [?|(b & a' & ? & ? & _ & ?)]; [by left|right; by exists b, a']. Qed.
Definition block_allocator (mmap : list Z -> option Z) (Hm : maps_apart mmap) : Allocator LinkerBlockAllocator := {|
  alloc := block_alloc mmap; free := block_free; in_use := owns; exhausted := memory_ends mmap;
  alloc_fresh s L := block_alloc_fresh mmap s L Hm; free_used := block_free_used; in_use_perm := owns_perm; in_use_distinct := owns_distinct
|}.

(** ** linked_list.h *)

Record LinkedListEntry := mkEntry { next : Z; element : Z }.
Record LinkedList := mkList { head_ : Z; tail_ : Z }.

Section lists.
Context {S : Type} `{!Allocator S}.

(** The allocator and the entries in its blocks. *)
Record world := mkWorld { store : S; entries : gmap Z LinkedListEntry }.

Definition new_entry (e : LinkedListEntry) (w : world) : result (Z * world) :=
  '(b, s) ← alloc w.(store);
  Ret (b, mkWorld s (<[b := e]> w.(entries))).
Definition free_entry (p : Z) (w : world) : result world :=
  s ← free p w.(store);
  Ret (mkWorld s (delete p w.(entries))).
Definition entry_at (p : Z) (w : world) : result LinkedListEntry := match w.(entries) !! p with Some e => Ret e | None => Undef end.
(** [p->next = q]. *)
Definition set_next (p q : Z) (w : world) : result world :=
  e ← entry_at p w;
  Ret (mkWorld w.(store) (<[p := mkEntry q e.(element)]> w.(entries))).

Definition push_front (x : Z) (l : LinkedList) (w : world) : result (LinkedList * world) :=
  '(b, w) ← new_entry (mkEntry l.(head_) x) w;
  Ret (mkList b (if decide (l.(tail_) = 0) then b else l.(tail_)), w).
Definition push_back (x : Z) (l : LinkedList) (w : world) : result (LinkedList * world) :=
  '(b, w) ← new_entry (mkEntry 0 x) w;
  if decide (l.(tail_) = 0) then Ret (mkList b b, w)
  else w ← set_next l.(tail_) b w; Ret (mkList l.(head_) b, w).
(** The element, or null. *)
Definition pop_front (l : LinkedList) (w : world) : result (Z * LinkedList * world) :=
  if decide (l.(head_) = 0) then Ret (0, l, w)
  else
    e ← entry_at l.(head_) w;
    w ← free_entry l.(head_) w;
    Ret (e.(element), mkList e.(next) (if decide (e.(next) = 0) then 0 else l.(tail_)), w).
Definition front (l : LinkedList) (w : world) : result Z :=
  if decide (l.(head_) = 0) then Ret 0 else e ← entry_at l.(head_) w; Ret e.(element).
Fixpoint clear_from (fuel : nat) (p : Z) (w : world) : result world :=
  match fuel with
  | O => Diverge
  | Datatypes.S fuel =>
      if decide (p = 0) then Ret w
      else
        e ← entry_at p w;
        w ← free_entry p w;
        clear_from fuel e.(next) w
  end.
Definition clear (l : LinkedList) (w : world) : result (LinkedList * world) :=
  w ← clear_from (size w.(entries) + 1) l.(head_) w;
  Ret (mkList 0 0, w).

(** The loop of [remove_if], with [e] the entry and [p] the one before it that stays. *)
Fixpoint remove_loop (fuel : nat) (predicate : Z -> bool) (e p : Z) (l : LinkedList) (w : world) : result (LinkedList * world) :=
  match fuel with
  | O => Diverge
  | Datatypes.S fuel =>
      if decide (e = 0) then Ret (l, w)
      else
        ent ← entry_at e w;
        if predicate ent.(element) then
          let next := ent.(next) in
          '(l, w) ← (if decide (p = 0) then Ret (mkList next l.(tail_), w) else w ← set_next p next w; Ret (l, w));
          let l := if decide (l.(tail_) = e) then mkList l.(head_) p else l in
          w ← free_entry e w;
          remove_loop fuel predicate next p l w
        else remove_loop fuel predicate ent.(next) e l w
  end.
Definition remove_if (predicate : Z -> bool) (l : LinkedList) (w : world) : result (LinkedList * world) :=
  remove_loop (size w.(entries) + 1) predicate l.(head_) 0 l w.
Definition remove (x : Z) (l : LinkedList) (w : world) : result (LinkedList * world) := remove_if (fun y => bool_decide (y = x)) l w.

(** [visit]: the elements the action sees, in order, until it returns [false]. *)
Fixpoint visit_from (fuel : nat) (action : Z -> bool) (e : Z) (w : world) : result (list Z * bool) :=
  match fuel with
  | O => Diverge
  | Datatypes.S fuel =>
      if decide (e = 0) then Ret ([], true)
      else
        ent ← entry_at e w;
        if action ent.(element) then
          '(xs, b) ← visit_from fuel action ent.(next) w;
          Ret (ent.(element) :: xs, b)
        else Ret ([ent.(element)], false)
  end.
Definition visit (action : Z -> bool) (l : LinkedList) (w : world) : result (list Z * bool) := visit_from (size w.(entries) + 1) action l.(head_) w.
Fixpoint find_from_entry (fuel : nat) (predicate : Z -> bool) (e : Z) (w : world) : result Z :=
  match fuel with
  | O => Diverge
  | Datatypes.S fuel =>
      if decide (e = 0) then Ret 0
      else
        ent ← entry_at e w;
        if predicate ent.(element) then Ret ent.(element) else find_from_entry fuel predicate ent.(next) w
  end.
Definition list_find_if (predicate : Z -> bool) (l : LinkedList) (w : world) : result Z := find_from_entry (size w.(entries) + 1) predicate l.(head_) w.
Fixpoint copy_from (fuel : nat) (e : Z) (room : nat) (w : world) : result (list Z) :=
  match fuel with
  | O => Diverge
  | Datatypes.S fuel =>
      match room with
      | O => Ret []
      | Datatypes.S room =>
          if decide (e = 0) then Ret []
          else ent ← entry_at e w; xs ← copy_from fuel ent.(next) room w; Ret (ent.(element) :: xs)
      end
  end.
(** The part of the array that is written; its length is the value returned. *)
Definition copy_to_array (array_length : nat) (l : LinkedList) (w : world) : result (list Z) := copy_from (size w.(entries) + 1) l.(head_) array_length w.

(** ** The entries of a list *)

(** The entries from [p] to [q]: their addresses with their elements. *)
Fixpoint segment (en : gmap Z LinkedListEntry) (p : Z) (ps : list (Z * Z)) (q : Z) : Prop :=
  match ps with
  | [] => p = q
  | (b, x) :: ps => p = b /\ 0 < b /\ exists r, en !! b = Some (mkEntry r x) /\ segment en r ps q
  end.
Definition tail_of (ps : list (Z * Z)) : Z := List.last ps.*1 0.
(** The list [l] has the entries [ps], and [F] are the other blocks in use. *)
Record listed (w : world) (l : LinkedList) (ps : list (Z * Z)) (F : list Z) : Prop := {
  listed_segment : segment w.(entries) l.(head_) ps 0;
  listed_tail : l.(tail_) = tail_of ps;
  listed_used : in_use w.(store) (ps.*1 ++ F)
}.
(** The entries of other lists are left alone. *)
Definition frame (w w' : world) (F : list Z) : Prop := forall f, f ∈ F -> w'.(entries) !! f = w.(entries) !! f.

Lemma segment_app en ks rs : forall p q, segment en p (ks ++ rs) q <-> exists r, segment en p ks r /\ segment en r rs q.
Proof.
  induction ks as [|[b x] ks IH]; intros p q; cbn [app segment]; [split; [intros H; by exists p|by intros (r & -> & ?)]|]. split.
  - intros (-> & Hb & r & Hr & (r' & ? & ?)%IH). exists r'. split; [|done]. split; [done|]. split; [done|]. by exists r.
  - intros (r' & (-> & Hb & r & Hr & ?) & ?). split; [done|]. split; [done|]. exists r. split; [done|]. apply IH. by exists r'.
Qed.
Lemma segment_kept en en' ps : forall p q, segment en p ps q -> (forall b, b ∈ ps.*1 -> en' !! b = en !! b) -> segment en' p ps q.
Proof. induction ps as [|[b x] ps IH]; intros p q H Hk; [done|]. destruct H as (-> & Hb & r & Hr & H). split; [done|]. split; [done|]. exists r. split; [rewrite Hk by left; done|]. apply IH; [done|]. intros y Hy. apply Hk. by right. Qed.
Lemma segment_relink en p ks b x q q' : segment en p (ks ++ [(b, x)]) q -> NoDup (ks ++ [(b, x)]).*1 -> segment (<[b := mkEntry q' x]> en) p (ks ++ [(b, x)]) q'.
Proof.
  rewrite !segment_app, fmap_app. intros (r & Hk & -> & Hb & _) Hnd. apply list.NoDup_app in Hnd as (_ & Hdis & _). exists b. split; [|split; [done|]; split; [done|]; exists q'; by rewrite lookup_insert_eq].
  eapply segment_kept; [exact Hk|]. intros y Hy. apply lookup_insert_ne. intros <-. apply (Hdis b Hy). left.
Qed.
Lemma segment_null en p ps : segment en p ps 0 -> p = 0 <-> ps = [].
Proof. destruct ps as [|[b x] ps]; [done|]. intros (-> & ? & _). split; [lia|done]. Qed.
Lemma tail_snoc ps b x : tail_of (ps ++ [(b, x)]) = b.
Proof. unfold tail_of. rewrite fmap_app. apply List.last_last. Qed.
Lemma tail_null en p ps q : segment en p ps q -> tail_of ps = 0 <-> ps = [].
Proof.
  intros H. destruct (rev_ind (fun ps => ps = [] \/ exists qs b x, ps = qs ++ [(b, x)]) ltac:(by left) ltac:(intros [b x] l _; right; by exists l, b, x) ps) as [->|(qs & b & x & ->)]; [done|]. rewrite tail_snoc. apply segment_app in H as (r & _ & _ & ? & _). split; [lia|]. by destruct qs.
Qed.
Lemma tail_elem ps : ps ≠ [] -> tail_of ps ∈ ps.*1.
Proof. destruct (rev_ind (fun ps => ps = [] \/ exists qs b x, ps = qs ++ [(b, x)]) ltac:(by left) ltac:(intros [b x] l _; right; by exists l, b, x) ps) as [->|(qs & b & x & ->)]; [done|]. intros _. rewrite tail_snoc, fmap_app. apply elem_of_app. right. left. Qed.
Lemma segment_size en p ps q : segment en p ps q -> NoDup ps.*1 -> (length ps <= size en)%nat.
Proof.
  intros H Hnd. assert (forall b, b ∈ ps.*1 -> b ∈ dom en) as Hin.
  { clear Hnd. revert p H. induction ps as [|[b x] ps IH]; intros p H y Hy; [by apply elem_of_nil in Hy|]. destruct H as (-> & _ & r & Hr & H). apply elem_of_cons in Hy as [->|Hy]; [apply elem_of_dom; by eexists|by eapply IH]. }
  rewrite <- size_dom. rewrite <- (length_fmap fst), <- (size_list_to_set (C := gset Z)) by done. apply subseteq_size. intros b. rewrite elem_of_list_to_set. apply Hin.
Qed.
Lemma listed_NoDup w l ps F : listed w l ps F -> NoDup (ps.*1 ++ F).
Proof. intros H. by apply (in_use_distinct (S := S)) with (s := w.(store)), H. Qed.

Lemma new_entry_ok w L e : in_use w.(store) L -> new_entry e w = Throw Abort /\ exhausted \/ exists b w', new_entry e w = Ret (b, w') /\ w'.(entries) = <[b := e]> w.(entries) /\ in_use w'.(store) (b :: L) /\ 0 < b /\ b ∉ L.
Proof.
  intros H. unfold new_entry. destruct (alloc_fresh w.(store) L H) as [[-> ?]|(b & s & -> & Hu & Hb)]; [by left|right]. eexists b, _. split; [done|]. split; [done|]. split; [done|]. split; [done|]. by apply in_use_distinct, list.NoDup_cons in Hu as [? _].
Qed.
Lemma free_entry_ok w L b : in_use w.(store) (b :: L) -> exists w', free_entry b w = Ret w' /\ w'.(entries) = delete b w.(entries) /\ in_use w'.(store) L.
Proof. intros H. unfold free_entry. destruct (free_used w.(store) L b H) as (s & -> & Hu). by eexists. Qed.
Lemma frame_insert w w' b e F : w'.(entries) = <[b := e]> w.(entries) -> b ∉ F -> frame w w' F.
Proof. intros E Hb f Hf. rewrite E. apply lookup_insert_ne. by intros ->. Qed.
Lemma frame_delete w w' b F : w'.(entries) = delete b w.(entries) -> b ∉ F -> frame w w' F.
Proof. intros E Hb f Hf. rewrite E. apply lookup_delete_ne. by intros ->. Qed.
Lemma frame_trans w1 w2 w3 F : frame w1 w2 F -> frame w2 w3 F -> frame w1 w3 F.
Proof. intros H1 H2 f Hf. by rewrite H2, H1. Qed.

Lemma push_front_ok x l w ps F : listed w l ps F -> push_front x l w = Throw Abort /\ exhausted \/ exists l' w' b, push_front x l w = Ret (l', w') /\ listed w' l' ((b, x) :: ps) F /\ frame w w' F.
Proof.
  intros [Hseg Ht Hu]. unfold push_front. destruct (new_entry_ok w _ (mkEntry l.(head_) x) Hu) as [[-> ?]|(b & w' & -> & He & Hu' & Hb & Hnin)]; [by left|right]. apply not_elem_of_app in Hnin as [Hn1 Hn2]. eexists _, w', b. split; [done|]. split; [|by eapply frame_insert].
  split; cbn [head_ tail_]; [|rewrite Ht; case_decide as Hd|done].
  - split; [done|]. split; [done|]. exists l.(head_). split; [by rewrite He, lookup_insert_eq|]. eapply segment_kept; [exact Hseg|]. intros y Hy. rewrite He. apply lookup_insert_ne. by intros ->.
  - apply (tail_null _ _ _ _ Hseg) in Hd as ->. done.
  - destruct ps; [done|]. done.
Qed.
Lemma push_back_ok x l w ps F : listed w l ps F -> push_back x l w = Throw Abort /\ exhausted \/ exists l' w' b, push_back x l w = Ret (l', w') /\ listed w' l' (ps ++ [(b, x)]) F /\ frame w w' F.
Proof.
  intros Hl. pose proof (listed_NoDup _ _ _ _ Hl) as Hnd. destruct Hl as [Hseg Ht Hu]. unfold push_back. destruct (new_entry_ok w _ (mkEntry 0 x) Hu) as [[-> ?]|(b & w' & -> & He & Hu' & Hb & Hnin)]; [by left|right]. apply not_elem_of_app in Hnin as [Hn1 Hn2]. cbn [mbind outcome_bind]. rewrite Ht.
  assert (in_use w'.(store) ((ps ++ [(b, x)]).*1 ++ F)) as Hu2 by (eapply in_use_perm; [|exact Hu']; rewrite fmap_app, <- app_assoc; cbn [app fmap list_fmap fst]; apply Permutation_middle).
  case_decide as Hd.
  - apply (tail_null _ _ _ _ Hseg) in Hd as ->. eexists _, w', b. split; [done|]. split; [|by eapply frame_insert]. split; cbn [head_ tail_]; [|done|done]. split; [done|]. split; [done|]. exists 0. by rewrite He, lookup_insert_eq.
  - destruct (rev_ind (fun ps => ps = [] \/ exists qs b x, ps = qs ++ [(b, x)]) ltac:(by left) ltac:(intros [b' x'] l' _; right; by exists l', b', x') ps) as [->|(qs & c & y & ->)]; [done|]. rewrite tail_snoc in *. apply list.NoDup_app in Hnd as (Hnd & Hdis & _).
    assert (b ≠ c) as Hbc by (intros ->; apply Hn1; rewrite fmap_app, elem_of_app; right; left). assert (w.(entries) !! c = Some (mkEntry 0 y)) as Hc by (apply segment_app in Hseg as (r & _ & -> & _ & r' & Hr & ->); done).
    unfold set_next, entry_at. rewrite He, lookup_insert_ne, Hc by done. cbn [mbind outcome_bind]. eexists _, _, b. split; [done|]. split; [|].
    + split; cbn [head_ tail_ entries store]; [|by rewrite tail_snoc|done]. apply segment_app. exists b. split.
      * eapply (segment_relink (<[b := mkEntry 0 x]> w.(entries)) _ qs c y 0 b); [|done]. eapply segment_kept; [exact Hseg|]. intros z Hz. apply lookup_insert_ne. by intros ->.
      * split; [done|]. split; [done|]. exists 0. split; [|done]. rewrite lookup_insert_ne by done. by rewrite lookup_insert_eq.
    + intros f Hf. cbn [entries]. rewrite lookup_insert_ne, lookup_insert_ne; [done|by intros ->|]. intros ->. apply (Hdis f); [rewrite fmap_app, elem_of_app; right; left|done].
Qed.
Lemma pop_front_ok l w ps F : listed w l ps F -> exists x l' w', pop_front l w = Ret (x, l', w') /\ x = default 0 (head ps.*2) /\ listed w' l' (tail ps) F /\ frame w w' F.
Proof.
  intros Hl. pose proof (listed_NoDup _ _ _ _ Hl) as Hnd. destruct Hl as [Hseg Ht Hu]. unfold pop_front. destruct ps as [|[b x] ps].
  - cbn in Hseg. rewrite decide_True by done. eexists 0, l, w. split; [done|]. split; [done|]. split; [by split|done].
  - destruct Hseg as (-> & Hb & r & Hr & Hseg). rewrite decide_False by lia. unfold entry_at. rewrite Hr. cbn [mbind outcome_bind]. cbn in Hnd, Hu. apply list.NoDup_cons in Hnd as [Hnin Hnd]. apply not_elem_of_app in Hnin as [Hn1 Hn2]. destruct (free_entry_ok w _ b Hu) as (w' & -> & He & Hu'). cbn [mbind outcome_bind].
    eexists x, _, w'. split; [done|]. split; [done|]. split; [|by eapply frame_delete]. assert (segment w'.(entries) r ps 0) as Hseg' by (eapply segment_kept; [exact Hseg|]; intros y Hy; rewrite He; apply lookup_delete_ne; by intros ->).
    split; cbn [head_ tail_ next tail]; [done| |done]. case_decide as Hd; [apply (segment_null _ _ _ Hseg) in Hd as ->; done|]. rewrite Ht. destruct ps as [|[c y] ps]; [by cbn in Hseg|]. done.
Qed.
Lemma clear_ok l w ps F : listed w l ps F -> exists w', clear l w = Ret (mkList 0 0, w') /\ listed w' (mkList 0 0) [] F /\ frame w w' F.
Proof.
  intros Hl. pose proof (listed_NoDup _ _ _ _ Hl) as Hnd. destruct Hl as [Hseg _ Hu]. unfold clear.
  assert (forall fuel p w ps, (length ps < fuel)%nat -> segment w.(entries) p ps 0 -> in_use w.(store) (ps.*1 ++ F) -> exists w', clear_from fuel p w = Ret w' /\ in_use w'.(store) F /\ frame w w' F) as Hloop.
  { clear. intros fuel. induction fuel as [|fuel IH]; intros p w ps Hf Hseg Hu; [lia|]. cbn [clear_from]. destruct ps as [|[b x] ps]; [cbn in Hseg; rewrite decide_True by done; by exists w|]. destruct Hseg as (-> & Hb & r & Hr & Hseg). rewrite decide_False by lia. unfold entry_at. rewrite Hr. cbn [mbind outcome_bind].
    pose proof (in_use_distinct _ _ Hu) as Hnd. cbn in Hnd, Hu. apply list.NoDup_cons in Hnd as [Hnin Hnd]. apply not_elem_of_app in Hnin as [Hn1 Hn2]. destruct (free_entry_ok w _ b Hu) as (w' & -> & He & Hu'). cbn [mbind outcome_bind next].
    destruct (IH r w' ps) as (w2 & -> & Hu2 & Hfr); [cbn in Hf; lia| |done|]. { eapply segment_kept; [exact Hseg|]. intros y Hy. rewrite He. apply lookup_delete_ne. by intros ->. } exists w2. split; [done|]. split; [done|]. eapply frame_trans; [by eapply frame_delete|done]. }
  apply list.NoDup_app in Hnd as (Hnd & _ & _). pose proof (segment_size _ _ _ _ Hseg Hnd). destruct (Hloop (size w.(entries) + 1)%nat l.(head_) w ps) as (w' & -> & Hu' & Hfr); [lia|done|done|]. exists w'. split; [done|]. split; [by split|done].
Qed.

Lemma tail_app ks rs : rs ≠ [] -> tail_of (ks ++ rs) = tail_of rs.
Proof.
  intros H. destruct (rev_ind (fun ps => ps = [] \/ exists qs b x, ps = qs ++ [(b, x)]) ltac:(by left) ltac:(intros [b x] l _; right; by exists l, b, x) rs) as [->|(qs & b & x & ->)]; [done|]. by rewrite app_assoc, !tail_snoc.
Qed.
(** Taking the entry [b] out of a list, after the entries [ks]. *)
Lemma relink_entry_ok l w ks b x rs F : listed w l (ks ++ (b, x) :: rs) F -> exists r w1, w.(entries) !! b = Some (mkEntry r x) /\
  (if decide (tail_of ks = 0) then Ret (mkList r l.(tail_), w) else w ← set_next (tail_of ks) r w; Ret (l, w)) = Ret (mkList (if decide (tail_of ks = 0) then r else l.(head_)) l.(tail_), w1) /\
  w1.(store) = w.(store) /\ segment w1.(entries) (if decide (tail_of ks = 0) then r else l.(head_)) ks r /\ segment w1.(entries) r rs 0 /\ frame w w1 F.
Proof.
  intros Hl. pose proof (listed_NoDup _ _ _ _ Hl) as Hnd. destruct Hl as [Hseg Ht Hu]. apply segment_app in Hseg as (b' & Hks & -> & Hb & r & Hr & Hrs). exists r. apply list.NoDup_app in Hnd as (Hnd & Hdis & _).
  destruct (rev_ind (fun ps => ps = [] \/ exists qs b x, ps = qs ++ [(b, x)]) ltac:(by left) ltac:(intros [b' x'] l' _; right; by exists l', b', x') ks) as [->|(qs & c & y & ->)].
  - exists w. split; [done|]. split; [done|]. split; [done|]. split; [done|]. split; [done|]. by intros f _.
  - rewrite tail_snoc. pose proof Hks as Hks0. apply segment_app in Hks0 as (c' & _ & -> & Hc & r' & Hc' & ->). rewrite fmap_app in Hnd. apply list.NoDup_app in Hnd as (Hnd1 & Hdis1 & _). rewrite !(decide_False (P := c = 0)) by lia. unfold set_next, entry_at. rewrite Hc'. cbn [mbind outcome_bind element]. eexists. split; [done|]. split; [by destruct l|].
    cbn [store entries]. split; [done|]. split; [by eapply segment_relink|]. split.
    + eapply segment_kept; [exact Hrs|]. intros z Hz. apply lookup_insert_ne. intros <-. apply (Hdis1 c); [rewrite fmap_app, elem_of_app; right; left|by right].
    + intros f Hf. apply lookup_insert_ne. intros <-. apply (Hdis c); [|done]. rewrite !fmap_app, !elem_of_app. left. right. left.
Qed.
Lemma unlink_ok l w ks b x rs F : listed w l (ks ++ (b, x) :: rs) F -> exists r w1, w.(entries) !! b = Some (mkEntry r x) /\
  (if decide (tail_of ks = 0) then Ret (mkList r l.(tail_), w) else w ← set_next (tail_of ks) r w; Ret (l, w)) = Ret (mkList (if decide (tail_of ks = 0) then r else l.(head_)) l.(tail_), w1) /\
  exists w', free_entry b w1 = Ret w' /\ segment w'.(entries) r rs 0 /\ frame w w' F /\
  listed w' (mkList (if decide (tail_of ks = 0) then r else l.(head_)) (if decide (l.(tail_) = b) then tail_of ks else l.(tail_))) (ks ++ rs) F.
Proof.
  intros Hl. destruct (relink_entry_ok _ _ _ _ _ _ _ Hl) as (r & w1 & Hr & Hset & Hst & Hseg1 & Hseg2 & Hfr). exists r, w1. split; [done|]. split; [done|]. pose proof (listed_NoDup _ _ _ _ Hl) as Hnd. destruct Hl as [_ Ht Hu].
  assert ((ks ++ (b, x) :: rs).*1 ++ F ≡ₚ b :: (ks ++ rs).*1 ++ F) as Hperm by (rewrite !fmap_app; cbn [fmap list_fmap fst]; rewrite <- !app_assoc; cbn [app]; symmetry; apply Permutation_middle).
  rewrite Hperm in Hnd. apply list.NoDup_cons in Hnd as [Hnin Hnd]. rewrite fmap_app, !not_elem_of_app in Hnin. destruct Hnin as [[Hn1 Hn2] Hn3]. apply (in_use_perm _ _ _ Hperm) in Hu. rewrite <- Hst in Hu. destruct (free_entry_ok w1 _ b Hu) as (w' & -> & He & Hu'). exists w'. split; [done|].
  assert (forall p ps q, b ∉ ps.*1 -> segment w1.(entries) p ps q -> segment w'.(entries) p ps q) as Hkeep by (intros p ps q Hb H; eapply segment_kept; [exact H|]; intros z Hz; rewrite He; apply lookup_delete_ne; by intros ->).
  split; [by apply Hkeep|]. split; [eapply frame_trans; [exact Hfr|by eapply frame_delete]|]. split; cbn [head_ tail_]; [apply segment_app; exists r; split; by apply Hkeep| |done].
  rewrite Ht. destruct rs as [|c rs]; [rewrite tail_snoc, decide_True by done; by rewrite app_nil_r|]. rewrite !(tail_app ks) by done. change ((b, x) :: c :: rs) with ([(b, x)] ++ c :: rs). rewrite tail_app by done. rewrite decide_False; [done|]. intros <-. apply Hn2. by apply tail_elem.
Qed.
Lemma remove_if_ok P l w ps F : listed w l ps F -> exists l' w', remove_if P l w = Ret (l', w') /\ listed w' l' (filter (fun y => P y.2 = false) ps) F /\ frame w w' F.
Proof.
  intros Hl. unfold remove_if.
  assert (forall fuel rs ks e l w, (length rs < fuel)%nat -> listed w l (ks ++ rs) F -> segment w.(entries) e rs 0 -> exists l' w', remove_loop fuel P e (tail_of ks) l w = Ret (l', w') /\ listed w' l' (ks ++ filter (fun y => P y.2 = false) rs) F /\ frame w w' F) as Hloop.
  { clear. intros fuel. induction fuel as [|fuel IH]; intros rs ks e l w Hf Hl Hseg; [lia|]. cbn [remove_loop]. destruct rs as [|[b x] rs]; [cbn in Hseg; rewrite decide_True by done; by exists l, w|]. destruct Hseg as (-> & Hb & r & Hr & Hseg). rewrite decide_False by lia. unfold entry_at. rewrite Hr. cbn [mbind outcome_bind element next]. rewrite filter_cons. cbn [snd]. destruct (P x).
    - rewrite (decide_False (P := true = false)) by done. destruct (unlink_ok _ _ _ _ _ _ _ Hl) as (r' & w1 & Hr' & Hset & w' & Hfree & Hseg' & Hfr & Hl'). rewrite Hr in Hr'. injection Hr' as <-. rewrite Hset. cbn [mbind outcome_bind tail_ head_].
      rewrite Hfree. cbn [mbind outcome_bind]. destruct (IH rs ks r _ w' ltac:(cbn in Hf; lia) Hl' Hseg') as (l2 & w2 & E2 & Hl2 & Hfr2). exists l2, w2. split; [|split; [done|by eapply frame_trans]]. rewrite <- E2. by destruct (decide (l.(tail_) = b)).
    - rewrite (decide_True (P := false = false)) by done. destruct (IH rs (ks ++ [(b, x)]) r l w ltac:(cbn in Hf; lia)) as (l2 & w2 & E2 & Hl2 & Hfr2); [by rewrite <- app_assoc|done|]. exists l2, w2. rewrite tail_snoc in E2. split; [done|]. split; [by rewrite <- app_assoc in Hl2|done]. }
  pose proof (listed_NoDup _ _ _ _ Hl) as Hnd. apply list.NoDup_app in Hnd as (Hnd & _ & _). pose proof (listed_segment _ _ _ _ Hl) as Hseg. pose proof (segment_size _ _ _ _ Hseg Hnd). exact (Hloop (size w.(entries) + 1)%nat ps [] l.(head_) l w ltac:(lia) Hl Hseg).
Qed.

(** The calls that only read. *)
Section reading.
Context (w : world) (l : LinkedList) (ps : list (Z * Z)) (F : list Z) (Hl : listed w l ps F).
Lemma enough_fuel : (length ps < size w.(entries) + 1)%nat.
Proof. pose proof (listed_NoDup _ _ _ _ Hl) as Hnd. apply list.NoDup_app in Hnd as (Hnd & _ & _). pose proof (segment_size _ _ _ _ (listed_segment _ _ _ _ Hl) Hnd). lia. Qed.
Lemma front_ok : front l w = Ret (default 0 (head ps.*2)).
Proof. destruct Hl as [Hseg _ _]. unfold front. destruct ps as [|[b x] ps']; [cbn in Hseg; by rewrite decide_True by done|]. destruct Hseg as (-> & ? & r & Hr & _). rewrite decide_False by lia. unfold entry_at. by rewrite Hr. Qed.
(** The elements up to and with the first that the action refuses. *)
Fixpoint seen (action : Z -> bool) (xs : list Z) : list Z * bool :=
  match xs with [] => ([], true) | x :: xs => if action x then let '(ys, b) := seen action xs in (x :: ys, b) else ([x], false) end.
Lemma visit_ok action : visit action l w = Ret (seen action ps.*2).
Proof.
  unfold visit. pose proof enough_fuel as Hf. destruct Hl as [Hseg _ _]. revert Hf Hseg. generalize (size w.(entries) + 1)%nat as fuel. generalize l.(head_) as e. clear. induction ps as [|[b x] qs IH]; intros e [|fuel] Hf Hseg; cbn [length] in Hf; try lia; cbn [visit_from]; [cbn in Hseg; by rewrite decide_True by done|].
  destruct Hseg as (-> & ? & r & Hr & Hseg). rewrite decide_False by lia. unfold entry_at. rewrite Hr. cbn [mbind outcome_bind element next fmap list_fmap snd seen]. destruct (action x); [|done]. rewrite (IH r fuel) by (lia || done). cbn. by destruct (seen action qs.*2).
Qed.
Lemma find_if_ok predicate : list_find_if predicate l w = Ret (default 0 (snd <$> list_find (fun x => predicate x = true) ps.*2)).
Proof.
  unfold list_find_if. pose proof enough_fuel as Hf. destruct Hl as [Hseg _ _]. revert Hf Hseg. generalize (size w.(entries) + 1)%nat as fuel. generalize l.(head_) as e. clear. induction ps as [|[b x] qs IH]; intros e [|fuel] Hf Hseg; cbn [length] in Hf; try lia; cbn [find_from_entry]; [cbn in Hseg; by rewrite decide_True by done|].
  destruct Hseg as (-> & ? & r & Hr & Hseg). rewrite decide_False by lia. unfold entry_at. rewrite Hr. cbn [mbind outcome_bind element next fmap list_fmap snd list_find]. destruct (predicate x); [rewrite decide_True by done; done|]. rewrite decide_False by done. rewrite (IH r fuel) by (lia || done). by destruct (list_find _ qs.*2) as [[j z]|].
Qed.
Lemma copy_ok n : copy_to_array n l w = Ret (take n ps.*2).
Proof.
  unfold copy_to_array. pose proof enough_fuel as Hf. destruct Hl as [Hseg _ _]. revert Hf Hseg n. generalize (size w.(entries) + 1)%nat as fuel. generalize l.(head_) as e. clear. induction ps as [|[b x] qs IH]; intros e [|fuel] Hf Hseg [|n]; cbn [length] in Hf; try lia; cbn [copy_from]; [done|cbn in Hseg; by rewrite decide_True by done|done|].
  destruct Hseg as (-> & ? & r & Hr & Hseg). rewrite decide_False by lia. unfold entry_at. rewrite Hr. cbn [mbind outcome_bind element next fmap list_fmap snd take]. by rewrite (IH r fuel) by (lia || done).
Qed.
End reading.

(** ** Operations, and what they mean on a list *)

Inductive operation :=
  | PushFront (x : Z) | PushBack (x : Z) | PopFront | RemoveIf (predicate : Z -> bool) | Clear
  | Front | Visit (action : Z -> bool) | FindIf (predicate : Z -> bool) | Copy (array_length : nat).
(** What the caller sees, with the list after. *)
Definition apply_op (o : operation) (l : LinkedList) (w : world) : result (list Z * LinkedList * world) :=
  match o with
  | PushFront x => '(l, w) ← push_front x l w; Ret ([], l, w)
  | PushBack x => '(l, w) ← push_back x l w; Ret ([], l, w)
  | PopFront => '(x, l, w) ← pop_front l w; Ret ([x], l, w)
  | RemoveIf P => '(l, w) ← remove_if P l w; Ret ([], l, w)
  | Clear => '(l, w) ← clear l w; Ret ([], l, w)
  | Front => x ← front l w; Ret ([x], l, w)
  | Visit a => '(xs, _) ← visit a l w; Ret (xs, l, w)
  | FindIf P => x ← list_find_if P l w; Ret ([x], l, w)
  | Copy n => xs ← copy_to_array n l w; Ret (xs, l, w)
  end.
Definition meaning (o : operation) (xs : list Z) : list Z * list Z :=
  match o with
  | PushFront x => ([], x :: xs)
  | PushBack x => ([], xs ++ [x])
  | PopFront => ([default 0 (head xs)], tail xs)
  | RemoveIf P => ([], filter (fun x => P x = false) xs)
  | Clear => ([], [])
  | Front => ([default 0 (head xs)], xs)
  | Visit a => ((seen a xs).1, xs)
  | FindIf P => ([default 0 (snd <$> list_find (fun x => P x = true) xs)], xs)
  | Copy n => (take n xs, xs)
  end.
Lemma apply_ok o l w ps F : listed w l ps F -> apply_op o l w = Throw Abort /\ exhausted \/ exists obs l' w' ps', apply_op o l w = Ret (obs, l', w') /\ listed w' l' ps' F /\ (obs, ps'.*2) = meaning o ps.*2 /\ frame w w' F.
Proof.
  intros Hl. destruct o as [x|x| |P| | |a|P|n]; cbn [apply_op meaning].
  - destruct (push_front_ok x _ _ _ _ Hl) as [[-> ?]|(l' & w' & b & -> & ? & ?)]; [by left|right]. by eexists _, l', w', _.
  - destruct (push_back_ok x _ _ _ _ Hl) as [[-> ?]|(l' & w' & b & -> & ? & ?)]; [by left|right]. eexists _, l', w', _. split; [done|]. split; [done|]. by rewrite fmap_app.
  - destruct (pop_front_ok _ _ _ _ Hl) as (x & l' & w' & -> & -> & ? & ?). right. eexists _, l', w', _. split; [done|]. split; [done|]. by destruct ps.
  - destruct (remove_if_ok P _ _ _ _ Hl) as (l' & w' & -> & ? & ?). right. eexists _, l', w', _. split; [done|]. split; [done|]. split; [|done]. f_equal. clear. induction ps as [|[b x] ps IH]; [done|]. cbn [fmap list_fmap snd]. rewrite !filter_cons. cbn [snd]. case_decide; [cbn; by f_equal|done].
  - destruct (clear_ok _ _ _ _ Hl) as (w' & -> & ? & ?). right. by eexists _, _, w', [].
  - rewrite (front_ok _ _ _ _ Hl). right. by eexists _, l, w, ps.
  - rewrite (visit_ok _ _ _ _ Hl). right. cbn [mbind outcome_bind]. destruct (seen a ps.*2). by eexists _, l, w, ps.
  - rewrite (find_if_ok _ _ _ _ Hl). right. by eexists _, l, w, ps.
  - rewrite (copy_ok _ _ _ _ Hl). right. by eexists _, l, w, ps.
Qed.

(** Two lists of one allocator, with the operations of both in any order. *)
Fixpoint run_ops (os : list (bool * operation)) (l1 l2 : LinkedList) (w : world) : result (list (list Z) * LinkedList * LinkedList * world) :=
  match os with
  | [] => Ret ([], l1, l2, w)
  | (true, o) :: os =>
      '(obs, l1, w) ← apply_op o l1 w;
      '(rest, l1, l2, w) ← run_ops os l1 l2 w;
      Ret (obs :: rest, l1, l2, w)
  | (false, o) :: os =>
      '(obs, l2, w) ← apply_op o l2 w;
      '(rest, l1, l2, w) ← run_ops os l1 l2 w;
      Ret (obs :: rest, l1, l2, w)
  end.
Fixpoint meanings (os : list (bool * operation)) (xs ys : list Z) : list (list Z) * list Z * list Z :=
  match os with
  | [] => ([], xs, ys)
  | (true, o) :: os => let '(obs, xs) := meaning o xs in let '(rest, xs, ys) := meanings os xs ys in (obs :: rest, xs, ys)
  | (false, o) :: os => let '(obs, ys) := meaning o ys in let '(rest, xs, ys) := meanings os xs ys in (obs :: rest, xs, ys)
  end.
Lemma other_listed w w' l l' ps ps' : listed w' l' ps' ps.*1 -> listed w l ps ps'.*1 \/ (exists old, listed w l ps old) -> frame w w' ps.*1 -> listed w' l ps ps'.*1.
Proof.
  intros Hl' Hl Hfr. assert (segment w.(entries) l.(head_) ps 0 /\ l.(tail_) = tail_of ps) as [Hseg Ht] by (destruct Hl as [[]|[? []]]; done). split; [|done|eapply in_use_perm; [apply Permutation_app_comm|apply Hl']]. eapply segment_kept; [exact Hseg|exact Hfr].
Qed.
Lemma run_ok os : forall l1 l2 w ps qs, listed w l1 ps qs.*1 -> listed w l2 qs ps.*1 -> run_ops os l1 l2 w = Throw Abort /\ exhausted \/
  exists obs l1' l2' w' ps' qs', run_ops os l1 l2 w = Ret (obs, l1', l2', w') /\ listed w' l1' ps' qs'.*1 /\ listed w' l2' qs' ps'.*1 /\ (obs, ps'.*2, qs'.*2) = meanings os ps.*2 qs.*2.
Proof.
  induction os as [|[[|] o] os IH]; intros l1 l2 w ps qs H1 H2; cbn [run_ops meanings]; [right; by eexists _, l1, l2, w, ps, qs| |].
  - destruct (apply_ok o _ _ _ _ H1) as [[-> ?]|(obs & l1' & w' & ps' & -> & H1' & Hm & Hfr)]; [by left|]. cbn [mbind outcome_bind]. assert (listed w' l2 qs ps'.*1) as H2' by (eapply other_listed; [exact H1'|right; by eexists|done]). destruct (meaning o ps.*2) as [m xs]. injection Hm as <- <-.
    destruct (IH _ _ _ _ _ H1' H2') as [[-> ?]|(rest & a & b & w2 & ps2 & qs2 & -> & ? & ? & <-)]; [by left|right]. by eexists _, a, b, w2, ps2, qs2.
  - destruct (apply_ok o _ _ _ _ H2) as [[-> ?]|(obs & l2' & w' & qs' & -> & H2' & Hm & Hfr)]; [by left|]. cbn [mbind outcome_bind]. assert (listed w' l1 ps qs'.*1) as H1' by (eapply other_listed; [exact H2'|right; by eexists|done]). destruct (meaning o qs.*2) as [m xs]. injection Hm as <- <-.
    destruct (IH _ _ _ _ _ H1' H2') as [[-> ?]|(rest & a & b & w2 & ps2 & qs2 & -> & ? & ? & <-)]; [by left|right]. by eexists _, a, b, w2, ps2, qs2.
Qed.

End lists.

(** ** Theorems *)

(** Blocks in use do not overlap, are aligned, and lie in the pages of the allocator. *)
Lemma owned_apart a L b c : owns a L -> b ∈ L -> c ∈ L -> b ≠ c -> b + a.(block_size_) <= c \/ c + a.(block_size_) <= b.
Proof.
  intros Hown Hb Hc Hne. pose proof Hown as [[Hsz _] [_ Hpairs] (runs & _ & Hperm) _]. assert (forall x, x ∈ L -> exists p, p ∈ a.(page_list_) /\ x ∈ page_blocks a.(block_size_) p) as Hin by (intros x Hx; assert (x ∈ a.(page_list_) ≫= page_blocks a.(block_size_)) as (p & ? & ?)%list_elem_of_bind by (rewrite <- Hperm; apply elem_of_app; by right); by exists p).
  destruct (Hin b Hb) as (p & Hp & Hbp), (Hin c Hc) as (q & Hq & Hcq). destruct (page_block_bounds _ _ _ (proj1 Hsz) Hbp) as (k & Ek & ? & ? & ?), (page_block_bounds _ _ _ (proj1 Hsz) Hcq) as (j & Ej & ? & ? & ?).
  destruct (decide (p = q)) as [->|Hpq]; [|assert (apart p q \/ apart q p) as [[?|?]|[?|?]] by (destruct (ForallOrdPairs_In Hpairs p q) as [?|[?|?]]; [by apply list_elem_of_In|by apply list_elem_of_In|done|by left|by right]); lia].
  assert (k ≠ j) by congruence. destruct (decide (k < j)); [left|right]; nia.
Qed.

(** A client of the allocator: [None] asks for a block, [Some i] gives the block it holds at place [i] back. *)
Fixpoint run_blocks_of (mmap : list Z -> option Z) (rs : list (option nat)) (a : LinkerBlockAllocator) (L : list Z) : result (LinkerBlockAllocator * list Z) :=
  match rs with
  | [] => Ret (a, L)
  | None :: rs => '(b, a) ← block_alloc mmap a; run_blocks_of mmap rs a (b :: L)
  | Some i :: rs =>
      match L !! i with
      | Some b => a ← block_free b a; run_blocks_of mmap rs a (delete i L)
      | None => run_blocks_of mmap rs a L
      end
  end.
Lemma new_owns size : 16 <= (new_allocator size).(block_size_) <= bytes_size -> (new_allocator size).(block_size_) mod 16 = 0 -> owns (new_allocator size) [].
Proof. intros H1 H2. split; [done|split; constructor| |done]. by exists []. Qed.
(** Whatever is allocated and freed, where there is memory every request is served,
    the blocks held never overlap, and their number is the allocator's count. *)
Theorem blocks_never_overlap (mmap : list Z -> option Z) (rs : list (option nat)) (size : Z) : maps_apart mmap -> 16 <= (new_allocator size).(block_size_) <= bytes_size -> (new_allocator size).(block_size_) mod 16 = 0 ->
  run_blocks_of mmap rs (new_allocator size) [] = Throw Abort /\ memory_ends mmap \/ exists a L, run_blocks_of mmap rs (new_allocator size) [] = Ret (a, L) /\ a.(allocated_) = wrapu 64 (Z.of_nat (length L)) /\
    forall i j b c, L !! i = Some b -> L !! j = Some c -> i ≠ j -> b + a.(block_size_) <= c \/ c + a.(block_size_) <= b.
Proof.
  intros Hm H1 H2. assert (forall rs a L, owns a L -> run_blocks_of mmap rs a L = Throw Abort /\ memory_ends mmap \/ exists a' L', run_blocks_of mmap rs a L = Ret (a', L') /\ owns a' L') as Hrun.
  { clear rs. induction rs as [|[i|] rs IH]; intros a L Ho; cbn [run_blocks_of]; [right; by exists a, L| |].
    - destruct (L !! i) as [b|] eqn:Ei; [|by apply IH]. destruct (block_free_used a (delete i L) b) as (a' & -> & Ho'); [eapply owns_perm; [|exact Ho]; by apply delete_Permutation|]. by apply IH.
    - destruct (block_alloc_ok mmap a L Hm Ho) as [[-> ?]|(b & a' & -> & Ho' & _)]; [by left|]. by apply IH. }
  destruct (Hrun rs _ _ (new_owns size H1 H2)) as [[-> ?]|(a & L & -> & Ho)]; [by left|right]. exists a, L. split; [done|]. split; [apply Ho|]. intros i j b c Hi Hj Hne. apply (owned_apart a L); [done|by eapply list_elem_of_lookup_2..|]. intros ->. apply Hne. eapply NoDup_lookup; [by apply (owns_distinct a)|done..].
Qed.
(** A kernel that maps upwards. *)
Definition up (ps : list Z) : option Z := match ps with [] => Some 4096 | p :: _ => if decide (Forall (fun q => q + kAllocateSize <= p + kAllocateSize) ps /\ 0 < p /\ p mod 4096 = 0 /\ p + kAllocateSize + kAllocateSize <= 2 ^ 47) then Some (p + kAllocateSize) else None end.
Lemma up_apart : maps_apart up.
Proof.
  intros [|p ps] r; cbn [up]; [intros [= <-]; split; [lia|]; split; [done|]; split; [by vm_compute|constructor]|]. case_decide as H; [|done]. intros [= <-]. destruct H as (Hall & Hp & Hal & Hend). unfold kAllocateSize in *. split; [lia|]. split; [rewrite Z.add_comm; rewrite <- Hal; change (4096 * 100) with (100 * 4096); by rewrite Z.add_comm, Z.mod_add|]. split; [lia|].
  eapply Forall_impl; [|exact Hall]. intros q Hq. right. unfold kAllocateSize. cbn in Hq. lia.
Qed.
Lemma blocks_never_overlap_witness : exists a L, run_blocks_of up [None; None; Some 0%nat; None; None] (new_allocator 40) [] = Ret (a, L) /\ length L = 3%nat /\ forall i j b c, L !! i = Some b -> L !! j = Some c -> i ≠ j -> b + a.(block_size_) <= c \/ c + a.(block_size_) <= b.
Proof.
  destruct (blocks_never_overlap up [None; None; Some 0%nat; None; None] 40 up_apart) as [[H _]|(a & L & H & _ & Hd)]; [vm_compute; split; discriminate|by vm_compute|by vm_compute in H|]. exists a, L. split; [exact H|]. split; [|exact Hd]. vm_compute in H. by injection H as <- <-.
Defined.

(** C33. Linked lists are lists: two of them on one allocator, with the operations of
    both in any order, show what the same operations show on two sequences; the
    entries in use are those of the two lists, and no operation reads a freed one.
    They abort only where the kernel refuses a mapping. *)
Theorem lists_refine (mmap : list Z -> option Z) (Hm : maps_apart mmap) (os : list (bool * operation)) :
  let _ := block_allocator mmap Hm in
  run_ops os (mkList 0 0) (mkList 0 0) (mkWorld (new_allocator 16) ∅) = Throw Abort /\ memory_ends mmap \/ exists obs l1 l2 w ps qs,
    run_ops os (mkList 0 0) (mkList 0 0) (mkWorld (new_allocator 16) ∅) = Ret (obs, l1, l2, w) /\ (obs, ps.*2, qs.*2) = meanings os [] [] /\ listed w l1 ps qs.*1 /\ listed w l2 qs ps.*1.
Proof.
  intros A. assert (owns (new_allocator 16) []) as Ho by (apply new_owns; [vm_compute; split; discriminate|done]). assert (listed (mkWorld (new_allocator 16) ∅) (mkList 0 0) [] []) as Hl by (split; done). destruct (run_ok os (mkList 0 0) (mkList 0 0) (mkWorld (new_allocator 16) ∅) [] [] Hl Hl) as [?|(obs & l1 & l2 & w & ps & qs & ? & ? & ? & ?)]; [by left|right]. by exists obs, l1, l2, w, ps, qs.
Qed.
Lemma lists_refine_witness : exists obs l1 l2 w, run_ops (Allocator0 := block_allocator up up_apart) [(true, PushBack 5); (false, PushBack 6); (true, PushFront 4); (true, RemoveIf (fun x => bool_decide (x = 5))); (true, PushBack 7); (true, Copy 9)] (mkList 0 0) (mkList 0 0) (mkWorld (new_allocator 16) ∅) = Ret (obs, l1, l2, w) /\ obs = [[]; []; []; []; []; [4; 7]].
Proof.
  destruct (lists_refine up up_apart [(true, PushBack 5); (false, PushBack 6); (true, PushFront 4); (true, RemoveIf (fun x => bool_decide (x = 5))); (true, PushBack 7); (true, Copy 9)]) as [[H _]|(obs & l1 & l2 & w & ps & qs & H & Hm & _)]; [by vm_compute in H|]. exists obs, l1, l2, w. split; [exact H|]. vm_compute in Hm. by injection Hm as -> _ _.
Defined.

(** A structure of 513 bytes takes a block of 528, not of 520 as the header says. *)
Example block_of_513 : (new_allocator 513).(block_size_) = 528.
Proof. reflexivity. Qed.

End LinkerAlloc.
