(* ===== verification/JniStrings.v ===== *)
(** * libjnivm/src/jnivm/internal: stringUtil.cpp, string.cpp

    The strings of the Java environment: [jnivm::String] holds modified UTF-8,
    in which the character 0 takes two bytes and a character above the basic
    plane is a pair of surrogates of three bytes each, and the calls of the
    native interface convert to and from 16-bit characters.  A pointer into the
    string is an index into its bytes; reading past the terminating NUL is
    undefined.  A [jstring] is [None] for the null reference. *)

From S2P Require Import Prelude.
From Stdlib Require Import ZArith Ascii Lia.
From stdpp Require Import base list strings numbers.

Open Scope Z_scope.

Module JniStrings.

(** ** Data *)

(** A [jchar] is an unsigned 16-bit integer. *)
Notation jchar := Z (only parsing).
Definition is_jchar (c : jchar) : Prop := 0 <= c < 2 ^ 16.

Definition UtfDataFormatError : exn := runtime_error "UtfDataFormatError".

(** ** stringUtil.cpp *)

(** [(cur[i] & 0b11000000) != 0b10000000] throws. *)
Definition utf_continues (s : bytes) (i : nat) : outcome exn () :=
  c ← char_at s i;
  if decide (Z.land (uchar c) 192 = 128) then Ret () else Throw UtfDataFormatError.

Definition UTFToJCharLength (s : bytes) (cur : nat) : outcome exn nat :=
  c ← char_at s cur;
  if decide (Z.land (uchar c) 128 = 0) then Ret 1%nat
  else if decide (Z.land (uchar c) 224 = 192) then
    _ ← utf_continues s (cur + 1);
    Ret 2%nat
  else if decide (Z.land (uchar c) 240 = 224) then
    _ ← utf_continues s (cur + 1);
    _ ← utf_continues s (cur + 2);
    Ret 3%nat
  else Throw UtfDataFormatError.

Definition UTFToJChar (s : bytes) (cur : nat) : outcome exn (jchar * nat) :=
  size ← UTFToJCharLength s cur;
  match size with
  | 1%nat =>
      c ← char_at s cur;
      Ret (wrapu 16 (uchar c), size)
  | 2%nat =>
      c ← char_at s cur;
      c1 ← char_at s (cur + 1);
      Ret (wrapu 16 (Z.lor (Z.shiftl (Z.land (uchar c) 31) 6) (Z.land (uchar c1) 63)), size)
  | 3%nat =>
      c ← char_at s cur;
      c1 ← char_at s (cur + 1);
      c2 ← char_at s (cur + 2);
      Ret (wrapu 16 (Z.lor (Z.lor (Z.shiftl (Z.land (uchar c) 15) 12) (Z.shiftl (Z.land (uchar c1) 63) 6)) (Z.land (uchar c2) 63)), size)
  | _ => Throw UtfDataFormatError
  end.

Definition JCharToUTFLength (c : jchar) : nat :=
  if decide (c = 0) then 2%nat
  else if decide (Z.land c (128 - 1) = c) then 1%nat
  else if decide (Z.land c (Z.shiftl 1 (5 + 6) - 1) = c) then 2%nat
  else 3%nat.

(** The bytes written at [cur]; their number is the value returned. *)
Definition JCharToUTF (c : jchar) (len : nat) : outcome exn bytes :=
  let size := JCharToUTFLength c in
  if decide (len < size)%nat then Throw (runtime_error "End of String")
  else Ret (match size with
            | 1%nat => [to_char c]
            | 2%nat => [to_char (Z.lor 192 (Z.land (Z.shiftr c 6) 31)); to_char (Z.lor 128 (Z.land c 63))]
            | _ => [to_char (Z.lor 224 (Z.land (Z.shiftr c 12) 15)); to_char (Z.lor 128 (Z.land (Z.shiftr c 6) 63)); to_char (Z.lor 128 (Z.land c 63))]
            end).

(** ** string.cpp *)

(** [for (jsize i = 0; i < size; i++)], writing to the stream. *)
Fixpoint write_chars (str : list jchar) (size : nat) {struct size} : outcome exn bytes :=
  match size, str with
  | O, _ => Ret []
  | S _, [] => Undef
  | S size, c :: str =>
      out ← JCharToUTF c 3;
      ss ← write_chars str size;
      Ret (out ++ ss)
  end.
(** [str] holds the readable characters. *)
Definition NewString (str : list jchar) (size : Z) : outcome exn bytes := write_chars str (Z.to_nat size).

(** [while(cur != end)]; the [jsize] that counts has 32 bits, and counting on from the last value is undefined. *)
Fixpoint count_chars (fuel : nat) (s : bytes) (cur : nat) (len : Z) : outcome exn Z :=
  match fuel with
  | O => Diverge
  | S fuel =>
      if decide (cur = length s) then Ret len
      else
        n ← UTFToJCharLength s cur;
        if decide (len + 1 < 2 ^ 31) then count_chars fuel s (cur + n) (len + 1) else Undef
  end.
Definition GetStringLength (str : option bytes) : outcome exn Z :=
  match str with
  | Some s => count_chars (length s + 1) s 0 0
  | None => Ret 0
  end.

(** [while(start)]: a negative count is decremented too, until the reads run off the string. *)
Fixpoint skip_chars (fuel : nat) (s : bytes) (cur : nat) (start : Z) : outcome exn nat :=
  match fuel with
  | O => Diverge
  | S fuel =>
      if decide (start = 0) then Ret cur
      else
        n ← UTFToJCharLength s cur;
        skip_chars fuel s (cur + n) (start - 1)
  end.

(** [while(buf != bend)], with [len] the distance between the two. *)
Fixpoint read_chars (fuel : nat) (s : bytes) (cur : nat) (len : Z) : outcome exn (list jchar) :=
  match fuel with
  | O => Diverge
  | S fuel =>
      if decide (len = 0) then Ret []
      else
        '(c, n) ← UTFToJChar s cur;
        buf ← read_chars fuel s (cur + n) (len - 1);
        Ret (c :: buf)
  end.
(** The characters written to [buf]. *)
Definition GetStringRegion (str : option bytes) (start len : Z) : outcome exn (list jchar) :=
  match str with
  | None => Undef
  | Some s =>
      cur ← skip_chars (length s + 2) s 0 start;
      read_chars (length s + 2) s cur len
  end.

(** [while(len)], copying the bytes of each character. *)
Fixpoint copy_chars (fuel : nat) (s : bytes) (cur : nat) (len : Z) : outcome exn bytes :=
  match fuel with
  | O => Diverge
  | S fuel =>
      if decide (len = 0) then Ret []
      else
        n ← UTFToJCharLength s cur;
        buf ← copy_chars fuel s (cur + n) (len - 1);
        Ret (take n (drop cur s) ++ buf)
  end.
(** The bytes written to [buf], the terminating NUL included. *)
Definition GetStringUTFRegion (str : option bytes) (start len : Z) : outcome exn bytes :=
  match str with
  | None => Undef
  | Some s =>
      cur ← skip_chars (length s + 2) s 0 start;
      buf ← copy_chars (length s + 2) s cur len;
      Ret (buf ++ [NUL])
  end.

(** The array allocated for the caller and the flag [*copy], where it is set. *)
Definition GetStringChars (str : option bytes) : outcome exn (list jchar * option bool) :=
  match str with
  | Some s =>
      len ← GetStringLength (Some s);
      buf ← GetStringRegion (Some s) 0 len;
      Ret (buf, Some true)
  | None => Ret ([0], None)
  end.

(** [std::make_shared<String>(str ? str : "")]: the bytes before the first NUL. *)
Definition c_string (s : bytes) : bytes := match list_find (fun c => c = NUL) s with Some (i, _) => take i s | None => s end.
Definition NewStringUTF (str : option bytes) : bytes := match str with Some s => c_string s | None => [] end.
Definition GetStringUTFLength (str : option bytes) : Z := match str with Some s => wraps 32 (Z.of_nat (length s)) | None => 0 end.
(** The bytes at the pointer returned, up to and with the terminating NUL, and the flag [*copy]. *)
Definition GetStringUTFChars (str : option bytes) : bytes * bool := (default [] str ++ [NUL], false).

(** ** Lemmas *)

(** The bytes of a character, and of a sequence of characters. *)
Definition utf8 (c : jchar) : bytes := match JCharToUTF c 3 with Ret b => b | _ => [] end.
Definition encoding (cs : list jchar) : bytes := cs ≫= utf8.

Lemma upto (P : Z -> Prop) `{!forall x, Decision (P x)} n x : forallb (fun x => bool_decide (P x)) (seqZ 0 n) = true -> 0 <= x < n -> P x.
Proof. intros Hall Hx. rewrite forallb_forall in Hall. apply (bool_decide_eq_true (P x)), Hall, list_elem_of_In, elem_of_seqZ. lia. Qed.

(** What the decoder sees of the bytes the encoder writes. *)
Lemma ascii_byte x : 0 <= x < 128 -> Z.land (uchar (to_char x)) 128 = 0 /\ uchar (to_char x) = x.
Proof. apply (upto (fun x => Z.land (uchar (to_char x)) 128 = 0 /\ uchar (to_char x) = x)). by vm_compute. Qed.
Definition lead (tag mask : Z) (x : Z) : Prop :=
  let b := uchar (to_char (Z.lor tag x)) in Z.land b 128 ≠ 0 /\ Z.land b 224 = (if decide (tag = 192) then 192 else 224) /\ (tag = 224 -> Z.land b 240 = 224) /\ Z.land b mask = x.
#[local] Instance lead_dec tag mask x : Decision (lead tag mask x).
Proof. unfold lead. apply _. Defined.
Lemma lead_2 x : 0 <= x < 32 -> lead 192 31 x.
Proof. apply (upto (lead 192 31)). by vm_compute. Qed.
Lemma lead_3 x : 0 <= x < 16 -> lead 224 15 x.
Proof. apply (upto (lead 224 15)). by vm_compute. Qed.
Lemma cont_byte x : 0 <= x < 64 -> Z.land (uchar (to_char (Z.lor 128 x))) 192 = 128 /\ Z.land (uchar (to_char (Z.lor 128 x))) 63 = x.
Proof. apply (upto (fun x => Z.land (uchar (to_char (Z.lor 128 x))) 192 = 128 /\ Z.land (uchar (to_char (Z.lor 128 x))) 63 = x)). by vm_compute. Qed.

Lemma char_at_nth (p b r : bytes) i c : b !! i = Some c -> char_at (E := exn) (p ++ b ++ r) (length p + i) = Ret c.
Proof. intros H. apply char_at_lt. rewrite lookup_app_r by lia. replace (length p + i - length p)%nat with i by lia. by apply lookup_app_l_Some. Qed.
Lemma char_at_head (p b r : bytes) c : b !! 0%nat = Some c -> char_at (E := exn) (p ++ b ++ r) (length p) = Ret c.
Proof. intros H. rewrite <- (Nat.add_0_r (length p)). by apply char_at_nth. Qed.

(** The three ranges of characters. *)
Lemma utf8_cases c : is_jchar c ->
  (0 < c < 128 /\ utf8 c = [to_char c]) \/
  ((c = 0 \/ 128 <= c < 2048) /\ utf8 c = [to_char (Z.lor 192 (c / 64)); to_char (Z.lor 128 (c mod 64))]) \/
  (2048 <= c /\ utf8 c = [to_char (Z.lor 224 (c / 4096)); to_char (Z.lor 128 (c / 64 mod 64)); to_char (Z.lor 128 (c mod 64))]).
Proof.
  intros Hc. unfold is_jchar in Hc. unfold utf8, JCharToUTF, JCharToUTFLength. change (128 - 1) with 127. change (Z.shiftl 1 (5 + 6) - 1) with (2 ^ 11 - 1).
  rewrite !land_127, (land_low 11), !land_63, land_15 by lia. change 31 with (2 ^ 5 - 1). rewrite land_low, !Z.shiftr_div_pow2 by lia. change (2 ^ 11) with 2048. change (2 ^ 6) with 64. change (2 ^ 12) with 4096. change (2 ^ 5) with 32.
  destruct (decide (c = 0)) as [->|H0]; [right; left; split; [by left|done]|].
  destruct (decide (c mod 128 = c)) as [H|H]; [left; split; [dlia|done]|].
  destruct (decide (c mod 2048 = c)) as [H'|H']; [right; left|right; right]; cbn [decide Nat.ltb].
  - rewrite decide_False by lia. rewrite (Z.mod_small (c / 64)) by dlia. split; [right; dlia|done].
  - rewrite decide_False by lia. rewrite (Z.mod_small (c / 4096)) by dlia. split; [dlia|done].
Qed.

(** Decoding one character at the place where it was encoded. *)
Lemma decode_char p c r : is_jchar c -> UTFToJChar (p ++ utf8 c ++ r) (length p) = Ret (c, length (utf8 c)).
Proof.
  intros Hc. unfold is_jchar in Hc. destruct (utf8_cases c Hc) as [[H ->]|[[H ->]|[H ->]]]; unfold UTFToJChar, UTFToJCharLength, utf_continues.
  - destruct (ascii_byte c) as [Ha Hb]; [lia|]. rewrite !(char_at_head p [to_char c] r _ eq_refl). cbn [mbind outcome_bind]. rewrite decide_True by done. cbn [mbind outcome_bind]. rewrite Hb, wrapu_small by lia. done.
  - destruct (lead_2 (c / 64)) as (H1 & H2 & _ & H4); [dlia|]. destruct (cont_byte (c mod 64)) as [H5 H6]; [dlia|]. set (b := [_; _]).  rewrite !(char_at_head p b r _ eq_refl), !(char_at_nth p b r 1 _ eq_refl). cbn [mbind outcome_bind].
    rewrite decide_False by done. rewrite decide_True by done. cbn [mbind outcome_bind]. rewrite decide_True by done. cbn [mbind outcome_bind]. rewrite H4, H6, lor_shiftl_low, wrapu_small by dlia. repeat f_equal. dlia.
  - destruct (lead_3 (c / 4096)) as (H1 & H2 & H3 & H4); [dlia|]. destruct (cont_byte (c / 64 mod 64)) as [H5 H6]; [dlia|]. destruct (cont_byte (c mod 64)) as [H7 H8]; [dlia|]. set (b := [_; _; _]).  rewrite !(char_at_head p b r _ eq_refl), !(char_at_nth p b r 1 _ eq_refl), !(char_at_nth p b r 2 _ eq_refl). cbn [mbind outcome_bind].
    rewrite decide_False by done. rewrite H2. rewrite decide_False by done. rewrite decide_True by auto. cbn [mbind outcome_bind]. rewrite decide_True by done. cbn [mbind outcome_bind]. rewrite decide_True by done. cbn [mbind outcome_bind].
    rewrite H4, H6, H8, <- Z.lor_assoc, (lor_shiftl_low (c / 64 mod 64)), lor_shiftl_low, wrapu_small by dlia. repeat f_equal. dlia.
Qed.
Lemma decode_length p c r : is_jchar c -> UTFToJCharLength (p ++ utf8 c ++ r) (length p) = Ret (length (utf8 c)).
Proof.
  intros Hc. pose proof (decode_char p c r Hc) as H. unfold UTFToJChar in H. apply bind_ret_inv in H as (n & Hn & H). rewrite Hn. f_equal. destruct n as [|[|[|[|n]]]]; try done.
  all: repeat (apply bind_ret_inv in H as (? & _ & H)); congruence.
Qed.

Lemma utf8_length c : is_jchar c -> (1 <= length (utf8 c) <= 3)%nat.
Proof. intros Hc. destruct (utf8_cases c Hc) as [[_ ->]|[[_ ->]|[_ ->]]]; simpl; lia. Qed.
Lemma encode_char c : is_jchar c -> JCharToUTF c 3 = Ret (utf8 c).
Proof. intros _. unfold utf8, JCharToUTF. rewrite decide_False; [done|]. unfold JCharToUTFLength. repeat case_decide; lia. Qed.
(** No byte of a character is the terminator of C strings. *)
Lemma utf8_no_nul c : is_jchar c -> NUL ∉ utf8 c.
Proof.
  intros Hc. unfold is_jchar in Hc. assert (forall z, uchar (to_char z) ≠ 0 -> NUL ≠ to_char z) as Hn by (intros z Hz E; rewrite <- E in Hz; done).
  assert (forall x, 0 <= x < 64 -> NUL ≠ to_char (Z.lor 128 x)) as Hcont by (intros x Hx; apply Hn; intros E; pose proof (cont_byte x Hx) as [H _]; rewrite E in H; done).
  destruct (utf8_cases c Hc) as [[H ->]|[[H ->]|[H ->]]]; rewrite !not_elem_of_cons; repeat split; try apply not_elem_of_nil; try (apply Hcont; dlia); apply Hn.
  - rewrite uchar_to_char_small; lia.
  - intros E. destruct (lead_2 (c / 64)) as [Hl _]; [dlia|]. rewrite E in Hl. done.
  - intros E. destruct (lead_3 (c / 4096)) as [Hl _]; [dlia|]. rewrite E in Hl. done.
Qed.

Lemma encoding_length cs : Forall is_jchar cs -> (length cs <= length (encoding cs))%nat.
Proof. induction 1 as [|c cs Hc _ IH]; [done|]. change (encoding (c :: cs)) with (utf8 c ++ encoding cs). rewrite length_app. cbn [length]. pose proof (utf8_length c Hc). lia. Qed.
Lemma encoding_no_nul cs : Forall is_jchar cs -> NUL ∉ encoding cs.
Proof. intros Hcs. unfold encoding. rewrite list_elem_of_bind. intros (c & Hn & Hc). by eapply utf8_no_nul; [|exact Hn]; apply (proj1 (list.Forall_forall _ _) Hcs). Qed.
Lemma write_encoding cs r : Forall is_jchar cs -> write_chars (cs ++ r) (length cs) = Ret (encoding cs).
Proof. induction 1 as [|c cs Hc _ IH]; [done|]. cbn [app length write_chars]. rewrite encode_char by done. cbn [mbind outcome_bind]. by rewrite IH. Qed.
Lemma count_encoding cs : Forall is_jchar cs -> forall fuel p n, (length cs < fuel)%nat -> n + Z.of_nat (length cs) < 2 ^ 31 -> count_chars fuel (p ++ encoding cs) (length p) n = Ret (n + Z.of_nat (length cs)).
Proof.
  induction 1 as [|c cs Hc _ IH]; intros [|fuel] p n Hf Hb; cbn [length] in Hf, Hb; try lia; cbn [count_chars].
  - rewrite decide_True by (rewrite length_app; simpl; lia). f_equal. simpl. lia.
  - pose proof (utf8_length c Hc). change (encoding (c :: cs)) with (utf8 c ++ encoding cs). rewrite decide_False by (rewrite !length_app; lia). rewrite decode_length by done. cbn [mbind outcome_bind].
    rewrite (decide_True (P := n + 1 < 2 ^ 31)) by lia. rewrite <- length_app, app_assoc, IH by lia. f_equal. cbn [length]. lia.
Qed.
Lemma skip_encoding cs : Forall is_jchar cs -> forall fuel p r, (length cs < fuel)%nat -> skip_chars fuel (p ++ encoding cs ++ r) (length p) (Z.of_nat (length cs)) = Ret (length (p ++ encoding cs)).
Proof.
  induction 1 as [|c cs Hc _ IH]; intros [|fuel] p r Hf; cbn [length] in Hf; try lia; cbn [skip_chars].
  - rewrite decide_True by done. by rewrite app_nil_r.
  - rewrite decide_False by (cbn [length]; lia). change (encoding (c :: cs)) with (utf8 c ++ encoding cs). rewrite <- (app_assoc (utf8 c)), decode_length by done. cbn [mbind outcome_bind].
    rewrite <- length_app, app_assoc. replace (Z.of_nat (length (c :: cs)) - 1) with (Z.of_nat (length cs)) by (cbn [length]; lia). rewrite IH by lia. by rewrite !app_assoc.
Qed.
Lemma read_encoding cs : Forall is_jchar cs -> forall fuel p r, (length cs < fuel)%nat -> read_chars fuel (p ++ encoding cs ++ r) (length p) (Z.of_nat (length cs)) = Ret cs.
Proof.
  induction 1 as [|c cs Hc _ IH]; intros [|fuel] p r Hf; cbn [length] in Hf; try lia; cbn [read_chars]; [done|].
  rewrite decide_False by (cbn [length]; lia). change (encoding (c :: cs)) with (utf8 c ++ encoding cs). rewrite <- (app_assoc (utf8 c)), decode_char by done. cbn [mbind outcome_bind].
  rewrite <- length_app, app_assoc. replace (Z.of_nat (length (c :: cs)) - 1) with (Z.of_nat (length cs)) by (cbn [length]; lia). by rewrite IH by lia.
Qed.
Lemma copy_encoding cs : Forall is_jchar cs -> forall fuel p r, (length cs < fuel)%nat -> copy_chars fuel (p ++ encoding cs ++ r) (length p) (Z.of_nat (length cs)) = Ret (encoding cs).
Proof.
  induction 1 as [|c cs Hc _ IH]; intros [|fuel] p r Hf; cbn [length] in Hf; try lia; cbn [copy_chars]; [done|].
  rewrite decide_False by (cbn [length]; lia). change (encoding (c :: cs)) with (utf8 c ++ encoding cs). rewrite <- (app_assoc (utf8 c)), decode_length by done. cbn [mbind outcome_bind].
  rewrite drop_app_length, take_app_length. rewrite <- length_app, app_assoc. replace (Z.of_nat (length (c :: cs)) - 1) with (Z.of_nat (length cs)) by (cbn [length]; lia). by rewrite IH by lia.
Qed.

(** Every read of a length stays in the string, or fails. *)
Lemma length_safe s cur : (cur <= length s)%nat ->
  (exists n, UTFToJCharLength s cur = Ret n /\ (1 <= n <= 3)%nat /\ (cur + n <= length s + 1)%nat /\ ((cur < length s)%nat -> (cur + n <= length s)%nat)) \/ UTFToJCharLength s cur = Throw UtfDataFormatError.
Proof.
  intros Hcur. assert (forall i, (i <= length s)%nat -> (utf_continues s i = Ret () /\ (i < length s)%nat) \/ utf_continues s i = Throw UtfDataFormatError) as Hc.
  { intros i Hi. unfold utf_continues. destruct (decide (i = length s)) as [->|Hne]; [right; by rewrite char_at_end|]. destruct (lookup_lt_is_Some_2 s i) as [c E]; [lia|]. rewrite (char_at_lt _ _ _ E). cbn [mbind outcome_bind]. case_decide; [left|right]; auto with lia. }
  unfold UTFToJCharLength. destruct (decide (cur = length s)) as [->|Hne]; [left; exists 1%nat; rewrite char_at_end; split; [done|lia]|].
  destruct (lookup_lt_is_Some_2 s cur) as [c E]; [lia|]. rewrite (char_at_lt _ _ _ E). cbn [mbind outcome_bind]. case_decide; [left; exists 1%nat; split; [done|lia]|].
  case_decide; [|case_decide; [|by right]]; (destruct (Hc (cur + 1)%nat) as [[-> Hlt]| ->]; [lia| |by right]); cbn [mbind outcome_bind].
  - left. exists 2%nat. split; [done|lia].
  - destruct (Hc (cur + 2)%nat) as [[-> Hlt']| ->]; [lia| |by right]. left. exists 3%nat. split; [done|lia].
Qed.
Lemma length_past s cur : (length s < cur)%nat -> UTFToJCharLength s cur = Undef.
Proof. intros H. unfold UTFToJCharLength, char_at. rewrite lookup_ge_None_2 by lia. rewrite decide_False by lia. done. Qed.
Lemma char_safe s cur n : UTFToJCharLength s cur = Ret n -> exists c, UTFToJChar s cur = Ret (c, n) /\ is_jchar c.
Proof.
  intros H. unfold UTFToJChar. rewrite H. cbn [mbind outcome_bind]. unfold UTFToJCharLength, utf_continues in H. destruct (char_at s cur) as [c| | |]; try done. cbn [mbind outcome_bind] in H.
  assert (forall z, is_jchar (wrapu 16 z)) as Hw by (intros z; apply wrapu_range; lia). case_decide; [simplify_eq; cbn; eauto|]. destruct (decide (Z.land (uchar c) 224 = 192)); [|destruct (decide (Z.land (uchar c) 240 = 224)); [|done]].
  all: destruct (char_at s (cur + 1)) as [c1| | |]; try done; cbn [mbind outcome_bind] in H; destruct (decide (Z.land (uchar c1) 192 = 128)); try done; cbn [mbind outcome_bind] in H.
  { simplify_eq; cbn; eauto. }
  destruct (char_at s (cur + 2)) as [c2| | |]; try done. cbn [mbind outcome_bind] in H. destruct (decide (Z.land (uchar c2) 192 = 128)); try done. cbn [mbind outcome_bind] in H. simplify_eq. cbn. eauto.
Qed.

(** The loops end: a read past the terminator stops them. *)
Definition ends {A} (P : A -> Prop) (m : outcome exn A) : Prop :=
  match m with Ret a => P a | Throw e => e = UtfDataFormatError | Undef => True | Diverge => False end.
Lemma ends_bind {A B} P Q (m : outcome exn A) (f : A -> outcome exn B) : ends P m -> (forall a, P a -> ends Q (f a)) -> ends Q (m ≫= f).
Proof. destruct m; simpl; auto. Qed.
Lemma length_ends s cur : ends (fun n => (1 <= n)%nat /\ (cur + n <= length s + 1)%nat) (UTFToJCharLength s cur).
Proof. destruct (decide (cur <= length s)%nat) as [H|H]; [|by rewrite length_past by lia]. destruct (length_safe s cur H) as [(n & -> & ? & ? & _)| ->]; [|done]. simpl. lia. Qed.
Lemma char_ends s cur : ends (fun cn => (1 <= cn.2)%nat /\ (cur + cn.2 <= length s + 1)%nat) (UTFToJChar s cur).
Proof.
  pose proof (length_ends s cur) as H. destruct (UTFToJCharLength s cur) as [n| | |] eqn:E; [|unfold UTFToJChar; by rewrite E..]. destruct (char_safe s cur n E) as (c & -> & _). done.
Qed.
Section loops.
Context (s : bytes).
Lemma skip_ends fuel : forall cur start, (cur <= length s + 1)%nat -> (length s + 2 <= cur + fuel)%nat -> ends (fun cur' => (cur' <= length s + 1)%nat) (skip_chars fuel s cur start).
Proof. induction fuel as [|fuel IH]; intros cur start Hc Hf; [lia|]. cbn [skip_chars]. case_decide; [done|]. eapply ends_bind; [apply length_ends|]. intros n [? ?]. apply IH; lia. Qed.
Lemma count_ends fuel : forall cur n, (cur <= length s)%nat -> (length s + 1 <= cur + fuel)%nat -> n + Z.of_nat (length s - cur) < 2 ^ 31 -> returns (count_chars fuel s cur n) (fun _ => True) \/ count_chars fuel s cur n = Throw UtfDataFormatError.
Proof.
  induction fuel as [|fuel IH]; intros cur n Hc Hf Hb; [lia|]. cbn [count_chars]. case_decide; [by left|]. destruct (length_safe s cur Hc) as [(k & -> & ? & ? & ?)| ->]; [|by right]. cbn [mbind outcome_bind].
  rewrite decide_True by lia. apply IH; lia.
Qed.
Lemma read_ends fuel : forall cur len, (cur <= length s + 1)%nat -> (length s + 2 <= cur + fuel)%nat -> ends (fun _ => True) (read_chars fuel s cur len).
Proof. induction fuel as [|fuel IH]; intros cur len Hc Hf; [lia|]. cbn [read_chars]. case_decide; [done|]. eapply ends_bind; [apply char_ends|]. intros [c n] [? ?]. cbn [snd] in *. eapply ends_bind; [apply IH; lia|done]. Qed.
Lemma copy_ends fuel : forall cur len, (cur <= length s + 1)%nat -> (length s + 2 <= cur + fuel)%nat -> ends (fun _ => True) (copy_chars fuel s cur len).
Proof. induction fuel as [|fuel IH]; intros cur len Hc Hf; [lia|]. cbn [copy_chars]. case_decide; [done|]. eapply ends_bind; [apply length_ends|]. intros n [? ?]. eapply ends_bind; [apply IH; lia|done]. Qed.

(** [k] characters from [cur] to the end of the string. *)
Inductive chars : nat -> nat -> Prop :=
  | chars_end : chars (length s) 0
  | chars_step cur n k : UTFToJCharLength s cur = Ret n -> chars (cur + n) k -> chars cur (S k).

Lemma count_split fuel : forall cur n r, count_chars fuel s cur n = Ret r -> exists k, chars cur k /\ r = n + Z.of_nat k /\ (k < fuel)%nat.
Proof.
  induction fuel as [|fuel IH]; intros cur n r H; [done|]. cbn [count_chars] in H. case_decide as Hc; [simplify_eq; exists 0%nat; split; [constructor|lia]|].
  apply bind_ret_inv in H as (m & Hm & H). destruct (decide (n + 1 < 2 ^ 31)); [|done]. apply IH in H as (k & Hk & -> & ?). exists (S k). split; [by econstructor|lia].
Qed.
Lemma skip_split a : forall fuel cur k, chars cur (a + k) -> (a < fuel)%nat -> exists cur', skip_chars fuel s cur (Z.of_nat a) = Ret cur' /\ chars cur' k.
Proof.
  induction a as [|a IH]; intros [|fuel] cur k H Hf; try lia; cbn [skip_chars]; [by exists cur|]. rewrite decide_False by lia. inversion H as [|? n ? Hn Hk]; subst. rewrite Hn. cbn [mbind outcome_bind].
  replace (Z.of_nat (S a) - 1) with (Z.of_nat a) by lia. apply IH; [done|lia].
Qed.
Lemma read_split a : forall fuel cur k, chars cur (a + k) -> (a < fuel)%nat -> exists cs, read_chars fuel s cur (Z.of_nat a) = Ret cs /\ length cs = a /\ Forall is_jchar cs.
Proof.
  induction a as [|a IH]; intros [|fuel] cur k H Hf; try lia; cbn [read_chars]; [by exists []|]. rewrite decide_False by lia. inversion H as [|? n ? Hn Hk]; subst. destruct (char_safe s cur n Hn) as (c & -> & Hc). cbn [mbind outcome_bind].
  replace (Z.of_nat (S a) - 1) with (Z.of_nat a) by lia. destruct (IH fuel _ k Hk) as (cs & -> & <- & ?); [lia|]. exists (c :: cs). auto.
Qed.
Lemma copy_split a : forall fuel cur k, chars cur (a + k) -> (a < fuel)%nat -> exists b, copy_chars fuel s cur (Z.of_nat a) = Ret b.
Proof.
  induction a as [|a IH]; intros [|fuel] cur k H Hf; try lia; cbn [copy_chars]; [by exists []|]. rewrite decide_False by lia. inversion H as [|? n ? Hn Hk]; subst. rewrite Hn. cbn [mbind outcome_bind].
  replace (Z.of_nat (S a) - 1) with (Z.of_nat a) by lia. destruct (IH fuel _ k Hk) as (b & ->); [lia|]. by eexists.
Qed.
End loops.

(** A region of an encoded string. *)
Lemma encoding_app a b : encoding (a ++ b) = encoding a ++ encoding b.
Proof. apply bind_app. Qed.
Lemma region_encoding a b c : Forall is_jchar a -> Forall is_jchar b -> Forall is_jchar c ->
  GetStringRegion (Some (encoding (a ++ b ++ c))) (Z.of_nat (length a)) (Z.of_nat (length b)) = Ret b /\ GetStringUTFRegion (Some (encoding (a ++ b ++ c))) (Z.of_nat (length a)) (Z.of_nat (length b)) = Ret (encoding b ++ [NUL]).
Proof.
  intros Ha Hb Hc. pose proof (encoding_length a Ha). pose proof (encoding_length b Hb). unfold GetStringRegion, GetStringUTFRegion. rewrite !encoding_app.
  assert (forall f, (length a < f)%nat -> skip_chars f (encoding a ++ encoding b ++ encoding c) 0 (Z.of_nat (length a)) = Ret (length (encoding a))) as Hs by (intros f Hf; exact (skip_encoding a Ha f [] _ Hf)).
  rewrite Hs by (rewrite length_app; lia). cbn [mbind outcome_bind]. rewrite read_encoding, copy_encoding by (done || rewrite !length_app; lia). done.
Qed.
Lemma c_string_whole s : NUL ∉ s -> c_string (s ++ [NUL]) = s.
Proof.
  intros H. unfold c_string. assert (list_find (fun c => c = NUL) (s ++ [NUL]) = Some (length s, NUL)) as ->; [|by rewrite take_app_length].
  apply list_find_Some. split; [by rewrite list_lookup_middle|]. split; [done|]. intros j c Hj Hlt ->. rewrite lookup_app_l in Hj by done. by eapply H, list_elem_of_lookup_2.
Qed.
Lemma length_encoding cs : Forall is_jchar cs -> Z.of_nat (length cs) < 2 ^ 31 -> GetStringLength (Some (encoding cs)) = Ret (Z.of_nat (length cs)).
Proof. intros H Hb. pose proof (encoding_length cs H). exact (count_encoding cs H (length (encoding cs) + 1) [] 0 ltac:(lia) ltac:(lia)). Qed.

(** ** Theorems *)

(** C30. Characters, no more than a [jsize] counts, turned into a string come back: the length, the copy of all
    characters, and every region of them, as characters and as bytes.  The bytes of
    the string hold no NUL, so that the pointer [GetStringUTFChars] returns is a C
    string of the whole, from which [NewStringUTF] makes an equal one. *)
Theorem string_round_trip (cs : list jchar) (start len : nat) : Forall is_jchar cs -> Z.of_nat (length cs) < 2 ^ 31 -> (start + len <= length cs)%nat ->
  exists s, NewString cs (Z.of_nat (length cs)) = Ret s /\ NUL ∉ s /\
    GetStringLength (Some s) = Ret (Z.of_nat (length cs)) /\ GetStringChars (Some s) = Ret (cs, Some true) /\
    GetStringRegion (Some s) (Z.of_nat start) (Z.of_nat len) = Ret (take len (drop start cs)) /\
    (exists b, NewString (take len (drop start cs)) (Z.of_nat len) = Ret b /\ GetStringUTFRegion (Some s) (Z.of_nat start) (Z.of_nat len) = Ret (b ++ [NUL])) /\
    NewStringUTF (Some (GetStringUTFChars (Some s)).1) = s.
Proof.
  intros Hcs Hsize Hlen. assert (forall a, Forall is_jchar a -> NewString a (Z.of_nat (length a)) = Ret (encoding a)) as Hnew.
  { intros a Ha. unfold NewString. rewrite Nat2Z.id. rewrite <- (app_nil_r a) at 1. by apply write_encoding. }
  exists (encoding cs). split; [by apply Hnew|]. split; [by apply encoding_no_nul|]. split; [by apply length_encoding|].
  set (a := take start cs). set (b := take len (drop start cs)). set (c := drop len (drop start cs)). assert (cs = a ++ b ++ c) as E by (unfold a, b, c; by rewrite take_drop, take_drop).
  assert (length a = start) as La by (apply length_take_le; lia). assert (length b = len) as Lb by (apply length_take_le; rewrite length_drop; lia).
  assert (Forall is_jchar a /\ Forall is_jchar b /\ Forall is_jchar c) as (Ha & Hb & Hc) by (rewrite E, !Forall_app in Hcs; done).
  destruct (region_encoding a b c Ha Hb Hc) as [Hr Hu]. destruct (region_encoding [] cs [] (Forall_nil_2 _) Hcs (Forall_nil_2 _)) as [Hall _]. rewrite <- E, La, Lb in Hr, Hu. rewrite app_nil_r in Hall. change (Z.of_nat (length [])) with 0 in Hall. change ([] ++ cs) with cs in Hall.
  split; [unfold GetStringChars; rewrite length_encoding by done; cbn [mbind outcome_bind]; by rewrite Hall|]. split; [done|]. split; [exists (encoding b); rewrite <- Lb at 1; split; [by apply Hnew|done]|].
  by apply c_string_whole, encoding_no_nul.
Qed.
Lemma string_round_trip_witness : exists s, NewString [104; 0; 233; 8364; 55357; 56832] 6 = Ret s /\ GetStringRegion (Some s) 1 4 = Ret [0; 233; 8364; 55357].
Proof.
  destruct (string_round_trip [104; 0; 233; 8364; 55357; 56832] 1 4) as (s & H & _ & _ & _ & Hr & _); [|simpl; lia|simpl; lia|by exists s].
  repeat (apply Forall_cons; [unfold is_jchar; lia|]). apply Forall_nil.
Defined.

(** Every call returns on any bytes below 2 GiB, whatever the string holds: the length is
    counted, or the string is refused as malformed; where it is counted, every
    region inside it is read; and no region makes the loops run on. *)
Theorem string_reads_end (s : bytes) : Z.of_nat (length s) < 2 ^ 31 ->
  ((exists n, GetStringLength (Some s) = Ret n /\ 0 <= n /\ forall start len, 0 <= start -> 0 <= len -> start + len <= n ->
     (exists cs, GetStringRegion (Some s) start len = Ret cs /\ Z.of_nat (length cs) = len /\ Forall is_jchar cs) /\ exists b, GetStringUTFRegion (Some s) start len = Ret b) \/
   GetStringLength (Some s) = Throw UtfDataFormatError) /\
  forall start len, GetStringRegion (Some s) start len ≠ Diverge /\ GetStringUTFRegion (Some s) start len ≠ Diverge.
Proof.
  intros Hb. split.
  - destruct (count_ends s (length s + 1) 0 0) as [H|H]; [lia..| |by right]. left. apply returns_ret in H as (n & H & _). exists n. destruct (count_split _ _ _ _ _ H) as (k & Hk & -> & Hf). split; [done|]. split; [lia|].
    intros start len Hs Hl Hsum. rewrite <- (Z2Nat.id start), <- (Z2Nat.id len) by done. replace k with (Z.to_nat start + (Z.to_nat len + (k - Z.to_nat start - Z.to_nat len)))%nat in Hk by lia.
    unfold GetStringRegion, GetStringUTFRegion. destruct (skip_split s (Z.to_nat start) (length s + 2) 0 _ Hk) as (cur & -> & Hcur); [lia|]. cbn [mbind outcome_bind].
    destruct (read_split s (Z.to_nat len) (length s + 2) cur _ Hcur) as (cs & -> & Hlc & Hcs); [lia|]. destruct (copy_split s (Z.to_nat len) (length s + 2) cur _ Hcur) as (b & ->); [lia|]. split; [exists cs; rewrite Hlc|]; eauto.
  - intros start len. unfold GetStringRegion, GetStringUTFRegion. pose proof (skip_ends s (length s + 2) 0 start) as H. destruct (skip_chars _ s 0 start) as [cur| | |]; try (split; done); [|by destruct H; lia]. simpl in H. cbn [mbind outcome_bind].
    pose proof (read_ends s (length s + 2) cur len) as Hr. pose proof (copy_ends s (length s + 2) cur len) as Hc. destruct (read_chars _ _ _ _), (copy_chars _ _ _ _); try (split; done); (destruct Hr; lia) || (destruct Hc; lia).
Qed.

(** A four-byte sequence, which is UTF-8 but not modified UTF-8, is accepted by
    [NewStringUTF], and every later count of its characters throws. *)
Example four_bytes_refused : GetStringLength (Some (NewStringUTF (Some (map to_char [240; 159; 152; 128; 0])))) = Throw UtfDataFormatError.
Proof. reflexivity. Qed.
(** A region past the end reads the terminator as a character, and then runs off the buffer. *)
Example region_past_end : GetStringRegion (Some (lit "a")) 0 2 = Ret [97; 0] /\ GetStringRegion (Some (lit "a")) 0 3 = Undef.
Proof. split; reflexivity. Qed.

End JniStrings.
