(* ===== verification/JniSignatures.v ===== *)
(** * libjnivm: skipJNIType.cpp, jValuesfromValist.cpp, codegen/parseJNIType.cpp

    The signatures of Java methods: the routine that steps over one type, the one
    that reads the variable arguments of a call by its signature, and the one that
    turns a type into the C++ type of the generated wrapper.  A pointer into a
    signature is an index into its bytes, and reading past the terminating NUL is
    undefined.  A [va_list] is the list of the promoted arguments that are left;
    [va_arg] at another type than the argument's, or past the last one, is
    undefined. *)

From S2P Require Import Prelude CxxString.
From Stdlib Require Import ZArith Ascii Lia.
From stdpp Require Import base list strings numbers.

Open Scope Z_scope.

Module JniSignatures.

(** ** skipJNIType.cpp *)

(** [std::find(cur, end, ';')]. *)
Definition find_semicolon (s : bytes) (cur : nat) : nat := default (length s) (find_from (lit ";") s cur).

(** The pointer after the type at [cur].  An array calls itself on the element
    and steps one back before the common step forward. *)
Fixpoint SkipJNIType (fuel : nat) (s : bytes) (cur : nat) : outcome exn nat :=
  match fuel with
  | O => Diverge
  | S fuel =>
      c ← char_at s cur;
      if decide (c = "["%char) then
        cur ← SkipJNIType fuel s (cur + 1);
        Ret (cur - 1 + 1)%nat
      else if decide (c = "L"%char) then Ret (find_semicolon s cur + 1)%nat
      else if decide (c = "("%char) then SkipJNIType fuel s (cur + 1)
      else Ret (cur + 1)%nat
  end.

(** ** jValuesfromValist.cpp *)

Section values.
(** The floating-point types, and the conversion of a [jdouble] to a [jfloat]. *)
Context {jdouble jfloat : Type} (to_float : jdouble -> jfloat).

(** A promoted argument; an object is a pointer. *)
Inductive promoted := AInt (z : Z) | ALong (z : Z) | ADouble (d : jdouble) | APtr (p : Z).
(** The union [jvalue] by the member last written; [VNone] is the zeroed one. *)
Inductive jvalue := VNone | VZ (z : Z) | VB (z : Z) | VS (z : Z) | VI (z : Z) | VJ (z : Z) | VF (f : jfloat) | VD (d : jdouble) | VL (p : Z).

Definition va_int (l : list promoted) : outcome exn (Z * list promoted) := match l with AInt z :: l => Ret (z, l) | _ => Undef end.
Definition va_long (l : list promoted) : outcome exn (Z * list promoted) := match l with ALong z :: l => Ret (z, l) | _ => Undef end.
Definition va_double (l : list promoted) : outcome exn (jdouble * list promoted) := match l with ADouble d :: l => Ret (d, l) | _ => Undef end.
Definition va_ptr (l : list promoted) : outcome exn (Z * list promoted) := match l with APtr p :: l => Ret (p, l) | _ => Undef end.

(** The [switch] on [*signature]: the value, the arguments left and the pointer before the common step. *)
Definition read_value (s : bytes) (sig : nat) (c : ascii) (l : list promoted) : outcome exn (jvalue * list promoted * nat) :=
  if decide (c = "Z"%char) then '(z, l) ← va_int l; Ret (VZ (wrapu 8 z), l, sig)
  else if decide (c = "B"%char) then '(z, l) ← va_int l; Ret (VB (wraps 8 z), l, sig)
  else if decide (c = "S"%char) then '(z, l) ← va_int l; Ret (VS (wraps 16 z), l, sig)
  else if decide (c = "I"%char) then '(z, l) ← va_int l; Ret (VI z, l, sig)
  else if decide (c = "J"%char) then '(z, l) ← va_long l; Ret (VJ z, l, sig)
  else if decide (c = "F"%char) then '(d, l) ← va_double l; Ret (VF (to_float d), l, sig)
  else if decide (c = "D"%char) then '(d, l) ← va_double l; Ret (VD d, l, sig)
  else if decide (c = "["%char) then
    next ← SkipJNIType (length s + 2) s (sig + 1);
    '(p, l) ← va_ptr l;
    Ret (VL p, l, (next - 1)%nat)
  else if decide (c = "L"%char) then
    let sig := find_semicolon s sig in
    if decide (sig = length s) then Throw (invalid_argument "Signature missing ';' after 'L'")
    else '(p, l) ← va_ptr l; Ret (VL p, l, sig)
  else Ret (VNone, l, sig).

(** [*signature != ')' && signature != end]. *)
Fixpoint read_values (fuel : nat) (s : bytes) (sig : nat) (l : list promoted) : outcome exn (list jvalue) :=
  match fuel with
  | O => Diverge
  | S fuel =>
      c ← char_at s sig;
      if decide (c = ")"%char \/ sig = length s) then Ret []
      else
        '(v, l, sig) ← read_value s sig c l;
        values ← read_values fuel s (sig + 1) l;
        Ret (v :: values)
  end.
Definition JValuesfromValist (l : list promoted) (s : bytes) : outcome exn (list jvalue) :=
  c ← char_at s 0;
  if decide (c = "("%char) then read_values (length s + 1) s 1 l
  else Throw (invalid_argument ("Signature doesn't begin with '(' " +:+ String.string_of_list_ascii s)).
End values.
Arguments promoted : clear implicits.
Arguments jvalue : clear implicits.

(** ** codegen/parseJNIType.cpp *)

(** [std::regex_replace(name, std::regex("(/|\\$)"), "::")]. *)
Definition scoped (name : bytes) : bytes := name ≫= (fun c => if decide (c = "/"%char \/ c = "$"%char) then lit "::" else [c]).
(** The plain types by their letter, in the two syntaxes; [None] for a letter the [switch] does not know. *)
Definition plain_type (fake : bool) (c : ascii) : option bytes :=
  if decide (c = "V"%char) then Some (lit "void")
  else if decide (c = "Z"%char) then Some (lit (if fake then "FakeJni::JBoolean" else "jboolean"))
  else if decide (c = "B"%char) then Some (lit (if fake then "FakeJni::JByte" else "jbyte"))
  else if decide (c = "S"%char) then Some (lit (if fake then "FakeJni::JShort" else "jshort"))
  else if decide (c = "I"%char) then Some (lit (if fake then "FakeJni::JInt" else "jint"))
  else if decide (c = "J"%char) then Some (lit (if fake then "FakeJni::JLong" else "jlong"))
  else if decide (c = "F"%char) then Some (lit (if fake then "FakeJni::JFloat" else "jfloat"))
  else if decide (c = "D"%char) then Some (lit (if fake then "FakeJni::JDouble" else "jdouble"))
  else None.
(** The inner [switch], on the letter of the element type. *)
Definition array_type (c : ascii) (type : bytes) : bytes :=
  if decide (c = "Z"%char) then lit "std::shared_ptr<FakeJni::JBooleanArray>"
  else if decide (c = "B"%char) then lit "std::shared_ptr<FakeJni::JByteArray>"
  else if decide (c = "S"%char) then lit "std::shared_ptr<FakeJni::JShortArray>"
  else if decide (c = "I"%char) then lit "std::shared_ptr<FakeJni::JIntArray>"
  else if decide (c = "J"%char) then lit "std::shared_ptr<FakeJni::JLongArray>"
  else if decide (c = "F"%char) then lit "std::shared_ptr<FakeJni::JFloatArray>"
  else if decide (c = "D"%char) then lit "std::shared_ptr<FakeJni::JDoubleArray>"
  else type.

(** The pointer returned, at the last byte of the type, and the string [type]
    after the call; [fake] is [JNIVM_FAKE_JNI_SYNTAX]. *)
Fixpoint ParseJNIType (fake : bool) (fuel : nat) (s : bytes) (last : nat) (type : bytes) : outcome exn (nat * bytes) :=
  match fuel with
  | O => Diverge
  | S fuel =>
      c ← char_at s last;
      if decide (c = "["%char) then
        '(cur, type) ← ParseJNIType fake fuel s (last + 1) type;
        if fake then
          if decide (cur - (last + 1) = 1)%nat then
            c ← char_at s (last + 1);
            Ret (cur, array_type c type)
          else Ret (cur, lit "std::shared_ptr<FakeJni::JArray<" ++ type ++ lit ">>")
        else Ret (cur, lit "std::shared_ptr<jnivm::Array<" ++ type ++ lit ">>")
      else if decide (c = "L"%char) then
        let cend := find_semicolon s last in
        let text := take (cend - last) (drop last s) in
        Ret (cend,
             if decide (fake /\ (cend - last)%nat = 16%nat /\ text = lit "java/lang/String") then lit "std::shared_ptr<FakeJni::JString>"
             else if decide (fake /\ (cend - last)%nat = 16%nat /\ text = lit "java/lang/Object") then lit "std::shared_ptr<FakeJni::JObject>"
             else lit "std::shared_ptr<" ++ scoped (drop 1 text) ++ lit ">")
      else Ret (last, default type (plain_type fake c))
  end.

(** ** codegen/method.cpp *)

(** The loop over the signature: the parameters, the return type and [inarg]. *)
Fixpoint read_types (fake : bool) (fuel : nat) (s : bytes) (cur : nat) (inarg : bool) (parameters : list bytes) (rettype : bytes) : outcome exn (list bytes * bytes) :=
  match fuel with
  | O => Diverge
  | S fuel =>
      if decide (cur = length s) then Ret (parameters, rettype)
      else
        c ← char_at s cur;
        if decide (c = "("%char) then read_types fake fuel s (cur + 1) true parameters rettype
        else if decide (c = ")"%char) then read_types fake fuel s (cur + 1) false parameters rettype
        else
          '(cur, type) ← ParseJNIType fake (length s + 2) s cur [];
          if decide (type = []) then read_types fake fuel s (cur + 1) inarg parameters rettype
          else if inarg then read_types fake fuel s (cur + 1) inarg (parameters ++ [type]) rettype
          else read_types fake fuel s (cur + 1) inarg parameters type
  end.

Record Method := mkMethod { name : bytes; signature : bytes; _static : bool; native : bool }.

(** The text between the parentheses; [item i p] is what is written for parameter [i]. *)
Definition write_parameters (fake : bool) (m : Method) (item : nat -> bytes -> bytes) (parameters : list bytes) : bytes :=
  (if fake then [] else lit "jnivm::ENV *" ++ (if m.(_static) then lit ", jnivm::Class* cl" else [])) ++
  mjoin (imap (fun i p => (if decide (i ≠ 0%nat \/ fake = false) then lit ", " else []) ++ item i p) parameters).

Definition GenerateHeader (fake : bool) (m : Method) (cname : bytes) : outcome exn bytes :=
  if m.(native) then Ret []
  else
    '(parameters, rettype) ← read_types fake (length m.(signature) + 2) m.(signature) 0 false [] [];
    Ret ((if decide (m.(name) = lit "<init>") then cname
          else (if m.(_static) then lit "static " else []) ++ rettype ++ lit " " ++ m.(name)) ++
         lit "(" ++ write_parameters fake m (fun _ p => p) parameters ++ lit ");").

Definition GenerateStubs (fake : bool) (m : Method) (scope cname : bytes) : outcome exn bytes :=
  if m.(native) then Ret []
  else
    '(parameters, rettype) ← read_types fake (length m.(signature) + 2) m.(signature) 0 false [] [];
    Ret ((if decide (m.(name) = lit "<init>") then scope ++ lit "::" ++ cname
          else rettype ++ lit " " ++ scope ++ lit "::" ++ m.(name)) ++
         lit "(" ++ write_parameters fake m (fun i p => p ++ lit " arg" ++ to_string (Z.of_nat i)) parameters ++
         lit ") {" ++ [to_char 10] ++ lit "    " ++ (if decide (rettype = lit "void") then [] else lit "return {};") ++
         [to_char 10] ++ lit "}" ++ [to_char 10; to_char 10]).

(** ** Signatures as data *)

Inductive jtype := TBoolean | TByte | TChar | TShort | TInt | TLong | TFloat | TDouble | TArray (t : jtype) | TClass (name : bytes).

Fixpoint descriptor (t : jtype) : bytes :=
  match t with
  | TBoolean => lit "Z" | TByte => lit "B" | TChar => lit "C" | TShort => lit "S" | TInt => lit "I"
  | TLong => lit "J" | TFloat => lit "F" | TDouble => lit "D"
  | TArray t => lit "[" ++ descriptor t
  | TClass name => lit "L" ++ name ++ lit ";"
  end.
Fixpoint named (t : jtype) : Prop :=
  match t with TArray t => named t | TClass name => ";"%char ∉ name | _ => True end.
(** [ret] is [None] for [void]. *)
Definition print_signature (ts : list jtype) (ret : option jtype) : bytes :=
  lit "(" ++ (ts ≫= descriptor) ++ lit ")" ++ match ret with Some t => descriptor t | None => lit "V" end.

(** What passing a value through the variable arguments makes of it.  There is no
    case for a character: it is promoted to [int]. *)
Inductive passed {jdouble jfloat} (widen : jfloat -> jdouble) : jtype -> jvalue jdouble jfloat -> promoted jdouble -> Prop :=
  | pass_boolean z : 0 <= z < 2 ^ 8 -> passed widen TBoolean (VZ z) (AInt z)
  | pass_byte z : - 2 ^ 7 <= z < 2 ^ 7 -> passed widen TByte (VB z) (AInt z)
  | pass_short z : - 2 ^ 15 <= z < 2 ^ 15 -> passed widen TShort (VS z) (AInt z)
  | pass_int z : passed widen TInt (VI z) (AInt z)
  | pass_long z : passed widen TLong (VJ z) (ALong z)
  | pass_float f : passed widen TFloat (VF f) (ADouble (widen f))
  | pass_double d : passed widen TDouble (VD d) (ADouble d)
  | pass_array t p : named t -> passed widen (TArray t) (VL p) (APtr p)
  | pass_object name p : ";"%char ∉ name -> passed widen (TClass name) (VL p) (APtr p).

(** The C++ type of the wrapper. *)
Fixpoint cpp_type (t : jtype) : bytes :=
  match t with
  | TBoolean => lit "jboolean" | TByte => lit "jbyte" | TChar => [] | TShort => lit "jshort" | TInt => lit "jint"
  | TLong => lit "jlong" | TFloat => lit "jfloat" | TDouble => lit "jdouble"
  | TArray t => lit "std::shared_ptr<jnivm::Array<" ++ cpp_type t ++ lit ">>"
  | TClass name => lit "std::shared_ptr<" ++ scoped name ++ lit ">"
  end.

(** ** Lemmas *)

Lemma find_end p name r : ";"%char ∉ name -> find_semicolon (p ++ "L"%char :: name ++ ";"%char :: r) (length p) = (length p + S (length name))%nat.
Proof. intros H. unfold find_semicolon. change ("L"%char :: name ++ ";"%char :: r) with (("L"%char :: name) ++ ";"%char :: r). change (lit ";") with [";"%char]. rewrite find_from_skip; [done|]. rewrite not_elem_of_cons. done. Qed.
Lemma descriptor_length t : (1 <= length (descriptor t))%nat.
Proof. destruct t; simpl; lia. Qed.
Lemma descriptors_length ts : (length ts <= length (ts ≫= descriptor))%nat.
Proof. induction ts as [|t ts IH]; [done|]. change ((t :: ts) ≫= descriptor) with (descriptor t ++ (ts ≫= descriptor)). rewrite length_app. pose proof (descriptor_length t). cbn [length]. lia. Qed.
(** The letters a descriptor starts with. *)
Lemma descriptor_head t : exists c d, descriptor t = c :: d /\ c ≠ "("%char /\ c ≠ ")"%char.
Proof. destruct t; eexists _, _; (split; [reflexivity|done]). Qed.
Lemma shift_head (p : bytes) c x : p ++ c :: x = (p ++ [c]) ++ x.
Proof. by rewrite <- app_assoc. Qed.
Lemma length_snoc (p : bytes) c : length (p ++ [c]) = (length p + 1)%nat.
Proof. by rewrite length_app. Qed.

Lemma skip_descriptor t : named t -> forall fuel p r, (length (descriptor t) <= fuel)%nat -> SkipJNIType fuel (p ++ descriptor t ++ r) (length p) = Ret (length p + length (descriptor t))%nat.
Proof.
  induction t as [| | | | | | | |t IH|name]; intros Hn [|fuel] p r Hf; try (simpl in Hf; lia).
  1-8: cbn [descriptor lit String.list_ascii_of_string app SkipJNIType]; rewrite char_at_app; done.
  - cbn [descriptor lit String.list_ascii_of_string app SkipJNIType length] in *. rewrite char_at_app. cbn [mbind outcome_bind]. rewrite decide_True by done. rewrite shift_head, <- (length_snoc p "["%char), IH by (done || lia). cbn [mbind outcome_bind]. f_equal. rewrite length_snoc. lia.
  - cbn [descriptor lit String.list_ascii_of_string app SkipJNIType length] in *. rewrite char_at_app. cbn [mbind outcome_bind]. rewrite decide_False by done. rewrite decide_True by done. rewrite <- app_assoc. cbn [app]. rewrite find_end by done. f_equal. rewrite length_app. simpl. lia.
Qed.

Section reading.
Context {jdouble jfloat : Type} (to_float : jdouble -> jfloat) (widen : jfloat -> jdouble) (Hwiden : forall f, to_float (widen f) = f).

Lemma read_passed t v a p r l : passed widen t v a ->
  exists c, char_at (E := exn) (p ++ descriptor t ++ r) (length p) = Ret c /\ c ≠ ")"%char /\ read_value to_float (p ++ descriptor t ++ r) (length p) c (a :: l) = Ret (v, l, (length p + length (descriptor t) - 1)%nat).
Proof.
  assert (length p = length p + 1 - 1)%nat as E by lia.
  intros H. destruct H as [z Hz|z Hz|z Hz|z|z|f|d|t p0 Hn|name p0 Hn]; cbn [descriptor lit String.list_ascii_of_string app]; (eexists; split; [apply char_at_app|]; split; [done|]).
  1-7: cbn [length]; rewrite <- E; unfold read_value; repeat (rewrite decide_False by done); rewrite decide_True by done; cbn [va_int va_long va_double mbind outcome_bind]; rewrite ?wrapu_small, ?wraps_small, ?Hwiden by lia; done.
  - unfold read_value. repeat (rewrite decide_False by done). rewrite decide_True by done. rewrite shift_head, <- (length_snoc p "["%char). pose proof (descriptor_length t).
    rewrite skip_descriptor by (done || rewrite !length_app; lia). cbn [mbind outcome_bind va_ptr]. do 2 f_equal. rewrite length_snoc. cbn [length]. lia.
  - unfold read_value. repeat (rewrite decide_False by done). rewrite <- app_assoc. cbn [app]. rewrite decide_True by done. rewrite find_end by done. rewrite decide_False by (rewrite !length_app; cbn [length]; rewrite length_app; cbn [length]; lia).
    cbn [mbind outcome_bind va_ptr]. do 2 f_equal. cbn [length]. rewrite length_app. cbn [length]. lia.
Qed.
Lemma read_all ts vs args : Forall3 (passed widen) ts vs args -> forall fuel p r, (length ts < fuel)%nat ->
  read_values to_float fuel (p ++ (ts ≫= descriptor) ++ ")"%char :: r) (length p) args = Ret vs.
Proof.
  induction 1 as [|t v a ts vs args Ht _ IH]; intros [|fuel] p r Hf; try (simpl in Hf; lia); cbn [read_values].
  - cbn [mbind list_bind app]. rewrite char_at_app. cbn [mbind outcome_bind]. by rewrite decide_True by auto.
  - change ((t :: ts) ≫= descriptor) with (descriptor t ++ (ts ≫= descriptor)). rewrite <- app_assoc. pose proof (descriptor_length t). destruct (read_passed t v a p ((ts ≫= descriptor) ++ ")"%char :: r) args Ht) as (c & -> & Hc & Hv). cbn [mbind outcome_bind].
    rewrite decide_False by (intros [?|E]; [done|rewrite !length_app in E; cbn [length] in E; lia]). rewrite Hv. cbn [mbind outcome_bind]. replace (length p + length (descriptor t) - 1 + 1)%nat with (length (p ++ descriptor t)) by (rewrite length_app; lia).
    rewrite app_assoc, IH by (simpl in Hf; lia). done.
Qed.
End reading.

Lemma parse_descriptor t : named t -> forall fuel p r, (length (descriptor t) <= fuel)%nat -> ParseJNIType false fuel (p ++ descriptor t ++ r) (length p) [] = Ret ((length p + length (descriptor t) - 1)%nat, cpp_type t).
Proof.
  assert (forall p : bytes, length p = length p + 1 - 1)%nat as E by (intros; lia).
  induction t as [| | | | | | | |t IH|name]; intros Hn [|fuel] p r Hf; try (simpl in Hf; lia).
  1-8: cbn [descriptor lit String.list_ascii_of_string app ParseJNIType length]; rewrite char_at_app, <- E; done.
  - cbn [descriptor lit String.list_ascii_of_string app ParseJNIType length] in *. rewrite char_at_app. cbn [mbind outcome_bind]. rewrite decide_True by done. pose proof (descriptor_length t). rewrite shift_head, <- (length_snoc p "["%char), IH by (done || lia). cbn [mbind outcome_bind]. do 2 f_equal. rewrite length_snoc. lia.
  - cbn [descriptor lit String.list_ascii_of_string app ParseJNIType length] in *. rewrite char_at_app. cbn [mbind outcome_bind]. rewrite decide_False by done. rewrite decide_True by done. rewrite <- app_assoc. cbn [app]. rewrite find_end by done. rewrite decide_False by naive_solver. rewrite decide_False by naive_solver.
    rewrite drop_app_length. replace (length p + S (length name) - length p)%nat with (S (length name)) by lia. cbn [take drop]. rewrite take_app_length. do 2 f_equal. rewrite length_app. simpl. lia.
Qed.

(** The loop of the wrapper generator over a printed signature. *)
Lemma cpp_type_nonempty t : t ≠ TChar -> cpp_type t ≠ [].
Proof. destruct t; done. Qed.
Lemma read_types_one t : named t -> t ≠ TChar -> forall fuel p r inarg ps ret,
  read_types false (S fuel) (p ++ descriptor t ++ r) (length p) inarg ps ret =
  read_types false fuel (p ++ descriptor t ++ r) (length (p ++ descriptor t)) inarg (if inarg then ps ++ [cpp_type t] else ps) (if inarg then ret else cpp_type t).
Proof.
  intros Hn Ht fuel p r inarg ps ret. cbn [read_types]. pose proof (descriptor_length t). rewrite decide_False by (rewrite !length_app; lia). destruct (descriptor_head t) as (c & d & E & Ho & Hc).
  assert (char_at (E := exn) (p ++ descriptor t ++ r) (length p) = Ret c) as -> by (rewrite E; apply char_at_app). cbn [mbind outcome_bind]. rewrite decide_False by done. rewrite decide_False by done.
  rewrite parse_descriptor by (done || rewrite !length_app; lia). cbn [mbind outcome_bind]. rewrite decide_False by (by apply cpp_type_nonempty). replace (length p + length (descriptor t) - 1 + 1)%nat with (length (p ++ descriptor t)) by (rewrite length_app; lia). by destruct inarg.
Qed.
Lemma read_types_params ts : Forall named ts -> TChar ∉ ts -> forall fuel p r ps ret,
  read_types false (length ts + fuel) (p ++ (ts ≫= descriptor) ++ r) (length p) true ps ret =
  read_types false fuel (p ++ (ts ≫= descriptor) ++ r) (length (p ++ (ts ≫= descriptor))) true (ps ++ map cpp_type ts) ret.
Proof.
  induction 1 as [|t ts Ht _ IH]; intros Hc fuel p r ps ret; [cbn [mbind list_bind map length]; by rewrite !app_nil_r|]. apply not_elem_of_cons in Hc as [Ht' Hc].
  change ((t :: ts) ≫= descriptor) with (descriptor t ++ (ts ≫= descriptor)). rewrite <- app_assoc. cbn [length Nat.add]. rewrite read_types_one by done. rewrite app_assoc, IH by done. by rewrite <- !app_assoc.
Qed.
Lemma read_types_paren c p r fuel inarg ps ret : c = "("%char \/ c = ")"%char ->
  read_types false (S fuel) (p ++ c :: r) (length p) inarg ps ret = read_types false fuel (p ++ c :: r) (length (p ++ [c])) (bool_decide (c = "("%char)) ps ret.
Proof. intros Hc. cbn [read_types]. rewrite decide_False by (rewrite length_app; cbn [length]; lia). rewrite char_at_app, length_snoc. cbn [mbind outcome_bind]. destruct Hc as [-> | ->]; done. Qed.
Lemma read_types_end s fuel inarg ps ret : read_types false (S fuel) s (length s) inarg ps ret = Ret (ps, ret).
Proof. cbn [read_types]. by rewrite decide_True by done. Qed.
Lemma read_types_void p fuel ps ret : read_types false (S fuel) (p ++ lit "V") (length p) false ps ret = read_types false fuel (p ++ lit "V") (length (p ++ lit "V")) false ps (lit "void").
Proof.
  change (lit "V") with ["V"%char]. cbn [read_types]. rewrite decide_False by (rewrite length_app; cbn [length]; lia). rewrite char_at_app. cbn [mbind outcome_bind]. repeat (rewrite decide_False by done).
  replace (length (p ++ ["V"%char]) + 2)%nat with (S (length (p ++ ["V"%char]) + 1)) by lia. cbn [ParseJNIType]. rewrite char_at_app. cbn [mbind outcome_bind]. by rewrite length_snoc.
Qed.
Lemma read_signature ts ret : Forall named ts -> TChar ∉ ts -> (match ret with Some t => named t /\ t ≠ TChar | None => True end) ->
  forall fuel, (length ts + 4 <= fuel)%nat -> read_types false fuel (print_signature ts ret) 0 false [] [] = Ret (map cpp_type ts, match ret with Some t => cpp_type t | None => lit "void" end).
Proof.
  intros Hts Hc Hret fuel Hf. replace fuel with (S (length ts + S (S (S (fuel - length ts - 4)))))%nat by lia. set (k := (fuel - length ts - 4)%nat). unfold print_signature.
  set (e := match ret with Some t => descriptor t | None => _ end). change (lit "(" ++ (ts ≫= descriptor) ++ lit ")" ++ e) with ([] ++ "("%char :: ((ts ≫= descriptor) ++ ")"%char :: e)). change 0%nat with (length (@nil ascii)).
  rewrite read_types_paren by auto. rewrite bool_decide_true by done. rewrite shift_head. rewrite read_types_params by done. cbn [app]. change ("("%char :: ((ts ≫= descriptor) ++ ")"%char :: e)) with (("("%char :: (ts ≫= descriptor)) ++ ")"%char :: e). rewrite read_types_paren by auto. rewrite bool_decide_false by done. rewrite shift_head. unfold e. destruct ret as [t|].
  - destruct Hret as [Hn Ht]. rewrite <- (app_nil_r (descriptor t)) at 1. rewrite read_types_one by done. rewrite app_nil_r. apply read_types_end.
  - rewrite read_types_void. apply read_types_end.
Qed.

(** The loops end on every signature. *)
Lemma semicolon_bounds s cur : (cur <= length s)%nat -> (cur <= find_semicolon s cur <= length s)%nat.
Proof. intros H. unfold find_semicolon. destruct (find_from (lit ";") s cur) as [q|] eqn:E; simpl; [|lia]. apply find_from_bounds in E as [? _]. lia. Qed.
Lemma char_at_defined s i c : char_at (E := exn) s i = Ret c -> (i <= length s)%nat.
Proof. unfold char_at. destruct (s !! i) eqn:E; [intros _; apply lookup_lt_Some in E; lia|case_decide; [lia|done]]. Qed.
Lemma skip_type_ends s fuel : forall cur, (cur <= length s + 1)%nat -> (length s + 2 <= cur + fuel)%nat -> match SkipJNIType fuel s cur with Ret n => (cur < n <= length s + 1)%nat | Undef => True | _ => False end.
Proof.
  induction fuel as [|fuel IH]; intros cur Hc Hf; [lia|]. cbn [SkipJNIType]. destruct (char_at s cur) as [c|e| |] eqn:Ec; [|exfalso; revert Ec; unfold char_at; destruct (s !! cur); [done|by case_decide]|done|exfalso; revert Ec; unfold char_at; destruct (s !! cur); [done|by case_decide]].
  apply char_at_defined in Ec. cbn [mbind outcome_bind]. pose proof (IH (cur + 1)%nat ltac:(lia) ltac:(lia)) as Hn. pose proof (semicolon_bounds s cur ltac:(lia)). repeat case_decide; try (cbn; lia).
  all: destruct (SkipJNIType fuel s (cur + 1)); cbn [mbind outcome_bind]; done || lia.
Qed.
Section ending.
Context {jdouble jfloat : Type} (to_float : jdouble -> jfloat) (s : bytes).
Lemma read_value_ends sig c (l : list (promoted jdouble)) : (sig <= length s)%nat -> match read_value to_float s sig c l with Ret (_, _, sig') => (sig <= sig' <= length s)%nat | Diverge => False | _ => True end.
Proof.
  intros H. assert (forall A (m : outcome exn (A * list (promoted jdouble))) (f : A -> jvalue jdouble jfloat) sig', (sig <= sig' <= length s)%nat -> m ≠ Diverge -> match ('(z, l) ← m; Ret (f z, l, sig')) with Ret (_, _, x) => (sig <= x <= length s)%nat | Diverge => False | _ => True end) as Hva by (intros A [[z l']| | |] f sig' Hs Hm; done).
  assert (va_int l ≠ Diverge /\ va_long l ≠ Diverge /\ va_double l ≠ Diverge /\ va_ptr l ≠ Diverge) as (? & ? & ? & ?) by (destruct l as [|[] l]; done).
  unfold read_value. do 7 (case_decide; [apply Hva; [lia|done]|]). case_decide; [|case_decide; [|cbn; lia]].
  - pose proof (skip_type_ends s (length s + 2) (sig + 1) ltac:(lia) ltac:(lia)) as Hn. destruct (SkipJNIType _ _ _) as [n| | |]; try done. cbn [mbind outcome_bind]. apply Hva; [lia|done].
  - pose proof (semicolon_bounds s sig H). case_decide; [done|]. apply Hva; [lia|done].
Qed.
Lemma read_values_end fuel : forall sig (l : list (promoted jdouble)), (length s + 2 <= sig + fuel)%nat -> (sig <= length s + 1)%nat -> read_values to_float fuel s sig l ≠ Diverge.
Proof.
  induction fuel as [|fuel IH]; intros sig l Hf Hs; [lia|]. cbn [read_values]. destruct (char_at s sig) as [c|e| |] eqn:Ec; try done; [|exfalso; revert Ec; unfold char_at; destruct (s !! sig); [done|by case_decide]].
  apply char_at_defined in Ec. cbn [mbind outcome_bind]. case_decide; [done|]. pose proof (read_value_ends sig c l Ec) as Hv. destruct (read_value to_float s sig c l) as [[[v l'] sig']| | |]; try done. cbn [mbind outcome_bind].
  pose proof (IH (sig' + 1)%nat l' ltac:(lia) ltac:(lia)). destruct (read_values _ _ _ _ _); done.
Qed.
End ending.

Lemma join_types ts : mjoin (imap (fun _ p => lit ", " ++ p) (map cpp_type ts)) = ts ≫= (fun t => lit ", " ++ cpp_type t).
Proof. induction ts as [|t ts IH]; [done|]. cbn [map]. rewrite imap_cons. cbn [mjoin list_join mbind list_bind]. f_equal. exact IH. Qed.

(** ** Theorems *)

(** C32. The variable arguments of a call are read back by its signature: every value
    of the parameters' types arrives as it was passed, for every list of
    parameters of any type but [char], arrays and classes included, and whatever
    the return type.  A [float] arrives because it was widened to a [double]. *)
Theorem arguments_arrive {jdouble jfloat} (to_float : jdouble -> jfloat) (widen : jfloat -> jdouble) ts vs args ret : (forall f, to_float (widen f) = f) ->
  Forall3 (passed widen) ts vs args -> JValuesfromValist to_float args (print_signature ts ret) = Ret vs.
Proof.
  intros Hw H. unfold JValuesfromValist, print_signature. set (e := match ret with Some t => descriptor t | None => _ end). set (s := lit "(" ++ _).
  assert (char_at (E := exn) s 0 = Ret "("%char) as -> by done. cbn [mbind outcome_bind]. rewrite decide_True by done.
  refine (read_all to_float widen Hw ts vs args H (length s + 1) (lit "(") e _). unfold s. rewrite !length_app. pose proof (descriptors_length ts). lia.
Qed.
Lemma arguments_arrive_witness : JValuesfromValist (fun z : Z => z) [AInt 7; APtr 64; ADouble 3; APtr 80] (lit "(I[[CFLjava/lang/String;)V") = Ret [VI 7; VL 64; VF 3; VL 80].
Proof.
  apply (arguments_arrive (fun z => z) (fun z => z) [TInt; TArray (TArray TChar); TFloat; TClass (lit "java/lang/String")] [VI 7; VL 64; VF 3; VL 80] [AInt 7; APtr 64; ADouble 3; APtr 80] None); [done|].
  apply Forall3_cons; [apply pass_int|]. apply Forall3_cons; [by apply pass_array|]. apply Forall3_cons; [apply (pass_float (fun z => z))|]. apply Forall3_cons; [apply pass_object|apply Forall3_nil].
  apply (bool_decide_unpack _). vm_compute. exact I.
Defined.

(** Reading the arguments ends on every signature and every list of arguments. *)
Theorem arguments_end {jdouble jfloat} (to_float : jdouble -> jfloat) (args : list (promoted jdouble)) (s : bytes) : JValuesfromValist to_float args s ≠ Diverge.
Proof.
  unfold JValuesfromValist. destruct (char_at s 0) as [c| | |] eqn:Ec; try done; [|exfalso; revert Ec; unfold char_at; destruct (s !! 0%nat); [done|by case_decide]]. cbn [mbind outcome_bind]. case_decide; [|done]. apply read_values_end; lia.
Qed.

(** The declaration generated for a method: its parameters in order with the types
    of the wrapper, after the environment and, for a static method, the class. *)
Theorem header_declares (m : Method) (cname : bytes) ts ret : m.(native) = false -> m.(signature) = print_signature ts ret ->
  Forall named ts -> TChar ∉ ts -> (match ret with Some t => named t /\ t ≠ TChar | None => True end) ->
  GenerateHeader false m cname = Ret ((if decide (m.(name) = lit "<init>") then cname
      else (if m.(_static) then lit "static " else []) ++ (match ret with Some t => cpp_type t | None => lit "void" end) ++ lit " " ++ m.(name)) ++
    lit "(jnivm::ENV *" ++ (if m.(_static) then lit ", jnivm::Class* cl" else []) ++ (ts ≫= (fun t => lit ", " ++ cpp_type t)) ++ lit ");").
Proof.
  intros Hn Hs Hts Hc Hret. unfold GenerateHeader. rewrite Hn, Hs, read_signature; [|done..|].
  - cbn [mbind outcome_bind]. unfold write_parameters. do 2 f_equal. change (lit "(jnivm::ENV *") with (lit "(" ++ lit "jnivm::ENV *"). rewrite <- !app_assoc. do 4 f_equal.
    rewrite (imap_ext _ (fun _ p => lit ", " ++ p)) by (intros; by rewrite decide_True by auto). apply join_types.
  - unfold print_signature. rewrite !length_app. pose proof (descriptors_length ts). cbn [length lit String.list_ascii_of_string]. lia.
Qed.
Lemma header_declares_witness : GenerateHeader false (mkMethod (lit "get") (lit "(IL;)V") true false) (lit "K") = Ret (lit "static void get(jnivm::ENV *, jnivm::Class* cl, jint, std::shared_ptr<>);").
Proof.
  apply (header_declares (mkMethod (lit "get") (lit "(IL;)V") true false) (lit "K") [TInt; TClass []] None); [done|done| | |done].
  - apply Forall_cons; [exact I|]. apply Forall_cons; [apply not_elem_of_nil|apply Forall_nil].
  - intros [H|[H|H%elem_of_nil]%elem_of_cons]%elem_of_cons; done.
Defined.

(** A [char] argument is not taken from the list: the value stays zero, and the
    next parameter receives it. *)
Theorem char_argument_shifts (a b : Z) : JValuesfromValist (fun z : Z => z) [AInt a; AInt b] (lit "(CI)V") = Ret [VNone; VI a].
Proof. reflexivity. Qed.
(** ... and it has no parameter in the generated declaration. *)
Example char_parameter_lost : GenerateHeader false (mkMethod (lit "put") (lit "(CI)V") false false) (lit "K") = Ret (lit "void put(jnivm::ENV *, jint);").
Proof. reflexivity. Qed.
(** The check for a missing semicolon is not made in an array: the pointer steps over the terminator. *)
Example unterminated_array_overruns : JValuesfromValist (fun z : Z => z) [APtr 64] (lit "([La") = Undef /\ JValuesfromValist (fun z : Z => z) [APtr 64] (lit "(La") = Throw (invalid_argument "Signature missing ';' after 'L'").
Proof. split; reflexivity. Qed.
(** The names of strings and objects are compared from the letter [L] on, and never match. *)
Example string_name_missed : ParseJNIType true 20 (lit "Ljava/lang/String;") 0 [] = Ret (17%nat, lit "std::shared_ptr<java::lang::String>").
Proof. reflexivity. Qed.
(** The length that selects the array classes is that of a nested array, which loses its outer dimension. *)
Example nested_array_flattened : ParseJNIType true 5 (lit "[[I") 0 [] = ParseJNIType true 5 (lit "[[I") 1 [] /\ ParseJNIType true 5 (lit "[I") 0 [] = Ret (1%nat, lit "std::shared_ptr<FakeJni::JArray<FakeJni::JInt>>").
Proof. split; reflexivity. Qed.

End JniSignatures.
