(* ===== verification/JniRefs.v ===== *)
(** * libjnivm: src/jnivm/vm.cpp, env.cpp, include/jnivm/jnitypes.h, weak.h

    The references of the Java environment.  Objects are held by
    [std::shared_ptr]: those of the local frames of each thread, of the list of
    global references, of the pending exception of a thread, of the wrappers
    [Global], and those that native code keeps for itself.  The heap of the model
    holds an object with its use count, and an object whose count falls to zero is
    destroyed, with what it wraps.  A [jobject] is [None] for null, or an object;
    using one that was destroyed is undefined.  An object is named by the order of
    its allocation, so that a weak pointer keeps naming what it was made from.

    The shared pointers a call makes and drops before it returns are not counted;
    the pointer to the class of an object is weak, and the classes are not modelled.
    Messages to the log are left out. *)

From S2P Require Import Prelude.
From Stdlib Require Import ZArith Lia.
From stdpp Require Import base list gmap numbers.

Module JniRefs.

(** ** Data *)

Notation loc := nat (only parsing).
Notation thread := Z (only parsing).
Notation jobject := (option nat) (only parsing).

(** [KObject] stands for every class but the three that these calls look for. *)
Inductive kind := KObject | KThrowable | KWeak (wrapped : loc) | KGlobal (wrapped : loc).
#[global] Instance kind_eq_dec : EqDecision kind.
Proof. solve_decision. Defined.

Record cell := mkCell { what : kind; use_count : nat }.

Record ENV := mkENV {
  localframe : list (list loc);
  freeframes : list (list loc);
  current_exception : option loc
}.

(** [natives] are the shared pointers of the code that uses the library. *)
Record VM := mkVM {
  heap : gmap loc cell;
  next : loc;
  jnienvs : gmap thread ENV;
  globals : list loc;
  natives : list loc
}.

Inductive length_error := vector_reserve.
Notation result A := (outcome length_error A).

Definition set_heap (h : gmap loc cell) (vm : VM) : VM := mkVM h vm.(next) vm.(jnienvs) vm.(globals) vm.(natives).
Definition set_env (t : thread) (e : ENV) (vm : VM) : VM := mkVM vm.(heap) vm.(next) (<[t := e]> vm.(jnienvs)) vm.(globals) vm.(natives).
Definition set_globals (g : list loc) (vm : VM) : VM := mkVM vm.(heap) vm.(next) vm.(jnienvs) g vm.(natives).
Definition set_natives (n : list loc) (vm : VM) : VM := mkVM vm.(heap) vm.(next) vm.(jnienvs) vm.(globals) n.

(** ** Shared pointers *)

(** Copying a shared pointer. *)
Definition acquire (l : loc) (h : gmap loc cell) : result (gmap loc cell) :=
  match h !! l with
  | Some c => Ret (<[l := mkCell c.(what) (S c.(use_count))]> h)
  | None => Undef
  end.
(** Dropping one: the last destroys the object, and a [Global] drops its own. *)
Fixpoint release (fuel : nat) (l : loc) (h : gmap loc cell) : result (gmap loc cell) :=
  match fuel with
  | O => Diverge
  | S fuel =>
      match h !! l with
      | None => Undef
      | Some c =>
          match c.(use_count), c.(what) with
          | O, _ => Undef
          | S O, KGlobal w => release fuel w (delete l h)
          | S O, _ => Ret (delete l h)
          | S n, k => Ret (<[l := mkCell k n]> h)
          end
      end
  end.
Definition drop_ref (l : loc) (h : gmap loc cell) : result (gmap loc cell) := release (S (size h)) l h.
Fixpoint drop_refs (ls : list loc) (h : gmap loc cell) : result (gmap loc cell) :=
  match ls with
  | [] => Ret h
  | l :: ls => h ← drop_ref l h; drop_refs ls h
  end.
Definition drop_opt (o : option loc) (h : gmap loc cell) : result (gmap loc cell) :=
  match o with Some l => drop_ref l h | None => Ret h end.

(** [std::make_shared], with one pointer to the new object. *)
Definition allocate (k : kind) (vm : VM) : loc * VM :=
  (vm.(next), mkVM (<[vm.(next) := mkCell k 1]> vm.(heap)) (S vm.(next)) vm.(jnienvs) vm.(globals) vm.(natives)).

(** [std::find] and [erase_once] of the first one found. *)
Fixpoint erase_once (l : loc) (v : list loc) : option (list loc) :=
  match v with
  | [] => None
  | x :: v => if decide (x = l) then Some v else r ← erase_once l v; Some (x :: r)
  end.

(** ** jnitypes.h *)

(** [UnpackJObject<Object>]: through weak and global wrappers to the object.  A
    weak pointer is locked when its object is alive. *)
Fixpoint UnpackJObject (fuel : nat) (h : gmap loc cell) (l : loc) : result (option loc) :=
  match fuel with
  | O => Diverge
  | S fuel =>
      match h !! l with
      | None => Undef
      | Some c =>
          match c.(what) with
          | KWeak w => if decide (is_Some (h !! w)) then UnpackJObject fuel h w else Ret None
          | KGlobal w => UnpackJObject fuel h w
          | _ => Ret (Some l)
          end
      end
  end.
(** [JNITypes<std::shared_ptr<Object>>::JNICast]. *)
Definition JNICast (vm : VM) (o : jobject) : result (option loc) :=
  match o with None => Ret None | Some l => UnpackJObject (size vm.(heap) + 1) vm.(heap) l end.
(** The specialisations of the two wrapper classes are the [dynamic_cast] alone. *)
Definition cast_global (vm : VM) (o : jobject) : result (option loc) :=
  match o with
  | None => Ret None
  | Some l => match vm.(heap) !! l with None => Undef | Some c => Ret (match c.(what) with KGlobal _ => Some l | _ => None end) end
  end.
Definition cast_weak (vm : VM) (o : jobject) : result (option loc) :=
  match o with
  | None => Ret None
  | Some l => match vm.(heap) !! l with None => Undef | Some c => Ret (match c.(what) with KWeak _ => Some l | _ => None end) end
  end.

(** The environment of the calling thread. *)
Definition env_of (t : thread) (vm : VM) : result ENV := match vm.(jnienvs) !! t with Some e => Ret e | None => Undef end.

(** [localframe.front().push_back], with the copy of the pointer. *)
Definition push_local (t : thread) (l : loc) (vm : VM) : result VM :=
  e ← env_of t vm;
  match e.(localframe) with
  | [] => Undef
  | f :: fs =>
      h ← acquire l vm.(heap);
      Ret (set_env t (mkENV ((f ++ [l]) :: fs) e.(freeframes) e.(current_exception)) (set_heap h vm))
  end.
Definition ToJNIType (t : thread) (p : option loc) (vm : VM) : result (jobject * VM) :=
  match p with
  | None => Ret (None, vm)
  | Some l => vm ← push_local t l vm; Ret (Some l, vm)
  end.

(** ** vm.cpp: frames *)

(** [reserve] of a negative capacity asks for more than a vector can hold. *)
Definition reserve (cap : Z) : result () := if decide (cap < 0)%Z then Throw vector_reserve else Ret ().

Definition PushLocalFrame (t : thread) (cap : Z) (vm : VM) : result (Z * VM) :=
  e ← env_of t vm;
  let e := match e.(freeframes) with
           | [] => mkENV ([] :: e.(localframe)) [] e.(current_exception)
           | f :: fs => mkENV (f :: e.(localframe)) fs e.(current_exception)
           end in
  _ ← (if decide (cap = 0)%Z then Ret () else reserve cap);
  Ret (0%Z, set_env t e vm).
(** The argument [previousframe] is not used, and null is returned. *)
Definition PopLocalFrame (t : thread) (previousframe : jobject) (vm : VM) : result (jobject * VM) :=
  e ← env_of t vm;
  match e.(localframe) with
  | [] => Undef
  | f :: fs =>
      h ← drop_refs f vm.(heap);
      let fs := match fs with [] => [[]] | _ => fs end in
      Ret (None, set_env t (mkENV fs ([] :: e.(freeframes)) e.(current_exception)) (set_heap h vm))
  end.
Definition EnsureLocalCapacity (t : thread) (cap : Z) (vm : VM) : result (Z * VM) :=
  e ← env_of t vm;
  match e.(localframe) with
  | [] => Undef
  | _ => _ ← reserve cap; Ret (0%Z, vm)
  end.

(** ** vm.cpp: references *)

Definition NewGlobalRef (t : thread) (obj : jobject) (vm : VM) : result (jobject * VM) :=
  strong ← JNICast vm obj;
  match strong with
  | None => Ret (None, vm)
  | Some w =>
      h ← acquire w vm.(heap);
      let '(g, vm) := allocate (KGlobal w) (set_heap h vm) in
      Ret (Some g, set_globals (vm.(globals) ++ [g]) vm)
  end.
(** [DeleteGlobalRef(JNIEnv *, std::shared_ptr<Object>)]. *)
Definition delete_global (obj : option loc) (vm : VM) : result VM :=
  match obj with
  | None => Ret vm
  | Some l =>
      match erase_once l vm.(globals) with
      | Some g => h ← drop_ref l vm.(heap); Ret (set_heap h (set_globals g vm))
      | None => Ret vm
      end
  end.
Definition DeleteGlobalRef (t : thread) (obj : jobject) (vm : VM) : result VM :=
  g ← cast_global vm obj;
  delete_global g vm.

(** The first frame that holds the object, with one pointer erased. *)
Fixpoint erase_frames (l : loc) (fs : list (list loc)) : option (list (list loc)) :=
  match fs with
  | [] => None
  | f :: fs =>
      match erase_once l f with
      | Some f => Some (f :: fs)
      | None => r ← erase_frames l fs; Some (f :: r)
      end
  end.
Definition DeleteLocalRef (t : thread) (obj : jobject) (vm : VM) : result VM :=
  o ← JNICast vm obj;
  match o with
  | None => Ret vm
  | Some l =>
      e ← env_of t vm;
      match erase_frames l e.(localframe) with
      | Some fs => h ← drop_ref l vm.(heap); Ret (set_env t (mkENV fs e.(freeframes) e.(current_exception)) (set_heap h vm))
      | None => Ret vm
      end
  end.

Definition IsSameObject (lobj robj : jobject) (vm : VM) : result bool :=
  if decide (lobj = robj) then Ret true
  else
    l ← JNICast vm lobj;
    r ← JNICast vm robj;
    Ret (bool_decide (l = r)).
Definition NewLocalRef (t : thread) (obj : jobject) (vm : VM) : result (jobject * VM) :=
  o ← JNICast vm obj;
  match o with
  | None => Ret (None, vm)
  | Some l => vm ← push_local t l vm; Ret (Some l, vm)
  end.
Definition NewWeakGlobalRef (t : thread) (obj : jobject) (vm : VM) : result (jobject * VM) :=
  strong ← JNICast vm obj;
  match strong with
  | None => Ret (None, vm)
  | Some w => let '(g, vm) := allocate (KWeak w) vm in Ret (Some g, set_globals (vm.(globals) ++ [g]) vm)
  end.
Definition DeleteWeakGlobalRef (t : thread) (obj : jobject) (vm : VM) : result VM :=
  g ← cast_weak vm obj;
  delete_global g vm.

Inductive jobjectRefType := JNIInvalidRefType | JNILocalRefType | JNIGlobalRefType | JNIWeakGlobalRefType.
Definition GetObjectRefType (obj : jobject) (vm : VM) : result jobjectRefType :=
  match obj with
  | None => Ret JNIInvalidRefType
  | Some l =>
      match vm.(heap) !! l with
      | None => Undef
      | Some c => Ret (match c.(what) with KWeak _ => JNIWeakGlobalRefType | KGlobal _ => JNIGlobalRefType | _ => JNILocalRefType end)
      end
  end.

(** ** vm.cpp: exceptions *)

(** [current_exception = ...]: the old pointer is dropped after the new one is made. *)
Definition set_exception (t : thread) (x : option loc) (vm : VM) : result VM :=
  e ← env_of t vm;
  h ← drop_opt e.(current_exception) vm.(heap);
  Ret (set_env t (mkENV e.(localframe) e.(freeframes) x) (set_heap h vm)).
(** The argument is taken for a [Throwable] without looking through a wrapper. *)
Definition Throw_ (t : thread) (ex : jobject) (vm : VM) : result (Z * VM) :=
  match ex with
  | None => vm ← set_exception t None vm; Ret (0%Z, vm)
  | Some l =>
      match vm.(heap) !! l with
      | Some (mkCell KThrowable _) => h ← acquire l vm.(heap); vm ← set_exception t (Some l) (set_heap h vm); Ret (0%Z, vm)
      | _ => Undef
      end
  end.
Definition ThrowNew (t : thread) (vm : VM) : result (Z * VM) :=
  let '(l, vm) := allocate KThrowable vm in
  vm ← set_exception t (Some l) vm;
  Ret (0%Z, vm).
Definition ExceptionOccurred (t : thread) (vm : VM) : result (jobject * VM) :=
  e ← env_of t vm;
  ToJNIType t e.(current_exception) vm.
Definition ExceptionClear (t : thread) (vm : VM) : result VM := set_exception t None vm.
Definition ExceptionCheck (t : thread) (vm : VM) : result bool :=
  e ← env_of t vm;
  Ret (bool_decide (is_Some e.(current_exception))).

(** ** vm.cpp: threads *)

(** [ENV::ENV]: one empty local frame. *)
Definition new_env : ENV := mkENV [[]] [] None.
Definition AttachCurrentThread (t : thread) (vm : VM) : VM :=
  match vm.(jnienvs) !! t with
  | Some _ => vm
  | None => set_env t new_env vm
  end.
(** Erasing the environment destroys its frames and its exception. *)
Definition env_refs (e : ENV) : list loc := concat e.(localframe) ++ concat e.(freeframes) ++ option_list e.(current_exception).
Definition DetachCurrentThread (t : thread) (vm : VM) : result VM :=
  match vm.(jnienvs) !! t with
  | None => Ret vm
  | Some e =>
      h ← drop_refs (env_refs e) vm.(heap);
      Ret (mkVM h vm.(next) (delete t vm.(jnienvs)) vm.(globals) vm.(natives))
  end.
(** The constructor makes the environment of its thread; the classes are left out. *)
Definition new_VM (t : thread) : VM := mkVM ∅ 0 {[t := new_env]} [] [].

(** ** The code that uses the library *)

(** [std::make_shared] of a class of its own, a pointer kept from a reference, and one dropped. *)
Definition native_new (k : kind) (vm : VM) : VM := let '(l, vm) := allocate k vm in set_natives (vm.(natives) ++ [l]) vm.
Definition native_keep (o : jobject) (vm : VM) : result VM :=
  p ← JNICast vm o;
  match p with
  | None => Ret vm
  | Some l => h ← acquire l vm.(heap); Ret (set_natives (vm.(natives) ++ [l]) (set_heap h vm))
  end.
Definition native_drop (l : loc) (vm : VM) : result VM :=
  match erase_once l vm.(natives) with
  | Some n => h ← drop_ref l vm.(heap); Ret (set_heap h (set_natives n vm))
  | None => Ret vm
  end.

(** One call, by the thread that makes it. *)
Inductive call :=
  | CPush (cap : Z) | CPop (o : jobject) | CEnsure (cap : Z)
  | CNewGlobal (o : jobject) | CDeleteGlobal (o : jobject) | CNewLocal (o : jobject) | CDeleteLocal (o : jobject)
  | CNewWeak (o : jobject) | CDeleteWeak (o : jobject)
  | CThrow (o : jobject) | CThrowNew | COccurred | CClear
  | CAttach | CDetach
  | CNew (throwable : bool) | CKeep (o : jobject) | CDrop (l : loc) | CReturn (p : option loc).

Definition state_of {A} (m : result (A * VM)) : result VM := '(_, vm) ← m; Ret vm.
Definition exec (t : thread) (c : call) (vm : VM) : result VM :=
  match c with
  | CPush cap => state_of (PushLocalFrame t cap vm)
  | CPop o => state_of (PopLocalFrame t o vm)
  | CEnsure cap => state_of (EnsureLocalCapacity t cap vm)
  | CNewGlobal o => state_of (NewGlobalRef t o vm)
  | CDeleteGlobal o => DeleteGlobalRef t o vm
  | CNewLocal o => state_of (NewLocalRef t o vm)
  | CDeleteLocal o => DeleteLocalRef t o vm
  | CNewWeak o => state_of (NewWeakGlobalRef t o vm)
  | CDeleteWeak o => DeleteWeakGlobalRef t o vm
  | CThrow o => state_of (Throw_ t o vm)
  | CThrowNew => state_of (ThrowNew t vm)
  | COccurred => state_of (ExceptionOccurred t vm)
  | CClear => ExceptionClear t vm
  | CAttach => Ret (AttachCurrentThread t vm)
  | CDetach => DetachCurrentThread t vm
  | CNew throwable => Ret (native_new (if throwable then KThrowable else KObject) vm)
  | CKeep o => native_keep o vm
  | CDrop l => native_drop l vm
  | CReturn p => state_of (ToJNIType t p vm)
  end.
Fixpoint run (cs : list (thread * call)) (vm : VM) : result VM :=
  match cs with
  | [] => Ret vm
  | (t, c) :: cs => vm ← exec t c vm; run cs vm
  end.

(** What a caller owes: its thread is attached when it calls through its environment, the reference it
    passes is alive, a capacity is not negative, and only a [Throwable] is thrown. *)
Definition live (o : option loc) (vm : VM) : Prop := match o with Some l => is_Some (vm.(heap) !! l) | None => True end.
Definition allowed (t : thread) (c : call) (vm : VM) : Prop :=
  match c with CAttach | CDetach | CNew _ | CDrop _ => True | _ => is_Some (vm.(jnienvs) !! t) end /\
  match c with
  | CPush cap | CEnsure cap => (0 <= cap)%Z
  | CNewGlobal o | CDeleteGlobal o | CNewLocal o | CDeleteLocal o | CNewWeak o | CDeleteWeak o | CKeep o | CReturn o => live o vm
  | CThrow (Some l) => what <$> vm.(heap) !! l = Some KThrowable
  | _ => True
  end.

(** ** The counts *)

Definition occ (l : loc) (R : list loc) : nat := length (filter (fun x => x = l) R).
Definition inside (k : kind) : list loc := match k with KGlobal w => [w] | _ => [] end.
(** The pointers inside the wrappers on the heap. *)
Definition owned (h : gmap loc cell) : list loc := map_to_list h ≫= (fun x => inside x.2.(what)).
Definition strength (h : gmap loc cell) (l : loc) : nat := match h !! l with Some c => c.(use_count) | None => 0 end.
(** The use count of every object is the number of pointers to it, and no object without one is left. *)
Definition counted (h : gmap loc cell) (R : list loc) : Prop :=
  (forall l, occ l R + occ l (owned h) = strength h l) /\ forall l c, h !! l = Some c -> 0 < c.(use_count).

(** Wrappers hold plain objects. *)
Definition plain (h : gmap loc cell) (w : loc) : Prop := exists n, h !! w = Some (mkCell KObject n) \/ h !! w = Some (mkCell KThrowable n).
Definition flat (n : loc) (h : gmap loc cell) : Prop := forall l c, h !! l = Some c -> l < n /\
  match c.(what) with KGlobal w => plain h w | KWeak w => w < n /\ (plain h w \/ h !! w = None) | _ => True end.

(** The pointers outside the heap. *)
Definition env_list (m : gmap thread ENV) : list loc := map_to_list m ≫= (fun x => env_refs x.2).
Definition roots (vm : VM) : list loc := env_list vm.(jnienvs) ++ vm.(globals) ++ vm.(natives).
Definition tidy (e : ENV) : Prop := e.(localframe) ≠ [] /\ Forall (fun f => f = []) e.(freeframes).
Definition wf (vm : VM) : Prop := counted vm.(heap) (roots vm) /\ flat vm.(next) vm.(heap) /\ map_Forall (fun _ e => tidy e) vm.(jnienvs).

Lemma occ_cons l x R : occ l (x :: R) = (if decide (x = l) then 1 else 0) + occ l R.
Proof. unfold occ. rewrite filter_cons. by case_decide. Qed.
Lemma occ_app l R R' : occ l (R ++ R') = occ l R + occ l R'.
Proof. unfold occ. by rewrite list.filter_app, length_app. Qed.
#[global] Instance occ_proper l : Proper ((≡ₚ) ==> (=)) (occ l).
Proof. intros R R' H. unfold occ. by rewrite H. Qed.
Lemma occ_elem l R : 0 < occ l R <-> l ∈ R.
Proof. induction R as [|x R IH]; [split; [cbn; lia|by intros ?%elem_of_nil]|]. rewrite occ_cons, elem_of_cons. case_decide; [subst; split; [auto|lia]|]. naive_solver. Qed.
#[global] Instance counted_proper h : Proper ((≡ₚ) ==> iff) (counted h).
Proof. intros R R' H. unfold counted. by setoid_rewrite H. Qed.

Lemma owned_delete h l c : h !! l = Some c -> owned h ≡ₚ inside c.(what) ++ owned (delete l h).
Proof. intros H. unfold owned. by rewrite <- (map_to_list_delete h l c H). Qed.
Lemma owned_fresh h l c : h !! l = None -> owned (<[l := c]> h) ≡ₚ inside c.(what) ++ owned h.
Proof. intros H. unfold owned. by rewrite map_to_list_insert by done. Qed.
Lemma owned_update h l c n : h !! l = Some c -> owned (<[l := mkCell c.(what) n]> h) ≡ₚ owned h.
Proof. intros H. rewrite (owned_delete h l c H). rewrite <- insert_delete_eq, owned_fresh by apply lookup_delete_eq. done. Qed.

(** Objects keep their class; some may be gone. *)
Definition same (h h' : gmap loc cell) : Prop := forall x, what <$> h' !! x = what <$> h !! x.
Definition fewer (h h' : gmap loc cell) : Prop := forall x c', h' !! x = Some c' -> exists c, h !! x = Some c /\ c.(what) = c'.(what).
Lemma same_fewer h h' : same h h' -> fewer h h'.
Proof. intros H x c' E. specialize (H x). rewrite E in H. destruct (h !! x) as [c|]; [|done]. exists c. cbn in H. by simplify_eq. Qed.
Lemma fewer_refl h : fewer h h.
Proof. intros x c E. eauto. Qed.
Lemma fewer_trans h h1 h2 : fewer h h1 -> fewer h1 h2 -> fewer h h2.
Proof. intros H H' x c E. destruct (H' x c E) as (c1 & E1 & <-). by apply H. Qed.

Lemma counted_alive h R l : counted h R -> l ∈ R \/ l ∈ owned h -> is_Some (h !! l).
Proof. intros [H _] Hl. specialize (H l). unfold strength in H. destruct (h !! l); [done|]. rewrite <- !occ_elem in Hl. lia. Qed.

Lemma acquire_ok h R l : counted h R -> is_Some (h !! l) -> exists h', acquire l h = Ret h' /\ counted h' (l :: R) /\ same h h'.
Proof.
  intros [H Hp] [c E]. unfold acquire. rewrite E. eexists. split; [done|]. split; [split|].
  - intros x. rewrite owned_update by done. rewrite occ_cons. specialize (H x). unfold strength in *. destruct (decide (l = x)) as [->|Hne]; [rewrite lookup_insert_eq; rewrite E in H; cbn; lia|by rewrite lookup_insert_ne].
  - intros x c' [[<- <-]|[_ E']]%lookup_insert_Some; [cbn; lia|eauto].
  - intros x. destruct (decide (l = x)) as [->|Hne]; [by rewrite lookup_insert_eq, E|by rewrite lookup_insert_ne].
Qed.
Lemma delete_counted h R l c : counted h (l :: R) -> h !! l = Some c -> c.(use_count) = 1 -> counted (delete l h) (inside c.(what) ++ R).
Proof.
  intros [H Hp] E H1. split; [|intros x c' [_ E']%lookup_delete_Some; eauto]. intros x. specialize (H x). rewrite (owned_delete h l c E), occ_cons, occ_app in H. rewrite occ_app. unfold strength in *.
  destruct (decide (l = x)) as [->|Hne]; [rewrite lookup_delete_eq; rewrite E in H; lia|rewrite lookup_delete_ne by done; lia].
Qed.
Lemma delete_fewer h l : fewer h (delete l h).
Proof. intros x c [_ E]%lookup_delete_Some. eauto. Qed.
Lemma release_ok fuel : forall h R l, counted h (l :: R) -> size h < fuel -> exists h', release fuel l h = Ret h' /\ counted h' R /\ fewer h h'.
Proof.
  induction fuel as [|fuel IH]; intros h R l Hc Hf; [lia|]. destruct (counted_alive h (l :: R) l Hc) as [[k n] E]; [left; left|]. cbn [release]. rewrite E. pose proof (proj2 Hc l _ E) as Hp. cbn [use_count what] in *. destruct n as [|[|n]]; [lia| |].
  - pose proof (delete_counted h R l _ Hc E eq_refl) as Hd. destruct k as [| |w|w]; cbn [what inside app] in Hd; try (eexists; split; [done|]; split; [done|apply delete_fewer]).
    destruct (IH _ _ _ Hd) as (h' & -> & Hc' & Hs); [rewrite map_size_delete, E; assert (size h ≠ 0) by (intros ->%map_size_empty_iff; done); lia|]. exists h'. split; [done|]. split; [done|]. eapply fewer_trans; [apply delete_fewer|done].
  - eexists. split; [by destruct k|]. destruct Hc as [H Hq]. split; [split|].
    + intros x. rewrite (owned_update h l _ (S n) E). specialize (H x). rewrite occ_cons in H. unfold strength in *. destruct (decide (l = x)) as [->|Hne]; [rewrite lookup_insert_eq; rewrite E in H; cbn in *; lia|rewrite lookup_insert_ne by done; lia].
    + intros x c' [[<- <-]|[_ E']]%lookup_insert_Some; [cbn; lia|eauto].
    + intros x c' [[<- <-]|[_ E']]%lookup_insert_Some; [|by eauto]. eexists. split; [done|done].
Qed.
Lemma drop_ok h R l : counted h (l :: R) -> exists h', drop_ref l h = Ret h' /\ counted h' R /\ fewer h h'.
Proof. intros H. apply release_ok; [done|lia]. Qed.
Lemma drops_ok ls : forall h R, counted h (ls ++ R) -> exists h', drop_refs ls h = Ret h' /\ counted h' R /\ fewer h h'.
Proof.
  induction ls as [|l ls IH]; intros h R H; cbn [drop_refs]; [exists h; split; [done|]; split; [done|apply fewer_refl]|]. destruct (drop_ok h (ls ++ R) l H) as (h1 & -> & H1 & S1). destruct (IH h1 R H1) as (h2 & E & H2 & S2). exists h2. split; [done|]. split; [done|]. by eapply fewer_trans.
Qed.
Lemma fresh_counted h R l k : counted h (inside k ++ R) -> h !! l = None -> counted (<[l := mkCell k 1]> h) (l :: R).
Proof.
  intros [H Hp] E. split; [|intros x c [[<- <-]|[_ E']]%lookup_insert_Some; [cbn; lia|eauto]]. intros x. rewrite owned_fresh by done. rewrite occ_cons, occ_app. specialize (H x). rewrite occ_app in H. unfold strength in *. cbn [what].
  destruct (decide (l = x)) as [->|Hne]; [rewrite lookup_insert_eq; rewrite E in H; cbn; lia|rewrite lookup_insert_ne by done; lia].
Qed.

(** The shape of the heap is kept. *)
Lemma flat_fewer n h h' R : flat n h -> counted h' R -> fewer h h' -> flat n h'.
Proof.
  intros Hf Hc Hs l c E. destruct (Hs l c E) as (c0 & E0 & W). destruct (Hf l c0 E0) as [Hl Hw]. rewrite W in Hw. split; [done|].
  assert (forall w, plain h w -> is_Some (h' !! w) -> plain h' w) as Hplain.
  { intros w [m Hm] [[k' n'] E']. destruct (Hs w _ E') as (c1 & E1 & W1). exists n'. cbn in W1. rewrite E'. destruct Hm as [Hm|Hm]; rewrite Hm in E1; simplify_eq; cbn in *; subst; auto. }
  destruct (what c) as [| |w|w] eqn:K; try done.
  - destruct Hw as [Hw1 Hw2]. split; [done|]. destruct (h' !! w) eqn:E'; [left|by right]. apply Hplain; [|by eexists]. destruct Hw2 as [?|Hn]; [done|]. destruct (Hs w _ E') as (? & ? & _). congruence.
  - apply Hplain; [done|]. apply (counted_alive h' R); [done|right]. rewrite (owned_delete h' l c E), K. left.
Qed.
Lemma flat_fresh n h k : flat n h -> (match k with KGlobal w | KWeak w => plain h w | _ => True end) -> flat (S n) (<[n := mkCell k 1]> h).
Proof.
  intros Hf Hk. assert (h !! n = None) as Hn by (destruct (h !! n) as [c|] eqn:E; [destruct (Hf n c E); lia|done]).
  assert (forall w, plain h w -> plain (<[n := mkCell k 1]> h) w /\ w < n) as Hp.
  { intros w [m Hm]. assert (is_Some (h !! w)) as [c E] by (destruct Hm as [-> | ->]; done). destruct (Hf w c E) as [Hl _]. split; [|done]. exists m. by rewrite lookup_insert_ne by lia. }
  intros l c [[<- <-]|[Hne E]]%lookup_insert_Some.
  - split; [lia|]. cbn [what]. destruct k as [| |w|w]; try done; destruct (Hp w Hk); [split; [lia|by left]|done].
  - destruct (Hf l c E) as [Hl Hw]. split; [lia|]. destruct (what c) as [| |w|w]; try done; [|by apply Hp]. destruct Hw as [Hw1 Hw2]. split; [lia|]. destruct Hw2 as [Hw2|Hw2]; [left; by apply Hp|right; by rewrite lookup_insert_ne by lia].
Qed.

(** What a reference stands for. *)
Definition target (h : gmap loc cell) (l : loc) : option loc :=
  match what <$> h !! l with
  | Some (KGlobal w) => Some w
  | Some (KWeak w) => if decide (is_Some (h !! w)) then Some w else None
  | Some _ => Some l
  | None => None
  end.
Lemma unpack_ok n h l : flat n h -> is_Some (h !! l) -> UnpackJObject (size h + 1) h l = Ret (target h l) /\ forall w, target h l = Some w -> plain h w.
Proof.
  intros Hf [[k m] E]. assert (size h ≠ 0) as Hs by (intros H%map_size_empty_iff; subst; done). destruct (size h) as [|s]; [done|]. replace (S s + 1) with (S (S s)) by lia. destruct (Hf l _ E) as [_ Hw].
  assert (forall w, plain h w -> UnpackJObject (S s) h w = Ret (Some w)) as Hp by (intros w [j [Hj|Hj]]; cbn [UnpackJObject]; by rewrite Hj).
  unfold target. remember (S s) as fuel. cbn [UnpackJObject]. rewrite E. cbn [fmap option_fmap option_map what] in *. destruct k as [| |w|w]; [split; [done|]; intros ? [= <-]; exists m; auto..| |by split; [apply Hp|intros ? [= <-]]].
  destruct Hw as [_ Hw]. case_decide as Hd; [|split; done]. destruct Hw as [Hw|Hw]; [by split; [apply Hp|intros ? [= <-]]|rewrite Hw in Hd; by destruct Hd].
Qed.

(** A call that does what [P] says, or whose caller broke the rules [V]. *)
Definition sound (V : Prop) {A} (m : result A) (P : A -> Prop) : Prop := match m with Ret a => P a | Diverge => False | _ => ~ V end.
Lemma sound_bind V {A B} (m : result A) (f : A -> result B) P Q : sound V m P -> (forall a, P a -> sound V (f a) Q) -> sound V (m ≫= f) Q.
Proof. destruct m; cbn; auto. Qed.
Lemma sound_ret V {A} (m : result A) (P : A -> Prop) : (exists a, m = Ret a /\ P a) -> sound V m P.
Proof. by intros (a & -> & H). Qed.

Section calls.
Context (t : thread) (vm : VM) (Hwf : wf vm).

Lemma cast_ok V o : (V -> live o vm) -> sound V (JNICast vm o) (fun r => r = (l ← o; target vm.(heap) l) /\ forall w, r = Some w -> plain vm.(heap) w).
Proof.
  intros HV. destruct o as [l|]; [|by split]. cbn [JNICast]. destruct (vm.(heap) !! l) eqn:E.
  - destruct (unpack_ok vm.(next) vm.(heap) l) as [-> Hp]; [apply Hwf|by eexists|]. by split.
  - replace (size (heap vm) + 1) with (S (size (heap vm))) by lia. cbn. rewrite E. intros [? H]%HV. congruence.
Qed.
Lemma plain_alive w : plain vm.(heap) w -> is_Some (vm.(heap) !! w).
Proof. intros [n [-> | ->]]; done. Qed.
Lemma env_ok V : (V -> is_Some (vm.(jnienvs) !! t)) -> sound V (env_of t vm) (fun e => vm.(jnienvs) !! t = Some e /\ tidy e).
Proof. intros HV. unfold env_of. destruct (vm.(jnienvs) !! t) as [e|] eqn:E; [split; [done|by eapply (proj2 (proj2 Hwf))]|]. intros [? H]%HV. done. Qed.

(** The pointers of the environment of [t], and all the others. *)
Definition rest : list loc := env_list (delete t vm.(jnienvs)) ++ vm.(globals) ++ vm.(natives).
Lemma roots_env e : vm.(jnienvs) !! t = Some e -> roots vm ≡ₚ env_refs e ++ rest.
Proof. intros E. unfold roots, rest, env_list. rewrite <- (map_to_list_delete _ t e E) at 1. cbn [mbind list_bind]. by rewrite <- app_assoc. Qed.
Lemma wf_counted e : vm.(jnienvs) !! t = Some e -> counted vm.(heap) (env_refs e ++ rest).
Proof. intros E. rewrite <- roots_env by done. apply Hwf. Qed.
Lemma env_list_insert m e : env_list (<[t := e]> m) ≡ₚ env_refs e ++ env_list (delete t m).
Proof. unfold env_list. rewrite <- insert_delete_eq, map_to_list_insert by apply lookup_delete_eq. done. Qed.

(** A state with another heap and another environment. *)
Lemma wf_env h e : counted h (env_refs e ++ rest) -> fewer vm.(heap) h -> tidy e -> wf (set_env t e (set_heap h vm)).
Proof.
  intros Hc Hs Ht. split; [|split].
  - unfold roots. cbn [heap jnienvs globals natives set_env set_heap]. rewrite env_list_insert, <- app_assoc. exact Hc.
  - cbn [heap next set_env set_heap]. eapply flat_fewer; [apply Hwf|exact Hc|done].
  - apply map_Forall_insert_2; [done|apply Hwf].
Qed.
End calls.

(** No object changes its class, and none is reborn. *)
Definition later (vm vm' : VM) : Prop := vm.(next) <= vm'.(next) /\ forall x c', x < vm.(next) -> vm'.(heap) !! x = Some c' -> exists c, vm.(heap) !! x = Some c /\ c.(what) = c'.(what).
Lemma later_fewer vm vm' : vm'.(next) = vm.(next) -> fewer vm.(heap) vm'.(heap) -> later vm vm'.
Proof. intros Hn Hs. split; [lia|]. intros x c' _. apply Hs. Qed.
Lemma later_refl vm : later vm vm.
Proof. apply later_fewer; [done|apply fewer_refl]. Qed.
Lemma later_trans a b c : later a b -> later b c -> later a c.
Proof. intros [N H] [N' H']. split; [lia|]. intros x d Hx E. destruct (H' x d ltac:(lia) E) as (d' & E' & <-). by apply H. Qed.

(** What a call may do to the references: only its own deletes a global one. *)
Definition deletes (c : call) (g : loc) (vm : VM) : Prop :=
  (c = CDeleteGlobal (Some g) /\ exists w, what <$> vm.(heap) !! g = Some (KGlobal w)) \/ (c = CDeleteWeak (Some g) /\ exists w, what <$> vm.(heap) !! g = Some (KWeak w)).
Definition good (D : loc -> Prop) (vm vm' : VM) : Prop := wf vm' /\ later vm vm' /\ forall g, g ∈ vm.(globals) -> ~ D g -> g ∈ vm'.(globals).

Lemma good_refl D vm : wf vm -> good D vm vm.
Proof. intros H. split; [done|]. split; [apply later_refl|auto]. Qed.
Lemma good_env D t vm h e : wf vm -> counted h (env_refs e ++ rest t vm) -> fewer vm.(heap) h -> tidy e -> good D vm (set_env t e (set_heap h vm)).
Proof. intros Hwf Hc Hs Ht. split; [by apply wf_env|]. split; [by apply later_fewer|done]. Qed.
Lemma good_env_only D t vm e : wf vm -> counted vm.(heap) (env_refs e ++ rest t vm) -> tidy e -> good D vm (set_env t e vm).
Proof. intros Hwf Hc Ht. pose proof (good_env D t vm vm.(heap) e Hwf Hc (fewer_refl _) Ht) as H. by destruct vm. Qed.

Lemma erase_once_perm l v : forall v', erase_once l v = Some v' -> v ≡ₚ l :: v'.
Proof. induction v as [|x v IH]; intros v'; cbn [erase_once]; [done|]. case_decide as Hx; [intros [= <-]; by subst|]. destruct (erase_once l v) as [r|]; cbn; intros [= <-]. rewrite (IH r eq_refl). constructor. Qed.
Lemma erase_keeps l v v' x : erase_once l v = Some v' -> x ∈ v -> x ≠ l -> x ∈ v'.
Proof. intros H%erase_once_perm Hx Hne. rewrite H in Hx. by apply elem_of_cons in Hx as [?|?]. Qed.
Lemma erase_frames_perm l fs : forall fs', erase_frames l fs = Some fs' -> concat fs ≡ₚ l :: concat fs' /\ (fs ≠ [] -> fs' ≠ []).
Proof.
  induction fs as [|f fs IH]; intros fs'; cbn [erase_frames]; [done|]. destruct (erase_once l f) as [f'|] eqn:E; [intros [= <-]; cbn [concat]; split; [by rewrite (erase_once_perm l f f' E)|done]|].
  destruct (erase_frames l fs) as [r|]; cbn; intros [= <-]. cbn [concat]. split; [|done]. destruct (IH r eq_refl) as [-> _]. symmetry. apply Permutation_middle.
Qed.

Section each.
Context (t : thread) (vm : VM) (Hwf : wf vm) (V : Prop) (D : loc -> Prop) (HV : V -> is_Some (vm.(jnienvs) !! t)).

Lemma push_local_ok l : (V -> is_Some (vm.(heap) !! l)) -> sound V (push_local t l vm) (good D vm).
Proof.
  intros Hl. eapply sound_bind; [by apply env_ok|]. intros e [E [Hne Hfree]]. destruct e as [[|f fs] ff x]; [done|]. cbn [localframe freeframes current_exception] in *.
  destruct (vm.(heap) !! l) eqn:El; [|unfold acquire; rewrite El; cbn; intros [? H]%Hl; done].
  destruct (acquire_ok vm.(heap) (env_refs (mkENV (f :: fs) ff x) ++ rest t vm) l) as (h & -> & Hc & Hs); [by apply wf_counted|by eexists|]. apply good_env; [done| |by apply same_fewer|done].
  unfold env_refs in *. cbn [localframe freeframes current_exception concat] in *. rewrite <- !app_assoc in *. cbn [app]. rewrite <- Permutation_middle. exact Hc.
Qed.
Lemma ToJNIType_ok p : (V -> live p vm) -> sound V (state_of (ToJNIType t p vm)) (good D vm).
Proof.
  intros Hp. destruct p as [l|]; [|by apply good_refl]. cbn [ToJNIType]. pose proof (push_local_ok l Hp) as H. destruct (push_local t l vm); done.
Qed.
Lemma PushLocalFrame_ok cap : (V -> 0 <= cap)%Z -> sound V (state_of (PushLocalFrame t cap vm)) (good D vm).
Proof.
  intros Hcap. unfold PushLocalFrame, state_of. pose proof (env_ok t vm Hwf V HV) as He. destruct (env_of t vm) as [e| | |]; try done. destruct He as [E [Hne Hfree]]. cbn [mbind outcome_bind].
  assert (forall m : result (), m = Ret () \/ (m = Throw vector_reserve /\ ~ V) -> sound V ('(_, vm') ← (_ ← m; Ret (0%Z, set_env t match e.(freeframes) with [] => mkENV ([] :: e.(localframe)) [] e.(current_exception) | f :: fs => mkENV (f :: e.(localframe)) fs e.(current_exception) end vm)); Ret vm') (good D vm)) as Hm.
  { intros m [-> |[-> HnV]]; [|exact HnV]. cbn [mbind outcome_bind sound]. pose proof (wf_counted t vm Hwf e E) as Hc. apply good_env_only; [done| |].
    - destruct e as [lf [|f ff] x]; [exact Hc|]. apply Forall_cons_1 in Hfree as [-> _]. exact Hc.
    - destruct (e.(freeframes)); [done|]. by apply Forall_cons_1 in Hfree as [_ ?]. }
  apply Hm. unfold reserve. case_decide; [by left|]. case_decide; [right|by left]. split; [done|]. intros ?%Hcap. lia.
Qed.
Lemma PopLocalFrame_ok o : sound V (state_of (PopLocalFrame t o vm)) (good D vm).
Proof.
  unfold PopLocalFrame, state_of. pose proof (env_ok t vm Hwf V HV) as He. destruct (env_of t vm) as [e| | |]; try done. destruct He as [E [Hne Hfree]]. destruct e as [[|f fs] ff x]; [done|]. cbn [mbind outcome_bind localframe freeframes current_exception] in *.
  pose proof (wf_counted t vm Hwf _ E) as Hc. unfold env_refs in Hc. cbn [localframe freeframes current_exception concat] in Hc. rewrite <- !app_assoc in Hc. destruct (drops_ok f _ _ Hc) as (h & -> & Hc' & Hs). cbn [mbind outcome_bind sound].
  apply good_env; [done| |done|]; [|split; [by destruct fs|by constructor]]. unfold env_refs. cbn [localframe freeframes current_exception concat app]. destruct fs; rewrite <- !app_assoc; exact Hc'.
Qed.
Lemma EnsureLocalCapacity_ok cap : (V -> 0 <= cap)%Z -> sound V (state_of (EnsureLocalCapacity t cap vm)) (good D vm).
Proof.
  intros Hcap. unfold EnsureLocalCapacity, state_of. pose proof (env_ok t vm Hwf V HV) as He. destruct (env_of t vm) as [e| | |]; try done. destruct He as [E [Hne Hfree]]. cbn [mbind outcome_bind]. destruct (localframe e); [done|]. unfold reserve. case_decide; [cbn; intros ?%Hcap; lia|]. by apply good_refl.
Qed.
Lemma DeleteLocalRef_ok o : (V -> live o vm) -> sound V (DeleteLocalRef t o vm) (good D vm).
Proof.
  intros Ho. eapply sound_bind; [by apply cast_ok|]. intros [l|] [_ Hp]; [|by apply good_refl]. eapply sound_bind; [by apply env_ok|]. intros e [E [Hne Hfree]]. destruct (erase_frames l (localframe e)) as [fs|] eqn:Ef; [|by apply good_refl].
  destruct (erase_frames_perm l _ _ Ef) as [Hperm Hfs]. pose proof (wf_counted t vm Hwf _ E) as Hc. unfold env_refs in Hc. rewrite Hperm, <- !app_assoc in Hc. cbn [app] in Hc. destruct (drop_ok _ _ _ Hc) as (h & -> & Hc' & Hs). cbn [mbind outcome_bind].
  apply good_env; [done| |done|split; [auto|done]]. unfold env_refs. cbn [localframe freeframes current_exception]. rewrite <- !app_assoc. exact Hc'.
Qed.
Lemma NewLocalRef_ok o : (V -> live o vm) -> sound V (state_of (NewLocalRef t o vm)) (good D vm).
Proof.
  intros Ho. unfold NewLocalRef, state_of. pose proof (cast_ok vm Hwf V o Ho) as Hcast. destruct (JNICast vm o) as [[l|]| | |]; try done; [|by apply good_refl]. cbn [mbind outcome_bind]. pose proof (push_local_ok l (fun _ => plain_alive vm l (proj2 Hcast l eq_refl))) as H. destruct (push_local t l vm); done.
Qed.
End each.

(** A new object, held by a global reference or by native code. *)
Lemma good_alloc D vm h k gs ns : wf vm -> counted h (inside k ++ roots vm) -> same vm.(heap) h -> (match k with KGlobal w | KWeak w => plain vm.(heap) w | _ => True end) -> gs ++ ns = [vm.(next)] ->
  good D vm (mkVM (<[vm.(next) := mkCell k 1]> h) (S vm.(next)) vm.(jnienvs) (vm.(globals) ++ gs) (vm.(natives) ++ ns)).
Proof.
  intros Hwf Hc Hs Hk Hg. assert (flat vm.(next) h) as Hf by (eapply flat_fewer; [apply Hwf|exact Hc|by apply same_fewer]).
  assert (h !! vm.(next) = None) as Hn by (destruct (h !! vm.(next)) as [c|] eqn:E; [destruct (Hf _ c E); lia|done]).
  assert (forall w, plain vm.(heap) w -> plain h w) as Hp. { intros w [m Hm]. specialize (Hs w). destruct (h !! w) as [[k' m']|] eqn:E'; destruct Hm as [Hm|Hm]; rewrite Hm in Hs; cbn in Hs; simplify_eq; exists m'; rewrite E'; auto. }
  split; [split; [|split]|split].
  - unfold roots. cbn [heap jnienvs globals natives]. apply (fresh_counted h (roots vm) vm.(next) k) in Hc; [|done]. eapply counted_proper; [|exact Hc]. unfold roots. change (next vm :: env_list (jnienvs vm) ++ globals vm ++ natives vm) with ([next vm] ++ env_list (jnienvs vm) ++ globals vm ++ natives vm). rewrite <- Hg. clear. solve_Permutation.
  - cbn [heap next]. apply flat_fresh; [done|]. destruct k; auto.
  - apply Hwf.
  - split; [cbn; lia|]. cbn [heap next]. intros x c' Hx [[<- _]|[_ E]]%lookup_insert_Some; [lia|]. by apply (same_fewer _ _ Hs).
  - cbn [globals]. intros g Hin _. apply elem_of_app. by left.
Qed.

Section rest_of_calls.
Context (t : thread) (vm : VM) (Hwf : wf vm) (V : Prop) (D : loc -> Prop).

Lemma NewGlobalRef_ok o : (V -> live o vm) -> sound V (state_of (NewGlobalRef t o vm)) (good D vm).
Proof.
  intros Ho. unfold NewGlobalRef, state_of. pose proof (cast_ok vm Hwf V o Ho) as Hcast. destruct (JNICast vm o) as [[w|]| | |]; try done; [|by apply good_refl]. cbn [mbind outcome_bind]. pose proof (proj2 Hcast w eq_refl) as Hp.
  destruct (acquire_ok vm.(heap) (roots vm) w) as (h & -> & Hc & Hs); [apply Hwf|by apply plain_alive|]. pose proof (good_alloc D vm h (KGlobal w) [vm.(next)] [] Hwf Hc Hs Hp eq_refl) as H. rewrite app_nil_r in H. exact H.
Qed.
Lemma NewWeakGlobalRef_ok o : (V -> live o vm) -> sound V (state_of (NewWeakGlobalRef t o vm)) (good D vm).
Proof.
  intros Ho. unfold NewWeakGlobalRef, state_of. pose proof (cast_ok vm Hwf V o Ho) as Hcast. destruct (JNICast vm o) as [[w|]| | |]; try done; [|by apply good_refl]. pose proof (good_alloc D vm vm.(heap) (KWeak w) [vm.(next)] [] Hwf (proj1 Hwf) (fun _ => eq_refl) (proj2 Hcast w eq_refl) eq_refl) as H. rewrite app_nil_r in H. exact H.
Qed.
Lemma native_new_ok b : good D vm (native_new (if b : bool then KThrowable else KObject) vm).
Proof.
  assert (forall k, inside k = [] -> (match k with KGlobal w | KWeak w => plain vm.(heap) w | _ => True end) -> good D vm (native_new k vm)) as H; [|by destruct b; apply H].
  intros k Hk Hw. pose proof (good_alloc D vm vm.(heap) k [] [vm.(next)] Hwf) as H. rewrite Hk, app_nil_r in H. exact (H (proj1 Hwf) (fun _ => eq_refl) Hw eq_refl).
Qed.
Lemma good_roots h gs ns : counted h (env_list vm.(jnienvs) ++ gs ++ ns) -> fewer vm.(heap) h -> (forall g, g ∈ vm.(globals) -> ~ D g -> g ∈ gs) -> good D vm (mkVM h vm.(next) vm.(jnienvs) gs ns).
Proof. intros Hc Hs Hg. split; [split; [exact Hc|split; [eapply flat_fewer; [apply Hwf|exact Hc|done]|apply Hwf]]|]. split; [by apply later_fewer|done]. Qed.
Lemma native_keep_ok o : (V -> live o vm) -> sound V (native_keep o vm) (good D vm).
Proof.
  intros Ho. eapply sound_bind; [by apply cast_ok|]. intros [w|] [_ Hp]; [|by apply good_refl]. destruct (acquire_ok vm.(heap) (roots vm) w) as (h & -> & Hc & Hs); [apply Hwf|by apply plain_alive, Hp|]. cbn.
  apply good_roots; [|by apply same_fewer|done]. eapply counted_proper; [|exact Hc]. unfold roots. clear. solve_Permutation.
Qed.
Lemma native_drop_ok l : sound V (native_drop l vm) (good D vm).
Proof.
  unfold native_drop. destruct (erase_once l vm.(natives)) as [n|] eqn:E; [|by apply good_refl]. destruct (drop_ok vm.(heap) (env_list vm.(jnienvs) ++ vm.(globals) ++ n) l) as (h & -> & Hc & Hs); [|by apply good_roots].
  eapply counted_proper; [|apply Hwf]. unfold roots. rewrite (erase_once_perm _ _ _ E). clear. solve_Permutation.
Qed.
Lemma delete_global_ok o : (forall l, o = Some l -> D l) -> sound V (delete_global o vm) (good D vm).
Proof.
  intros Ho. destruct o as [l|]; [|by apply good_refl]. cbn [delete_global]. destruct (erase_once l vm.(globals)) as [g|] eqn:E; [|by apply good_refl]. destruct (drop_ok vm.(heap) (env_list vm.(jnienvs) ++ g ++ vm.(natives)) l) as (h & -> & Hc & Hs).
  - eapply counted_proper; [|apply Hwf]. unfold roots. rewrite (erase_once_perm _ _ _ E). clear. solve_Permutation.
  - apply good_roots; [done..|]. intros x Hx HD. eapply erase_keeps; [exact E|done|]. intros ->. by apply HD, Ho.
Qed.
Lemma AttachCurrentThread_ok : good D vm (AttachCurrentThread t vm).
Proof.
  unfold AttachCurrentThread. destruct (vm.(jnienvs) !! t) eqn:E; [by apply good_refl|]. apply good_env_only; [done| |by split]. unfold rest. rewrite delete_id by done. apply Hwf.
Qed.
Lemma DetachCurrentThread_ok : sound V (DetachCurrentThread t vm) (good D vm).
Proof.
  unfold DetachCurrentThread. destruct (vm.(jnienvs) !! t) as [e|] eqn:E; [|by apply good_refl]. destruct (drops_ok (env_refs e) vm.(heap) (rest t vm)) as (h & -> & Hc & Hs); [by apply wf_counted|]. cbn [mbind outcome_bind sound].
  split; [split; [exact Hc|split; [eapply flat_fewer; [apply Hwf|exact Hc|done]|]]|split; [by apply later_fewer|done]]. intros k x Hx. cbn [jnienvs] in Hx. apply lookup_delete_Some in Hx as [_ Hx]. by eapply (proj2 (proj2 Hwf)).
Qed.
End rest_of_calls.

(** Setting the pending exception, with a pointer made for it. *)
Lemma set_exception_ok t x vm V : counted vm.(heap) (option_list x ++ roots vm) -> flat vm.(next) vm.(heap) -> map_Forall (fun _ e => tidy e) vm.(jnienvs) -> (V -> is_Some (vm.(jnienvs) !! t)) ->
  sound V (set_exception t x vm) (fun vm' => wf vm' /\ later vm vm' /\ vm'.(globals) = vm.(globals)).
Proof.
  intros Hc Hf Ht HV. unfold set_exception, env_of. destruct (vm.(jnienvs) !! t) as [e|] eqn:E; [|intros [? H]%HV; done]. cbn [mbind outcome_bind]. rewrite (roots_env t vm e E) in Hc.
  assert (exists h, drop_opt e.(current_exception) vm.(heap) = Ret h /\ counted h (option_list x ++ (concat e.(localframe) ++ concat e.(freeframes)) ++ rest t vm) /\ fewer vm.(heap) h) as (h & -> & Hc' & Hs).
  { unfold env_refs in Hc. destruct e as [lf ff [l|]]; cbn [localframe freeframes current_exception option_list drop_opt] in *.
    - apply drop_ok. eapply counted_proper; [|exact Hc]. clear. solve_Permutation.
    - exists vm.(heap). split; [done|]. split; [|apply fewer_refl]. by rewrite app_nil_r in Hc. }
  cbn [mbind outcome_bind sound]. split; [split; [|split]|split; [by apply later_fewer|done]].
  - unfold roots. cbn [heap jnienvs globals natives set_env set_heap]. rewrite env_list_insert. eapply counted_proper; [|exact Hc']. unfold env_refs, rest. cbn [localframe freeframes current_exception]. clear. solve_Permutation.
  - eapply flat_fewer; [exact Hf|exact Hc'|done].
  - apply map_Forall_insert_2; [|done]. exact (Ht t e E).
Qed.

Lemma Throw_ok t o vm D : wf vm -> sound (allowed t (CThrow o) vm) (state_of (Throw_ t o vm)) (good D vm).
Proof.
  intros Hwf. assert (forall x vm1, later vm vm1 -> globals vm1 = globals vm -> counted vm1.(heap) (option_list x ++ roots vm1) -> flat vm1.(next) vm1.(heap) -> jnienvs vm1 = jnienvs vm -> sound (allowed t (CThrow o) vm) (state_of (vm' ← set_exception t x vm1; Ret (0%Z, vm'))) (good D vm)) as H.
  { intros x vm1 Hl Hg Hc Hf He. pose proof (set_exception_ok t x vm1 (allowed t (CThrow o) vm) Hc Hf) as H. rewrite He in H. specialize (H (proj2 (proj2 Hwf)) (fun V => proj1 V)). destruct (set_exception t x vm1) as [vm'| | |]; try done. cbn. destruct H as (? & ? & Hg'). split; [done|]. split; [by eapply later_trans|]. intros g Hin _. by rewrite Hg', Hg. }
  destruct o as [l|]; cbn [Throw_]; [|apply H; [apply later_refl|done|apply Hwf|apply Hwf|done]]. destruct (vm.(heap) !! l) as [[k n]|] eqn:E; [|intros [_ Hk]; cbn in Hk; by rewrite E in Hk].
  destruct (decide (k = KThrowable)) as [->|Hk]; [|destruct k; try done; intros [_ Hk']; cbn in Hk'; rewrite E in Hk'; done]. destruct (acquire_ok vm.(heap) (roots vm) l) as (h & -> & Hc & Hs); [apply Hwf|by eexists|]. cbn [mbind outcome_bind].
  apply H; [by apply later_fewer, same_fewer|done|exact Hc| |done]. eapply flat_fewer; [apply Hwf|exact Hc|by apply same_fewer].
Qed.
Lemma ThrowNew_ok t vm D (V : Prop) : wf vm -> (V -> is_Some (vm.(jnienvs) !! t)) -> sound V (state_of (ThrowNew t vm)) (good D vm).
Proof.
  intros Hwf HV. destruct (native_new_ok vm Hwf D true) as ((Hc & Hf & Ht) & Hl & Hg). unfold ThrowNew. set (vm1 := mkVM (<[vm.(next) := mkCell KThrowable 1]> vm.(heap)) (S vm.(next)) vm.(jnienvs) vm.(globals) vm.(natives)). change (allocate KThrowable vm) with (vm.(next), vm1). cbn iota beta.
  assert (counted vm1.(heap) (option_list (Some vm.(next)) ++ roots vm1)) as Hc1 by (eapply counted_proper; [|exact Hc]; unfold roots; cbn; clear; solve_Permutation).
  pose proof (set_exception_ok t (Some vm.(next)) vm1 V Hc1 Hf Ht HV) as H. unfold state_of. destruct (set_exception t (Some vm.(next)) vm1) as [vm'| | |]; try done. cbn. destruct H as (? & ? & Hg'). split; [done|]. split; [by eapply later_trans|]. intros g Hin _. by rewrite Hg'.
Qed.
Lemma wrapper_ok vm c (V : Prop) m : wf vm -> sound V m (fun r => forall l, r = Some l -> deletes c l vm) -> sound V (r ← m; delete_global r vm) (good (fun x => deletes c x vm) vm).
Proof. intros Hwf Hm. eapply sound_bind; [exact Hm|]. intros r Hr. by apply delete_global_ok. Qed.

(** Every call keeps the invariant, objects keep their class, and only the call for it deletes a global reference. *)
Lemma exec_ok t c vm : wf vm -> sound (allowed t c vm) (exec t c vm) (good (fun g => deletes c g vm) vm).
Proof.
  intros Hwf. assert (match c with CAttach | CDetach | CNew _ | CDrop _ => True | _ => allowed t c vm -> is_Some (vm.(jnienvs) !! t) end) as HV by (destruct c; try done; by intros []). destruct c as [cap|o|cap|o|o|o|o|o|o|o| | | | | |b|o|l|p]; cbn [exec].
  - apply PushLocalFrame_ok; [done..|]. by intros [].
  - by apply PopLocalFrame_ok.
  - apply EnsureLocalCapacity_ok; [done..|]. by intros [].
  - apply NewGlobalRef_ok; [done|]. by intros [].
  - apply wrapper_ok; [done..|]. destruct o as [l|]; [|done]. cbn [cast_global]. destruct (vm.(heap) !! l) as [[k n]|] eqn:E; [|intros [_ [? Hk]]; congruence]. intros x Hx. destruct k as [| | |w]; try done. cbn in Hx. simplify_eq. left. split; [done|]. exists w. by rewrite E.
  - apply NewLocalRef_ok; [done..|]. by intros [].
  - apply DeleteLocalRef_ok; [done..|]. by intros [].
  - apply NewWeakGlobalRef_ok; [done|]. by intros [].
  - apply wrapper_ok; [done..|]. destruct o as [l|]; [|done]. cbn [cast_weak]. destruct (vm.(heap) !! l) as [[k n]|] eqn:E; [|intros [_ [? Hk]]; congruence]. intros x Hx. destruct k as [| |w|]; try done. cbn in Hx. simplify_eq. right. split; [done|]. exists w. by rewrite E.
  - by apply Throw_ok.
  - by apply ThrowNew_ok.
  - unfold ExceptionOccurred, state_of. pose proof (env_ok t vm Hwf _ HV) as He. destruct (env_of t vm) as [e| | |]; try done. destruct He as [E _]. cbn [mbind outcome_bind]. apply ToJNIType_ok; [done..|]. intros _. destruct e as [lf ff [l|]]; [|done]. cbn [current_exception live].
    eapply counted_alive; [by apply (wf_counted t vm Hwf _ E)|]. left. unfold env_refs. cbn. rewrite !elem_of_app, list_elem_of_singleton. auto.
  - unfold ExceptionClear. pose proof (set_exception_ok t None vm (allowed t CClear vm) (proj1 Hwf) (proj1 (proj2 Hwf)) (proj2 (proj2 Hwf)) HV) as H. destruct (set_exception t None vm) as [vm'| | |]; try done. destruct H as (? & ? & Hg). split; [done|]. split; [done|]. intros g Hin _. by rewrite Hg.
  - by apply AttachCurrentThread_ok.
  - by apply DetachCurrentThread_ok.
  - by apply native_new_ok.
  - apply native_keep_ok; [done|]. by intros [].
  - by apply native_drop_ok.
  - apply ToJNIType_ok; [done..|]. by intros [].
Qed.

Lemma exec_good t c vm vm' : wf vm -> exec t c vm = Ret vm' -> good (fun g => deletes c g vm) vm vm'.
Proof. intros Hwf E. pose proof (exec_ok t c vm Hwf) as H. by rewrite E in H. Qed.
Lemma run_wf cs : forall vm vm', wf vm -> run cs vm = Ret vm' -> wf vm'.
Proof. induction cs as [|[t c] cs IH]; intros vm vm' Hwf H; cbn [run] in H; [by simplify_eq|]. apply bind_ret_inv in H as (vm1 & H1 & H). eapply IH; [|exact H]. by apply (exec_good t c vm vm1). Qed.
Lemma new_wf t : wf (new_VM t).
Proof. split; [split|split]; [|done..|]; [|intros k e H; cbn [jnienvs new_VM] in H; apply lookup_singleton_Some in H as [_ <-]; by split]. intros l. unfold roots, env_list, owned, new_VM. cbn [heap jnienvs globals natives]. rewrite map_to_list_singleton, map_to_list_empty. done. Qed.

(** A global reference that is not deleted is followed through any run. *)
Lemma global_kept g k cs : (match k with KGlobal _ => True | KWeak _ => True | _ => False end) -> forall vm vm', wf vm -> g ∈ vm.(globals) -> what <$> vm.(heap) !! g = Some k -> run cs vm = Ret vm' ->
  (forall t, (t, match k with KGlobal _ => CDeleteGlobal (Some g) | _ => CDeleteWeak (Some g) end) ∉ cs) -> wf vm' /\ g ∈ vm'.(globals) /\ what <$> vm'.(heap) !! g = Some k.
Proof.
  intros Hk. induction cs as [|[t c] cs IH]; intros vm vm' Hwf Hg Hw H Hno; cbn [run] in H; [by simplify_eq|]. apply bind_ret_inv in H as (vm1 & H1 & H). destruct (exec_good t c vm vm1 Hwf H1) as (Hwf1 & Hl & Hglob).
  assert (g ∈ vm1.(globals)) as Hg1. { apply Hglob; [done|]. intros [[-> [w E]]|[-> [w E]]]; rewrite Hw in E; injection E as ->; apply (Hno t); left. }
  assert (what <$> vm1.(heap) !! g = Some k) as Hw1.
  { destruct (counted_alive vm1.(heap) (roots vm1) g) as [c1 E1]; [apply Hwf1|left; unfold roots; rewrite !elem_of_app; auto|]. destruct (vm.(heap) !! g) as [c0|] eqn:E0; [|done]. destruct (proj2 Hl g c1) as (c2 & E2 & Hc2); [by eapply (proj1 (proj2 Hwf))|done|]. rewrite E1. cbn. cbn in Hw. rewrite E0 in E2. simplify_eq. by rewrite Hc2. }
  eapply (IH vm1 vm'); [done..|]. intros t' Hin. apply (Hno t'). by right.
Qed.
(** The state after a new reference of either sort. *)
Lemma new_wrapper_kept vm k (h : gmap loc cell) vm1 cs vm2 : wf vm1 -> vm1.(globals) = vm.(globals) ++ [vm.(next)] -> vm1.(heap) = <[vm.(next) := mkCell k 1]> h -> (match k with KGlobal _ => True | KWeak _ => True | _ => False end) -> run cs vm1 = Ret vm2 ->
  (forall t, (t, match k with KGlobal _ => CDeleteGlobal (Some vm.(next)) | _ => CDeleteWeak (Some vm.(next)) end) ∉ cs) -> wf vm2 /\ what <$> vm2.(heap) !! vm.(next) = Some k.
Proof.
  intros Hwf Hg Hh Hk Hr Hno. destruct (global_kept vm.(next) k cs Hk vm1 vm2 Hwf) as (? & _ & ?); [rewrite Hg; apply elem_of_app; right; by left|by rewrite Hh, lookup_insert_eq|done..].
Qed.

(** ** What each call does to the references *)

(** The object that a reference stands for, and the class of an object. *)
Definition refers (vm : VM) (o : jobject) : option loc := l ← o; target vm.(heap) l.
Definition class (vm : VM) (l : loc) : option kind := what <$> vm.(heap) !! l.
(** The references after a call of the thread [t]: its local frames, its exception, the global ones and those of native
    code; those of the other threads are as they were. *)
Definition becomes (t : thread) (vm vm' : VM) (fs : list (list loc)) (x : option loc) (gs ns : list loc) : Prop :=
  (exists e, vm'.(jnienvs) !! t = Some e /\ e.(localframe) = fs /\ e.(current_exception) = x) /\
  (forall t', t' <> t -> vm'.(jnienvs) !! t' = vm.(jnienvs) !! t') /\ vm'.(globals) = gs /\ vm'.(natives) = ns.
(** One more local reference, in the innermost frame. *)
Definition with_local (l : loc) (fs : list (list loc)) : list (list loc) := match fs with [] => [] | f :: fs => (f ++ [l]) :: fs end.
(** One global reference less. *)
Definition global_gone (t : thread) (vm vm' : VM) (g : loc) : Prop :=
  let e := default new_env (vm.(jnienvs) !! t) in
  if decide (g ∈ vm.(globals)) then exists gs, vm.(globals) ≡ₚ g :: gs /\ becomes t vm vm' e.(localframe) e.(current_exception) gs vm.(natives) else vm' = vm.
Definition effect (t : thread) (c : call) (vm vm' : VM) : Prop :=
  let e := default new_env (vm.(jnienvs) !! t) in
  let fs := e.(localframe) in let x := e.(current_exception) in let gs := vm.(globals) in let ns := vm.(natives) in let new := vm.(next) in
  match c with
  | CPush _ => becomes t vm vm' ([] :: fs) x gs ns
  | CPop _ => becomes t vm vm' (match tail fs with [] => [[]] | fs => fs end) x gs ns
  | CEnsure _ => vm' = vm
  | CNewGlobal o => match refers vm o with None => vm' = vm | Some w => becomes t vm vm' fs x (gs ++ [new]) ns /\ class vm' new = Some (KGlobal w) end
  | CNewWeak o => match refers vm o with None => vm' = vm | Some w => becomes t vm vm' fs x (gs ++ [new]) ns /\ class vm' new = Some (KWeak w) end
  | CDeleteGlobal o => match o with Some g => match class vm g with Some (KGlobal _) => global_gone t vm vm' g | _ => vm' = vm end | None => vm' = vm end
  | CDeleteWeak o => match o with Some g => match class vm g with Some (KWeak _) => global_gone t vm vm' g | _ => vm' = vm end | None => vm' = vm end
  | CNewLocal o => match refers vm o with None => vm' = vm | Some l => becomes t vm vm' (with_local l fs) x gs ns end
  | CDeleteLocal o =>
      match refers vm o with
      | None => vm' = vm
      | Some l => if decide (l ∈ concat fs) then exists fs1 f f' fs2, fs = fs1 ++ f :: fs2 /\ l ∉ concat fs1 /\ f ≡ₚ l :: f' /\ becomes t vm vm' (fs1 ++ f' :: fs2) x gs ns else vm' = vm
      end
  | CThrow o => becomes t vm vm' fs o gs ns
  | CThrowNew => becomes t vm vm' fs (Some new) gs ns /\ class vm' new = Some KThrowable
  | COccurred => match x with None => vm' = vm | Some l => becomes t vm vm' (with_local l fs) x gs ns end
  | CClear => becomes t vm vm' fs None gs ns
  | CAttach => becomes t vm vm' fs x gs ns
  | CDetach => vm'.(jnienvs) = delete t vm.(jnienvs) /\ vm'.(globals) = gs /\ vm'.(natives) = ns
  | CNew throwable => vm'.(jnienvs) = vm.(jnienvs) /\ vm'.(globals) = gs /\ vm'.(natives) = ns ++ [new] /\ class vm' new = Some (if throwable then KThrowable else KObject)
  | CKeep o => match refers vm o with None => vm' = vm | Some l => becomes t vm vm' fs x gs (ns ++ [l]) end
  | CDrop l => if decide (l ∈ ns) then exists ns', ns ≡ₚ l :: ns' /\ vm'.(jnienvs) = vm.(jnienvs) /\ vm'.(globals) = gs /\ vm'.(natives) = ns' else vm' = vm
  | CReturn p => match p with None => vm' = vm | Some l => becomes t vm vm' (with_local l fs) x gs ns end
  end.

Lemma erase_once_none l v : erase_once l v = None <-> l ∉ v.
Proof.
  induction v as [|x v IH]; cbn [erase_once]; [split; [intros _; apply not_elem_of_nil|done]|]. rewrite not_elem_of_cons. case_decide as Hx; [split; [done|]; intros [? _]; congruence|].
  destruct (erase_once l v); cbn; [split; [done|]; intros [_ H]; by apply IH in H|split; [|done]; intros _; split; [congruence|by apply IH]].
Qed.
Lemma erase_frames_spec l fs : match erase_frames l fs with
  | Some fs' => exists fs1 f f' fs2, fs = fs1 ++ f :: fs2 /\ l ∉ concat fs1 /\ f ≡ₚ l :: f' /\ fs' = fs1 ++ f' :: fs2
  | None => l ∉ concat fs
  end.
Proof.
  induction fs as [|f fs IH]; cbn [erase_frames concat]; [apply not_elem_of_nil|]. destruct (erase_once l f) as [f'|] eqn:E.
  - exists [], f, f', fs. split_and!; [done|apply not_elem_of_nil|by apply erase_once_perm|done].
  - apply erase_once_none in E. destruct (erase_frames l fs) as [r|]; cbn [mbind option_bind]; [|by apply not_elem_of_app].
    destruct IH as (fs1 & f0 & f' & fs2 & -> & Hn & Hp & ->). exists (f :: fs1), f0, f', fs2. split_and!; [done|by apply not_elem_of_app|done|done].
Qed.

Section effects.
Context (t : thread) (vm : VM) (Hwf : wf vm).

Lemma cast_refers o r : JNICast vm o = Ret r -> r = refers vm o.
Proof.
  intros H. assert (live o vm \/ ~ live o vm) as [Hl|Hl]. { destruct o as [l|]; [|by left]. cbn. destruct (heap vm !! l); [left|right]; [done|by intros []]. }
  - pose proof (cast_ok vm Hwf True o (fun _ => Hl)) as Hc. rewrite H in Hc. by destruct Hc as [-> _].
  - destruct o as [l|]; [|by cbn in Hl]. exfalso. cbn [JNICast] in H. replace (size (heap vm) + 1) with (S (size (heap vm))) in H by lia. cbn in H, Hl. destruct (heap vm !! l); [|done]. by apply Hl.
Qed.
Lemma becomes_env e h fs x ff : vm.(jnienvs) !! t = Some e -> becomes t vm (set_env t (mkENV fs ff x) (set_heap h vm)) fs x vm.(globals) vm.(natives).
Proof. intros E. split_and!; [eexists; split; [apply lookup_insert_eq|done]|intros t' Ht; by apply lookup_insert_ne|done|done]. Qed.
Lemma becomes_lists e h n gs ns : vm.(jnienvs) !! t = Some e -> becomes t vm (mkVM h n vm.(jnienvs) gs ns) e.(localframe) e.(current_exception) gs ns.
Proof. intros E. split_and!; [by exists e|done|done|done]. Qed.
Lemma push_effect e l vm' : vm.(jnienvs) !! t = Some e -> push_local t l vm = Ret vm' -> becomes t vm vm' (with_local l e.(localframe)) e.(current_exception) vm.(globals) vm.(natives).
Proof.
  intros E H. unfold push_local, env_of in H. rewrite E in H. cbn [mbind outcome_bind] in H. destruct (localframe e) as [|f fs]; [done|]. apply bind_ret_inv in H as (h & _ & [= <-]). by apply (becomes_env e).
Qed.
Lemma returned_effect e p vm' : vm.(jnienvs) !! t = Some e -> state_of (ToJNIType t p vm) = Ret vm' -> match p with None => vm' = vm | Some l => becomes t vm vm' (with_local l e.(localframe)) e.(current_exception) vm.(globals) vm.(natives) end.
Proof. intros E H. unfold state_of in H. destruct p as [l|]; cbn [ToJNIType] in H; [|by injection H]. apply bind_ret_inv in H as ([r v] & (v' & Hp & [= <- <-])%bind_ret_inv & [= <-]). by apply push_effect. Qed.
Lemma delete_effect e g vm' : vm.(jnienvs) !! t = Some e -> delete_global (Some g) vm = Ret vm' -> global_gone t vm vm' g.
Proof.
  intros E H. unfold global_gone. rewrite E. cbn [delete_global from_option] in *. destruct (erase_once g (globals vm)) as [gs|] eqn:Eg.
  - pose proof (erase_once_perm _ _ _ Eg) as Hp. rewrite decide_True by (rewrite Hp; left). apply bind_ret_inv in H as (h & _ & [= <-]). exists gs. split; [done|]. by apply becomes_lists.
  - apply erase_once_none in Eg. rewrite decide_False by done. by injection H.
Qed.
Lemma exception_effect e x v vm' : jnienvs v = jnienvs vm -> globals v = globals vm -> natives v = natives vm -> vm.(jnienvs) !! t = Some e -> set_exception t x v = Ret vm' ->
  becomes t vm vm' e.(localframe) x vm.(globals) vm.(natives).
Proof.
  intros Hj Hg Hn E H. unfold set_exception, env_of in H. rewrite Hj, E in H. cbn [mbind outcome_bind] in H. apply bind_ret_inv in H as (h & Hd & [= <-]).
  split_and!; [eexists; split; [apply lookup_insert_eq|done]|intros t' Ht; cbn; rewrite Hj; by apply lookup_insert_ne|done|done].
Qed.
Lemma thrown_effect e vm' : vm.(jnienvs) !! t = Some e -> state_of (ThrowNew t vm) = Ret vm' -> becomes t vm vm' e.(localframe) (Some vm.(next)) vm.(globals) vm.(natives) /\ class vm' vm.(next) = Some KThrowable.
Proof.
  intros E H. pose proof (ThrowNew_ok t vm (fun _ => False) True Hwf (fun _ => ltac:(by eexists))) as Hok. rewrite H in Hok. destruct Hok as (Hwf' & _ & _). unfold state_of, ThrowNew in H.
  apply bind_ret_inv in H as ([r v] & Hx & [= <-]). cbn [allocate] in Hx. apply bind_ret_inv in Hx as (v1 & Hx & [= <- <-]). pose proof Hx as Hx'. apply (exception_effect e) in Hx; [|done..]. split; [exact Hx|].
  destruct Hx as ((e' & He & _ & Hp) & _). assert (is_Some (v1.(heap) !! vm.(next))) as [c Hc].
  { eapply counted_alive; [by apply (wf_counted t v1 Hwf' _ He)|]. left. unfold env_refs. rewrite Hp. cbn. rewrite !elem_of_app, list_elem_of_singleton. auto. }
  unfold set_exception, env_of in Hx'. cbn [jnienvs] in Hx'. rewrite E in Hx'. cbn [mbind outcome_bind] in Hx'. apply bind_ret_inv in Hx' as (h & Hd & [= <-]). cbn [heap set_env set_heap] in Hc. unfold class. cbn [heap set_env set_heap]. rewrite Hc. cbn.
  assert (fewer (<[vm.(next) := mkCell KThrowable 1]> vm.(heap)) h) as Hs.
  { destruct (native_new_ok vm Hwf (fun _ => False) true) as ((Hcnt & _) & _). destruct (current_exception e) as [y|] eqn:Ey; cbn [drop_opt heap] in Hd; [|injection Hd as <-; apply fewer_refl].
    assert (exists R, counted (<[vm.(next) := mkCell KThrowable 1]> vm.(heap)) (y :: R)) as [R HR].
    { exists (concat e.(localframe) ++ concat e.(freeframes) ++ rest t vm ++ [vm.(next)]). eapply counted_proper; [|exact Hcnt]. change (roots (native_new KThrowable vm)) with (env_list vm.(jnienvs) ++ vm.(globals) ++ vm.(natives) ++ [vm.(next)]).
      unfold rest, env_list. rewrite <- (map_to_list_delete _ t e E) at 1. cbn [mbind list_bind fst snd]. unfold env_refs. rewrite Ey. cbn [option_list]. clear. solve_Permutation. }
    destruct (drop_ok _ R y HR) as (h' & Hd' & _ & Hs). rewrite Hd in Hd'. by injection Hd' as <-. }
  destruct (Hs _ _ Hc) as (c0 & Hc0 & <-). rewrite lookup_insert_eq in Hc0. by injection Hc0 as <-.
Qed.
(** The calls that need no environment. *)
Definition outer (c : call) : bool := match c with CAttach | CDetach | CNew _ | CDrop _ => true | _ => false end.
Lemma outer_effect c vm' : outer c = true -> exec t c vm = Ret vm' -> effect t c vm vm'.
Proof.
  intros Ho H. destruct c as [| | | | | | | | | | | | | | |b| |l|]; try done; cbn [exec effect] in *.
  - injection H as <-. unfold AttachCurrentThread. destruct (jnienvs vm !! t) as [e|] eqn:E; [split_and!; [by exists e|done|done|done]|]. split_and!; [eexists; split; [apply lookup_insert_eq|done]|intros t' Ht; by apply lookup_insert_ne|done|done].
  - unfold DetachCurrentThread in H. destruct (jnienvs vm !! t) as [e|] eqn:E; [apply bind_ret_inv in H as (h & _ & [= <-]); done|]. injection H as <-. by rewrite delete_id.
  - injection H as <-. unfold class. cbn. by rewrite lookup_insert_eq.
  - unfold native_drop in H. destruct (erase_once l (natives vm)) as [ns|] eqn:En.
    + pose proof (erase_once_perm _ _ _ En) as Hp. rewrite decide_True by (rewrite Hp; left). apply bind_ret_inv in H as (h & _ & [= <-]). by exists ns.
    + apply erase_once_none in En. rewrite decide_False by done. by injection H.
Qed.
Lemma exec_effect c vm' : allowed t c vm -> exec t c vm = Ret vm' -> effect t c vm vm'.
Proof.
  intros [Ha Hc] H. destruct (outer c) eqn:Ho; [by apply outer_effect|].
  assert (is_Some (jnienvs vm !! t)) as [e E] by (by destruct c). unfold effect. rewrite E. cbn [default from_option]. unfold Datatypes.id. destruct c as [cap|o|cap|o|o|o|o|o|o|o| | | | | |b|o|l|p]; try done; cbn [exec] in H; unfold state_of in H.
  - apply bind_ret_inv in H as ([r v] & Hx & [= <-]). unfold PushLocalFrame, env_of in Hx. rewrite E in Hx. cbn [mbind outcome_bind] in Hx. apply bind_ret_inv in Hx as (_ & _ & [= _ <-]).
    destruct (proj2 (proj2 Hwf) t e E) as [_ Hfree]. split_and!; [eexists; split; [apply lookup_insert_eq|]|intros t' Ht; by apply lookup_insert_ne|done|done]. destruct (freeframes e); [done|]. apply Forall_cons_1 in Hfree as [-> _]. done.
  - apply bind_ret_inv in H as ([r v] & Hx & [= <-]). unfold PopLocalFrame, env_of in Hx. rewrite E in Hx. cbn [mbind outcome_bind] in Hx. destruct (localframe e) as [|f fs]; [done|]. apply bind_ret_inv in Hx as (h & _ & [= _ <-]). cbn [tail]. destruct fs; by apply (becomes_env e).
  - apply bind_ret_inv in H as ([r v] & Hx & [= <-]). unfold EnsureLocalCapacity, env_of in Hx. rewrite E in Hx. cbn [mbind outcome_bind] in Hx. destruct (localframe e); [done|]. by apply bind_ret_inv in Hx as (_ & _ & [= _ <-]).
  - apply bind_ret_inv in H as ([r v] & Hx & [= <-]). apply bind_ret_inv in Hx as (w & ->%cast_refers & Hx). destruct (refers vm o) as [w|]; [|by injection Hx]. apply bind_ret_inv in Hx as (h & _ & [= _ <-]).
    split; [by apply becomes_lists|]. unfold class. cbn. by rewrite lookup_insert_eq.
  - apply bind_ret_inv in H as (g & Hg & H). destruct o as [l|]; cbn [cast_global] in Hg; [|injection Hg as <-; by injection H]. unfold class. destruct (heap vm !! l) as [[k n]|]; [|done]. cbn in Hg |- *. destruct k; injection Hg as <-; try (by injection H). by apply (delete_effect e).
  - apply bind_ret_inv in H as ([r v] & Hx & [= <-]). apply bind_ret_inv in Hx as (w & ->%cast_refers & Hx). destruct (refers vm o) as [w|]; [|by injection Hx]. apply bind_ret_inv in Hx as (v' & Hp & [= _ <-]). by apply push_effect.
  - apply bind_ret_inv in H as (w & ->%cast_refers & H). destruct (refers vm o) as [l|]; [|by injection H]. unfold env_of in H. rewrite E in H. cbn [mbind outcome_bind] in H. pose proof (erase_frames_spec l (localframe e)) as Hs. destruct (erase_frames l (localframe e)) as [fs|].
    + destruct Hs as (fs1 & f & f' & fs2 & Hfs & Hn & Hp & ->). rewrite decide_True by (rewrite Hfs, concat_app; cbn; rewrite Hp, !elem_of_app, elem_of_cons; auto). apply bind_ret_inv in H as (h & _ & [= <-]). exists fs1, f, f', fs2. split_and!; try done. by apply (becomes_env e).
    + rewrite decide_False by done. by injection H.
  - apply bind_ret_inv in H as ([r v] & Hx & [= <-]). apply bind_ret_inv in Hx as (w & ->%cast_refers & Hx). destruct (refers vm o) as [w|]; [|by injection Hx]. injection Hx as _ <-.
    split; [by apply becomes_lists|]. unfold class. cbn. by rewrite lookup_insert_eq.
  - apply bind_ret_inv in H as (g & Hg & H). destruct o as [l|]; cbn [cast_weak] in Hg; [|injection Hg as <-; by injection H]. unfold class. destruct (heap vm !! l) as [[k n]|]; [|done]. cbn in Hg |- *. destruct k; injection Hg as <-; try (by injection H). by apply (delete_effect e).
  - apply bind_ret_inv in H as ([r v] & Hx & [= <-]). destruct o as [l|]; cbn [Throw_] in Hx; [destruct (heap vm !! l) as [[k n]|]; [|done]; destruct k; try done; apply bind_ret_inv in Hx as (h & _ & Hx)|]; apply bind_ret_inv in Hx as (v' & Hx & [= _ <-]); by apply (exception_effect e) in Hx.
  - by apply thrown_effect.
  - unfold ExceptionOccurred, env_of in H. rewrite E in H. cbn [mbind outcome_bind] in H. by apply (returned_effect e (current_exception e)).
  - by apply (exception_effect e) in H.
  - apply bind_ret_inv in H as (w & ->%cast_refers & H). destruct (refers vm o) as [l|]; [|by injection H]. apply bind_ret_inv in H as (h & _ & [= <-]). by apply becomes_lists.
  - by apply (returned_effect e p).
Qed.
End effects.

(** ** Theorems *)

(** C29. After any sequence of calls by any threads from a new machine: an object is alive exactly while it is referred to,
    its use count being the number of shared pointers to it, in frames, exceptions, global references, native code and
    the wrappers of global references; no reference held anywhere dangles, and nothing is left once all references are
    gone.  Every call that keeps to the rules then returns, and changes the references as [effect] says: a new reference
    is added where it belongs, a deleted one is gone, popping a frame or detaching a thread drops exactly its
    references, and the references of other threads are as they were. *)
Theorem references_counted (t0 : thread) (cs : list (thread * call)) (vm : VM) : run cs (new_VM t0) = Ret vm ->
  (forall l c, vm.(heap) !! l = Some c -> c.(use_count) = occ l (roots vm) + occ l (owned vm.(heap))) /\
  (forall l, is_Some (vm.(heap) !! l) <-> l ∈ roots vm \/ l ∈ owned vm.(heap)) /\
  (forall t c, allowed t c vm -> exists vm', exec t c vm = Ret vm' /\ effect t c vm vm' /\ later vm vm') /\
  (roots vm = [] -> vm.(heap) = ∅).
Proof.
  intros Hr. pose proof (run_wf cs _ _ (new_wf t0) Hr) as Hwf. pose proof Hwf as (Hc & Hf & Ht). split; [|split; [|split]].
  - intros l c E. pose proof (proj1 Hc l) as H. unfold strength in H. rewrite E in H. lia.
  - intros l. split; [|by apply counted_alive]. intros [c E]. pose proof (proj1 Hc l) as H. unfold strength in H. rewrite E in H. pose proof (proj2 Hc l c E). rewrite <- !occ_elem. lia.
  - intros t c Ha. pose proof (exec_ok t c vm Hwf) as H. destruct (exec t c vm) as [vm'| | |] eqn:E; try done. exists vm'. split; [done|]. split; [by apply exec_effect|apply H].
  - intros E. rewrite E in Hc. assert (forall l c, vm.(heap) !! l = Some c -> exists g n, vm.(heap) !! g = Some (mkCell (KGlobal l) n)) as Hown.
    { intros l c El. pose proof (proj1 Hc l) as H. unfold strength in H. rewrite El in H. pose proof (proj2 Hc l c El). assert (l ∈ owned vm.(heap)) as Hin by (apply occ_elem; cbn in H; lia).
      unfold owned in Hin. apply list_elem_of_bind in Hin as ([g [k n]] & Hk & Hg%elem_of_map_to_list). destruct k as [| | |w]; try by apply elem_of_nil in Hk. apply list_elem_of_singleton in Hk as ->. by exists g, n. }
    apply map_empty. intros l. destruct (vm.(heap) !! l) as [c|] eqn:El; [|done]. destruct (Hown l c El) as (g & n & Eg). destruct (Hown g _ Eg) as (g' & n' & Eg'). destruct (Hf g' _ Eg') as [_ [m [Hm|Hm]]]; congruence.
Qed.
Definition some_calls : list (thread * call) := [(1%Z, CNew false); (1%Z, CReturn (Some 0)); (1%Z, CNewGlobal (Some 0)); (1%Z, CDrop 0); (1%Z, CDetach); (2%Z, CAttach)].
Lemma references_counted_witness : exists vm, run some_calls (new_VM 1) = Ret vm /\ vm.(globals) = [1] /\ is_Some (vm.(heap) !! 0) /\ exists vm', exec 2%Z (CDeleteGlobal (Some 1)) vm = Ret vm' /\ vm'.(globals) = [].
Proof.
  eexists. split; [vm_compute; reflexivity|]. split; [reflexivity|].
  destruct (references_counted 1%Z some_calls _ ltac:(vm_compute; reflexivity)) as (_ & Hl & Hx & _). split; [apply Hl; right; vm_compute; left|].
  destruct (Hx 2%Z (CDeleteGlobal (Some 1))) as (vm' & E & (gs & Hp & _ & _ & Hg & _) & _); [split; [by eexists|by eexists]|]. exists vm'. split; [exact E|]. rewrite Hg. apply Permutation_length in Hp. cbn in Hp. destruct gs; [done|cbn in Hp; lia].
Defined.

(** A machine with an object of native code, and with a global or a weak reference to it. *)
Definition one_object : VM := native_new KObject (new_VM 1).
Definition one_global : VM := match NewGlobalRef 1 (Some 0) one_object with Ret (_, vm) => vm | _ => one_object end.
Definition one_weak : VM := match NewWeakGlobalRef 1 (Some 0) one_object with Ret (_, vm) => vm | _ => one_object end.

(** A global reference keeps its object: whatever any thread calls afterwards,
    frames popped and threads detached included, as long as the reference itself is
    not deleted it stands for the object it was made from, which is alive. *)
Theorem global_reference_keeps (t0 t : thread) cs vm (o : jobject) (g : loc) vm1 cs' vm2 : run cs (new_VM t0) = Ret vm -> NewGlobalRef t o vm = Ret (Some g, vm1) -> run cs' vm1 = Ret vm2 -> (forall t', (t', CDeleteGlobal (Some g)) ∉ cs') ->
  exists w, JNICast vm o = Ret (Some w) /\ JNICast vm2 (Some g) = Ret (Some w) /\ is_Some (vm2.(heap) !! w).
Proof.
  intros Hr Hg Hr' Hno. pose proof (run_wf cs _ _ (new_wf t0) Hr) as Hwf. assert (exec t (CNewGlobal o) vm = Ret vm1) as Hx by (cbn; unfold state_of; by rewrite Hg). destruct (exec_good _ _ _ _ Hwf Hx) as [Hwf1 _].
  unfold NewGlobalRef in Hg. apply bind_ret_inv in Hg as ([w|] & Hw & Hg); [|done]. apply bind_ret_inv in Hg as (h & Hh & Hg). cbn in Hg. injection Hg as <- <-. exists w. split; [done|].
  destruct (new_wrapper_kept vm (KGlobal w) h _ cs' vm2 Hwf1 eq_refl eq_refl I Hr' Hno) as [Hwf2 Hk]. destruct (vm2.(heap) !! vm.(next)) as [c|] eqn:E; [|done]. cbn in Hk. injection Hk as Hk.
  cbn [JNICast]. destruct (unpack_ok vm2.(next) vm2.(heap) vm.(next)) as [-> Hp]; [apply Hwf2|by eexists|]. unfold target in *. rewrite E in *. cbn in *. rewrite Hk in *. split; [done|]. by apply plain_alive, Hp.
Qed.
Lemma global_reference_keeps_witness : exists vm2, run [(1%Z, CDrop 0); (1%Z, CPop None); (1%Z, CDetach); (2%Z, CAttach)] one_global = Ret vm2 /\ JNICast vm2 (Some 1) = Ret (Some 0).
Proof.
  eexists. split; [vm_compute; reflexivity|].
  destruct (global_reference_keeps 1%Z 1%Z [(1%Z, CNew false)] one_object (Some 0) 1 one_global [(1%Z, CDrop 0); (1%Z, CPop None); (1%Z, CDetach); (2%Z, CAttach)] _
    ltac:(vm_compute; reflexivity) ltac:(vm_compute; reflexivity) ltac:(vm_compute; reflexivity)) as (w & Hw & H & _).
  - intros t' Hin. repeat (apply elem_of_cons in Hin as [Hin|Hin]; [done|]). by apply elem_of_nil in Hin.
  - vm_compute in Hw. injection Hw as <-. exact H.
Defined.

(** A weak reference that is not deleted stands for its object as long as that is
    alive, and for null from then on. *)
Theorem weak_reference_follows (t0 t : thread) cs vm (o : jobject) (g : loc) vm1 cs' vm2 : run cs (new_VM t0) = Ret vm -> NewWeakGlobalRef t o vm = Ret (Some g, vm1) -> run cs' vm1 = Ret vm2 -> (forall t', (t', CDeleteWeak (Some g)) ∉ cs') ->
  exists w, JNICast vm o = Ret (Some w) /\ JNICast vm2 (Some g) = Ret (if decide (is_Some (vm2.(heap) !! w)) then Some w else None) /\ IsSameObject (Some g) None vm2 = Ret (bool_decide (vm2.(heap) !! w = None)).
Proof.
  intros Hr Hg Hr' Hno. pose proof (run_wf cs _ _ (new_wf t0) Hr) as Hwf. assert (exec t (CNewWeak o) vm = Ret vm1) as Hx by (cbn; unfold state_of; by rewrite Hg). destruct (exec_good _ _ _ _ Hwf Hx) as [Hwf1 _].
  unfold NewWeakGlobalRef in Hg. apply bind_ret_inv in Hg as ([w|] & Hw & Hg); [|done]. cbn in Hg. injection Hg as <- <-. exists w. split; [done|].
  destruct (new_wrapper_kept vm (KWeak w) vm.(heap) _ cs' vm2 Hwf1 eq_refl eq_refl I Hr' Hno) as [Hwf2 Hk]. destruct (vm2.(heap) !! vm.(next)) as [c|] eqn:E; [|done]. cbn in Hk. injection Hk as Hk.
  assert (JNICast vm2 (Some vm.(next)) = Ret (if decide (is_Some (vm2.(heap) !! w)) then Some w else None)) as Hcast.
  { cbn [JNICast]. destruct (unpack_ok vm2.(next) vm2.(heap) vm.(next)) as [-> _]; [apply Hwf2|by eexists|]. unfold target. rewrite E. cbn. by rewrite Hk. }
  split; [done|]. unfold IsSameObject. rewrite decide_False by done. rewrite Hcast. cbn [mbind outcome_bind JNICast]. f_equal. destruct (vm2.(heap) !! w); [rewrite decide_True by done; done|]. rewrite decide_False by (by intros []). done.
Qed.
Lemma weak_reference_follows_witness : exists vm2, run [(1%Z, CDrop 0)] one_weak = Ret vm2 /\ IsSameObject (Some 1) None vm2 = Ret true.
Proof.
  eexists. split; [vm_compute; reflexivity|].
  destruct (weak_reference_follows 1%Z 1%Z [(1%Z, CNew false)] one_object (Some 0) 1 one_weak [(1%Z, CDrop 0)] _ ltac:(vm_compute; reflexivity) ltac:(vm_compute; reflexivity) ltac:(vm_compute; reflexivity)) as (w & Hw & _ & H).
  - intros t' Hin. apply elem_of_cons in Hin as [Hin|Hin]; [done|]. by apply elem_of_nil in Hin.
  - vm_compute in Hw. injection Hw as <-. exact H.
Defined.

(** The result passed to [PopLocalFrame] is dropped with the frame: null is
    returned, and an object held only there is destroyed. *)
Theorem popped_result_lost : exists vm, run [(1%Z, CPush 0); (1%Z, CNewLocal (Some 0)); (1%Z, CDrop 0)] one_object = Ret vm /\ vm.(heap) !! 0 = Some (mkCell KObject 1) /\
  exists vm', PopLocalFrame 1 (Some 0) vm = Ret (None, vm') /\ vm'.(heap) !! 0 = None.
Proof. eexists. split; [vm_compute; reflexivity|]. split; [reflexivity|]. eexists. split; [vm_compute; reflexivity|]. reflexivity. Qed.
(** Deleting a global reference as a local one deletes a local reference to the object instead. *)
Theorem local_deleted_through_global : exists vm, run [(1%Z, CNewLocal (Some 0)); (1%Z, CDeleteLocal (Some 1))] one_global = Ret vm /\ vm.(jnienvs) !! 1%Z = Some new_env /\ vm.(globals) = [1].
Proof. eexists. split; [vm_compute; reflexivity|]. split; reflexivity. Qed.
(** Throwing through a global reference is undefined. *)
Theorem global_not_throwable : run [(1%Z, CNew true); (1%Z, CNewGlobal (Some 0)); (1%Z, CThrow (Some 1))] (new_VM 1) = Undef /\ exists vm, run [(1%Z, CNew true); (1%Z, CThrow (Some 0))] (new_VM 1) = Ret vm.
Proof. split; [vm_compute; reflexivity|]. eexists. vm_compute. reflexivity. Qed.

End JniRefs.
