(* ===== verification/JniClasses.v ===== *)
(** * libjnivm: findclass.cpp, internal/method.cpp, internal/field.cpp, method.cpp, vm.cpp

    The classes of the Java environment, built with [JNI_DEBUG] as the build files
    set it: a class is found by its name in a tree of namespaces and nested classes,
    which grows as names are asked for; methods and fields are found in a class or
    its base classes, and made when there is none.  Namespaces, classes, methods and
    fields are named by their place in the lists of the state, as the program names
    them by their address.  The locks, the log and the local references that keep
    what is returned alive are left out. *)

From S2P Require Import Prelude CxxString.
From Stdlib Require Import ZArith Ascii Lia.
From stdpp Require Import base list gmap strings numbers.

Module JniClasses.

(** ** Data *)

Record Namespace := mkNamespace { ns_name : bytes; ns_namespaces : list nat; ns_classes : list nat }.
(** [handle] is the function bound to a method, or null. *)
Record Method := mkMethod { m_name : bytes; m_signature : bytes; m_static : bool; m_native : bool; m_handle : option Z }.
Record Field := mkField { f_name : bytes; f_type : bytes; f_static : bool }.
(** [baseclasses] is the list its function returns, or [None] where it is not set. *)
Record Class := mkClass {
  c_name : bytes;
  nativeprefix : bytes;
  c_classes : list nat;
  c_fields : list nat;
  c_methods : list nat;
  baseclasses : option (list (option nat));
  natives : list (bytes * Z)
}.
(** [np] is [spaces !! 0]; [array_classes] is the map [vm->classes]. *)
Record VM := mkVM {
  spaces : list Namespace;
  classes : list Class;
  methods : list Method;
  fields : list Field;
  array_classes : list (bytes * nat)
}.

Definition new_class (name prefix : bytes) : Class := mkClass name prefix [] [] [] None [].
Definition new_VM : VM := mkVM [mkNamespace (lit "jnivm") [] []] [] [] [] [].

Definition set_spaces (x : list Namespace) (vm : VM) : VM := mkVM x vm.(classes) vm.(methods) vm.(fields) vm.(array_classes).
Definition set_classes (x : list Class) (vm : VM) : VM := mkVM vm.(spaces) x vm.(methods) vm.(fields) vm.(array_classes).
Definition set_methods (x : list Method) (vm : VM) : VM := mkVM vm.(spaces) vm.(classes) x vm.(fields) vm.(array_classes).
Definition set_fields (x : list Field) (vm : VM) : VM := mkVM vm.(spaces) vm.(classes) vm.(methods) x vm.(array_classes).
Definition set_arrays (x : list (bytes * nat)) (vm : VM) : VM := mkVM vm.(spaces) vm.(classes) vm.(methods) vm.(fields) x.

(** [push_back] to the lists of a namespace or a class. *)
Definition add_namespace (i : nat) (n : Namespace) : Namespace := mkNamespace n.(ns_name) (n.(ns_namespaces) ++ [i]) n.(ns_classes).
Definition add_class (i : nat) (n : Namespace) : Namespace := mkNamespace n.(ns_name) n.(ns_namespaces) (n.(ns_classes) ++ [i]).
Definition add_nested (i : nat) (c : Class) : Class := mkClass c.(c_name) c.(nativeprefix) (c.(c_classes) ++ [i]) c.(c_fields) c.(c_methods) c.(baseclasses) c.(natives).
Definition add_method (i : nat) (c : Class) : Class := mkClass c.(c_name) c.(nativeprefix) c.(c_classes) c.(c_fields) (c.(c_methods) ++ [i]) c.(baseclasses) c.(natives).
Definition add_field (i : nat) (c : Class) : Class := mkClass c.(c_name) c.(nativeprefix) c.(c_classes) (c.(c_fields) ++ [i]) c.(c_methods) c.(baseclasses) c.(natives).
Definition set_natives (l : list (bytes * Z)) (c : Class) : Class := mkClass c.(c_name) c.(nativeprefix) c.(c_classes) c.(c_fields) c.(c_methods) c.(baseclasses) l.

(** [std::find_if] over a list of addresses. *)
Definition find_if (P : nat -> bool) (l : list nat) : option nat := snd <$> list_find (fun i => P i = true) l.

(** ** findclass.cpp *)

(** The pieces of a name at every [c], at least one: those the loops cut off in turn with [std::find]. *)
Fixpoint split_on (c : ascii) (s : bytes) : list bytes :=
  match s with
  | [] => [[]]
  | x :: s =>
      if decide (x = c) then [] :: split_on c s
      else match split_on c s with [] => [[x]] | p :: ps => (x :: p) :: ps end
  end.

(** The namespace or the class of a name in one of the lists: the first with that name. *)
Definition ns_child (vm : VM) (cur : nat) (sname : bytes) : option nat :=
  find_if (fun i => bool_decide (ns_name <$> vm.(spaces) !! i = Some sname)) (default [] (ns_namespaces <$> vm.(spaces) !! cur)).
Definition class_child (vm : VM) (cur : nat) (curc : option nat) (sname : bytes) : option nat :=
  find_if (fun i => bool_decide (c_name <$> vm.(classes) !! i = Some sname))
    (match curc with
     | Some c => default [] (c_classes <$> vm.(classes) !! c)
     | None => default [] (ns_classes <$> vm.(spaces) !! cur)
     end).

(** One turn of the loop over the namespaces. *)
Definition enter_namespace (vm : VM) (cur : nat) (sname : bytes) : nat * VM :=
  match ns_child vm cur sname with
  | Some next => (next, vm)
  | None =>
      let next := length vm.(spaces) in
      (next, set_spaces (alter (add_namespace next) cur vm.(spaces) ++ [mkNamespace sname [] []]) vm)
  end.
Fixpoint enter_namespaces (vm : VM) (cur : nat) (ps : list bytes) : nat * VM :=
  match ps with
  | [] => (cur, vm)
  | p :: ps => let '(cur, vm) := enter_namespace vm cur p in enter_namespaces vm cur ps
  end.

(** One turn of the loop over the classes: in the class entered last, or in the
    namespace; [prefix] is the name up to here. *)
Definition enter_class (vm : VM) (cur : nat) (curc : option nat) (sname prefix : bytes) : nat * VM :=
  match class_child vm cur curc sname with
  | Some next => (next, vm)
  | None =>
      let next := length vm.(classes) in
      (next,
       match curc with
       | Some c => set_classes (alter (add_nested next) c vm.(classes) ++ [new_class sname prefix]) vm
       | None => set_classes (vm.(classes) ++ [new_class sname prefix]) (set_spaces (alter (add_class next) cur vm.(spaces)) vm)
       end)
  end.
Fixpoint enter_classes (vm : VM) (cur : nat) (c : nat) (ps : list bytes) (prefix : bytes) : nat * VM :=
  match ps with
  | [] => (c, vm)
  | p :: ps =>
      let prefix := prefix ++ lit "$" ++ p in
      let '(c, vm) := enter_class vm cur (Some c) p prefix in
      enter_classes vm cur c ps prefix
  end.

(** [strrchr(name, '/')], and what follows it. *)
Definition after_slash (name : bytes) : bytes := List.last (split_on "/"%char name) [].
Fixpoint assoc {A} (name : bytes) (l : list (bytes * A)) : option A :=
  match l with
  | [] => None
  | (k, v) :: l => if decide (k = name) then Some v else assoc name l
  end.

Definition InternalFindClass (vm : VM) (name : bytes) : nat * VM :=
  if decide (head name = Some "["%char) then
    match assoc name vm.(array_classes) with
    | Some c => (c, vm)
    | None =>
        let c := length vm.(classes) in
        (c, set_arrays ((name, c) :: vm.(array_classes)) (set_classes (vm.(classes) ++ [new_class (after_slash name) name]) vm))
    end
  else
    let parts := split_on "/"%char name in
    let dirs := removelast parts in
    let '(cur, vm) := enter_namespaces vm 0 dirs in
    match split_on "$"%char (List.last parts []) with
    | [] => (0, vm)
    | p :: ps =>
        let prefix := (dirs ≫= (fun d => d ++ lit "/")) ++ p in
        let '(c, vm) := enter_class vm cur None p prefix in
        enter_classes vm cur c ps prefix
    end.

(** Every class named in a signature: from each [L] to the next semicolon, or the end. *)
Fixpoint declare_classes (fuel : nat) (vm : VM) (s : bytes) : outcome exn VM :=
  match fuel with
  | O => Diverge
  | S fuel =>
      match s with
      | [] => Ret vm
      | c :: s =>
          if decide (c = "L"%char) then
            match find_str (lit ";") s with
            | Some i => declare_classes fuel (InternalFindClass vm (take i s)).2 (drop (S i) s)
            | None => Undef
            end
          else declare_classes fuel vm s
      end
  end.

(** ** internal/method.cpp: lookup *)

(** The lambda of [GetMethodID]: methods registered by the program are passed over. *)
Definition is_method (vm : VM) (isStatic : bool) (name sig : bytes) (i : nat) : bool :=
  match vm.(methods) !! i with
  | Some m => bool_decide (m.(m_static) = isStatic /\ m.(m_native) = false /\ m.(m_name) = name /\ m.(m_signature) = sig)
  | None => false
  end.
(** The signature of a constructor: what follows the parameters is replaced by the class. *)
Definition init_signature (c : Class) (sig : bytes) : bytes :=
  take (match find_str (lit ")") sig with Some i => S i | None => 0 end) sig ++ lit "L" ++ c.(nativeprefix) ++ lit ";".

(** A new method, added to the class where there is one. *)
Definition make_method (vm : VM) (cl : option nat) (isStatic : bool) (name sig : bytes) : outcome exn (option nat * VM) :=
  let next := length vm.(methods) in
  let vm := set_methods (vm.(methods) ++ [mkMethod name sig isStatic false None]) vm in
  let vm := match cl with Some c => set_classes (alter (add_method next) c vm.(classes)) vm | None => vm end in
  vm ← declare_classes (S (length sig)) vm sig;
  Ret (Some next, vm).

Fixpoint GetMethodID (fuel : nat) (isStatic ReturnNull : bool) (vm : VM) (cl : option nat) (name sig : bytes) : outcome exn (option nat * VM) :=
  match fuel with
  | O => Diverge
  | S fuel =>
      match cl with
      | None => if ReturnNull then Ret (None, vm) else make_method vm None isStatic name sig
      | Some c =>
          match vm.(classes) !! c with
          | None => Undef
          | Some k =>
              if decide (isStatic = false /\ name = lit "<init>") then GetMethodID fuel true false vm (Some c) name (init_signature k sig)
              else match find_if (is_method vm isStatic name sig) k.(c_methods) with
                   | Some m => Ret (Some m, vm)
                   | None =>
                       let search := fix search (bs : list (option nat)) (vm : VM) : outcome exn (option nat * VM) :=
                         match bs with
                         | [] => Ret (None, vm)
                         | None :: bs => search bs vm
                         | Some b :: bs =>
                             '(id, vm) ← GetMethodID fuel isStatic true vm (Some b) name sig;
                             match id with Some m => Ret (Some m, vm) | None => search bs vm end
                         end in
                       '(id, vm) ← search (default [] k.(baseclasses)) vm;
                       match id with
                       | Some m => Ret (Some m, vm)
                       | None => if ReturnNull then Ret (None, vm) else make_method vm (Some c) isStatic name sig
                       end
                   end
          end
      end
  end.

(** ** internal/field.cpp: lookup *)

Definition is_field (vm : VM) (isStatic : bool) (name type : bytes) (i : nat) : bool :=
  match vm.(fields) !! i with
  | Some f => bool_decide (f.(f_static) = isStatic /\ f.(f_name) = name /\ f.(f_type) = type)
  | None => false
  end.
Definition make_field (vm : VM) (c : nat) (isStatic : bool) (name type : bytes) : outcome exn (option nat * VM) :=
  let next := length vm.(fields) in
  let vm := set_classes (alter (add_field next) c vm.(classes)) (set_fields (vm.(fields) ++ [mkField name type isStatic]) vm) in
  vm ← declare_classes (S (length type)) vm type;
  Ret (Some next, vm).
(** A null class is used without a check. *)
Fixpoint GetFieldID (fuel : nat) (isStatic ReturnNull : bool) (vm : VM) (cl : option nat) (name type : bytes) : outcome exn (option nat * VM) :=
  match fuel with
  | O => Diverge
  | S fuel =>
      match cl ≫= fun c => vm.(classes) !! c, cl with
      | Some k, Some c =>
          match find_if (is_field vm isStatic name type) k.(c_fields) with
          | Some f => Ret (Some f, vm)
          | None =>
              let search := fix search (bs : list (option nat)) (vm : VM) : outcome exn (option nat * VM) :=
                match bs with
                | [] => Ret (None, vm)
                | None :: bs => search bs vm
                | Some b :: bs =>
                    '(id, vm) ← GetFieldID fuel isStatic true vm (Some b) name type;
                    match id with Some f => Ret (Some f, vm) | None => search bs vm end
                end in
              '(id, vm) ← search (default [] k.(baseclasses)) vm;
              match id with
              | Some f => Ret (Some f, vm)
              | None => if ReturnNull then Ret (None, vm) else make_field vm c isStatic name type
              end
          end
      | _, _ => Undef
      end
  end.

(** ** internal/method.cpp: calls *)

Definition is_overload (vm : VM) (mid : Method) (i : nat) : bool :=
  match vm.(methods) !! i with
  | Some m => bool_decide (m.(m_static) = false /\ mid.(m_name) = m.(m_name) /\ mid.(m_signature) = m.(m_signature) /\ is_Some m.(m_handle))
  | None => false
  end.
(** [None] is the null pointer. *)
Definition findNonVirtualOverload (vm : VM) (cl : option nat) (i : nat) : outcome exn (option nat) :=
  match cl with
  | None => Ret (Some i)
  | Some c =>
      match vm.(classes) !! c, vm.(methods) !! i with
      | Some k, Some mid => Ret (find_if (is_overload vm mid) k.(c_methods))
      | _, _ => Undef
      end
  end.
(** [Object::GetBaseClasses], which [Method] inherits. *)
Definition Object_GetBaseClasses : list (option nat) := [None].
Fixpoint findVirtualOverload (fuel : nat) (vm : VM) (cl : option nat) (i : nat) : outcome exn (option nat) :=
  match fuel with
  | O => Diverge
  | S fuel =>
      r ← findNonVirtualOverload vm cl i;
      match r with
      | Some m => Ret (Some m)
      | None => findVirtualOverload fuel vm (default None (head Object_GetBaseClasses)) i
      end
  end.
(** The function [CallMethod] runs on an object of class [cl]: [None] where the
    method has none, and the default value is returned. *)
Definition CallMethod_function (vm : VM) (cl : option nat) (id : option nat) : outcome exn (option Z) :=
  match id ≫= fun i => vm.(methods) !! i ≫= fun m => m.(m_handle), id with
  | Some _, Some i =>
      r ← findVirtualOverload 2 vm cl i;
      match r ≫= fun m => vm.(methods) !! m with Some m => Ret m.(m_handle) | None => Undef end
  | _, _ => Ret None
  end.
Definition CallNonvirtualMethod_function (vm : VM) (cl : option nat) (id : option nat) : outcome exn (option Z) :=
  match id ≫= fun i => vm.(methods) !! i ≫= fun m => m.(m_handle), id with
  | Some _, Some i =>
      r ← findNonVirtualOverload vm cl i;
      match r ≫= fun m => vm.(methods) !! m with Some m => Ret m.(m_handle) | None => Undef end
  | _, _ => Ret None
  end.

(** ** method.cpp, vm.cpp, hookManager.h *)

(** The first method of the name and the signature, of any sort. *)
Definition getMethod (vm : VM) (c : nat) (sig name : bytes) : option nat :=
  find_if (fun i => match vm.(methods) !! i with Some m => bool_decide (m.(m_name) = name /\ m.(m_signature) = sig) | None => false end) (default [] (c_methods <$> vm.(classes) !! c)).

(** [natives[name] = fnPtr]. *)
Definition put_native (l : list (bytes * Z)) (name : bytes) (fn : Z) : list (bytes * Z) := (name, fn) :: filter (fun x => x.1 ≠ name) l.
Fixpoint RegisterNatives (vm : VM) (c : nat) (ms : list (bytes * bytes * Z)) : VM :=
  match ms with
  | [] => vm
  | (name, sig, fn) :: ms =>
      let next := length vm.(methods) in
      let vm := set_methods (vm.(methods) ++ [mkMethod name sig false true (Some fn)]) vm in
      RegisterNatives (set_classes (alter (fun k => add_method next (set_natives (put_native k.(natives) name fn) k)) c vm.(classes)) vm) c ms
  end.
Definition UnregisterNatives (vm : VM) (c : nat) : VM := set_classes (alter (set_natives []) c vm.(classes)) vm.

(** [FunctionBase::install]: the handle of the method is replaced, or the method made. *)
Definition set_handle (h : Z) (m : Method) : Method := mkMethod m.(m_name) m.(m_signature) m.(m_static) m.(m_native) (Some h).
Definition install (vm : VM) (c : nat) (isStatic : bool) (id ssig : bytes) (h : Z) : VM :=
  match find_if (fun i => match vm.(methods) !! i with Some m => bool_decide (m.(m_static) = isStatic /\ m.(m_name) = id /\ m.(m_signature) = ssig) | None => false end) (default [] (c_methods <$> vm.(classes) !! c)) with
  | Some i => set_methods (alter (set_handle h) i vm.(methods)) vm
  | None =>
      let next := length vm.(methods) in
      set_classes (alter (add_method next) c vm.(classes)) (set_methods (vm.(methods) ++ [mkMethod id ssig isStatic false (Some h)]) vm)
  end.

(** [IsAssignableFrom]: the class, or one of its bases. *)
Fixpoint HasBaseClass (fuel : nat) (vm : VM) (cl c2 : nat) : outcome exn bool :=
  match fuel with
  | O => Diverge
  | S fuel =>
      if decide (cl = c2) then Ret true
      else match vm.(classes) !! cl with
           | None => Undef
           | Some k =>
               let search := fix search (bs : list (option nat)) : outcome exn bool :=
                 match bs with
                 | [] => Ret false
                 | None :: bs => search bs
                 | Some b :: bs => r ← HasBaseClass fuel vm b c2; if r : bool then Ret true else search bs
                 end in
               search (default [] k.(baseclasses))
           end
  end.

(** ** The tree of names *)

(** Later states: lists grow at their end, and names stay. *)
Definition ns_grows (n n' : Namespace) : Prop := n'.(ns_name) = n.(ns_name) /\ n.(ns_namespaces) `prefix_of` n'.(ns_namespaces) /\ n.(ns_classes) `prefix_of` n'.(ns_classes).
Definition class_grows (c c' : Class) : Prop := c'.(c_name) = c.(c_name) /\ c'.(nativeprefix) = c.(nativeprefix) /\ c.(c_classes) `prefix_of` c'.(c_classes) /\ c.(c_methods) `prefix_of` c'.(c_methods) /\ c'.(baseclasses) = c.(baseclasses).
Definition grows (vm vm' : VM) : Prop :=
  (forall i n, vm.(spaces) !! i = Some n -> exists n', vm'.(spaces) !! i = Some n' /\ ns_grows n n') /\
  (forall i c, vm.(classes) !! i = Some c -> exists c', vm'.(classes) !! i = Some c' /\ class_grows c c') /\
  (forall name c, assoc name vm.(array_classes) = Some c -> assoc name vm'.(array_classes) = Some c).

(** [P i] is the name of namespace [i] with the slash after it.  Every class in the
    tree has the name of its place, and the lists hold what exists. *)
Definition placed (P : nat -> bytes) (vm : VM) : Prop :=
  (is_Some (vm.(spaces) !! 0) /\ P 0 = []) /\
  (forall i n j, vm.(spaces) !! i = Some n -> j ∈ n.(ns_namespaces) -> exists m, vm.(spaces) !! j = Some m /\ P j = P i ++ m.(ns_name) ++ lit "/") /\
  (forall i n c, vm.(spaces) !! i = Some n -> c ∈ n.(ns_classes) -> exists k, vm.(classes) !! c = Some k /\ k.(nativeprefix) = P i ++ k.(c_name)) /\
  (forall c k d, vm.(classes) !! c = Some k -> d ∈ k.(c_classes) -> exists k', vm.(classes) !! d = Some k' /\ k'.(nativeprefix) = k.(nativeprefix) ++ lit "$" ++ k'.(c_name)) /\
  (forall name c, assoc name vm.(array_classes) = Some c -> nativeprefix <$> vm.(classes) !! c = Some name).
Definition wf (vm : VM) : Prop := exists P, placed P vm.

Lemma find_if_Some P l x : find_if P l = Some x <-> exists i, l !! i = Some x /\ P x = true /\ forall j y, l !! j = Some y -> j < i -> P y = false.
Proof.
  unfold find_if. rewrite fmap_Some. split.
  - intros ([i y] & (Hi & Hp & Hj)%list_find_Some & ->). exists i. split; [done|]. split; [done|]. intros j y' Hy Hlt. destruct (P y') eqn:E; [|done]. by destruct (Hj j y' Hy Hlt).
  - intros (i & Hi & Hp & Hj). exists (i, x). split; [|done]. apply list_find_Some. split; [done|]. split; [done|]. intros j y Hy Hlt. by rewrite (Hj j y Hy Hlt).
Qed.
(** A list that grows keeps what was found in it. *)
Lemma find_if_prefix P P' l l' x : find_if P l = Some x -> l `prefix_of` l' -> (forall y, y ∈ l -> P' y = P y) -> find_if P' l' = Some x.
Proof.
  rewrite !find_if_Some. intros (i & Hi & Hp & Hj) [r ->] HP. exists i. split; [by apply lookup_app_l_Some|]. split; [rewrite HP; [done|by eapply list_elem_of_lookup_2]|]. intros j y Hy Hlt. rewrite lookup_app_l in Hy by (apply lookup_lt_Some in Hi; lia). rewrite HP; [eauto|by eapply list_elem_of_lookup_2].
Qed.
Lemma find_if_elem P l x : find_if P l = Some x -> x ∈ l /\ P x = true.
Proof. intros (i & Hi & Hp & _)%find_if_Some. split; [by eapply list_elem_of_lookup_2|done]. Qed.
(** What is added last is found where nothing was. *)
Lemma find_if_snoc P P' l x : find_if P l = None -> (forall y, y ∈ l -> P' y = P y) -> P' x = true -> find_if P' (l ++ [x]) = Some x.
Proof.
  intros Hn HP Hx. apply find_if_Some. exists (length l). split; [by rewrite list_lookup_middle|]. split; [done|]. intros j y Hy Hlt. rewrite lookup_app_l in Hy by done. rewrite HP by (by eapply list_elem_of_lookup_2).
  unfold find_if in Hn. apply fmap_None, list_find_None in Hn. destruct (P y) eqn:E; [|done]. exfalso. by eapply (proj1 (list.Forall_forall _ _) Hn y (list_elem_of_lookup_2 _ _ _ Hy)).
Qed.

Lemma ns_grows_refl n : ns_grows n n.
Proof. done. Qed.
Lemma class_grows_refl c : class_grows c c.
Proof. done. Qed.
Lemma grows_refl vm : grows vm vm.
Proof. split; [|split]; [intros i n E; exists n; by split..|done]. Qed.
Lemma grows_trans a b c : grows a b -> grows b c -> grows a c.
Proof.
  intros (S1 & C1 & A1) (S2 & C2 & A2). split; [|split]; [| |by auto].
  - intros i n E. destruct (S1 i n E) as (n1 & E1 & K1 & H1 & H1'). destruct (S2 i n1 E1) as (n2 & E2 & K2 & H2 & H2'). exists n2. split; [done|]. split; [congruence|]. split; by etrans.
  - intros i n E. destruct (C1 i n E) as (n1 & E1 & K1 & L1 & H1 & H1' & M1). destruct (C2 i n1 E1) as (n2 & E2 & K2 & L2 & H2 & H2' & M2). exists n2. split; [done|]. split; [congruence|]. split; [congruence|]. split; [by etrans|]. split; [by etrans|congruence].
Qed.

(** Appending a record and changing another. *)
Lemma alter_snoc_lookup {A} (f : A -> A) l i x j y : (alter f i l ++ [x]) !! j = Some y <-> (exists z, l !! j = Some z /\ y = (if decide (i = j) then f z else z)) \/ (j = length l /\ y = x).
Proof.
  rewrite lookup_app_Some, length_alter. destruct (decide (i = j)) as [->|Hne].
  - rewrite list_lookup_alter_eq, fmap_Some. split; [|intros [?|[-> ->]]; [by left|right; rewrite Nat.sub_diag; done]]. intros [?|[Hle Hx]]; [by left|right]. apply list_lookup_singleton_Some in Hx as [? <-]. split; [lia|done].
  - rewrite list_lookup_alter_ne by done. split; [|intros [(z & ? & ->)|[-> ->]]; [by left|right; rewrite Nat.sub_diag; done]]. intros [?|[Hle Hx]]; [left; by exists y|right]. apply list_lookup_singleton_Some in Hx as [? <-]. split; [lia|done].
Qed.
Lemma snoc_lookup {A} (l : list A) x j y : (l ++ [x]) !! j = Some y <-> l !! j = Some y \/ (j = length l /\ y = x).
Proof. rewrite lookup_app_Some. split; (intros [?|[? Hx]]; [by left|right]); [apply list_lookup_singleton_Some in Hx as [? <-]; split; [lia|done]|]. subst. split; [lia|by rewrite Nat.sub_diag]. Qed.

Section entering.
Context (P : nat -> bytes) (vm : VM) (Hp : placed P vm).

Lemma enter_namespace_ok cur s : is_Some (vm.(spaces) !! cur) ->
  let r := enter_namespace vm cur s in
  exists P', placed P' r.2 /\ grows vm r.2 /\ ns_child r.2 cur s = Some r.1 /\ is_Some (r.2.(spaces) !! r.1) /\ P' r.1 = P cur ++ s ++ lit "/" /\ forall i, is_Some (vm.(spaces) !! i) -> P' i = P i.
Proof.
  intros [n En] r. unfold enter_namespace in r. destruct (ns_child vm cur s) as [j|] eqn:Ej.
  - exists P. subst r. cbn [fst snd]. unfold ns_child in Ej. rewrite En in Ej. destruct (find_if_elem _ _ _ Ej) as [Hj Hs%bool_decide_eq_true]. destruct Hp as (_ & Hn & _). destruct (Hn cur n j En Hj) as (m & Em & HP). rewrite Em in Hs. cbn in Hs. injection Hs as Hs.
    split; [done|]. split; [apply grows_refl|]. split; [unfold ns_child; by rewrite En|]. split; [by eexists|]. split; [by rewrite HP, Hs|done].
  - set (j := length vm.(spaces)) in *. exists (fun i => if decide (i = j) then P cur ++ s ++ lit "/" else P i). subst r. cbn [fst snd]. assert (forall i n, vm.(spaces) !! i = Some n -> i ≠ j) as Hlt by (intros i m E%lookup_lt_Some; unfold j; lia). destruct Hp as ((H0 & HP0) & Hn & Hc & Hd & Ha).
    assert (forall i m, vm.(spaces) !! i = Some m -> exists m', (alter (add_namespace j) cur vm.(spaces) ++ [mkNamespace s [] []]) !! i = Some m' /\ ns_grows m m') as Hold.
    { intros i m E. eexists. split; [apply alter_snoc_lookup; left; by eexists|]. case_decide; [|done]. split; [done|]. split; [by apply prefix_app_r|done]. }
    assert (forall i m, vm.(spaces) !! i = Some m -> ns_name <$> (alter (add_namespace j) cur vm.(spaces) ++ [mkNamespace s [] []]) !! i = Some m.(ns_name)) as Hname by (intros i m E; destruct (Hold i m E) as (m' & -> & Hm & _); cbn; by rewrite Hm).
    assert ((alter (add_namespace j) cur vm.(spaces) ++ [mkNamespace s [] []]) !! j = Some (mkNamespace s [] [])) as Hj by (apply alter_snoc_lookup; right; done).
    split; [|split; [split; [exact Hold|split; [intros i c E; by exists c|done]]|split; [|split; [by eexists|split; [by rewrite decide_True|]]]]].
    + split; [|split; [|split; [|done]]]; cbn [spaces classes set_spaces].
      * destruct H0 as [m0 E0]. rewrite decide_False by eauto. destruct (Hold _ _ E0) as (? & ? & _). split; [by eexists|done].
      * intros i m k [(z & Ez & ->)|[-> ->]]%alter_snoc_lookup Hk; [|by apply elem_of_nil in Hk]. rewrite (decide_False (P := i = j)) by eauto. assert (k ∈ z.(ns_namespaces) \/ (cur = i /\ k = j)) as [Hk'|[<- ->]].
        { case_decide; [|by left]. cbn in Hk. apply elem_of_app in Hk as [?| ->%list_elem_of_singleton]; [by left|by right]. }
        { destruct (Hn i z k Ez Hk') as (m' & Em & HP). destruct (Hold _ _ Em) as (m2 & E2 & Hm2 & _). exists m2. rewrite decide_False by eauto. by rewrite HP, Hm2. }
        { exists (mkNamespace s [] []). by rewrite decide_True. }
      * intros i m c [(z & Ez & ->)|[-> ->]]%alter_snoc_lookup Hk; [|by apply elem_of_nil in Hk]. rewrite decide_False by eauto. apply (Hc i z c Ez). by case_decide.
    + unfold ns_child. cbn [spaces set_spaces]. assert ((alter (add_namespace j) cur vm.(spaces) ++ [mkNamespace s [] []]) !! cur = Some (add_namespace j n)) as -> by (apply alter_snoc_lookup; left; exists n; by rewrite decide_True).
      cbn [fmap option_fmap option_map default from_option ns_namespaces add_namespace]. unfold ns_child in Ej. rewrite En in Ej. eapply find_if_snoc; [exact Ej| |by rewrite Hj; apply bool_decide_eq_true].
      intros y Hy. destruct (Hn cur n y En Hy) as (m & Em & _). by rewrite (Hname y m Em), Em.
    + intros i [m E]. by rewrite decide_False by eauto.
Qed.

Lemma enter_nested_ok cur c k s : vm.(classes) !! c = Some k ->
  let r := enter_class vm cur (Some c) s (k.(nativeprefix) ++ lit "$" ++ s) in
  placed P r.2 /\ grows vm r.2 /\ class_child r.2 cur (Some c) s = Some r.1 /\ nativeprefix <$> r.2.(classes) !! r.1 = Some (k.(nativeprefix) ++ lit "$" ++ s).
Proof.
  intros Ek r. unfold enter_class in r. destruct (class_child vm cur (Some c) s) as [d|] eqn:Ed.
  - subst r. cbn [fst snd]. unfold class_child in Ed. rewrite Ek in Ed. destruct (find_if_elem _ _ _ Ed) as [Hd Hs%bool_decide_eq_true]. pose proof Hp as (_ & _ & _ & Hn & _). destruct (Hn c k d Ek Hd) as (k' & Ek' & HP). rewrite Ek' in Hs. cbn in Hs. injection Hs as Hs.
    split; [done|]. split; [apply grows_refl|]. split; [unfold class_child; by rewrite Ek|]. by rewrite Ek', <- Hs; cbn; rewrite HP.
  - set (d := length vm.(classes)) in *. subst r. cbn [fst snd]. set (new := new_class s _). destruct Hp as (H0 & Hn & Hc & Hd & Ha). set (l := alter (add_nested d) c vm.(classes) ++ [new]).
    assert (forall i m, vm.(classes) !! i = Some m -> exists m', l !! i = Some m' /\ class_grows m m') as Hold.
    { intros i m E. eexists. split; [apply alter_snoc_lookup; left; by eexists|]. case_decide; [|done]. split; [done|]. split; [done|]. split; [by apply prefix_app_r|done]. }
    assert (l !! d = Some new) as Hnew by (apply alter_snoc_lookup; right; done).
    split; [|split; [split; [intros i m E; by exists m|split; [exact Hold|done]]|split]]; cbn [spaces classes set_classes].
    + split; [done|]. split; [done|]. split; [|split]; cbn [spaces classes array_classes set_classes]; fold l.
      * intros i m x Em Hx. destruct (Hc i m x Em Hx) as (k0 & E0 & HP). destruct (Hold _ _ E0) as (k1 & E1 & Hn1 & Hp1 & _). exists k1. by rewrite Hn1, Hp1.
      * intros i m x [(z & Ez & ->)|[-> ->]]%alter_snoc_lookup Hx; [|by apply elem_of_nil in Hx]. assert (x ∈ z.(c_classes) \/ (c = i /\ x = d)) as [Hx'|[<- ->]].
        { case_decide; [|by left]. cbn in Hx. apply elem_of_app in Hx as [?| ->%list_elem_of_singleton]; [by left|by right]. }
        { destruct (Hd i z x Ez Hx') as (k0 & E0 & HP). destruct (Hold _ _ E0) as (k1 & E1 & Hn1 & Hp1 & _). exists k1. split; [done|]. rewrite Hn1, Hp1, HP. by case_decide. }
        { exists new. split; [done|]. rewrite decide_True by done. rewrite Ek in Ez. injection Ez as <-. done. }
      * intros name x E. specialize (Ha name x E). destruct (vm.(classes) !! x) as [k0|] eqn:E0; [|done]. destruct (Hold _ _ E0) as (k1 & -> & _ & Hp1 & _). cbn in *. by rewrite Hp1.
    + unfold class_child. cbn [classes set_classes]. fold l. assert (l !! c = Some (add_nested d k)) as -> by (apply alter_snoc_lookup; left; exists k; by rewrite decide_True). cbn [fmap option_fmap option_map default from_option c_classes add_nested]. unfold class_child in Ed. rewrite Ek in Ed.
      eapply find_if_snoc; [exact Ed| |by rewrite Hnew; apply bool_decide_eq_true]. intros y Hy. destruct (Hd c k y Ek Hy) as (k0 & E0 & _). destruct (Hold _ _ E0) as (k1 & -> & Hn1 & _). rewrite E0. cbn. by rewrite Hn1.
    + fold l. by rewrite Hnew.
Qed.
Lemma enter_top_ok cur n s : vm.(spaces) !! cur = Some n ->
  let r := enter_class vm cur None s (P cur ++ s) in
  placed P r.2 /\ grows vm r.2 /\ class_child r.2 cur None s = Some r.1 /\ nativeprefix <$> r.2.(classes) !! r.1 = Some (P cur ++ s).
Proof.
  intros En r. unfold enter_class in r. destruct (class_child vm cur None s) as [d|] eqn:Ed.
  - subst r. cbn [fst snd]. unfold class_child in Ed. rewrite En in Ed. destruct (find_if_elem _ _ _ Ed) as [Hd Hs%bool_decide_eq_true]. pose proof Hp as (_ & _ & Hc & _). destruct (Hc cur n d En Hd) as (k' & Ek' & HP). rewrite Ek' in Hs. cbn in Hs. injection Hs as Hs.
    split; [done|]. split; [apply grows_refl|]. split; [unfold class_child; by rewrite En|]. by rewrite Ek', <- Hs; cbn; rewrite HP.
  - set (d := length vm.(classes)) in *. subst r. cbn [fst snd]. set (new := new_class s _). destruct Hp as ((H0 & HP0) & Hn & Hc & Hd & Ha). set (l := vm.(classes) ++ [new]). set (sp := alter (add_class d) cur vm.(spaces)).
    assert (forall i m, vm.(classes) !! i = Some m -> l !! i = Some m) as Hold by (intros i m E; apply snoc_lookup; by left). assert (l !! d = Some new) as Hnew by (apply snoc_lookup; right; done).
    assert (forall i m, vm.(spaces) !! i = Some m -> sp !! i = Some (if decide (cur = i) then add_class d m else m)) as Hsp by (intros i m E; unfold sp; destruct (decide (cur = i)) as [->|]; [by rewrite list_lookup_alter_eq, E|by rewrite list_lookup_alter_ne]).
    assert (forall i m', sp !! i = Some m' -> exists m, vm.(spaces) !! i = Some m /\ m' = (if decide (cur = i) then add_class d m else m)) as Hsp'.
    { intros i m' E. destruct (vm.(spaces) !! i) as [m|] eqn:Em; [exists m; split; [done|]; rewrite (Hsp i m Em) in E; congruence|]. exfalso. apply lookup_ge_None in Em. apply lookup_lt_Some in E. unfold sp in E. rewrite length_alter in E. lia. }
    split; [|split; [split; [|split; [intros i m E; exists m; split; [by apply Hold|done]|done]]|split]]; cbn [spaces classes set_classes set_spaces]; fold l sp.
    + split; [split; [destruct H0 as [m0 E0]; cbn; fold sp; rewrite (Hsp _ _ E0); by eexists|done]|]. split; [|split; [|split]]; cbn [spaces classes array_classes set_classes set_spaces]; fold l sp.
      * intros i m' j (m & Em & ->)%Hsp' Hj. destruct (Hn i m j Em) as (m2 & E2 & HP); [by case_decide|]. eexists. split; [by apply Hsp|]. rewrite HP. by destruct (decide (cur = j)).
      * intros i m' x (m & Em & ->)%Hsp' Hx. assert (x ∈ m.(ns_classes) \/ (cur = i /\ x = d)) as [Hx'|[<- ->]].
        { case_decide; [|by left]. cbn in Hx. apply elem_of_app in Hx as [?| ->%list_elem_of_singleton]; [by left|by right]. }
        { destruct (Hc i m x Em Hx') as (k0 & E0 & HP). exists k0. split; [by apply Hold|done]. }
        { exists new. split; [done|done]. }
      * intros i m x [Em|[-> ->]]%snoc_lookup Hx; [|by apply elem_of_nil in Hx]. destruct (Hd i m x Em Hx) as (k0 & E0 & HP). exists k0. split; [by apply Hold|done].
      * intros name x E. specialize (Ha name x E). destruct (vm.(classes) !! x) as [k0|] eqn:E0; [|done]. by rewrite (Hold _ _ E0).
    + intros i m E. eexists. split; [by apply Hsp|]. case_decide; [|done]. split; [done|]. split; [done|by apply prefix_app_r].
    + unfold class_child. cbn [classes spaces set_classes set_spaces]. fold l sp. rewrite (Hsp cur n En), decide_True by done. cbn [fmap option_fmap option_map default from_option ns_classes add_class]. unfold class_child in Ed. rewrite En in Ed.
      eapply find_if_snoc; [exact Ed| |by rewrite Hnew; apply bool_decide_eq_true]. intros y Hy. destruct (Hc cur n y En Hy) as (k0 & E0 & _). by rewrite (Hold _ _ E0), E0.
    + by rewrite Hnew.
Qed.
End entering.

(** What was found is found again in every later state. *)
Lemma ns_child_grows P vm vm' cur s j : placed P vm -> grows vm vm' -> ns_child vm cur s = Some j -> ns_child vm' cur s = Some j.
Proof.
  intros (_ & Hn & _) (S & _ & _) H. unfold ns_child in *. destruct (vm.(spaces) !! cur) as [n|] eqn:En; [|done]. destruct (S cur n En) as (n' & -> & _ & Hpre & _). eapply find_if_prefix; [exact H|exact Hpre|].
  intros y Hy. destruct (Hn cur n y En Hy) as (m & Em & _). destruct (S y m Em) as (m' & -> & Hm & _). rewrite Em. cbn. by rewrite Hm.
Qed.
Lemma class_child_grows P vm vm' cur curc s d : placed P vm -> grows vm vm' -> class_child vm cur curc s = Some d -> class_child vm' cur curc s = Some d.
Proof.
  intros (_ & _ & Hc & Hd & _) (S & C & _) H. unfold class_child in *.
  assert (forall l l', find_if (fun i => bool_decide (c_name <$> vm.(classes) !! i = Some s)) l = Some d -> l `prefix_of` l' -> (forall y, y ∈ l -> exists k, vm.(classes) !! y = Some k) -> find_if (fun i => bool_decide (c_name <$> vm'.(classes) !! i = Some s)) l' = Some d) as Hfind.
  { intros l l' Hl Hpre Hy. eapply find_if_prefix; [exact Hl|exact Hpre|]. intros y Hin. destruct (Hy y Hin) as [k Ek]. destruct (C y k Ek) as (k' & -> & Hk & _). rewrite Ek. cbn. by rewrite Hk. }
  destruct curc as [c|].
  - destruct (vm.(classes) !! c) as [k|] eqn:Ek; [|done]. destruct (C c k Ek) as (k' & -> & _ & _ & Hpre & _). eapply Hfind; [exact H|exact Hpre|]. intros y Hin. destruct (Hd c k y Ek Hin) as (k0 & E0 & _). by exists k0.
  - destruct (vm.(spaces) !! cur) as [n|] eqn:En; [|done]. destruct (S cur n En) as (n' & -> & _ & _ & Hpre). eapply Hfind; [exact H|exact Hpre|]. intros y Hin. destruct (Hc cur n y En Hin) as (k0 & E0 & _). by exists k0.
Qed.

Lemma enter_namespaces_ok ps : forall P vm cur, placed P vm -> is_Some (vm.(spaces) !! cur) ->
  let r := enter_namespaces vm cur ps in
  exists P', placed P' r.2 /\ grows vm r.2 /\ is_Some (r.2.(spaces) !! r.1) /\ P' r.1 = P cur ++ (ps ≫= (fun d => d ++ lit "/")) /\ forall vm', grows r.2 vm' -> enter_namespaces vm' cur ps = (r.1, vm').
Proof.
  induction ps as [|p ps IH]; intros P vm cur Hp Hcur r.
  - exists P. cbn in *. split; [done|]. split; [apply grows_refl|]. split; [done|]. split; [by rewrite app_nil_r|done].
  - destruct (enter_namespace_ok P vm Hp cur p Hcur) as (P1 & Hp1 & G1 & Hfind & Hs1 & HP1 & _). cbn [enter_namespaces] in r. destruct (enter_namespace vm cur p) as [j vm1] eqn:E1. cbn [fst snd] in *.
    destruct (IH P1 vm1 j Hp1 Hs1) as (P2 & Hp2 & G2 & Hs2 & HP2 & Hagain). exists P2. fold r in Hp2, G2, Hs2, HP2, Hagain. split; [done|]. split; [by eapply grows_trans|]. split; [done|]. split.
    + rewrite HP2, HP1. change ((p :: ps) ≫= (fun d => d ++ lit "/")) with ((p ++ lit "/") ++ (ps ≫= (fun d => d ++ lit "/"))). by rewrite <- !app_assoc.
    + intros vm' G'. cbn [enter_namespaces]. unfold enter_namespace. rewrite (ns_child_grows P1 vm1 vm' cur p j Hp1 (grows_trans _ _ _ G2 G') Hfind). by apply Hagain.
Qed.
Lemma enter_classes_ok ps : forall P vm cur c prefix, placed P vm -> nativeprefix <$> vm.(classes) !! c = Some prefix ->
  let r := enter_classes vm cur c ps prefix in
  placed P r.2 /\ grows vm r.2 /\ nativeprefix <$> r.2.(classes) !! r.1 = Some (prefix ++ (ps ≫= (fun d => lit "$" ++ d))) /\ forall vm', grows r.2 vm' -> enter_classes vm' cur c ps prefix = (r.1, vm').
Proof.
  induction ps as [|p ps IH]; intros P vm cur c prefix Hp Hc r.
  - cbn in *. split; [done|]. split; [apply grows_refl|]. split; [by rewrite app_nil_r|done].
  - destruct (vm.(classes) !! c) as [k|] eqn:Ek; [|done]. cbn in Hc. injection Hc as <-. destruct (enter_nested_ok P vm Hp cur c k p Ek) as (Hp1 & G1 & Hfind & Hn1). cbn [enter_classes] in r. destruct (enter_class vm cur (Some c) p (k.(nativeprefix) ++ lit "$" ++ p)) as [d vm1] eqn:E1. cbn [fst snd] in *.
    destruct (IH P vm1 cur d _ Hp1 Hn1) as (Hp2 & G2 & Hn2 & Hagain). fold r in Hp2, G2, Hn2, Hagain. split; [done|]. split; [by eapply grows_trans|]. split.
    + rewrite Hn2. change ((p :: ps) ≫= (fun d => lit "$" ++ d)) with ((lit "$" ++ p) ++ (ps ≫= (fun d => lit "$" ++ d))). by rewrite <- !app_assoc.
    + intros vm' G'. cbn [enter_classes]. unfold enter_class. rewrite (class_child_grows P vm1 vm' cur (Some c) p d Hp1 (grows_trans _ _ _ G2 G') Hfind). by apply Hagain.
Qed.

(** The pieces of a name, put together. *)
Lemma split_on_join c s : exists p ps, split_on c s = p :: ps /\ s = p ++ (ps ≫= (fun d => [c] ++ d)).
Proof.
  induction s as [|x s (p & ps & E & IH)]; cbn [split_on]; [by exists [], []|]. rewrite E. case_decide as Hx; [exists [], (p :: ps); split; [done|]; subst x; rewrite IH at 1; reflexivity|]. exists (x :: p), ps. split; [done|]. rewrite IH at 1. reflexivity.
Qed.
Lemma join_last (c : ascii) (ps : list bytes) : forall p, p ++ (ps ≫= (fun d => [c] ++ d)) = (removelast (p :: ps) ≫= (fun d => d ++ [c])) ++ List.last (p :: ps) [].
Proof.
  induction ps as [|q ps IH]; intros p; [cbn; by rewrite app_nil_r|]. change (removelast (p :: q :: ps)) with (p :: removelast (q :: ps)). change (List.last (p :: q :: ps) []) with (List.last (q :: ps) []).
  change ((p :: removelast (q :: ps)) ≫= (fun d => d ++ [c])) with ((p ++ [c]) ++ (removelast (q :: ps) ≫= (fun d => d ++ [c]))). rewrite <- !app_assoc, <- IH. done.
Qed.
Lemma split_name name : exists p ps, split_on "$"%char (List.last (split_on "/"%char name) []) = p :: ps /\ name = ((removelast (split_on "/"%char name) ≫= (fun d => d ++ lit "/")) ++ p) ++ (ps ≫= (fun d => lit "$" ++ d)).
Proof.
  destruct (split_on_join "/"%char name) as (q & qs & Eq & Hname). destruct (split_on_join "$"%char (List.last (split_on "/"%char name) [])) as (p & ps & Ep & Hlast). exists p, ps. split; [done|]. rewrite <- app_assoc. change (fun d => lit "$" ++ d) with (fun d => ["$"%char] ++ d). rewrite <- Hlast, Eq. rewrite Hname at 1. apply join_last.
Qed.

(** Finding a class: the class found has that name, and every later search finds it. *)
Lemma find_class_ok vm name : wf vm -> let r := InternalFindClass vm name in
  wf r.2 /\ grows vm r.2 /\ nativeprefix <$> r.2.(classes) !! r.1 = Some name /\ forall vm', grows r.2 vm' -> InternalFindClass vm' name = (r.1, vm').
Proof.
  intros [P Hp] r. unfold InternalFindClass in r |- *. destruct (decide (head name = Some "["%char)) as [Hb|Hb].
  - destruct (assoc name vm.(array_classes)) as [c|] eqn:Ec.
    + subst r. cbn [fst snd]. split; [by exists P|]. split; [apply grows_refl|]. split; [by apply Hp|]. intros vm' (_ & _ & A). by rewrite (A _ _ Ec).
    + subst r. cbn [fst snd]. set (c := length vm.(classes)). set (new := new_class _ _). set (vm1 := set_arrays _ _). assert (forall i m, vm.(classes) !! i = Some m -> vm1.(classes) !! i = Some m) as Hold by (intros i m E; apply snoc_lookup; by left). assert (vm1.(classes) !! c = Some new) as Hnew by (apply snoc_lookup; by right).
      assert (assoc name vm1.(array_classes) = Some c) as Ha1 by (cbn; by rewrite decide_True).
      split; [exists P|split; [|split; [by rewrite Hnew|intros vm' (_ & _ & A); by rewrite (A _ _ Ha1)]]].
      * destruct Hp as (H0 & Hn & Hc & Hd & Ha). split; [done|]. split; [done|]. split; [|split].
        { intros i n x En Hx. destruct (Hc i n x En Hx) as (k & Ek & HP). exists k. split; [by apply Hold|done]. }
        { intros i m x [Em|[-> ->]]%snoc_lookup Hx; [|by apply elem_of_nil in Hx]. destruct (Hd i m x Em Hx) as (k0 & E0 & HP). exists k0. split; [by apply Hold|done]. }
        { intros name' x. cbn. case_decide as Hn'; [intros [= <-]; subst name'; change (nativeprefix <$> vm1.(classes) !! c = Some name); by rewrite Hnew|]. intros E. specialize (Ha name' x E). destruct (vm.(classes) !! x) as [k0|] eqn:E0; [|done]. change (nativeprefix <$> vm1.(classes) !! x = Some name'). by rewrite (Hold _ _ E0). }
      * split; [intros i n E; by exists n|]. split; [intros i m E; exists m; split; [by apply Hold|done]|]. intros name' x E. cbn. rewrite decide_False; [done|]. intros ->. congruence.
  - subst r. destruct (split_name name) as (p & ps & Esplit & Hname). rewrite Esplit in *. set (dirs := removelast (split_on "/"%char name)) in *. assert (is_Some (vm.(spaces) !! 0)) as H0 by apply Hp.
    destruct (enter_namespaces_ok dirs P vm 0 Hp H0) as (P1 & Hp1 & G1 & Hs1 & HP1 & Hagain1). destruct (enter_namespaces vm 0 dirs) as [cur vm1]. cbn [fst snd] in *. rewrite (proj2 (proj1 Hp)) in HP1. cbn [app] in HP1. destruct Hs1 as [n En].
    destruct (enter_top_ok P1 vm1 Hp1 cur n p En) as (Hp2 & G2 & Hfind & Hn2). rewrite HP1 in Hp2, G2, Hfind, Hn2. destruct (enter_class vm1 cur None p ((dirs ≫= (fun d => d ++ lit "/")) ++ p)) as [c vm2]. cbn [fst snd] in *.
    destruct (enter_classes_ok ps P1 vm2 cur c _ Hp2 Hn2) as (Hp3 & G3 & Hn3 & Hagain3). split; [by exists P1|]. split; [exact (grows_trans _ _ _ G1 (grows_trans _ _ _ G2 G3))|]. split; [by rewrite Hn3, <- Hname|].
    intros vm' G'. pose proof (grows_trans _ _ _ G3 G') as G2'. rewrite (Hagain1 vm' (grows_trans _ _ _ G2 G2')). unfold enter_class. rewrite (class_child_grows P1 vm2 vm' cur None p c Hp2 G2' Hfind). by apply Hagain3.
Qed.

(** ** Methods *)

(** Finding classes leaves the methods and the bases of all classes as they are; a new class has none. *)
Definition members_kept (vm vm' : VM) : Prop := vm'.(methods) = vm.(methods) /\ forall i c', vm'.(classes) !! i = Some c' ->
  (exists c, vm.(classes) !! i = Some c /\ c'.(c_methods) = c.(c_methods) /\ c'.(baseclasses) = c.(baseclasses)) \/ (c'.(c_methods) = [] /\ c'.(baseclasses) = None).
Lemma members_kept_refl vm : members_kept vm vm.
Proof. split; [done|]. intros i c E. left. by exists c. Qed.
Lemma members_kept_trans a b c : members_kept a b -> members_kept b c -> members_kept a c.
Proof.
  intros [M1 H1] [M2 H2]. split; [congruence|]. intros i k E. destruct (H2 i k E) as [(k1 & E1 & Hm & Hb)|?]; [|by right]. destruct (H1 i k1 E1) as [(k0 & E0 & Hm0 & Hb0)|[? ?]]; [left; exists k0; split; [done|]; split; congruence|right; split; congruence].
Qed.
Lemma enter_namespaces_members ps : forall vm cur, members_kept vm (enter_namespaces vm cur ps).2.
Proof.
  induction ps as [|p ps IH]; intros vm cur; [apply members_kept_refl|]. cbn [enter_namespaces]. unfold enter_namespace. destruct (ns_child vm cur p); [apply IH|]. eapply members_kept_trans; [|apply IH]. split; [done|]. intros i c E. left. by exists c.
Qed.
Lemma enter_class_members vm cur curc s prefix : members_kept vm (enter_class vm cur curc s prefix).2.
Proof.
  unfold enter_class. destruct (class_child vm cur curc s); [apply members_kept_refl|]. split; [by destruct curc|]. destruct curc as [c|]; cbn [snd classes set_classes set_spaces].
  - intros i k [(z & Ez & ->)|[-> ->]]%alter_snoc_lookup; [left; exists z; split; [done|]; by case_decide|by right].
  - intros i k [Ek|[-> ->]]%snoc_lookup; [left; by exists k|by right].
Qed.
Lemma enter_classes_members ps : forall vm cur c prefix, members_kept vm (enter_classes vm cur c ps prefix).2.
Proof.
  induction ps as [|p ps IH]; intros vm cur c prefix; [apply members_kept_refl|]. cbn [enter_classes]. pose proof (enter_class_members vm cur (Some c) p (prefix ++ lit "$" ++ p)) as H. destruct (enter_class _ _ _ _ _) as [d vm1]. eapply members_kept_trans; [exact H|apply IH].
Qed.
Lemma find_class_members vm name : members_kept vm (InternalFindClass vm name).2.
Proof.
  unfold InternalFindClass. case_decide as Hbr.
  - destruct (assoc name _); [apply members_kept_refl|]. split; [done|]. intros i k [Ek|[-> ->]]%snoc_lookup; [left; by exists k|by right].
  - pose proof (enter_namespaces_members (removelast (split_on "/"%char name)) vm 0) as H. destruct (enter_namespaces _ _ _) as [cur vm1]. destruct (split_on "$"%char _) as [|p ps]; [done|]. pose proof (enter_class_members vm1 cur None p ((removelast (split_on "/"%char name) ≫= (fun d => d ++ lit "/")) ++ p)) as H'. destruct (enter_class _ _ _ _ _) as [c vm2].
    eapply members_kept_trans; [exact H|]. eapply members_kept_trans; [exact H'|apply enter_classes_members].
Qed.
Lemma declare_members fuel : forall vm s vm', declare_classes fuel vm s = Ret vm' -> members_kept vm vm'.
Proof.
  induction fuel as [|fuel IH]; intros vm s vm' H; [done|]. cbn [declare_classes] in H. destruct s as [|c s]; [simplify_eq; apply members_kept_refl|]. case_decide; [|by eapply IH]. destruct (find_str (lit ";") s) as [i|]; [|done]. eapply members_kept_trans; [apply find_class_members|by eapply IH].
Qed.
Lemma declare_grows fuel : forall vm s vm', wf vm -> declare_classes fuel vm s = Ret vm' -> wf vm' /\ grows vm vm'.
Proof.
  induction fuel as [|fuel IH]; intros vm s vm' Hwf H; [done|]. cbn [declare_classes] in H. destruct s as [|c s]; [simplify_eq; split; [done|apply grows_refl]|]. case_decide; [|by eapply IH]. destruct (find_str (lit ";") s) as [i|]; [|done]. destruct (find_class_ok vm (take i s) Hwf) as (Hwf1 & G & _).
  destruct (IH _ _ _ Hwf1 H) as [? ?]. split; [done|]. by eapply grows_trans.
Qed.
Lemma declare_ends fuel : forall vm s, length s < fuel -> declare_classes fuel vm s ≠ Diverge.
Proof.
  induction fuel as [|fuel IH]; intros vm s H; [lia|]. cbn [declare_classes]. destruct s as [|c s]; [done|]. cbn [length] in H. case_decide; [|apply IH; lia]. destruct (find_str (lit ";") s) as [i|]; [|done]. apply IH. rewrite length_drop. lia.
Qed.

(** The lists of methods hold what exists. *)
Definition methods_exist (vm : VM) : Prop := forall c k m, vm.(classes) !! c = Some k -> m ∈ k.(c_methods) -> m < length vm.(methods).

Lemma is_method_spec vm st name sig m : is_method vm st name sig m = true -> exists h, vm.(methods) !! m = Some (mkMethod name sig st false h).
Proof. unfold is_method. destruct (vm.(methods) !! m) as [[n s t v h]|]; [|done]. intros H%bool_decide_eq_true. cbn in H. destruct H as (-> & -> & -> & ->). by exists h. Qed.

(** A search that may not add anything changes nothing. *)
Lemma search_pure fuel : forall st vm cl name sig id vm', (st = false -> name ≠ lit "<init>") -> GetMethodID fuel st true vm cl name sig = Ret (id, vm') -> vm' = vm /\ forall m, id = Some m -> is_method vm st name sig m = true.
Proof.
  induction fuel as [|fuel IH]; intros st vm cl name sig id vm' Hn H; [done|]. cbn [GetMethodID] in H. destruct cl as [c|]; [|by simplify_eq]. destruct (vm.(classes) !! c) as [k|]; [|done]. rewrite decide_False in H by naive_solver.
  destruct (find_if _ k.(c_methods)) as [m|] eqn:Em; [simplify_eq; split; [done|]; intros ? [= <-]; by apply find_if_elem in Em as [_ ?]|].
  revert H. generalize (default [] k.(baseclasses)) as bs. induction bs as [|[b|] bs IHbs]; cbn [mbind outcome_bind]; [intros; by simplify_eq| |exact IHbs].
  destruct (GetMethodID fuel st true vm (Some b) name sig) as [[id1 vm1]| | |] eqn:Eb; try done. cbn [mbind outcome_bind]. destruct (IH _ _ _ _ _ _ _ Hn Eb) as [-> Hm]. destruct id1 as [m|]; [|exact IHbs]. cbn [mbind outcome_bind]. intros. by simplify_eq.
Qed.

(** Adding a method to a class leaves the tree of names as it is. *)
Lemma add_method_ok vm c i ms : wf vm -> wf (set_classes (alter (add_method i) c vm.(classes)) (set_methods ms vm)) /\ grows vm (set_classes (alter (add_method i) c vm.(classes)) (set_methods ms vm)).
Proof.
  intros [P (H0 & Hn & Hc & Hd & Ha)]. set (l := alter (add_method i) c vm.(classes)).
  assert (forall j k, vm.(classes) !! j = Some k -> exists k', l !! j = Some k' /\ class_grows k k' /\ k'.(c_classes) = k.(c_classes)) as Hold.
  { intros j k E. unfold l. destruct (decide (c = j)) as [->|Hne]; [rewrite list_lookup_alter_eq, E; eexists; split; [done|]; split; [|done]|rewrite list_lookup_alter_ne by done; exists k; done]. split; [done|]. split; [done|]. split; [done|]. split; [by apply prefix_app_r|done]. }
  assert (forall j k', l !! j = Some k' -> exists k, vm.(classes) !! j = Some k /\ k'.(c_classes) = k.(c_classes) /\ k'.(nativeprefix) = k.(nativeprefix)) as Hback.
  { intros j k' E. unfold l in E. destruct (decide (c = j)) as [->|Hne]; [|rewrite list_lookup_alter_ne in E by done; by exists k']. rewrite list_lookup_alter_eq in E. apply fmap_Some in E as (k & E & ->). by exists k. }
  split; [exists P; split; [done|]; split; [done|]; split; [|split]; cbn [spaces classes array_classes set_classes set_methods]; fold l|].
  - intros j n x En Hx. destruct (Hc j n x En Hx) as (k & Ek & HP). destruct (Hold x k Ek) as (k' & E' & (Hn' & Hp' & _) & _). exists k'. by rewrite Hn', Hp'.
  - intros j k' x (k & Ek & Hcl & Hpr)%Hback Hx. rewrite Hcl in Hx. destruct (Hd j k x Ek Hx) as (k0 & E0 & HP). destruct (Hold x k0 E0) as (k1 & E1 & (Hn' & Hp' & _) & _). exists k1. split; [done|]. by rewrite Hn', Hp', Hpr.
  - intros name x E. specialize (Ha name x E). destruct (vm.(classes) !! x) as [k0|] eqn:E0; [|done]. destruct (Hold x k0 E0) as (k1 & -> & (_ & Hp' & _) & _). cbn in *. by rewrite Hp'.
  - split; [intros j n E; by exists n|]. split; [|done]. intros j k E. destruct (Hold j k E) as (k' & ? & ? & _). by exists k'.
Qed.
Lemma make_found vm c k st name sig id vm' : wf vm -> methods_exist vm -> vm.(classes) !! c = Some k -> find_if (is_method vm st name sig) k.(c_methods) = None -> make_method vm (Some c) st name sig = Ret (id, vm') ->
  exists m k', id = Some m /\ vm'.(classes) !! c = Some k' /\ k'.(nativeprefix) = k.(nativeprefix) /\ find_if (is_method vm' st name sig) k'.(c_methods) = Some m /\ wf vm' /\ methods_exist vm' /\ grows vm vm'.
Proof.
  intros Hwf Hex Ek Hnone H. unfold make_method in H. apply bind_ret_inv in H as (vm2 & Hd & [= <- <-]). set (m := length vm.(methods)) in *. set (new := mkMethod name sig st false None) in *. destruct (add_method_ok vm c m (vm.(methods) ++ [new]) Hwf) as [Hwf1 G1].
  set (vm1 := set_classes (alter (add_method m) c vm.(classes)) (set_methods (vm.(methods) ++ [new]) vm)) in *. change (declare_classes (S (length sig)) vm1 sig = Ret vm2) in Hd. destruct (declare_grows _ _ _ _ Hwf1 Hd) as [Hwf2 G2]. destruct (declare_members _ _ _ _ Hd) as [Hms Hcl]. assert (vm1.(classes) !! c = Some (add_method m k)) as E1 by (cbn; by rewrite list_lookup_alter_eq, Ek).
  destruct (proj1 (proj2 G2) c _ E1) as (k' & E2 & _ & Hp2 & _). assert (k'.(c_methods) = k.(c_methods) ++ [m]) as Hm by (destruct (Hcl c k' E2) as [(k1 & E1' & -> & _)|[Hnil _]]; [rewrite E1 in E1'; by injection E1' as <-|destruct (proj1 (proj2 G2) c _ E1) as (k2 & E2' & _ & _ & _ & [r Hpre] & _); rewrite E2 in E2'; injection E2' as <-; rewrite Hnil in Hpre; cbn in Hpre; by destruct (c_methods k)]).
  exists m, k'. split; [done|]. split; [done|]. split; [done|]. split; [|split; [done|split; [|by eapply grows_trans]]].
  - rewrite Hm. eapply find_if_snoc; [exact Hnone| |].
    + intros y Hy. pose proof (Hex c k y Ek Hy). unfold is_method. rewrite Hms. cbn. by rewrite lookup_app_l.
    + unfold is_method. rewrite Hms. cbn. rewrite (proj2 (snoc_lookup _ new m new)) by (by right). by apply bool_decide_eq_true.
  - intros c0 k0 x E0 Hx. rewrite Hms. cbn. rewrite length_app. cbn. destruct (Hcl c0 k0 E0) as [(k1 & E1' & Hk & _)|[Hnil _]]; [|rewrite Hnil in Hx; by apply elem_of_nil in Hx]. rewrite Hk in Hx. cbn in E1'. destruct (decide (c = c0)) as [<-|Hne].
    + rewrite E1 in E1' || rewrite list_lookup_alter_eq, Ek in E1'. injection E1' as <-. cbn in Hx. apply elem_of_app in Hx as [Hx| ->%list_elem_of_singleton]; [pose proof (Hex c k x Ek Hx); lia|unfold m; lia].
    + rewrite list_lookup_alter_ne in E1' by done. pose proof (Hex c0 k1 x E1' Hx). lia.
Qed.
(** The lookup of a method that is not a constructor of an instance. *)
Lemma get_method_core fuel st vm c name sig id vm' : (st = false -> name ≠ lit "<init>") -> wf vm -> methods_exist vm -> GetMethodID fuel st false vm (Some c) name sig = Ret (id, vm') ->
  exists m, id = Some m /\ is_method vm' st name sig m = true /\ GetMethodID fuel st false vm' (Some c) name sig = Ret (Some m, vm') /\ wf vm' /\ methods_exist vm' /\ grows vm vm'.
Proof.
  intros Hn Hwf Hex H. destruct fuel as [|fuel]; [done|]. pose proof H as H0. cbn [GetMethodID] in H. destruct (vm.(classes) !! c) as [k|] eqn:Ek; [|done]. rewrite decide_False in H by naive_solver. destruct (find_if _ k.(c_methods)) as [m|] eqn:Em.
  { injection H as <- <-. exists m. apply find_if_elem in Em as [_ Hm]. split; [done|]. split; [done|]. split; [done|]. split; [done|]. split; [done|apply grows_refl]. }
  assert (forall bs, (forall id1 vm1, (fix search (bs : list (option nat)) (vm : VM) : outcome exn (option nat * VM) := match bs with | [] => Ret (None, vm) | None :: bs => search bs vm | Some b :: bs => '(id, vm) ← GetMethodID fuel st true vm (Some b) name sig; match id with Some m => Ret (Some m, vm) | None => search bs vm end end) bs vm = Ret (id1, vm1) -> vm1 = vm /\ forall m, id1 = Some m -> is_method vm st name sig m = true)) as Hsearch.
  { induction bs as [|[b|] bs IHbs]; intros id1 vm1 Hs; [by simplify_eq| |by apply IHbs]. apply bind_ret_inv in Hs as ([id2 vm2] & Hb & Hs). destruct (search_pure _ _ _ _ _ _ _ _ Hn Hb) as [-> Hm]. destruct id2 as [m|]; [|by apply IHbs]. injection Hs as <- <-. done. }
  apply bind_ret_inv in H as ([id1 vm1] & Hs & H). destruct (Hsearch _ _ _ Hs) as [-> Hm]. destruct id1 as [m|].
  { injection H as <- <-. exists m. split; [done|]. split; [by apply Hm|]. split; [done|]. split; [done|]. split; [done|apply grows_refl]. }
  destruct (make_found vm c k st name sig id vm' Hwf Hex Ek Em H) as (m & k' & -> & Ek' & _ & Hf & Hwf' & Hex' & G). exists m. split; [done|]. split; [by apply find_if_elem in Hf as [_ ?]|]. split; [|done].
  cbn [GetMethodID]. rewrite Ek'. rewrite decide_False by naive_solver. by rewrite Hf.
Qed.

(** ** Base classes *)

Definition base (vm : VM) (x y : nat) : Prop := exists k, vm.(classes) !! x = Some k /\ Some y ∈ default [] k.(baseclasses).
(** No class is a base of itself: [r] decreases from a class to its bases, which exist. *)
Definition ranked (r : nat -> nat) (vm : VM) : Prop := forall x y, base vm x y -> r y < r x /\ is_Some (vm.(classes) !! y).

Lemma get_method_ends r fuel : forall st b vm c name sig, ranked r vm -> (st = false -> name ≠ lit "<init>") -> r c < fuel -> GetMethodID fuel st b vm (Some c) name sig ≠ Diverge.
Proof.
  induction fuel as [|fuel IH]; intros st b vm c name sig Hr Hn Hf; [lia|]. cbn [GetMethodID]. destruct (vm.(classes) !! c) as [k|] eqn:Ek; [|done]. rewrite decide_False by naive_solver. destruct (find_if _ k.(c_methods)); [done|].
  assert (forall m : outcome exn (option nat * VM), m ≠ Diverge -> ('(id, vm) ← m; match id with Some m => Ret (Some m, vm) | None => if b then Ret (None, vm) else make_method vm (Some c) st name sig end) ≠ Diverge) as Hend.
  { intros [[[m|] vm1]| | |] Hm; try done. cbn [mbind outcome_bind]. destruct b; [done|]. unfold make_method. pose proof (declare_ends (S (length sig)) (set_classes (alter (add_method (length (methods vm1))) c (classes (set_methods (methods vm1 ++ [mkMethod name sig st false None]) vm1))) (set_methods (methods vm1 ++ [mkMethod name sig st false None]) vm1)) sig ltac:(lia)) as Hd. destruct (declare_classes _ _ _); done. }
  apply Hend. assert (forall bs, (forall y, Some y ∈ bs -> r y < fuel) -> (fix search (bs : list (option nat)) (vm : VM) : outcome exn (option nat * VM) := match bs with | [] => Ret (None, vm) | None :: bs => search bs vm | Some b :: bs => '(id, vm) ← GetMethodID fuel st true vm (Some b) name sig; match id with Some m => Ret (Some m, vm) | None => search bs vm end end) bs vm ≠ Diverge) as Hs.
  { induction bs as [|[y|] bs IHbs]; intros Hb; [done| |apply IHbs; intros y Hy; apply Hb; by right]. pose proof (IH st true vm y name sig Hr Hn (Hb y ltac:(left))) as Hy. destruct (GetMethodID fuel st true vm (Some y) name sig) as [[id vm1]| | |] eqn:Ey; try done. cbn [mbind outcome_bind]. destruct (search_pure _ _ _ _ _ _ _ _ Hn Ey) as [-> _]. destruct id; [done|]. apply IHbs. intros z Hz. apply Hb. by right. }
  apply Hs. intros y Hy. destruct (Hr c y) as [? _]; [by exists k|lia].
Qed.
Lemma has_base_ok r vm fuel : ranked r vm -> forall x y, is_Some (vm.(classes) !! x) -> r x < fuel -> exists a, HasBaseClass fuel vm x y = Ret a /\ (a = true <-> rtc (base vm) x y).
Proof.
  intros Hr. induction fuel as [|fuel IH]; intros x y Hx Hf; [lia|]. cbn [HasBaseClass]. destruct (decide (x = y)) as [->|Hne]; [exists true; split; [done|]; split; [intros _; apply rtc_refl|done]|]. destruct Hx as [k Ek]. rewrite Ek.
  assert (forall bs, (forall z, Some z ∈ bs -> base vm x z) -> exists a, (fix search (bs : list (option nat)) : outcome exn bool := match bs with | [] => Ret false | None :: bs => search bs | Some b :: bs => r ← HasBaseClass fuel vm b y; if r : bool then Ret true else search bs end) bs = Ret a /\ (a = true <-> exists z, Some z ∈ bs /\ rtc (base vm) z y)) as Hs.
  { induction bs as [|[z|] bs IHbs]; intros Hb.
    - exists false. split; [done|]. split; [done|]. by intros (z & Hz%elem_of_nil & _).
    - destruct (Hr x z (Hb z ltac:(left))) as [Hlt Hz]. destruct (IH z y Hz ltac:(lia)) as (a & -> & Ha). cbn [mbind outcome_bind]. destruct a; [exists true; split; [done|]; split; [intros _; exists z; split; [left|by apply Ha]|done]|].
      destruct IHbs as (a & -> & Ha'); [intros w Hw; apply Hb; by right|]. exists a. split; [done|]. rewrite Ha'. split; [intros (w & Hw & ?); exists w; split; [by right|done]|]. intros (w & [Hw|Hw]%elem_of_cons & Hrtc); [injection Hw as ->; by apply Ha in Hrtc|by exists w].
    - destruct IHbs as (a & -> & Ha'); [intros w Hw; apply Hb; by right|]. exists a. split; [done|]. rewrite Ha'. split; intros (w & Hw & ?); exists w; (split; [|done]); [by right|by apply elem_of_cons in Hw as [?|?]]. }
  destruct (Hs (default [] k.(baseclasses))) as (a & -> & Ha); [intros z Hz; by exists k|]. exists a. split; [done|]. rewrite Ha. split.
  - intros (z & Hz & Hrtc). eapply rtc_l; [|exact Hrtc]. by exists k.
  - intros Hrtc. apply rtc_inv in Hrtc as [?|(z & (k' & Ek' & Hz) & Hrtc)]; [done|]. rewrite Ek in Ek'. injection Ek' as <-. by exists z.
Qed.

(** ** Theorems *)

(** C31. A class is found under its name: it carries that name; whatever is looked up
    later, the same name finds the same class and changes nothing; and another name
    never finds it. *)
Theorem class_found (vm : VM) (name other : bytes) : wf vm -> let '(c, vm1) := InternalFindClass vm name in
  wf vm1 /\ nativeprefix <$> vm1.(classes) !! c = Some name /\ (forall vm2, grows vm1 vm2 -> InternalFindClass vm2 name = (c, vm2)) /\
  (other ≠ name -> (InternalFindClass vm1 other).1 ≠ c).
Proof.
  intros Hwf. pose proof (find_class_ok vm name Hwf) as (Hwf1 & _ & Hn & Hagain). destruct (InternalFindClass vm name) as [c vm1]. cbn [fst snd] in *. split; [done|]. split; [done|]. split; [done|]. intros Hne E. destruct (find_class_ok vm1 other Hwf1) as (_ & G & Hn2 & _). rewrite E in Hn2.
  destruct (vm1.(classes) !! c) as [k|] eqn:Ek; [|done]. destruct (proj1 (proj2 G) c k Ek) as (k' & E' & _ & Hp & _). rewrite E' in Hn2. cbn in *. by simplify_eq.
Qed.
Lemma new_VM_wf : wf new_VM.
Proof.
  exists (fun _ => []). split; [split; [by eexists|done]|]. split; [|split; [|done]].
  - intros [|i] n j E Hj; [|done]. cbn in E. injection E as <-. by apply elem_of_nil in Hj.
  - intros [|i] n j E Hj; [|done]. cbn in E. injection E as <-. by apply elem_of_nil in Hj.
Qed.
Lemma class_found_witness : let '(c, vm1) := InternalFindClass new_VM (lit "java/util/Map$Entry") in nativeprefix <$> vm1.(classes) !! c = Some (lit "java/util/Map$Entry") /\ (InternalFindClass vm1 (lit "java/util/Map")).1 ≠ c.
Proof.
  pose proof (class_found new_VM (lit "java/util/Map$Entry") (lit "java/util/Map") new_VM_wf) as H. destruct (InternalFindClass new_VM (lit "java/util/Map$Entry")) as [c vm1]. destruct H as (_ & H1 & _ & H2). split; [exact H1|]. apply H2. discriminate.
Defined.

(** A method is found under its name and signature, or made: what is returned has
    them, the signature of a constructor naming its class, and asking again returns
    the same method and adds nothing. *)
Theorem method_found fuel (st : bool) (vm : VM) (c : nat) (name sig : bytes) id vm' : wf vm -> methods_exist vm -> GetMethodID fuel st false vm (Some c) name sig = Ret (id, vm') ->
  wf vm' /\ methods_exist vm' /\ exists m k h, id = Some m /\ vm.(classes) !! c = Some k /\
    vm'.(methods) !! m = Some (if decide (st = false /\ name = lit "<init>") then mkMethod name (init_signature k sig) true false h else mkMethod name sig st false h) /\
    GetMethodID fuel st false vm' (Some c) name sig = Ret (Some m, vm').
Proof.
  intros Hwf Hex H. assert (exists k, vm.(classes) !! c = Some k) as [k Ek] by (destruct fuel; [done|]; cbn [GetMethodID] in H; destruct (vm.(classes) !! c) as [k|]; [by exists k|done]). destruct (decide (st = false /\ name = lit "<init>")) as [[-> ->]|Hn].
  - destruct fuel as [|fuel]; [done|]. cbn [GetMethodID] in H. rewrite Ek, decide_True in H by done. destruct (get_method_core fuel true vm c _ _ _ _ ltac:(done) Hwf Hex H) as (m & -> & Hm & Hagain & Hwf' & Hex' & G). split; [done|]. split; [done|]. destruct (is_method_spec _ _ _ _ _ Hm) as [h Eh]. exists m, k, h. split; [done|]. split; [done|]. split; [done|].
    destruct (proj1 (proj2 G) c k Ek) as (k' & Ek' & _ & Hp & _). cbn [GetMethodID]. rewrite Ek', decide_True by done. unfold init_signature in *. by rewrite Hp.
  - destruct (get_method_core fuel st vm c _ _ _ _ ltac:(naive_solver) Hwf Hex H) as (m & -> & Hm & Hagain & Hwf' & Hex' & G). split; [done|]. split; [done|]. destruct (is_method_spec _ _ _ _ _ Hm) as [h Eh]. exists m, k, h. done.
Qed.
(** A machine with one class, and after its constructor was asked for. *)
Definition one_class : VM := (InternalFindClass new_VM (lit "a/B")).2.
Definition one_constructor : VM := match GetMethodID 3 false false one_class (Some 0) (lit "<init>") (lit "(Lc/D;)V") with Ret (_, vm) => vm | _ => one_class end.
Lemma method_found_witness : exists h, one_constructor.(methods) !! 0 = Some (mkMethod (lit "<init>") (lit "(Lc/D;)La/B;") true false h).
Proof.
  destruct (method_found 3 false one_class 0 (lit "<init>") (lit "(Lc/D;)V") (Some 0) one_constructor (proj1 (find_class_ok new_VM (lit "a/B") new_VM_wf))) as (_ & _ & m & k & h & Hm & Hk & H & _); [|vm_compute; reflexivity|].
  - intros [|c] k m E Hm; [|done]. vm_compute in E. injection E as <-. by apply elem_of_nil in Hm.
  - exists h. injection Hm as <-. vm_compute in Hk. injection Hk as <-. exact H.
Defined.

(** Where no class is its own base, the lookup of a method and the test of
    assignability end, and the test says whether the one class is reached from the
    other through base classes. *)
Theorem bases_searched (r : nat -> nat) (vm : VM) (x y : nat) (st : bool) (name sig : bytes) : ranked r vm -> is_Some (vm.(classes) !! x) ->
  GetMethodID (r x + 2) st false vm (Some x) name sig ≠ Diverge /\ exists a, HasBaseClass (r x + 1) vm x y = Ret a /\ (a = true <-> rtc (base vm) x y).
Proof.
  intros Hr Hx. split; [|apply (has_base_ok r); [done..|lia]]. destruct (decide (st = false /\ name = lit "<init>")) as [[-> ->]|Hn]; [|apply (get_method_ends r); [done|naive_solver|lia]].
  replace (r x + 2) with (S (r x + 1)) by lia. cbn [GetMethodID]. destruct Hx as [k Ek]. rewrite Ek, decide_True by done. apply (get_method_ends r); [done|done|lia].
Qed.

(** A machine with a class, one derived from it and one derived from that, and a
    method of the first that the second overrides. *)
Definition derived : VM :=
  mkVM [mkNamespace (lit "jnivm") [] [0; 1; 2]]
    [mkClass (lit "A") (lit "A") [] [] [0] None []; mkClass (lit "B") (lit "B") [] [] [1] (Some [Some 0]) []; mkClass (lit "C") (lit "C") [] [] [] (Some [Some 1]) []]
    [mkMethod (lit "run") (lit "()V") false false (Some 10%Z); mkMethod (lit "run") (lit "()V") false false (Some 20%Z)] [] [].
Lemma bases_searched_witness : ranked (fun x => x) derived /\ exists a, HasBaseClass 3 derived 2 0 = Ret a /\ (a = true <-> rtc (base derived) 2 0).
Proof.
  assert (ranked (fun x => x) derived) as Hr.
  { intros [|[|[|x]]] y (k & E & Hy); cbn in E; try done; injection E as <-; cbn in Hy; [by apply elem_of_nil in Hy|apply list_elem_of_singleton in Hy; injection Hy as ->..]; (split; [lia|by eexists]). }
  split; [exact Hr|]. apply (bases_searched (fun x => x) derived 2 0 false (lit "run") (lit "()V") Hr). by eexists.
Defined.

(** A call of an instance method runs the first method of the object's own class
    with that name and signature that has a function, and the method it was given
    where that class has none. *)
Theorem call_dispatches (vm : VM) (c i : nat) (k : Class) (mid : Method) (h : Z) : vm.(classes) !! c = Some k -> vm.(methods) !! i = Some mid -> mid.(m_handle) = Some h ->
  CallMethod_function vm (Some c) (Some i) = Ret (match find_if (is_overload vm mid) k.(c_methods) with Some m => vm.(methods) !! m ≫= m_handle | None => Some h end).
Proof.
  intros Ek Em Eh. unfold CallMethod_function. cbn [mbind option_bind]. rewrite Em. cbn [mbind option_bind]. rewrite Eh. cbn [findVirtualOverload findNonVirtualOverload]. rewrite Ek, Em. cbn [mbind outcome_bind]. destruct (find_if (is_overload vm mid) (c_methods k)) as [m|] eqn:E.
  - cbn. apply find_if_elem in E as [_ Ho]. unfold is_overload in Ho. by destruct (vm.(methods) !! m).
  - cbn. by rewrite Em, Eh.
Qed.
Lemma call_dispatches_witness : CallMethod_function derived (Some 1) (Some 0) = Ret (Some 20%Z).
Proof. exact (call_dispatches derived 1 0 _ _ 10%Z eq_refl eq_refl eq_refl). Defined.

(** The base classes of the method object are asked for, not those of the class:
    the override of the class between is passed over. *)
Example inherited_override_missed : CallMethod_function derived (Some 2) (Some 0) = Ret (Some 10%Z) /\ HasBaseClass 3 derived 2 1 = Ret true /\ CallMethod_function derived (Some 1) (Some 0) = Ret (Some 20%Z).
Proof. split; [|split]; reflexivity. Qed.
(** A call without dispatch, through the class a method was looked up in, goes
    through a null pointer where the class inherits the method. *)
Example nonvirtual_inherited_undefined : GetMethodID 5 false false derived (Some 2) (lit "run") (lit "()V") = Ret (Some 1, derived) /\ CallNonvirtualMethod_function derived (Some 2) (Some 1) = Undef.
Proof. split; reflexivity. Qed.
(** Registering a native method again leaves the first one in place for every call,
    and unregistering does not remove it. *)
Theorem native_stays (fn fn' : Z) : let vm := RegisterNatives (InternalFindClass new_VM (lit "A")).2 0 [(lit "f", lit "()V", fn); (lit "f", lit "()V", fn')] in
  (getMethod vm 0 (lit "()V") (lit "f") ≫= fun i => vm.(methods) !! i ≫= m_handle) = Some fn /\ natives <$> vm.(classes) !! 0 = Some [(lit "f", fn')] /\
  getMethod (UnregisterNatives vm 0) 0 (lit "()V") (lit "f") = getMethod vm 0 (lit "()V") (lit "f").
Proof. split; [|split]; reflexivity. Qed.

End JniClasses.
